(* ===== verification/_CoqProject ===== *)
-Q . S2P
Prelude.v
JsObject.v
Binary.v
BitVector.v
WaveletMatrix.v
Suffixes.v
Sais.v
SaisTypes.v
SaisScan.v
SaisInduce.v
SaisLevel.v
SaisNames.v
SaisCorrect.v
BurrowsWheeler.v
FMIndex.v
Lang.v
Query.v
QueryParser.v
QueryStringParser.v
SearchResult.v
Text.v
Metadata.v
Sections.v
Splitters.v
Tables.v
Blocks.v
Oktavia.v
OktaviaSearch.v
OktaviaFile.v
Getopt.v
BaseStemmer.v
Swedish.v
Snowball.v
SnowballRules.v
Danish.v
Dutch.v
English.v
Finnish.v
French.v
German.v
Hungarian.v
Italian.v
Norwegian.v
Porter.v
Portuguese.v
Romanian.v
Russian.v
Spanish.v
Turkish.v
Sha256.v
Sha256Message.v
CacheDigest.v
ServiceWorker.v
Sax.v
SaxNesting.v
SaxReturns.v
SaxRoundtrip.v
Style.v
CodeUnits.v
WebSearch.v
WebResults.v
HtmlParser.v
HtmlIndex.v
HtmlSite.v
Stemmers.v
MkIndex.v
MkSite.v
SearchTool.v
SearchRuns.v
