(* ===== verification/Prelude.v ===== *)
(** * Verification of the JavaScript search engine (Oktavia) of vhttp

    The repository is an HTTP server written in C.  Its JavaScript is a full-text
    search engine for the documentation, written in JSX, a typed JavaScript, under
    [src/misc/oktavia], and a service worker, [src/misc/cache-digest.js].  This
    library models both.  Paths below are relative to [src/misc/oktavia/src] unless
    they start with [tool/], which is beside it.

    ** How the parts work together

    The index generator ([tool/oktavia-mkindex.jsx]) reads its command line
    ([getopt.jsx]) and the HTML files of a site ([htmlparser.jsx], which is a handler
    of the SAX parser [sax.jsx]).  Their words are added to an [Oktavia] object
    ([oktavia.jsx]), which renumbers the characters and pushes the codes to an
    FM-index ([fm-index.jsx]).  Words may be reduced to stems first ([stemmer/]).
    Metadata ([metadata.jsx]) mark in bit vectors where sections, splits, tables and
    blocks end.  [build] sorts the suffixes of the text ([sais.jsx]), takes the
    Burrows-Wheeler transform ([burrows-wheeler-transform.jsx]) and stores it in a
    wavelet matrix ([wavelet-matrix.jsx]) made of bit vectors ([bit-vector.jsx]).
    [dump] and [load] write and read everything with [binary-util.jsx].

    The search page ([tool/web/oktavia-search.jsx]) and the search command
    ([tool/oktavia-search.jsx]) load the file.  A query is parsed
    ([query-string-parser.jsx], [query-parser.jsx], [query.jsx]); each of its words is
    searched for, the positions are grouped by section, the results of the words are
    merged ([search-result.jsx]), sorted by score and shown ([style.jsx]).

    Apart from this, the service worker caches responses and tells the server which
    of them are fresh, as a Golomb coded set of SHA-256 hashes.

    ** Files

    - [Prelude]: outcomes of code that may throw, read [undefined] or loop;
      32-bit arithmetic of JavaScript; strings as lists of UTF-16 units; arrays.
      [JsObject]: objects used as maps, with their enumeration order and what
      they inherit.  [Lang]: string functions of the language.
    - [Binary] ([Module Bin], [binary-util.jsx]); the class [Bin.Codec] is the
      interface between the format and the components that are saved with it.
    - [BitVector] ([BV]), [WaveletMatrix] ([WM]), [BurrowsWheeler] ([BWT]),
      [FMIndex] ([FM]).
    - [Suffixes]: suffix arrays and counting in them, the specification of the
      index.  [Sais] models [sais.jsx]; [SaisTypes], [SaisScan], [SaisInduce],
      [SaisLevel], [SaisNames] and [SaisCorrect] prove it correct.
    - [Query], [QueryParser], [QueryStringParser]; [SearchResult] ([SR]), where
      the units that results share live in a store.
    - [Text] ([oktavia.jsx], its text and codes); [Metadata] ([Meta], the base
      class as the class [Meta.Metadata]) with the subclasses [Sections] ([Sec]),
      [Splitters] ([Spl]), [Tables] ([Tab]) and [Blocks] ([Blk]); [Oktavia]
      ([Okt], the engine); [OktaviaSearch], [OktaviaFile] and [CodeUnits]: theorems
      about the engine at work and about its files.
    - [Getopt] ([getopt.jsx]).
    - [BaseStemmer] ([stemmer/base-stemmer.jsx], [among.jsx]) and [Swedish], a
      stemmer with its published algorithm as reference.  [Snowball] is a language of
      statements with labels, loops and returns, in which [Danish], [Dutch],
      [English], [Finnish], [French], [German], [Hungarian], [Italian], [Norwegian],
      [Porter], [Portuguese], [Romanian], [Russian], [Spanish] and [Turkish] are
      written statement by statement as in [stemmer/]; [SnowballRules] is the logic
      they are proved in, with a class for each kind of promise that a method makes.
      [Stemmers] chooses one by its name, with the class [Stemmers.Reliable].
    - [Sax] ([sax.jsx]); [SaxNesting], [SaxReturns] and [SaxRoundtrip]: theorems
      about it.  [Style] ([style.jsx]).
    - [WebSearch] ([Web], the search page) and [WebResults], its theorems.
    - [HtmlParser] ([Html], [htmlparser.jsx]); [HtmlIndex] and [HtmlSite]: what the
      index of a site holds.  [MkIndex] (the generator) and [MkSite], its theorems.
    - [SearchTool] (the search command) and [SearchRuns], its theorems.
    - [Sha256], [Sha256Message], [CacheDigest] and [ServiceWorker] ([Worker]):
      [src/misc/cache-digest.js/cache-digest.js].

    A class is a record [t] with the fields of the source and its methods are
    functions that return the new record; a method that may throw returns an
    [outcome].  Names are those of the source where Rocq allows them.

    ** What the theorems show

    - Bottom up, the index is exact.  The bit vector and the wavelet matrix
      refine counting in lists ([bitvector_refines], [wavelet_refines]); the
      suffix sort returns the sorted suffixes of every marked string
      ([suffix_sort_correct]); the index finds exactly the occurrences of a
      keyword that does not end in the largest code ([search_exact]) and reads
      text back where the next checkpoint is inside of it ([substring_exact]);
      so are names and contents of documents ([document_content]).
    - The engine returns for any documents and queries of plain characters, and the
      theorems say exactly what it finds ([search_documents]) and at which
      positions ([search_positions]).  A word is searchable if its characters
      occur in the documents and its last one is not the last of them in the order
      in which they were met.  Searchable words are found in exactly the documents
      in which they start; as the documents follow one another without anything
      between them, a match may run over the end of its document, and it does not
      if every document ends in a character that the word has not.  In other words
      the characters that no document has are taken for the first one of the
      documents, and words that end in the last one are not found.  An engine that
      was saved and loaded returns the same for words that are not lost so
      ([loaded_search], [file_roundtrip]).
    - From end to end, without a stemmer and for searchable words: the generator run on
      pages of one template (a title, then an element with a paragraph followed by
      headings, paragraphs and preformatted texts) writes a file with which the page
      finds exactly the sections that the typed queries ask for, ordered by
      the scores of their hits ([site_search], [page_search], [page_results]), and
      the command prints exactly the documents that its words ask for, in this order
      ([command_search]).  The generator writes nothing if it reported an error
      ([mkindex_strict]).
    - Every stemmer returns on every word, and the stem depends on the word only
      ([every_stemmer]); in their tables the longest ending is found
      ([tables_searched]); the Swedish stemmer computes the published algorithm
      ([swedish_stems]).  That the other stemmers compute theirs is not proved.
    - The SAX parser never throws and reports tags nested ([sax_nested]), reads
      printed documents back ([sax_roundtrip]) and returns unless a [<] is followed
      by a space ([sax_returns]); the styles keep markup out of texts
      ([html_harmless], [style_renders]).
    - The worker keeps only fresh responses ([worker_sound]), and its header decodes to
      the hashes of the cached pages whose lookup gave a fresh response
      ([digests_complete], [sha256_correct]).
    - Round trips of the file format, of the query languages and of command
      lines; results merge as set operations ([merge_results]).
    - Loops end: [positions_total], [option_loop_ends]; every theorem that
      concludes [Ret] excludes exceptions, [undefined] and exhausted fuel.
    - Where the code does not do what it means to, a theorem says so:
      [search_top_lost], [substring_shifted], [unknown_collides],
      [inherited_word_throws], [adjacent_blocks], [no_blocks], [long_string_lost],
      [proposal_single_throws], [unknown_option_loops], [lone_lt_loops],
      [html_never_stops], [mono_throws].

    ** Bounds, fuel and parameters

    Numbers are exact integers with the conversions to 32 and 16 bits written
    out; theorems assume sizes below [2 ^ 31] where the code relies on them.
    Loops that are not structural take fuel.  Inside of the engine each is called
    with a bound that the theorems show to be enough: the length of the string or
    array it walks over, plus one or two for the last test (the recursion of
    [SAIS._make] halves the string, a walk to a checkpoint ends within the text, the
    binary searches shrink their interval).  The loops of a stemmer get one
    round more than the text has characters.  Where the fuel is an argument (the SAX parser, the
    directories and options of the tools), theorems state how much is enough.

    Parameters are the Unicode tables of [toLowerCase] (class [CaseMap]), how
    an engine prints its own functions and large numbers ([Runtime]), Node's [path]
    module ([NodePath]) and file system, the browser's cache ([Worker.CacheApi]) with
    the times and the order in which its lookups resolve, [Date.parse], and in the
    engine the stemmer.

    ** Not modelled

    The Japanese segmenter (a third-party classifier made of tables of weights), the
    readers of text and CSV files (stubs that index nothing; what the generator does
    with them is modelled), the demonstrations [tool/httpstatus.jsx] and
    [tool/search_simple.jsx] (the latter imports files that do not exist), the command
    line of the digests (process arguments and output), the methods [equals] and
    [hashCode] of the stemmers, the scripts generated into [lib/], the page
    templates, the vendored Brotli decoder, and the server itself, which is written in
    C.  Messages of exceptions do not quote values, the verbose mode prints nothing,
    and what was printed before an exception is not kept. *)

From stdpp Require Export base tactics numbers list sets sorting strings.
From Stdlib Require Export ZArith Lia.

(** ** Outcomes

    A method of the source either returns, throws an [Error], reads a value the
    source leaves undefined (an array index out of range, [charCodeAt] past the
    end), or, for a loop translated with fuel, uses up its fuel.  The last two
    never coincide with a returned value, so a theorem that concludes [Ret]
    excludes them. *)
Inductive outcome (A : Type) : Type :=
  | Ret (a : A)
  | Throw (msg : string)
  | Undef
  | NoFuel.
Arguments Ret {A} a.
Arguments Throw {A} msg.
Arguments Undef {A}.
Arguments NoFuel {A}.

Global Instance outcome_ret : MRet outcome := @Ret.
Global Instance outcome_bind : MBind outcome := λ A B k m,
  match m with
  | Ret a => k a
  | Throw e => Throw e
  | Undef => Undef
  | NoFuel => NoFuel
  end.

Definition of_option {A} (o : option A) : outcome A :=
  match o with Some a => Ret a | None => Undef end.

(** Loops over a fixed sequence of indices. *)
Fixpoint ofold {A S} (f : S → A → outcome S) (s : S) (l : list A) : outcome S :=
  match l with
  | [] => Ret s
  | x :: l => s' ← f s x; ofold f s' l
  end.

Fixpoint omap_list {A B} (f : A → outcome B) (l : list A) : outcome (list B) :=
  match l with
  | [] => Ret []
  | x :: l => y ← f x; ys ← omap_list f l; Ret (y :: ys)
  end.

Create HintDb js.
Create Rewrite HintDb zlen.

Declare Scope js_scope.
Delimit Scope js_scope with js.
Global Open Scope Z_scope.

(** ** Numbers

    A JavaScript number that holds an integer is a [Z]; the bitwise operators
    convert their operands to 32 bits first, as ECMAScript defines them. *)
Definition to_uint32 (z : Z) : Z := z mod 2 ^ 32.
Definition to_int32 (z : Z) : Z := (z + 2 ^ 31) mod 2 ^ 32 - 2 ^ 31.
Definition to_uint16 (z : Z) : Z := z mod 2 ^ 16.

Definition js_and (a b : Z) : Z := Z.land (to_int32 a) (to_int32 b).
Definition js_or (a b : Z) : Z := Z.lor (to_int32 a) (to_int32 b).
Definition js_not (a : Z) : Z := Z.lnot (to_int32 a).
Definition js_shl (a n : Z) : Z := to_int32 (Z.shiftl (to_int32 a) (n mod 32)).
Definition js_sar (a n : Z) : Z := Z.shiftr (to_int32 a) (n mod 32).
Definition js_shr (a n : Z) : Z := Z.shiftr (to_uint32 a) (n mod 32).
(** [(a / b) | 0] and [(a % b) | 0]: the division of [int]s in JSX. *)
Definition js_div (a b : Z) : Z := to_int32 (Z.quot a b).
Definition js_rem (a b : Z) : Z := Z.rem a b.

Notation "a &' b" := (js_and a b) (at level 40, left associativity) : js_scope.
Notation "a |' b" := (js_or a b) (at level 50, left associativity) : js_scope.
Notation "~' a" := (js_not a) (at level 35, right associativity) : js_scope.
Notation "a <<' n" := (js_shl a n) (at level 45, left associativity) : js_scope.
Notation "a >>' n" := (js_sar a n) (at level 45, left associativity) : js_scope.
Notation "a >>>' n" := (js_shr a n) (at level 45, left associativity) : js_scope.

(** ** Strings and arrays

    A string is the list of its UTF-16 code units, a dense array a list. *)
Definition jsstr : Type := list Z.

Definition jstr (s : string) : list Z :=
  (λ c, Z.of_nat (Ascii.nat_of_ascii c)) <$> String.list_ascii_of_string s.

Definition zlen {A} (l : list A) : Z := Z.of_nat (length l).

(** [l[i]]; [None] is [undefined]. *)
Definition aget {A} (l : list A) (i : Z) : option A :=
  if decide (i < 0) then None else l !! Z.to_nat i.

(** [l[i] = x] for a dense array: in range it replaces, at the end it appends;
    a write that would leave a hole is outside the model. *)
Definition aset {A} (l : list A) (i : Z) (x : A) : outcome (list A) :=
  if decide (0 ≤ i < zlen l) then Ret (<[Z.to_nat i := x]> l)
  else if decide (i = zlen l) then Ret (l ++ [x])
  else Undef.

(** [String.fromCharCode]. *)
Definition fromCharCode (c : Z) : list Z := [to_uint16 c].

(** [slice]: negative indices count from the end, both are clamped. *)
Definition slice_index (len i : Z) : Z :=
  if decide (i < 0) then Z.max 0 (len + i) else Z.min i len.
Definition js_slice {A} (l : list A) (a b : Z) : list A :=
  let a' := slice_index (zlen l) a in
  let b' := slice_index (zlen l) b in
  take (Z.to_nat (b' - a')) (drop (Z.to_nat a') l).

(** [indexOf] on an array, [-1] when absent. *)
Fixpoint index_from {A} `{EqDecision A} (k : Z) (l : list A) (x : A) : Z :=
  match l with
  | [] => -1
  | y :: l => if decide (y = x) then k else index_from (k + 1) l x
  end.
Definition indexOf {A} `{EqDecision A} (l : list A) (x : A) : Z := index_from 0 l x.

(** ** Lemmas on outcomes and loops *)

Lemma bind_Ret {A B} (m : outcome A) (k : A → outcome B) b :
  (m ≫= k) = Ret b ↔ ∃ a, m = Ret a ∧ k a = Ret b.
Proof.
  split.
  - destruct m; simpl; try discriminate. eauto.
  - by intros (a & -> & ?).
Qed.

Lemma ofold_app {A S} (f : S → A → outcome S) s l1 l2 :
  ofold f s (l1 ++ l2) = (s' ← ofold f s l1; ofold f s' l2).
Proof.
  revert s. induction l1 as [|x l1 IH]; intros s; [done|].
  simpl. destruct (f s x); simpl; auto.
Qed.

(** The rule for a [for] loop: an invariant indexed by the number of iterations
    done, kept by every iteration, holds at the end, and the loop returns. *)
Lemma ofold_inv {A S} (P : nat → S → Prop) (f : S → A → outcome S) l s :
  P 0%nat s →
  (∀ k x s, l !! k = Some x → P k s → ∃ s', f s x = Ret s' ∧ P (Datatypes.S k) s') →
  ∃ s', ofold f s l = Ret s' ∧ P (length l) s'.
Proof.
  revert P s. induction l as [|x l IH]; intros P s H0 Hstep; [by eauto|].
  destruct (Hstep 0%nat x s) as (s1 & Hf & H1); [done..|].
  simpl. rewrite Hf. simpl.
  apply (IH (λ k, P (Datatypes.S k))); [done|].
  intros k y s' Hk. by apply (Hstep (Datatypes.S k)).
Qed.

(** Reason about the first loop of the goal with an invariant. *)
Tactic Notation "loop" constr(P) "as" simple_intropattern(pat) :=
  match goal with |- context [ofold ?f ?s ?l] => destruct (ofold_inv P f l s) as pat end.

Lemma ofold_pure {A S} (f : S → A → outcome S) (g : S → A → S) l s :
  (∀ s x, x ∈ l → f s x = Ret (g s x)) →
  ofold f s l = Ret (foldl g s l).
Proof.
  revert s. induction l as [|x l IH]; intros s Hf; [done|].
  simpl. rewrite Hf by set_solver. simpl. apply IH. set_solver.
Qed.

Lemma omap_list_pure {A B} (f : A → outcome B) (g : A → B) l :
  (∀ x, x ∈ l → f x = Ret (g x)) → omap_list f l = Ret (g <$> l).
Proof.
  induction l as [|x l IH]; intros Hf; [done|].
  simpl. rewrite Hf by set_solver. simpl. rewrite IH by set_solver. done.
Qed.

(** ** Lemmas on arrays *)

Lemma zlen_nonneg {A} (l : list A) : 0 ≤ zlen l.
Proof. unfold zlen. lia. Qed.
Lemma zlen_nil {A} : zlen (@nil A) = 0.
Proof. done. Qed.
Lemma zlen_cons {A} (x : A) l : zlen (x :: l) = 1 + zlen l.
Proof. unfold zlen. simpl. lia. Qed.
Lemma zlen_app {A} (l1 l2 : list A) : zlen (l1 ++ l2) = zlen l1 + zlen l2.
Proof. unfold zlen. rewrite length_app. lia. Qed.
Lemma zlen_insert {A} (l : list A) i x : zlen (<[i := x]> l) = zlen l.
Proof. unfold zlen. by rewrite length_insert. Qed.
Lemma zlen_fmap {A B} (f : A → B) l : zlen (f <$> l) = zlen l.
Proof. unfold zlen. by rewrite length_fmap. Qed.
Lemma zlen_seqZ a n : 0 ≤ n → zlen (seqZ a n) = n.
Proof. unfold zlen. rewrite length_seqZ. lia. Qed.
Lemma zlen_replicate {A} n (x : A) : zlen (replicate n x) = Z.of_nat n.
Proof. unfold zlen. by rewrite length_replicate. Qed.
Lemma zlen_take {A} n (l : list A) : zlen (take n l) = Z.min (Z.of_nat n) (zlen l).
Proof. unfold zlen. rewrite length_take. lia. Qed.
Lemma zlen_drop {A} n (l : list A) : zlen (drop n l) = Z.max 0 (zlen l - Z.of_nat n).
Proof. unfold zlen. rewrite length_drop. lia. Qed.
Lemma zlen_reverse {A} (l : list A) : zlen (reverse l) = zlen l.
Proof. unfold zlen. by rewrite length_reverse. Qed.
#[export] Hint Rewrite @zlen_nil @zlen_cons @zlen_app @zlen_insert @zlen_fmap @zlen_replicate
  @zlen_take @zlen_drop @zlen_reverse : zlen.
#[export] Hint Resolve zlen_nonneg : js.

Lemma aget_nat {A} (l : list A) (k : nat) : aget l (Z.of_nat k) = l !! k.
Proof. unfold aget. case_decide; [lia|]. by rewrite Nat2Z.id. Qed.
Lemma aget_nonneg {A} (l : list A) i : 0 ≤ i → aget l i = l !! Z.to_nat i.
Proof. intros. unfold aget. by case_decide; [lia|]. Qed.
Lemma aget_Some_range {A} (l : list A) i x : aget l i = Some x → 0 ≤ i < zlen l.
Proof.
  unfold aget, zlen. case_decide; [done|]. intros ?%lookup_lt_Some. lia.
Qed.
Lemma aget_is_Some {A} (l : list A) i : 0 ≤ i < zlen l → ∃ x, aget l i = Some x.
Proof.
  intros. rewrite aget_nonneg by lia.
  destruct (lookup_lt_is_Some_2 l (Z.to_nat i)) as [x ?]; [unfold zlen in *; lia|eauto].
Qed.
Lemma aget_None {A} (l : list A) i : i < 0 ∨ zlen l ≤ i → aget l i = None.
Proof.
  unfold aget, zlen. intros. case_decide; [done|]. apply lookup_ge_None. lia.
Qed.
Lemma aget_app_l {A} (l1 l2 : list A) i : i < zlen l1 → aget (l1 ++ l2) i = aget l1 i.
Proof. unfold aget, zlen. intros. case_decide; [done|]. apply lookup_app_l. lia. Qed.
Lemma aget_app_r {A} (l1 l2 : list A) i :
  zlen l1 ≤ i → aget (l1 ++ l2) i = aget l2 (i - zlen l1).
Proof.
  unfold aget, zlen. intros. rewrite !decide_False by lia.
  rewrite lookup_app_r by lia. f_equal. lia.
Qed.
Lemma aget_cons {A} (x : A) l i : aget (x :: l) i = if decide (i = 0) then Some x else aget l (i - 1).
Proof.
  unfold aget. destruct (decide (i = 0)) as [->|]; [done|].
  repeat case_decide; try lia; [done|].
  by replace (Z.to_nat i) with (S (Z.to_nat (i - 1))) by lia.
Qed.
Lemma aget_fmap {A B} (f : A → B) l i : aget (f <$> l) i = f <$> aget l i.
Proof. unfold aget. case_decide; [done|]. apply list_lookup_fmap. Qed.
Lemma aget_insert {A} (l : list A) i j x :
  0 ≤ i < zlen l →
  aget (<[Z.to_nat i := x]> l) j = if decide (j = i) then Some x else aget l j.
Proof.
  unfold aget, zlen. intros. repeat case_decide; try lia; subst; [done| |].
  - apply list_lookup_insert_eq. lia.
  - apply list_lookup_insert_ne. lia.
Qed.
Lemma aget_insert_nat {A} (l : list A) (i j : nat) x :
  Z.of_nat i < zlen l →
  aget (<[i := x]> l) (Z.of_nat j) = if decide (j = i) then Some x else aget l (Z.of_nat j).
Proof.
  intros. rewrite <- (Nat2Z.id i) at 1. rewrite aget_insert by lia. repeat case_decide; done || lia.
Qed.
Lemma aset_in_range {A} (l : list A) i x :
  0 ≤ i < zlen l → aset l i x = Ret (<[Z.to_nat i := x]> l).
Proof. intros. unfold aset. by rewrite decide_True by lia. Qed.
Lemma aget_seqZ a n i : 0 ≤ i < n → aget (seqZ a n) i = Some (a + i).
Proof.
  intros. rewrite aget_nonneg by lia. rewrite lookup_seqZ_lt by lia. f_equal. lia.
Qed.
Lemma aget_take {A} (l : list A) n i :
  i < Z.of_nat n → aget (take n l) i = aget l i.
Proof. unfold aget. intros. case_decide; [done|]. apply lookup_take_lt. lia. Qed.
Lemma aget_drop {A} (l : list A) n i :
  0 ≤ i → aget (drop n l) i = aget l (Z.of_nat n + i).
Proof.
  unfold aget. intros. rewrite !decide_False by lia. rewrite lookup_drop. f_equal. lia.
Qed.
Lemma aget_replicate {A} n (x : A) i : 0 ≤ i < Z.of_nat n → aget (replicate n x) i = Some x.
Proof. intros. rewrite aget_nonneg by lia. apply lookup_replicate_2. lia. Qed.

(** Two arrays with the same elements are the same array. *)
Lemma aget_ext {A} (l1 l2 : list A) :
  zlen l1 = zlen l2 → (∀ i, 0 ≤ i < zlen l1 → aget l1 i = aget l2 i) → l1 = l2.
Proof.
  intros Hlen H. apply list_eq. intros k.
  destruct (decide (k < length l1)%nat).
  - rewrite <- !aget_nat. apply H. unfold zlen. lia.
  - rewrite !lookup_ge_None_2; [done|unfold zlen in *; lia..].
Qed.

(** ** Lemmas on numbers *)

Lemma to_uint16_range z : 0 ≤ to_uint16 z < 65536.
Proof. unfold to_uint16. apply (Z.mod_pos_bound z (2 ^ 16)). lia. Qed.
Lemma to_uint16_small z : 0 ≤ z < 65536 → to_uint16 z = z.
Proof. intros. unfold to_uint16. apply Z.mod_small. change (2 ^ 16) with 65536. lia. Qed.
Lemma to_uint32_range z : 0 ≤ to_uint32 z < 2 ^ 32.
Proof. apply Z.mod_pos_bound. lia. Qed.
Lemma to_uint32_small z : 0 ≤ z < 2 ^ 32 → to_uint32 z = z.
Proof. apply Z.mod_small. Qed.
Lemma to_int32_range z : - 2 ^ 31 ≤ to_int32 z < 2 ^ 31.
Proof. unfold to_int32. pose proof (Z.mod_pos_bound (z + 2 ^ 31) (2 ^ 32)). lia. Qed.
Lemma to_int32_small z : - 2 ^ 31 ≤ z < 2 ^ 31 → to_int32 z = z.
Proof. intros. unfold to_int32. rewrite Z.mod_small by lia. lia. Qed.
Lemma to_uint32_to_int32 z : to_uint32 (to_int32 z) = to_uint32 z.
Proof.
  unfold to_uint32, to_int32.
  rewrite Zminus_mod_idemp_l. f_equal. lia.
Qed.
Lemma to_int32_to_uint32 z : to_int32 (to_uint32 z) = to_int32 z.
Proof. unfold to_uint32, to_int32. by rewrite Zplus_mod_idemp_l. Qed.

Lemma testbit_to_uint32 z i : 0 ≤ i < 32 → Z.testbit (to_uint32 z) i = Z.testbit z i.
Proof. intros. apply Z.mod_pow2_bits_low. lia. Qed.
Lemma testbit_to_uint32_high z i : 32 ≤ i → Z.testbit (to_uint32 z) i = false.
Proof. intros. apply Z.mod_pow2_bits_high. lia. Qed.
Lemma testbit_to_int32 z i : 0 ≤ i < 32 → Z.testbit (to_int32 z) i = Z.testbit z i.
Proof.
  intros. rewrite <- (testbit_to_uint32 (to_int32 z)), to_uint32_to_int32 by lia.
  by apply testbit_to_uint32.
Qed.
Lemma uint32_ext a b :
  (∀ i, 0 ≤ i < 32 → Z.testbit a i = Z.testbit b i) → to_uint32 a = to_uint32 b.
Proof.
  intros H. apply Z.bits_inj'. intros i Hi. destruct (decide (i < 32)).
  - rewrite !testbit_to_uint32 by lia. apply H. lia.
  - by rewrite !testbit_to_uint32_high by lia.
Qed.

(** The bitwise operators read through their unsigned 32-bit value. *)
Lemma testbit_js_and a b i :
  0 ≤ i < 32 → Z.testbit (js_and a b) i = Z.testbit a i && Z.testbit b i.
Proof. intros. unfold js_and. by rewrite Z.land_spec, !testbit_to_int32 by lia. Qed.
Lemma testbit_js_or a b i :
  0 ≤ i < 32 → Z.testbit (js_or a b) i = Z.testbit a i || Z.testbit b i.
Proof. intros. unfold js_or. by rewrite Z.lor_spec, !testbit_to_int32 by lia. Qed.
Lemma testbit_js_not a i :
  0 ≤ i < 32 → Z.testbit (js_not a) i = negb (Z.testbit a i).
Proof. intros. unfold js_not. by rewrite Z.lnot_spec, testbit_to_int32 by lia. Qed.
Lemma testbit_js_shl a n i :
  0 ≤ n < 32 → 0 ≤ i < 32 →
  Z.testbit (js_shl a n) i = if decide (i < n) then false else Z.testbit a (i - n).
Proof.
  intros. unfold js_shl. rewrite testbit_to_int32 by lia.
  rewrite Z.mod_small by lia. case_decide.
  - by rewrite Z.shiftl_spec_low by lia.
  - rewrite Z.shiftl_spec by lia. apply testbit_to_int32. lia.
Qed.
Lemma js_and_uint32 a b : to_uint32 (js_and a b) = Z.land (to_uint32 a) (to_uint32 b).
Proof.
  apply Z.bits_inj'. intros i Hi. rewrite Z.land_spec. destruct (decide (i < 32)).
  - by rewrite !testbit_to_uint32, testbit_js_and by lia.
  - by rewrite !testbit_to_uint32_high by lia.
Qed.
(** Masking with a value that has bit 31 clear gives the unsigned result. *)
Lemma js_and_mask a m : 0 ≤ m < 2 ^ 31 → js_and a m = Z.land (to_uint32 a) m.
Proof.
  intros Hm. unfold js_and. rewrite (to_int32_small m) by lia.
  apply Z.bits_inj'. intros i Hi. rewrite !Z.land_spec. destruct (decide (i < 32)).
  - by rewrite testbit_to_uint32, testbit_to_int32 by lia.
  - rewrite <- (Z.mod_small m (2 ^ 32)) by lia.
    by rewrite (Z.mod_pow2_bits_high m), !andb_false_r by lia.
Qed.
Lemma js_shr_and a m n :
  0 ≤ n < 32 → js_shr (js_and a m) n = Z.shiftr (Z.land (to_uint32 a) (to_uint32 m)) n.
Proof. intros. unfold js_shr. by rewrite js_and_uint32, Z.mod_small by lia. Qed.

Lemma land_bound a m n : 0 ≤ n → 0 ≤ m < 2 ^ n → 0 ≤ Z.land a m < 2 ^ n.
Proof.
  intros Hn Hm. replace (Z.land a m) with (Z.land a m mod 2 ^ n).
  { apply Z.mod_pos_bound. lia. }
  apply Z.bits_inj'. intros i Hi. destruct (decide (i < n)).
  - by rewrite Z.mod_pow2_bits_low by lia.
  - rewrite Z.mod_pow2_bits_high, Z.land_spec by lia.
    rewrite <- (Z.mod_small m (2 ^ n)), Z.mod_pow2_bits_high by lia.
    by rewrite andb_false_r.
Qed.

(** [js_div] and [js_rem] on the indices of an array. *)
Lemma js_div_nonneg a b : 0 ≤ a < 2 ^ 31 → 0 < b → js_div a b = a / b.
Proof.
  intros. unfold js_div. rewrite Z.quot_div_nonneg by lia. apply to_int32_small.
  pose proof (Z.div_pos a b). pose proof (Z.div_le_upper_bound a b a). nia.
Qed.
Lemma js_rem_nonneg a b : 0 ≤ a → 0 < b → js_rem a b = a mod b.
Proof. intros. apply Z.rem_mod_nonneg; lia. Qed.

(** ** Serialized data

    [has_at data off s]: the string [s] sits in [data] at offset [off]. *)
Definition charCodeAt (s : list Z) (i : Z) : option Z := aget s i.
Definition charAt (s : list Z) (i : Z) : list Z :=
  match aget s i with Some c => [c] | None => [] end.
(** [NaN] and [undefined] convert to [0] under the bitwise operators. *)
Definition int_of (o : option Z) : Z := default 0 o.
Lemma int_of_Some z : int_of (Some z) = z.
Proof. done. Qed.

Definition has_at (data : list Z) (off : Z) (s : list Z) : Prop :=
  0 ≤ off ∧ take (length s) (drop (Z.to_nat off) data) = s.

Lemma has_at_app data off s1 s2 :
  has_at data off (s1 ++ s2) ↔ has_at data off s1 ∧ has_at data (off + zlen s1) s2.
Proof.
  unfold has_at, zlen. rewrite length_app. split.
  - intros [Hoff H]. rewrite <- take_take_drop, drop_drop in H.
    assert (length (take (length s1) (drop (Z.to_nat off) data)) = length s1) as Hl.
    { apply (f_equal length) in H. rewrite !length_app, !length_take, !length_drop in *. lia. }
    apply app_inj_1 in H as [H1 H2]; [|done].
    split_and!; [lia|done|lia|].
    by replace (Z.to_nat (off + Z.of_nat (length s1))) with (Z.to_nat off + length s1)%nat by lia.
  - intros [[? H1] [? H2]]. split; [lia|].
    rewrite <- take_take_drop, drop_drop, H1.
    replace (Z.to_nat off + length s1)%nat
      with (Z.to_nat (off + Z.of_nat (length s1))) by lia.
    by rewrite H2.
Qed.

Lemma has_at_cons data off c s :
  has_at data off (c :: s) ↔ charCodeAt data off = Some c ∧ has_at data (off + 1) s.
Proof.
  change (c :: s) with ([c] ++ s). rewrite has_at_app. unfold zlen. simpl.
  apply and_iff_compat_r. unfold has_at, charCodeAt, aget. simpl. split.
  - intros [? H]. case_decide; [lia|].
    rewrite <- (Nat.add_0_r (Z.to_nat off)), <- lookup_drop.
    destruct (drop _ data); simplify_eq/=. done.
  - case_decide; [done|]. intros Hc. split; [lia|].
    by erewrite drop_S.
Qed.

Lemma has_at_self s data : has_at (s ++ data) 0 s.
Proof. split; [lia|]. simpl. by rewrite drop_0, take_app_length. Qed.

Lemma has_at_nil data off : 0 ≤ off → has_at data off [].
Proof. by split. Qed.

Lemma has_at_nonneg data off s : has_at data off s → 0 ≤ off.
Proof. by intros [? _]. Qed.

Lemma has_at_length data off s : has_at data off s → s ≠ [] → off + zlen s ≤ zlen data.
Proof.
  intros [? H] Hs. apply (f_equal length) in H. revert H. unfold zlen.
  rewrite length_take, length_drop. destruct s; [done|]. cbn [length]. lia.
Qed.

(** [data.slice(off, off + n)] reads the string that sits there. *)
Lemma has_at_slice data off s :
  has_at data off s → js_slice data off (off + zlen s) = s.
Proof.
  intros H. pose proof (has_at_nonneg _ _ _ H). destruct s as [|c s'].
  { unfold js_slice. rewrite zlen_nil, Z.add_0_r, Z.sub_diag. done. }
  pose proof (has_at_length _ _ _ H ltac:(done)) as Hlen.
  remember (c :: s') as s. pose proof (zlen_nonneg s). destruct H as [_ H].
  unfold js_slice, slice_index. rewrite !decide_False by lia.
  rewrite !Z.min_l by lia.
  replace (Z.to_nat (off + zlen s - off)) with (length s) by (unfold zlen; lia).
  done.
Qed.

(** ** The bitwise operators as arithmetic, on values below [2 ^ 31] *)

Lemma js_and_ones a k :
  0 ≤ k ≤ 31 → 0 ≤ a → js_and a (2 ^ k - 1) = a mod 2 ^ k.
Proof.
  intros Hk Ha. pose proof (Z.pow_le_mono_r 2 k 31).
  pose proof (Z.pow_pos_nonneg 2 k).
  rewrite js_and_mask by lia.
  replace (2 ^ k - 1) with (Z.ones k) by (rewrite Z.ones_equiv; lia).
  rewrite Z.land_ones by lia. unfold to_uint32.
  replace (2 ^ 32) with (2 ^ k * 2 ^ (32 - k)) by (rewrite <- Z.pow_add_r by lia; f_equal; lia).
  rewrite Z.rem_mul_r by lia. rewrite Z.mul_comm, Z_mod_plus_full. apply Z.mod_mod. lia.
Qed.

(** [(a & (ones << k)) >> k]: the [m] bits of [a] from bit [k] on. *)
Lemma js_sar_and_field a k m :
  0 ≤ k → 0 ≤ m → k + m ≤ 31 → 0 ≤ a →
  js_sar (js_and a ((2 ^ m - 1) * 2 ^ k)) k = (a / 2 ^ k) mod 2 ^ m.
Proof.
  intros Hk Hm Hkm Ha.
  assert (0 < 2 ^ k) by (apply Z.pow_pos_nonneg; lia).
  assert (0 < 2 ^ m) by (apply Z.pow_pos_nonneg; lia).
  assert (2 ^ m * 2 ^ k ≤ 2 ^ 31) by (rewrite <- Z.pow_add_r by lia; apply Z.pow_le_mono_r; lia).
  assert (0 ≤ (2 ^ m - 1) * 2 ^ k < 2 ^ 31) as Hmask by nia.
  rewrite js_and_mask by done. unfold js_sar. rewrite (Z.mod_small k) by lia.
  pose proof (land_bound (to_uint32 a) _ 31 ltac:(lia) Hmask).
  rewrite to_int32_small by lia.
  apply Z.bits_inj'. intros i Hi. rewrite Z.shiftr_spec, Z.land_spec by lia.
  rewrite <- Z.shiftl_mul_pow2, Z.shiftl_spec by lia.
  replace (i + k - k) with i by lia.
  replace (2 ^ m - 1) with (Z.ones m) by (rewrite Z.ones_equiv; lia).
  destruct (decide (i < m)).
  - rewrite Z.ones_spec_low, andb_true_r, testbit_to_uint32 by lia.
    by rewrite Z.mod_pow2_bits_low, Z.div_pow2_bits by lia.
  - rewrite Z.ones_spec_high, andb_false_r by lia.
    by rewrite Z.mod_pow2_bits_high by lia.
Qed.

Lemma js_sar_div a k : 0 ≤ k < 32 → 0 ≤ a < 2 ^ 31 → js_sar a k = a / 2 ^ k.
Proof.
  intros. unfold js_sar.
  by rewrite Z.mod_small, to_int32_small, Z.shiftr_div_pow2 by lia.
Qed.
Lemma js_shr_div a k : 0 ≤ k < 32 → 0 ≤ a < 2 ^ 32 → js_shr a k = a / 2 ^ k.
Proof.
  intros. unfold js_shr.
  by rewrite Z.mod_small, to_uint32_small, Z.shiftr_div_pow2 by lia.
Qed.
Lemma js_shl_mul a k : 0 ≤ k < 32 → 0 ≤ a → a * 2 ^ k < 2 ^ 31 → js_shl a k = a * 2 ^ k.
Proof.
  intros. assert (0 < 2 ^ k) by (apply Z.pow_pos_nonneg; lia). unfold js_shl.
  by rewrite Z.mod_small, (to_int32_small a), Z.shiftl_mul_pow2, to_int32_small by nia.
Qed.
Lemma js_or_add a b k :
  0 ≤ k → 0 ≤ a → 0 ≤ b < 2 ^ k → a * 2 ^ k + b < 2 ^ 31 →
  js_or (a * 2 ^ k) b = a * 2 ^ k + b.
Proof.
  intros Hk Ha Hb Hab. unfold js_or. rewrite !to_int32_small by nia.
  rewrite <- Z.lxor_lor, <- Z.add_nocarry_lxor; [done|..];
    (apply Z.bits_inj'; intros i Hi; rewrite Z.land_spec, Z.bits_0;
     destruct (decide (i < k));
     [rewrite Z.mul_pow2_bits_low by lia; done|];
     rewrite <- (Z.mod_small b (2 ^ k)) by lia;
     rewrite Z.mod_pow2_bits_high by lia; apply andb_false_r).
Qed.

(** ** Sign extension *)

Lemma testbit_int32_high z i :
  - 2 ^ 31 ≤ z < 2 ^ 31 → 31 ≤ i → Z.testbit z i = bool_decide (z < 0).
Proof.
  intros Hz Hi. case_bool_decide as Hneg.
  - replace z with (Z.lnot (- z - 1)) by (unfold Z.lnot; lia).
    rewrite Z.lnot_spec by lia. rewrite <- (Z.mod_small (- z - 1) (2 ^ 31)) by lia.
    by rewrite Z.mod_pow2_bits_high by lia.
  - rewrite <- (Z.mod_small z (2 ^ 31)) by lia. by rewrite Z.mod_pow2_bits_high by lia.
Qed.

Lemma js_and_eq_0 a b :
  (∀ i, 0 ≤ i < 32 → Z.testbit (js_and a b) i = false) → js_and a b = 0.
Proof.
  intros H. apply Z.bits_inj'. intros i Hi. rewrite Z.bits_0.
  destruct (decide (i < 32)); [by apply H; lia|].
  specialize (H 31 ltac:(lia)). unfold js_and in *. rewrite Z.land_spec in *.
  by rewrite !testbit_int32_high in * by (apply to_int32_range || lia).
Qed.

(** Testing a bit with a mask. *)
Lemma js_and_bit w r :
  0 ≤ r < 32 → bool_decide (js_and w (js_shl 1 r) ≠ 0) = Z.testbit w r.
Proof.
  intros Hr.
  assert (∀ i, 0 ≤ i < 32 → Z.testbit (js_and w (js_shl 1 r)) i = Z.testbit w i && bool_decide (i = r)) as Hbits.
  { intros i Hi. rewrite testbit_js_and, testbit_js_shl by lia. f_equal.
    case_decide; [by rewrite bool_decide_eq_false_2 by lia|].
    destruct (decide (i = r)) as [->|].
    - by rewrite Z.sub_diag, bool_decide_eq_true_2.
    - rewrite bool_decide_eq_false_2 by done.
      rewrite Z.bits_above_log2; [done|lia|simpl; lia]. }
  destruct (Z.testbit w r) eqn:E.
  - apply bool_decide_eq_true_2. intros H0. specialize (Hbits r Hr).
    by rewrite H0, Z.bits_0, E, bool_decide_eq_true_2 in Hbits.
  - apply bool_decide_eq_false_2. intros H. apply H. apply js_and_eq_0.
    intros i Hi. rewrite Hbits by done. destruct (decide (i = r)) as [->|]; [by rewrite E|].
    by rewrite bool_decide_eq_false_2, andb_false_r.
Qed.

(** ** Segments

    [seg L s l]: the list [l] lies in [L] from position [s] on. *)
Definition seg {A} (L : list A) (s : Z) (l : list A) : Prop :=
  ∃ X Y, L = X ++ l ++ Y ∧ zlen X = s.

Lemma seg_range {A} (L : list A) s l : seg L s l → 0 ≤ s ∧ s + zlen l ≤ zlen L.
Proof.
  intros (X & Y & -> & <-). autorewrite with zlen.
  pose proof (zlen_nonneg X). pose proof (zlen_nonneg Y). lia.
Qed.

Lemma seg_get {A} (L : list A) s l j :
  seg L s l → 0 ≤ j < zlen l → aget L (s + j) = aget l j.
Proof.
  intros (X & Y & -> & <-) Hj. rewrite aget_app_r, aget_app_l by lia. f_equal. lia.
Qed.

Lemma seg_app {A} (L : list A) s l1 l2 :
  seg L s (l1 ++ l2) → seg L s l1 ∧ seg L (s + zlen l1) l2.
Proof.
  intros (X & Y & -> & <-). split.
  - exists X, (l2 ++ Y). by rewrite <- app_assoc.
  - exists (X ++ l1), Y. by rewrite <- !app_assoc, zlen_app.
Qed.

Lemma seg_prefix {A} (L : list A) i : seg L 0 (take (Z.to_nat i) L).
Proof. exists [], (drop (Z.to_nat i) L). by rewrite take_drop. Qed.

Lemma seg_singleton {A} (L : list A) q x : aget L q = Some x → seg L q [x].
Proof.
  intros Hq. pose proof (aget_Some_range _ _ _ Hq). rewrite aget_nonneg in Hq by lia.
  exists (take (Z.to_nat q) L), (drop (S (Z.to_nat q)) L). split.
  - simpl. symmetry. by apply take_drop_middle.
  - rewrite zlen_take. lia.
Qed.

Lemma aget_elem_of {A} (L : list A) q x : aget L q = Some x → x ∈ L.
Proof.
  intros Hq. pose proof (aget_Some_range _ _ _ Hq). rewrite aget_nonneg in Hq by lia.
  by eapply list_elem_of_lookup_2.
Qed.

Lemma elem_of_aget {A} (L : list A) x : x ∈ L → ∃ q, aget L q = Some x.
Proof. intros [k Hk]%list_elem_of_lookup. exists (Z.of_nat k). by rewrite aget_nat. Qed.

(** The list cut at one of its elements. *)
Lemma aget_split {A} (L : list A) q x :
  aget L q = Some x → ∃ l1 l2, L = l1 ++ x :: l2 ∧ zlen l1 = q.
Proof. intros (X & Y & -> & <-)%seg_singleton. by exists X, Y. Qed.

(** The elements a filter keeps, by position. *)
Lemma aget_filter {A} (P : A → Prop) `{!∀ x, Decision (P x)} (L : list A) k x :
  aget (filter P L) k = Some x →
  ∃ q, aget L q = Some x ∧ P x ∧ zlen (filter P (take (Z.to_nat q) L)) = k.
Proof.
  revert k. induction L as [|y L IH]; intros k Hk.
  { apply aget_Some_range in Hk. change (zlen (filter P [])) with 0 in Hk. lia. }
  rewrite filter_cons in Hk. destruct (decide (P y)) as [Hy|Hy].
  - rewrite aget_cons in Hk. destruct (decide (k = 0)) as [->|]; [exists 0; by simplify_eq|].
    destruct (IH _ Hk) as (q & Hq & Hx & Hc). exists (q + 1).
    pose proof (aget_Some_range _ _ _ Hq). rewrite aget_cons, decide_False by lia.
    replace (q + 1 - 1) with q by lia. split_and!; [done..|].
    replace (Z.to_nat (q + 1)) with (S (Z.to_nat q)) by lia. simpl.
    rewrite filter_cons_True, zlen_cons by done. lia.
  - destruct (IH _ Hk) as (q & Hq & Hx & Hc). exists (q + 1).
    pose proof (aget_Some_range _ _ _ Hq). rewrite aget_cons, decide_False by lia.
    replace (q + 1 - 1) with q by lia. split_and!; [done..|].
    replace (Z.to_nat (q + 1)) with (S (Z.to_nat q)) by lia. simpl.
    by rewrite filter_cons_False by done.
Qed.

Lemma filter_all {A} (P : A → Prop) `{!∀ x, Decision (P x)} (l : list A) :
  Forall P l → filter P l = l.
Proof. induction 1 as [|x l Hx _ IH]; [done|]. rewrite filter_cons_True by done. by rewrite IH. Qed.

Lemma filter_none {A} (P : A → Prop) `{!∀ x, Decision (P x)} (l : list A) :
  Forall (λ x, ¬ P x) l → filter P l = [].
Proof. induction 1 as [|x l Hx _ IH]; [done|]. by rewrite filter_cons_False by done. Qed.

(** A loop over the indices of an array is a loop over its elements. *)
Lemma ofold_index {A S} (f : S → Z → outcome S) (g : S → A → outcome S) (l : list A) s :
  (∀ s i x, aget l i = Some x → f s i = g s x) →
  ofold f s (seqZ 0 (zlen l)) = ofold g s l.
Proof.
  intros Hf. change 0 with (zlen (@nil A)).
  assert (∀ pre l', l = pre ++ l' → ∀ s, ofold f s (seqZ (zlen pre) (zlen l')) = ofold g s l') as H;
    [|by apply (H [])].
  intros pre l'. revert pre. induction l' as [|x l' IH]; intros pre Heq s0; [done|].
  rewrite zlen_cons, seqZ_cons by (pose proof (zlen_nonneg l'); lia). cbn [ofold].
  rewrite (Hf s0 (zlen pre) x); [|rewrite Heq, aget_app_r, Z.sub_diag by lia; done].
  destruct (g s0 x) as [s1| | |]; cbn [mbind outcome_bind]; [|done..].
  rewrite <- (IH (pre ++ [x])) by by rewrite <- app_assoc. autorewrite with zlen.
  do 2 f_equal; lia.
Qed.

Lemma ofold_ext {A S} (f g : S → A → outcome S) (l : list A) s :
  (∀ s x, x ∈ l → f s x = g s x) → ofold f s l = ofold g s l.
Proof.
  revert s. induction l as [|x l IH]; intros s Hfg; [done|]. cbn [ofold].
  rewrite Hfg by left. destruct (g s x); cbn [mbind outcome_bind]; [|done..].
  apply IH. intros. apply Hfg. by right.
Qed.

Lemma indexOf_spec {A} `{EqDecision A} (l : list A) x : x ∈ l → aget l (indexOf l x) = Some x.
Proof.
  unfold indexOf. intros Hx.
  assert (∀ k, ∃ q, index_from k l x = k + q ∧ aget l q = Some x) as Hq.
  { induction l as [|y l IH]; intros k; [by apply elem_of_nil in Hx|]. simpl.
    case_decide as Hy; [exists 0; split; [lia|by subst]|].
    apply elem_of_cons in Hx as [->|Hx]; [done|]. destruct (IH Hx (k + 1)) as (q & -> & Hq).
    exists (q + 1). pose proof (aget_Some_range _ _ _ Hq). split; [lia|].
    rewrite aget_cons, decide_False by lia. by replace (q + 1 - 1) with q by lia. }
  destruct (Hq 0) as (q & -> & ?). by rewrite Z.add_0_l.
Qed.

Lemma index_from_none {A} `{EqDecision A} (l : list A) x k : 0 ≤ k → index_from k l x = -1 ↔ x ∉ l.
Proof.
  revert k. induction l as [|y l IH]; intros k Hk; cbn [index_from]; [split; [intros _; apply not_elem_of_nil|done]|].
  rewrite not_elem_of_cons. case_decide; [subst; naive_solver lia|]. rewrite IH by lia. naive_solver.
Qed.

Lemma indexOf_none {A} `{EqDecision A} (l : list A) x : indexOf l x = -1 ↔ x ∉ l.
Proof. by apply index_from_none. Qed.

Lemma index_from_app_l {A} `{EqDecision A} (l l' : list A) x k : x ∈ l → index_from k (l ++ l') x = index_from k l x.
Proof.
  revert k. induction l as [|y l IH]; intros k Hx; [by apply elem_of_nil in Hx|]. cbn [app index_from].
  case_decide; [done|]. apply IH. by apply elem_of_cons in Hx as [->|].
Qed.

Lemma indexOf_app_l {A} `{EqDecision A} (l l' : list A) x : x ∈ l → indexOf (l ++ l') x = indexOf l x.
Proof. apply index_from_app_l. Qed.

Lemma index_from_new {A} `{EqDecision A} (l r : list A) x k : x ∉ l → index_from k (l ++ x :: r) x = k + zlen l.
Proof.
  revert k. induction l as [|y l IH]; intros k Hx; cbn [app index_from].
  - rewrite decide_True by done. change (zlen []) with 0. lia.
  - apply not_elem_of_cons in Hx as [? Hx]. rewrite decide_False by done. rewrite IH, zlen_cons by done. lia.
Qed.

Lemma indexOf_new {A} `{EqDecision A} (l r : list A) x : x ∉ l → indexOf (l ++ x :: r) x = zlen l.
Proof. intros Hx. unfold indexOf. rewrite index_from_new by done. lia. Qed.

Lemma indexOf_range {A} `{EqDecision A} (l : list A) x : x ∈ l → 0 ≤ indexOf l x < zlen l.
Proof. intros Hx. apply (aget_Some_range _ _ x). by apply indexOf_spec. Qed.

Lemma indexOf_inj {A} `{EqDecision A} (l : list A) x y : x ∈ l → y ∈ l → indexOf l x = indexOf l y → x = y.
Proof. intros Hx%indexOf_spec Hy%indexOf_spec Heq. rewrite Heq in Hx. congruence. Qed.

Lemma aget_reverse {A} (l : list A) k : aget (reverse l) k = aget l (zlen l - 1 - k).
Proof.
  destruct (decide (0 ≤ k < zlen l)) as [Hk|Hk].
  - rewrite !aget_nonneg by lia. unfold zlen in *. rewrite reverse_lookup by lia. f_equal. lia.
  - rewrite !aget_None; [done|lia|rewrite zlen_reverse; lia].
Qed.

Lemma StronglySorted_impl {A} (R R' : relation A) (l : list A) :
  (∀ x y, R x y → R' x y) → StronglySorted R l → StronglySorted R' l.
Proof.
  intros HR. induction 1 as [|x l _ IH Hall]; constructor; [done|]. eapply Forall_impl; [done|]. auto.
Qed.

(** [slice] inside the list. *)
Lemma slice_range {A} (l : list A) a b : 0 ≤ a ≤ b → b ≤ zlen l → js_slice l a b = take (Z.to_nat (b - a)) (drop (Z.to_nat a) l).
Proof. intros Hab Hb. unfold js_slice, slice_index. rewrite !decide_False by lia. by rewrite !Z.min_l by lia. Qed.

Lemma zlen_slice {A} (l : list A) a b : 0 ≤ a ≤ b → b ≤ zlen l → zlen (js_slice l a b) = b - a.
Proof. intros Hab Hb. rewrite slice_range by lia. rewrite zlen_take, zlen_drop. lia. Qed.

Lemma aget_slice {A} (l : list A) a b k : 0 ≤ a ≤ b → b ≤ zlen l → 0 ≤ k < b - a → aget (js_slice l a b) k = aget l (a + k).
Proof. intros Hab Hb Hk. rewrite slice_range by lia. rewrite aget_take, aget_drop by lia. f_equal. lia. Qed.
