(* ===== verification/JsObject.v ===== *)
(** * Objects used as maps

    The sources use JavaScript objects as maps ([Map.<T>] in JSX).  What the
    code observes of one, besides lookups, is the order of a [for in] loop: the
    keys that are array indices come first, in ascending order, then the other
    keys in the order they were added.  [Obj] models an object with string keys
    as its list of entries in that order; [IMap] is the special case of an
    object whose keys are all numbers converted with [as string].  An object
    literal also inherits the methods of [Object.prototype]: [Obj.read] is the
    lookup that sees them.  Writing the key ["__proto__"], which replaces the
    prototype, is outside the model. *)

From S2P Require Import Prelude.

(** ** Objects with string keys *)

Module Obj.

Definition is_digit (c : Z) : bool := bool_decide (48 ≤ c ≤ 57).

Definition digits_value (s : jsstr) : Z := foldl (λ v c, 10 * v + (c - 48)) 0 s.

(** The array index a key spells, if it is the canonical spelling of one. *)
Definition index_key (k : jsstr) : option Z :=
  match k with
  | [] => None
  | c :: k' =>
    if forallb is_digit k && (bool_decide (c ≠ 48) || bool_decide (k' = []))
       && bool_decide (digits_value k < 2 ^ 32 - 1)
    then Some (digits_value k) else None
  end.

Section Obj.
Context {V : Type}.
Implicit Types (m : list (jsstr * V)) (k : jsstr) (v : V).

Fixpoint get m k : option V :=
  match m with
  | [] => None
  | (k', v) :: m => if decide (k' = k) then Some v else get m k
  end.

Fixpoint replace m k v : list (jsstr * V) :=
  match m with
  | [] => []
  | (k', v') :: m => if decide (k' = k) then (k', v) :: m else (k', v') :: replace m k v
  end.

(** Whether a new key [k] is enumerated before the existing key [k']. *)
Definition before k k' : bool :=
  match index_key k, index_key k' with
  | Some i, Some j => bool_decide (i < j)
  | Some _, None => true
  | None, _ => false
  end.

Fixpoint add m k v : list (jsstr * V) :=
  match m with
  | [] => [(k, v)]
  | (k', v') :: m' => if before k k' then (k, v) :: m else (k', v') :: add m' k v
  end.

Definition put m k v : list (jsstr * V) :=
  match get m k with Some _ => replace m k v | None => add m k v end.

Definition keys m : list jsstr := m.*1.

(** What [m[k]] gives: a property of the object itself, one that it inherits,
    of which only [length] matters here, or [undefined]. *)
Inductive property := Own (v : V) | Inherited (length : Z) | Absent.

Definition inherited : list (string * Z) :=
  [("constructor", 1); ("hasOwnProperty", 1); ("isPrototypeOf", 1); ("propertyIsEnumerable", 1);
   ("toLocaleString", 0); ("toString", 0); ("valueOf", 0); ("__proto__", 0); ("__defineGetter__", 2);
   ("__defineSetter__", 2); ("__lookupGetter__", 1); ("__lookupSetter__", 1)]%string.

Definition read m k : property :=
  match get m k with
  | Some v => Own v
  | None =>
    match list_find (λ e, jstr e.1 = k) inherited with
    | Some (_, (_, n)) => Inherited n
    | None => Absent
    end
  end.

(** The order of the entries of an object: no key twice, and none that an
    earlier one would be enumerated after. *)
Definition wf m : Prop :=
  NoDup (keys m) ∧ StronglySorted (λ e e', before e'.1 e.1 = false) m.

Lemma get_not_key m k : k ∉ keys m → get m k = None.
Proof.
  induction m as [|[k' v'] m IH]; simpl; [done|].
  rewrite not_elem_of_cons. intros [??]. case_decide; [congruence|]. auto.
Qed.

Lemma get_key m k : k ∈ keys m → ∃ v, get m k = Some v.
Proof.
  induction m as [|[k' v'] m IH]; simpl; [by intros ?%elem_of_nil|].
  rewrite elem_of_cons. case_decide; [eauto|]. intros [->|?]; [done|auto].
Qed.

Lemma get_replace m k v k' :
  k ∈ keys m → get (replace m k v) k' = if decide (k = k') then Some v else get m k'.
Proof.
  induction m as [|[k0 v0] m IH]; simpl; [by intros ?%elem_of_nil|].
  rewrite elem_of_cons. intros Hin.
  destruct (decide (k0 = k)) as [->|]; simpl.
  - by repeat case_decide.
  - destruct Hin as [->|Hin]; [done|]. rewrite IH by done.
    repeat case_decide; congruence.
Qed.

Lemma get_add m k v k' :
  k ∉ keys m → get (add m k v) k' = if decide (k = k') then Some v else get m k'.
Proof.
  induction m as [|[k0 v0] m IH]; simpl; [done|].
  rewrite not_elem_of_cons. intros [? Hk].
  destruct (before k k0); simpl; [done|].
  rewrite IH by done. repeat case_decide; congruence.
Qed.

(** Reading an object back after a write. *)
Lemma get_put m k v k' : get (put m k v) k' = if decide (k = k') then Some v else get m k'.
Proof.
  unfold put. destruct (decide (k ∈ keys m)) as [Hk|Hk].
  - destruct (get_key _ _ Hk) as [v' ->]. by apply get_replace.
  - rewrite (get_not_key _ _ Hk). by apply get_add.
Qed.

Lemma keys_add m k v : keys (add m k v) ≡ₚ k :: keys m.
Proof.
  induction m as [|[k0 v0] m IH]; simpl; [done|].
  destruct (before k k0); simpl; [done|]. rewrite IH. apply Permutation_swap.
Qed.

Lemma before_ge k k0 k1 :
  before k k0 = true → before k1 k0 = false → before k1 k = false.
Proof.
  unfold before. destruct (index_key k), (index_key k0), (index_key k1);
    rewrite ?bool_decide_eq_true, ?bool_decide_eq_false; try done. lia.
Qed.

Lemma before_total k k0 : before k k0 = true → before k0 k = false.
Proof.
  unfold before. destruct (index_key k), (index_key k0);
    rewrite ?bool_decide_eq_true, ?bool_decide_eq_false; try done. lia.
Qed.

Lemma keys_replace m k v : keys (replace m k v) = keys m.
Proof.
  induction m as [|[k0 v0] m IH]; simpl; [done|].
  case_decide; simpl; [done|]. by rewrite IH.
Qed.

Lemma Forall_keys (P : jsstr → Prop) m : Forall (λ e, P e.1) m ↔ Forall P (keys m).
Proof. unfold keys. by rewrite Forall_fmap. Qed.

Lemma wf_put m k v : wf m → wf (put m k v).
Proof.
  intros [Hnd Hs]. unfold put. destruct (decide (k ∈ keys m)) as [Hk|Hk].
  - destruct (get_key _ _ Hk) as [v' ->]. split; [by rewrite keys_replace|].
    clear Hnd Hk. induction m as [|[k0 v0] m IH]; simpl; [constructor|].
    apply StronglySorted_inv in Hs as [Hs Hall].
    case_decide; simpl; [by constructor|].
    constructor; [auto|]. simpl in *.
    apply (Forall_keys (λ k', before k' k0 = false)).
    rewrite keys_replace. by apply Forall_keys.
  - rewrite (get_not_key _ _ Hk). split.
    { rewrite keys_add. by constructor. }
    clear Hnd. induction m as [|[k0 v0] m IH]; simpl; [by repeat constructor|].
    apply StronglySorted_inv in Hs as [Hs Hall]. simpl in *.
    destruct (before k k0) eqn:Hb.
    + constructor; [by constructor|]. constructor; simpl; [by apply before_total|].
      eapply Forall_impl; [exact Hall|]. intros [k1 v1]; simpl.
      by apply before_ge.
    + constructor.
      * apply IH; [done|]. by apply not_elem_of_cons in Hk as [_ ?].
      * apply (Forall_keys (λ k', before k' k0 = false)). rewrite keys_add.
        constructor; [done|]. by apply Forall_keys.
Qed.

Lemma get_in m k v : get m k = Some v → (k, v) ∈ m.
Proof.
  induction m as [|[k' v'] m IH]; simpl; [done|]. case_decide as Hk; [intros [= ->]; subst; left|]. intros ?. right. auto.
Qed.

Lemma Forall_put (P : jsstr * V → Prop) m k v : Forall P m → P (k, v) → Forall P (put m k v).
Proof.
  intros Hm Hk. unfold put. destruct (get m k); induction Hm as [|[k' v'] m Hp Hm IH]; simpl; try done.
  - case_decide; [subst|]; by constructor.
  - by constructor.
  - destruct (before k k'); repeat constructor; done.
Qed.

Lemma length_put m k v : (length (put m k v) ≤ S (length m))%nat.
Proof.
  unfold put. destruct (get m k).
  - pose proof (f_equal length (keys_replace m k v)) as Hl. unfold keys in Hl. rewrite !length_fmap in Hl. lia.
  - pose proof (Permutation_length (keys_add m k v)) as Hl. unfold keys in Hl. cbn [length] in Hl. rewrite !length_fmap in Hl. lia.
Qed.

Lemma add_last m k v :
  Forall (λ e, before k e.1 = false) m → add m k v = m ++ [(k, v)].
Proof.
  induction m as [|[k0 v0] m IH]; intros Hall; [done|].
  apply Forall_cons in Hall as [Hb Hall]. simpl in *. by rewrite Hb, IH.
Qed.

(** Writing the entries of an object one after the other, in its own order,
    rebuilds it. *)
Lemma foldl_put_wf m0 m :
  wf (m0 ++ m) → foldl (λ o e, put o e.1 e.2) m0 m = m0 ++ m.
Proof.
  revert m0. induction m as [|[k v] m IH]; intros m0 Hwf; simpl; [by rewrite app_nil_r|].
  assert (put m0 k v = m0 ++ [(k, v)]) as ->.
  - destruct Hwf as [Hnd Hs]. unfold keys in Hnd. rewrite fmap_app in Hnd. simpl in Hnd.
    apply NoDup_app in Hnd as (_ & Hnd & _). unfold put.
    rewrite get_not_key; [|intros Hin; apply (Hnd _ Hin); left].
    apply add_last. apply Forall_forall. intros e He.
    apply (StronglySorted_app_1_elem_of _ _ _ e (k, v) Hs He). left.
  - rewrite IH; rewrite <- app_assoc; done.
Qed.

(** An object filled with distinct keys has each of them, and no other. *)
Lemma get_puts m (l : list (jsstr * V)) k v :
  NoDup l.*1 → (k, v) ∈ l → get (foldl (λ o e, put o e.1 e.2) m l) k = Some v.
Proof.
  revert m. induction l as [|[k' v'] l IH]; intros m Hnd Hin; [by apply elem_of_nil in Hin|].
  rewrite fmap_cons in Hnd. cbn [fst] in Hnd. apply NoDup_cons in Hnd as [Hk' Hnd]. cbn [foldl fst snd].
  apply elem_of_cons in Hin as [[= -> ->]|Hin]; [|by apply IH].
  clear IH Hnd. assert (get (put m k' v') k' = Some v') as Hget by (rewrite get_put; by rewrite decide_True).
  revert Hget. generalize (put m k' v'). induction l as [|[k1 v1] l IH]; intros m' Hm'; [done|].
  rewrite fmap_cons, not_elem_of_cons in Hk'. cbn [fst] in Hk'. destruct Hk' as [Hne Hk'].
  apply IH; [done|]. cbn [fst snd]. by rewrite get_put, decide_False by done.
Qed.

Lemma get_puts_none (l : list (jsstr * V)) k m :
  k ∉ l.*1 → get (foldl (λ o e, put o e.1 e.2) m l) k = get m k.
Proof.
  revert m. induction l as [|[k1 v1] l IH]; intros m Hk; [done|].
  rewrite fmap_cons, not_elem_of_cons in Hk. cbn [fst] in Hk. destruct Hk as [Hne Hk].
  cbn [foldl fst snd]. rewrite IH by done. by rewrite get_put, decide_False by done.
Qed.

End Obj.
Arguments property : clear implicits.
Arguments Own {V} v.
Arguments Inherited {V} length.
Arguments Absent {V}.
Lemma get_fmap {V W} (f : V → W) (m : list (jsstr * V)) k : get (prod_map id f <$> m) k = f <$> get m k.
Proof. induction m as [|[k' v'] m IH]; [done|]. change (prod_map id f <$> (k', v') :: m) with ((k', f v') :: (prod_map id f <$> m)). cbn [get]. case_decide; [done|exact IH]. Qed.

End Obj.

(** ** Objects keyed by numbers

    [m[k as string]] for array indices [k]; [for (key in m)] runs over the keys
    in ascending order and [key as int] gives the number back. *)

Module IMap.
Section IMap.
Context {V : Type}.
Implicit Types (m : list (Z * V)) (k : Z) (v : V).

Fixpoint get m k : option V :=
  match m with
  | [] => None
  | (k', v) :: m => if decide (k' = k) then Some v else get m k
  end.

Fixpoint put m k v : list (Z * V) :=
  match m with
  | [] => [(k, v)]
  | (k', v') :: m' =>
    if decide (k < k') then (k, v) :: m
    else if decide (k = k') then (k, v) :: m'
    else (k', v') :: put m' k v
  end.

Definition keys m : list Z := m.*1.
Definition wf m : Prop := StronglySorted (<) (keys m).

Lemma get_iput m k v k' : get (put m k v) k' = if decide (k = k') then Some v else get m k'.
Proof.
  induction m as [|[k0 v0] m IH]; simpl; [done|].
  repeat case_decide; simpl; repeat case_decide; try lia; congruence.
Qed.

Lemma elem_of_keys_put m k v k' : k' ∈ keys (put m k v) ↔ k' = k ∨ k' ∈ keys m.
Proof.
  induction m as [|[k0 v0] m IH]; simpl; [by rewrite list_elem_of_singleton, elem_of_nil; naive_solver|].
  repeat case_decide; simpl; rewrite ?elem_of_cons; try done; [subst; naive_solver|].
  rewrite IH. naive_solver.
Qed.

Lemma iput_wf m k v : wf m → wf (put m k v).
Proof.
  unfold wf. induction m as [|[k0 v0] m IH]; simpl; intros Hs; [repeat constructor|].
  apply StronglySorted_inv in Hs as [Hs Hall].
  repeat case_decide; simpl.
  - constructor; [by constructor|]. constructor; [done|].
    eapply Forall_impl; [done|]. simpl. lia.
  - subst. by constructor.
  - constructor; [auto|]. apply Forall_forall. intros x Hx.
    apply elem_of_keys_put in Hx as [->|Hx]; [lia|].
    by eapply Forall_forall in Hall.
Qed.

Lemma get_elem_of m k v : wf m → get m k = Some v ↔ (k, v) ∈ m.
Proof.
  unfold wf. induction m as [|[k0 v0] m IH]; simpl; intros Hs; [by rewrite elem_of_nil|].
  apply StronglySorted_inv in Hs as [Hs Hall]. rewrite elem_of_cons.
  case_decide as Hk; [subst k0|].
  - split; [intros [= ->]; by left|]. intros [[= ->]|Hin]; [done|].
    apply (list_elem_of_fmap_2 fst) in Hin.
    eapply Forall_forall in Hall; [|exact Hin]. simpl in Hall. lia.
  - rewrite IH by done. split; [by right|]. intros [[= <- <-]|?]; done.
Qed.

Lemma get_keys m k : k ∈ keys m ↔ is_Some (get m k).
Proof.
  induction m as [|[k0 v0] m IH]; simpl.
  - rewrite elem_of_nil. by split; [|intros [??]].
  - rewrite elem_of_cons. case_decide as Hk.
    + subst. split; [eauto|by left].
    + rewrite IH. split; [intros [->|?]; done|by right].
Qed.

(** The order of enumeration. *)
Lemma wf_order m m0 k v m1 k' v' :
  wf m → m = m0 ++ (k, v) :: m1 → (k', v') ∈ m1 → k < k'.
Proof.
  unfold wf, keys. intros Hwf -> Hin. rewrite fmap_app in Hwf. csimpl in Hwf.
  apply StronglySorted_app_1_r, StronglySorted_inv in Hwf as [_ Hall].
  rewrite Forall_forall in Hall. apply Hall. by apply (list_elem_of_fmap_2 fst) in Hin.
Qed.

Lemma put_last m k v : wf (m ++ [(k, v)]) → put m k v = m ++ [(k, v)].
Proof.
  induction m as [|[k0 v0] m IH]; intros Hwf; [done|]. simpl.
  pose proof (wf_order _ [] k0 v0 (m ++ [(k, v)]) k v Hwf eq_refl) as Hlt.
  specialize (Hlt ltac:(apply elem_of_app; right; left)).
  rewrite !decide_False by lia. f_equal. apply IH.
  unfold wf in *. csimpl in Hwf. by apply StronglySorted_inv in Hwf as [? _].
Qed.

(** Keys bounded by [n] bound the number of entries. *)
Lemma wf_length m lo n :
  wf m → (∀ k, k ∈ keys m → lo ≤ k < n) → lo ≤ n → zlen m ≤ n - lo.
Proof.
  unfold wf. revert lo. induction m as [|[k v] m IH]; intros lo Hwf Hk Hlo.
  { change (zlen []) with 0. lia. }
  csimpl in *. apply StronglySorted_inv in Hwf as [Hwf Hall]. rewrite Forall_forall in Hall.
  pose proof (Hk k ltac:(left)). rewrite zlen_cons.
  assert (zlen m ≤ n - (k + 1)); [|lia]. apply IH; [done| |lia].
  intros k' Hk'. specialize (Hall k' Hk'). pose proof (Hk k' ltac:(by right)). lia.
Qed.

Lemma wf_nil : wf (@nil (Z * V)).
Proof. constructor. Qed.

Lemma wf_NoDup m : wf m → NoDup (keys m).
Proof.
  unfold wf. induction 1 as [|k l _ IH Hall]; constructor; [|done].
  intros Hin. rewrite Forall_forall in Hall. specialize (Hall _ Hin). lia.
Qed.

(** An object is determined by what it reads. *)
Lemma ext m1 m2 : wf m1 → wf m2 → (∀ k, get m1 k = get m2 k) → m1 = m2.
Proof.
  intros H1 H2 Hget.
  assert (∀ (m : list (Z * V)), wf m → StronglySorted (λ e e', e.1 < e'.1) m) as Hss.
  { intros m Hm. unfold wf, keys in Hm. induction m as [|e m IH]; [constructor|].
    simpl in Hm. apply StronglySorted_inv in Hm as [??]. constructor; [auto|].
    by rewrite Forall_fmap in *. }
  assert (∀ (m : list (Z * V)), wf m → NoDup m) as Hnd.
  { intros m Hm. apply (NoDup_fmap_1 fst). by apply wf_NoDup. }
  assert (m1 ≡ₚ m2) as Hp.
  { apply NoDup_Permutation; [auto..|]. intros [k v].
    by rewrite <- !get_elem_of, Hget. }
  clear Hget. specialize (Hss m1 H1) as S1. specialize (Hss m2 H2) as S2.
  revert m2 H2 S2 Hp. clear H1. induction S1 as [|e m1 S1 IH Hall]; intros m2 H2 S2 Hp.
  { by apply Permutation_nil_l in Hp. }
  destruct m2 as [|e2 m2]; [by apply Permutation_nil_r in Hp|].
  apply StronglySorted_inv in S2 as [S2 Hall2].
  assert (e = e2) as ->.
  { assert (e ∈ e2 :: m2) as Hin by (rewrite <- Hp; left).
    assert (e2 ∈ e :: m1) as Hin2 by (rewrite Hp; left).
    apply elem_of_cons in Hin as [?|Hin]; [done|].
    apply elem_of_cons in Hin2 as [?|Hin2]; [done|].
    eapply Forall_forall in Hall; [|exact Hin2].
    eapply Forall_forall in Hall2; [|exact Hin]. simpl in *. lia. }
  f_equal. apply IH; [|done|by apply Permutation_cons_inv in Hp].
  unfold wf in *. simpl in H2. by apply StronglySorted_inv in H2 as [??].
Qed.

End IMap.
End IMap.
