(* ===== verification/Binary.v ===== *)
(** * Binary: the serialization format

    Model of [src/misc/oktavia/src/binary-util.jsx]: numbers, strings, string
    lists, maps of string lists and the run-length ("zebra") coded number lists
    that the index file is made of, and the base64 coding of the file.  The
    class [Codec] states what a pair of dump and load functions promises to the
    components that serialize themselves with it. *)

From S2P Require Import Prelude JsObject.

Module Bin.
Local Open Scope js_scope.

(** ** Class CompressionReport *)

Record CompressionReport := mkReport { source : Z; result : Z }.

Definition report_new : CompressionReport := mkReport 0 0.

Definition report_add (r : CompressionReport) (s d : Z) : CompressionReport :=
  mkReport (source r + s) (result r + d).

(** [Math.round(this.result * 100.0 / this.source)]; [None] is [NaN] or an
    infinity, for an empty report. *)
Definition report_rate (r : CompressionReport) : option Z :=
  if decide (source r = 0) then None
  else Some ((200 * result r + source r) / (2 * source r)).

(** [if (report) report.add(s, d)]. *)
Definition report_opt (r : option CompressionReport) (s d : Z) : option CompressionReport :=
  match r with Some r => Some (report_add r s d) | None => None end.

(** ** Numbers *)

Definition dump32bitNumber (num : Z) : jsstr :=
  fromCharCode (num / 65536) ++ fromCharCode (js_rem num 65536).

Definition load32bitNumber (buffer : jsstr) (offset : Z) : outcome Z :=
  hi ← of_option (charCodeAt buffer offset);
  lo ← of_option (charCodeAt buffer (offset + 1));
  Ret (hi * 65536 + lo).

Definition dump16bitNumber (num : Z) : jsstr := fromCharCode (js_rem num 65536).

Definition load16bitNumber (buffer : jsstr) (offset : Z) : outcome Z :=
  of_option (charCodeAt buffer offset).

(** ** Strings *)

(** The loop that collects the char codes until one does not fit a byte. *)
Fixpoint scan_bytes (str : jsstr) (charCodes : list Z) : bool * list Z :=
  match str with
  | [] => (true, charCodes)
  | c :: str => if decide (c > 255) then (false, charCodes)
                else scan_bytes str (charCodes ++ [c])
  end.

(** Two char codes per code unit; a last odd one stands alone. *)
Fixpoint pack_bytes (charCodes : list Z) : jsstr :=
  match charCodes with
  | [] => []
  | [a] => dump16bitNumber a
  | a :: b :: l => dump16bitNumber (a + (b <<' 8)) ++ pack_bytes l
  end.

Definition dumpString (str : jsstr) (report : option CompressionReport)
    : jsstr * option CompressionReport :=
  let str := if decide (zlen str > 32768) then js_slice str 0 32768 else str in
  let length := zlen str in
  let '(compress, charCodes) := scan_bytes str [] in
  if (compress : bool) then
    (dump16bitNumber (length + 32768) ++ pack_bytes charCodes,
     report_opt report length ((length + 1) / 2))
  else
    (dump16bitNumber length ++ str, report_opt report length length).

(** The decompression loop: [rem] is [strLength - i]. *)
Fixpoint unpack_bytes (data : jsstr) (offset : Z) (rem : nat) : jsstr * Z :=
  match rem with
  | O => ([], offset)
  | S rem' =>
    let code := int_of (charCodeAt data offset) in
    match rem' with
    | O => (fromCharCode (code &' 0x00ff), offset + 1)
    | S rem'' =>
      let '(s, o) := unpack_bytes data (offset + 1) rem'' in
      (fromCharCode (code &' 0x00ff) ++ fromCharCode (code >>>' 8) ++ s, o)
    end
  end.

Definition loadString (data : jsstr) (offset : Z) : outcome (jsstr * Z) :=
  strLength ← load16bitNumber data offset;
  let offset := offset + 1 in
  if decide (strLength > 32767) then
    Ret (unpack_bytes data offset (Z.to_nat (strLength - 32768)))
  else
    Ret (js_slice data offset (offset + strLength), offset + strLength).

(** ** String lists and maps *)

Fixpoint dumpStrings (l : list jsstr) (report : option CompressionReport)
    : jsstr * option CompressionReport :=
  match l with
  | [] => ([], report)
  | s :: l => let '(d, report) := dumpString s report in
              let '(ds, report) := dumpStrings l report in
              (d ++ ds, report)
  end.

Definition dumpStringList (strList : list jsstr) (report : option CompressionReport)
    : jsstr * option CompressionReport :=
  let '(ds, report) := dumpStrings strList report in
  (dump32bitNumber (zlen strList) ++ ds, report).

Fixpoint loadStrings (n : nat) (data : jsstr) (offset : Z) : outcome (list jsstr * Z) :=
  match n with
  | O => Ret ([], offset)
  | S n => '(s, offset) ← loadString data offset;
           '(ss, offset) ← loadStrings n data offset;
           Ret (s :: ss, offset)
  end.

Definition loadStringList (data : jsstr) (offset : Z) : outcome (list jsstr * Z) :=
  length ← load32bitNumber data offset;
  loadStrings (Z.to_nat length) data (offset + 2).

(** A [Map.<string[]>] is its list of entries in enumeration order. *)
Fixpoint dumpEntries (m : list (jsstr * list jsstr)) (report : option CompressionReport)
    : jsstr * option CompressionReport :=
  match m with
  | [] => ([], report)
  | (key, value) :: m =>
    let '(k, report) := dumpString key report in
    let '(v, report) := dumpStringList value report in
    let '(rest, report) := dumpEntries m report in
    (k ++ v ++ rest, report)
  end.

Definition dumpStringListMap (strMap : list (jsstr * list jsstr))
    (report : option CompressionReport) : jsstr * option CompressionReport :=
  let '(es, report) := dumpEntries strMap report in
  (dump32bitNumber (zlen strMap) ++ es, report).

Fixpoint loadEntries (n : nat) (data : jsstr) (offset : Z) (m : list (jsstr * list jsstr))
    : outcome (list (jsstr * list jsstr) * Z) :=
  match n with
  | O => Ret (m, offset)
  | S n => '(key, offset) ← loadString data offset;
           '(value, offset) ← loadStringList data offset;
           loadEntries n data offset (Obj.put m key value)
  end.

Definition loadStringListMap (data : jsstr) (offset : Z)
    : outcome (list (jsstr * list jsstr) * Z) :=
  length ← load32bitNumber data offset;
  loadEntries (Z.to_nat length) data (offset + 2) [].

(** ** Number lists *)

(** The loops of [_countZero], [_shouldZebraCode] and [_searchDoubleZero] read
    the array from [offset] on; they are functions of that suffix. *)
Fixpoint count_zero (l : list Z) (k : Z) : Z :=
  match l with
  | [] => k
  | x :: l => if decide (x ≠ 0) then k else count_zero l (k + 1)
  end.
Definition _countZero (array : list Z) (offset : Z) : Z :=
  count_zero (drop (Z.to_nat offset) array) 0.

Fixpoint zeroBlock_loop (fuel : nat) (length : Z) : outcome jsstr :=
  match fuel with
  | O => NoFuel
  | S fuel =>
    if decide (length > 0) then
      if decide (length > 16384) then
        rest ← zeroBlock_loop fuel (length - 16384);
        Ret (dump16bitNumber (16384 - 1) ++ rest)
      else
        rest ← zeroBlock_loop fuel 0;
        Ret (dump16bitNumber (length - 1) ++ rest)
    else Ret []
  end.
Definition _zeroBlock (length : Z) : outcome jsstr :=
  zeroBlock_loop (S (Z.to_nat length)) length.

Fixpoint count_changes (l : list Z) (isLastZero : bool) (change : Z) : Z :=
  match l with
  | [] => change
  | x :: l =>
    if decide (x = 0) then
      if negb isLastZero then count_changes l true (change + 1)
      else count_changes l isLastZero change
    else
      if isLastZero then count_changes l false (change + 1)
      else count_changes l isLastZero change
  end.
Definition _shouldZebraCode (array : list Z) (offset : Z) : bool :=
  if decide (zlen array - offset < 16) then true
  else bool_decide
         (count_changes (take 15 (drop (Z.to_nat offset) array)) false 0 > 2).

(** [k] is [i - offset]. *)
Fixpoint search_double_zero (l : list Z) (isLastZero : bool) (k : Z) : Z :=
  match l with
  | [] => k
  | x :: l =>
    if decide (x = 0) then
      if isLastZero then k - 1 else search_double_zero l true (k + 1)
    else search_double_zero l false (k + 1)
  end.
Definition _searchDoubleZero (array : list Z) (offset : Z) : Z :=
  search_double_zero (drop (Z.to_nat offset) array) false 0.

Fixpoint nonZeroBlock_loop (fuel : nat) (array : list Z) (offset length : Z) : outcome jsstr :=
  match fuel with
  | O => NoFuel
  | S fuel =>
    if decide (length > 0) then
      let '(blockLength, length) :=
        if decide (length > 16384) then (16384, length - 16384) else (length, 0) in
      elems ← omap_list (λ i, x ← of_option (aget array i); Ret (dump32bitNumber x))
                (seqZ offset blockLength);
      rest ← nonZeroBlock_loop fuel array (offset + blockLength) length;
      Ret (dump16bitNumber ((blockLength - 1) + 0x4000) ++ concat elems ++ rest)
    else Ret []
  end.
Definition _nonZeroBlock (array : list Z) (offset length : Z) : outcome jsstr :=
  nonZeroBlock_loop (S (Z.to_nat length)) array offset length.

(** The loop over [array[offset .. last - 1]]: [k] is [i - offset]. *)
Fixpoint zebra_loop (l : list Z) (k : Z) (code : Z) : Z * jsstr :=
  match l with
  | [] => (code, [])
  | x :: l =>
    if decide (x ≠ 0) then
      let '(code, rest) := zebra_loop l (k + 1) (code + (0x1 <<' k)) in
      (code, dump32bitNumber x ++ rest)
    else zebra_loop l (k + 1) code
  end.
Definition _createZebraCode (array : list Z) (offset : Z) : jsstr :=
  let last := Z.min (offset + 15) (zlen array) in
  let '(code, rest) :=
    zebra_loop (take (Z.to_nat (last - offset)) (drop (Z.to_nat offset) array)) 0 0x8000 in
  fromCharCode code ++ rest.

Fixpoint dump_numbers (fuel : nat) (array : list Z) (index : Z) : outcome jsstr :=
  match fuel with
  | O => NoFuel
  | S fuel =>
    if decide (index < zlen array) then
      x ← of_option (aget array index);
      if decide (x = 0) then
        let length := _countZero array index in
        block ← _zeroBlock length;
        rest ← dump_numbers fuel array (index + length);
        Ret (block ++ rest)
      else if _shouldZebraCode array index then
        let block := _createZebraCode array index in
        rest ← dump_numbers fuel array (Z.min (zlen array) (index + 15));
        Ret (block ++ rest)
      else
        let length := _searchDoubleZero array index in
        block ← _nonZeroBlock array index length;
        if decide (length = 0) then Throw ""
        else rest ← dump_numbers fuel array (index + length);
             Ret (block ++ rest)
    else Ret []
  end.

Definition dump32bitNumberList (array : list Z) (report : option CompressionReport)
    : outcome (jsstr * option CompressionReport) :=
  blocks ← dump_numbers (S (length array)) array 0;
  let resultString := dump32bitNumber (zlen array) ++ blocks in
  Ret (resultString, report_opt report (zlen array * 2 + 2) (zlen resultString)).

(** The block readers of [LoadedNumberListResult]. *)
Fixpoint load_zebra (n : nat) (i : Z) (tag : Z) (data : jsstr) (result : list Z) (offset : Z)
    : outcome (list Z * Z) :=
  match n with
  | O => Ret (result, offset)
  | S n =>
    if decide ((tag >>>' i) &' 0x1 ≠ 0) then
      x ← load32bitNumber data offset;
      load_zebra n (i + 1) tag data (result ++ [x]) (offset + 2)
    else load_zebra n (i + 1) tag data (result ++ [0]) offset
  end.

Fixpoint load_nonzero (n : nat) (data : jsstr) (result : list Z) (offset : Z)
    : outcome (list Z * Z) :=
  match n with
  | O => Ret (result, offset)
  | S n => x ← load32bitNumber data offset;
           load_nonzero n data (result ++ [x]) (offset + 2)
  end.

(** A [NaN] tag, past the end of the data, takes the last branch of the source
    and adds nothing. *)
Fixpoint load_numbers (fuel : nat) (data : jsstr) (resultLength : Z)
    (result : list Z) (offset : Z) : outcome (list Z * Z) :=
  match fuel with
  | O => NoFuel
  | S fuel =>
    if decide (zlen result < resultLength) then
      '(result, offset) ←
        match charCodeAt data offset with
        | None => Ret (result, offset + 1)
        | Some tag =>
          let offset := offset + 1 in
          if decide (tag >>>' 15 = 1) then
            load_zebra (Z.to_nat (Z.min (resultLength - zlen result) 15)) 0 tag
              data result offset
          else if decide (tag >>>' 14 = 1) then
            load_nonzero (Z.to_nat (tag - 0x4000 + 1)) data result offset
          else
            Ret (result ++ replicate (Z.to_nat (tag + 1)) 0, offset)
        end;
      load_numbers fuel data resultLength result offset
    else Ret (result, offset)
  end.

Definition load32bitNumberList (data : jsstr) (offset : Z) : outcome (list Z * Z) :=
  resultLength ← load32bitNumber data offset;
  load_numbers (S (Z.to_nat resultLength)) data resultLength [] (offset + 2).

(** ** Base64 *)

Definition _base64EncodeChars : jsstr :=
  jstr "ABCDEFGHIJKLMNOPQRSTUVWXYZabcdefghijklmnopqrstuvwxyz0123456789+/".

(** The loop of [base64encode] on the bytes not yet read. *)
Fixpoint encode_loop (source : list Z) : jsstr :=
  let enc i := charAt _base64EncodeChars i in
  match source with
  | [] => []
  | [c1] =>
    let c1 := c1 &' 0xff in
    enc (c1 >>' 2) ++ enc ((c1 &' 0x3) <<' 4) ++ jstr "=="
  | [c1; c2] =>
    let c1 := c1 &' 0xff in
    enc (c1 >>' 2) ++ enc (((c1 &' 0x3) <<' 4) |' ((c2 &' 0xF0) >>' 4))
      ++ enc ((c2 &' 0xF) <<' 2) ++ jstr "="
  | c1 :: c2 :: c3 :: source =>
    let c1 := c1 &' 0xff in
    enc (c1 >>' 2) ++ enc (((c1 &' 0x3) <<' 4) |' ((c2 &' 0xF0) >>' 4))
      ++ enc (((c2 &' 0xF) <<' 2) |' ((c3 &' 0xC0) >>' 6)) ++ enc (c3 &' 0x3F)
      ++ encode_loop source
  end.

Definition base64encode (str : jsstr) : jsstr :=
  encode_loop (concat ((λ code, [code &' 0x00ff; code >>>' 8]) <$> str)).

Definition _base64DecodeChars : list Z :=
  [-1; -1; -1; -1; -1; -1; -1; -1; -1; -1; -1; -1; -1; -1; -1; -1;
   -1; -1; -1; -1; -1; -1; -1; -1; -1; -1; -1; -1; -1; -1; -1; -1;
   -1; -1; -1; -1; -1; -1; -1; -1; -1; -1; -1; 62; -1; -1; -1; 63;
   52; 53; 54; 55; 56; 57; 58; 59; 60; 61; -1; -1; -1; -1; -1; -1;
   -1;  0;  1;  2;  3;  4;  5;  6;  7;  8;  9; 10; 11; 12; 13; 14;
   15; 16; 17; 18; 19; 20; 21; 22; 23; 24; 25; -1; -1; -1; -1; -1;
   -1; 26; 27; 28; 29; 30; 31; 32; 33; 34; 35; 36; 37; 38; 39; 40;
   41; 42; 43; 44; 45; 46; 47; 48; 49; 50; 51; -1; -1; -1; -1; -1].

(** [source[i + 1]] past the end is [undefined] and shifts to [0]. *)
Fixpoint _mergeCharCode (source : list Z) : jsstr :=
  match source with
  | [] => []
  | [a] => fromCharCode (a + (0 <<' 8))
  | a :: b :: source => fromCharCode (a + (b <<' 8)) ++ _mergeCharCode source
  end.

(** The [do .. while] loops that skip characters outside the alphabet, on the
    characters not yet read; [None] is the [undefined] of a code above 127.
    Past the end the char code is [NaN], read as 0. *)
Fixpoint next_code (str : jsstr) : option Z * jsstr :=
  match str with
  | [] => (aget _base64DecodeChars 0, [])
  | ch :: rest =>
    let c := aget _base64DecodeChars (ch &' 0xff) in
    if bool_decide (rest ≠ []) && bool_decide (c = Some (-1)) then next_code rest
    else (c, rest)
  end.

(** The same for the third and fourth character, where ['='] ends the input. *)
Fixpoint next_code_or_end (str : jsstr) : option (option Z * jsstr) :=
  match str with
  | [] => Some (aget _base64DecodeChars 0, [])
  | ch :: rest =>
    if decide (ch &' 0xff = 61) then None
    else
      let c := aget _base64DecodeChars (ch &' 0xff) in
      if bool_decide (rest ≠ []) && bool_decide (c = Some (-1)) then next_code_or_end rest
      else Some (c, rest)
  end.

Fixpoint decode_loop (fuel : nat) (str : jsstr) (out : list Z) : outcome (list Z) :=
  match fuel with
  | O => NoFuel
  | S fuel =>
    if decide (str = []) then Ret out
    else
      let '(c1, str) := next_code str in
      if decide (c1 = Some (-1)) then Ret out
      else
        let '(c2, str) := next_code str in
        if decide (c2 = Some (-1)) then Ret out
        else
          let c1 := int_of c1 in
          let c2 := int_of c2 in
          let out := out ++ [(c1 <<' 2) |' ((c2 &' 0x30) >>' 4)] in
          match next_code_or_end str with
          | None => Ret out
          | Some (c3, str) =>
            if decide (c3 = Some (-1)) then Ret out
            else
              let c3 := int_of c3 in
              let out := out ++ [((c2 &' 0xF) <<' 4) |' ((c3 &' 0x3C) >>' 2)] in
              match next_code_or_end str with
              | None => Ret out
              | Some (c4, str) =>
                if decide (c4 = Some (-1)) then Ret out
                else decode_loop fuel str (out ++ [((c3 &' 0x03) <<' 6) |' int_of c4])
              end
          end
  end.

Definition base64decode (str : jsstr) : outcome jsstr :=
  out ← decode_loop (S (length str)) str [];
  Ret (_mergeCharCode out).


(** ** What a dump and a load function promise each other

    Under [ok], dumping returns, and loading where the dump sits returns the
    value up to [norm] and the offset just after it. *)
Class Codec {A : Type} (ok : A → Prop) (norm : A → A)
    (dump : A → outcome jsstr) (load : jsstr → Z → outcome (A * Z)) : Prop := {
  codec_total a : ok a → ∃ s, dump a = Ret s;
  codec_load a s data off :
    ok a → dump a = Ret s → has_at data off s →
    load data off = Ret (norm a, off + zlen s);
}.

(** ** Numbers *)

Lemma zlen_dump32 x : zlen (dump32bitNumber x) = 2.
Proof. done. Qed.
Lemma zlen_dump16 x : zlen (dump16bitNumber x) = 1.
Proof. done. Qed.
#[local] Hint Rewrite zlen_dump32 zlen_dump16 : zlen.

Lemma to_uint16_rem x : to_uint16 (js_rem x 65536) = x mod 65536.
Proof.
  unfold to_uint16, js_rem. change (2 ^ 16) with 65536.
  rewrite (Z.quot_rem' x 65536) at 2.
  by rewrite Z.add_comm, Z.mul_comm, Z_mod_plus_full.
Qed.

Lemma load32_dump32 x data off :
  has_at data off (dump32bitNumber x) → load32bitNumber data off = Ret (x mod 2 ^ 32).
Proof.
  unfold dump32bitNumber, fromCharCode, load32bitNumber. simpl.
  rewrite !has_at_cons, to_uint16_rem. intros (-> & -> & _). simpl. f_equal.
  unfold to_uint16. change (2 ^ 32) with (65536 * 65536). change (2 ^ 16) with 65536.
  rewrite Z.rem_mul_r by lia. lia.
Qed.

Lemma load16_dump16 x data off :
  has_at data off (dump16bitNumber x) → load16bitNumber data off = Ret (x mod 65536).
Proof.
  unfold dump16bitNumber, fromCharCode, load16bitNumber.
  rewrite has_at_cons, to_uint16_rem. by intros [-> _].
Qed.

Instance codec_number32 :
  Codec (λ _, True) (λ x, x mod 2 ^ 32) (λ x, Ret (dump32bitNumber x))
    (λ data off, x ← load32bitNumber data off; Ret (x, off + 2)).
Proof.
  split; [eauto|]. intros a s data off _ [= <-] H. by rewrite (load32_dump32 a).
Qed.

(** ** Strings *)

Definition code_unit (c : Z) : Prop := 0 ≤ c < 65536.
Definition byte_code (c : Z) : Prop := 0 ≤ c < 256.
(** A string the format represents: code units, and a length that leaves the
    top bit of the length word to the compression flag. *)
Definition string_ok (s : jsstr) : Prop := Forall code_unit s ∧ zlen s ≤ 32767.

Lemma scan_bytes_all str acc :
  Forall (λ c, c ≤ 255) str → scan_bytes str acc = (true, acc ++ str).
Proof.
  intros H. revert acc. induction H as [|c str Hc _ IH]; intros acc; simpl.
  - by rewrite app_nil_r.
  - rewrite decide_False by lia. by rewrite IH, <- app_assoc.
Qed.

Lemma scan_bytes_not str acc :
  ¬ Forall (λ c, c ≤ 255) str → (scan_bytes str acc).1 = false.
Proof.
  revert acc. induction str as [|c str IH]; intros acc H; simpl.
  - by destruct H.
  - case_decide; [done|]. apply IH. contradict H. constructor; [lia|done].
Qed.
Lemma length_pack_bytes l : zlen (pack_bytes l) = (zlen l + 1) / 2.
Proof.
  revert l. fix IH 1. intros [|a [|b l]]; [done..|].
  cbn [pack_bytes]. autorewrite with zlen. rewrite IH.
  replace (1 + (1 + zlen l) + 1) with (zlen l + 1 + 1 * 2) by lia.
  rewrite Z.div_add by lia. lia.
Qed.

Lemma unpack_pack l data off :
  Forall byte_code l → has_at data off (pack_bytes l) →
  unpack_bytes data off (length l) = (l, off + zlen (pack_bytes l)).
Proof.
  revert l off. fix IH 1. intros [|a [|b l]] off Hl Hat.
  - simpl. by rewrite Z.add_0_r.
  - apply Forall_cons in Hl as [Ha _]. unfold byte_code in *.
    cbn [pack_bytes] in *. apply has_at_cons in Hat as [Hc _]. cbn [unpack_bytes length].
    rewrite Hc, to_uint16_rem. rewrite int_of_Some. rewrite !Z.mod_small by lia.
    change 0x00ff with (2 ^ 8 - 1). rewrite js_and_ones by lia.
    unfold fromCharCode. by rewrite Z.mod_small, to_uint16_small by lia.
  - apply Forall_cons in Hl as [Ha [Hb Hl]%Forall_cons]. unfold byte_code in *.
    cbn [pack_bytes] in *. rewrite js_shl_mul in * by lia.
    unfold dump16bitNumber, fromCharCode in *. rewrite to_uint16_rem in *.
    apply has_at_cons in Hat as [Hc Hat]. cbn [unpack_bytes length].
    rewrite Hc, (IH l (off + 1)) by done. rewrite int_of_Some.
    rewrite !Z.mod_small by lia.
    change 0x00ff with (2 ^ 8 - 1). rewrite js_and_ones, js_shr_div by lia.
    unfold fromCharCode. cbn [app].
    rewrite Z.mod_add, Z.div_add, Z.div_small, Z.mod_small by lia.
    rewrite !to_uint16_small by lia. f_equal. autorewrite with zlen. lia.
Qed.

(** The bytes a string is dumped to, whatever report is kept. *)
Definition string_code (s : jsstr) : jsstr := (dumpString s None).1.

Lemma dumpString_code s r : (dumpString s r).1 = string_code s.
Proof.
  unfold string_code, dumpString. by destruct (scan_bytes _ _) as [[] ?].
Qed.

Lemma string_code_short s :
  zlen s ≤ 32767 →
  string_code s =
    if decide (Forall (λ c, c ≤ 255) s) then dump16bitNumber (zlen s + 32768) ++ pack_bytes s
    else dump16bitNumber (zlen s) ++ s.
Proof.
  intros Hlen. unfold string_code, dumpString. rewrite decide_False by lia. case_decide.
  - by rewrite scan_bytes_all.
  - pose proof (scan_bytes_not s []) as Hn.
    destruct (scan_bytes s []) as [b l]; simpl in *. by rewrite Hn.
Qed.

Lemma loadString_code s data off :
  string_ok s → has_at data off (string_code s) →
  loadString data off = Ret (s, off + zlen (string_code s)).
Proof.
  intros [Hs Hlen] Hat. pose proof (zlen_nonneg s).
  rewrite string_code_short in * by done. unfold loadString. case_decide as Hb.
  - apply has_at_app in Hat as [H16 Hat]. rewrite (load16_dump16 (zlen s + 32768)) by done.
    simpl. rewrite Z.mod_small by lia. rewrite decide_True by lia.
    replace (Z.to_nat (zlen s + 32768 - 32768)) with (length s) by (unfold zlen; lia).
    rewrite unpack_pack; [|..|done].
    + f_equal. f_equal. autorewrite with zlen. lia.
    + eapply Forall_impl; [apply Forall_and; split; [exact Hs|exact Hb]|].
      unfold code_unit, byte_code. simpl. lia.
  - apply has_at_app in Hat as [H16 Hat]. rewrite (load16_dump16 (zlen s)) by done.
    simpl. rewrite Z.mod_small by lia. rewrite decide_False by lia.
    rewrite has_at_slice by done. f_equal. f_equal. autorewrite with zlen. lia.
Qed.

Instance codec_string :
  Codec string_ok id (λ s, Ret (dumpString s None).1) loadString.
Proof.
  split; [eauto|]. intros s c data off Hok [= <-]. by apply loadString_code.
Qed.

(** ** String lists and maps *)

Definition list_code (l : list jsstr) : jsstr := (dumpStringList l None).1.

Lemma dumpStrings_code l r : (dumpStrings l r).1 = concat (string_code <$> l).
Proof.
  revert r. induction l as [|s l IH]; intros r; csimpl; [done|].
  pose proof (dumpString_code s r). destruct (dumpString s r) as [d r'].
  specialize (IH r'). destruct (dumpStrings l r'). by csimpl in *; subst.
Qed.

Lemma dumpStringList_code l r :
  (dumpStringList l r).1 = dump32bitNumber (zlen l) ++ concat (string_code <$> l).
Proof.
  unfold dumpStringList. pose proof (dumpStrings_code l r).
  destruct (dumpStrings l r). by csimpl in *; subst.
Qed.

Lemma loadStrings_code l data off :
  Forall string_ok l → has_at data off (concat (string_code <$> l)) →
  loadStrings (length l) data off = Ret (l, off + zlen (concat (string_code <$> l))).
Proof.
  intros Hok. revert off. induction Hok as [|s l Hs _ IH]; intros off Hat; csimpl in *.
  { by rewrite Z.add_0_r. }
  apply has_at_app in Hat as [H1 H2]. rewrite (loadString_code s) by done. csimpl.
  rewrite IH by done. csimpl. f_equal. f_equal. autorewrite with zlen.
  lia.
Qed.

Definition strings_ok (l : list jsstr) : Prop := Forall string_ok l ∧ zlen l < 2 ^ 32.

Lemma loadStringList_code l data off :
  strings_ok l → has_at data off (list_code l) →
  loadStringList data off = Ret (l, off + zlen (list_code l)).
Proof.
  intros [Hok Hlen]. pose proof (zlen_nonneg l).
  unfold list_code. rewrite dumpStringList_code. intros [H32 Hat]%has_at_app.
  unfold loadStringList. rewrite (load32_dump32 (zlen l)) by done. csimpl.
  rewrite Z.mod_small by lia. unfold zlen at 1. rewrite Nat2Z.id.
  rewrite zlen_dump32 in Hat. rewrite (loadStrings_code l) by done.
  f_equal. f_equal. autorewrite with zlen. lia.
Qed.

Instance codec_string_list :
  Codec strings_ok id (λ l, Ret (dumpStringList l None).1) loadStringList.
Proof.
  split; [eauto|]. intros s c data off Hok [= <-]. by apply loadStringList_code.
Qed.

Definition map_ok (m : list (jsstr * list jsstr)) : Prop :=
  Obj.wf m ∧ Forall (λ e, string_ok e.1 ∧ strings_ok e.2) m ∧ zlen m < 2 ^ 32.

Definition entry_code (e : jsstr * list jsstr) : jsstr := string_code e.1 ++ list_code e.2.

Lemma dumpStringListMap_code m r :
  (dumpStringListMap m r).1 = dump32bitNumber (zlen m) ++ concat (entry_code <$> m).
Proof.
  assert (∀ r, (dumpEntries m r).1 = concat (entry_code <$> m)) as H.
  { induction m as [|[k v] m IH]; clear r; intros r; csimpl; [done|].
    pose proof (dumpString_code k r). destruct (dumpString k r) as [d r'].
    assert ((dumpStringList v r').1 = list_code v) as Hv
      by (unfold list_code; by rewrite !dumpStringList_code).
    destruct (dumpStringList v r') as [dv r'']. specialize (IH r'').
    destruct (dumpEntries m r''). unfold entry_code. simpl in *.
    subst. by rewrite app_assoc. }
  unfold dumpStringListMap. specialize (H r). destruct (dumpEntries m r). by csimpl in *; subst.
Qed.

Lemma loadEntries_code m m0 data off :
  Forall (λ e, string_ok e.1 ∧ strings_ok e.2) m →
  has_at data off (concat (entry_code <$> m)) →
  loadEntries (length m) data off m0 =
    Ret (foldl (λ o e, Obj.put o e.1 e.2) m0 m, off + zlen (concat (entry_code <$> m))).
Proof.
  intros Hok. revert off m0.
  induction Hok as [|[k v] m [Hk Hv] _ IH]; intros off m0 Hat; csimpl in *.
  { by rewrite Z.add_0_r. }
  apply has_at_app in Hat as [Hat H3]. unfold entry_code in Hat.
  apply has_at_app in Hat as [H1 H2]. csimpl in *.
  rewrite (loadString_code k) by done. csimpl.
  rewrite (loadStringList_code v) by done. csimpl.
  rewrite IH; [|by unfold entry_code in H3; autorewrite with zlen in *; rewrite <- Z.add_assoc].
  f_equal. f_equal. unfold entry_code. csimpl. autorewrite with zlen. lia.
Qed.

Instance codec_string_list_map :
  Codec map_ok id (λ m, Ret (dumpStringListMap m None).1) loadStringListMap.
Proof.
  split; [eauto|]. intros m c data off (Hwf & Hok & Hlen) [= <-]. pose proof (zlen_nonneg m).
  rewrite dumpStringListMap_code. intros [H32 Hat]%has_at_app.
  unfold loadStringListMap. rewrite (load32_dump32 (zlen m)) by done. csimpl.
  rewrite Z.mod_small by lia. unfold zlen at 1. rewrite Nat2Z.id.
  rewrite zlen_dump32 in Hat. rewrite (loadEntries_code m) by done.
  rewrite (Obj.foldl_put_wf [] m) by done. f_equal. f_equal. autorewrite with zlen. lia.
Qed.

(** ** Number lists *)

Definition norm32 (x : Z) : Z := x mod 2 ^ 32.

(** [loads data n r off r' off']: the loading loop, entered with [r] read so far
    and the position [off], gets to [r'] and [off'] (with any sufficient fuel,
    leaving a sufficient one). *)
Definition loads (data : jsstr) (n : Z) (r : list Z) (off : Z) (r' : list Z) (off' : Z) : Prop :=
  ∀ fuel, n - zlen r < Z.of_nat fuel →
  ∃ fuel', n - zlen r' < Z.of_nat fuel' ∧
           load_numbers fuel data n r off = load_numbers fuel' data n r' off'.

Lemma loads_refl data n r off : loads data n r off r off.
Proof. intros fuel Hf. eauto. Qed.

Lemma loads_trans data n r1 off1 r2 off2 r3 off3 :
  loads data n r1 off1 r2 off2 → loads data n r2 off2 r3 off3 →
  loads data n r1 off1 r3 off3.
Proof.
  intros H1 H2 fuel Hf. destruct (H1 fuel Hf) as (f2 & Hf2 & ->).
  destruct (H2 f2 Hf2) as (f3 & Hf3 & ->). eauto.
Qed.

(** One iteration of the loop. *)
Lemma loads_step data n r off tag r' off' :
  zlen r < n → zlen r < zlen r' → charCodeAt data off = Some tag →
  (if decide (tag >>>' 15 = 1) then
     load_zebra (Z.to_nat (Z.min (n - zlen r) 15)) 0 tag data r (off + 1)
   else if decide (tag >>>' 14 = 1) then
     load_nonzero (Z.to_nat (tag - 0x4000 + 1)) data r (off + 1)
   else Ret (r ++ replicate (Z.to_nat (tag + 1)) 0, off + 1)) = Ret (r', off') →
  loads data n r off r' off'.
Proof.
  intros Hr Hr' Htag Hblock fuel Hf. destruct fuel as [|fuel]; [lia|].
  exists fuel. split; [lia|]. cbn [load_numbers]. rewrite decide_True by done.
  rewrite Htag. cbv zeta. by rewrite Hblock.
Qed.

Lemma load_nonzero_spec l data r off :
  has_at data off (concat (dump32bitNumber <$> l)) →
  load_nonzero (length l) data r off =
    Ret (r ++ (norm32 <$> l), off + zlen (concat (dump32bitNumber <$> l))).
Proof.
  revert r off. induction l as [|x l IH]; intros r off Hat; csimpl in *.
  { by rewrite app_nil_r, Z.add_0_r. }
  change (to_uint16 _ :: to_uint16 _ :: ?t) with (dump32bitNumber x ++ t) in *.
  apply has_at_app in Hat as [H1 H2]. rewrite (load32_dump32 x) by done. simpl.
  rewrite IH by done. rewrite <- app_assoc. f_equal. f_equal.
  autorewrite with zlen. lia.
Qed.

Lemma zeroBlock_spec fuel k data n r off :
  0 ≤ k < Z.of_nat fuel → zlen r + k ≤ n →
  ∃ s, zeroBlock_loop fuel k = Ret s ∧
       (has_at data off s → loads data n r off (r ++ replicate (Z.to_nat k) 0) (off + zlen s)).
Proof.
  revert k r off. induction fuel as [|fuel IH]; intros k r off Hk Hn; [lia|].
  cbn [zeroBlock_loop]. destruct (decide (k > 0)) as [Hpos|Hpos]; last first.
  { exists []. split; [done|]. intros _. replace k with 0 by lia.
    rewrite app_nil_r, zlen_nil, Z.add_0_r. apply loads_refl. }
  assert (∀ m, 0 < m ≤ 16384 → m ≤ k →
    has_at data off (dump16bitNumber (m - 1)) →
    loads data n r off (r ++ replicate (Z.to_nat m) 0) (off + 1)) as Hstep.
  { intros m Hm Hmk Hat. unfold dump16bitNumber, fromCharCode in Hat.
    rewrite to_uint16_rem, Z.mod_small in Hat by lia. apply has_at_cons in Hat as [Hat _].
    eapply loads_step; [lia| |exact Hat|].
    - autorewrite with zlen. lia.
    - rewrite !js_shr_div by lia. rewrite !decide_False.
      + by replace (m - 1 + 1) with m by lia.
      + change (2 ^ 14) with 16384. rewrite Z.div_small; lia.
      + change (2 ^ 15) with 32768. rewrite Z.div_small; lia. }
  destruct (decide (k > 16384)) as [Hbig|Hbig].
  - destruct (IH (k - 16384) (r ++ replicate (Z.to_nat 16384) 0) (off + 1)) as (s & -> & Hs);
      [lia|autorewrite with zlen; lia|].
    eexists. split; [done|]. intros [H1 H2]%has_at_app.
    eapply loads_trans; [apply (Hstep 16384); [lia..|done]|].
    rewrite zlen_app, zlen_dump16, Z.add_assoc.
    replace (Z.to_nat k) with (Z.to_nat 16384 + Z.to_nat (k - 16384))%nat by lia.
    rewrite replicate_add, app_assoc. by apply Hs.
  - destruct (IH 0 (r ++ replicate (Z.to_nat k) 0) (off + 1)) as (s & -> & Hs);
      [lia|autorewrite with zlen; lia|].
    eexists. split; [done|]. intros [H1 H2]%has_at_app.
    eapply loads_trans; [apply (Hstep k); [lia..|done]|].
    rewrite zlen_app, zlen_dump16, Z.add_assoc.
    specialize (Hs H2). cbn [replicate Z.to_nat] in Hs. by rewrite app_nil_r in Hs.
Qed.

(** The elements [array[o .. o + k - 1]]. *)
Definition sub {A} (array : list A) (o k : Z) : list A :=
  take (Z.to_nat k) (drop (Z.to_nat o) array).

Lemma zlen_sub {A} (array : list A) o k :
  0 ≤ o → 0 ≤ k → o + k ≤ zlen array → zlen (sub array o k) = k.
Proof. intros. unfold sub. autorewrite with zlen. lia. Qed.

Lemma sub_split {A} (array : list A) o j k :
  0 ≤ o → 0 ≤ j ≤ k → sub array o k = sub array o j ++ sub array (o + j) (k - j).
Proof.
  intros. unfold sub.
  replace (Z.to_nat (o + j)) with (Z.to_nat o + Z.to_nat j)%nat by lia.
  rewrite <- drop_drop, take_take_drop. f_equal. lia.
Qed.

Lemma fmap_aget_seqZ {A B} (f : A → outcome B) (g : A → B) (array : list A) o k :
  (∀ x, f x = Ret (g x)) → 0 ≤ o → 0 ≤ k → o + k ≤ zlen array →
  omap_list (λ i, x ← of_option (aget array i); f x) (seqZ o k) = Ret (g <$> sub array o k).
Proof.
  intros Hfg Ho Hk. rewrite <- (Z2Nat.id k) by done. revert o Ho.
  induction (Z.to_nat k) as [|m IH]; intros o Ho Hm.
  { rewrite seqZ_nil by lia. by unfold sub. }
  rewrite seqZ_cons by lia. simpl.
  destruct (aget_is_Some array o) as [x Hx]; [lia|]. rewrite Hx. simpl. rewrite Hfg. simpl.
  replace (Z.pred (Z.of_nat (S m))) with (Z.of_nat m) by lia.
  rewrite IH by lia. simpl. f_equal. rewrite <- fmap_cons. f_equal.
  unfold sub. rewrite !Nat2Z.id. rewrite aget_nonneg in Hx by lia.
  rewrite (drop_S _ _ _ Hx). simpl. f_equal. f_equal. f_equal. lia.
Qed.

Lemma nonZeroBlock_spec fuel array o k data n r off :
  0 ≤ k < Z.of_nat fuel → 0 ≤ o → o + k ≤ zlen array → zlen r + k ≤ n →
  ∃ s, nonZeroBlock_loop fuel array o k = Ret s ∧
       (has_at data off s → loads data n r off (r ++ (norm32 <$> sub array o k)) (off + zlen s)).
Proof.
  revert o k r off. induction fuel as [|fuel IH]; intros o k r off Hk Ho Hok Hn; [lia|].
  cbn [nonZeroBlock_loop]. destruct (decide (k > 0)) as [Hpos|Hpos]; last first.
  { exists []. split; [done|]. intros _. replace k with 0 by lia.
    unfold sub. simpl. rewrite app_nil_r, Z.add_0_r. apply loads_refl. }
  set (p := if decide (k > 16384) then (16384, k - 16384) else (k, 0)).
  assert (∃ b, p = (b, k - b) ∧ 0 < b ≤ k ∧ b ≤ 16384) as (b & -> & Hb & Hb').
  { unfold p. case_decide; [exists 16384; split; [done|lia]|exists k]. rewrite Z.sub_diag. split; [done|lia]. }
  rewrite (fmap_aget_seqZ _ dump32bitNumber) by (done || lia). simpl.
  pose proof (zlen_sub array o b ltac:(lia) ltac:(lia) ltac:(lia)) as Hlen.
  destruct (IH (o + b) (k - b) (r ++ (norm32 <$> sub array o b))
              (off + 1 + zlen (concat (dump32bitNumber <$> sub array o b)))) as (s & -> & Hs);
    [lia..|autorewrite with zlen; lia|].
  eexists. split; [done|]. intros Hat. cbn [app] in Hat.
  apply has_at_cons in Hat as [Htag [H1 H2]%has_at_app].
  rewrite to_uint16_rem, Z.mod_small in Htag by lia.
  eapply loads_trans; [eapply loads_step; [lia| |exact Htag|]|].
  - instantiate (1 := r ++ (norm32 <$> sub array o b)). autorewrite with zlen. lia.
  - rewrite !js_shr_div by lia. rewrite decide_False, decide_True.
    + replace (Z.to_nat (b - 1 + 0x4000 - 0x4000 + 1)) with (length (sub array o b))
        by (unfold zlen in Hlen; lia).
      by apply load_nonzero_spec.
    + change (2 ^ 14) with 16384. symmetry. apply (Z.div_unique _ _ _ (b - 1)); lia.
    + change (2 ^ 15) with 32768. rewrite Z.div_small; lia.
  - rewrite (sub_split array o b k), fmap_app, app_assoc by lia.
    cbn [app]. autorewrite with zlen.
    replace (off + (1 + (zlen (concat (dump32bitNumber <$> sub array o b)) + zlen s)))
      with (off + 1 + zlen (concat (dump32bitNumber <$> sub array o b)) + zlen s) by lia.
    by apply Hs.
Qed.

(** The bit mask of the non-zero elements, and the elements it announces. *)
Fixpoint zcode (l : list Z) : Z :=
  match l with
  | [] => 0
  | x :: l => (if decide (x ≠ 0) then 1 else 0) + 2 * zcode l
  end.
Definition nonzeros (l : list Z) : jsstr := concat (dump32bitNumber <$> filter (λ x, x ≠ 0) l).

Lemma nonzeros_cons x l :
  nonzeros (x :: l) = (if decide (x ≠ 0) then dump32bitNumber x else []) ++ nonzeros l.
Proof. unfold nonzeros. rewrite filter_cons. by case_decide. Qed.

Lemma zcode_bound l : 0 ≤ zcode l < 2 ^ zlen l.
Proof.
  induction l as [|x l IH]; [done|]. rewrite zlen_cons, Z.pow_add_r by (lia || apply zlen_nonneg).
  cbn [zcode]. case_decide; lia.
Qed.

Lemma zebra_loop_spec l k code :
  0 ≤ k → k + zlen l ≤ 30 →
  zebra_loop l k code = (code + 2 ^ k * zcode l, nonzeros l).
Proof.
  revert k code. induction l as [|x l IH]; intros k code Hk Hl.
  { cbn. f_equal. lia. }
  rewrite zlen_cons in Hl. pose proof (zlen_nonneg l).
  cbn [zebra_loop zcode]. rewrite nonzeros_cons.
  destruct (decide (x ≠ 0)) as [Hx|Hx]; rewrite IH by lia.
  - assert (2 ^ k ≤ 2 ^ 30) by (apply Z.pow_le_mono_r; lia).
    rewrite js_shl_mul by lia. f_equal.
    rewrite Z.pow_add_r by lia. lia.
  - f_equal. rewrite Z.pow_add_r by lia. lia.
Qed.

Lemma load_zebra_spec l i tag data r off :
  0 ≤ i → i + zlen l ≤ 15 → 0 ≤ tag < 65536 → (tag / 2 ^ i) mod 2 ^ zlen l = zcode l →
  has_at data off (nonzeros l) →
  load_zebra (length l) i tag data r off = Ret (r ++ (norm32 <$> l), off + zlen (nonzeros l)).
Proof.
  revert i r off. induction l as [|x l IH]; intros i r off Hi Hl Htag Hz Hat.
  { cbn. by rewrite app_nil_r, Z.add_0_r. }
  rewrite zlen_cons in *. pose proof (zlen_nonneg l).
  assert (0 < 2 ^ i) by (apply Z.pow_pos_nonneg; lia).
  assert (0 < 2 ^ zlen l) by (apply Z.pow_pos_nonneg; lia).
  rewrite Z.pow_add_r, Z.rem_mul_r in Hz by lia. cbn [zcode] in Hz.
  assert (tag / 2 ^ i / 2 = tag / 2 ^ (i + 1)) as Hdiv.
  { rewrite Z.div_div by lia. f_equal. rewrite Z.pow_add_r by lia. lia. }
  change (2 ^ 1) with 2 in Hz. rewrite Hdiv in Hz.
  pose proof (Z.mod_pos_bound (tag / 2 ^ i) 2 ltac:(lia)).
  assert (0 ≤ tag / 2 ^ i) by (apply Z.div_pos; lia).
  assert (js_and (js_shr tag i) 1 = (tag / 2 ^ i) mod 2) as Hbit.
  { rewrite js_shr_div by lia. by apply (js_and_ones _ 1). }
  assert ((tag / 2 ^ (i + 1)) mod 2 ^ zlen l = zcode l) as Hz' by (case_decide; lia).
  rewrite nonzeros_cons in *. apply has_at_app in Hat as [Hat1 Hat2].
  cbn [load_zebra length]. rewrite Hbit. destruct (decide (x ≠ 0)) as [Hx|Hx].
  - rewrite decide_True by lia. rewrite (load32_dump32 x) by done. cbn [mbind outcome_bind].
    rewrite IH by (done || lia). rewrite <- app_assoc. f_equal. f_equal.
    rewrite zlen_app, zlen_dump32. lia.
  - rewrite zlen_nil, Z.add_0_r in Hat2.
    rewrite decide_False by lia. rewrite IH by (done || lia). rewrite <- app_assoc.
    csimpl. replace x with 0 by (destruct (decide (x = 0)); [done|tauto]). done.
Qed.

Lemma createZebraCode_spec array o data n r off :
  0 ≤ o < zlen array → n = zlen array → zlen r = o →
  has_at data off (_createZebraCode array o) →
  loads data n r off (r ++ (norm32 <$> sub array o (Z.min 15 (n - o))))
    (off + zlen (_createZebraCode array o)).
Proof.
  intros Ho Hn Hr Hat. set (k := Z.min 15 (n - o)) in *.
  pose proof (zlen_sub array o k ltac:(lia) ltac:(lia) ltac:(lia)) as Hlen.
  assert (_createZebraCode array o =
    fromCharCode (0x8000 + zcode (sub array o k)) ++ nonzeros (sub array o k)) as Hc.
  { unfold _createZebraCode.
    replace (Z.to_nat (Z.min (o + 15) (zlen array) - o)) with (Z.to_nat k) by lia.
    fold (sub array o k). rewrite zebra_loop_spec by lia. do 2 f_equal. lia. }
  rewrite Hc in *. pose proof (zcode_bound (sub array o k)) as Hb. rewrite Hlen in Hb.
  assert (2 ^ k ≤ 2 ^ 15) by (apply Z.pow_le_mono_r; lia).
  change (2 ^ 15) with 32768 in *.
  apply has_at_cons in Hat as [Htag Hat]. rewrite to_uint16_small in * by lia.
  eapply loads_step; [lia| |exact Htag|].
  - autorewrite with zlen. lia.
  - rewrite !js_shr_div by lia. rewrite decide_True.
    + replace (Z.to_nat (Z.min (n - zlen r) 15)) with (length (sub array o k))
        by (unfold zlen in Hlen; lia).
      rewrite load_zebra_spec; [|lia..| |done].
      * f_equal. f_equal. cbn [app fromCharCode]. autorewrite with zlen. lia.
      * rewrite Hlen, Z.div_1_r.
        replace 0x8000 with (2 ^ (15 - k) * 2 ^ k) by (rewrite <- Z.pow_add_r, Z.sub_add by lia; done).
        rewrite Z.add_comm, Z.mod_add by lia. by apply Z.mod_small.
    + change (2 ^ 15) with 32768. symmetry.
      apply (Z.div_unique _ _ _ (zcode (sub array o k))); lia.
Qed.

Lemma count_zero_spec l k :
  ∃ j, count_zero l k = k + j ∧ 0 ≤ j ≤ zlen l ∧ take (Z.to_nat j) l = replicate (Z.to_nat j) 0 ∧
       (head l = Some 0 → 1 ≤ j).
Proof.
  revert k. induction l as [|x l IH]; intros k; cbn [count_zero].
  { exists 0. split_and!; try done; lia. }
  pose proof (zlen_nonneg l). rewrite zlen_cons. case_decide as Hx.
  { exists 0. split_and!; try done; try lia. by intros [= ->]. }
  destruct (IH (k + 1)) as (j & -> & Hj & Htake & _).
  exists (1 + j). split_and!; try lia.
  replace (Z.to_nat (1 + j)) with (S (Z.to_nat j)) by lia. simpl. f_equal; [|done].
  destruct (decide (x = 0)); [done|tauto].
Qed.

Lemma search_double_zero_bound l b k :
  k - (if b : bool then 1 else 0) ≤ search_double_zero l b k ≤ k + zlen l.
Proof.
  revert b k. induction l as [|x l IH]; intros b k; cbn [search_double_zero].
  { change (zlen []) with 0. destruct b; simpl; lia. }
  rewrite zlen_cons. pose proof (zlen_nonneg l).
  destruct (decide (x = 0)), b; simpl; try lia;
    match goal with |- context [search_double_zero l ?b1 ?k1] => specialize (IH b1 k1) end;
    simpl in IH; lia.
Qed.

Lemma sub_snoc_take {A} (array : list A) o k :
  0 ≤ o → 0 ≤ k → take (Z.to_nat o) array ++ sub array o k = take (Z.to_nat (o + k)) array.
Proof.
  intros. unfold sub. rewrite take_take_drop. f_equal. lia.
Qed.

(** The block written at [index], the elements it covers and how it is read. *)
Lemma dump_numbers_spec fuel array index data off :
  0 ≤ index ≤ zlen array → zlen array - index < Z.of_nat fuel →
  ∃ s, dump_numbers fuel array index = Ret s ∧
       (has_at data off s →
        loads data (zlen array) (norm32 <$> take (Z.to_nat index) array) off
          (norm32 <$> array) (off + zlen s)).
Proof.
  revert index off. induction fuel as [|fuel IH]; intros index off Hi Hf; [lia|].
  cbn [dump_numbers]. case_decide as Hlt; last first.
  { exists []. split; [done|]. intros _. rewrite zlen_nil, Z.add_0_r.
    rewrite take_ge by (unfold zlen in *; lia). apply loads_refl. }
  destruct (aget_is_Some array index) as [x Hx]; [lia|]. rewrite Hx. cbn [mbind outcome_bind of_option].
  assert (zlen (norm32 <$> take (Z.to_nat index) array) = index) as Hr
    by (autorewrite with zlen; lia).
  rewrite aget_nonneg in Hx by lia. pose proof (drop_S _ _ _ Hx) as Hdrop.
  (* what is left to do once a block of [k] elements is written and read *)
  assert (∀ k block, 0 < k → index + k ≤ zlen array →
    (∀ off, has_at data off block →
       loads data (zlen array) (norm32 <$> take (Z.to_nat index) array) off
         ((norm32 <$> take (Z.to_nat index) array) ++ (norm32 <$> sub array index k))
         (off + zlen block)) →
    ∃ s, (rest ← dump_numbers fuel array (index + k); Ret (block ++ rest)) = Ret s ∧
       (has_at data off s →
        loads data (zlen array) (norm32 <$> take (Z.to_nat index) array) off
          (norm32 <$> array) (off + zlen s))) as Hrest.
  { intros k block Hk Hik Hblock.
    destruct (IH (index + k) (off + zlen block)) as (s & Hs & Hload); [lia..|].
    rewrite Hs. eexists. split; [done|]. intros [H1 H2]%has_at_app.
    eapply loads_trans; [by apply Hblock|].
    rewrite <- fmap_app, sub_snoc_take, zlen_app, Z.add_assoc by lia. by apply Hload. }
  destruct (decide (x = 0)) as [->|Hx0]; [|destruct (_shouldZebraCode array index)].
  - unfold _countZero. destruct (count_zero_spec (drop (Z.to_nat index) array) 0)
      as (j & -> & Hj & Htake & Hj1). rewrite Hdrop in Hj1. specialize (Hj1 eq_refl).
    rewrite Z.add_0_l. rewrite zlen_drop in Hj.
    destruct (zeroBlock_spec (S (Z.to_nat j)) j data (zlen array)
                (norm32 <$> take (Z.to_nat index) array) off) as (block & Hb & _); [lia..|].
    unfold _zeroBlock. rewrite Hb. apply Hrest; [lia..|]. intros off' Hat.
    destruct (zeroBlock_spec (S (Z.to_nat j)) j data (zlen array)
                (norm32 <$> take (Z.to_nat index) array) off') as (block' & Hb' & Hl); [lia..|].
    rewrite Hb in Hb'. injection Hb' as <-. unfold sub. rewrite Htake.
    rewrite fmap_replicate. by apply Hl.
  - replace (Z.min (zlen array) (index + 15))
      with (index + Z.min 15 (zlen array - index)) by lia.
    apply Hrest; [lia..|]. intros off' Hat. apply createZebraCode_spec; done || lia.
  - assert (1 ≤ _searchDoubleZero array index ≤ zlen array - index) as Hj.
    { unfold _searchDoubleZero. rewrite Hdrop. cbn [search_double_zero].
      rewrite decide_False by done.
      pose proof (search_double_zero_bound (drop (S (Z.to_nat index)) array) false (0 + 1)) as Hb.
      rewrite zlen_drop in Hb. cbv iota in Hb. lia. }
    set (j := _searchDoubleZero array index) in *.
    destruct (nonZeroBlock_spec (S (Z.to_nat j)) array index j data (zlen array)
                (norm32 <$> take (Z.to_nat index) array) off) as (block & Hb & _); [lia..|].
    unfold _nonZeroBlock. rewrite Hb. cbn [mbind outcome_bind]. rewrite decide_False by lia.
    apply Hrest; [lia..|]. intros off' Hat.
    destruct (nonZeroBlock_spec (S (Z.to_nat j)) array index j data (zlen array)
                (norm32 <$> take (Z.to_nat index) array) off') as (block' & Hb' & Hl); [lia..|].
    rewrite Hb in Hb'. injection Hb' as <-. by apply Hl.
Qed.

(** The string a number list is dumped to; the report does not change it. *)
Definition dumpNumbers (l : list Z) : outcome jsstr :=
  '(s, _) ← dump32bitNumberList l None; Ret s.

Instance codec_number_list :
  Codec (λ l, zlen l < 2 ^ 32) (fmap norm32) dumpNumbers load32bitNumberList.
Proof.
  split; unfold dumpNumbers, dump32bitNumberList.
  - intros l _. destruct (dump_numbers_spec (S (length l)) l 0 [] 0) as (s & -> & _);
      [split; [lia|apply zlen_nonneg]|unfold zlen; lia|]. simpl. eauto.
  - intros l s data off Hl Hs Hat. pose proof (zlen_nonneg l).
    destruct (dump_numbers_spec (S (length l)) l 0 data (off + 2)) as (blocks & Hb & Hload);
      [lia|unfold zlen; lia|].
    rewrite Hb in Hs. cbn [mbind outcome_bind] in Hs.
    assert (s = dump32bitNumber (zlen l) ++ blocks) as -> by congruence.
    apply has_at_app in Hat as [H32 Hat]. rewrite zlen_dump32 in Hat.
    unfold load32bitNumberList. rewrite (load32_dump32 (zlen l)) by done.
    cbn [mbind outcome_bind]. rewrite Z.mod_small by lia.
    change (norm32 <$> take (Z.to_nat 0) l) with (@nil Z) in Hload.
    destruct (Hload Hat (S (Z.to_nat (zlen l)))) as (fuel & Hf & ->);
      [change (zlen []) with 0; lia|].
    rewrite zlen_fmap in Hf. destruct fuel as [|fuel]; [lia|]. cbn [load_numbers].
    rewrite decide_False by (rewrite zlen_fmap; lia). f_equal. f_equal.
    rewrite zlen_app, zlen_dump32. lia.
Qed.

(** ** Base64 *)

(** Every 6-bit value is written as a character other than ['='] that the
    decoding table maps back to it. *)
Lemma base64_char v :
  0 ≤ v < 64 →
  ∃ ch, charAt _base64EncodeChars v = [ch] ∧ ch &' 0xff ≠ 61 ∧
        aget _base64DecodeChars (ch &' 0xff) = Some v.
Proof.
  intros Hv.
  assert (forallb (λ v, match charAt _base64EncodeChars v with
                        | [ch] => bool_decide (ch &' 0xff ≠ 61) &&
                                  bool_decide (aget _base64DecodeChars (ch &' 0xff) = Some v)
                        | _ => false
                        end) (seqZ 0 64) = true) as H by (vm_compute; done).
  rewrite forallb_forall in H. specialize (H v). rewrite <- list_elem_of_In, elem_of_seqZ in H.
  specialize (H ltac:(lia)). destruct (charAt _ v) as [|ch [|??]]; try done.
  apply andb_true_iff in H as [H1%bool_decide_eq_true H2%bool_decide_eq_true]. eauto.
Qed.

Lemma next_code_char v ch rest :
  0 ≤ v → aget _base64DecodeChars (ch &' 0xff) = Some v →
  next_code (ch :: rest) = (Some v, rest).
Proof.
  intros Hv H. cbn [next_code]. rewrite H.
  rewrite (bool_decide_eq_false_2 (Some v = Some (-1))) by (intros [= ->]; lia).
  by rewrite andb_false_r.
Qed.

Lemma next_code_or_end_char v ch rest :
  0 ≤ v → ch &' 0xff ≠ 61 → aget _base64DecodeChars (ch &' 0xff) = Some v →
  next_code_or_end (ch :: rest) = Some (Some v, rest).
Proof.
  intros Hv Hne H. cbn [next_code_or_end]. rewrite decide_False by done. rewrite H.
  rewrite (bool_decide_eq_false_2 (Some v = Some (-1))) by (intros [= ->]; lia).
  by rewrite andb_false_r.
Qed.

(** The arithmetic of the four sextets of three bytes. *)
Lemma sextet1 a : byte_code a → (a &' 0xff) >>' 2 = a / 4.
Proof.
  unfold byte_code. intros. change 0xff with (2 ^ 8 - 1).
  by rewrite js_and_ones, Z.mod_small, js_sar_div by lia.
Qed.
Lemma sextet2 a b :
  byte_code a → byte_code b →
  (((a &' 0xff) &' 0x3) <<' 4) |' ((b &' 0xF0) >>' 4) = (a mod 4) * 16 + b / 16.
Proof.
  unfold byte_code. intros. change 0xff with (2 ^ 8 - 1). change 0x3 with (2 ^ 2 - 1).
  rewrite !js_and_ones, (Z.mod_small a) by (rewrite ?js_and_ones; try apply Z.mod_pos_bound; lia).
  change 0xF0 with ((2 ^ 4 - 1) * 2 ^ 4). rewrite js_sar_and_field by lia.
  change (2 ^ 2) with 4. change (2 ^ 4) with 16.
  pose proof (Z.mod_pos_bound a 4 ltac:(lia)).
  rewrite js_shl_mul by lia. rewrite (Z.mod_small (b / 16)) by (split; [apply Z.div_pos|apply Z.div_lt_upper_bound]; lia).
  apply js_or_add; [lia..|split; [apply Z.div_pos|apply Z.div_lt_upper_bound]; lia|].
  pose proof (Z.div_lt_upper_bound b 16 16). lia.
Qed.
Lemma sextet3 b c :
  byte_code b → byte_code c →
  ((b &' 0xF) <<' 2) |' ((c &' 0xC0) >>' 6) = (b mod 16) * 4 + c / 64.
Proof.
  unfold byte_code. intros. change 0xF with (2 ^ 4 - 1).
  rewrite js_and_ones by lia.
  change 0xC0 with ((2 ^ 2 - 1) * 2 ^ 6). rewrite js_sar_and_field by lia.
  change (2 ^ 2) with 4. change (2 ^ 4) with 16. change (2 ^ 6) with 64.
  pose proof (Z.mod_pos_bound b 16 ltac:(lia)).
  rewrite js_shl_mul by lia. rewrite (Z.mod_small (c / 64)) by (split; [apply Z.div_pos|apply Z.div_lt_upper_bound]; lia).
  apply (js_or_add _ _ 2); [lia..|split; [apply Z.div_pos|apply Z.div_lt_upper_bound]; lia|].
  pose proof (Z.div_lt_upper_bound c 64 4). lia.
Qed.
Lemma sextet4 c : byte_code c → c &' 0x3F = c mod 64.
Proof. unfold byte_code. intros. change 0x3F with (2 ^ 6 - 1). by rewrite js_and_ones by lia. Qed.

Lemma byte1 x y : 0 ≤ x < 64 → 0 ≤ y < 64 → (x <<' 2) |' ((y &' 0x30) >>' 4) = x * 4 + y / 16.
Proof.
  intros. change 0x30 with ((2 ^ 2 - 1) * 2 ^ 4). rewrite js_sar_and_field, js_shl_mul by lia.
  change (2 ^ 2) with 4. change (2 ^ 4) with 16.
  rewrite Z.mod_small by (split; [apply Z.div_pos|apply Z.div_lt_upper_bound]; lia).
  pose proof (Z.div_lt_upper_bound y 16 4).
  apply (js_or_add _ _ 2); [lia..|split; [apply Z.div_pos; lia|lia]|lia].
Qed.
Lemma byte2 y z : 0 ≤ y < 64 → 0 ≤ z < 64 →
  ((y &' 0xF) <<' 4) |' ((z &' 0x3C) >>' 2) = (y mod 16) * 16 + z / 4.
Proof.
  intros. change 0x3C with ((2 ^ 4 - 1) * 2 ^ 2). change 0xF with (2 ^ 4 - 1).
  rewrite js_sar_and_field, js_and_ones by lia.
  change (2 ^ 2) with 4. change (2 ^ 4) with 16.
  pose proof (Z.mod_pos_bound y 16 ltac:(lia)).
  rewrite js_shl_mul by lia.
  rewrite (Z.mod_small (z / 4)) by (split; [apply Z.div_pos|apply Z.div_lt_upper_bound]; lia).
  pose proof (Z.div_lt_upper_bound z 4 16).
  apply (js_or_add _ _ 4); [lia..|split; [apply Z.div_pos; lia|lia]|lia].
Qed.
Lemma byte3 z w : 0 ≤ z < 64 → 0 ≤ w < 64 → ((z &' 0x03) <<' 6) |' w = (z mod 4) * 64 + w.
Proof.
  intros. change 0x03 with (2 ^ 2 - 1). rewrite js_and_ones by lia.
  change (2 ^ 2) with 4. pose proof (Z.mod_pos_bound z 4 ltac:(lia)).
  rewrite js_shl_mul by lia. apply (js_or_add _ _ 6); lia.
Qed.

Lemma sextet2_last a : byte_code a → ((a &' 0xff) &' 0x3) <<' 4 = (a mod 4) * 16.
Proof.
  unfold byte_code. intros. change 0xff with (2 ^ 8 - 1). change 0x3 with (2 ^ 2 - 1).
  rewrite !js_and_ones, (Z.mod_small a) by (rewrite ?js_and_ones; try apply Z.mod_pos_bound; lia).
  change (2 ^ 2) with 4. pose proof (Z.mod_pos_bound a 4 ltac:(lia)).
  by rewrite js_shl_mul by lia.
Qed.
Lemma sextet3_last b : byte_code b → (b &' 0xF) <<' 2 = (b mod 16) * 4.
Proof.
  unfold byte_code. intros. change 0xF with (2 ^ 4 - 1). rewrite js_and_ones by lia.
  change (2 ^ 4) with 16. pose proof (Z.mod_pos_bound b 16 ltac:(lia)).
  by rewrite js_shl_mul by lia.
Qed.

Ltac sextet v :=
  let ch := fresh "ch" in let H := fresh "Hch" in
  destruct (base64_char v) as (ch & -> & ? & H);
  [unfold byte_code in *; Z.div_mod_to_equations; lia|].

(** Reading one encoded character in the decoding loop. *)
Ltac read_char v :=
  first [rewrite (next_code_char v) by (done || Z.div_mod_to_equations; lia)
        |rewrite (next_code_or_end_char v) by (done || Z.div_mod_to_equations; lia)];
  rewrite decide_False by (intros [= ?]; Z.div_mod_to_equations; lia).

Lemma decode_encode bytes fuel out :
  Forall byte_code bytes → (length bytes < fuel)%nat →
  decode_loop fuel (encode_loop bytes) out = Ret (out ++ bytes).
Proof.
  revert bytes fuel out. fix IH 1. intros bytes fuel out Hb Hf.
  destruct fuel as [|fuel]; [lia|].
  destruct bytes as [|a [|b [|c bytes]]]; repeat (apply Forall_cons in Hb as [? Hb]);
    cbn [encode_loop]; cbv zeta.
  - cbn. by rewrite app_nil_r.
  - rewrite sextet1, sextet2_last by done. sextet (a / 4). sextet ((a mod 4) * 16).
    cbn [app decode_loop]. rewrite decide_False by done. unfold byte_code in *.
    read_char (a / 4). read_char ((a mod 4) * 16).
    rewrite !int_of_Some, byte1 by (Z.div_mod_to_equations; lia).
    cbn. do 3 f_equal. Z.div_mod_to_equations; lia.
  - rewrite sextet1, sextet2, sextet3_last by done.
    sextet (a / 4). sextet ((a mod 4) * 16 + b / 16). sextet ((b mod 16) * 4).
    cbn [app decode_loop]. rewrite decide_False by done. unfold byte_code in *.
    read_char (a / 4). read_char ((a mod 4) * 16 + b / 16). read_char ((b mod 16) * 4).
    rewrite !int_of_Some, byte1, byte2 by (Z.div_mod_to_equations; lia).
    cbn. rewrite <- app_assoc. cbn. do 2 f_equal.
    f_equal; [|f_equal]; Z.div_mod_to_equations; lia.
  - rewrite sextet1, sextet2, sextet3, sextet4 by done.
    sextet (a / 4). sextet ((a mod 4) * 16 + b / 16). sextet ((b mod 16) * 4 + c / 64).
    sextet (c mod 64).
    cbn [app decode_loop]. rewrite decide_False by done. unfold byte_code in *.
    read_char (a / 4). read_char ((a mod 4) * 16 + b / 16).
    read_char ((b mod 16) * 4 + c / 64). read_char (c mod 64).
    rewrite IH by (done || cbn in *; lia).
    rewrite !int_of_Some, byte1, byte2, byte3 by (Z.div_mod_to_equations; lia).
    rewrite <- !app_assoc. cbn [app]. do 2 f_equal.
    f_equal; [|f_equal; [|f_equal]]; Z.div_mod_to_equations; lia.
Qed.

Lemma merge_split s :
  Forall code_unit s →
  _mergeCharCode (concat ((λ code, [code &' 0x00ff; code >>>' 8]) <$> s)) = s ∧
  Forall byte_code (concat ((λ code, [code &' 0x00ff; code >>>' 8]) <$> s)).
Proof.
  unfold code_unit. induction 1 as [|c s Hc _ [IH1 IH2]]; [done|].
  csimpl. rewrite IH1. change 0x00ff with (2 ^ 8 - 1).
  rewrite js_and_ones, js_shr_div by lia. change (2 ^ 8) with 256.
  split.
  - rewrite js_shl_mul by (Z.div_mod_to_equations; lia). unfold fromCharCode. cbn [app].
    f_equal. rewrite to_uint16_small; change (2 ^ 8) with 256; Z.div_mod_to_equations; lia.
  - unfold byte_code. constructor; [|constructor; [|done]]; Z.div_mod_to_equations; lia.
Qed.

Lemma length_encode_loop bytes :
  Forall byte_code bytes → (length bytes ≤ length (encode_loop bytes))%nat.
Proof.
  revert bytes. fix IH 1. intros bytes Hb.
  destruct bytes as [|a [|b [|c bytes]]]; repeat (apply Forall_cons in Hb as [? Hb]);
    cbn [encode_loop]; cbv zeta; [done|..].
  - rewrite length_app. cbn. rewrite length_app. cbn. lia.
  - rewrite sextet1 by done. sextet (a / 4). rewrite !length_app. cbn. lia.
  - specialize (IH bytes Hb). rewrite sextet1, sextet2, sextet3 by done.
    sextet (a / 4). sextet ((a mod 4) * 16 + b / 16). sextet ((b mod 16) * 4 + c / 64).
    rewrite !length_app. cbn [length]. lia.
Qed.

(** ** The properties of the format *)

Lemma has_at_mid (pre s post : jsstr) : has_at (pre ++ s ++ post) (zlen pre) s.
Proof.
  split; [apply zlen_nonneg|]. unfold zlen.
  by rewrite Nat2Z.id, drop_app_length, take_app_length.
Qed.

(** C30: A list of numbers written with the run-length coded format is read back
    at any position of a file: the dump returns (its error branch is not taken),
    the load returns the numbers modulo 2^32 and the offset just after them. *)
Theorem number_list_roundtrip (l : list Z) (r : option CompressionReport) (pre post : jsstr) :
  zlen l < 2 ^ 32 →
  ∃ s r', dump32bitNumberList l r = Ret (s, r') ∧
          load32bitNumberList (pre ++ s ++ post) (zlen pre) =
            Ret ((λ x, x mod 2 ^ 32) <$> l, zlen pre + zlen s).
Proof.
  intros Hl. destruct (codec_total (Codec := codec_number_list) l Hl) as [s Hs].
  assert (∃ r', dump32bitNumberList l r = Ret (s, r')) as [r' Hr'].
  { revert Hs. unfold dumpNumbers, dump32bitNumberList.
    destruct (dump_numbers _ _ _); simpl; [intros [= <-]|done..]. eauto. }
  exists s, r'. split; [done|].
  by apply (codec_load (Codec := codec_number_list) l s); [| |apply has_at_mid].
Qed.

Lemma number_list_roundtrip_witness :
  zlen [0; 0; 5; 0; -1] < 2 ^ 32 ∧
  ∃ s r', dump32bitNumberList [0; 0; 5; 0; -1] None = Ret (s, r') ∧
          load32bitNumberList (jstr "ab" ++ s ++ jstr "c") 2 =
            Ret ([0; 0; 5; 0; 4294967295], 2 + zlen s).
Proof.
  split; [done|]. apply (number_list_roundtrip [0; 0; 5; 0; -1] None (jstr "ab") (jstr "c")). done.
Defined.

(** A string of at most 32767 UTF-16 code units, packed two bytes to a unit
    when all its units are bytes, is read back at any position of a file. *)
Theorem string_roundtrip (s : jsstr) (r : option CompressionReport) (pre post : jsstr) :
  Forall (λ c, 0 ≤ c < 65536) s → zlen s ≤ 32767 →
  loadString (pre ++ (dumpString s r).1 ++ post) (zlen pre) =
    Ret (s, zlen pre + zlen (dumpString s r).1).
Proof.
  intros Hs Hl. rewrite dumpString_code. apply loadString_code; [done|apply has_at_mid].
Qed.

Lemma string_roundtrip_witness :
  loadString (jstr "x" ++ (dumpString [104; 233; 8364] None).1 ++ []) 1 = Ret ([104; 233; 8364], 1 + 4).
Proof.
  apply (string_roundtrip [104; 233; 8364] None (jstr "x") []);
    [repeat constructor; lia|by vm_compute].
Defined.

(** A string of 32768 units or more is not read back: the length word
    overflows into the compression flag, and the loaded string is empty,
    whatever the string was. *)
Theorem long_string_lost (s : jsstr) (r : option CompressionReport) :
  Forall (λ c, 0 ≤ c < 65536) s → 32768 ≤ zlen s →
  loadString (dumpString s r).1 0 = Ret ([], 1).
Proof.
  intros Hs Hl. rewrite dumpString_code. unfold string_code, dumpString.
  set (s' := if decide (zlen s > 32768) then js_slice s 0 32768 else s).
  assert (zlen s' = 32768) as Hl'.
  { unfold s'. case_decide; [|lia]. unfold js_slice, slice_index.
    rewrite !decide_False by lia. autorewrite with zlen. lia. }
  destruct (scan_bytes s' []) as [[] codes]; unfold loadString; rewrite Hl'; cbn [fst].
  - rewrite (load16_dump16 (32768 + 32768)) by apply has_at_self. cbn [mbind outcome_bind].
    change ((32768 + 32768) mod 65536) with 0. rewrite decide_False by lia.
    unfold js_slice. by rewrite Z.add_0_r, Z.sub_diag.
  - by rewrite (load16_dump16 32768) by apply has_at_self.
Qed.

Lemma long_string_lost_witness :
  loadString (dumpString (replicate (Z.to_nat 32768) 65) None).1 0 = Ret ([], 1).
Proof.
  apply (long_string_lost (replicate (Z.to_nat 32768) 65) None).
  - apply Forall_replicate. lia.
  - rewrite zlen_replicate. lia.
Defined.

(** A map of string lists (the table of stemmed words) is read back with the
    same entries in the same enumeration order. *)
Theorem string_list_map_roundtrip (m : list (jsstr * list jsstr))
    (r : option CompressionReport) (pre post : jsstr) :
  map_ok m →
  loadStringListMap (pre ++ (dumpStringListMap m r).1 ++ post) (zlen pre) =
    Ret (m, zlen pre + zlen (dumpStringListMap m r).1).
Proof.
  intros Hm. rewrite (dumpStringListMap_code m r), <- (dumpStringListMap_code m None).
  by apply (codec_load (Codec := codec_string_list_map) m); [| |apply has_at_mid].
Qed.

Lemma string_list_map_roundtrip_witness :
  let m := [(jstr "12", [jstr "a"]); (jstr "run", [jstr "runs"; jstr "ran"])] in
  map_ok m ∧
  loadStringListMap (dumpStringListMap m None).1 0 = Ret (m, zlen (dumpStringListMap m None).1).
Proof.
  intros m. assert (map_ok m) as Hm.
  { split; [|split; [|done]].
    - split; [by repeat constructor; set_solver|].
      repeat constructor.
    - repeat constructor; try done. }
  split; [exact Hm|].
  pose proof (string_list_map_roundtrip m None [] [] Hm) as H.
  rewrite app_nil_r in H. exact H.
Defined.

(** Base64 coding of a string of UTF-16 code units and decoding it gives the
    string back. *)
Theorem base64_roundtrip (s : jsstr) :
  Forall (λ c, 0 ≤ c < 65536) s → base64decode (base64encode s) = Ret s.
Proof.
  intros Hs. destruct (merge_split s Hs) as [Hm Hb].
  unfold base64decode, base64encode. rewrite decode_encode; [by simpl; rewrite Hm|done|].
  pose proof (length_encode_loop _ Hb). lia.
Qed.

Lemma base64_roundtrip_witness :
  base64decode (base64encode [111; 107; 65535; 0]) = Ret [111; 107; 65535; 0].
Proof. apply (base64_roundtrip [111; 107; 65535; 0]). repeat constructor; lia. Defined.

End Bin.
