(* ===== verification/BitVector.v ===== *)
(** * BitVector: the succinct bit vector

    Model of [src/misc/oktavia/src/bit-vector.jsx]: a bit vector stored in
    32-bit words with a table of ranks, one entry per eight words.  [get],
    [rank] and [select] are shown to compute what they say on the list of bits
    the vector stands for; [_rank32] and [_select32], the word-parallel
    counting routines, are shown equal to counting bit by bit. *)

From S2P Require Import Prelude JsObject Binary.

Module BV.
Local Open Scope js_scope.

Definition SMALL_BLOCK_SIZE : Z := 32.
Definition LARGE_BLOCK_SIZE : Z := 256.
Definition BLOCK_RATE : Z := 8.

Record t := mk { _v : list Z; _r : list Z; _size : Z; _size1 : Z }.

Definition new : t := mk [] [] 0 0.

Definition clear (bv : t) : t := mk [] [] 0 0.

Definition size (bv : t) : Z := _size bv.
Definition size_of (bv : t) (b : bool) : Z := if b then _size1 bv else _size bv - _size1 bv.

(** Number of bits equal to [b] among the low [i] bits of [x]. *)
Definition _rank32 (x i : Z) (b : bool) : Z :=
  let x := if negb b then ~' x else x in
  let x := x <<' (SMALL_BLOCK_SIZE - i) in
  let x := ((x &' 0xaaaaaaaa) >>>' 1) + (x &' 0x55555555) in
  let x := ((x &' 0xcccccccc) >>>' 2) + (x &' 0x33333333) in
  let x := ((x &' 0xf0f0f0f0) >>>' 4) + (x &' 0x0f0f0f0f) in
  let x := ((x &' 0xff00ff00) >>>' 8) + (x &' 0x00ff00ff) in
  let x := ((x &' 0xffff0000) >>>' 16) + (x &' 0x0000ffff) in
  x.

(** One test of the descent of [_select32]: skip a field of width [w] that
    holds [v] bits when the bit looked for is not in it. *)
Definition skip (st : Z * Z) (v w : Z) : Z * Z :=
  let '(i, pos) := st in
  if decide (i > v) then (i - v, pos + w) else (i, pos).

Definition _select32 (x i : Z) (b : bool) : Z :=
  let x := if negb b then ~' x else x in
  let x1 := ((x  &' 0xaaaaaaaa) >>>' 1) + (x  &' 0x55555555) in
  let x2 := ((x1 &' 0xcccccccc) >>>' 2) + (x1 &' 0x33333333) in
  let x3 := ((x2 &' 0xf0f0f0f0) >>>' 4) + (x2 &' 0x0f0f0f0f) in
  let x4 := ((x3 &' 0xff00ff00) >>>' 8) + (x3 &' 0x00ff00ff) in
  let x5 := ((x4 &' 0xffff0000) >>>' 16) + (x4 &' 0x0000ffff) in
  let st := (i + 1, 0) in
  let st := skip st (x5 &' 0xffffffff) 32 in
  let st := skip st ((x4 >>>' st.2) &' 0x0000ffff) 16 in
  let st := skip st ((x3 >>>' st.2) &' 0x000000ff) 8 in
  let st := skip st ((x2 >>>' st.2) &' 0x0000000f) 4 in
  let st := skip st ((x1 >>>' st.2) &' 0x00000003) 2 in
  let st := skip st ((x >>>' st.2) &' 0x00000001) 1 in
  st.2.

(** The loop of [build]; the table of ranks is appended to what it holds. *)
Fixpoint build_loop (v : list Z) (i : Z) (r : list Z) (size1 : Z) : list Z * Z :=
  match v with
  | [] => (r, size1)
  | w :: v =>
    let r := if decide (js_rem i BLOCK_RATE = 0) then r ++ [size1] else r in
    build_loop v (i + 1) r (size1 + _rank32 w SMALL_BLOCK_SIZE true)
  end.

Definition build (bv : t) : t :=
  let '(r, size1) := build_loop (_v bv) 0 (_r bv) 0 in
  mk (_v bv) r (_size bv) size1.

Definition set (bv : t) (value : Z) (flag : bool) : t :=
  let size' := if decide (value >= size bv) then value + 1 else _size bv in
  let q := js_div value SMALL_BLOCK_SIZE in
  let r := js_rem value SMALL_BLOCK_SIZE in
  let v := _v bv ++ replicate (Z.to_nat (q + 1 - zlen (_v bv))) 0 in
  let m := 0x1 <<' r in
  let v := match aget v q with
           | Some w => <[Z.to_nat q := if flag then w |' m else w &' (~' m)]> v
           | None => v
           end in
  mk v (_r bv) size' (_size1 bv).

Definition get (bv : t) (value : Z) : outcome bool :=
  if decide (value >= size bv) then Throw "BitVector.get() : range error"
  else
    let q := js_div value SMALL_BLOCK_SIZE in
    let r := js_rem value SMALL_BLOCK_SIZE in
    let m := 0x1 <<' r in
    Ret (bool_decide (int_of (aget (_v bv) q) &' m ≠ 0)).

Definition rank (bv : t) (i : Z) (b : bool) : outcome Z :=
  if decide (i > size bv) then Throw "BitVector.rank() : range error"
  else if decide (i = 0) then Ret 0
  else
    let i := i - 1 in
    let q_large := i / LARGE_BLOCK_SIZE in
    let q_small := i / SMALL_BLOCK_SIZE in
    let r := js_rem i SMALL_BLOCK_SIZE in
    rank ← of_option (aget (_r bv) q_large);
    let rank := if negb b then q_large * LARGE_BLOCK_SIZE - rank else rank in
    let begin := q_large * BLOCK_RATE in
    let rank := foldl (λ rank j, rank + _rank32 (int_of (aget (_v bv) j)) SMALL_BLOCK_SIZE b)
                  rank (seqZ begin (q_small - begin)) in
    Ret (rank + _rank32 (int_of (aget (_v bv) q_small)) (r + 1) b).

(** The binary search of [select] in the table of ranks. *)
Fixpoint select_search (fuel : nat) (bv : t) (i : Z) (b : bool) (left right : Z) : outcome Z :=
  match fuel with
  | O => NoFuel
  | S fuel =>
    if decide (left < right) then
      let pivot := (left + right) / 2 in
      rank ← of_option (aget (_r bv) pivot);
      let rank := if negb b then pivot * LARGE_BLOCK_SIZE - rank else rank in
      if decide (i < rank) then select_search fuel bv i b left pivot
      else select_search fuel bv i b (pivot + 1) right
    else Ret right
  end.

(** The scan of the words from the block found. *)
Fixpoint select_scan (fuel : nat) (bv : t) (i j : Z) (b : bool) : outcome (Z * Z) :=
  match fuel with
  | O => NoFuel
  | S fuel =>
    let rank := _rank32 (int_of (aget (_v bv) j)) SMALL_BLOCK_SIZE b in
    if decide (i < rank) then Ret (i, j) else select_scan fuel bv (i - rank) (j + 1) b
  end.

Definition select (bv : t) (i : Z) (b : bool) : outcome Z :=
  if decide (i >= size_of bv b) then Throw "BitVector.select() : range error"
  else
    right ← select_search (S (length (_r bv))) bv i b 0 (zlen (_r bv));
    let right := right - 1 in
    rank ← of_option (aget (_r bv) right);
    let i := if b then i - rank else i - (right * LARGE_BLOCK_SIZE - rank) in
    '(i, j) ← select_scan (S (length (_v bv))) bv i (right * BLOCK_RATE) b;
    Ret (j * SMALL_BLOCK_SIZE + _select32 (int_of (aget (_v bv) j)) i b).

Definition dump (bv : t) (report : option Bin.CompressionReport)
    : outcome (jsstr * option Bin.CompressionReport) :=
  let report := Bin.report_opt report 2 2 in
  '(s, report) ← Bin.dump32bitNumberList (_v bv) report;
  Ret (Bin.dump32bitNumber (_size bv) ++ s, report).

Definition load (bv : t) (data : jsstr) (offset : Z) : outcome (t * Z) :=
  let bv := clear bv in
  size ← Bin.load32bitNumber data offset;
  '(v, offset) ← Bin.load32bitNumberList data (offset + 2);
  Ret (build (mk v (_r bv) (to_int32 size) (_size1 bv)), offset).


(** ** Word-parallel counting

    [fval w n g] is the number whose base [2 ^ w] digits are [g 0 .. g (n - 1)],
    lowest first. *)
Fixpoint fval (w : Z) (n : nat) (g : nat → Z) : Z :=
  match n with
  | O => 0
  | S n => g O + 2 ^ w * fval w n (λ j, g (S j))
  end.

Lemma fval_ext w n g h : (∀ j, (j < n)%nat → g j = h j) → fval w n g = fval w n h.
Proof.
  revert g h. induction n as [|n IH]; intros g h H; [done|]. cbn [fval].
  rewrite (H O) by lia. f_equal. f_equal. apply IH. intros. apply H. lia.
Qed.

Lemma fval_bound w n g :
  0 ≤ w → (∀ j, 0 ≤ g j < 2 ^ w) → 0 ≤ fval w n g < 2 ^ (w * Z.of_nat n).
Proof.
  intros Hw. revert g. induction n as [|n IH]; intros g H; [rewrite Z.mul_0_r; done|].
  cbn [fval]. specialize (IH (λ j, g (S j)) (λ j, H (S j))). specialize (H O).
  replace (w * Z.of_nat (S n)) with (w + w * Z.of_nat n) by lia.
  rewrite Z.pow_add_r by lia. nia.
Qed.

(** The digits of a number in base 2 are its bits. *)
Lemma fval_bits x n : fval 1 n (λ j, Z.b2z (Z.testbit x (Z.of_nat j))) = x mod 2 ^ Z.of_nat n.
Proof.
  revert x. induction n as [|n IH]; intros x; [by rewrite Z.mod_1_r|].
  cbn [fval]. rewrite (fval_ext 1 n _ (λ j, Z.b2z (Z.testbit (x / 2) (Z.of_nat j)))).
  - rewrite IH. rewrite Nat2Z.inj_succ, Z.pow_succ_r by lia.
    rewrite (Z.rem_mul_r x 2) by lia. change (Z.of_nat 0) with 0.
    rewrite Z.bit0_mod. done.
  - intros j _. by rewrite Nat2Z.inj_succ, Z.div2_bits by lia.
Qed.

(** Bitwise conjunction works digit by digit. *)
Lemma land_concat w a b X Y :
  0 ≤ w → 0 ≤ a < 2 ^ w → 0 ≤ b < 2 ^ w →
  Z.land (a + 2 ^ w * X) (b + 2 ^ w * Y) = Z.land a b + 2 ^ w * Z.land X Y.
Proof.
  intros Hw Ha Hb.
  assert (∀ c D, 0 ≤ c < 2 ^ w → ∀ i, 0 ≤ i →
    Z.testbit (c + 2 ^ w * D) i = if decide (i < w) then Z.testbit c i else Z.testbit D (i - w)) as Hbit.
  { intros c D Hc i Hi. case_decide.
    - rewrite <- (Z.mod_pow2_bits_low (c + 2 ^ w * D) w) by lia.
      by rewrite Z.mul_comm, Z_mod_plus_full, Z.mod_small by lia.
    - replace i with (i - w + w) at 1 by lia.
      rewrite <- Z.div_pow2_bits by lia.
      by rewrite Z.mul_comm, Z.div_add, Z.div_small by lia. }
  apply Z.bits_inj'. intros i Hi. rewrite Z.land_spec, !Hbit by (done || by apply land_bound).
  case_decide; by rewrite Z.land_spec.
Qed.

(** One round of the parallel sum: neighbouring digits are added. *)
Lemma fval_step w n g :
  0 < w → (∀ j, 0 ≤ g j < 2 ^ w) →
  Z.shiftr (Z.land (fval w (2 * n) g) (fval w (2 * n) (λ j, if Nat.even j then 0 else 2 ^ w - 1))) w
  + Z.land (fval w (2 * n) g) (fval w (2 * n) (λ j, if Nat.even j then 2 ^ w - 1 else 0))
  = fval (2 * w) n (λ j, g (2 * j)%nat + g (2 * j + 1)%nat).
Proof.
  intros Hw. revert g. induction n as [|n IH]; intros g Hg.
  { simpl. by rewrite Z.shiftr_0_l. }
  replace (2 * S n)%nat with (S (S (2 * n))) by lia. cbn [fval Nat.even].
  pose proof (Z.pow_pos_nonneg 2 w ltac:(lia) ltac:(lia)).
  rewrite !land_concat by (try apply Hg; lia).
  rewrite !Z.land_0_r.
  assert (∀ c, 0 ≤ c < 2 ^ w → Z.land c (2 ^ w - 1) = c) as Hones.
  { intros c Hc. replace (2 ^ w - 1) with (Z.ones w) by (rewrite Z.ones_equiv; lia).
    by rewrite Z.land_ones, Z.mod_small by lia. }
  rewrite !Hones by apply Hg.
  rewrite <- (fval_ext (2 * w) n (λ j, g (2 + 2 * j)%nat + g (2 + 2 * j + 1)%nat))
    by (intros; f_equal; f_equal; lia).
  specialize (IH (λ j, g (2 + j)%nat) ltac:(intros; apply Hg)). cbn beta in IH.
  rewrite <- (fval_ext (2 * w) n (λ j, g (2 + 2 * j)%nat + g (2 + (2 * j + 1))%nat))
    by (intros; f_equal; f_equal; lia).
  rewrite <- IH.
  set (X := fval w (2 * n) (λ j, g (2 + j)%nat)).
  change (fval w (2 * n) (λ j, g (S (S j)))) with X.
  set (odd_mask := fval w (2 * n) (λ j, if Nat.even j then 0 else 2 ^ w - 1)).
  assert (∃ M, odd_mask = 0 + 2 ^ w * M) as [M HM].
  { unfold odd_mask. destruct n as [|n']; [by exists 0; rewrite Z.mul_0_r|].
    replace (2 * S n')%nat with (S (S (2 * n'))) by lia. cbn [fval Nat.even]. by eexists. }
  assert (Z.land X odd_mask = 2 ^ w * Z.land (X / 2 ^ w) M) as ->.
  { rewrite HM at 1. rewrite (Z.div_mod X (2 ^ w)) at 1 by lia. rewrite Z.add_comm.
    rewrite land_concat by (try apply Z.mod_pos_bound; lia). by rewrite Z.land_0_r. }
  rewrite !Z.shiftr_div_pow2 by lia. replace (2 * w) with (w + w) by lia.
  rewrite Z.pow_add_r by lia.
  rewrite Z.add_0_l, !(Z.mul_comm (2 ^ w) (_ + _)), !Z.div_mul by lia.
  rewrite (Z.mul_comm (2 ^ w) (Z.land _ _)), Z.div_mul by lia.
  change (2 * 0)%nat with 0%nat. change (0 + 1)%nat with 1%nat. ring.
Qed.

(** Number of indices in [lo .. lo + len - 1] where [f] holds. *)
Fixpoint cnt (f : Z → bool) (lo : Z) (len : nat) : Z :=
  match len with
  | O => 0
  | S len => Z.b2z (f lo) + cnt f (lo + 1) len
  end.

Lemma cnt_app f lo a b : cnt f lo (a + b) = cnt f lo a + cnt f (lo + Z.of_nat a) b.
Proof.
  revert lo. induction a as [|a IH]; intros lo; simpl; [by rewrite Z.add_0_r|].
  rewrite IH. replace (lo + 1 + Z.of_nat a) with (lo + Z.of_nat (S a)) by lia. lia.
Qed.

Lemma cnt_bound f lo len : 0 ≤ cnt f lo len ≤ Z.of_nat len.
Proof.
  revert lo. induction len as [|len IH]; intros lo; simpl; [lia|].
  specialize (IH (lo + 1)). destruct (f lo); simpl; lia.
Qed.

Lemma cnt_ext f g lo len :
  (∀ i, lo ≤ i < lo + Z.of_nat len → f i = g i) → cnt f lo len = cnt g lo len.
Proof.
  revert lo. induction len as [|len IH]; intros lo H; simpl; [done|].
  rewrite H by lia. f_equal. apply IH. intros. apply H. lia.
Qed.

Lemma cnt_shift f g lo lo' len :
  (∀ i, 0 ≤ i < Z.of_nat len → f (lo + i) = g (lo' + i)) → cnt f lo len = cnt g lo' len.
Proof.
  revert lo lo'. induction len as [|len IH]; intros lo lo' H; simpl; [done|].
  specialize (H 0 ltac:(lia)) as H0. rewrite !Z.add_0_r in H0. rewrite H0. f_equal.
  apply IH. intros i Hi. replace (lo + 1 + i) with (lo + (1 + i)) by lia.
  rewrite H by lia. f_equal. lia.
Qed.

Lemma cnt_negb f lo len : cnt (λ i, negb (f i)) lo len = Z.of_nat len - cnt f lo len.
Proof.
  revert lo. induction len as [|len IH]; intros lo; [done|]. cbn [cnt]. rewrite IH.
  destruct (f lo); simpl; lia.
Qed.

Lemma cnt_false f lo len :
  (∀ i, lo ≤ i < lo + Z.of_nat len → f i = false) → cnt f lo len = 0.
Proof.
  revert lo. induction len as [|len IH]; intros lo H; simpl; [done|].
  rewrite H by lia. rewrite IH; [done|]. intros. apply H. lia.
Qed.

(** The digits of width [w] that hold the number of set bits of each field. *)
Definition fields (w : nat) (n : nat) (f : Z → bool) : Z :=
  fval (Z.of_nat w) n (λ j, cnt f (Z.of_nat (w * j)) w).

Lemma small_pow2 w : Z.of_nat w < 2 ^ Z.of_nat w.
Proof. apply Z.pow_gt_lin_r; lia. Qed.

(** One line [x = ((x & hi) >>> w) + (x & lo)] of the counting routines. *)
Lemma round_fields w n f x hi lo :
  (0 < w)%nat → (w * (2 * n) = 32)%nat →
  to_uint32 x = fields w (2 * n) f →
  to_uint32 hi = fval (Z.of_nat w) (2 * n) (λ j, if Nat.even j then 0 else 2 ^ Z.of_nat w - 1) →
  lo = fval (Z.of_nat w) (2 * n) (λ j, if Nat.even j then 2 ^ Z.of_nat w - 1 else 0) →
  0 ≤ lo < 2 ^ 31 →
  ((x &' hi) >>>' Z.of_nat w) + (x &' lo) = fields (2 * w) n f.
Proof.
  intros Hw Hn Hx Hhi Hlo Hb. assert (w ≤ 16)%nat by (destruct n; nia).
  rewrite js_shr_and, js_and_mask, Hx, Hhi by lia.
  rewrite Hlo. unfold fields. rewrite fval_step; [|lia|].
  - replace (Z.of_nat (2 * w)) with (2 * Z.of_nat w) by lia. apply fval_ext. intros j _.
    replace (2 * w)%nat with (w + w)%nat by lia. rewrite cnt_app. f_equal; f_equal; lia.
  - intros j. pose proof (cnt_bound f (Z.of_nat (w * j)) w). pose proof (small_pow2 w). lia.
Qed.

Lemma fields_uint32 w n f :
  (0 < w)%nat → (w * n = 32)%nat → to_uint32 (fields w n f) = fields w n f.
Proof.
  intros Hw Hn. apply to_uint32_small. unfold fields.
  replace 32 with (Z.of_nat w * Z.of_nat n) by lia. apply fval_bound; [lia|].
  intros j. pose proof (cnt_bound f (Z.of_nat (w * j)) w). pose proof (small_pow2 w). lia.
Qed.

Definition popstep1 (x : Z) : Z := ((x &' 0xaaaaaaaa) >>>' 1) + (x &' 0x55555555).
Definition popstep2 (x : Z) : Z := ((x &' 0xcccccccc) >>>' 2) + (x &' 0x33333333).
Definition popstep3 (x : Z) : Z := ((x &' 0xf0f0f0f0) >>>' 4) + (x &' 0x0f0f0f0f).
Definition popstep4 (x : Z) : Z := ((x &' 0xff00ff00) >>>' 8) + (x &' 0x00ff00ff).
Definition popstep5 (x : Z) : Z := ((x &' 0xffff0000) >>>' 16) + (x &' 0x0000ffff).

Lemma popstep1_spec x : popstep1 x = fields 2 16 (Z.testbit x).
Proof.
  pose proof (round_fields 1 16 (Z.testbit x) x 0xaaaaaaaa 0x55555555) as H.
  apply H; clear H; [lia..| |by vm_compute|by vm_compute|lia].
  unfold fields. change (2 * 16)%nat with 32%nat.
  change (to_uint32 x) with (x mod 2 ^ Z.of_nat 32). rewrite <- fval_bits.
  apply fval_ext. intros j _. cbn [cnt]. rewrite Z.add_0_r. do 2 f_equal. lia.
Qed.

Ltac popstep w n hi lo :=
  let H := fresh in
  intros f; pose proof (round_fields w n f (fields w (2 * n) f) hi lo) as H;
  apply H; clear H;
  [lia..|apply (fields_uint32 w (2 * n)); lia|by vm_compute|by vm_compute|lia].

Lemma popstep2_spec : ∀ f, popstep2 (fields 2 16 f) = fields 4 8 f.
Proof. popstep 2%nat 8%nat 0xcccccccc 0x33333333. Qed.
Lemma popstep3_spec : ∀ f, popstep3 (fields 4 8 f) = fields 8 4 f.
Proof. popstep 4%nat 4%nat 0xf0f0f0f0 0x0f0f0f0f. Qed.
Lemma popstep4_spec : ∀ f, popstep4 (fields 8 4 f) = fields 16 2 f.
Proof. popstep 8%nat 2%nat 0xff00ff00 0x00ff00ff. Qed.
Lemma popstep5_spec : ∀ f, popstep5 (fields 16 2 f) = fields 32 1 f.
Proof. popstep 16%nat 1%nat 0xffff0000 0x0000ffff. Qed.

Lemma rank32_steps x i b :
  _rank32 x i b =
    popstep5 (popstep4 (popstep3 (popstep2 (popstep1
      ((if negb b then ~' x else x) <<' (SMALL_BLOCK_SIZE - i)))))).
Proof.
  cbv beta zeta delta [_rank32 popstep1 popstep2 popstep3 popstep4 popstep5].
  reflexivity.
Qed.

(** [_rank32] counts. *)
Lemma rank32_spec x i b :
  1 ≤ i ≤ 32 →
  _rank32 x i b = cnt (λ j, Bool.eqb (Z.testbit x j) b) 0 (Z.to_nat i).
Proof.
  intros Hi. rewrite rank32_steps. unfold SMALL_BLOCK_SIZE.
  set (y := if negb b then ~' x else x).
  rewrite popstep1_spec, popstep2_spec, popstep3_spec, popstep4_spec, popstep5_spec.
  unfold fields. cbn [fval]. rewrite Z.mul_0_r, Z.add_0_r. change (Z.of_nat (32 * 0)) with 0.
  replace 32%nat with (Z.to_nat (32 - i) + Z.to_nat i)%nat by lia.
  rewrite cnt_app, cnt_false, Z.add_0_l; last first.
  { intros j Hj. rewrite testbit_js_shl by lia. by rewrite decide_True by lia. }
  apply cnt_shift. intros j Hj.
  rewrite testbit_js_shl by lia. rewrite decide_False by lia.
  replace (0 + Z.of_nat (Z.to_nat (32 - i)) + j - (32 - i)) with j by lia.
  rewrite Z.add_0_l. unfold y. destruct b; cbn [negb].
  - by destruct (Z.testbit x j).
  - rewrite testbit_js_not by lia. by destruct (Z.testbit x j).
Qed.

(** A digit is read with a shift and a mask. *)
Lemma fval_digit w n g j :
  0 < w → (∀ j, 0 ≤ g j < 2 ^ w) → (j < n)%nat →
  (fval w n g / 2 ^ (w * Z.of_nat j)) mod 2 ^ w = g j.
Proof.
  intros Hw. revert n g. induction j as [|j IH]; intros n g Hg Hj;
    (destruct n as [|n]; [lia|]); cbn [fval].
  - rewrite Z.mul_0_r, Z.div_1_r, Z.mul_comm, Z_mod_plus_full. apply Z.mod_small, Hg.
  - replace (w * Z.of_nat (S j)) with (w + w * Z.of_nat j) by lia.
    pose proof (Z.pow_pos_nonneg 2 w ltac:(lia) ltac:(lia)).
    pose proof (Z.pow_pos_nonneg 2 (w * Z.of_nat j) ltac:(lia) ltac:(lia)).
    rewrite Z.pow_add_r, <- Z.div_div by lia.
    rewrite Z.mul_comm, Z.div_add, (Z.div_small (g 0%nat)), Z.add_0_l by (lia || apply Hg).
    by rewrite IH by (lia || intros; apply Hg).
Qed.

Lemma fields_get w n f pos :
  (0 < w ≤ 16)%nat → (w * n = 32)%nat → 0 ≤ pos < 32 → (Z.of_nat w | pos) →
  (fields w n f >>>' pos) &' (2 ^ Z.of_nat w - 1) = cnt f pos w.
Proof.
  intros Hw Hn Hpos [k ->].
  assert (∀ j, 0 ≤ cnt f (Z.of_nat (w * j)) w < 2 ^ Z.of_nat w) as Hg.
  { intros j. pose proof (cnt_bound f (Z.of_nat (w * j)) w). pose proof (small_pow2 w). lia. }
  assert (0 ≤ fields w n f < 2 ^ 32).
  { replace 32 with (Z.of_nat w * Z.of_nat n) by lia. by apply fval_bound; [lia|]. }
  rewrite js_shr_div by lia. rewrite js_and_ones; [|lia|by apply Z.div_pos; lia].
  assert (0 ≤ k) by nia.
  replace (k * Z.of_nat w) with (Z.of_nat w * Z.of_nat (Z.to_nat k)) by lia.
  unfold fields. rewrite fval_digit; [|lia|done|nia]. f_equal. nia.
Qed.

Lemma select32_steps x i b :
  _select32 x i b =
    let x := if negb b then ~' x else x in
    let x1 := popstep1 x in
    let x2 := popstep2 x1 in
    let x3 := popstep3 x2 in
    let x4 := popstep4 x3 in
    let x5 := popstep5 x4 in
    let st := skip (i + 1, 0) (x5 &' 0xffffffff) 32 in
    let st := skip st ((x4 >>>' st.2) &' 0x0000ffff) 16 in
    let st := skip st ((x3 >>>' st.2) &' 0x000000ff) 8 in
    let st := skip st ((x2 >>>' st.2) &' 0x0000000f) 4 in
    let st := skip st ((x1 >>>' st.2) &' 0x00000003) 2 in
    let st := skip st ((x >>>' st.2) &' 0x00000001) 1 in
    st.2.
Proof.
  cbv beta delta [_select32 popstep1 popstep2 popstep3 popstep4 popstep5]. reflexivity.
Qed.

(** The state of the descent: the bit looked for is the [i]-th of the field of
    width [w] at [pos], [k] bits of the word come before that field. *)
Definition descent (f : Z → bool) (i0 : Z) (w : nat) (st : Z * Z) : Prop :=
  (Z.of_nat w | st.2) ∧ 0 ≤ st.2 ∧ st.2 + Z.of_nat w ≤ 32 ∧
  1 ≤ st.1 ≤ cnt f st.2 w ∧ i0 + 1 = cnt f 0 (Z.to_nat st.2) + st.1.

Lemma skip_descent f i0 w st v :
  descent f i0 (2 * w) st → v = cnt f st.2 w →
  descent f i0 w (skip st v (Z.of_nat w)).
Proof.
  destruct st as [i pos]. unfold descent, skip. cbn [fst snd].
  intros ((k & Hk) & Hpos & H32 & Hi & Hi0) ->.
  replace (2 * w)%nat with (w + w)%nat in Hi by lia. rewrite cnt_app in Hi.
  case_decide; cbn [fst snd].
  - split_and!; [exists (2 * k + 1); lia|lia..|].
    replace (Z.to_nat (pos + Z.of_nat w)) with (Z.to_nat pos + w)%nat by lia.
    rewrite cnt_app, Z.add_0_l, Z2Nat.id by lia. lia.
  - split_and!; [exists (2 * k); lia|lia..].
Qed.

(** [_select32] finds the position of the [i]-th bit equal to [b]. *)
Lemma select32_spec x i b :
  let f j := Bool.eqb (Z.testbit x j) b in
  0 ≤ i < cnt f 0 32 →
  let p := _select32 x i b in
  0 ≤ p < 32 ∧ f p = true ∧ cnt f 0 (Z.to_nat p) = i.
Proof.
  intros f Hi p. unfold p. rewrite select32_steps. set (y := if negb b then ~' x else x).
  assert (∀ j, 0 ≤ j < 32 → Z.testbit y j = f j) as Hy.
  { intros j Hj. unfold y, f. destruct b; cbn [negb].
    - by destruct (Z.testbit x j).
    - rewrite testbit_js_not by lia. by destruct (Z.testbit x j). }
  cbv zeta. rewrite !popstep1_spec, !popstep2_spec, !popstep3_spec, !popstep4_spec, !popstep5_spec.
  set (g := Z.testbit y) in *.
  assert (cnt g 0 32 = cnt f 0 32) as Hgf by (apply cnt_ext; intros; apply Hy; lia).
  assert (fields 32 1 g &' 0xffffffff = cnt g 0 32) as ->.
  { unfold fields. cbn [fval]. rewrite Z.mul_0_r, Z.add_0_r. change (Z.of_nat (32 * 0)) with 0.
    unfold js_and. change (to_int32 0xffffffff) with (-1). rewrite Z.land_m1_r.
    pose proof (cnt_bound g 0 32). apply to_int32_small. lia. }
  assert (descent g i 32 (skip (i + 1, 0) (cnt g 0 32) 32)) as H.
  { unfold skip. rewrite decide_False by lia. unfold descent. cbn [fst snd].
    split_and!; [by exists 0|lia|lia|lia|lia|]. simpl. lia. }
  revert H. generalize (skip (i + 1, 0) (cnt g 0 32) 32). intros st0 H.
  assert (∀ w n m wz st, (0 < w ≤ 16)%nat → (w * n = 32)%nat →
    m = 2 ^ Z.of_nat w - 1 → wz = Z.of_nat w → descent g i (2 * w) st →
    descent g i w (skip st ((fields w n g >>>' st.2) &' m) wz)) as Hstep.
  { intros w n m wz st Hw Hn -> -> Hd. apply skip_descent; [done|].
    destruct Hd as ((k & Hk) & ? & ? & ?). apply fields_get; [done..|lia|].
    exists (2 * k). rewrite Hk. lia. }
  apply (Hstep 16%nat 2%nat 0xffff 16) in H; [|lia..|done|done].
  revert H. generalize (skip st0 ((fields 16 2 g >>>' st0.2) &' 0xffff) 16). intros st1 H.
  apply (Hstep 8%nat 4%nat 0xff 8) in H; [|lia..|done|done].
  revert H. generalize (skip st1 ((fields 8 4 g >>>' st1.2) &' 0xff) 8). intros st2 H.
  apply (Hstep 4%nat 8%nat 0xf 4) in H; [|lia..|done|done].
  revert H. generalize (skip st2 ((fields 4 8 g >>>' st2.2) &' 0xf) 4). intros st3 H.
  apply (Hstep 2%nat 16%nat 0x3 2) in H; [|lia..|done|done].
  revert H. generalize (skip st3 ((fields 2 16 g >>>' st3.2) &' 0x3) 2). intros st4 H.
  apply (skip_descent g i 1 st4 ((y >>>' st4.2) &' 0x1)) in H; last first.
  { destruct H as (_ & ? & ? & _). cbn [cnt]. rewrite Z.add_0_r. unfold js_shr.
    rewrite (Z.mod_small st4.2) by lia. change 0x1 with (2 ^ 1 - 1).
    rewrite js_and_ones; [|lia|apply Z.shiftr_nonneg, to_uint32_range].
    rewrite <- Z.bit0_mod, Z.shiftr_spec, testbit_to_uint32 by lia. f_equal. }
  revert H. change (Z.of_nat 1) with 1.
  generalize (skip st4 ((y >>>' st4.2) &' 0x1) 1). intros [i' pos] (_ & Hp & Hp' & Hi' & Hi0).
  cbn [fst snd cnt] in *. destruct (g pos) eqn:Hg; cbn [Z.b2z] in *; [|lia].
  split_and!; [lia..|rewrite <- Hy by lia; done|].
  rewrite (cnt_ext f g); [lia|]. intros. symmetry. apply Hy. lia.
Qed.

(** ** The bits a vector stands for *)

Definition bit (v : list Z) (i : Z) : bool := Z.testbit (int_of (aget v (i / 32))) (i mod 32).

Definition bits (bv : t) : list bool := bit (_v bv) <$> seqZ 0 (_size bv).

Definition count (b : bool) (l : list bool) : Z := zlen (filter (λ x, x = b) l).

(** The words are exactly those the size needs and no bit is set past the end. *)
Record wf (bv : t) : Prop := {
  wf_size : 0 ≤ _size bv < 2 ^ 31;
  wf_words : zlen (_v bv) = (_size bv + 31) / 32;
  wf_tail i : _size bv ≤ i → bit (_v bv) i = false;
}.

(** What [build] adds: the table of ranks and the number of set bits. *)
Record built (bv : t) : Prop := {
  built_len : zlen (_r bv) = (zlen (_v bv) + 7) / 8;
  built_table k : 0 ≤ k < zlen (_r bv) →
    aget (_r bv) k = Some (cnt (bit (_v bv)) 0 (Z.to_nat (256 * k)));
  built_size1 : _size1 bv = count true (bits bv);
}.

(** *** Counting in a list and counting in a range *)

Lemma count_nil b : count b [] = 0.
Proof. done. Qed.
Lemma count_cons b x l : count b (x :: l) = (if decide (x = b) then 1 else 0) + count b l.
Proof. unfold count. rewrite filter_cons. case_decide; autorewrite with zlen; lia. Qed.
Lemma count_app b l1 l2 : count b (l1 ++ l2) = count b l1 + count b l2.
Proof. unfold count. rewrite filter_app. by rewrite zlen_app. Qed.
Lemma count_nonneg b l : 0 ≤ count b l.
Proof. apply zlen_nonneg. Qed.
Lemma count_le b l : count b l ≤ zlen l.
Proof. unfold count, zlen. pose proof (length_filter (λ x, x = b) l). lia. Qed.
Lemma count_negb b l : count (negb b) l = zlen l - count b l.
Proof.
  induction l as [|x l IH]; [done|]. rewrite !count_cons, zlen_cons, IH.
  destruct x, b; simpl; repeat case_decide; try done; lia.
Qed.

Lemma count_cnt b f lo n :
  count b (f <$> seqZ lo n) = cnt (λ j, Bool.eqb (f j) b) lo (Z.to_nat n).
Proof.
  destruct (decide (0 ≤ n)) as [Hn|]; last first.
  { rewrite seqZ_nil by lia. by replace (Z.to_nat n) with O by lia. }
  rewrite <- (Z2Nat.id n) at 1 by done. clear Hn. revert lo.
  induction (Z.to_nat n) as [|m IH]; intros lo; [done|].
  rewrite seqZ_cons by lia. csimpl. rewrite count_cons.
  replace (Z.pred (Z.of_nat (S m))) with (Z.of_nat m) by lia. rewrite IH. f_equal.
  destruct (f lo), b; by repeat case_decide.
Qed.

Lemma take_bits bv i :
  0 ≤ i ≤ _size bv → take (Z.to_nat i) (bits bv) = bit (_v bv) <$> seqZ 0 i.
Proof.
  intros Hi. unfold bits. rewrite <- fmap_take. f_equal.
  replace (_size bv) with (i + (_size bv - i)) by lia.
  rewrite seqZ_app by lia. apply take_app_length'. rewrite length_seqZ. done.
Qed.

Lemma zlen_bits bv : 0 ≤ _size bv → zlen (bits bv) = _size bv.
Proof. intros. unfold bits. rewrite zlen_fmap, zlen_seqZ; lia. Qed.

Lemma aget_bits bv i : 0 ≤ i < _size bv → aget (bits bv) i = Some (bit (_v bv) i).
Proof. intros. unfold bits. rewrite aget_fmap, aget_seqZ by lia. done. Qed.

Lemma cnt_mono f lo a b : (a ≤ b)%nat → cnt f lo a ≤ cnt f lo b.
Proof.
  intros. replace b with (a + (b - a))%nat by lia. rewrite cnt_app.
  pose proof (cnt_bound f (lo + Z.of_nat a) (b - a)). lia.
Qed.

Definition eqbit (v : list Z) (b : bool) (i : Z) : bool := Bool.eqb (bit v i) b.

Lemma count_take_bits bv b i :
  0 ≤ i ≤ _size bv → count b (take (Z.to_nat i) (bits bv)) = cnt (eqbit (_v bv) b) 0 (Z.to_nat i).
Proof. intros. rewrite take_bits by done. apply count_cnt. Qed.

Lemma count_bits bv b : count b (bits bv) = cnt (eqbit (_v bv) b) 0 (Z.to_nat (_size bv)).
Proof. apply count_cnt. Qed.

(** A rank table entry gives the rank of zeros by complement. *)
Lemma cnt_eqbit v b lo n :
  cnt (eqbit v b) lo n = if negb b then Z.of_nat n - cnt (bit v) lo n else cnt (bit v) lo n.
Proof.
  unfold eqbit. destruct b; simpl.
  - apply cnt_ext. intros i _. by destruct (bit v i).
  - rewrite <- cnt_negb. apply cnt_ext. intros i _. by destruct (bit v i).
Qed.

(** The bits of the word [j] are those of the vector from [32 * j] on. *)
Lemma cnt_word v j n b :
  0 ≤ j → (n ≤ 32)%nat →
  cnt (λ k, Bool.eqb (Z.testbit (int_of (aget v j)) k) b) 0 n = cnt (eqbit v b) (32 * j) n.
Proof.
  intros Hj Hn. apply cnt_shift. intros i Hi.
  unfold eqbit, bit. rewrite Z.add_0_l. f_equal. f_equal.
  - f_equal. f_equal. apply (Z.div_unique _ _ _ i); lia.
  - apply (Z.mod_unique _ _ j); lia.
Qed.

(** Ranks and selection inside the word [j]. *)
Lemma rank32_word v j n b :
  0 ≤ j → 1 ≤ n ≤ 32 →
  _rank32 (int_of (aget v j)) n b = cnt (eqbit v b) (32 * j) (Z.to_nat n).
Proof. intros Hj Hn. rewrite rank32_spec by done. apply cnt_word; lia. Qed.

Lemma select32_word v j i b :
  0 ≤ j → 0 ≤ i < cnt (eqbit v b) (32 * j) 32 →
  let p := j * 32 + _select32 (int_of (aget v j)) i b in
  0 ≤ p ∧ bit v p = b ∧
  cnt (eqbit v b) 0 (Z.to_nat p) = cnt (eqbit v b) 0 (Z.to_nat (32 * j)) + i.
Proof.
  intros Hj Hi. pose proof (select32_spec (int_of (aget v j)) i b) as Hsel. cbv zeta in Hsel.
  rewrite cnt_word in Hsel by lia. specialize (Hsel Hi).
  set (r := _select32 _ i b) in *. destruct Hsel as (Hr & Hbit & Hcnt).
  rewrite cnt_word in Hcnt by lia. intros p. split_and!; [lia| |].
  - unfold bit, p.
    replace ((j * 32 + r) / 32) with j by (apply (Z.div_unique _ _ _ r); lia).
    replace ((j * 32 + r) mod 32) with r by (apply (Z.mod_unique _ _ j); lia).
    by apply eqb_prop.
  - replace (Z.to_nat p) with (Z.to_nat (32 * j) + Z.to_nat r)%nat by lia.
    rewrite cnt_app, Z.add_0_l, Z2Nat.id by lia. lia.
Qed.

Lemma rank_words v b acc a n :
  0 ≤ a → 0 ≤ n →
  foldl (λ rank j, rank + _rank32 (int_of (aget v j)) SMALL_BLOCK_SIZE b) acc (seqZ a n)
  = acc + cnt (eqbit v b) (32 * a) (Z.to_nat (32 * n)).
Proof.
  intros Ha Hn. rewrite <- (Z2Nat.id n) by done. clear Hn. revert a acc Ha.
  induction (Z.to_nat n) as [|m IH]; intros a acc Ha.
  { rewrite seqZ_nil by lia. simpl. lia. }
  rewrite seqZ_cons by lia. cbn [foldl].
  replace (Z.pred (Z.of_nat (S m))) with (Z.of_nat m) by lia. rewrite IH by lia.
  rewrite (rank32_word v a SMALL_BLOCK_SIZE) by (unfold SMALL_BLOCK_SIZE; lia).
  replace (Z.to_nat (32 * Z.of_nat (S m)))
    with (Z.to_nat SMALL_BLOCK_SIZE + Z.to_nat (32 * Z.of_nat m))%nat
    by (unfold SMALL_BLOCK_SIZE; lia).
  rewrite cnt_app. replace (32 * Z.succ a) with (32 * a + Z.of_nat (Z.to_nat SMALL_BLOCK_SIZE))
    by (unfold SMALL_BLOCK_SIZE; lia). lia.
Qed.

(** *** [get] and [rank] *)

Lemma get_spec bv i :
  0 ≤ i < _size bv → _size bv < 2 ^ 31 → get bv i = Ret (bit (_v bv) i).
Proof.
  intros Hi Hs. unfold get, size, SMALL_BLOCK_SIZE. rewrite decide_False by lia.
  rewrite js_div_nonneg, js_rem_nonneg by lia. f_equal.
  rewrite js_and_bit; [done|]. apply Z.mod_pos_bound. lia.
Qed.

Lemma rank_spec bv b i :
  wf bv → built bv → 0 ≤ i ≤ _size bv →
  rank bv i b = Ret (cnt (eqbit (_v bv) b) 0 (Z.to_nat i)).
Proof.
  intros [Hsz Hw _] [Hr Ht _] Hi. unfold rank, size. rewrite decide_False by lia.
  destruct (decide (i = 0)) as [->|Hi0]; [done|].
  unfold LARGE_BLOCK_SIZE, BLOCK_RATE, SMALL_BLOCK_SIZE in *.
  rewrite js_rem_nonneg by lia.
  set (q := (i - 1) / 256). set (s := (i - 1) / 32). set (m := (i - 1) mod 32).
  assert (i - 1 = 32 * s + m ∧ 0 ≤ m < 32 ∧ 8 * q ≤ s ∧ 0 ≤ q ∧ q < zlen (_r bv)) as (Hs & Hm & Hqs & Hq & Hqr).
  { unfold s, m, q. rewrite Hr, Hw. Z.div_mod_to_equations. lia. }
  rewrite Ht by lia. cbn [mbind outcome_bind of_option]. f_equal.
  fold SMALL_BLOCK_SIZE. rewrite rank_words by lia. rewrite rank32_word by lia.
  assert ((if negb b then q * 256 - cnt (bit (_v bv)) 0 (Z.to_nat (256 * q))
           else cnt (bit (_v bv)) 0 (Z.to_nat (256 * q)))
          = cnt (eqbit (_v bv) b) 0 (Z.to_nat (256 * q))) as ->.
  { rewrite cnt_eqbit. destruct b; simpl; lia. }
  replace (Z.to_nat i) with (Z.to_nat (256 * q) + Z.to_nat (32 * (s - q * 8)) + Z.to_nat (m + 1))%nat by lia.
  rewrite !cnt_app. f_equal; [f_equal|]; f_equal; lia.
Qed.

(** *** [build] *)

Lemma bit_app_l v v' i : 0 ≤ i < 32 * zlen v → bit (v ++ v') i = bit v i.
Proof.
  intros Hi. unfold bit. rewrite aget_app_l; [done|]. apply Z.div_lt_upper_bound; lia.
Qed.

Lemma build_loop_spec pre suf r :
  let v := pre ++ suf in
  zlen r = (zlen pre + 7) / 8 →
  (∀ k, 0 ≤ k < zlen r → aget r k = Some (cnt (bit v) 0 (Z.to_nat (256 * k)))) →
  let '(r', size1) := build_loop suf (zlen pre) r (cnt (bit v) 0 (Z.to_nat (32 * zlen pre))) in
  zlen r' = (zlen v + 7) / 8 ∧
  (∀ k, 0 ≤ k < zlen r' → aget r' k = Some (cnt (bit v) 0 (Z.to_nat (256 * k)))) ∧
  size1 = cnt (bit v) 0 (Z.to_nat (32 * zlen v)).
Proof.
  revert pre r. induction suf as [|w suf IH]; intros pre r v Hlen Ht.
  { cbn [build_loop]. unfold v in *. clear v. by rewrite !app_nil_r in Ht |- *. }
  cbn [build_loop]. unfold BLOCK_RATE. pose proof (zlen_nonneg pre).
  rewrite js_rem_nonneg by lia.
  set (r1 := if decide (zlen pre mod 8 = 0) then _ else r).
  assert (v = (pre ++ [w]) ++ suf) as Hv by (unfold v; by rewrite <- app_assoc).
  assert (cnt (bit v) 0 (Z.to_nat (32 * zlen pre)) + _rank32 w SMALL_BLOCK_SIZE true
          = cnt (bit v) 0 (Z.to_nat (32 * zlen (pre ++ [w])))) as ->.
  { rewrite zlen_app. change (zlen [w]) with 1.
    replace (Z.to_nat (32 * (zlen pre + 1))) with (Z.to_nat (32 * zlen pre) + 32)%nat by lia.
    rewrite cnt_app. f_equal.
    assert (int_of (aget v (zlen pre)) = w) as Hword.
    { unfold v. by rewrite aget_app_r, Z.sub_diag by lia. }
    rewrite <- Hword at 1.
    rewrite rank32_word by (unfold SMALL_BLOCK_SIZE; lia). rewrite cnt_eqbit. cbn [negb].
    f_equal. lia. }
  specialize (IH (pre ++ [w]) r1). rewrite <- Hv in IH.
  replace (zlen pre + 1) with (zlen (pre ++ [w])) by (rewrite zlen_app; done).
  apply IH.
  - unfold r1. rewrite zlen_app. change (zlen [w]) with 1.
    case_decide; autorewrite with zlen; Z.div_mod_to_equations; lia.
  - unfold r1. case_decide as Hm; [|done]. intros k Hk.
    destruct (decide (k < zlen r)); [rewrite aget_app_l by lia; apply Ht; lia|].
    rewrite zlen_app in Hk. change (zlen [_]) with 1 in Hk.
    replace k with (zlen r) in * by lia. rewrite aget_app_r, Z.sub_diag by lia.
    change (aget [?x] 0) with (Some x). do 3 f_equal.
    Z.div_mod_to_equations. lia.
Qed.

Lemma cnt_past_size bv b :
  wf bv → cnt (eqbit (_v bv) b) 0 (Z.to_nat (32 * zlen (_v bv)))
  = count b (bits bv) + (if b then 0 else 32 * zlen (_v bv) - _size bv).
Proof.
  intros [Hs Hw Ht]. rewrite count_bits.
  replace (Z.to_nat (32 * zlen (_v bv)))
    with (Z.to_nat (_size bv) + Z.to_nat (32 * zlen (_v bv) - _size bv))%nat
    by (rewrite Hw; Z.div_mod_to_equations; lia).
  rewrite cnt_app. f_equal. rewrite cnt_eqbit, (cnt_false (bit (_v bv))).
  - destruct b; simpl; [done|]. rewrite Hw; Z.div_mod_to_equations; lia.
  - intros i Hi. apply Ht. lia.
Qed.

Lemma build_spec bv : wf bv → _r bv = [] → wf (build bv) ∧ built (build bv) ∧ bits (build bv) = bits bv.
Proof.
  intros Hwf Hr. pose proof Hwf as [Hs Hw Ht].
  pose proof (build_loop_spec [] (_v bv) []) as H. simpl in H.
  change (zlen []) with 0 in H. unfold build. rewrite Hr.
  destruct (build_loop (_v bv) 0 [] 0) as [r size1].
  destruct H as (H1 & H2 & H3); [done|intros; lia|].
  split; [by split|]. split; [|done]. split; [done..|]. cbn [_size1 _v]. rewrite H3.
  pose proof (cnt_past_size bv true Hwf) as Hc. rewrite cnt_eqbit in Hc. cbn [negb] in Hc.
  rewrite Hc, Z.add_0_r. done.
Qed.

(** *** [set] *)

Lemma testbit_set w r (flag : bool) i :
  0 ≤ r < 32 → 0 ≤ i < 32 →
  Z.testbit (if flag then w |' (0x1 <<' r) else w &' (~' (0x1 <<' r))) i
  = if decide (i = r) then flag else Z.testbit w i.
Proof.
  intros Hr Hi.
  assert (Z.testbit (0x1 <<' r) i = bool_decide (i = r)) as Hm.
  { rewrite testbit_js_shl by lia. case_decide; [by rewrite bool_decide_eq_false_2 by lia|].
    destruct (decide (i = r)) as [->|].
    - by rewrite Z.sub_diag, bool_decide_eq_true_2.
    - rewrite bool_decide_eq_false_2 by done.
      rewrite Z.bits_above_log2; [done|lia|simpl; lia]. }
  destruct flag.
  - rewrite testbit_js_or, Hm by lia. case_decide; simplify_eq.
    + by rewrite bool_decide_eq_true_2, orb_true_r.
    + by rewrite bool_decide_eq_false_2, orb_false_r.
  - rewrite testbit_js_and, testbit_js_not, Hm by lia. case_decide; simplify_eq.
    + by rewrite bool_decide_eq_true_2, andb_false_r.
    + by rewrite bool_decide_eq_false_2, andb_true_r.
Qed.

Lemma set_bit bv value flag i :
  0 ≤ value < 2 ^ 31 - 1 → 0 ≤ i →
  bit (_v (set bv value flag)) i = if decide (i = value) then flag else bit (_v bv) i.
Proof.
  intros Hv Hi. unfold set, SMALL_BLOCK_SIZE. cbn [_v].
  rewrite js_div_nonneg, js_rem_nonneg by lia.
  set (v1 := _v bv ++ _). pose proof (zlen_nonneg (_v bv)).
  assert (0 ≤ value / 32) by (apply Z.div_pos; lia).
  assert (zlen v1 = Z.max (zlen (_v bv)) (value / 32 + 1)) as Hlen.
  { unfold v1. autorewrite with zlen. lia. }
  assert (∀ i, 0 ≤ i → bit v1 i = bit (_v bv) i) as Hv1.
  { intros j Hj. unfold bit, v1. assert (0 ≤ j / 32) by (apply Z.div_pos; lia).
    destruct (decide (j / 32 < zlen (_v bv))); [by rewrite aget_app_l|].
    rewrite aget_app_r, (aget_None (_v bv)) by lia. unfold aget.
    case_decide; [done|]. destruct (replicate _ 0 !! _) eqn:E; [|done].
    apply lookup_replicate in E as [-> _]. done. }
  destruct (aget_is_Some v1 (value / 32)) as [w Hw]; [lia|]. rewrite Hw.
  rewrite <- Hv1 by done. unfold bit. rewrite aget_insert by lia. case_decide as Hq.
  - rewrite int_of_Some, testbit_set by (apply Z.mod_pos_bound; lia).
    destruct (decide (i = value)) as [->|Hne]; [by rewrite decide_True|].
    rewrite decide_False by (Z.div_mod_to_equations; lia). by rewrite Hq, Hw.
  - by rewrite decide_False by congruence.
Qed.

Lemma set_wf bv value flag :
  wf bv → 0 ≤ value < 2 ^ 31 - 1 → wf (set bv value flag).
Proof.
  intros [Hs Hw Ht] Hv. split.
  - unfold set, size. cbn [_size]. case_decide; lia.
  - unfold set, size, SMALL_BLOCK_SIZE. cbn [_v _size]. rewrite js_div_nonneg by lia.
    set (v1 := _v bv ++ _).
    assert (zlen v1 = ((if decide (value >= _size bv) then value + 1 else _size bv) + 31) / 32) as Hl.
    { unfold v1. autorewrite with zlen. rewrite Hw. case_decide; Z.div_mod_to_equations; lia. }
    destruct (aget v1 _); by rewrite ?zlen_insert.
  - intros i. unfold set at 1, size. cbn [_size]. intros Hi.
    rewrite set_bit by (case_decide; lia).
    rewrite decide_False by (case_decide; lia). apply Ht. case_decide; lia.
Qed.

(** [set] writes one bit and extends the vector with zeros up to it. *)
Lemma set_bits bv value flag :
  wf bv → 0 ≤ value < 2 ^ 31 - 1 →
  bits (set bv value flag) =
    <[Z.to_nat value := flag]> (bits bv ++ replicate (Z.to_nat (value + 1 - _size bv)) false).
Proof.
  intros Hwf Hv. pose proof Hwf as [Hs Hw Ht].
  assert (_size (set bv value flag) = Z.max (value + 1) (_size bv)) as Hsz.
  { unfold set, size. cbn [_size]. case_decide; lia. }
  apply aget_ext.
  { rewrite zlen_bits, zlen_insert, zlen_app, zlen_bits, zlen_replicate, Hsz by lia. lia. }
  intros i. rewrite zlen_bits by lia. intros Hi.
  rewrite aget_bits, set_bit by lia.
  rewrite aget_insert by (rewrite zlen_app, zlen_bits, zlen_replicate by lia; lia).
  case_decide; [done|]. destruct (decide (i < _size bv)).
  - rewrite aget_app_l, aget_bits by (rewrite ?zlen_bits; lia). done.
  - rewrite aget_app_r, aget_replicate by (rewrite zlen_bits; lia).
    f_equal. apply Ht. lia.
Qed.

Lemma new_wf : wf new.
Proof.
  split; [done|done|]. intros i Hi. unfold bit. cbn [new _v _size] in *.
  rewrite (aget_None []); [by rewrite Z.bits_0|].
  right. change (zlen []) with 0. apply Z.div_pos; lia.
Qed.

(** *** [select] *)

Lemma table_entry bv b k rank :
  built bv → aget (_r bv) k = Some rank →
  (if negb b then k * LARGE_BLOCK_SIZE - rank else rank)
  = cnt (eqbit (_v bv) b) 0 (Z.to_nat (256 * k)).
Proof.
  intros Hb Hk. pose proof (aget_Some_range _ _ _ Hk).
  rewrite (built_table _ Hb k) in Hk by lia. injection Hk as <-.
  rewrite cnt_eqbit. unfold LARGE_BLOCK_SIZE. destruct b; simpl; lia.
Qed.

(** The binary search stops at the first block that starts past the bit. *)
Lemma select_search_spec fuel bv i b left right :
  built bv → 0 ≤ left ≤ right → right ≤ zlen (_r bv) → right - left < Z.of_nat fuel →
  (left = 0 ∨ cnt (eqbit (_v bv) b) 0 (Z.to_nat (256 * (left - 1))) ≤ i) →
  ∃ k, select_search fuel bv i b left right = Ret k ∧ left ≤ k ≤ right ∧
       (k = 0 ∨ cnt (eqbit (_v bv) b) 0 (Z.to_nat (256 * (k - 1))) ≤ i) ∧
       (k = right ∨ i < cnt (eqbit (_v bv) b) 0 (Z.to_nat (256 * k))).
Proof.
  intros Hb. revert left right. induction fuel as [|fuel IH]; intros left right Hl Hr Hf Hinv; [lia|].
  cbn [select_search]. case_decide as Hlt; last first.
  { exists right. replace right with left by lia. split_and!; [done|lia..|done|by left]. }
  set (p := (left + right) / 2).
  assert (left ≤ p < right) as Hp by (unfold p; Z.div_mod_to_equations; lia).
  destruct (aget_is_Some (_r bv) p) as [rank Hrank]; [lia|]. rewrite Hrank.
  cbn [mbind outcome_bind of_option]. rewrite (table_entry _ b _ _ Hb Hrank).
  case_decide as Hi.
  - destruct (IH left p) as (k & -> & Hk & Hk1 & Hk2); [lia..|done|].
    exists k. split_and!; [done|lia|lia|done|].
    destruct Hk2 as [->|?]; auto.
  - destruct (IH (p + 1) right) as (k & -> & Hk & Hk1 & Hk2); [lia..| |].
    { right. rewrite Z.add_simpl_r. lia. }
    exists k. split_and!; [done|lia|lia|done..].
Qed.

Lemma select_scan_spec fuel bv i i' j b :
  0 ≤ j → zlen (_v bv) - j < Z.of_nat fuel → 0 ≤ i' →
  i = cnt (eqbit (_v bv) b) 0 (Z.to_nat (32 * j)) + i' →
  i < cnt (eqbit (_v bv) b) 0 (Z.to_nat (32 * zlen (_v bv))) →
  ∃ i2 j2, select_scan fuel bv i' j b = Ret (i2, j2) ∧ 0 ≤ j2 < zlen (_v bv) ∧
    0 ≤ i2 < cnt (eqbit (_v bv) b) (32 * j2) 32 ∧
    i = cnt (eqbit (_v bv) b) 0 (Z.to_nat (32 * j2)) + i2.
Proof.
  revert i' j. induction fuel as [|fuel IH]; intros i' j Hj Hf Hi' Hi Htot.
  { pose proof (cnt_mono (eqbit (_v bv) b) 0 (Z.to_nat (32 * zlen (_v bv))) (Z.to_nat (32 * j))). lia. }
  assert (j < zlen (_v bv)) as Hjlt.
  { destruct (decide (j < zlen (_v bv))); [done|].
    pose proof (cnt_mono (eqbit (_v bv) b) 0 (Z.to_nat (32 * zlen (_v bv))) (Z.to_nat (32 * j))). lia. }
  cbn [select_scan]. rewrite rank32_word by (unfold SMALL_BLOCK_SIZE; lia).
  change (Z.to_nat SMALL_BLOCK_SIZE) with 32%nat. case_decide as Hlt.
  - exists i', j. split_and!; try done; lia.
  - apply IH; [lia..| |done].
    replace (Z.to_nat (32 * (j + 1))) with (Z.to_nat (32 * j) + 32)%nat by lia.
    rewrite cnt_app, Z.add_0_l, Z2Nat.id by lia. lia.
Qed.

Lemma select_spec bv b i :
  wf bv → built bv → 0 ≤ i < count b (bits bv) →
  ∃ p, select bv i b = Ret p ∧ 0 ≤ p < _size bv ∧ bit (_v bv) p = b ∧
       cnt (eqbit (_v bv) b) 0 (Z.to_nat p) = i.
Proof.
  intros Hwf Hb Hi. pose proof Hwf as [Hs Hw Ht].
  pose proof (count_le b (bits bv)). rewrite zlen_bits in * by lia.
  assert (size_of bv b = count b (bits bv)) as Hsz.
  { unfold size_of. rewrite (built_size1 _ Hb). destruct b; [done|].
    rewrite (count_negb true). by rewrite zlen_bits by lia. }
  unfold select. rewrite decide_False by lia.
  destruct (select_search_spec (S (length (_r bv))) bv i b 0 (zlen (_r bv)))
    as (k & -> & Hk & Hk1 & Hk2); [done|unfold zlen; lia..|by left|].
  cbn [mbind outcome_bind].
  assert (0 < k) as Hk0.
  { destruct Hk2 as [->|Hk2]; [rewrite (built_len _ Hb), Hw; Z.div_mod_to_equations; lia|].
    destruct (decide (k = 0)) as [->|]; [simpl in Hk2; lia|lia]. }
  destruct Hk1 as [->|Hk1]; [lia|].
  destruct (aget_is_Some (_r bv) (k - 1)) as [rank Hrank]; [lia|]. rewrite Hrank.
  cbn [mbind outcome_bind of_option].
  pose proof (table_entry _ b _ _ Hb Hrank) as Hentry.
  assert ((if b then i - rank else i - ((k - 1) * LARGE_BLOCK_SIZE - rank))
    = i - cnt (eqbit (_v bv) b) 0 (Z.to_nat (256 * (k - 1)))) as ->.
  { rewrite <- Hentry. by destruct b. }
  destruct (select_scan_spec (S (length (_v bv))) bv i
    (i - cnt (eqbit (_v bv) b) 0 (Z.to_nat (256 * (k - 1)))) ((k - 1) * BLOCK_RATE) b)
    as (i2 & j2 & -> & Hj2 & Hi2 & Hi0); [unfold BLOCK_RATE, zlen; lia..| | |].
  { unfold BLOCK_RATE. replace (32 * ((k - 1) * 8)) with (256 * (k - 1)) by lia. lia. }
  { rewrite (cnt_past_size _ _ Hwf). rewrite Hw. destruct b; Z.div_mod_to_equations; lia. }
  cbn [mbind outcome_bind].
  destruct (select32_word (_v bv) j2 i2 b) as (Hp & Hbit & Hc); [lia..|].
  exists (j2 * 32 + _select32 (int_of (aget (_v bv) j2)) i2 b). rewrite <- Hi0 in Hc.
  split_and!; [done|lia| |done|done].
  set (p := j2 * 32 + _) in *. destruct (decide (p < _size bv)) as [|Hge]; [done|].
  pose proof (cnt_mono (eqbit (_v bv) b) 0 (Z.to_nat (_size bv)) (Z.to_nat p)).
  rewrite <- count_bits in *. lia.
Qed.

(** ** Serialization *)

Definition norm (bv : t) : t := build (mk (Bin.norm32 <$> _v bv) [] (_size bv) 0).

Lemma bit_norm v i : 0 ≤ i → bit (Bin.norm32 <$> v) i = bit v i.
Proof.
  intros Hi. unfold bit. rewrite aget_fmap. destruct (aget v (i / 32)); [|done].
  simpl. unfold Bin.norm32. apply Z.mod_pow2_bits_low.
  pose proof (Z.mod_pos_bound i 32). lia.
Qed.

Lemma norm_spec bv : wf bv → wf (norm bv) ∧ built (norm bv) ∧ bits (norm bv) = bits bv.
Proof.
  intros [Hs Hw Ht]. destruct (build_spec (mk (Bin.norm32 <$> _v bv) [] (_size bv) 0))
    as (H1 & H2 & H3); [split; cbn [_v _size]|done|].
  - done.
  - by rewrite zlen_fmap.
  - intros i Hi. rewrite bit_norm by lia. by apply Ht.
  - split_and!; [done..|]. unfold norm. rewrite H3. unfold bits. cbn [_v _size].
    apply list_fmap_ext. intros k x Hx. apply bit_norm.
    apply lookup_seqZ in Hx. lia.
Qed.

Definition dump_string (bv : t) : outcome jsstr := '(s, _) ← dump bv None; Ret s.

Instance codec_bitvector : Bin.Codec wf norm dump_string (load new).
Proof.
  assert (∀ bv, wf bv → zlen (_v bv) < 2 ^ 32) as Hlen.
  { intros bv [Hs Hw _]. rewrite Hw. Z.div_mod_to_equations. lia. }
  split.
  - intros bv Hwf. unfold dump_string, dump.
    destruct (Bin.codec_total (Codec := Bin.codec_number_list) (_v bv) (Hlen _ Hwf)) as [s Hs].
    unfold Bin.dumpNumbers in Hs. cbn [Bin.report_opt].
    destruct (Bin.dump32bitNumberList (_v bv) None) as [[]| | |]; simpl in *; simplify_eq; eauto.
  - intros bv s data off Hwf Hs Hat. unfold dump_string, dump in Hs. cbn [Bin.report_opt] in Hs.
    assert (∃ s', Bin.dumpNumbers (_v bv) = Ret s' ∧ s = Bin.dump32bitNumber (_size bv) ++ s')
      as (s' & Hs' & ->).
    { unfold Bin.dumpNumbers. destruct (Bin.dump32bitNumberList (_v bv) None) as [[s' r]| | |]; try done.
      exists s'. split; [done|]. cbn [mbind outcome_bind] in Hs. congruence. }
    apply has_at_app in Hat as [H32 Hat]. rewrite Bin.zlen_dump32 in Hat.
    unfold load. rewrite (Bin.load32_dump32 (_size bv)) by done. cbn [mbind outcome_bind].
    rewrite (Bin.codec_load (Codec := Bin.codec_number_list) (_v bv) s') by auto.
    cbn [mbind outcome_bind clear _r _size1]. destruct Hwf as [Hsz _ _].
    rewrite Z.mod_small, to_int32_small by lia. f_equal. f_equal.
    rewrite zlen_app, Bin.zlen_dump32. lia.
Qed.

(** The string does not depend on the compression report. *)
Lemma dump_report bv s r : dump_string bv = Ret s → ∃ r', dump bv r = Ret (s, r').
Proof.
  unfold dump_string, dump, Bin.dump32bitNumberList.
  destruct (Bin.dump_numbers _ _ _); simpl; [intros [= <-]|done..]. eauto.
Qed.

(** ** The properties of the bit vector *)

(** The word-parallel population count [_rank32] equals counting the bits
    equal to [b] one by one, on every 32-bit word and for every prefix length. *)
Theorem rank32_counts (x i : Z) (b : bool) :
  1 ≤ i ≤ 32 → _rank32 x i b = count b (Z.testbit x <$> seqZ 0 i).
Proof. intros Hi. rewrite rank32_spec by done. symmetry. apply count_cnt. Qed.

Lemma rank32_counts_witness : _rank32 0xb1 6 false = count false (Z.testbit 0xb1 <$> seqZ 0 6).
Proof. apply (rank32_counts 0xb1 6 false). lia. Defined.

(** The branching descent [_select32] returns the position of the [i]-th bit
    equal to [b]: that bit is [b] and exactly [i] such bits come before it. *)
Theorem select32_finds (x i : Z) (b : bool) :
  0 ≤ i < count b (Z.testbit x <$> seqZ 0 32) →
  let p := _select32 x i b in
  0 ≤ p < 32 ∧ Z.testbit x p = b ∧ count b (Z.testbit x <$> seqZ 0 p) = i.
Proof.
  rewrite count_cnt. intros Hi p. destruct (select32_spec x i b Hi) as (Hp & Hb & Hc).
  split_and!; [apply Hp..|by apply eqb_prop|]. by rewrite count_cnt.
Qed.

Lemma select32_finds_witness :
  let p := _select32 0x80000010 1 true in
  0 ≤ p < 32 ∧ Z.testbit 0x80000010 p = true ∧ count true (Z.testbit 0x80000010 <$> seqZ 0 p) = 1.
Proof. apply (select32_finds 0x80000010 1 true). vm_compute. split; congruence. Defined.

(** The specification of [set] on a list of bits, and a history of calls. *)
Definition spec_set (l : list bool) (op : Z * bool) : list bool :=
  <[Z.to_nat op.1 := op.2]> (l ++ replicate (Z.to_nat (op.1 + 1 - zlen l)) false).

Definition run (ops : list (Z * bool)) : t := build (foldl (λ bv op, set bv op.1 op.2) new ops).

Lemma set_history ops bv l :
  Forall (λ op, 0 ≤ op.1 < 2 ^ 31 - 1) ops → wf bv → _r bv = [] → bits bv = l →
  let bv' := foldl (λ bv op, set bv op.1 op.2) bv ops in
  wf bv' ∧ _r bv' = [] ∧ bits bv' = foldl spec_set l ops.
Proof.
  intros Hops. revert bv l. induction Hops as [|[i b] ops Hi _ IH]; intros bv l Hwf Hr Hl; [done|].
  simpl in *. apply IH; [by apply set_wf|done|].
  rewrite set_bits by done. subst l. unfold spec_set. simpl.
  rewrite zlen_bits; [done|apply Hwf].
Qed.

(** C15: Refinement of a list of bits.  After any sequence of [set] calls and
    [build], the vector answers [size], [get], [rank] and [select] as the list of
    bits those calls describe does, and [get], [rank] and [select] throw exactly
    past their ranges. *)
Theorem bitvector_refines (ops : list (Z * bool)) :
  Forall (λ op, 0 ≤ op.1 < 2 ^ 31 - 1) ops →
  let bv := run ops in
  let l := foldl spec_set [] ops in
  size bv = zlen l ∧
  (∀ i b, aget l i = Some b → get bv i = Ret b) ∧
  (∀ i, zlen l ≤ i → get bv i = Throw "BitVector.get() : range error") ∧
  (∀ i b, 0 ≤ i ≤ zlen l → rank bv i b = Ret (count b (take (Z.to_nat i) l))) ∧
  (∀ i b, zlen l < i → rank bv i b = Throw "BitVector.rank() : range error") ∧
  (∀ i b, 0 ≤ i < count b l →
     ∃ p, select bv i b = Ret p ∧ aget l p = Some b ∧ count b (take (Z.to_nat p) l) = i) ∧
  (∀ i b, count b l ≤ i → select bv i b = Throw "BitVector.select() : range error").
Proof.
  intros Hops bv l.
  destruct (set_history ops new [] Hops new_wf eq_refl eq_refl) as (Hwf0 & Hr0 & Hbits0).
  destruct (build_spec _ Hwf0 Hr0) as (Hwf & Hb & Hbits).
  rewrite Hbits0 in Hbits. change (wf bv) in Hwf. change (built bv) in Hb. change (bits bv = l) in Hbits.
  pose proof (wf_size _ Hwf).
  assert (zlen l = _size bv) as Hlen by (rewrite <- Hbits; apply zlen_bits; lia).
  split_and!.
  - by rewrite Hlen.
  - intros i b Hi. pose proof (aget_Some_range _ _ _ Hi).
    rewrite get_spec by lia. rewrite <- Hbits, aget_bits in Hi by lia. congruence.
  - intros i Hi. unfold get, size. by rewrite decide_True by lia.
  - intros i b Hi. rewrite rank_spec by (done || lia). rewrite <- Hbits.
    by rewrite count_take_bits by lia.
  - intros i b Hi. unfold rank, size. by rewrite decide_True by lia.
  - intros i b Hi. rewrite <- Hbits in *.
    destruct (select_spec bv b i Hwf Hb Hi) as (p & Hsel & Hp & Hbit & Hc).
    exists p. split; [done|]. rewrite aget_bits, count_take_bits by lia. by subst b.
  - intros i b Hi. unfold select, size_of.
    rewrite decide_True; [done|]. rewrite (built_size1 _ Hb), Hbits. destruct b; [lia|].
    rewrite (count_negb true) in Hi. lia.
Qed.

Lemma bitvector_refines_witness :
  let bv := run [(300, true); (3, true); (7, true); (7, false)] in
  size bv = 301 ∧ get bv 3 = Ret true ∧ get bv 7 = Ret false ∧
  rank bv 301 true = Ret 2 ∧ ∃ p, select bv 1 true = Ret p ∧ 0 ≤ p.
Proof.
  assert (Forall (λ op : Z * bool, 0 ≤ op.1 < 2 ^ 31 - 1) [(300, true); (3, true); (7, true); (7, false)]) as H
    by (repeat constructor; simpl; lia).
  pose proof (bitvector_refines _ H) as (H1 & H2 & _ & H3 & _ & H4 & _). intros bv.
  split_and!; [exact H1|apply H2; reflexivity|apply H2; reflexivity|apply H3; vm_compute; split; congruence|].
  destruct (H4 1 true) as (p & Hp & Hl & _); [vm_compute; split; congruence|].
  exists p. split; [exact Hp|]. apply (aget_Some_range _ _ _ Hl).
Defined.

(** A bit vector is read back from its dump at any position of a file, with
    the same bits and its rank table rebuilt. *)
Theorem bitvector_roundtrip (bv : t) (r : option Bin.CompressionReport) (pre post : jsstr) :
  wf bv →
  ∃ s r' bv', dump bv r = Ret (s, r') ∧
    load new (pre ++ s ++ post) (zlen pre) = Ret (bv', zlen pre + zlen s) ∧
    bits bv' = bits bv ∧ wf bv' ∧ built bv'.
Proof.
  intros Hwf. destruct (Bin.codec_total (Codec := codec_bitvector) bv Hwf) as [s Hs].
  destruct (norm_spec bv Hwf) as (Hn1 & Hn2 & Hn3).
  destruct (dump_report bv s r Hs) as [r' Hr'].
  exists s, r', (norm bv). split_and!; [done| |done..].
  by apply (Bin.codec_load (Codec := codec_bitvector) bv s); [| |apply Bin.has_at_mid].
Qed.

Lemma bitvector_roundtrip_witness :
  ∃ s r' bv', dump (run [(40, true); (2, true)]) None = Ret (s, r') ∧
    load new ([7] ++ s ++ []) 1 = Ret (bv', 1 + zlen s) ∧
    bits bv' = bits (run [(40, true); (2, true)]) ∧ wf bv' ∧ built bv'.
Proof.
  apply (bitvector_roundtrip (run [(40, true); (2, true)]) None [7] []).
  apply build_spec; [|reflexivity].
  apply set_wf; [|simpl; lia]. apply set_wf; [apply new_wf|simpl; lia].
Defined.

End BV.
