(* ===== verification/WaveletMatrix.v ===== *)
(** * The wavelet matrix

    Models [src/misc/oktavia/src/wavelet-matrix.jsx]: a string of codes of
    [_bitsize] bits stored as one bit vector per bit, most significant first,
    each level holding the string stably partitioned by the bits before it.
    [repr wm v] says that [wm] holds the string [v]; [build] and [load] establish
    it, and under it [get], [rank] and [rank_less_than] answer as the plain
    definitions on [v] do. *)

From S2P Require Import Prelude JsObject Binary BitVector.

Local Open Scope js_scope.
Local Open Scope Z_scope.

Module WM.

Record t := mk {
  _bv : list BV.t;
  _seps : list Z;
  _range : list (Z * Z);
  _bitsize : Z;
  _size : Z;
}.

Definition clear (wm : t) : t := mk [] [] (_range wm) (_bitsize wm) 0.

Definition new : t := clear (mk [] [] [] 16 0).

Definition bitsize (wm : t) : Z := _bitsize wm.

(** [Math.ceil(Math.log(charCode) / Math.LN2)].  The quotient of the two doubles
    is exact at the powers of two up to [2 ^ 16], the largest argument the callers
    pass, so rounding it up is the integer logarithm rounded up; for an argument
    below 1 the logarithm is not finite and the conversion to [int] gives 0. *)
Definition setMaxCharCode (wm : t) (charCode : Z) : t :=
  mk (_bv wm) (_seps wm) (_range wm) (Z.log2_up charCode) (_size wm).

Definition _uint2bit (wm : t) (c i : Z) : bool :=
  bool_decide ((c >>>' (_bitsize wm - 1 - i)) &' 0x1 = 0x1).

(** The loop of [build] over the string at the first level. *)
Fixpoint fill_first (wm : t) (i : Z) (v : jsstr) (bv : BV.t) : BV.t :=
  match v with
  | [] => bv
  | c :: v => fill_first wm (i + 1) v (BV.set bv i (_uint2bit wm c 0))
  end.

(** The loop over the string at a later level, with its counters [range_tmp]. *)
Fixpoint fill_level (wm : t) (depth : Z) (v : jsstr) (range_tmp : list (Z * Z)) (bv : BV.t)
    : outcome (list (Z * Z) * BV.t) :=
  match v with
  | [] => Ret (range_tmp, bv)
  | code :: v =>
    let bit := _uint2bit wm code depth in
    let key := code >>>' (bitsize wm - depth) in
    pos ← of_option (IMap.get range_tmp key);
    fill_level wm depth v (IMap.put range_tmp key (pos + 1)) (BV.set bv pos bit)
  end.

(** The loop that inverts the non-empty ranges. *)
Definition reverse_range (range range_tmp : list (Z * Z)) : list (Z * Z) :=
  foldl (λ range_rev '(range_key, value),
           if decide (Some value ≠ IMap.get range_tmp range_key)
           then IMap.put range_rev value range_key else range_rev) [] range.

(** The loop that splits each range in two; the state is the new range and the
    next free position of each half. *)
Definition split_range (bv : BV.t) (range_tmp : list (Z * Z)) (st : list (Z * Z) * Z * Z)
    (e : Z * Z) : outcome (list (Z * Z) * Z * Z) :=
  let '(range, pos0, pos1) := st in
  let '(begin, value) := e in
  end_ ← of_option (IMap.get range_tmp value);
  rank_end ← BV.rank bv end_ false;
  rank_begin ← BV.rank bv begin false;
  let num0 := rank_end - rank_begin in
  let num1 := end_ - begin - num0 in
  let '(range, pos0) :=
    if decide (num0 > 0) then (IMap.put range (value <<' 1) pos0, pos0 + num0) else (range, pos0) in
  let '(range, pos1) :=
    if decide (num1 > 0) then (IMap.put range ((value <<' 1) + 1) pos1, pos1 + num1) else (range, pos1) in
  Ret (range, pos0, pos1).

(** One iteration of the loop over the depth. *)
Definition build_level (v : jsstr) (wm : t) (depth : Z) : outcome t :=
  bv ← of_option (aget (_bv wm) depth);
  '(range_tmp, bv) ← fill_level wm depth v (_range wm) bv;
  let bv := BV.build bv in
  bvs ← aset (_bv wm) depth bv;
  seps ← aset (_seps wm) depth (BV.size_of bv false);
  let range_rev := reverse_range (_range wm) range_tmp in
  '(range, _, _) ← ofold (split_range bv range_tmp) ([], 0, BV.size_of bv false) range_rev;
  Ret (mk bvs seps range (_bitsize wm) (_size wm)).

Definition build (wm : t) (v : jsstr) : outcome t :=
  let wm := clear wm in
  let size := zlen v in
  let bitsize := bitsize wm in
  let bvs := replicate (Z.to_nat bitsize) BV.new in
  let seps := replicate (Z.to_nat bitsize) 0 in
  let wm := mk bvs seps (_range wm) (_bitsize wm) size in
  bv0 ← of_option (aget (_bv wm) 0);
  let bv0 := BV.build (fill_first wm 0 v bv0) in
  bvs ← aset (_bv wm) 0 bv0;
  seps ← aset (_seps wm) 0 (BV.size_of bv0 false);
  let range := IMap.put (IMap.put (_range wm) 0 0) 1 (BV.size_of bv0 false) in
  let wm := mk bvs seps range (_bitsize wm) size in
  ofold (build_level v) wm (seqZ 1 (bitsize - 1)).

Definition size (wm : t) : Z := _size wm.

Definition get_step (wm : t) (st : Z * Z) (depth : Z) : outcome (Z * Z) :=
  let '(i, value) := st in
  bv ← of_option (aget (_bv wm) depth);
  bit ← BV.get bv i;
  i ← BV.rank bv i bit;
  let value := value <<' 1 in
  if (bit : bool) then sep ← of_option (aget (_seps wm) depth); Ret (i + sep, value + 1)
  else Ret (i, value).

Definition get (wm : t) (i : Z) : outcome Z :=
  if decide (i >= size wm) then Throw "WaveletMatrix.get() : range error"
  else
    '(_, value) ← ofold (get_step wm) (i, 0) (seqZ 0 (bitsize wm));
    Ret value.

Definition rank_step (wm : t) (c : Z) (end_ : Z) (depth : Z) : outcome Z :=
  let bit := _uint2bit wm c depth in
  bv ← of_option (aget (_bv wm) depth);
  end_ ← BV.rank bv end_ bit;
  if bit then sep ← of_option (aget (_seps wm) depth); Ret (end_ + sep) else Ret end_.

Definition rank (wm : t) (i c : Z) : outcome Z :=
  if decide (i > size wm) then Throw "WaveletMatrix.rank(): range error"
  else if decide (i = 0) then Ret 0
  else
    match IMap.get (_range wm) c with
    | None => Ret 0
    | Some begin =>
      end_ ← ofold (rank_step wm c) i (seqZ 0 (bitsize wm));
      Ret (end_ - begin)
    end.

(** [size(c)], the overload that counts a code. *)
Definition size_char (wm : t) (c : Z) : outcome Z := rank wm (size wm) c.

Definition rlt_step (wm : t) (c : Z) (st : Z * Z * Z) (depth : Z) : outcome (Z * Z * Z) :=
  let '(begin, end_, rlt) := st in
  bv ← of_option (aget (_bv wm) depth);
  rank0_begin ← BV.rank bv begin false;
  rank0_end ← BV.rank bv end_ false;
  if _uint2bit wm c depth then
    sep ← of_option (aget (_seps wm) depth);
    Ret (begin + (sep - rank0_begin), end_ + (sep - rank0_end), rlt + (rank0_end - rank0_begin))
  else Ret (rank0_begin, rank0_end, rlt).

Definition rank_less_than (wm : t) (i c : Z) : outcome Z :=
  if decide (i > size wm) then Throw "WaveletMatrix.rank_less_than(): range error"
  else if decide (i = 0) then Ret 0
  else
    '(_, _, rlt) ← ofold (rlt_step wm c) (0, i, 0) (seqZ 0 (bitsize wm));
    Ret rlt.

Definition dump_vector (wm : t) (st : jsstr * option Bin.CompressionReport) (i : Z)
    : outcome (jsstr * option Bin.CompressionReport) :=
  let '(contents, report) := st in
  bv ← of_option (aget (_bv wm) i);
  '(s, report) ← BV.dump bv report;
  Ret (contents ++ s, report).

Definition dump_sep (wm : t) (st : jsstr * option Bin.CompressionReport) (i : Z)
    : outcome (jsstr * option Bin.CompressionReport) :=
  let '(contents, report) := st in
  sep ← of_option (aget (_seps wm) i);
  Ret (contents ++ Bin.dump32bitNumber sep, Bin.report_opt report 2 2).

Definition dump_range (range : list (Z * Z)) (report : option Bin.CompressionReport)
    : jsstr * Z * option Bin.CompressionReport :=
  foldl (λ '(range_contents, counter, report) '(key, value),
           (range_contents ++ Bin.dump32bitNumber key ++ Bin.dump32bitNumber value,
            counter + 1, Bin.report_opt report 4 4))
        ([], 0, report) range.

Definition dump (wm : t) (report : option Bin.CompressionReport)
    : outcome (jsstr * option Bin.CompressionReport) :=
  let contents := Bin.dump16bitNumber (_bitsize wm) ++ Bin.dump32bitNumber (_size wm) in
  let report := Bin.report_opt report 3 3 in
  '(contents, report) ← ofold (dump_vector wm) (contents, report) (seqZ 0 (bitsize wm));
  '(contents, report) ← ofold (dump_sep wm) (contents, report) (seqZ 0 (bitsize wm));
  let '(range_contents, counter, report) := dump_range (_range wm) report in
  let report := Bin.report_opt report 2 2 in
  Ret (contents ++ Bin.dump32bitNumber counter ++ range_contents, report).

Definition load_vector (data : jsstr) (st : list BV.t * Z) (i : Z) : outcome (list BV.t * Z) :=
  let '(bvs, offset) := st in
  '(bit_vector, offset) ← BV.load BV.new data offset;
  Ret (bvs ++ [bit_vector], offset).

Definition load_sep (data : jsstr) (st : list Z * Z) (i : Z) : outcome (list Z * Z) :=
  let '(seps, offset) := st in
  sep ← Bin.load32bitNumber data offset;
  Ret (seps ++ [sep], offset + 2).

Definition load_range (data : jsstr) (st : list (Z * Z) * Z) (i : Z) : outcome (list (Z * Z) * Z) :=
  let '(range, offset) := st in
  key ← Bin.load32bitNumber data offset;
  value ← Bin.load32bitNumber data (offset + 2);
  Ret (IMap.put range key (to_int32 value), offset + 4).

Definition load (wm : t) (data : jsstr) (offset : Z) : outcome (t * Z) :=
  let wm := clear wm in
  bitsize ← Bin.load16bitNumber data offset;
  let offset := offset + 1 in
  size ← Bin.load32bitNumber data offset;
  let offset := offset + 2 in
  '(bvs, offset) ← ofold (load_vector data) ([], offset) (seqZ 0 bitsize);
  '(seps, offset) ← ofold (load_sep data) ([], offset) (seqZ 0 bitsize);
  range_size ← Bin.load32bitNumber data offset;
  let offset := offset + 2 in
  '(range, offset) ← ofold (load_range data) (_range wm, offset) (seqZ 0 range_size);
  Ret (mk bvs seps range bitsize (to_int32 size), offset).

(** ** The levels of a string

    [level d] is the string after [d] stable partitions, the content of the
    [d]-th bit vector; [step d] is where a position of [level d] goes in
    [level (d + 1)]; [start d p] is where the codes with the [d]-bit prefix [p]
    start in [level d]. *)

Section levels.
Context (B : Z) (v : jsstr).
Implicit Types (d : nat) (b : bool) (c p s : Z).

Definition bitat d c : bool := Z.testbit c (B - 1 - Z.of_nat d).
Definition prefix d c : Z := Z.shiftr c (B - Z.of_nat d).

Definition with_bit d b (l : list Z) : list Z := filter (λ c, bitat d c = b) l.
Definition with_prefix d p (l : list Z) : list Z := filter (λ c, prefix d c = p) l.

Fixpoint level d : list Z :=
  match d with
  | O => v
  | S d => with_bit d false (level d) ++ with_bit d true (level d)
  end.

Definition zeros d : Z := zlen (with_bit d false (level d)).

Definition step d s b : Z :=
  zlen (with_bit d b (take (Z.to_nat s) (level d))) + (if b then zeros d else 0).

Fixpoint start d p : Z :=
  match d with
  | O => 0
  | S d => step d (start d (p / 2)) (Z.odd p)
  end.

Lemma step_0 d b : step d 0 b = if b then zeros d else 0.
Proof. unfold step. change (Z.to_nat 0) with O. by rewrite take_0. Qed.

Lemma with_bit_app d b l1 l2 : with_bit d b (l1 ++ l2) = with_bit d b l1 ++ with_bit d b l2.
Proof. apply filter_app. Qed.

Lemma with_prefix_app d p l1 l2 :
  with_prefix d p (l1 ++ l2) = with_prefix d p l1 ++ with_prefix d p l2.
Proof. apply filter_app. Qed.

Lemma zlen_with_prefix_snoc d p u c :
  zlen (with_prefix d p (u ++ [c])) =
  zlen (with_prefix d p u) + if decide (prefix d c = p) then 1 else 0.
Proof.
  rewrite with_prefix_app, zlen_app. f_equal. unfold with_prefix. rewrite filter_cons.
  by case_decide.
Qed.

Lemma count_bitat d b l : BV.count b (bitat d <$> l) = zlen (with_bit d b l).
Proof.
  induction l as [|c l IH]; [done|]. csimpl. rewrite BV.count_cons, IH.
  unfold with_bit. rewrite filter_cons. repeat case_decide; autorewrite with zlen; lia || done.
Qed.

Lemma zlen_with_bit d l : zlen (with_bit d false l) + zlen (with_bit d true l) = zlen l.
Proof.
  rewrite <- !count_bitat. pose proof (BV.count_negb true (bitat d <$> l)) as H.
  rewrite zlen_fmap in H. simpl in H. lia.
Qed.

Lemma zlen_level d : zlen (level d) = zlen v.
Proof.
  induction d as [|d IH]; [done|]. simpl. rewrite zlen_app, zlen_with_bit. done.
Qed.

Lemma elem_of_level d c : c ∈ level d ↔ c ∈ v.
Proof.
  induction d as [|d IH]; [done|]. simpl. rewrite <- IH, elem_of_app.
  unfold with_bit. rewrite !list_elem_of_filter. destruct (bitat d c); naive_solver.
Qed.

(** A partition moves a segment to the segment of its codes with the given bit. *)
Lemma seg_step d s b l :
  seg (level d) s l →
  seg (level (S d)) (step d s b) (with_bit d b l) ∧
  step d (s + zlen l) b = step d s b + zlen (with_bit d b l).
Proof.
  intros (X & Y & HL & HX).
  assert (step d s b = zlen (with_bit d b X) + if b then zeros d else 0) as Hs.
  { unfold step. rewrite HL, <- HX. unfold zlen at 2. by rewrite Nat2Z.id, take_app_length. }
  assert (step d (s + zlen l) b = zlen (with_bit d b (X ++ l)) + if b then zeros d else 0) as He.
  { unfold step. rewrite HL, app_assoc, <- HX, <- zlen_app. unfold zlen at 2.
    by rewrite Nat2Z.id, take_app_length. }
  rewrite He, Hs, with_bit_app, zlen_app. split; [|lia].
  simpl. rewrite HL, !with_bit_app. destruct b.
  - exists (with_bit d false (level d) ++ with_bit d true X), (with_bit d true Y).
    rewrite HL, !with_bit_app, <- !app_assoc. split; [done|].
    unfold zeros. rewrite HL, !with_bit_app. rewrite !zlen_app. lia.
  - exists (with_bit d false X), (with_bit d false Y ++ with_bit d true (level d)).
    rewrite HL, !with_bit_app, <- !app_assoc. split; [done|lia].
Qed.

Lemma prefix_0 c : 0 ≤ c < 2 ^ B → prefix 0 c = 0.
Proof.
  intros. unfold prefix. rewrite Z.sub_0_r.
  destruct (decide (0 ≤ B)); [rewrite Z.shiftr_div_pow2 by lia; by apply Z.div_small|].
  rewrite Z.pow_neg_r in * by lia. lia.
Qed.

Lemma prefix_S d c :
  Z.of_nat d < B → prefix (S d) c = 2 * prefix d c + Z.b2z (bitat d c).
Proof.
  intros. unfold prefix, bitat.
  replace (B - Z.of_nat (S d)) with (B - 1 - Z.of_nat d) by lia.
  replace (B - Z.of_nat d) with (Z.succ (B - 1 - Z.of_nat d)) by lia.
  set (k := B - 1 - Z.of_nat d).
  unfold Z.succ. rewrite <- Z.shiftr_shiftr, <- Z.div2_spec by lia.
  rewrite (Z.div2_odd (Z.shiftr c k)) at 1.
  by rewrite <- Z.bit0_odd, Z.shiftr_spec, Z.add_0_l by lia.
Qed.

Lemma prefix_child d c p :
  Z.of_nat d < B → prefix (S d) c = p ↔ prefix d c = p / 2 ∧ bitat d c = Z.odd p.
Proof.
  intros. rewrite prefix_S by done. pose proof (Z.div_mod p 2).
  rewrite Zmod_odd in *. destruct (bitat d c), (Z.odd p); simpl; lia || naive_solver lia.
Qed.

Lemma with_prefix_S d p l :
  Z.of_nat d < B → with_prefix (S d) p l = with_bit d (Z.odd p) (with_prefix d (p / 2) l).
Proof.
  intros. unfold with_prefix, with_bit. rewrite list_filter_filter.
  apply list_filter_iff. intros c. rewrite prefix_child by done. tauto.
Qed.

Hypothesis (v_range : Forall (λ c, 0 ≤ c < 2 ^ B) v).

Lemma with_prefix_0 l : l ⊆ v → with_prefix 0 0 l = l.
Proof.
  intros Hl. apply filter_all. apply Forall_forall. intros c Hc.
  rewrite Forall_forall in v_range. apply prefix_0. auto.
Qed.

(** The codes of a prefix are consecutive in their level, in the order of the string. *)
Lemma seg_start d p :
  Z.of_nat d ≤ B → 0 ≤ p < 2 ^ Z.of_nat d → seg (level d) (start d p) (with_prefix d p v).
Proof.
  revert p. induction d as [|d IH]; intros p Hd Hp.
  - replace p with 0 by lia. rewrite with_prefix_0 by done.
    exists [], []. by rewrite app_nil_r.
  - rewrite with_prefix_S by lia. apply (seg_step d _ (Z.odd p)). apply IH; [lia|].
    rewrite Nat2Z.inj_succ, Z.pow_succ_r in Hp by lia. split; [apply Z.div_pos|apply Z.div_lt_upper_bound]; lia.
Qed.

Lemma seg_start_take d p i :
  Z.of_nat d ≤ B → 0 ≤ p < 2 ^ Z.of_nat d →
  seg (level d) (start d p) (with_prefix d p (take i v)).
Proof.
  intros Hd Hp. pose proof (seg_start d p Hd Hp) as Hseg.
  rewrite <- (take_drop i v), with_prefix_app in Hseg. by apply seg_app in Hseg as [? _].
Qed.

(** Following the first [i] codes of the string down the levels. *)
Lemma step_prefix d p i :
  Z.of_nat d < B → 0 ≤ p < 2 ^ Z.of_nat (S d) →
  step d (start d (p / 2) + zlen (with_prefix d (p / 2) (take i v))) (Z.odd p) =
  start (S d) p + zlen (with_prefix (S d) p (take i v)).
Proof.
  intros Hd Hp. rewrite with_prefix_S by done. apply (seg_step d).
  apply seg_start_take; [lia|]. rewrite Nat2Z.inj_succ, Z.pow_succ_r in Hp by lia.
  split; [apply Z.div_pos|apply Z.div_lt_upper_bound]; lia.
Qed.

Lemma prefix_range d c : Z.of_nat d ≤ B → 0 ≤ c < 2 ^ B → 0 ≤ prefix d c < 2 ^ Z.of_nat d.
Proof.
  intros. unfold prefix. rewrite Z.shiftr_div_pow2 by lia.
  assert (2 ^ B = 2 ^ (B - Z.of_nat d) * 2 ^ Z.of_nat d) as HB.
  { rewrite <- Z.pow_add_r by lia. f_equal. lia. }
  assert (0 < 2 ^ (B - Z.of_nat d)) by (apply Z.pow_pos_nonneg; lia).
  split; [apply Z.div_pos|apply Z.div_lt_upper_bound]; lia.
Qed.

(** A position of the next level is where a position of this one went. *)
Lemma step_surj d q c :
  aget (level (S d)) q = Some c → ∃ q', aget (level d) q' = Some c ∧ step d q' (bitat d c) = q.
Proof.
  simpl. intros Hq. destruct (decide (q < zeros d)).
  - rewrite aget_app_l in Hq by done. apply aget_filter in Hq as (q' & Hq' & Hb & Hc).
    exists q'. split; [done|]. rewrite Hb. unfold step, with_bit. lia.
  - rewrite aget_app_r in Hq by (unfold zeros in *; lia).
    apply aget_filter in Hq as (q' & Hq' & Hb & Hc).
    exists q'. split; [done|]. rewrite Hb. unfold step, zeros, with_bit in *. lia.
Qed.

Lemma level_code d q c : aget (level d) q = Some c → 0 ≤ c < 2 ^ B.
Proof.
  intros Hq%aget_elem_of%elem_of_level. rewrite Forall_forall in v_range. auto.
Qed.

(** Every position of a level belongs to the segment of the prefix of its code. *)
Lemma level_cover d q c :
  Z.of_nat d ≤ B → aget (level d) q = Some c →
  start d (prefix d c) ≤ q < start d (prefix d c) + zlen (with_prefix d (prefix d c) v).
Proof.
  revert q c. induction d as [|d IH]; intros q c Hd Hq.
  - rewrite prefix_0, with_prefix_0 by (done || by eapply (level_code 0)).
    apply aget_Some_range in Hq. simpl in *. lia.
  - apply step_surj in Hq as (q' & Hq' & <-).
    destruct (proj1 (prefix_child d c _ ltac:(lia)) eq_refl) as [Hpre Hodd].
    rewrite with_prefix_S by lia. simpl. rewrite <- Hpre, <- Hodd.
    specialize (IH q' c ltac:(lia) Hq').
    pose proof (seg_start d (prefix d c) ltac:(lia) (prefix_range d c ltac:(lia) (level_code _ _ _ Hq'))) as Hseg.
    set (s := start d (prefix d c)) in *. set (l := with_prefix d (prefix d c) v) in *.
    assert (aget l (q' - s) = Some c) as Hl.
    { rewrite <- Hq', <- (seg_get _ _ _ (q' - s) Hseg) by lia. f_equal. lia. }
    apply aget_split in Hl as (l1 & l2 & Hl & Hl1). rewrite Hl in Hseg |- *.
    apply seg_app in Hseg as [Hseg _]. destruct (seg_step d s (bitat d c) l1 Hseg) as [_ Hst].
    replace (s + zlen l1) with q' in Hst by lia. rewrite Hst, with_bit_app.
    unfold with_bit at 4. rewrite filter_cons_True by done. rewrite zlen_app, zlen_cons.
    pose proof (zlen_nonneg (with_bit d (bitat d c) l1)).
    pose proof (zlen_nonneg (with_bit d (bitat d c) l2)). unfold with_bit in *. lia.
Qed.

(** Segments of different prefixes do not meet. *)
Lemma seg_disjoint d p p' q :
  Z.of_nat d ≤ B → 0 ≤ p < 2 ^ Z.of_nat d → 0 ≤ p' < 2 ^ Z.of_nat d →
  start d p ≤ q < start d p + zlen (with_prefix d p v) →
  start d p' ≤ q < start d p' + zlen (with_prefix d p' v) → p = p'.
Proof.
  intros Hd Hp Hp' Hq Hq'.
  assert (∀ p, 0 ≤ p < 2 ^ Z.of_nat d → start d p ≤ q < start d p + zlen (with_prefix d p v) →
            prefix d <$> aget (level d) q = Some p) as Hget.
  { clear p p' Hp Hp' Hq Hq'. intros p Hp Hq.
    pose proof (seg_get _ _ _ (q - start d p) (seg_start d p Hd Hp) ltac:(lia)) as Hget.
    replace (start d p + (q - start d p)) with q in Hget by lia.
    destruct (aget_is_Some (with_prefix d p v) (q - start d p) ltac:(lia)) as [c Hc].
    rewrite Hget, Hc. simpl. f_equal. apply aget_elem_of in Hc.
    by apply list_elem_of_filter in Hc as [? _]. }
  pose proof (Hget p Hp Hq). pose proof (Hget p' Hp' Hq'). congruence.
Qed.

End levels.

(** ** What a wavelet matrix holds *)

Record level_ok (B : Z) (v : jsstr) (d : nat) (bv : BV.t) : Prop := {
  level_wf : BV.wf bv;
  level_built : BV.built bv;
  level_bits : BV.bits bv = bitat B d <$> level B v d;
}.

(** The range table after [d] levels: the start of every prefix in use. *)
Record range_ok (B : Z) (v : jsstr) (d : nat) (range : list (Z * Z)) : Prop := {
  range_wf : IMap.wf range;
  range_keys p : is_Some (IMap.get range p) → 0 ≤ p < 2 ^ B;
  range_used p :
    0 ≤ p < 2 ^ Z.of_nat d → with_prefix B d p v ≠ [] → IMap.get range p = Some (start B v d p);
  range_start p b : 0 ≤ p < 2 ^ Z.of_nat d → IMap.get range p = Some b → b = start B v d p;
}.

Record repr (wm : t) (v : jsstr) : Prop := {
  repr_bitsize : 1 ≤ _bitsize wm ≤ 31;
  repr_codes : Forall (λ c, 0 ≤ c < 2 ^ _bitsize wm) v;
  repr_size : _size wm = zlen v;
  repr_length : zlen v < 2 ^ 31 - 1;
  repr_bvs : zlen (_bv wm) = _bitsize wm;
  repr_seps : zlen (_seps wm) = _bitsize wm;
  repr_level d : Z.of_nat d < _bitsize wm → ∃ bv,
    aget (_bv wm) (Z.of_nat d) = Some bv ∧ level_ok (_bitsize wm) v d bv ∧
    aget (_seps wm) (Z.of_nat d) = Some (zeros (_bitsize wm) v d);
  repr_range : range_ok (_bitsize wm) v (Z.to_nat (_bitsize wm)) (_range wm);
}.

Lemma uint2bit_bitat wm c d :
  1 ≤ _bitsize wm ≤ 31 → Z.of_nat d < _bitsize wm → 0 ≤ c < 2 ^ 31 →
  _uint2bit wm c (Z.of_nat d) = bitat (_bitsize wm) d c.
Proof.
  intros HB Hd Hc. unfold _uint2bit, bitat. set (k := _bitsize wm - 1 - Z.of_nat d).
  rewrite js_shr_div by lia. change (js_and ?a 1) with (js_and a (2 ^ 1 - 1)).
  rewrite (js_and_ones _ 1) by (lia || apply Z.div_pos; lia).
  rewrite Z.testbit_odd, Z.shiftr_div_pow2 by lia. change (2 ^ 1) with 2. rewrite Zmod_odd.
  by destruct (Z.odd _).
Qed.

Lemma level_rank B v d bv b i :
  level_ok B v d bv → 0 ≤ i ≤ zlen v →
  BV.rank bv i b = Ret (zlen (with_bit B d b (take (Z.to_nat i) (level B v d)))).
Proof.
  intros [Hwf Hb Hbits] Hi. pose proof (BV.wf_size _ Hwf).
  assert (BV._size bv = zlen v) as Hsz.
  { rewrite <- BV.zlen_bits, Hbits, zlen_fmap, zlen_level by lia. done. }
  rewrite BV.rank_spec, <- BV.count_take_bits, Hbits, <- fmap_take, count_bitat by (done || lia).
  done.
Qed.

Lemma level_get B v d bv i c :
  level_ok B v d bv → aget (level B v d) i = Some c → BV.get bv i = Ret (bitat B d c).
Proof.
  intros [Hwf Hb Hbits] Hi. pose proof (BV.wf_size _ Hwf).
  assert (aget (BV.bits bv) i = Some (bitat B d c)) as Hbit.
  { rewrite Hbits, aget_fmap, Hi. done. }
  pose proof (aget_Some_range _ _ _ Hbit) as Hr. rewrite BV.zlen_bits in Hr by lia.
  rewrite BV.aget_bits in Hbit by lia. rewrite BV.get_spec by lia. congruence.
Qed.

Lemma code_bound B c : 1 ≤ B ≤ 31 → 0 ≤ c < 2 ^ B → 0 ≤ c < 2 ^ 31.
Proof. intros. pose proof (Z.pow_le_mono_r 2 B 31). lia. Qed.

Section queries.
Context (wm : t) (v : jsstr) (R : repr wm v).
Abbreviation B := (_bitsize wm).

(** The rule for a loop over the depth. *)
Lemma depth_loop {S} (P : nat → S → Prop) (f : S → Z → outcome S) s :
  P 0%nat s →
  (∀ d s, Z.of_nat d < B → P d s → ∃ s', f s (Z.of_nat d) = Ret s' ∧ P (Datatypes.S d) s') →
  ∃ s', ofold f s (seqZ 0 B) = Ret s' ∧ P (Z.to_nat B) s'.
Proof.
  intros H0 Hstep. replace (Z.to_nat B) with (length (seqZ 0 B)) by apply length_seqZ.
  apply ofold_inv; [done|]. intros k x s' Hx HP.
  apply lookup_seqZ in Hx as [-> Hk]. rewrite Z.add_0_l. by apply Hstep.
Qed.

Lemma get_code i c : aget v i = Some c → get wm i = Ret c.
Proof.
  intros Hi. pose proof (aget_Some_range _ _ _ Hi) as Hr.
  pose proof (repr_bitsize _ _ R) as HB. pose proof (repr_size _ _ R) as Hsz.
  assert (0 ≤ c < 2 ^ B) as Hc by apply (level_code B v (repr_codes _ _ R) 0 i c Hi).
  unfold get, size, bitsize. rewrite decide_False by lia.
  destruct (depth_loop (λ d '(i, value), aget (level B v d) i = Some c ∧ value = prefix B d c)
              (get_step wm) (i, 0)) as ([i' value] & -> & Hget & ->).
  - split; [done|]. by rewrite prefix_0.
  - intros d [j value] Hd [Hj ->]. destruct (repr_level _ _ R d Hd) as (bv & Hbv & Hlev & Hsep).
    pose proof (aget_Some_range _ _ _ Hj) as Hjr. rewrite zlen_level in Hjr.
    pose proof (prefix_range B d c ltac:(lia) Hc) as Hp.
    pose proof (Z.pow_le_mono_r 2 (Z.of_nat d) 30) as Hpow.
    pose proof (seg_step B v d j (bitat B d c) [c] (seg_singleton _ _ _ Hj)) as [Hseg _].
    assert (with_bit B d (bitat B d c) [c] = [c]) as Hw.
    { unfold with_bit. by rewrite filter_cons_True. }
    rewrite Hw in Hseg. pose proof (seg_get _ _ _ 0 Hseg ltac:(done)) as Hget.
    rewrite Z.add_0_r in Hget. unfold get_step. rewrite Hbv. cbn [mbind outcome_bind of_option].
    rewrite (level_get _ _ _ _ _ _ Hlev Hj). cbn [mbind outcome_bind].
    rewrite (level_rank _ _ _ _ _ _ Hlev) by lia. cbn [mbind outcome_bind].
    rewrite js_shl_mul by lia. unfold step in Hget. rewrite (prefix_S B) by done.
    destruct (bitat B d c); simpl; rewrite ?Hsep; eexists; (split; [reflexivity|]); split;
      rewrite ?Z.add_0_r in *; done || lia.
  - simpl. unfold prefix. f_equal. rewrite Z2Nat.id, Z.sub_diag by lia. apply Z.shiftr_0_r.
Qed.

(** One step of [rank], on a position inside the level. *)
Lemma level_step d bv b i :
  level_ok B v d bv → 0 ≤ i ≤ zlen v →
  BV.rank bv i b = Ret (step B v d i b - if b then zeros B v d else 0).
Proof.
  intros Hlev Hi. rewrite (level_rank _ _ _ _ _ _ Hlev Hi). f_equal. unfold step. lia.
Qed.

(** The position the first [i] codes reach among those of a prefix. *)
Definition reach (i : Z) (c : Z) (d : nat) : Z :=
  start B v d (prefix B d c) + zlen (with_prefix B d (prefix B d c) (take (Z.to_nat i) v)).

Lemma reach_0 i c : 0 ≤ c < 2 ^ B → 0 ≤ i ≤ zlen v → reach i c 0 = i.
Proof.
  intros Hc Hi. unfold reach. rewrite prefix_0 by done.
  rewrite (with_prefix_0 B v (repr_codes _ _ R)) by apply subseteq_take. simpl. rewrite zlen_take. lia.
Qed.

Lemma reach_S i c d :
  0 ≤ c < 2 ^ B → Z.of_nat d < B → reach i c (S d) = step B v d (reach i c d) (bitat B d c).
Proof.
  intros Hc Hd. unfold reach. destruct (proj1 (prefix_child B d c _ Hd) eq_refl) as [Hpre Hodd].
  rewrite <- (step_prefix B v (repr_codes _ _ R)), <- Hpre, <- Hodd; [done..|].
  apply prefix_range; [lia|done].
Qed.

Lemma reach_range i c d : 0 ≤ c < 2 ^ B → Z.of_nat d ≤ B → 0 ≤ reach i c d ≤ zlen v.
Proof.
  intros Hc Hd. unfold reach.
  pose proof (seg_start_take B v (repr_codes _ _ R) d _ (Z.to_nat i) Hd (prefix_range B d c Hd Hc)) as Hseg.
  apply seg_range in Hseg. rewrite zlen_level in Hseg.
  pose proof (zlen_nonneg (with_prefix B d (prefix B d c) (take (Z.to_nat i) v))). lia.
Qed.

Lemma prefix_all c : prefix B (Z.to_nat B) c = c.
Proof.
  pose proof (repr_bitsize _ _ R). unfold prefix. rewrite Z2Nat.id, Z.sub_diag by lia.
  apply Z.shiftr_0_r.
Qed.

Lemma with_prefix_all c l : with_prefix B (Z.to_nat B) c l = filter (λ x, x = c) l.
Proof. apply list_filter_iff. intros x. by rewrite prefix_all. Qed.

Lemma rank_code i c :
  0 ≤ i ≤ zlen v → rank wm i c = Ret (zlen (filter (λ x, x = c) (take (Z.to_nat i) v))).
Proof.
  intros Hi. pose proof (repr_bitsize _ _ R) as HB. pose proof (repr_range _ _ R) as HR.
  unfold rank, size, bitsize. rewrite (repr_size _ _ R), decide_False by lia.
  case_decide as Hi0; [by subst|].
  destruct (IMap.get (_range wm) c) as [b|] eqn:Hb.
  - assert (0 ≤ c < 2 ^ B) as Hc by (apply (range_keys _ _ _ _ HR); eauto).
    destruct (depth_loop (λ d e, e = reach i c d) (rank_step wm c) i) as (e & -> & ->).
    + by rewrite reach_0.
    + intros d e Hd ->. destruct (repr_level _ _ R d Hd) as (bv & Hbv & Hlev & Hsep).
      exists (reach i c (S d)). split; [|done]. pose proof (reach_range i c d Hc ltac:(lia)).
      unfold rank_step. rewrite uint2bit_bitat, Hbv by (done || by eapply code_bound).
      cbn [mbind outcome_bind of_option]. rewrite (level_step _ _ _ _ Hlev), reach_S by lia.
      destruct (bitat B d c); simpl; rewrite ?Hsep; simpl; f_equal; lia.
    + cbn [mbind outcome_bind]. f_equal. unfold reach. rewrite prefix_all, with_prefix_all.
      rewrite (range_start _ _ _ _ HR c b); [lia| |done]. by rewrite Z2Nat.id by lia.
  - f_equal. rewrite filter_none; [done|]. apply Forall_take, Forall_forall. intros x Hx ->.
    pose proof (repr_codes _ _ R) as Hcodes. rewrite Forall_forall in Hcodes.
    rewrite (range_used _ _ _ _ HR c) in Hb; [done|rewrite Z2Nat.id by lia; by apply Hcodes|].
    rewrite with_prefix_all. intros Hnil. apply (not_elem_of_nil c). rewrite <- Hnil.
    by apply list_elem_of_filter.
Qed.

(** Codes below [c] whose first [d] bits already tell. *)
Definition below (i c : Z) (d : nat) : Z :=
  zlen (filter (λ x, prefix B d x < prefix B d c) (take (Z.to_nat i) v)).

Lemma below_S i c d :
  Z.of_nat d < B →
  below i c (S d) = below i c d +
    if bitat B d c then zlen (with_bit B d false (with_prefix B d (prefix B d c) (take (Z.to_nat i) v))) else 0.
Proof.
  intros Hd. unfold below. induction (take (Z.to_nat i) v) as [|x l IH]; [by destruct (bitat _ _ _)|].
  unfold with_prefix, with_bit in *. rewrite !filter_cons.
  pose proof (prefix_S B d x Hd). pose proof (prefix_S B d c Hd).
  destruct (bitat B d c) eqn:Hc, (bitat B d x) eqn:Hx; simpl in *;
    repeat case_decide; rewrite ?filter_cons, ?Hx; try case_decide; autorewrite with zlen; try done; lia.
Qed.

Lemma step_reach i c d b :
  0 ≤ c < 2 ^ B → Z.of_nat d ≤ B →
  step B v d (reach i c d) b = step B v d (reach 0 c d) b +
    zlen (with_bit B d b (with_prefix B d (prefix B d c) (take (Z.to_nat i) v))).
Proof.
  intros Hc Hd. unfold reach at 2. change (Z.to_nat 0) with O. rewrite take_0, Z.add_0_r.
  apply seg_step, seg_start_take; [apply (repr_codes _ _ R)|done|by apply prefix_range].
Qed.

Lemma step_true d s :
  0 ≤ s ≤ zlen v → step B v d s true = s + (zeros B v d - step B v d s false).
Proof.
  intros Hs. unfold step. pose proof (zlen_with_bit B d (take (Z.to_nat s) (level B v d))) as H.
  rewrite zlen_take, zlen_level in H. lia.
Qed.

Lemma rank_less_than_code i c :
  0 ≤ i ≤ zlen v → 0 ≤ c < 2 ^ B →
  rank_less_than wm i c = Ret (zlen (filter (λ x, x < c) (take (Z.to_nat i) v))).
Proof.
  intros Hi Hc. pose proof (repr_bitsize _ _ R) as HB.
  unfold rank_less_than, size, bitsize. rewrite (repr_size _ _ R), decide_False by lia.
  case_decide as Hi0; [by subst|].
  destruct (depth_loop (λ d '(b, e, rlt), b = reach 0 c d ∧ e = reach i c d ∧ rlt = below i c d)
    (rlt_step wm c) (0, i, 0)) as ([[b e] rlt] & -> & _ & _ & ->).
  - rewrite !reach_0 by lia. split_and!; [done..|]. unfold below. rewrite filter_none; [done|].
    apply Forall_take, Forall_forall. intros x Hx. rewrite !prefix_0; [lia|done|].
    pose proof (repr_codes _ _ R) as Hcodes. rewrite Forall_forall in Hcodes. auto.
  - intros d [[b e] rlt] Hd (-> & -> & ->).
    destruct (repr_level _ _ R d Hd) as (bv & Hbv & Hlev & Hsep).
    pose proof (reach_range 0 c d Hc ltac:(lia)). pose proof (reach_range i c d Hc ltac:(lia)).
    eexists (reach 0 c (S d), reach i c (S d), below i c (S d)). split; [|done].
    unfold rlt_step. rewrite uint2bit_bitat, Hbv by (done || by eapply code_bound).
    cbn [mbind outcome_bind of_option]. rewrite !(level_step _ _ _ _ Hlev) by lia.
    cbn [mbind outcome_bind]. rewrite !reach_S, below_S by done.
    pose proof (step_reach i c d false Hc ltac:(lia)).
    destruct (bitat B d c); simpl; rewrite ?Hsep; simpl; rewrite ?step_true by lia; repeat f_equal; lia.
  - cbn [mbind outcome_bind]. unfold below. do 2 f_equal. apply list_filter_iff. intros x. by rewrite !prefix_all.
Qed.
End queries.

(** ** Building

    [filled bv L D]: the vector being filled agrees with the list [L] at the
    positions of [D], the ones written so far. *)

Record filled (bv : BV.t) (L : list bool) (D : Z → Prop) : Prop := {
  filled_wf : BV.wf bv;
  filled_table : BV._r bv = [];
  filled_size : BV._size bv ≤ zlen L;
  filled_at q : D q → q < BV._size bv ∧ aget L q = Some (BV.bit (BV._v bv) q);
}.

Lemma filled_new L (D : Z → Prop) : (∀ q, ¬ D q) → filled BV.new L D.
Proof.
  intros HD. split; [apply BV.new_wf|done|apply zlen_nonneg|]. intros q Hq. by destruct (HD q).
Qed.

Lemma filled_set bv L (D D' : Z → Prop) i f :
  zlen L < 2 ^ 31 - 1 → filled bv L D → aget L i = Some f →
  (∀ q, D' q → D q ∨ q = i) → filled (BV.set bv i f) L D'.
Proof.
  intros HL [Hwf Hr Hsz Hat] Hi HD. pose proof (aget_Some_range _ _ _ Hi) as Hir.
  assert (BV._size (BV.set bv i f) = Z.max (i + 1) (BV._size bv)) as Hs.
  { unfold BV.set, BV.size. cbn [BV._size]. case_decide; lia. }
  split; [by apply BV.set_wf; [|lia]|done|lia|].
  intros q Hq. assert (0 ≤ q ∧ (D q ∨ q = i)) as [Hq0 Hq'].
  { apply HD in Hq as [Hq| ->]; [|split; [lia|by right]].
    destruct (Hat q Hq) as [_ Hg]. apply aget_Some_range in Hg. split; [lia|by left]. }
  rewrite BV.set_bit, Hs by lia. case_decide; [subst; split; [lia|done]|].
  destruct Hq' as [Hq'|]; [|done]. destruct (Hat q Hq') as [? ->]. split; [lia|done].
Qed.

Lemma filled_all bv L (D : Z → Prop) :
  filled bv L D → (∀ q, 0 ≤ q < zlen L → D q) → BV.bits bv = L.
Proof.
  intros [Hwf Hr Hsz Hat] HD. pose proof (BV.wf_size _ Hwf) as Hs.
  assert (BV._size bv = zlen L) as Heq.
  { destruct (decide (zlen L = 0)) as [H0|H0]; [lia|]. pose proof (zlen_nonneg L).
    destruct (Hat (zlen L - 1)); [apply HD|]; lia. }
  apply aget_ext; rewrite BV.zlen_bits by lia; [done|].
  intros i Hi. rewrite BV.aget_bits by done. symmetry. apply Hat, HD. lia.
Qed.

Section build.
Context (B : Z) (v : jsstr).
Hypothesis (B_range : 1 ≤ B ≤ 31).
Hypothesis (v_codes : Forall (λ c, 0 ≤ c < 2 ^ B) v).
Hypothesis (v_length : zlen v < 2 ^ 31 - 1).

Lemma filled_level bv d (D : Z → Prop) :
  filled bv (bitat B d <$> level B v d) D → (∀ q, 0 ≤ q < zlen v → D q) →
  level_ok B v d (BV.build bv) ∧ BV.size_of (BV.build bv) false = zeros B v d.
Proof.
  intros Hf HD. pose proof Hf as [Hwf Hr _ _].
  apply filled_all in Hf; [|intros q; rewrite zlen_fmap, zlen_level; apply HD].
  destruct (BV.build_spec _ Hwf Hr) as (Hwf' & Hb' & Hbits). rewrite Hf in Hbits.
  split; [done|]. unfold BV.size_of. rewrite (BV.built_size1 _ Hb'), Hbits, count_bitat.
  pose proof (BV.wf_size _ Hwf'). rewrite <- (BV.zlen_bits (BV.build bv)), Hbits, zlen_fmap by lia.
  unfold zeros. pose proof (zlen_with_bit B d (level B v d)). lia.
Qed.

Lemma fill_first_spec wm u w bv :
  _bitsize wm = B → u ++ w = v → filled bv (bitat B 0 <$> v) (λ q, 0 ≤ q < zlen u) →
  filled (fill_first wm (zlen u) w bv) (bitat B 0 <$> v) (λ q, 0 ≤ q < zlen v).
Proof.
  intros HB. revert u bv. induction w as [|c w IH]; intros u bv Hv Hf; simpl.
  { rewrite app_nil_r in Hv. by subst u. }
  replace (zlen u + 1) with (zlen (u ++ [c])) by (autorewrite with zlen; lia).
  apply IH; [by rewrite <- app_assoc|].
  assert (aget v (zlen u) = Some c) as Hc.
  { rewrite <- Hv, aget_app_r, Z.sub_diag by lia. done. }
  assert (0 ≤ c < 2 ^ B) by (rewrite Forall_forall in v_codes; by eapply v_codes, aget_elem_of).
  eapply filled_set; [by rewrite zlen_fmap|exact Hf| |].
  - rewrite aget_fmap, Hc. simpl. rewrite <- HB. f_equal. symmetry.
    apply (uint2bit_bitat wm c 0); rewrite ?HB; [done|lia|by eapply code_bound].
  - intros q. autorewrite with zlen. simpl. lia.
Qed.

(** The counters after the codes of [u]. *)
Definition counted (d : nat) (u : jsstr) (range tmp : list (Z * Z)) : Prop :=
  ∀ p, IMap.get tmp p = (λ b, b + zlen (with_prefix B d p u)) <$> IMap.get range p.

Definition placed (d : nat) (u : jsstr) (q : Z) : Prop :=
  ∃ p, start B v d p ≤ q < start B v d p + zlen (with_prefix B d p u).

Lemma fill_level_spec wm d range u w tmp bv :
  _bitsize wm = B → Z.of_nat d < B → range_ok B v d range → u ++ w = v →
  counted d u range tmp → filled bv (bitat B d <$> level B v d) (placed d u) →
  ∃ tmp' bv', fill_level wm (Z.of_nat d) w tmp bv = Ret (tmp', bv') ∧
    counted d v range tmp' ∧ filled bv' (bitat B d <$> level B v d) (placed d v).
Proof.
  intros HB Hd HR. revert u tmp bv. induction w as [|c w IH]; intros u tmp bv Hv Hcnt Hf; simpl.
  { rewrite app_nil_r in Hv. subst u. eauto. }
  assert (c ∈ v) as Hcv by (rewrite <- Hv; apply elem_of_app; right; left).
  assert (0 ≤ c < 2 ^ B) as Hc by (rewrite Forall_forall in v_codes; auto).
  pose proof (code_bound B c B_range Hc). set (p := prefix B d c).
  pose proof (prefix_range B d c ltac:(lia) Hc : 0 ≤ p < _) as Hp.
  unfold bitsize. rewrite (uint2bit_bitat wm c d), HB by (rewrite ?HB; lia).
  rewrite js_shr_div, <- Z.shiftr_div_pow2 by lia. change (Z.shiftr c (B - Z.of_nat d)) with p.
  assert (with_prefix B d p v = with_prefix B d p u ++ c :: with_prefix B d p w) as Hw.
  { rewrite <- Hv, with_prefix_app. f_equal. unfold with_prefix. by rewrite filter_cons_True. }
  pose proof (seg_start B v v_codes d p ltac:(lia) Hp) as Hseg. rewrite Hw in Hseg.
  apply seg_app in Hseg as [_ Hseg]. pose proof (seg_get _ _ _ 0 Hseg) as Hget.
  rewrite zlen_cons, Z.add_0_r in Hget. specialize (Hget ltac:(pose proof (zlen_nonneg (with_prefix B d p w)); lia)).
  rewrite Hcnt, (range_used _ _ _ _ HR p Hp); [|rewrite Hw; by destruct (with_prefix B d p u)].
  cbn [mbind outcome_bind of_option fmap option_fmap option_map].
  apply (IH (u ++ [c])); [by rewrite <- app_assoc| |].
  - intros p'. rewrite IMap.get_iput, zlen_with_prefix_snoc. fold p. case_decide as Hpp.
    + subst p'. rewrite (range_used _ _ _ _ HR p Hp); [|rewrite Hw; by destruct (with_prefix B d p u)].
      simpl. f_equal. lia.
    + rewrite Hcnt. destruct (IMap.get range p'); simpl; [f_equal; lia|done].
  - eapply filled_set; [by rewrite zlen_fmap, zlen_level|exact Hf|by rewrite aget_fmap, Hget|].
    intros q (p' & Hq). rewrite zlen_with_prefix_snoc in Hq. fold p in Hq.
    destruct (decide (q = start B v d p + zlen (with_prefix B d p u))); [by right|].
    left. exists p'. case_decide; subst; lia.
Qed.

(** A prefix some code of the string has. *)
Definition used (d : nat) (p : Z) : Prop := with_prefix B d p v ≠ [].

Lemma used_range d p : Z.of_nat d ≤ B → used d p → 0 ≤ p < 2 ^ Z.of_nat d.
Proof.
  intros Hd Hu. destruct (with_prefix B d p v) as [|c l] eqn:E; [done|].
  assert (c ∈ with_prefix B d p v) as Hc by (rewrite E; left).
  apply list_elem_of_filter in Hc as [<- Hc]. apply prefix_range; [done|].
  rewrite Forall_forall in v_codes. auto.
Qed.

Lemma used_len d p : used d p ↔ 0 < zlen (with_prefix B d p v).
Proof.
  unfold used, zlen. destruct (with_prefix B d p v); simpl; split; try done; lia.
Qed.

Lemma used_start d p p' :
  Z.of_nat d ≤ B → used d p → used d p' → start B v d p = start B v d p' → p = p'.
Proof.
  intros Hd Hu Hu' Hs. pose proof (used_range d p Hd Hu). pose proof (used_range d p' Hd Hu').
  rewrite used_len in Hu, Hu'.
  apply (seg_disjoint B v v_codes d p p' (start B v d p)); lia.
Qed.

Lemma reverse_range_fold tmp l rev0 :
  (∀ p p' b, (p, b) ∈ l → Some b ≠ IMap.get tmp p →
     (p', b) ∈ l ∨ IMap.get rev0 b = Some p' → Some b ≠ IMap.get tmp p' → p = p') →
  (∀ p b, IMap.get rev0 b = Some p → Some b ≠ IMap.get tmp p) → IMap.wf rev0 →
  let rev := foldl (λ range_rev '(range_key, value),
      if decide (Some value ≠ IMap.get tmp range_key)
      then IMap.put range_rev value range_key else range_rev) rev0 l in
  IMap.wf rev ∧ ∀ p b, IMap.get rev b = Some p ↔
    IMap.get rev0 b = Some p ∨ ((p, b) ∈ l ∧ Some b ≠ IMap.get tmp p).
Proof.
  revert rev0. induction l as [|[p1 b1] l IH]; intros rev0 Hinj Hu Hwf; simpl.
  { split; [done|]. intros. rewrite elem_of_nil. tauto. }
  case_decide as Hd.
  - destruct (IH (IMap.put rev0 b1 p1)) as [Hwf' Hrev].
    + intros p p' b Hin Hub Hp'. rewrite IMap.get_iput in Hp'. intros Hub'.
      apply (Hinj p p' b); [by right|done| |done].
      case_decide as Hb; [|set_solver]. destruct Hp' as [?|[= <-]]; [set_solver|].
      subst. left. left.
    + intros p b. rewrite IMap.get_iput. case_decide; [by intros [= <-]; subst|auto].
    + by apply IMap.iput_wf.
    + split; [done|]. intros p b. rewrite Hrev, IMap.get_iput, elem_of_cons.
      case_decide as Hb; [subst b1|naive_solver].
      split; [naive_solver|]. intros [Hr|[[[= ->]|?] ?]]; [|by left|by right].
      left. f_equal. apply (Hinj p1 p b); [left|done|by right|]. by apply Hu.
  - destruct (IH rev0) as [Hwf' Hrev]; [|done..|].
    + intros p p' b Hin Hub Hp'. apply Hinj; [by right|done|]. set_solver.
    + split; [done|]. intros p b. rewrite Hrev, elem_of_cons. naive_solver.
Qed.

(** The inverted table maps the start of every prefix in use to the prefix. *)
Lemma reverse_range_spec d range tmp :
  Z.of_nat d ≤ B → range_ok B v d range → counted d v range tmp →
  IMap.wf (reverse_range range tmp) ∧
  ∀ p b, IMap.get (reverse_range range tmp) b = Some p ↔ used d p ∧ b = start B v d p.
Proof.
  intros Hd HR Hcnt.
  assert (∀ p b, (p, b) ∈ range ∧ Some b ≠ IMap.get tmp p ↔ used d p ∧ b = start B v d p) as Hu.
  { intros p b. rewrite <- IMap.get_elem_of by apply HR. rewrite Hcnt, used_len. split.
    - intros [Hb Hne]. rewrite Hb in Hne. simpl in Hne.
      assert (0 < zlen (with_prefix B d p v)) as Hlen.
      { pose proof (zlen_nonneg (with_prefix B d p v)).
        destruct (decide (zlen (with_prefix B d p v) = 0)); [|lia]. destruct Hne. f_equal. lia. }
      split; [done|]. apply (range_start _ _ _ _ HR); [|done]. apply used_range; [done|]. by apply used_len.
    - intros [Hlen ->]. assert (used d p) as Hup by by apply used_len.
      rewrite (range_used _ _ _ _ HR p) by (done || by apply used_range). split; [done|].
      simpl. intros [= ?]. lia. }
  destruct (reverse_range_fold tmp range []) as [Hwf Hrev].
  - intros p p' b Hin Hne [Hin'|?] Hne'; [|done].
    destruct (proj1 (Hu p b)) as [H1 H2]; [done|]. destruct (proj1 (Hu p' b)) as [H1' H2']; [done|].
    apply (used_start d); [done..|congruence].
  - done.
  - apply IMap.wf_nil.
  - split; [done|]. intros p b. unfold reverse_range. rewrite Hrev, Hu. naive_solver.
Qed.

(** The entry of a prefix in the table of the next level. *)
Definition put_used (d : nat) (range : list (Z * Z)) (p : Z) : list (Z * Z) :=
  if decide (zlen (with_prefix B d p v) > 0) then IMap.put range p (start B v d p) else range.

Lemma get_put_used d range p p' :
  IMap.get (put_used d range p) p' =
    if decide (p = p' ∧ zlen (with_prefix B d p v) > 0) then Some (start B v d p) else IMap.get range p'.
Proof.
  unfold put_used. case_decide; rewrite ?IMap.get_iput; repeat case_decide; naive_solver.
Qed.

(** The two children of a prefix. *)
Lemma child_prefix d p (b : bool) :
  Z.of_nat d < B →
  with_prefix B (S d) (2 * p + Z.b2z b) v = with_bit B d b (with_prefix B d p v) ∧
  start B v (S d) (2 * p + Z.b2z b) = step B v d (start B v d p) b.
Proof.
  intros Hd.
  assert ((2 * p + Z.b2z b) / 2 = p ∧ Z.odd (2 * p + Z.b2z b) = b) as [Hdiv Hodd].
  { split; [destruct b; simpl Z.b2z; Z.div_mod_to_equations; lia|].
    rewrite Z.odd_add, Z.odd_mul. by destruct b. }
  rewrite with_prefix_S by done. simpl. by rewrite Hdiv, Hodd.
Qed.

Lemma split_range_spec d bv tmp range p :
  Z.of_nat d < B → level_ok B v d bv → used d p →
  IMap.get tmp p = Some (start B v d p + zlen (with_prefix B d p v)) →
  let cur := start B v d p in
  let cur' := cur + zlen (with_prefix B d p v) in
  split_range bv tmp (range, step B v d cur false, step B v d cur true) (cur, p) =
    Ret (put_used (S d) (put_used (S d) range (2 * p)) (2 * p + 1),
         step B v d cur' false, step B v d cur' true).
Proof.
  intros Hd Hlev Hu Htmp cur cur'. pose proof (used_range d p ltac:(lia) Hu) as Hp.
  pose proof (seg_start B v v_codes d p ltac:(lia) Hp) as Hseg. fold cur in Hseg.
  pose proof (seg_range _ _ _ Hseg) as Hr. rewrite zlen_level in Hr. fold cur' in Hr.
  assert (cur ≤ cur') by (unfold cur'; pose proof (zlen_nonneg (with_prefix B d p v)); lia).
  destruct (seg_step B v d cur false _ Hseg) as [_ H0].
  destruct (seg_step B v d cur true _ Hseg) as [_ H1]. fold cur' in H0, H1.
  pose proof (zlen_with_bit B d (with_prefix B d p v)) as Hsum.
  destruct (child_prefix d p false Hd) as [Hw0 Hs0]. destruct (child_prefix d p true Hd) as [Hw1 Hs1].
  simpl Z.b2z in *. rewrite Z.add_0_r in Hw0, Hs0. fold cur in Hs0, Hs1.
  pose proof (Z.pow_le_mono_r 2 (Z.of_nat d) 30).
  assert (∀ i, 0 ≤ i ≤ zlen v → BV.rank bv i false = Ret (step B v d i false)) as Hrank.
  { intros i Hi. rewrite (level_rank B v d bv _ _ Hlev) by lia. unfold step. by rewrite Z.add_0_r. }
  unfold split_range. rewrite Htmp. fold cur cur'. cbn [mbind outcome_bind of_option].
  rewrite !Hrank by lia. cbn [mbind outcome_bind]. rewrite js_shl_mul by lia.
  unfold put_used. rewrite Hw0, Hw1, Hs0, Hs1.
  set (z0 := zlen (with_bit B d false _)) in *. set (z1 := zlen (with_bit B d true _)) in *.
  pose proof (zlen_nonneg (with_bit B d false (with_prefix B d p v)) : 0 ≤ z0).
  pose proof (zlen_nonneg (with_bit B d true (with_prefix B d p v)) : 0 ≤ z1).
  replace (step B v d cur' false - step B v d cur false) with z0 by lia.
  replace (cur' - cur - z0) with z1 by (unfold cur'; lia). rewrite H0, H1, (Z.mul_comm p).
  change (2 ^ 1) with 2.
  do 2 case_decide; repeat f_equal; lia.
Qed.

(** The loop over the inverted table walks the segments of the level from left to
    right: [cur] is where the entries done so far end. *)
Record splitting (d : nat) (done todo range : list (Z * Z)) (cur : Z) : Prop := {
  splitting_done b p : (b, p) ∈ done → start B v d p + zlen (with_prefix B d p v) ≤ cur;
  splitting_todo b p : (b, p) ∈ todo → cur ≤ b;
  splitting_wf : IMap.wf range;
  splitting_sound p b : IMap.get range p = Some b → used (S d) p ∧ b = start B v (S d) p;
  splitting_complete b p : (b, p / 2) ∈ done → used (S d) p → IMap.get range p = Some (start B v (S d) p);
}.

(** The next entry starts where the previous ones end. *)
Lemma splitting_next d rev done b p todo range cur :
  Z.of_nat d < B → IMap.wf rev →
  (∀ p b, IMap.get rev b = Some p ↔ used d p ∧ b = start B v d p) →
  rev = done ++ (b, p) :: todo → splitting d done ((b, p) :: todo) range cur → 0 ≤ cur →
  used d p ∧ b = start B v d p ∧ cur = b.
Proof.
  intros Hd Hwf Hrev Heq HS Hcur.
  assert (used d p ∧ b = start B v d p) as [Hu Hb].
  { apply Hrev, IMap.get_elem_of; [done|]. rewrite Heq. set_solver. }
  pose proof (splitting_todo _ _ _ _ _ HS b p ltac:(left)) as Hle.
  pose proof (seg_range _ _ _ (seg_start B v v_codes d p ltac:(lia) (used_range d p ltac:(lia) Hu))) as Hr.
  rewrite zlen_level, <- Hb in Hr. apply used_len in Hu as Hlen.
  destruct (aget_is_Some (level B v d) cur) as [c Hc]; [rewrite zlen_level; lia|].
  pose proof (level_cover B v v_codes d cur c ltac:(lia) Hc) as Hcov. set (p0 := prefix B d c) in *.
  assert (used d p0) as Hu0 by (apply used_len; lia).
  assert ((start B v d p0, p0) ∈ rev) as Hin by by apply IMap.get_elem_of, Hrev.
  rewrite Heq in Hin. apply elem_of_app in Hin as [Hin|Hin].
  { apply (splitting_done _ _ _ _ _ HS) in Hin. lia. }
  split_and!; [done..|]. apply elem_of_cons in Hin as [[= ? ?]|Hin]; [lia|].
  pose proof (IMap.wf_order _ _ _ _ _ _ _ Hwf Heq Hin). lia.
Qed.

Lemma wf_put_used d range p : IMap.wf range → IMap.wf (put_used d range p).
Proof. unfold put_used. intros. case_decide; [by apply IMap.iput_wf|done]. Qed.

Lemma put_used_sound d range p :
  (∀ p b, IMap.get range p = Some b → used d p ∧ b = start B v d p) →
  ∀ p' b, IMap.get (put_used d range p) p' = Some b → used d p' ∧ b = start B v d p'.
Proof.
  intros Hr p' b. rewrite get_put_used. case_decide as Hd; [|apply Hr].
  destruct Hd as [<- Hlen]. intros [= <-]. split; [apply used_len; lia|done].
Qed.

Lemma put_used_complete d range p p' :
  used d p' → p' = p ∨ IMap.get range p' = Some (start B v d p') →
  IMap.get (put_used d range p) p' = Some (start B v d p').
Proof.
  rewrite used_len, get_put_used. intros Hu Hp. case_decide as Hd; [by destruct Hd as [-> _]|].
  destruct Hp as [->|]; [|done]. destruct Hd. split; [done|lia].
Qed.

Lemma splitting_step d rev done b p todo range cur :
  Z.of_nat d < B → IMap.wf rev →
  (∀ p b, IMap.get rev b = Some p ↔ used d p ∧ b = start B v d p) →
  rev = done ++ (b, p) :: todo → splitting d done ((b, p) :: todo) range cur → 0 ≤ cur →
  splitting d (done ++ [(b, p)]) todo
    (put_used (S d) (put_used (S d) range (2 * p)) (2 * p + 1)) (b + zlen (with_prefix B d p v)).
Proof.
  intros Hd Hwf Hrev Heq HS Hcur.
  destruct (splitting_next _ _ _ _ _ _ _ _ Hd Hwf Hrev Heq HS Hcur) as (Hu & Hb & ->).
  pose proof (used_range d p ltac:(lia) Hu) as Hp. apply used_len in Hu as Hlen. split.
  - intros b' p' [Hin|Hin]%elem_of_app.
    + apply (splitting_done _ _ _ _ _ HS) in Hin. lia.
    + apply list_elem_of_singleton in Hin as [= -> ->]. lia.
  - intros b' p' Hin. pose proof (IMap.wf_order _ _ _ _ _ _ _ Hwf Heq Hin) as Hlt.
    assert (used d p' ∧ b' = start B v d p') as [Hu' Hb'].
    { apply Hrev, IMap.get_elem_of; [done|]. rewrite Heq. set_solver. }
    pose proof (used_range d p' ltac:(lia) Hu'). apply used_len in Hu' as Hlen'.
    destruct (decide (b + zlen (with_prefix B d p v) ≤ b')) as [|Hgt]; [done|].
    assert (p = p') by (apply (seg_disjoint B v v_codes d p p' b'); lia). subst p'. lia.
  - do 2 apply wf_put_used. apply HS.
  - do 2 apply put_used_sound. apply HS.
  - intros b' p' [Hin|Hin]%elem_of_app Hu'.
    + do 2 (apply put_used_complete; [done|right]). by eapply (splitting_complete _ _ _ _ _ HS).
    + apply list_elem_of_singleton in Hin as [= -> Hp2].
      assert (p' = 2 * p ∨ p' = 2 * p + 1) as [Hp'|Hp'] by (Z.div_mod_to_equations; lia).
      * apply put_used_complete; [done|right]. apply put_used_complete; [done|by left].
      * apply put_used_complete; [done|by left].
Qed.

(** The table of the next level. *)
Lemma split_loop d bv tmp rev todo done range cur :
  Z.of_nat d < B → level_ok B v d bv → IMap.wf rev →
  (∀ p b, IMap.get rev b = Some p ↔ used d p ∧ b = start B v d p) →
  (∀ p, used d p → IMap.get tmp p = Some (start B v d p + zlen (with_prefix B d p v))) →
  rev = done ++ todo → splitting d done todo range cur → 0 ≤ cur →
  ∃ range' pos0 pos1,
    ofold (split_range bv tmp) (range, step B v d cur false, step B v d cur true) todo
      = Ret (range', pos0, pos1) ∧ range_ok B v (S d) range'.
Proof.
  intros Hd Hlev Hwf Hrev Htmp. revert done range cur.
  induction todo as [|[b p] todo IH]; intros done range cur Heq HS Hcur.
  - rewrite app_nil_r in Heq. subst done. do 3 eexists. split; [reflexivity|].
    assert (∀ p, used (S d) p → IMap.get range p = Some (start B v (S d) p)) as Hcomp.
    { intros p Hu. apply (splitting_complete _ _ _ _ _ HS (start B v d (p / 2))); [|done].
      apply IMap.get_elem_of, Hrev; [done|]. split; [|done]. unfold used in *.
      rewrite with_prefix_S in Hu by done. intros Hnil. by rewrite Hnil in Hu. }
    split; [apply HS| |by intros; apply Hcomp|by intros p b _ [_ ?]%(splitting_sound _ _ _ _ _ HS)].
    intros p [b Hb]. apply (splitting_sound _ _ _ _ _ HS) in Hb as [Hu _].
    apply used_range in Hu; [|lia]. pose proof (Z.pow_le_mono_r 2 (Z.of_nat (S d)) B). lia.
  - destruct (splitting_next _ _ _ _ _ _ _ _ Hd Hwf Hrev Heq HS Hcur) as (Hu & Hb & ->).
    pose proof (splitting_step _ _ _ _ _ _ _ _ Hd Hwf Hrev Heq HS Hcur) as HS'.
    cbn [ofold]. rewrite Hb, split_range_spec by auto. cbn [mbind outcome_bind].
    pose proof (zlen_nonneg (with_prefix B d p v)).
    apply (IH (done ++ [(b, p)])); [by rewrite <- app_assoc|by rewrite <- Hb|lia].
Qed.

Lemma placed_all d q : Z.of_nat d ≤ B → 0 ≤ q < zlen v → placed d v q.
Proof.
  intros Hd Hq. destruct (aget_is_Some (level B v d) q) as [c Hc]; [by rewrite zlen_level|].
  exists (prefix B d c). by apply level_cover.
Qed.

(** The matrix with its first [d] levels built. *)
Record building (wm : t) (d : nat) : Prop := {
  building_bitsize : _bitsize wm = B;
  building_size : _size wm = zlen v;
  building_bvs : zlen (_bv wm) = B;
  building_seps : zlen (_seps wm) = B;
  building_done d' : (d' < d)%nat → ∃ bv,
    aget (_bv wm) (Z.of_nat d') = Some bv ∧ level_ok B v d' bv ∧
    aget (_seps wm) (Z.of_nat d') = Some (zeros B v d');
  building_todo d' : (d ≤ d')%nat → Z.of_nat d' < B → aget (_bv wm) (Z.of_nat d') = Some BV.new;
  building_range : (1 ≤ d)%nat → range_ok B v d (_range wm);
}.

(** Storing the next level. *)
Lemma building_next wm d bv range :
  building wm d → Z.of_nat d < B → level_ok B v d bv → BV.size_of bv false = zeros B v d →
  range_ok B v (S d) range →
  building (mk (<[d := bv]> (_bv wm)) (<[d := BV.size_of bv false]> (_seps wm)) range
              (_bitsize wm) (_size wm)) (S d).
Proof.
  intros [H1 H2 H3 H4 H5 H6 H7] Hd Hlev Hsz HR.
  split; cbn [_bitsize _size _bv _seps _range]; rewrite ?zlen_insert; try done.
  - intros d' Hd'. rewrite !aget_insert_nat by lia.
    case_decide; [|apply H5; lia]. subst d'. exists bv. by rewrite Hsz.
  - intros d' Hd' Hd''. rewrite aget_insert_nat, decide_False by lia. apply H6; lia.
Qed.

Lemma build_level_spec wm d :
  building wm d → (1 ≤ d)%nat → Z.of_nat d < B →
  ∃ wm', build_level v wm (Z.of_nat d) = Ret wm' ∧ building wm' (S d).
Proof.
  intros Hwm Hd1 Hd. pose proof (building_range _ _ Hwm Hd1) as HR.
  destruct (fill_level_spec wm d (_range wm) [] v (_range wm) BV.new) as (tmp & bv0 & Hfill & Hcnt & Hf);
    [apply Hwm|done..| | |].
  { intros p. change (with_prefix B d p []) with (@nil Z). destruct (IMap.get _ p); simpl; [f_equal|done].
    change (zlen []) with 0. lia. }
  { apply filled_new. intros q [p Hq]. change (zlen (with_prefix B d p [])) with 0 in Hq. lia. }
  destruct (filled_level bv0 d _ Hf) as [Hlev Hsz]; [intros q; by apply placed_all; lia|].
  set (bv := BV.build bv0) in *.
  destruct (reverse_range_spec d _ _ ltac:(lia) HR Hcnt) as [Hwf Hrev].
  destruct (split_loop d bv tmp (reverse_range (_range wm) tmp) (reverse_range (_range wm) tmp) [] [] 0)
    as (range' & pos0 & pos1 & Hsplit & HR'); try done.
  { intros p Hu. rewrite Hcnt, (range_used _ _ _ _ HR p); [done| |done]. apply used_range; [lia|done]. }
  { split; [set_solver| |apply IMap.wf_nil|done|set_solver].
    intros b p [Hu ->]%IMap.get_elem_of%Hrev; [|done].
    pose proof (seg_range _ _ _ (seg_start B v v_codes d p ltac:(lia) (used_range d p ltac:(lia) Hu))). lia. }
  exists (mk (<[d := bv]> (_bv wm)) (<[d := BV.size_of bv false]> (_seps wm)) range' (_bitsize wm) (_size wm)).
  split; [|by apply building_next].
  unfold build_level. rewrite (building_todo _ _ Hwm d) by lia. cbn [of_option mbind outcome_bind].
  rewrite Hfill. cbn [mbind outcome_bind]. fold bv.
  pose proof (building_bvs _ _ Hwm). pose proof (building_seps _ _ Hwm).
  rewrite !aset_in_range, !Nat2Z.id by lia. cbn [mbind outcome_bind]. rewrite Hsz in *.
  rewrite !step_0 in Hsplit. rewrite Hsplit. done.
Qed.

Lemma range_first range :
  IMap.wf range → (∀ p, is_Some (IMap.get range p) → 0 ≤ p < 2 ^ B) →
  range_ok B v 1 (IMap.put (IMap.put range 0 0) 1 (zeros B v 0)).
Proof.
  intros Hwf Hkeys. pose proof (Z.pow_le_mono_r 2 1 B ltac:(lia) ltac:(lia)) as Hpow.
  assert (start B v 1 0 = 0 ∧ start B v 1 1 = zeros B v 0) as [H0 H1] by done.
  split.
  - by do 2 apply IMap.iput_wf.
  - intros p. rewrite !IMap.get_iput. repeat case_decide; subst; [lia|lia|auto].
  - intros p Hp _. rewrite !IMap.get_iput. assert (p = 0 ∨ p = 1) as [->| ->] by lia; repeat case_decide; try lia; congruence.
  - intros p b Hp. rewrite !IMap.get_iput. assert (p = 0 ∨ p = 1) as [->| ->] by lia; repeat case_decide; try lia; congruence.
Qed.

End build.

(** [build] stores the string, whatever the matrix held before. *)
Lemma build_repr wm v :
  let B := _bitsize wm in
  1 ≤ B ≤ 31 → Forall (λ c, 0 ≤ c < 2 ^ B) v → zlen v < 2 ^ 31 - 1 →
  IMap.wf (_range wm) → (∀ p, is_Some (IMap.get (_range wm) p) → 0 ≤ p < 2 ^ B) →
  ∃ wm', build wm v = Ret wm' ∧ repr wm' v ∧ _bitsize wm' = B.
Proof.
  intros B HB Hv Hlen Hwf Hkeys. unfold build, bitsize. cbn [clear _bitsize _range _bv _seps]. fold B.
  set (wm0 := mk (replicate (Z.to_nat B) BV.new) (replicate (Z.to_nat B) 0) (_range wm) B (zlen v)).
  rewrite aget_replicate by lia. cbn [of_option mbind outcome_bind].
  pose proof (fill_first_spec B v HB Hv Hlen wm0 [] v BV.new eq_refl eq_refl) as Hf.
  destruct (filled_level B v _ 0 _ (Hf ltac:(apply filled_new; intros q; change (zlen []) with 0; lia)))
    as [Hlev Hsz]; [done|]. clear Hf. change (zlen []) with 0 in Hlev, Hsz.
  set (bv0 := BV.build (fill_first wm0 0 v BV.new)) in *.
  rewrite !aset_in_range by (rewrite zlen_replicate; lia). cbn [mbind outcome_bind].
  pose proof (range_first B v HB (_range wm) Hwf Hkeys) as HR. rewrite <- Hsz in HR.
  assert (building B v wm0 0) as H0.
  { split; unfold wm0; cbn [_bv _seps _bitsize _size]; rewrite ?zlen_replicate; try done; try lia.
    intros d' _ Hd'. apply aget_replicate. lia. }
  pose proof (building_next B v wm0 0 bv0 _ H0 ltac:(lia) Hlev Hsz HR) as H1.
  destruct (ofold_inv (λ k wm, building B v wm (S k)) (build_level v)
    (seqZ 1 (B - 1)) _ H1) as (wm' & Hrun & Hdone).
  { intros k x wm1 Hx Hk. apply lookup_seqZ in Hx as [-> Hk'].
    replace (1 + Z.of_nat k) with (Z.of_nat (S k)) by lia. apply build_level_spec; try done; lia. }
  exists wm'. split; [exact Hrun|]. rewrite length_seqZ in Hdone.
  replace (S (Z.to_nat (B - 1))) with (Z.to_nat B) in Hdone by lia.
  destruct Hdone as [E1 E2 E3 E4 E5 E6 E7]. split; [|done].
  split; rewrite ?E1; try done; [|apply E7; lia]. intros d Hd. apply E5. lia.
Qed.

(** ** Saving and loading *)

Definition norm (wm : t) : t :=
  mk (BV.norm <$> _bv wm) (_seps wm) (_range wm) (_bitsize wm) (_size wm).

Lemma repr_norm wm v : repr wm v → repr (norm wm) v.
Proof.
  intros [H1 H2 H3 H4 H5 H6 H7 H8]. split; cbn [norm _bv _seps _range _bitsize _size]; try done.
  { by rewrite zlen_fmap. }
  intros d Hd. destruct (H7 d Hd) as (bv & Hbv & [Hwf Hb Hbits] & Hsep). exists (BV.norm bv).
  rewrite aget_fmap, Hbv. destruct (BV.norm_spec bv Hwf) as (?&?&?).
  split_and!; [done| |done]. split; [done..|congruence].
Qed.

Definition dump_string (wm : t) : outcome jsstr := '(s, _) ← dump wm None; Ret s.

Definition dump_entry (e : Z * Z) : jsstr := Bin.dump32bitNumber e.1 ++ Bin.dump32bitNumber e.2.

(** The file a matrix is saved as, from the dumps [ss] of its bit vectors. *)
Definition contents (wm : t) (ss : list jsstr) : jsstr :=
  Bin.dump16bitNumber (_bitsize wm) ++ Bin.dump32bitNumber (_size wm) ++
  concat ss ++ concat (Bin.dump32bitNumber <$> _seps wm) ++
  Bin.dump32bitNumber (zlen (_range wm)) ++ concat (dump_entry <$> _range wm).

Lemma dump_range_spec range r :
  ∃ r', dump_range range r = (concat (dump_entry <$> range), zlen range, r').
Proof.
  unfold dump_range.
  assert (∀ s n r0, ∃ r', foldl (λ '(range_contents, counter, report) '(key, value),
      (range_contents ++ Bin.dump32bitNumber key ++ Bin.dump32bitNumber value,
       counter + 1, Bin.report_opt report 4 4)) (s, n, r0) range
    = (s ++ concat (dump_entry <$> range), n + zlen range, r')) as H.
  { induction range as [|[k x] range IH]; intros s n r0; cbn [foldl fmap list_fmap concat].
    - exists r0. by rewrite app_nil_r, Z.add_0_r.
    - destruct (IH (s ++ Bin.dump32bitNumber k ++ Bin.dump32bitNumber x) (n + 1) (Bin.report_opt r0 4 4))
        as [r' ->]. exists r'. rewrite zlen_cons. unfold dump_entry at 2. simpl fst. simpl snd.
      rewrite <- !app_assoc, Z.add_assoc. done. }
  apply H.
Qed.

Lemma dump_vectors_spec wm ss s r :
  Forall2 (λ bv s, BV.dump_string bv = Ret s) (_bv wm) ss →
  ∃ r', ofold (dump_vector wm) (s, r) (seqZ 0 (zlen (_bv wm))) = Ret (s ++ concat ss, r').
Proof.
  intros HF. rewrite (ofold_index _ (λ '(s, r) bv, '(d, r) ← BV.dump bv r; Ret (s ++ d, r)));
    [|by intros [? ?] i bv; unfold dump_vector; intros ->].
  revert s r. induction HF as [|bv d bvs ss Hd _ IH]; intros s r; [exists r; by rewrite app_nil_r|].
  cbn [ofold concat]. destruct (BV.dump_report bv d r Hd) as [r1 ->]. cbn [mbind outcome_bind].
  destruct (IH (s ++ d) r1) as [r' Hr']. exists r'. rewrite <- app_assoc in Hr'. exact Hr'.
Qed.

Lemma dump_seps_spec wm s r :
  ∃ r', ofold (dump_sep wm) (s, r) (seqZ 0 (zlen (_seps wm)))
    = Ret (s ++ concat (Bin.dump32bitNumber <$> _seps wm), r').
Proof.
  rewrite (ofold_index _ (λ '(s, r) x, Ret (s ++ Bin.dump32bitNumber x, Bin.report_opt r 2 2)));
    [|by intros [? ?] i x; unfold dump_sep; intros ->].
  revert s r. induction (_seps wm) as [|x seps IH]; intros s r; csimpl; [exists r; by rewrite app_nil_r|].
  destruct (IH (s ++ Bin.dump32bitNumber x) (Bin.report_opt r 2 2)) as [r' Hr'].
  exists r'. rewrite <- app_assoc in Hr'. exact Hr'.
Qed.

(** The parts of a matrix are in the range their encodings need. *)
Lemma repr_vectors wm v : repr wm v → Forall BV.wf (_bv wm).
Proof.
  intros R. apply Forall_forall. intros bv [q Hq]%elem_of_aget. pose proof (aget_Some_range _ _ _ Hq).
  pose proof (repr_bvs _ _ R). destruct (repr_level _ _ R (Z.to_nat q)) as (bv' & Hbv & Hlev & _); [lia|].
  rewrite Z2Nat.id in Hbv by lia. simplify_eq. apply Hlev.
Qed.

Lemma repr_seps_range wm v : repr wm v → Forall (λ x, 0 ≤ x < 2 ^ 32) (_seps wm).
Proof.
  intros R. apply Forall_forall. intros x [q Hq]%elem_of_aget. pose proof (aget_Some_range _ _ _ Hq).
  pose proof (repr_seps _ _ R). destruct (repr_level _ _ R (Z.to_nat q)) as (bv' & _ & _ & Hsep); [lia|].
  rewrite Z2Nat.id in Hsep by lia. rewrite Hq in Hsep. injection Hsep as ->. unfold zeros.
  set (d := Z.to_nat q). pose proof (zlen_with_bit (_bitsize wm) d (level (_bitsize wm) v d)) as Hlen.
  rewrite zlen_level in Hlen. pose proof (repr_length _ _ R).
  pose proof (zlen_nonneg (with_bit (_bitsize wm) d true (level (_bitsize wm) v d))).
  pose proof (zlen_nonneg (with_bit (_bitsize wm) d false (level (_bitsize wm) v d))). lia.
Qed.

Lemma repr_entries wm v :
  repr wm v → Forall (λ e, 0 ≤ e.1 < 2 ^ 31 ∧ 0 ≤ e.2 < 2 ^ 31) (_range wm) ∧ zlen (_range wm) ≤ 2 ^ 31.
Proof.
  intros R. pose proof (repr_range _ _ R) as HR. pose proof (repr_bitsize _ _ R) as HB.
  pose proof (Z.pow_le_mono_r 2 (_bitsize wm) 31 ltac:(lia) ltac:(lia)) as Hpow.
  assert (∀ k x, (k, x) ∈ _range wm → 0 ≤ k < 2 ^ 31 ∧ 0 ≤ x < 2 ^ 31) as Hin.
  { intros k x Hx. apply IMap.get_elem_of in Hx; [|apply HR].
    pose proof (range_keys _ _ _ _ HR k ltac:(eauto)) as Hk. split; [lia|].
    assert (0 ≤ k < 2 ^ Z.of_nat (Z.to_nat (_bitsize wm))) as Hk' by (rewrite Z2Nat.id by lia; done).
    rewrite (range_start _ _ _ _ HR k x Hk' Hx).
    pose proof (seg_range _ _ _ (seg_start _ v (repr_codes _ _ R) (Z.to_nat (_bitsize wm)) k ltac:(lia) Hk')) as Hr.
    rewrite zlen_level in Hr. pose proof (repr_length _ _ R).
    pose proof (zlen_nonneg (with_prefix (_bitsize wm) (Z.to_nat (_bitsize wm)) k v)). lia. }
  split; [apply Forall_forall; intros [k x]; apply Hin|].
  replace (2 ^ 31) with (2 ^ 31 - 0) by lia. apply IMap.wf_length; [apply HR| |lia].
  intros k [[k' x] [-> Hx]]%list_elem_of_fmap. by apply (Hin _ x).
Qed.

(** Every dump of a matrix that holds a string is its [contents]. *)
Lemma dump_spec wm v :
  repr wm v → ∃ ss, Forall2 (λ bv s, BV.dump_string bv = Ret s) (_bv wm) ss ∧
    ∀ r, ∃ r', dump wm r = Ret (contents wm ss, r').
Proof.
  intros R. pose proof (repr_bvs _ _ R) as Hb. pose proof (repr_seps _ _ R) as Hs.
  pose proof (repr_vectors _ _ R) as Hwf.
  assert (∃ ss, Forall2 (λ bv s, BV.dump_string bv = Ret s) (_bv wm) ss) as [ss HF].
  { clear -Hwf. induction Hwf as [|bv bvs Hbv _ [ss IH]]; [by exists []|].
    destruct (Bin.codec_total (Codec := BV.codec_bitvector) bv Hbv) as [s Hs]. exists (s :: ss). by constructor. }
  exists ss. split; [done|]. intros r. unfold dump, bitsize. cbv zeta.
  set (s0 := Bin.dump16bitNumber (_bitsize wm) ++ Bin.dump32bitNumber (_size wm)).
  destruct (dump_vectors_spec wm ss s0 (Bin.report_opt r 3 3) HF) as [r1 H1].
  destruct (dump_seps_spec wm (s0 ++ concat ss) r1) as [r2 H2].
  destruct (dump_range_spec (_range wm) r2) as [r3 H3].
  rewrite Hb in H1. rewrite Hs in H2. unfold jsstr in *. rewrite H1. cbn [mbind outcome_bind].
  rewrite H2. cbn [mbind outcome_bind]. rewrite H3.
  eexists. unfold contents, s0. rewrite <- !app_assoc. done.
Qed.

Lemma load_vectors_spec data bvs ss a off acc :
  Forall BV.wf bvs → Forall2 (λ bv s, BV.dump_string bv = Ret s) bvs ss →
  has_at data off (concat ss) →
  ofold (load_vector data) (acc, off) (seqZ a (zlen bvs))
    = Ret (acc ++ (BV.norm <$> bvs), off + zlen (concat ss)).
Proof.
  intros Hwf HF. revert a off acc. induction HF as [|bv s bvs ss Hs _ IH]; intros a off acc Hat.
  { simpl. by rewrite app_nil_r, Z.add_0_r. }
  apply Forall_cons in Hwf as [Hbv Hwf]. simpl in Hat. apply has_at_app in Hat as [Hat1 Hat2].
  rewrite zlen_cons, seqZ_cons by (pose proof (zlen_nonneg bvs); lia). cbn [ofold].
  unfold load_vector at 2. rewrite (Bin.codec_load (Codec := BV.codec_bitvector) bv s) by done.
  cbn [mbind outcome_bind]. replace (Z.pred (1 + zlen bvs)) with (zlen bvs) by lia.
  rewrite IH by done. csimpl. rewrite <- app_assoc, zlen_app, Z.add_assoc. done.
Qed.

Lemma load_seps_spec data seps a off acc :
  Forall (λ x, 0 ≤ x < 2 ^ 32) seps → has_at data off (concat (Bin.dump32bitNumber <$> seps)) →
  ofold (load_sep data) (acc, off) (seqZ a (zlen seps)) = Ret (acc ++ seps, off + 2 * zlen seps).
Proof.
  intros HF. revert a off acc. induction HF as [|x seps Hx _ IH]; intros a off acc Hat.
  { simpl. by rewrite app_nil_r, Z.add_0_r. }
  cbn [fmap list_fmap concat] in Hat. apply has_at_app in Hat as [Hat1 Hat2]. rewrite Bin.zlen_dump32 in Hat2.
  rewrite zlen_cons, seqZ_cons by (pose proof (zlen_nonneg seps); lia). cbn [ofold].
  unfold load_sep at 2. rewrite (Bin.load32_dump32 x), Z.mod_small by done. cbn [mbind outcome_bind].
  replace (Z.pred (1 + zlen seps)) with (zlen seps) by lia.
  rewrite IH by done. rewrite <- app_assoc. do 2 f_equal. lia.
Qed.

Lemma load_range_spec data range a off acc :
  IMap.wf (acc ++ range) → Forall (λ e, 0 ≤ e.1 < 2 ^ 31 ∧ 0 ≤ e.2 < 2 ^ 31) range →
  has_at data off (concat (dump_entry <$> range)) →
  ofold (load_range data) (acc, off) (seqZ a (zlen range)) = Ret (acc ++ range, off + 4 * zlen range).
Proof.
  intros Hwf HF. revert a off acc Hwf.
  induction HF as [|[k x] range [Hk Hx] _ IH]; intros a off acc Hwf Hat.
  { simpl. by rewrite app_nil_r, Z.add_0_r. }
  simpl in Hk, Hx. cbn [fmap list_fmap concat] in Hat. unfold dump_entry at 1 in Hat. cbn [fst snd] in Hat.
  apply has_at_app in Hat as [Hat1 Hat3]. apply has_at_app in Hat1 as [Hat1 Hat2].
  rewrite Bin.zlen_dump32 in Hat2. rewrite zlen_app, !Bin.zlen_dump32 in Hat3.
  rewrite zlen_cons, seqZ_cons by (pose proof (zlen_nonneg range); lia). cbn [ofold].
  unfold load_range at 2. rewrite (Bin.load32_dump32 k data off), Z.mod_small by (done || lia).
  cbn [mbind outcome_bind]. rewrite (Bin.load32_dump32 x), Z.mod_small by (done || lia).
  cbn [mbind outcome_bind]. rewrite to_int32_small by lia.
  assert (acc ++ (k, x) :: range = (acc ++ [(k, x)]) ++ range) as Heq by by rewrite <- app_assoc.
  rewrite Heq in Hwf |- *. rewrite IMap.put_last.
  - replace (Z.pred (1 + zlen range)) with (zlen range) by lia. rewrite IH by done. do 2 f_equal. lia.
  - unfold IMap.wf, IMap.keys in *. rewrite fmap_app in Hwf. by apply StronglySorted_app_1_l in Hwf.
Qed.

#[local] Hint Rewrite Bin.zlen_dump32 Bin.zlen_dump16 : zlen.

Lemma zlen_concat_dump {A} (f : A → jsstr) n l :
  (∀ x, zlen (f x) = n) → zlen (concat (f <$> l)) = n * zlen l.
Proof.
  intros Hf. induction l as [|x l IH]; csimpl; [change (zlen []) with 0; lia|].
  rewrite zlen_app, zlen_cons, IH, Hf. lia.
Qed.

Instance codec_wavelet : Bin.Codec (λ wm, ∃ v, repr wm v) norm dump_string (load new).
Proof.
  split.
  - intros wm [v R]. destruct (dump_spec wm v R) as (ss & _ & Hd). destruct (Hd None) as [r Hr].
    exists (contents wm ss). unfold dump_string. by rewrite Hr.
  - intros wm s data off [v R] Hs Hat. destruct (dump_spec wm v R) as (ss & HF & Hd).
    destruct (Hd None) as [r Hr]. unfold dump_string in Hs. rewrite Hr in Hs.
    assert (s = contents wm ss) as -> by (cbn [mbind outcome_bind] in Hs; congruence). clear Hs Hr Hd r.
    pose proof (repr_bitsize _ _ R). pose proof (repr_size _ _ R). pose proof (repr_length _ _ R).
    pose proof (zlen_nonneg v). destruct (repr_entries _ _ R) as [Hent Hcount].
    pose proof (zlen_nonneg (_range wm)). unfold contents in Hat |- *. rewrite !has_at_app in Hat.
    autorewrite with zlen in *. rewrite !(zlen_concat_dump _ 2) in * by done.
    rewrite (zlen_concat_dump dump_entry 4) by done.
    destruct Hat as (Ha & Hb & Hc & Hd & He & Hf).
    unfold load. rewrite (Bin.load16_dump16 (_bitsize wm)), Z.mod_small by (done || lia).
    cbn [mbind outcome_bind].
    rewrite (Bin.load32_dump32 (_size wm)), Z.mod_small by (done || lia). cbn [mbind outcome_bind].
    rewrite <- (repr_bvs _ _ R), (load_vectors_spec data _ ss) by (done || by eapply repr_vectors).
    cbn [mbind outcome_bind].
    rewrite (repr_bvs _ _ R), <- (repr_seps _ _ R), load_seps_spec by (done || by eapply repr_seps_range).
    cbn [mbind outcome_bind].
    rewrite (Bin.load32_dump32 (zlen (_range wm))), Z.mod_small by (done || lia). cbn [mbind outcome_bind].
    rewrite load_range_spec; [|apply (repr_range _ _ R)|done|done]. cbn [mbind outcome_bind].
    rewrite to_int32_small by lia. unfold norm. rewrite (repr_seps _ _ R). do 2 f_equal. lia.
Qed.

Lemma rank_less_than_low_bits wm v i c :
  repr wm v → 0 ≤ c < 2 ^ 31 → rank_less_than wm i c = rank_less_than wm i (c mod 2 ^ _bitsize wm).
Proof.
  intros R Hc. pose proof (repr_bitsize _ _ R) as HB. unfold rank_less_than. do 2 (case_decide; [done|]).
  f_equal. apply ofold_ext. intros [[b e] r] d Hd. apply elem_of_seqZ in Hd. unfold bitsize in Hd.
  unfold rlt_step. assert (_uint2bit wm c d = _uint2bit wm (c mod 2 ^ _bitsize wm) d) as ->; [|done].
  pose proof (Z.mod_pos_bound c (2 ^ _bitsize wm) ltac:(apply Z.pow_pos_nonneg; lia)) as Hm.
  rewrite <- (Z2Nat.id d) by lia.
  rewrite !uint2bit_bitat by (lia || by eapply code_bound).
  unfold bitat. by rewrite Z.mod_pow2_bits_low by lia.
Qed.

Lemma setMaxCharCode_bits m :
  2 ≤ m ≤ 65536 → let B := _bitsize (setMaxCharCode new m) in 1 ≤ B ≤ 16 ∧ m ≤ 2 ^ B.
Proof.
  intros Hm. simpl. pose proof (Z.log2_up_spec m ltac:(lia)).
  pose proof (Z.log2_up_le_mono m 65536 ltac:(lia)). pose proof (Z.log2_up_le_mono 2 m ltac:(lia)).
  change (Z.log2_up 65536) with 16 in *. change (Z.log2_up 2) with 1 in *. lia.
Qed.

(** A matrix that holds a concrete string. *)
Tactic Notation "hold_string" constr(m) constr(v) "as" simple_intropattern(pat) :=
  destruct (build_repr (setMaxCharCode new m) v) as pat;
    [vm_compute; split; congruence|repeat constructor; vm_compute; congruence|vm_compute; reflexivity
    |apply IMap.wf_nil|intros ? [? Hget]; discriminate Hget|].

(** ** The properties of the wavelet matrix *)

(** C14: Refinement of a string.  Built for codes below [m], the matrix answers
    [size], [get], [rank] and [rank_less_than] as counting in the string does,
    and each of the queries throws past its range. *)
Theorem wavelet_refines (m : Z) (v : jsstr) :
  2 ≤ m ≤ 65536 → Forall (λ c, 0 ≤ c < m) v → zlen v < 2 ^ 31 - 1 →
  ∃ wm, build (setMaxCharCode new m) v = Ret wm ∧ size wm = zlen v ∧
  (∀ i c, aget v i = Some c → get wm i = Ret c) ∧
  (∀ i, zlen v ≤ i → get wm i = Throw "WaveletMatrix.get() : range error") ∧
  (∀ i c, 0 ≤ i ≤ zlen v → rank wm i c = Ret (zlen (filter (λ x, x = c) (take (Z.to_nat i) v)))) ∧
  (∀ i c, zlen v < i → rank wm i c = Throw "WaveletMatrix.rank(): range error") ∧
  (∀ i c, 0 ≤ i ≤ zlen v → 0 ≤ c < m →
     rank_less_than wm i c = Ret (zlen (filter (λ x, x < c) (take (Z.to_nat i) v)))) ∧
  (∀ i c, zlen v < i → rank_less_than wm i c = Throw "WaveletMatrix.rank_less_than(): range error").
Proof.
  intros Hm Hv Hlen. destruct (setMaxCharCode_bits m Hm) as [HB Hpow].
  destruct (build_repr (setMaxCharCode new m) v) as (wm & Hb & R & HBw);
    [lia| |done|apply IMap.wf_nil|by intros p [x Hx]|].
  { eapply Forall_impl; [exact Hv|]. simpl in *. lia. }
  exists wm. split; [done|]. pose proof (repr_size _ _ R) as Hsz. split_and!.
  - done.
  - apply get_code, R.
  - intros i Hi. unfold get, size. by rewrite decide_True by lia.
  - intros i c. by apply rank_code.
  - intros i c Hi. unfold rank, size. by rewrite decide_True by lia.
  - intros i c Hi Hc. apply rank_less_than_code; [done..|]. rewrite HBw. lia.
  - intros i c Hi. unfold rank_less_than, size. by rewrite decide_True by lia.
Qed.

Lemma wavelet_refines_witness :
  ∃ wm, build (setMaxCharCode new 7) [3; 1; 4; 1; 5] = Ret wm ∧ get wm 2 = Ret 4 ∧
        rank wm 4 1 = Ret 2 ∧ rank_less_than wm 5 4 = Ret 3.
Proof.
  destruct (wavelet_refines 7 [3; 1; 4; 1; 5]) as (wm & Hb & _ & Hget & _ & Hrank & _ & Hrlt & _);
    [lia|repeat constructor; lia|vm_compute; reflexivity|].
  exists wm. split_and!; [exact Hb|by apply Hget| |].
  - apply (Hrank 4 1). vm_compute. split; congruence.
  - apply (Hrlt 5 4); vm_compute; split; congruence.
Defined.

(** A matrix can be built again: whatever string it held before, after [build]
    it holds the new one, the leftover range entries notwithstanding. *)
Theorem wavelet_rebuild (wm : t) (u v : jsstr) :
  repr wm u → Forall (λ c, 0 ≤ c < 2 ^ bitsize wm) v → zlen v < 2 ^ 31 - 1 →
  ∃ wm', build wm v = Ret wm' ∧ repr wm' v.
Proof.
  intros R Hv Hlen. pose proof (repr_range _ _ R) as HR.
  destruct (build_repr wm v) as (wm' & Hb & R' & _); eauto; [apply R|apply HR|apply HR].
Qed.

Lemma wavelet_rebuild_witness :
  ∃ wm0 wm, build (setMaxCharCode new 2) [1; 0; 1] = Ret wm0 ∧ build wm0 [0; 0] = Ret wm ∧
            repr wm [0; 0].
Proof.
  hold_string 2 [1; 0; 1] as (wm0 & Hb0 & R0 & HB).
  destruct (wavelet_rebuild wm0 [1; 0; 1] [0; 0]) as (wm & Hb & R); [exact R0| |vm_compute; reflexivity|].
  - unfold bitsize. rewrite HB. repeat constructor; vm_compute; congruence.
  - exists wm0, wm. split_and!; assumption.
Defined.

(** [rank_less_than] reads only the low [bitsize] bits of its code: for any
    code it counts the codes below the remainder modulo [2 ^ bitsize], so that a
    bound above all stored codes, such as [2 ^ bitsize] itself, counts none. *)
Theorem rank_less_than_wraps (wm : t) (v : jsstr) (i c : Z) :
  repr wm v → 0 ≤ i ≤ zlen v → 0 ≤ c < 2 ^ 31 →
  rank_less_than wm i c
    = Ret (zlen (filter (λ x, x < c mod 2 ^ bitsize wm) (take (Z.to_nat i) v))).
Proof.
  intros R Hi Hc. rewrite (rank_less_than_low_bits _ v) by done.
  apply rank_less_than_code; [done..|]. apply Z.mod_pos_bound, Z.pow_pos_nonneg; [lia|].
  pose proof (repr_bitsize _ _ R). lia.
Qed.

Lemma rank_less_than_wraps_witness :
  ∃ wm, build (setMaxCharCode new 4) [3; 1; 2] = Ret wm ∧ rank_less_than wm 3 4 = Ret 0.
Proof.
  hold_string 4 [3; 1; 2] as (wm & Hb & R & HB).
  exists wm. split; [exact Hb|].
  rewrite (rank_less_than_wraps wm [3; 1; 2] 3 4 R); [|vm_compute; split; congruence|lia].
  unfold bitsize. rewrite HB. reflexivity.
Defined.

(** A matrix is read back from its dump at any position of a file, and holds
    the same string; the dump is the same with and without a report. *)
Theorem wavelet_roundtrip (wm : t) (v : jsstr) (r : option Bin.CompressionReport) (pre post : jsstr) :
  repr wm v →
  ∃ s r' wm', dump wm r = Ret (s, r') ∧
    load new (pre ++ s ++ post) (zlen pre) = Ret (wm', zlen pre + zlen s) ∧ repr wm' v.
Proof.
  intros R. destruct (dump_spec wm v R) as (ss & _ & Hd).
  destruct (Hd r) as [r' Hr']. destruct (Hd None) as [r0 Hr0].
  exists (contents wm ss), r', (norm wm). split_and!; [done| |by apply repr_norm].
  apply (Bin.codec_load (Codec := codec_wavelet) wm); [by exists v| |apply Bin.has_at_mid].
  unfold dump_string. by rewrite Hr0.
Qed.

Lemma wavelet_roundtrip_witness :
  ∃ wm s r' wm', build (setMaxCharCode new 4) [3; 1; 2] = Ret wm ∧ dump wm None = Ret (s, r') ∧
    load new ([9] ++ s ++ [8]) 1 = Ret (wm', 1 + zlen s) ∧ repr wm' [3; 1; 2].
Proof.
  hold_string 4 [3; 1; 2] as (wm & Hb & R & HB).
  destruct (wavelet_roundtrip wm [3; 1; 2] None [9] [8] R) as (s & r' & wm' & H1 & H2 & H3).
  exists wm, s, r', wm'. split_and!; assumption.
Defined.

End WM.
