(* ===== verification/Suffixes.v ===== *)
(** * Suffixes of a string and their order

    The specification the index is built on: the lexicographic order, suffix
    arrays, and the counting facts behind backward search.  Nothing here models
    code; [Sais] implements [sorted_suffixes] and [FMIndex] relies on it. *)

From S2P Require Import Prelude.

Local Open Scope Z_scope.

(** ** The lexicographic order *)

Fixpoint lex (a b : list Z) : bool :=
  match a, b with
  | _, [] => false
  | [], _ :: _ => true
  | x :: a, y :: b => bool_decide (x < y) || (bool_decide (x = y) && lex a b)
  end.

Notation "a ≺ b" := (lex a b = true) (at level 70) : Z_scope.

Lemma lex_cons x a y b : (x :: a) ≺ (y :: b) ↔ x < y ∨ (x = y ∧ a ≺ b).
Proof. simpl. rewrite orb_true_iff, andb_true_iff, !bool_decide_eq_true. done. Qed.

Lemma lex_irrefl a : ¬ a ≺ a.
Proof. induction a as [|x a IH]; [done|]. rewrite lex_cons. intros [?|[_ ?]]; [lia|auto]. Qed.

Lemma lex_trans a b c : a ≺ b → b ≺ c → a ≺ c.
Proof.
  revert b c. induction a as [|x a IH]; intros [|y b] [|z c]; try done.
  rewrite !lex_cons. intros [?|[-> ?]] [?|[-> ?]]; try (left; lia). right. split; [done|eauto].
Qed.

Lemma lex_total a b : a ≺ b ∨ a = b ∨ b ≺ a.
Proof.
  revert b. induction a as [|x a IH]; intros [|y b]; try by eauto.
  rewrite !lex_cons. destruct (Z.lt_total x y) as [?|[->|?]]; [by eauto| |by eauto].
  destruct (IH b) as [?|[->|?]]; eauto.
Qed.

Lemma lex_asym a b : a ≺ b → ¬ b ≺ a.
Proof. intros H1 H2. by apply (lex_irrefl a), (lex_trans _ b). Qed.

(** ** Suffix arrays *)

Definition sfx (T : list Z) (k : Z) : list Z := drop (Z.to_nat k) T.

Lemma sfx_cons T k c : aget T k = Some c → sfx T k = c :: sfx T (k + 1).
Proof.
  intros Hk. pose proof (aget_Some_range _ _ _ Hk). rewrite aget_nonneg in Hk by lia.
  unfold sfx. rewrite (drop_S _ c _ Hk). f_equal. f_equal. lia.
Qed.

Lemma sfx_inj T k k' :
  0 ≤ k ≤ zlen T → 0 ≤ k' ≤ zlen T → sfx T k = sfx T k' → k = k'.
Proof.
  intros Hk Hk' Heq. apply (f_equal zlen) in Heq. unfold sfx in Heq.
  rewrite !zlen_drop in Heq. lia.
Qed.

Record sorted_suffixes (T : list Z) (sa : list Z) : Prop := {
  sa_perm : sa ≡ₚ seqZ 0 (zlen T);
  sa_sorted : StronglySorted (λ i j, sfx T i ≺ sfx T j) sa;
}.

(** The strings the sort is called on: the end marker 0 is last and nowhere else. *)
Record marked (T : list Z) : Prop := {
  marked_end : aget T (zlen T - 1) = Some 0;
  marked_body k c : 0 ≤ k < zlen T - 1 → aget T k = Some c → 0 < c;
}.

Lemma marked_app T : Forall (λ c, 0 < c) T → marked (T ++ [0]).
Proof.
  intros HT. split.
  - rewrite zlen_app, aget_app_r by (change (zlen [0]) with 1; lia).
    replace (zlen T + zlen [0] - 1 - zlen T) with 0 by (change (zlen [0]) with 1; lia). done.
  - intros k c Hk. rewrite zlen_app in Hk. change (zlen [0]) with 1 in Hk.
    rewrite aget_app_l by lia. intros Hc%aget_elem_of. rewrite Forall_forall in HT. auto.
Qed.

(** ** Cuts

    [cut incl P s]: the string [s] lies below the pattern [P]; strings that start
    with [P] count as below when [incl] is set. *)
Fixpoint cut (incl : bool) (P s : list Z) : bool :=
  match P, s with
  | [], _ => incl
  | _ :: _, [] => true
  | p :: P, x :: s => bool_decide (x < p) || (bool_decide (x = p) && cut incl P s)
  end.

Lemma cut_cons incl p P x s :
  cut incl (p :: P) (x :: s) = true ↔ x < p ∨ (x = p ∧ cut incl P s = true).
Proof. simpl. rewrite orb_true_iff, andb_true_iff, !bool_decide_eq_true. done. Qed.

Lemma cut_lex P s : cut false P s = lex s P.
Proof.
  revert s. induction P as [|p P IH]; intros [|x s]; [done..|]. simpl. by rewrite IH.
Qed.

Lemma cut_prefix P s : cut true P s = true ↔ cut false P s = true ∨ P `prefix_of` s.
Proof.
  revert s. induction P as [|p P IH]; intros s.
  - simpl. split; [intros _; right; apply prefix_nil|done].
  - destruct s as [|x s]; [split; [by left|done]|]. rewrite !cut_cons, IH. split.
    + intros [?|[-> [?|?]]]; [by left; left|left; by right|right; by apply prefix_cons].
    + intros [[?|[-> ?]]|Hp]; [by left|right; by eauto|].
      apply prefix_cons_inv_1 in Hp as Hx. apply prefix_cons_inv_2 in Hp. subst. eauto.
Qed.

Lemma cut_not_prefix P s : cut false P s = true → ¬ P `prefix_of` s.
Proof.
  intros Hc [s' ->]. rewrite cut_lex in Hc. induction P as [|p P IH]; [by destruct s'|].
  rewrite <- app_comm_cons, lex_cons in Hc. destruct Hc as [?|[_ ?]]; [lia|auto].
Qed.

Lemma cut_down incl P s s' : cut incl P s = true → s' ≺ s → cut incl P s' = true.
Proof.
  revert s s'. induction P as [|p P IH]; intros s s'; [done|].
  destruct s' as [|x' s']; [done|]. destruct s as [|x s]; [done|].
  rewrite !cut_cons, lex_cons. intros [?|[-> ?]] [?|[-> ?]]; try (left; lia). right. eauto.
Qed.

(** ** Counting rows *)

(** On a sorted list, a property closed downwards holds on a prefix. *)
Lemma filter_take {A} (R : relation A) (P : A → Prop) `{!∀ x, Decision (P x)} (l : list A) :
  StronglySorted R l → (∀ x y, x ∈ l → y ∈ l → R x y → P y → P x) →
  filter P l = take (length (filter P l)) l.
Proof.
  induction 1 as [|x l _ IH Hall]; intros HP; [done|]. rewrite Forall_forall in Hall.
  rewrite filter_cons. case_decide as Hx.
  - simpl. f_equal. apply IH. intros y z Hy Hz. apply HP; by right.
  - rewrite filter_none; [done|]. apply Forall_forall. intros y Hy Hpy. apply Hx.
    eapply HP; [left|by right|by apply Hall|done].
Qed.

Lemma zlen_filter_perm {A} (P : A → Prop) `{!∀ x, Decision (P x)} (l l' : list A) :
  l ≡ₚ l' → zlen (filter P l) = zlen (filter P l').
Proof. intros Hp. unfold zlen. by rewrite Hp. Qed.

Lemma zlen_filter_fmap {A B} (f : A → B) (P : B → Prop) `{!∀ x, Decision (P x)} (l : list A) :
  zlen (filter P (f <$> l)) = zlen (filter (λ x, P (f x)) l).
Proof.
  induction l as [|x l IH]; [done|]. csimpl. rewrite !filter_cons.
  case_decide; rewrite ?zlen_cons; lia.
Qed.

Lemma zlen_filter_ext {A} (P Q : A → Prop) `{!∀ x, Decision (P x), !∀ x, Decision (Q x)} (l : list A) :
  (∀ x, x ∈ l → P x ↔ Q x) → zlen (filter P l) = zlen (filter Q l).
Proof.
  induction l as [|x l IH]; intros HPQ; [done|]. rewrite !filter_cons.
  specialize (IH ltac:(intros; apply HPQ; by right)). pose proof (HPQ x ltac:(left)).
  repeat case_decide; rewrite ?zlen_cons; try lia; tauto.
Qed.

(** Counting the disjoint union of two properties. *)
Lemma zlen_filter_or {A} (P Q S : A → Prop)
    `{!∀ x, Decision (P x), !∀ x, Decision (Q x), !∀ x, Decision (S x)} (l : list A) :
  (∀ x, x ∈ l → (S x ↔ P x ∨ Q x) ∧ ¬ (P x ∧ Q x)) →
  zlen (filter S l) = zlen (filter P l) + zlen (filter Q l).
Proof.
  induction l as [|x l IH]; intros HPQ; [done|]. rewrite !filter_cons.
  specialize (IH ltac:(intros; apply HPQ; by right)). pose proof (HPQ x ltac:(left)).
  repeat case_decide; rewrite ?zlen_cons; try lia; tauto.
Qed.

Section rows.
Context (T sa : list Z).
Hypothesis (T_marked : marked T).
Hypothesis (sa_ok : sorted_suffixes T sa).
Abbreviation n := (zlen T).

(** The character before a suffix, cyclically, and the string of them. *)
Definition before (k : Z) : Z := default 0 (aget T ((k - 1) mod n)).
Definition bwt : list Z := before <$> sa.

(** How many characters lie below [c], and how many suffixes below a cut. *)
Definition smaller (c : Z) : Z := zlen (filter (λ x, x < c) T).
Definition rows_below (incl : bool) (P : list Z) : Z :=
  zlen (filter (λ k, cut incl P (sfx T k) = true) (seqZ 0 n)).

Lemma length_positive : 0 < n.
Proof. destruct T_marked as [H _]. apply aget_Some_range in H. lia. Qed.

Lemma zlen_sa : zlen sa = n.
Proof.
  unfold zlen at 1. rewrite (sa_perm _ _ sa_ok), length_seqZ. apply Z2Nat.id, zlen_nonneg.
Qed.

Lemma zlen_bwt : zlen bwt = n.
Proof. unfold bwt. by rewrite zlen_fmap, zlen_sa. Qed.

Lemma elem_of_sa k : k ∈ sa ↔ 0 ≤ k < n.
Proof. rewrite (sa_perm _ _ sa_ok), elem_of_seqZ. lia. Qed.

Lemma sa_get i k : aget sa i = Some k → 0 ≤ i < n ∧ 0 ≤ k < n.
Proof.
  intros H. split; [rewrite <- zlen_sa; by eapply aget_Some_range|].
  by apply elem_of_sa, (aget_elem_of _ i).
Qed.

Lemma sa_row k : 0 ≤ k < n → ∃ i, aget sa i = Some k.
Proof. intros Hk. by apply elem_of_aget, elem_of_sa. Qed.

Lemma sa_nodup i j k : aget sa i = Some k → aget sa j = Some k → i = j.
Proof.
  intros Hi Hj. assert (NoDup sa) as Hnd by (rewrite (sa_perm _ _ sa_ok); apply NoDup_seqZ).
  pose proof (aget_Some_range _ _ _ Hi). pose proof (aget_Some_range _ _ _ Hj).
  rewrite aget_nonneg in Hi, Hj by lia. pose proof (NoDup_lookup _ _ _ _ Hnd Hi Hj). lia.
Qed.

Lemma take_rows incl P :
  take (Z.to_nat (rows_below incl P)) sa = filter (λ k, cut incl P (sfx T k) = true) sa.
Proof.
  unfold rows_below. rewrite <- (zlen_filter_perm _ sa) by apply sa_ok.
  unfold zlen. rewrite Nat2Z.id. symmetry. apply (filter_take _ _ _ (sa_sorted _ _ sa_ok)).
  intros x y _ _ Hlt Hy. by apply (cut_down _ _ (sfx T y)).
Qed.

Lemma rows_below_range incl P : 0 ≤ rows_below incl P ≤ n.
Proof.
  split; [apply zlen_nonneg|]. unfold rows_below.
  pose proof (length_filter (λ k, cut incl P (sfx T k) = true) (seqZ 0 n)).
  rewrite length_seqZ in *. unfold zlen in *. lia.
Qed.

Lemma row_cut incl P i k :
  aget sa i = Some k → cut incl P (sfx T k) = true ↔ i < rows_below incl P.
Proof.
  intros Hi. pose proof (sa_get _ _ Hi) as [Hr _]. pose proof (rows_below_range incl P).
  assert (k ∈ filter (λ k, cut incl P (sfx T k) = true) sa ↔ cut incl P (sfx T k) = true) as <-.
  { rewrite list_elem_of_filter. split; [tauto|]. intros; split; [done|]. by eapply aget_elem_of. }
  rewrite <- take_rows. split.
  - intros [j Hj]%elem_of_aget. pose proof (aget_Some_range _ _ _ Hj) as Hjr. rewrite zlen_take in Hjr.
    rewrite aget_take in Hj by lia. rewrite (sa_nodup _ _ _ Hi Hj). lia.
  - intros Hlt. apply (aget_elem_of _ i). rewrite aget_take by lia. done.
Qed.

(** The rows below a suffix are those before its own. *)
Lemma rows_below_self i k : aget sa i = Some k → rows_below false (sfx T k) = i.
Proof.
  intros Hi. pose proof (sa_get _ _ Hi) as [Hr _].
  pose proof (rows_below_range false (sfx T k)) as Hrange.
  destruct (Z.lt_total (rows_below false (sfx T k)) i) as [Hlt|[?|Hgt]]; [|done|].
  - set (j := rows_below false (sfx T k)) in *.
    destruct (aget_is_Some sa j) as [k' Hj]; [rewrite zlen_sa; lia|].
    assert (sfx T k' ≺ sfx T k) as Hlex.
    { pose proof (sa_sorted _ _ sa_ok) as Hs. apply aget_split in Hi as (l1 & l2 & Heq & Hl1).
      rewrite Heq in Hs. rewrite Heq, aget_app_l in Hj by lia.
      eapply StronglySorted_app_1_elem_of in Hs; [exact Hs|by eapply aget_elem_of|left]. }
    rewrite <- cut_lex in Hlex. apply (row_cut _ _ _ _ Hj) in Hlex. unfold j in Hlex. lia.
  - apply (row_cut _ _ _ _ Hi) in Hgt. rewrite cut_lex in Hgt. by apply lex_irrefl in Hgt.
Qed.

Lemma before_get k c : 0 < k < n → aget T (k - 1) = Some c → before k = c.
Proof. intros Hk Hc. unfold before. by rewrite Z.mod_small, Hc by lia. Qed.

Lemma before_0 : before 0 = 0.
Proof.
  unfold before. pose proof length_positive.
  replace ((0 - 1) mod n) with (n - 1).
  - by rewrite (marked_end _ T_marked).
  - rewrite <- (Z.mod_small (n - 1) n) at 1 by lia. rewrite <- (Z.add_0_r (0 - 1)).
    rewrite <- (Z.mod_same n) at 2 by lia. rewrite Zplus_mod_idemp_r. f_equal. lia.
Qed.

(** The transform is a permutation of the string. *)
Lemma bwt_perm : bwt ≡ₚ T.
Proof.
  unfold bwt. rewrite (sa_perm _ _ sa_ok). pose proof length_positive.
  rewrite seqZ_cons by lia. csimpl. rewrite before_0.
  destruct (aget_split T (n - 1) 0 (marked_end _ T_marked)) as (l1 & l2 & HT & Hl1).
  assert (l2 = []) as ->.
  { apply (f_equal zlen) in HT. autorewrite with zlen in HT. destruct l2; [done|]. rewrite zlen_cons in HT.
    pose proof (zlen_nonneg l2). lia. }
  assert (before <$> seqZ (Z.succ 0) (Z.pred n) = l1) as ->.
  { apply aget_ext; [rewrite zlen_fmap, zlen_seqZ by lia; lia|].
    intros i Hi. rewrite zlen_fmap, zlen_seqZ in Hi by lia.
    destruct (aget_is_Some l1 i) as [c Hc]; [lia|]. rewrite aget_fmap, aget_seqZ, Hc by lia. simpl. f_equal.
    apply before_get; [lia|]. replace (Z.succ 0 + i - 1) with i by lia. rewrite HT, aget_app_l by lia. done. }
  rewrite HT. by rewrite Permutation_app_comm.
Qed.

Lemma smaller_bwt c : zlen (filter (λ x, x < c) bwt) = smaller c.
Proof. apply zlen_filter_perm, bwt_perm. Qed.

(** [smaller] over positions. *)
Lemma smaller_positions c :
  smaller c = zlen (filter (λ k, default 0 (aget T k) < c) (seqZ 0 n)).
Proof.
  transitivity (zlen (filter (λ x, x < c) ((λ k, default 0 (aget T k)) <$> seqZ 0 n)));
    [|apply zlen_filter_fmap].
  unfold smaller. do 2 f_equal. apply aget_ext; [rewrite zlen_fmap, zlen_seqZ; pose proof length_positive; lia|].
  intros i Hi. rewrite aget_fmap, aget_seqZ by lia. cbn [fmap option_fmap option_map].
  rewrite Z.add_0_l. destruct (aget_is_Some T i Hi) as [x Hx]. by rewrite Hx.
Qed.

(** The rows of the suffixes [c :: P] cuts: those with a smaller first character,
    and those whose next suffix [P] cuts, counted in the transform. *)
Lemma rows_below_cons incl c P :
  0 < c →
  rows_below incl (c :: P) =
    smaller c + zlen (filter (λ x, x = c) (take (Z.to_nat (rows_below incl P)) bwt)).
Proof.
  intros Hc. pose proof length_positive as Hn. unfold rows_below at 1.
  transitivity (zlen (filter (λ k, default 0 (aget T k) < c) (seqZ 0 n)) +
    zlen (filter (λ k, aget T k = Some c ∧ cut incl P (sfx T (k + 1)) = true) (seqZ 0 n))).
  { apply zlen_filter_or. intros k Hk%elem_of_seqZ. destruct (aget_is_Some T k) as [x Hx]; [lia|].
       rewrite (sfx_cons _ _ _ Hx), cut_cons, Hx. simpl. split; [|intros [? [[= ->] _]]; lia].
       split; intros [?|[? ?]]; try (by left); right; [by subst|by simplify_eq]. }
  rewrite <- smaller_positions. f_equal.
  assert (seqZ 0 n = seqZ 0 (n - 1) ++ [n - 1]) as ->.
  { replace n with (n - 1 + 1) at 1 by lia. by rewrite seqZ_app by lia. }
  rewrite filter_app, zlen_app, (filter_cons_False _ (n - 1));
    [|rewrite (marked_end _ T_marked); naive_solver lia].
  change (zlen (filter _ [])) with 0. rewrite Z.add_0_r.
  unfold bwt. rewrite <- fmap_take, zlen_filter_fmap, take_rows, list_filter_filter.
  rewrite (zlen_filter_perm _ sa (seqZ 0 n)) by apply sa_ok.
  rewrite (seqZ_cons 0 n) by lia. rewrite (filter_cons_False _ 0) by (rewrite before_0; naive_solver lia).
  replace (Z.pred n) with (n - 1) by lia.
  change (Z.succ 0) with (1 + 0). rewrite <- (fmap_add_seqZ 1 0 (n - 1)), zlen_filter_fmap. apply zlen_filter_ext.
  intros k Hk%elem_of_seqZ. destruct (aget_is_Some T k) as [x Hx]; [lia|].
  rewrite (before_get (1 + k) x); [|lia|by replace (1 + k - 1) with k by lia].
  rewrite Hx, (Z.add_comm k). naive_solver.
Qed.

Lemma T_nonneg k c : aget T k = Some c → 0 ≤ c.
Proof.
  intros Hc. pose proof (aget_Some_range _ _ _ Hc). destruct (decide (k = n - 1)) as [->|].
  - rewrite (marked_end _ T_marked) in Hc. by simplify_eq.
  - pose proof (marked_body _ T_marked k c ltac:(lia) Hc). lia.
Qed.

Lemma before_pos k : 0 < k < n → 0 < before k.
Proof.
  intros Hk. destruct (aget_is_Some T (k - 1)) as [c Hc]; [lia|].
  rewrite (before_get k c) by done. apply (marked_body _ T_marked (k - 1)); [lia|done].
Qed.

Lemma smaller_0 : smaller 0 = 0.
Proof.
  unfold smaller. rewrite filter_none; [done|]. apply Forall_forall. intros c Hc.
  apply elem_of_aget in Hc as [k Hk]. apply T_nonneg in Hk. lia.
Qed.

(** The end marker is the first row. *)
Lemma first_row : aget sa 0 = Some (n - 1).
Proof.
  pose proof length_positive. destruct (sa_row (n - 1)) as [i Hi]; [lia|].
  pose proof (rows_below_self _ _ Hi) as Hr. rewrite <- Hr in Hi.
  assert (rows_below false (sfx T (n - 1)) = 0) as Hz; [|by rewrite Hz in Hi].
  unfold rows_below. rewrite filter_none; [done|]. apply Forall_forall. intros k Hk%elem_of_seqZ.
  rewrite cut_lex. destruct (aget_is_Some T k) as [c Hc]; [lia|].
  rewrite (sfx_cons _ _ _ (marked_end _ T_marked)), (sfx_cons _ _ _ Hc), lex_cons.
  replace (n - 1 + 1) with n by lia. unfold sfx at 2. rewrite (drop_ge T) by (unfold zlen; lia).
  apply T_nonneg in Hc. intros [?|[_ Hl]]; [lia|]. by destruct (sfx T (k + 1)).
Qed.

(** The last-to-first mapping steps from a suffix to the one before it. *)
Lemma LF_row i k :
  aget sa i = Some k →
  aget sa (smaller (before k) + zlen (filter (λ x, x = before k) (take (Z.to_nat i) bwt)))
    = Some ((k - 1) mod n).
Proof.
  intros Hi. pose proof (sa_get _ _ Hi) as [Hir Hk]. pose proof length_positive as Hn.
  destruct (decide (k = 0)) as [->|Hk0].
  - rewrite before_0, smaller_0, filter_none.
    + change (0 + zlen []) with 0. rewrite first_row. f_equal.
      rewrite <- (Z.mod_small (n - 1) n) by lia. rewrite <- (Z.mod_add (0 - 1) 1 n) by lia. f_equal. lia.
    + apply Forall_forall. intros c (j & Hj)%elem_of_aget ->.
      pose proof (aget_Some_range _ _ _ Hj) as Hjr. rewrite zlen_take in Hjr.
      rewrite aget_take in Hj by lia. unfold bwt in Hj. rewrite aget_fmap in Hj.
      destruct (aget sa j) as [k|] eqn:Hk'; [|done]. simpl in Hj.
      pose proof (sa_get _ _ Hk') as [_ Hkr]. destruct (decide (k = 0)) as [->|].
      * pose proof (sa_nodup _ _ _ Hi Hk'). lia.
      * pose proof (before_pos k ltac:(lia)). simplify_eq. lia.
  - destruct (aget_is_Some T (k - 1)) as [c Hc]; [lia|].
    rewrite (before_get k c), Z.mod_small by (done || lia).
    destruct (sa_row (k - 1)) as [i' Hi']; [lia|].
    rewrite <- (rows_below_self _ _ Hi) at 1. rewrite <- rows_below_cons.
    + replace k with (k - 1 + 1) at 1 by lia. rewrite <- (sfx_cons _ _ _ Hc).
      by rewrite (rows_below_self _ _ Hi').
    + apply (marked_body _ T_marked (k - 1)); [lia|done].
Qed.
End rows.
