(* ===== verification/Sais.v ===== *)
(** * Suffix array construction by induced sorting

    Models [src/misc/oktavia/src/sais.jsx].  The source sorts in place: the
    reduced string and its suffix array live in the array [SA] of the problem
    they come from, so the model threads one [heap] with the two arrays of the
    top call, and an [OArray] is a reference into it. *)

From S2P Require Import Prelude BitVector.

Local Open Scope Z_scope.

Module SAIS.

(** The arrays [charCodes] and [SA] of [make]. *)
Record heap := mkHeap { chars : list Z; sa : list Z }.

(** An [OArray]: which array it views, and from where. *)
Record OArray := mkO { in_sa : bool; offset : Z }.

Definition array (h : heap) (s : OArray) : list Z := if in_sa s then sa h else chars h.

Definition get (h : heap) (s : OArray) (index : Z) : outcome Z :=
  of_option (aget (array h s) (index + offset s)).

(** [SA[i] = x], for the whole array. *)
Definition store (h : heap) (i x : Z) : outcome heap :=
  l ← aset (sa h) i x; Ret (mkHeap (chars h) l).

Definition set (h : heap) (s : OArray) (index value : Z) : outcome heap :=
  if in_sa s then store h (index + offset s) value
  else l ← aset (chars h) (index + offset s) value; Ret (mkHeap l (sa h)).

Definition isS (h : heap) (s : OArray) (index : Z) : outcome bool :=
  x ← get h s index; y ← get h s (index + 1); Ret (bool_decide (x < y)).

Definition compare (h : heap) (s : OArray) (index1 index2 : Z) : outcome bool :=
  x ← get h s index1; y ← get h s index2; Ret (bool_decide (x = y)).

(** The indices of [for (i = hi - 1; i >= lo; i--)]. *)
Definition down (lo hi : Z) : list Z := reverse (seqZ lo (hi - lo)).

Definition _isLMS (t : BV.t) (i : Z) : outcome bool :=
  if decide (i > 0) then
    b ← BV.get t i;
    if (b : bool) then b' ← BV.get t (i - 1); Ret (negb b') else Ret false
  else Ret false.

(** Buckets: [bkt[x]++], returning the old value, and [--bkt[x]]. *)
Definition bump (bkt : list Z) (x : Z) : outcome (Z * list Z) :=
  p ← of_option (aget bkt x); bkt ← aset bkt x (p + 1); Ret (p, bkt).
Definition drop_one (bkt : list Z) (x : Z) : outcome (Z * list Z) :=
  p ← of_option (aget bkt x); bkt ← aset bkt x (p - 1); Ret (p - 1, bkt).

Definition _getBuckets (h : heap) (s : OArray) (n K : Z) (end_ : bool) : outcome (list Z) :=
  let bkt := replicate (Z.to_nat (K + 1)) 0 in
  bkt ← ofold (λ bkt i, c ← get h s i; '(_, bkt) ← bump bkt c; Ret bkt) bkt (seqZ 0 n);
  '(bkt, _) ← ofold (λ '(bkt, sum) i,
                x ← of_option (aget bkt i);
                bkt ← aset bkt i (if end_ then sum + x else sum + x - x);
                Ret (bkt, sum + x)) (bkt, 0) (seqZ 0 (K + 1));
  Ret bkt.

Definition induceSAl_step (t : BV.t) (s : OArray) (st : heap * list Z) (i : Z)
    : outcome (heap * list Z) :=
  let '(h, bkt) := st in
  x ← of_option (aget (sa h) i);
  let j := x - 1 in
  if decide (j >= 0) then
    b ← BV.get t j;
    if negb b then
      c ← get h s j;
      '(p, bkt) ← bump bkt c;
      h ← store h p j;
      Ret (h, bkt)
    else Ret (h, bkt)
  else Ret (h, bkt).

Definition _induceSAl (h : heap) (t : BV.t) (s : OArray) (n K : Z) (end_ : bool) : outcome heap :=
  bkt ← _getBuckets h s n K end_;
  '(h, _) ← ofold (induceSAl_step t s) (h, bkt) (seqZ 0 n);
  Ret h.

Definition induceSAs_step (t : BV.t) (s : OArray) (st : heap * list Z) (i : Z)
    : outcome (heap * list Z) :=
  let '(h, bkt) := st in
  x ← of_option (aget (sa h) i);
  let j := x - 1 in
  if decide (j >= 0) then
    b ← BV.get t j;
    if (b : bool) then
      c ← get h s j;
      '(p, bkt) ← drop_one bkt c;
      h ← store h p j;
      Ret (h, bkt)
    else Ret (h, bkt)
  else Ret (h, bkt).

Definition _induceSAs (h : heap) (t : BV.t) (s : OArray) (n K : Z) (end_ : bool) : outcome heap :=
  bkt ← _getBuckets h s n K end_;
  '(h, _) ← ofold (induceSAs_step t s) (h, bkt) (down 0 n);
  Ret h.

(** The types of the characters, from right to left. *)
Definition classify (h : heap) (s : OArray) (n : Z) : outcome BV.t :=
  let t := BV.set BV.new (n - 2) false in
  let t := BV.set t (n - 1) true in
  ofold (λ t i,
    b ← isS h s i;
    b ← (if (b : bool) then Ret true
         else e ← compare h s i (i + 1); if (e : bool) then BV.get t (i + 1) else Ret false);
    Ret (BV.set t i b)) t (down 0 (n - 2)).

(** [SA[i] = -1] for the indices from [lo] to [hi - 1]. *)
Definition fill (h : heap) (lo hi : Z) : outcome heap :=
  ofold (λ h i, store h i (-1)) h (seqZ lo (hi - lo)).

(** Each left-most S character at the end of its bucket. *)
Definition place_LMS (h : heap) (t : BV.t) (s : OArray) (bkt : list Z) (n : Z) : outcome heap :=
  '(h, _) ← ofold (λ '(h, bkt) i,
    b ← _isLMS t i;
    if (b : bool) then c ← get h s i; '(p, bkt) ← drop_one bkt c; h ← store h p i; Ret (h, bkt)
    else Ret (h, bkt)) (h, bkt) (seqZ 1 (n - 1));
  Ret h.

(** Compact the sorted LMS positions; the count is [n1]. *)
Definition compact (h : heap) (t : BV.t) (n : Z) : outcome (heap * Z) :=
  ofold (λ '(h, n1) i,
    x ← of_option (aget (sa h) i);
    b ← _isLMS t x;
    if (b : bool) then h ← store h n1 x; Ret (h, n1 + 1) else Ret (h, n1)) (h, 0) (seqZ 0 n).

(** The comparison of two LMS substrings, with [k] iterations left. *)
Fixpoint differ (k : nat) (h : heap) (t : BV.t) (s : OArray) (pos prev d : Z) : outcome bool :=
  match k with
  | O => Ret false
  | S k =>
    if decide (prev = -1) then Ret true
    else
      e ← compare h s (pos + d) (prev + d);
      if negb e then Ret true
      else
        b1 ← BV.get t (pos + d);
        b2 ← BV.get t (prev + d);
        if negb (Bool.eqb b1 b2) then Ret true
        else
          stop ← (if decide (d > 0) then
                    l1 ← _isLMS t (pos + d); if (l1 : bool) then Ret true else _isLMS t (prev + d)
                  else Ret false);
          if (stop : bool) then Ret false else differ k h t s pos prev (d + 1)
  end.

Definition name_step (t : BV.t) (s : OArray) (n n1 : Z) (st : heap * Z * Z) (i : Z)
    : outcome (heap * Z * Z) :=
  let '(h, name, prev) := st in
  pos ← of_option (aget (sa h) i);
  diff ← differ (Z.to_nat n) h t s pos prev 0;
  let '(name, prev) := if (diff : bool) then (name + 1, pos) else (name, prev) in
  let pos := if decide (js_rem pos 2 = 0) then pos / 2 else (pos - 1) / 2 in
  h ← store h (n1 + pos) (name - 1);
  Ret (h, name, prev).

(** Move the names to the end of the array. *)
Definition gather (h : heap) (n n1 : Z) : outcome heap :=
  '(h, _) ← ofold (λ '(h, j) i,
    x ← of_option (aget (sa h) i);
    if decide (x >= 0) then h ← store h j x; Ret (h, j - 1) else Ret (h, j)) (h, n - 1) (down n1 n);
  Ret h.

(** The positions of the LMS characters, in the order of the string, into [s1]. *)
Definition list_LMS (h : heap) (t : BV.t) (s1 : OArray) (n : Z) : outcome heap :=
  '(h, _) ← ofold (λ '(h, j) i,
    b ← _isLMS t i;
    if (b : bool) then h ← set h s1 j i; Ret (h, j + 1) else Ret (h, j)) (h, 0) (seqZ 1 (n - 1));
  Ret h.

(** Move the sorted LMS positions to the ends of their buckets. *)
Definition spread (h : heap) (s : OArray) (bkt : list Z) (n1 : Z) : outcome heap :=
  '(h, _) ← ofold (λ '(h, bkt) i,
    j ← of_option (aget (sa h) i);
    h ← store h i (-1);
    c ← get h s j;
    '(p, bkt) ← drop_one bkt c;
    h ← store h p j;
    Ret (h, bkt)) (h, bkt) (down 0 n1);
  Ret h.

(** Stage 1 of [_make]: sort the LMS substrings and name them; [s1] is then at the
    end of the array.  Returns the number of LMS characters and of names. *)
Definition name_LMS (h : heap) (t : BV.t) (s : OArray) (n K : Z) : outcome (heap * Z * Z) :=
  bkt ← _getBuckets h s n K true;
  h ← fill h 0 n;
  h ← place_LMS h t s bkt n;
  h ← _induceSAl h t s n K false;
  h ← _induceSAs h t s n K true;
  '(h, n1) ← compact h t n;
  h ← fill h n1 n;
  '(h, name, _) ← ofold (name_step t s n n1) (h, 0, -1) (seqZ 0 n1);
  h ← gather h n n1;
  Ret (h, n1, name).

(** Stage 3: induce the result from the suffix array of [s1]. *)
Definition induce_result (h : heap) (t : BV.t) (s s1 : OArray) (n n1 K : Z) : outcome heap :=
  bkt ← _getBuckets h s n K true;
  h ← list_LMS h t s1 n;
  h ← ofold (λ h i, x ← of_option (aget (sa h) i); y ← get h s1 x; store h i y) h (seqZ 0 n1);
  h ← fill h n1 n;
  h ← spread h s bkt n1;
  h ← _induceSAl h t s n K false;
  _induceSAs h t s n K true.

(** The recursion halves the length, so a fuel of [n] is never used up. *)
Fixpoint _make (fuel : nat) (h : heap) (s : OArray) (n K : Z) : outcome heap :=
  match fuel with
  | O => NoFuel
  | S fuel =>
    t ← classify h s n;
    '(h, n1, name) ← name_LMS h t s n K;
    (* stage 2: solve the reduced problem *)
    let s1 := mkO true (n - n1) in
    h ← (if decide (name < n1) then _make fuel h s1 n1 (name - 1)
         else ofold (λ h i, x ← get h s1 i; store h x i) h (seqZ 0 n1));
    induce_result h t s s1 n n1 K
  end.

(** The empty slots of [SA.length = source.length] are all written before any
    is read; they are modelled as zeros. *)
Definition make (source : jsstr) : outcome (list Z) :=
  let maxCode := foldl (λ maxCode code, if decide (code > maxCode) then code else maxCode) 0 source in
  let n := zlen source in
  h ← _make (S (length source)) (mkHeap source (replicate (length source) 0)) (mkO false 0) n maxCode;
  Ret (sa h).

End SAIS.
