(* ===== verification/SaisTypes.v ===== *)
(** * Types of characters and the strings induced sorting compares

    The combinatorics behind [Sais]: S-type and L-type characters, left-most
    S characters (LMS), the strings between them, and why sorting the string of
    their names sorts the suffixes.  Nothing here models code. *)

From S2P Require Import Prelude Suffixes.

Local Open Scope Z_scope.

(** [a] does not come after [b]. *)
Definition lle (a b : list Z) : Prop := ¬ b ≺ a.

Lemma lle_refl a : lle a a.
Proof. apply lex_irrefl. Qed.

Lemma lex_lle a b : a ≺ b → lle a b.
Proof. apply lex_asym. Qed.

Lemma lle_trans a b c : lle a b → lle b c → lle a c.
Proof.
  unfold lle. intros Hab Hbc Hca. destruct (lex_total a b) as [?|[->|?]]; [|done..].
  apply Hbc. by apply (lex_trans _ a).
Qed.

Lemma lle_cons x a b : lle a b ↔ lle (x :: a) (x :: b).
Proof. unfold lle. rewrite lex_cons. naive_solver lia. Qed.

Lemma lle_head x a y b : x < y → lle (x :: a) (y :: b).
Proof. unfold lle. rewrite lex_cons. lia. Qed.

Section types.
Context (S : list Z).
Hypothesis (S_marked : marked S).
Hypothesis (S_length : 2 ≤ zlen S).
Abbreviation n := (zlen S).

Definition chr (i : Z) : Z := default 0 (aget S i).

(** The sentinel is of type S, another character when its suffix comes before
    the next one. *)
Definition ty (i : Z) : bool := bool_decide (i = n - 1) || lex (sfx S i) (sfx S (i + 1)).

Definition lms (i : Z) : bool := bool_decide (0 < i) && ty i && negb (ty (i - 1)).

(** A character with its type, as one letter: L before S. *)
Definition ltr (i : Z) : Z := 2 * chr i + Z.b2z (ty i).

Lemma chr_get i : 0 ≤ i < n → aget S i = Some (chr i).
Proof. intros Hi. unfold chr. by destruct (aget_is_Some S i Hi) as [x ->]. Qed.

Lemma sfx_chr i : 0 ≤ i < n → sfx S i = chr i :: sfx S (i + 1).
Proof. intros Hi. by apply sfx_cons, chr_get. Qed.

Lemma sfx_end : sfx S n = [].
Proof. unfold sfx. apply drop_ge. unfold zlen. lia. Qed.

Lemma chr_last : chr (n - 1) = 0.
Proof. unfold chr. by rewrite (marked_end _ S_marked). Qed.

Lemma chr_pos i : 0 ≤ i < n - 1 → 0 < chr i.
Proof. intros Hi. apply (marked_body _ S_marked i); [done|]. apply chr_get. lia. Qed.

Lemma chr_nonneg i : 0 ≤ i < n → 0 ≤ chr i.
Proof. intros Hi. by apply (T_nonneg S S_marked i), chr_get. Qed.

Lemma ty_last : ty (n - 1) = true.
Proof. unfold ty. by rewrite bool_decide_eq_true_2. Qed.

Lemma ty_lex i : 0 ≤ i < n - 1 → ty i = lex (sfx S i) (sfx S (i + 1)).
Proof. intros Hi. unfold ty. by rewrite bool_decide_eq_false_2 by lia. Qed.

(** The rule the code classifies by. *)
Lemma ty_step i :
  0 ≤ i < n - 1 →
  ty i = bool_decide (chr i < chr (i + 1)) || (bool_decide (chr i = chr (i + 1)) && ty (i + 1)).
Proof.
  intros Hi. rewrite ty_lex by done.
  transitivity (lex (chr i :: sfx S (i + 1)) (chr (i + 1) :: sfx S (i + 1 + 1)));
    [by rewrite <- !sfx_chr by lia|]. cbn [lex]. f_equal. destruct (decide (i + 1 = n - 1)) as [Hl|Hl].
  - pose proof (chr_pos i Hi). rewrite (bool_decide_eq_false_2 (chr i = chr (i + 1))); [done|].
    rewrite Hl, chr_last. lia.
  - by rewrite ty_lex by lia.
Qed.

Lemma ty_penult : ty (n - 2) = false.
Proof.
  rewrite ty_step by lia. replace (n - 2 + 1) with (n - 1) by lia.
  pose proof (chr_pos (n - 2) ltac:(lia)). rewrite chr_last.
  by rewrite !bool_decide_eq_false_2 by lia.
Qed.

Lemma L_next i :
  0 ≤ i < n - 1 → ty i = false →
  chr (i + 1) ≤ chr i ∧ (chr (i + 1) = chr i → ty (i + 1) = false).
Proof.
  intros Hi. rewrite ty_step by done. rewrite orb_false_iff, andb_false_iff, !bool_decide_eq_false.
  intros [? [?|?]]; [split; lia|]. split; [lia|done].
Qed.

Lemma S_next i :
  0 ≤ i < n - 1 → ty i = true →
  chr i ≤ chr (i + 1) ∧ (chr (i + 1) = chr i → ty (i + 1) = true).
Proof.
  intros Hi. rewrite ty_step by done. rewrite orb_true_iff, andb_true_iff, !bool_decide_eq_true.
  intros [?|[? ?]]; split; try lia; done.
Qed.

Lemma ltr_inj i j : ltr i = ltr j → chr i = chr j ∧ ty i = ty j.
Proof. unfold ltr. destruct (ty i), (ty j); simpl Z.b2z; intros; (split; [lia|]); done || lia. Qed.

Lemma ltr_last j : 0 ≤ j < n → ltr j = ltr (n - 1) → j = n - 1.
Proof.
  intros Hj [Hc _]%ltr_inj. rewrite chr_last in Hc. pose proof (chr_pos j). lia.
Qed.

Lemma lms_inv i : lms i = true → 0 < i ∧ ty i = true ∧ ty (i - 1) = false.
Proof.
  unfold lms. rewrite !andb_true_iff, bool_decide_eq_true, negb_true_iff. tauto.
Qed.

Lemma lms_intro i : 0 < i → ty i = true → ty (i - 1) = false → lms i = true.
Proof. unfold lms. intros. rewrite bool_decide_eq_true_2 by done. by rewrite H0, H1. Qed.

Lemma lms_last : lms (n - 1) = true.
Proof.
  apply lms_intro; [lia|apply ty_last|]. replace (n - 1 - 1) with (n - 2) by lia. apply ty_penult.
Qed.

(** After an L character comes an L or an LMS character; after an S character,
    one that is not LMS. *)
Lemma after_L i : 0 ≤ i < n - 1 → ty i = false → ty (i + 1) = false ∨ lms (i + 1) = true.
Proof.
  intros Hi HL. destruct (ty (i + 1)) eqn:Ht; [right|by left].
  apply lms_intro; [lia|done|]. by replace (i + 1 - 1) with i by lia.
Qed.

Lemma after_S i : ty i = true → lms (i + 1) = false.
Proof.
  intros HS. unfold lms. replace (i + 1 - 1) with i by lia. by rewrite HS, andb_false_r.
Qed.

(** ** Typed suffixes *)

Definition usfx (i : Z) : list Z := ltr <$> seqZ i (n - i).

Lemma usfx_cons i : i < n → usfx i = ltr i :: usfx (i + 1).
Proof.
  intros Hi. unfold usfx. rewrite seqZ_cons by lia. csimpl.
  by replace (Z.pred (n - i)) with (n - (i + 1)) by lia.
Qed.

Lemma usfx_end : usfx n = [].
Proof. unfold usfx. by rewrite seqZ_nil by lia. Qed.

(** With the same first character, L-type suffixes come before S-type ones. *)
Lemma L_before_S i j :
  0 ≤ i < n → 0 ≤ j < n → chr i = chr j → ty i = false → ty j = true → sfx S i ≺ sfx S j.
Proof.
  remember (Z.to_nat (n - i)) as k eqn:Hk. revert i j Hk.
  induction k as [|k IH]; intros i j Hk Hi Hj Hc HL HS; [lia|].
  assert (i ≠ n - 1) by (intros ->; rewrite ty_last in HL; done).
  assert (j ≠ n - 1).
  { intros ->. rewrite chr_last in Hc. pose proof (chr_pos i). lia. }
  destruct (L_next i ltac:(lia) HL) as [Hi1 Hi2]. destruct (S_next j ltac:(lia) HS) as [Hj1 Hj2].
  rewrite (sfx_chr i), (sfx_chr j), lex_cons by done. right. split; [done|].
  destruct (decide (chr (i + 1) < chr (j + 1))).
  - rewrite (sfx_chr (i + 1)), (sfx_chr (j + 1)), lex_cons by lia. by left.
  - apply IH; [lia..| |]; [apply Hi2; lia|apply Hj2; lia].
Qed.

(** Types do not change the order of suffixes. *)
Lemma usfx_lex i j : 0 ≤ i ≤ n → 0 ≤ j ≤ n → usfx i ≺ usfx j → sfx S i ≺ sfx S j.
Proof.
  remember (Z.to_nat (n - i)) as k eqn:Hk. revert i j Hk.
  induction k as [|k IH]; intros i j Hk Hi Hj Hlt.
  - replace i with n by lia. rewrite sfx_end. replace i with n in Hlt by lia. rewrite usfx_end in Hlt.
    destruct (decide (j = n)) as [->|]; [by rewrite usfx_end in Hlt|]. by rewrite sfx_chr by lia.
  - destruct (decide (j = n)) as [->|]; [by rewrite usfx_end, (usfx_cons i) in Hlt by lia|].
    rewrite (usfx_cons i), (usfx_cons j), lex_cons in Hlt by lia.
    destruct Hlt as [Hlt|[Heq Hlt]].
    + unfold ltr in Hlt. destruct (decide (chr i = chr j)) as [Hc|Hc].
      * apply L_before_S; try lia; destruct (ty i), (ty j); simpl in Hlt; done || lia.
      * rewrite (sfx_chr i), (sfx_chr j), lex_cons by lia. left. destruct (ty i), (ty j); simpl in Hlt; lia.
    + apply ltr_inj in Heq as [Hc _]. rewrite (sfx_chr i), (sfx_chr j), lex_cons by lia. right.
      split; [done|]. apply IH; lia || done.
Qed.

(** ** The string from a position to the next LMS character *)

Fixpoint rest_at (k : nat) (i : Z) : list Z :=
  match k with
  | O => []
  | Datatypes.S k => ltr i :: if lms i then [] else rest_at k (i + 1)
  end.

(** [rest i] runs up to the first LMS character from [i] on, [sub i] up to the
    first one after [i]. *)
Definition rest (i : Z) : list Z := rest_at (Z.to_nat (n - i)) i.
Definition sub (i : Z) : list Z := ltr i :: rest (i + 1).

Lemma rest_eq i : 0 ≤ i < n → rest i = ltr i :: if lms i then [] else rest (i + 1).
Proof.
  intros Hi. unfold rest. replace (Z.to_nat (n - i)) with (Datatypes.S (Z.to_nat (n - (i + 1)))) by lia.
  done.
Qed.

Lemma rest_end : rest n = [].
Proof. unfold rest. by rewrite Z.sub_diag. Qed.

Lemma rest_sub i : 0 ≤ i < n → lms i = false → rest i = sub i.
Proof. intros Hi Hl. by rewrite rest_eq, Hl. Qed.

Lemma sub_S i : 0 ≤ i < n - 1 → ty i = true → sub i = ltr i :: sub (i + 1).
Proof. intros Hi HS. unfold sub at 1. by rewrite rest_sub by (lia || by apply after_S). Qed.

Lemma sub_L i : 0 ≤ i < n → ty i = false → sub i = rest i.
Proof. intros Hi HL. symmetry. apply rest_sub; [done|]. unfold lms. by rewrite HL, andb_false_r. Qed.

(** Letters and the types before them tell LMS characters. *)
Lemma lms_ltr i j : 0 < i → 0 < j → ltr i = ltr j → ty (i - 1) = ty (j - 1) → lms i = lms j.
Proof.
  intros Hi Hj [_ Ht]%ltr_inj Hp. unfold lms. rewrite !bool_decide_eq_true_2 by done. by rewrite Ht, Hp.
Qed.

Lemma not_lms_inner i : 0 ≤ i < n → lms i = false → i < n - 1.
Proof. intros Hi Hl. destruct (decide (i = n - 1)) as [->|]; [by rewrite lms_last in Hl|lia]. Qed.

Lemma rest_prefix i j :
  0 < i < n → 0 < j < n → ty (i - 1) = ty (j - 1) → rest i `prefix_of` rest j → rest i = rest j.
Proof.
  remember (Z.to_nat (n - i)) as k eqn:Hk. revert i j Hk.
  induction k as [|k IH]; intros i j Hk Hi Hj Ht Hp; [lia|].
  rewrite (rest_eq i), (rest_eq j) in * by lia. pose proof (prefix_cons_inv_1 _ _ _ _ Hp) as Heq.
  apply prefix_cons_inv_2 in Hp. rewrite (lms_ltr i j) in * by (done || lia).
  destruct (lms j) eqn:Hl; [by rewrite Heq|]. f_equal; [done|].
  pose proof (not_lms_inner j ltac:(lia) Hl). rewrite <- (lms_ltr i j) in Hl by (done || lia).
  pose proof (not_lms_inner i ltac:(lia) Hl). apply IH; [lia..| |done].
  replace (i + 1 - 1) with i by lia. replace (j + 1 - 1) with j by lia. by apply ltr_inj.
Qed.

Lemma sub_last : sub (n - 1) = [ltr (n - 1)].
Proof. unfold sub. replace (n - 1 + 1) with n by lia. by rewrite rest_end. Qed.

Lemma sub_prefix x y : 0 ≤ x < n → 0 ≤ y < n → sub x `prefix_of` sub y → sub x = sub y.
Proof.
  intros Hx Hy Hp. pose proof (prefix_cons_inv_1 _ _ _ _ Hp) as Heq.
  destruct (decide (x = n - 1)) as [->|Hxn]; [by rewrite (ltr_last y) by done|].
  destruct (decide (y = n - 1)) as [->|Hyn]; [by rewrite (ltr_last x) by done|].
  apply prefix_cons_inv_2 in Hp. unfold sub. f_equal; [done|]. apply rest_prefix; [lia..| |done].
  replace (x + 1 - 1) with x by lia. replace (y + 1 - 1) with y by lia. by apply ltr_inj.
Qed.

(** ** Sorting the string of names *)

Definition lmslist : list Z := filter (λ i, lms i = true) (seqZ 0 n).

Lemma elem_of_lmslist x : x ∈ lmslist ↔ 0 ≤ x < n ∧ lms x = true.
Proof. unfold lmslist. rewrite list_elem_of_filter, elem_of_seqZ. naive_solver lia. Qed.
End types.

Lemma lex_app_prefix a b c d : a ≺ b → ¬ a `prefix_of` b → (a ++ c) ≺ (b ++ d).
Proof.
  revert b. induction a as [|x a IH]; intros [|y b] Hlt Hp; try done.
  { destruct Hp. apply prefix_nil. }
  rewrite <- !app_comm_cons, lex_cons in *. destruct Hlt as [?|[-> Hlt]]; [by left|].
  right. split; [done|]. apply IH; [done|]. intros ?. by apply Hp, prefix_cons.
Qed.

Lemma lex_app_same a c d : (a ++ c) ≺ (a ++ d) ↔ c ≺ d.
Proof. induction a as [|x a IH]; [done|]. rewrite <- !app_comm_cons, lex_cons, IH. naive_solver lia. Qed.

Lemma seqZ_sorted a k : StronglySorted Z.lt (seqZ a k).
Proof.
  unfold seqZ. generalize (Z.to_nat k) as m. intros m.
  assert (∀ b m, StronglySorted Z.lt ((λ i : nat, Z.of_nat i + a) <$> seq b m)) as H; [|apply H].
  intros b m'. revert b. induction m' as [|m' IH]; intros b; csimpl; constructor; [apply IH|].
  apply Forall_fmap, Forall_forall. intros i Hi%elem_of_seq. simpl. lia.
Qed.

Lemma StronglySorted_filter {A} (R : relation A) (P : A → Prop) `{!∀ x, Decision (P x)} l :
  StronglySorted R l → StronglySorted R (filter P l).
Proof.
  induction 1 as [|x l _ IH Hall]; [constructor|]. rewrite filter_cons. case_decide; [|done].
  constructor; [done|]. apply Forall_forall. intros y Hy%list_elem_of_filter.
  rewrite Forall_forall in Hall. naive_solver.
Qed.

Section reduction.
Context (S : list Z).
Hypothesis (S_marked : marked S).
Hypothesis (S_length : 2 ≤ zlen S).
Abbreviation n := (zlen S).
Abbreviation ltr := (ltr S).
Abbreviation lms := (lms S).

Lemma lmslist_sorted : StronglySorted Z.lt (lmslist S).
Proof. apply StronglySorted_filter, seqZ_sorted. Qed.

Lemma lmslist_gap P x x' Q :
  lmslist S = P ++ x :: x' :: Q → x < x' ∧ ∀ z, x < z < x' → lms z = false.
Proof.
  intros Heq. pose proof lmslist_sorted as Hs. rewrite Heq in Hs.
  assert (∀ z, z ∈ P → z < x) as HP.
  { intros z Hz. eapply StronglySorted_app_1_elem_of in Hs; [exact Hs|done|left]. }
  apply StronglySorted_app_1_r, StronglySorted_inv in Hs as [Hs Hall].
  apply Forall_cons in Hall as [Hlt _]. apply StronglySorted_inv in Hs as [_ Hall].
  rewrite Forall_forall in Hall. split; [done|]. intros z Hz.
  destruct (lms z) eqn:Hl; [|done]. exfalso.
  assert (x' ∈ lmslist S) as Hx' by (rewrite Heq; set_solver).
  assert (x ∈ lmslist S) as Hx by (rewrite Heq; set_solver).
  apply (elem_of_lmslist S) in Hx' as [Hx' _]. apply (elem_of_lmslist S) in Hx as [Hx _].
  assert (z ∈ lmslist S) as Hin by (apply elem_of_lmslist; split; [lia|done]).
  rewrite Heq in Hin. apply elem_of_app in Hin as [Hin|Hin]; [apply HP in Hin; lia|].
  apply elem_of_cons in Hin as [?|Hin]; [lia|]. apply elem_of_cons in Hin as [?|Hin]; [lia|].
  apply Hall in Hin. lia.
Qed.

Lemma lmslist_final P x : lmslist S = P ++ [x] → x = n - 1.
Proof.
  intros Heq. pose proof lmslist_sorted as Hs. rewrite Heq in Hs.
  assert (n - 1 ∈ lmslist S) as Hin by (apply elem_of_lmslist; split; [lia|by apply lms_last]).
  assert (x ∈ lmslist S) as Hx by (rewrite Heq; set_solver).
  apply (elem_of_lmslist S) in Hx as [Hx _].
  rewrite Heq in Hin. apply elem_of_app in Hin as [Hin|Hin]; [|by apply list_elem_of_singleton in Hin].
  eapply StronglySorted_app_1_elem_of in Hs; [|exact Hin|left]. lia.
Qed.

(** The string from one LMS character to the next. *)
Lemma rest_body i x' :
  0 ≤ i ≤ x' → x' < n → lms x' = true → (∀ z, i ≤ z < x' → lms z = false) →
  rest S i = (ltr <$> seqZ i (x' - i)) ++ [ltr x'] ∧ usfx S i = (ltr <$> seqZ i (x' - i)) ++ usfx S x'.
Proof.
  remember (Z.to_nat (x' - i)) as k eqn:Hk. revert i Hk.
  induction k as [|k IH]; intros i Hk Hi Hx Hl Hgap.
  - replace i with x' by lia. rewrite (rest_eq S) by lia. by rewrite Hl, Z.sub_diag.
  - destruct (IH (i + 1)) as [IH1 IH2]; [lia|lia|done|done|intros; apply Hgap; lia|].
    rewrite (rest_eq S i), (Hgap i), IH1, (usfx_cons S i), IH2 by lia.
    rewrite (seqZ_cons i) by lia. csimpl. by replace (Z.pred (x' - i)) with (x' - (i + 1)) by lia.
Qed.

Lemma sub_body x x' :
  0 ≤ x < x' → x' < n → lms x' = true → (∀ z, x < z < x' → lms z = false) →
  sub S x = (ltr <$> seqZ x (x' - x)) ++ [ltr x'] ∧ usfx S x = (ltr <$> seqZ x (x' - x)) ++ usfx S x'.
Proof.
  intros Hx Hn Hl Hgap. destruct (rest_body (x + 1) x') as [H1 H2]; [lia|done|done|intros; apply Hgap; lia|].
  unfold sub. rewrite H1, (usfx_cons S x), H2 by lia. rewrite (seqZ_cons x) by lia. csimpl.
  by replace (Z.pred (x' - x)) with (x' - (x + 1)) by lia.
Qed.

Lemma rest_usfx i : 0 ≤ i ≤ n → ∃ t, usfx S i = rest S i ++ t.
Proof.
  remember (Z.to_nat (n - i)) as k eqn:Hk. revert i Hk. induction k as [|k IH]; intros i Hk Hi.
  - replace i with n by lia. rewrite usfx_end, (rest_end S). by exists [].
  - rewrite (usfx_cons S), (rest_eq S) by lia. destruct (lms i); [eexists; done|].
    destruct (IH (i + 1)) as [t ->]; [lia..|]. by exists t.
Qed.

Lemma sub_lex x y : 0 ≤ x < n → 0 ≤ y < n → sub S x ≺ sub S y → usfx S x ≺ usfx S y.
Proof.
  intros Hx Hy Hlt. destruct (rest_usfx (x + 1)) as [t Ht]; [lia|]. destruct (rest_usfx (y + 1)) as [t' Ht']; [lia|].
  rewrite (usfx_cons S x), (usfx_cons S y) by lia. rewrite Ht, Ht'. apply (lex_app_prefix (sub S x) (sub S y)); [done|].
  intros Hp. apply (sub_prefix S) in Hp; [|done..]. rewrite Hp in Hlt. by apply lex_irrefl in Hlt.
Qed.

Context (nm : Z → Z).
Hypothesis (nm_lt : ∀ x y, x ∈ lmslist S → y ∈ lmslist S → nm x < nm y → sub S x ≺ sub S y).
Hypothesis (nm_eq : ∀ x y, x ∈ lmslist S → y ∈ lmslist S → nm x = nm y → sub S x = sub S y).

(** The order of the suffixes of the reduced string is the order of the suffixes
    at the LMS characters. *)
Lemma names_lex P x l P' y l' :
  lmslist S = P ++ x :: l → lmslist S = P' ++ y :: l' →
  (nm <$> x :: l) ≺ (nm <$> y :: l') → usfx S x ≺ usfx S y.
Proof.
  revert P x P' y l'. induction l as [|x' l IH]; intros P x P' y l' Hl Hl' Hlt.
  all: assert (x ∈ lmslist S) as Hx by (rewrite Hl; set_solver).
  all: assert (y ∈ lmslist S) as Hy by (rewrite Hl'; set_solver).
  all: pose proof (proj1 (elem_of_lmslist S x) Hx) as [Hxr _].
  all: pose proof (proj1 (elem_of_lmslist S y) Hy) as [Hyr _].
  all: rewrite !fmap_cons, lex_cons in Hlt.
  all: destruct Hlt as [Hlt|[Heq Hlt]]; [by apply sub_lex, nm_lt|].
  - exfalso. apply lmslist_final in Hl as ->. apply nm_eq in Heq; [|done..].
    rewrite (sub_last S) in Heq. injection Heq as Heq _. symmetry in Heq. apply (ltr_last S) in Heq; [|done..].
    subst y. destruct l' as [|y' l']; [done|]. apply lmslist_gap in Hl' as Hg.
    assert (y' ∈ lmslist S) as Hy' by (rewrite Hl'; set_solver).
    apply (elem_of_lmslist S) in Hy' as [Hy' _]. lia.
  - destruct l' as [|y' l']; [by destruct (nm <$> x' :: l)|].
    destruct (lmslist_gap _ _ _ _ Hl) as [Hxx Hgx]. destruct (lmslist_gap _ _ _ _ Hl') as [Hyy Hgy].
    assert (x' ∈ lmslist S) as [Hx' Hlx]%(elem_of_lmslist S) by (rewrite Hl; set_solver).
    assert (y' ∈ lmslist S) as [Hy' Hly]%(elem_of_lmslist S) by (rewrite Hl'; set_solver).
    destruct (sub_body x x' ltac:(lia) ltac:(lia) Hlx Hgx) as [Hsx Hux].
    destruct (sub_body y y' ltac:(lia) ltac:(lia) Hly Hgy) as [Hsy Huy].
    apply nm_eq in Heq; [|done..]. rewrite Hsx, Hsy in Heq. apply app_inj_tail in Heq as [Hbody _].
    rewrite Hux, Huy, Hbody. apply lex_app_same.
    apply (IH (P ++ [x]) x' (P' ++ [y]) y' l'); [by rewrite <- app_assoc..|done].
Qed.
End reduction.
