(* ===== verification/SaisScan.v ===== *)
(** * The scan of induced sorting

    The two loops of [Sais] that induce the order of one type of suffixes from
    the other are one algorithm: [_induceSAs] is [_induceSAl] on the array read
    backwards.  This file states that algorithm on an abstract array, with the
    letters [V] that name its buckets and the relation [R] the result is sorted
    by, and shows what it leaves in the array.  Nothing here models code. *)

From S2P Require Import Prelude Suffixes SaisTypes.

Local Open Scope Z_scope.

Lemma NoDup_count {A} (l l' : list A) : NoDup l → l ⊆ l' → zlen l ≤ zlen l'.
Proof.
  intros Hnd Hsub. unfold zlen. pose proof (submseteq_length _ _ (NoDup_submseteq _ _ Hnd Hsub)). lia.
Qed.

(** A list as long as a range, with all of its numbers. *)
Lemma seqZ_cover (l : list Z) m : zlen l = m → (∀ x, 0 ≤ x < m → x ∈ l) → l ≡ₚ seqZ 0 m.
Proof.
  intros Hl Hall. symmetry. apply submseteq_length_Permutation.
  - apply NoDup_submseteq; [apply NoDup_seqZ|]. intros x Hx%elem_of_seqZ. apply Hall. lia.
  - rewrite length_seqZ. unfold zlen in Hl. lia.
Qed.

Definition upd (f : Z → Z) (u p : Z) : Z → Z := λ v, if decide (v = u) then p else f v.

(** A list sorted between any two cells. *)
Lemma StronglySorted_aget {A} (R : relation A) (l : list A) :
  (∀ k k' x x', k < k' → aget l k = Some x → aget l k' = Some x' → R x x') → StronglySorted R l.
Proof.
  induction l as [|x l IH]; intros HR; constructor.
  - apply IH. intros k k' y y' Hk Hy Hy'. pose proof (aget_Some_range _ _ _ Hy).
    apply (HR (k + 1) (k' + 1)); [lia|..]; rewrite aget_cons, decide_False by lia.
    + by replace (k + 1 - 1) with k by lia.
    + by replace (k' + 1 - 1) with k' by lia.
  - apply Forall_forall. intros y (k & Hk)%elem_of_aget. pose proof (aget_Some_range _ _ _ Hk).
    apply (HR 0 (k + 1)); [lia|done|]. rewrite aget_cons, decide_False by lia.
    by replace (k + 1 - 1) with k by lia.
Qed.

Section scan.
Context (n : Z) (V : Z → Z) (act : Z → bool) (R : Z → Z → Prop) (A0 : list Z).

(** Where the bucket of a letter starts. *)
Definition base (u : Z) : Z := zlen (filter (λ j, V j < u) (seqZ 0 n)).
Definition region (u k : Z) : Prop := base u ≤ k < base (u + 1).

(** The letters of the positions the scan places. *)
Definition actl (u : Z) : Prop := Exists (λ j, act j = true ∧ V j = u) (seqZ 0 n).

#[global] Instance actl_dec u : Decision (actl u).
Proof. unfold actl. apply _. Defined.

Hypothesis (n_pos : 0 ≤ n).
Hypothesis (A0_length : zlen A0 = n).
Context (lo hi : Z).
Hypothesis (V_range : ∀ j, 0 ≤ j < n → lo ≤ V j < hi).
Hypothesis (act_range : ∀ j, act j = true → 0 ≤ j < n - 1).
Hypothesis (act_letter : ∀ j j', 0 ≤ j < n → 0 ≤ j' < n → V j = V j' → act j = act j').
Hypothesis (act_next : ∀ j, act j = true → V (j + 1) < V j ∨ (V (j + 1) = V j ∧ act (j + 1) = true)).
Hypothesis (R_letter : ∀ x y, 0 ≤ x < n → 0 ≤ y < n → V x < V y → R x y).
Hypothesis (R_next : ∀ j j', act j = true → act j' = true → V j = V j' → R (j + 1) (j' + 1) → R j j').
Hypothesis (A0_junk : ∀ k u x, region u k → actl u → aget A0 k = Some x → act (x - 1) = false).
Hypothesis (A0_seed : ∀ k u x, region u k → ¬ actl u → aget A0 k = Some x → x < 0 ∨ (0 ≤ x < n ∧ V x = u)).
Hypothesis (A0_inj : ∀ k k' u x, region u k → region u k' → ¬ actl u → 0 ≤ x →
  aget A0 k = Some x → aget A0 k' = Some x → k = k').
Hypothesis (A0_sorted : ∀ k k' u x x', region u k → region u k' → ¬ actl u → k < k' → 0 ≤ x → 0 ≤ x' →
  aget A0 k = Some x → aget A0 k' = Some x' → R x x').
Hypothesis (seed_next : ∀ j, act j = true → act (j + 1) = true ∨
  ∃ k u, region u k ∧ ¬ actl u ∧ aget A0 k = Some (j + 1)).

Lemma base_mono u u' : u ≤ u' → base u ≤ base u'.
Proof.
  intros Hu. unfold base. induction (seqZ 0 n) as [|j l IH]; [done|].
  rewrite !filter_cons. repeat case_decide; rewrite ?zlen_cons; lia.
Qed.

Lemma base_count u : base (u + 1) - base u = zlen (filter (λ j, V j = u) (seqZ 0 n)).
Proof.
  unfold base. rewrite (zlen_filter_or (λ j, V j < u) (λ j, V j = u) (λ j, V j < u + 1)); [lia|].
  intros j _. lia.
Qed.

Lemma base_lo : base lo = 0.
Proof.
  unfold base. rewrite filter_none; [done|]. apply Forall_forall. intros j Hj%elem_of_seqZ.
  pose proof (V_range j). lia.
Qed.

Lemma base_hi : base hi = n.
Proof.
  unfold base. rewrite filter_all; [by apply zlen_seqZ|]. apply Forall_forall. intros j Hj%elem_of_seqZ.
  pose proof (V_range j). lia.
Qed.

Lemma region_unique u u' k : region u k → region u' k → u = u'.
Proof.
  unfold region. intros Hu Hu'. destruct (Z.lt_total u u') as [?|[?|?]]; [|done|].
  - pose proof (base_mono (u + 1) u' ltac:(lia)). lia.
  - pose proof (base_mono (u' + 1) u ltac:(lia)). lia.
Qed.

Lemma region_of k : 0 ≤ k < n → ∃ u, region u k.
Proof.
  intros Hk.
  assert (∀ m a, base a ≤ k → k < base (a + Z.of_nat m) → ∃ u, region u k) as H.
  { induction m as [|m IH]; intros a Ha Hb; [rewrite Z.add_0_r in Hb; lia|].
    destruct (decide (k < base (a + 1))); [by exists a|]. apply (IH (a + 1)); [lia|].
    by replace (a + 1 + Z.of_nat m) with (a + Z.of_nat (S m)) by lia. }
  destruct (decide (lo ≤ hi)).
  - apply (H (Z.to_nat (hi - lo)) lo); rewrite ?base_lo; [lia|].
    replace (lo + Z.of_nat (Z.to_nat (hi - lo))) with hi by lia. rewrite base_hi. lia.
  - pose proof (V_range k Hk). lia.
Qed.

Lemma base_range u : 0 ≤ base u ≤ n.
Proof.
  split; [apply zlen_nonneg|]. unfold base.
  pose proof (length_filter (λ j, V j < u) (seqZ 0 n)) as Hl. rewrite length_seqZ in Hl. unfold zlen. lia.
Qed.

Lemma region_range u k : region u k → 0 ≤ k < n.
Proof. unfold region. pose proof (base_range u). pose proof (base_range (u + 1)). lia. Qed.

Lemma region_lt u u' k k' : region u k → region u' k' → u < u' → k < k'.
Proof. unfold region. intros Hu Hu' Hlt. pose proof (base_mono (u + 1) u' ltac:(lia)). lia. Qed.

Lemma actl_letter j : 0 ≤ j < n → actl (V j) ↔ act j = true.
Proof.
  intros Hj. unfold actl. rewrite Exists_exists. split.
  - intros (j' & Hj'%elem_of_seqZ & Ha & HV). rewrite (act_letter j j') by (done || lia). done.
  - intros Ha. exists j. split; [apply elem_of_seqZ; lia|done].
Qed.

(** ** The invariant

    [i] cells are scanned; the bucket of [u] is filled up to [ptr u]. *)
Record scanned (i : Z) (A : list Z) (ptr : Z → Z) : Prop := {
  sc_length : zlen A = n;
  sc_ptr u : actl u → base u ≤ ptr u ≤ base (u + 1);
  sc_filled u k : actl u → base u ≤ k < ptr u →
    ∃ j, aget A k = Some j ∧ act j = true ∧ V j = u;
  sc_junk u k x : actl u → ptr u ≤ k < base (u + 1) → aget A k = Some x → act (x - 1) = false;
  sc_seed u k : ¬ actl u → region u k → aget A k = aget A0 k;
  sc_inj u k k' x : actl u → base u ≤ k < ptr u → base u ≤ k' < ptr u →
    aget A k = Some x → aget A k' = Some x → k = k';
  sc_sorted u k k' x x' : actl u → base u ≤ k < k' → k' < ptr u →
    aget A k = Some x → aget A k' = Some x' → R x x';
  sc_placed j : act j = true →
    (∃ k, base (V j) ≤ k < ptr (V j) ∧ aget A k = Some j) ↔ (∃ k, k < i ∧ aget A k = Some (j + 1));
}.

(** A scanned cell whose entry makes the scan place something holds a position of
    its own bucket. *)
Lemma productive i A ptr k x :
  scanned i A ptr → aget A k = Some x → act (x - 1) = true →
  ∃ u, region u k ∧ V x = u ∧ 0 ≤ x < n ∧ (actl u → k < ptr u).
Proof.
  intros HI Hk Ha. pose proof (aget_Some_range _ _ _ Hk) as Hr. rewrite (sc_length _ _ _ HI) in Hr.
  destruct (region_of k Hr) as [u Hu]. exists u. pose proof (act_range _ Ha).
  destruct (decide (actl u)) as [Hl|Hl].
  - destruct (decide (k < ptr u)) as [Hlt|Hlt].
    + destruct (sc_filled _ _ _ HI u k Hl) as (j & Hj & Haj & HV); [unfold region in Hu; lia|].
      rewrite Hk in Hj. simplify_eq. split_and!; try done; lia.
    + rewrite (sc_junk _ _ _ HI u k x Hl) in Ha; [done|unfold region in Hu; lia|done].
  - rewrite (sc_seed _ _ _ HI u k Hl Hu) in Hk.
    destruct (A0_seed k u x Hu Hl Hk) as [?|[? ?]]; [lia|]. split_and!; done || lia.
Qed.

(** Entries that place something are sorted in the order of the scan, and occur once. *)
Lemma productive_sorted i A ptr k k' x x' :
  scanned i A ptr → k < k' → aget A k = Some x → aget A k' = Some x' →
  act (x - 1) = true → act (x' - 1) = true → R x x'.
Proof.
  intros HI Hlt Hk Hk' Ha Ha'.
  destruct (productive _ _ _ _ _ HI Hk Ha) as (u & Hu & HV & Hx & Hp).
  destruct (productive _ _ _ _ _ HI Hk' Ha') as (u' & Hu' & HV' & Hx' & Hp').
  destruct (Z.lt_total u u') as [?|[<-|Hgt]]; [apply R_letter; lia| |].
  - destruct (decide (actl u)) as [Hl|Hl].
    + eapply (sc_sorted _ _ _ HI u k k'); try done; [unfold region in Hu; lia|auto].
    + rewrite (sc_seed _ _ _ HI u k Hl Hu) in Hk. rewrite (sc_seed _ _ _ HI u k' Hl Hu') in Hk'.
      apply (A0_sorted k k' u x x'); try done; lia.
  - pose proof (region_lt _ _ _ _ Hu' Hu Hgt). lia.
Qed.

Lemma productive_inj i A ptr k k' x :
  scanned i A ptr → aget A k = Some x → aget A k' = Some x → act (x - 1) = true → k = k'.
Proof.
  intros HI Hk Hk' Ha.
  destruct (productive _ _ _ _ _ HI Hk Ha) as (u & Hu & HV & Hx & Hp).
  destruct (productive _ _ _ _ _ HI Hk' Ha) as (u' & Hu' & HV' & _ & Hp').
  assert (u' = u) as -> by congruence.
  destruct (decide (actl u)) as [Hl|Hl].
  - eapply (sc_inj _ _ _ HI u k k'); try done; unfold region in *; naive_solver lia.
  - rewrite (sc_seed _ _ _ HI u k Hl Hu) in Hk. rewrite (sc_seed _ _ _ HI u k' Hl Hu') in Hk'.
    apply (A0_inj k k' u x); try done; lia.
Qed.

(** The filled part of a bucket, as a list. *)
Definition filled (A : list Z) (a b : Z) : list Z := (λ k, default 0 (aget A k)) <$> seqZ a (b - a).

Lemma elem_of_filled A a b x :
  0 ≤ a → b ≤ zlen A → x ∈ filled A a b ↔ ∃ k, a ≤ k < b ∧ aget A k = Some x.
Proof.
  intros Ha Hb. unfold filled. rewrite list_elem_of_fmap. split.
  - intros (k & -> & Hk%elem_of_seqZ). exists k. split; [lia|].
    destruct (aget_is_Some A k) as [y Hy]; [lia|]. by rewrite Hy.
  - intros (k & Hk & Hx). exists k. rewrite Hx. split; [done|]. apply elem_of_seqZ. lia.
Qed.

Lemma zlen_filled A a b : a ≤ b → zlen (filled A a b) = b - a.
Proof. intros. unfold filled. rewrite zlen_fmap, zlen_seqZ; lia. Qed.

Lemma filled_bucket i A ptr u :
  scanned i A ptr → actl u →
  NoDup (filled A (base u) (ptr u)) ∧
  filled A (base u) (ptr u) ⊆ filter (λ j, V j = u) (seqZ 0 n).
Proof.
  intros HI Hl. pose proof (sc_ptr _ _ _ HI u Hl) as Hp.
  pose proof (base_range u). pose proof (base_range (u + 1)).
  pose proof (sc_length _ _ _ HI) as HA. split.
  - apply NoDup_fmap_2_strong; [|apply NoDup_seqZ]. intros k k' Hk%elem_of_seqZ Hk'%elem_of_seqZ Heq.
    destruct (aget_is_Some A k) as [x Hx]; [lia|]. destruct (aget_is_Some A k') as [x' Hx']; [lia|].
    rewrite Hx, Hx' in Heq. simpl in Heq. subst x'.
    apply (sc_inj _ _ _ HI u k k' x); done || lia.
  - intros j Hj. apply elem_of_filled in Hj as (k & Hk & Hj); [|lia..].
    destruct (sc_filled _ _ _ HI u k Hl Hk) as (j' & Hj' & Ha & HV). rewrite Hj in Hj'. simplify_eq.
    pose proof (act_range _ Ha). apply list_elem_of_filter. rewrite elem_of_seqZ. split; [done|lia].
Qed.

(** What an entry is about to place is not placed yet. *)
Lemma scan_fresh i A ptr x k :
  scanned i A ptr → aget A i = Some x → act (x - 1) = true →
  base (V (x - 1)) ≤ k < ptr (V (x - 1)) → aget A k ≠ Some (x - 1).
Proof.
  intros HI Hi Ha Hk Hin.
  destruct (proj1 (sc_placed _ _ _ HI (x - 1) Ha)) as (k1 & Hk1 & Hkx); [by exists k|].
  replace (x - 1 + 1) with x in Hkx by lia.
  pose proof (productive_inj _ _ _ _ _ _ HI Hkx Hi Ha). lia.
Qed.

(** The next free cell of the bucket lies ahead of the scan and inside the bucket. *)
Lemma scan_target i A ptr x :
  scanned i A ptr → aget A i = Some x → act (x - 1) = true →
  i < ptr (V (x - 1)) < base (V (x - 1) + 1).
Proof.
  intros HI Hi Ha. set (j := x - 1) in *. pose proof (act_range _ Ha) as Hj.
  assert (actl (V j)) as Hl by (apply actl_letter; [lia|done]).
  pose proof (sc_ptr _ _ _ HI _ Hl) as Hp.
  destruct (productive _ _ _ _ _ HI Hi Ha) as (u & Hu & HV & Hx & Hlt). split.
  - destruct (act_next j Ha) as [Hn|[Hn Ha']]; replace (j + 1) with x in * by (unfold j; lia).
    + pose proof (base_mono (u + 1) (V j) ltac:(lia)). unfold region in Hu. lia.
    + rewrite <- Hn, HV. apply Hlt. rewrite <- HV. apply actl_letter; [lia|done].
  - destruct (decide (ptr (V j) < base (V j + 1))) as [|Hfull]; [done|]. exfalso.
    destruct (filled_bucket _ _ _ _ HI Hl) as [Hnd Hsub].
    assert (j ∉ filled A (base (V j)) (ptr (V j))) as Hnew.
    { pose proof (base_range (V j)). pose proof (base_range (V j + 1)). pose proof (sc_length _ _ _ HI).
      intros (k & Hk & Hin)%elem_of_filled; [|lia..]. by apply (scan_fresh _ _ _ _ _ HI Hi Ha Hk). }
    assert (zlen (j :: filled A (base (V j)) (ptr (V j))) ≤ zlen (filter (λ j', V j' = V j) (seqZ 0 n))) as Hc.
    { apply NoDup_count; [by constructor|]. intros j' [->|Hj']%elem_of_cons; [|by apply Hsub].
      apply list_elem_of_filter. rewrite elem_of_seqZ. split; [done|lia]. }
    rewrite zlen_cons, zlen_filled, <- base_count in Hc by lia. lia.
Qed.

Lemma scan_stay i A ptr x :
  scanned i A ptr → aget A i = Some x → act (x - 1) = false → scanned (i + 1) A ptr.
Proof.
  intros HI Hi Ha. destruct HI as [H1 H2 H3 H4 H5 H6 H7 H8]. split; try done.
  intros j Hj. rewrite (H8 j Hj). split; intros (k & Hk & Hx); exists k; (split; [|done]); [lia|].
  destruct (decide (k = i)) as [->|]; [|lia]. rewrite Hi in Hx. simplify_eq.
  replace (j + 1 - 1) with j in Ha by lia. congruence.
Qed.

(** What is placed next is sorted after the filled part of its bucket. *)
Lemma scan_order i A ptr x k y :
  scanned i A ptr → aget A i = Some x → act (x - 1) = true →
  base (V (x - 1)) ≤ k < ptr (V (x - 1)) → aget A k = Some y → R y (x - 1).
Proof.
  intros HI Hi Ha Hk Hy. pose proof (act_range _ Ha).
  assert (actl (V (x - 1))) as Hl by (apply actl_letter; [lia|done]).
  destruct (sc_filled _ _ _ HI _ k Hl Hk) as (y' & Hy' & Hay & HV). rewrite Hy in Hy'. simplify_eq.
  destruct (proj1 (sc_placed _ _ _ HI y' Hay)) as (k1 & Hk1 & Hy1); [exists k; by rewrite HV|].
  apply R_next; [done..|]. replace (x - 1 + 1) with x by lia.
  eapply (productive_sorted _ _ _ k1 i); try done. by replace (y' + 1 - 1) with y' by lia.
Qed.

(** ** One placement *)

Section place.
Context (i : Z) (A : list Z) (ptr : Z → Z) (x : Z).
Hypothesis (HI : scanned i A ptr).
Hypothesis (Hi : aget A i = Some x).
Hypothesis (Ha : act (x - 1) = true).
Abbreviation j := (x - 1).
Abbreviation u := (V (x - 1)).
Abbreviation p := (ptr (V (x - 1))).
Abbreviation A' := (<[Z.to_nat (ptr (V (x - 1))) := x - 1]> A).
Abbreviation ptr' := (upd ptr (V (x - 1)) (ptr (V (x - 1)) + 1)).

Lemma place_letter : actl u.
Proof. pose proof (act_range _ Ha). apply actl_letter; [lia|done]. Qed.

Lemma place_region : region u p.
Proof.
  pose proof (sc_ptr _ _ _ HI u place_letter). pose proof (scan_target _ _ _ _ HI Hi Ha). unfold region. lia.
Qed.

Lemma place_get k : aget A' k = if decide (k = p) then Some j else aget A k.
Proof.
  apply aget_insert. rewrite (sc_length _ _ _ HI). apply (region_range u), place_region.
Qed.

Lemma place_other u' k : u' ≠ u → region u' k → k ≠ p.
Proof. intros Hne Hk ->. apply Hne. eapply region_unique; [done|]. apply place_region. Qed.

(** A filled cell afterwards is the new one, or was filled before. *)
Lemma place_case u' k :
  actl u' → base u' ≤ k < ptr' u' → (u' = u ∧ k = p) ∨ (k ≠ p ∧ base u' ≤ k < ptr u').
Proof.
  intros Hl' Hk. unfold upd in Hk. case_decide as Hu'.
  - subst u'. destruct (decide (k = p)); [by left|right; lia].
  - right. split; [|done]. apply (place_other u'); [done|].
    pose proof (sc_ptr _ _ _ HI u' Hl'). unfold region. lia.
Qed.

Lemma place_filled u' k :
  actl u' → base u' ≤ k < ptr' u' → ∃ j, aget A' k = Some j ∧ act j = true ∧ V j = u'.
Proof.
  intros Hl' Hk. rewrite place_get. destruct (place_case u' k Hl' Hk) as [[-> ->]|[Hne Hk']].
  - rewrite decide_True by done. by exists j.
  - rewrite decide_False by done. by apply (sc_filled _ _ _ HI).
Qed.

Lemma place_junk u' k y :
  actl u' → ptr' u' ≤ k < base (u' + 1) → aget A' k = Some y → act (y - 1) = false.
Proof.
  intros Hl' Hk. rewrite place_get. pose proof (sc_ptr _ _ _ HI u' Hl'). unfold upd in Hk. case_decide as Hu'.
  - subst u'. rewrite decide_False by lia. apply (sc_junk _ _ _ HI u); [done|lia].
  - rewrite decide_False; [by apply (sc_junk _ _ _ HI u')|]. apply (place_other u'); [done|]. unfold region. lia.
Qed.

Lemma place_inj u' k k' y :
  actl u' → base u' ≤ k < ptr' u' → base u' ≤ k' < ptr' u' →
  aget A' k = Some y → aget A' k' = Some y → k = k'.
Proof.
  intros Hl' Hk Hk'. rewrite !place_get.
  pose proof (λ k, scan_fresh i A ptr x k HI Hi Ha) as Hfresh.
  destruct (place_case u' k Hl' Hk) as [[-> ->]|[Hne Hk1]], (place_case _ k' Hl' Hk') as [[Hu ->]|[Hne' Hk1']].
  - done.
  - rewrite decide_True, decide_False by done. intros [= <-] Hy. by destruct (Hfresh k').
  - subst u'. rewrite decide_False, decide_True by done. intros Hy [= <-]. by destruct (Hfresh k).
  - rewrite !decide_False by done. by apply (sc_inj _ _ _ HI u').
Qed.

Lemma place_sorted u' k k' y y' :
  actl u' → base u' ≤ k < k' → k' < ptr' u' → aget A' k = Some y → aget A' k' = Some y' → R y y'.
Proof.
  intros Hl' Hk Hk'. rewrite !place_get.
  destruct (place_case u' k Hl' ltac:(lia)) as [[-> ->]|[Hne Hk1]],
    (place_case _ k' Hl' ltac:(lia)) as [[Hu ->]|[Hne' Hk1']]; [lia|lia| |].
  - subst u'. rewrite decide_False, decide_True by done. intros Hy [= <-].
    by apply (scan_order i A ptr x k).
  - rewrite !decide_False by done. apply (sc_sorted _ _ _ HI u'); done || lia.
Qed.

(** The placements of the other positions are as before. *)
Lemma place_kept j0 :
  j0 ≠ j → act j0 = true →
  (∃ k, base (V j0) ≤ k < ptr' (V j0) ∧ aget A' k = Some j0) ↔
  (∃ k, base (V j0) ≤ k < ptr (V j0) ∧ aget A k = Some j0).
Proof.
  intros Hne Ha0. pose proof (act_range _ Ha0).
  assert (actl (V j0)) as Hl0 by (apply actl_letter; [lia|done]).
  split; intros (k & Hk & Hk0).
  - rewrite place_get in Hk0. destruct (place_case _ k Hl0 Hk) as [[Hu ->]|[Hne' Hk1]].
    + rewrite decide_True in Hk0 by done. congruence.
    + rewrite decide_False in Hk0 by done. by exists k.
  - exists k. assert (k ≠ p).
    { intros ->. destruct (decide (V j0 = u)) as [Hu|Hu]; [rewrite Hu in Hk; lia|].
      apply (place_other (V j0) p); try done. pose proof (sc_ptr _ _ _ HI _ Hl0). unfold region. lia. }
    rewrite place_get, decide_False by done. split; [|done]. unfold upd. case_decide as Hu; [|done].
    rewrite Hu in Hk |- *. lia.
Qed.

Lemma place_placed j0 :
  act j0 = true →
  (∃ k, base (V j0) ≤ k < ptr' (V j0) ∧ aget A' k = Some j0) ↔
  (∃ k, k < i + 1 ∧ aget A' k = Some (j0 + 1)).
Proof.
  intros Ha0. pose proof (scan_target _ _ _ _ HI Hi Ha) as Ht. pose proof place_region as Hreg.
  setoid_rewrite place_get. destruct (decide (j0 = j)) as [->|Hne].
  - split; intros _; [exists i|exists p].
    + split; [lia|]. rewrite decide_False by lia. rewrite Hi. f_equal. lia.
    + unfold upd. rewrite !decide_True by done. unfold region in Hreg. split; [lia|done].
  - setoid_rewrite <- place_get. rewrite place_kept, (sc_placed _ _ _ HI j0 Ha0) by done.
    setoid_rewrite place_get.
    split; intros (k & Hk & Hk0); exists k; rewrite decide_False in * by lia; (split; [|done]); [lia|].
    destruct (decide (k = i)) as [->|]; [|lia]. rewrite Hi in Hk0. simplify_eq. lia.
Qed.

Lemma scan_place : scanned (i + 1) A' ptr'.
Proof.
  split.
  - rewrite zlen_insert. apply HI.
  - intros u' Hl'. unfold upd. case_decide; [subst|by apply HI].
    pose proof place_region as Hp. unfold region in Hp. lia.
  - apply place_filled.
  - apply place_junk.
  - intros u' k Hl' Hk. rewrite place_get, decide_False; [by apply (sc_seed _ _ _ HI u')|].
    apply (place_other u'); [|done]. intros ->. apply Hl', place_letter.
  - apply place_inj.
  - apply place_sorted.
  - apply place_placed.
Qed.
End place.

Lemma scan_init : scanned 0 A0 base.
Proof.
  split; [done| |lia| |done|lia|lia|].
  - intros u _. pose proof (base_mono u (u + 1)). lia.
  - intros u k x Hl Hk Hx. by apply (A0_junk k u).
  - intros j _. split; intros (k & Hk & Hx); [lia|]. apply aget_Some_range in Hx. lia.
Qed.

(** What the scan leaves: every bucket of the placed type is full and sorted, the
    others are as they were. *)
Record scan_done (A : list Z) : Prop := {
  done_length : zlen A = n;
  done_bucket u k : actl u → region u k → ∃ j, aget A k = Some j ∧ act j = true ∧ V j = u;
  done_seed u k : ¬ actl u → region u k → aget A k = aget A0 k;
  done_sorted u k k' x x' : actl u → region u k → region u k' → k < k' →
    aget A k = Some x → aget A k' = Some x' → R x x';
  done_inj u k k' x : actl u → region u k → region u k' →
    aget A k = Some x → aget A k' = Some x → k = k';
  done_all j : act j = true → ∃ k, region (V j) k ∧ aget A k = Some j;
}.

Lemma scan_all A ptr j :
  scanned n A ptr → act j = true → ∃ k, base (V j) ≤ k < ptr (V j) ∧ aget A k = Some j.
Proof.
  intros HI. remember (Z.to_nat (n - j)) as m eqn:Hm. revert j Hm.
  induction m as [|m IH]; intros j Hm Ha; pose proof (act_range _ Ha); [lia|].
  apply (sc_placed _ _ _ HI j Ha). destruct (seed_next j Ha) as [Ha'|(k & u & Hu & Hl & Hk)].
  - destruct (IH (j + 1)) as (k & _ & Hk); [lia|done|]. exists k. split; [|done].
    apply aget_Some_range in Hk. rewrite (sc_length _ _ _ HI) in Hk. lia.
  - exists k. rewrite (sc_seed _ _ _ HI u k Hl Hu). split; [|done]. apply region_range in Hu. lia.
Qed.

Lemma scan_finish A ptr : scanned n A ptr → scan_done A.
Proof.
  intros HI.
  assert (∀ u, actl u → ptr u = base (u + 1)) as Hfull.
  { intros u Hl. pose proof (sc_ptr _ _ _ HI u Hl) as Hp. pose proof (base_range u).
    pose proof (base_range (u + 1)). pose proof (sc_length _ _ _ HI).
    assert (zlen (filter (λ j, V j = u) (seqZ 0 n)) ≤ zlen (filled A (base u) (ptr u))) as Hc.
    { apply NoDup_count; [apply NoDup_filter, NoDup_seqZ|].
      intros j [Hj Hr%elem_of_seqZ]%list_elem_of_filter. apply elem_of_filled; [lia..|].
      rewrite <- Hj in Hl |- *. apply (scan_all A ptr); [done|]. apply actl_letter; [lia|done]. }
    rewrite <- base_count, zlen_filled in Hc by lia. lia. }
  split.
  - apply HI.
  - intros u k Hl Hk. apply (sc_filled _ _ _ HI u k Hl). rewrite Hfull by done. apply Hk.
  - intros u k. apply (sc_seed _ _ _ HI u k).
  - intros u k k' x x' Hl Hk Hk' Hlt. unfold region in Hk, Hk'.
    apply (sc_sorted _ _ _ HI u); [done|lia|]. rewrite Hfull by done. lia.
  - intros u k k' x Hl Hk Hk'. apply (sc_inj _ _ _ HI u k k' x); [done|..]; by rewrite Hfull.
  - intros j Ha. destruct (scan_all A ptr j HI Ha) as (k & Hk & Hj). exists k. split; [|done].
    pose proof (act_range _ Ha). rewrite Hfull in Hk; [done|]. apply actl_letter; [lia|done].
Qed.

(** The facts a loop needs to run the scan. *)
Record scan_ok : Prop := {
  ok_init : scanned 0 A0 base;
  ok_stay i A ptr x :
    scanned i A ptr → aget A i = Some x → act (x - 1) = false → scanned (i + 1) A ptr;
  ok_target i A ptr x :
    scanned i A ptr → aget A i = Some x → act (x - 1) = true → i < ptr (V (x - 1)) < n;
  ok_place i A ptr x :
    scanned i A ptr → aget A i = Some x → act (x - 1) = true →
    scanned (i + 1) (<[Z.to_nat (ptr (V (x - 1))) := x - 1]> A) (upd ptr (V (x - 1)) (ptr (V (x - 1)) + 1));
  ok_finish A ptr : scanned n A ptr → scan_done A;
}.

Lemma scan_runs : scan_ok.
Proof.
  split; [apply scan_init|apply scan_stay| |apply scan_place|apply scan_finish].
  intros i A ptr x HI Hi Ha. pose proof (scan_target _ _ _ _ HI Hi Ha).
  pose proof (base_range (V (x - 1) + 1)). lia.
Qed.
End scan.
