(* ===== verification/SaisInduce.v ===== *)
(** * The loops of induced sorting

    [Sais] on an array that holds a string [S]: the classification, the buckets,
    and the two induction loops.  [induce_sorts] is the result: from the LMS
    characters in their buckets, sorted, the loops sort every position. *)

From S2P Require Import Prelude BitVector Suffixes Sais SaisTypes SaisScan.

Local Open Scope Z_scope.
Import SAIS.

(** ** Helpers on the heap and on backward loops *)

Definition hp (chs tail A : list Z) : heap := mkHeap chs (A ++ tail).

Lemma store_hp chs tail A p x :
  0 ≤ p < zlen A → store (hp chs tail A) p x = Ret (hp chs tail (<[Z.to_nat p := x]> A)).
Proof.
  intros Hp. unfold store, hp. cbn [sa chars].
  rewrite aset_in_range by (rewrite zlen_app; pose proof (zlen_nonneg tail); lia). cbn [mbind outcome_bind].
  by rewrite insert_app_l by (unfold zlen in Hp; lia).
Qed.

Lemma aget_hp chs tail A i : i < zlen A → aget (sa (hp chs tail A)) i = aget A i.
Proof. intros. by apply aget_app_l. Qed.

Lemma length_down lo hi : length (down lo hi) = Z.to_nat (hi - lo).
Proof. unfold down. by rewrite length_reverse, length_seqZ. Qed.

Lemma lookup_down lo hi k i :
  down lo hi !! k = Some i → i = hi - 1 - Z.of_nat k ∧ lo ≤ i < hi.
Proof.
  intros Hk. pose proof (lookup_lt_Some _ _ _ Hk) as Hlt. rewrite length_down in Hlt.
  unfold down in Hk. rewrite reverse_lookup_Some, length_seqZ in Hk. destruct Hk as [Hk _].
  apply lookup_seqZ in Hk as [-> Hk]. lia.
Qed.

Lemma reverse_insert {A} (l : list A) p x :
  0 ≤ p < zlen l → reverse (<[Z.to_nat p := x]> l) = <[Z.to_nat (zlen l - 1 - p) := x]> (reverse l).
Proof.
  intros Hp. apply aget_ext; [by rewrite zlen_insert, !zlen_reverse, zlen_insert|].
  intros k. rewrite zlen_reverse, zlen_insert. intros Hk.
  rewrite aget_reverse, zlen_insert, aget_insert, aget_insert by (rewrite ?zlen_insert, ?zlen_reverse; lia).
  rewrite aget_reverse by done. repeat case_decide; done || lia.
Qed.

(** ** Classification *)

Section level.
Context (S : list Z) (chs tail : list Z) (s : OArray).
Hypothesis (S_marked : marked S).
Hypothesis (S_length : 2 ≤ zlen S < 2 ^ 31 - 1).
Abbreviation n := (zlen S).
Abbreviation hp := (hp chs tail).
Hypothesis (S_get : ∀ A i, zlen A = n → 0 ≤ i < n → get (hp A) s i = Ret (chr S i)).

Let S_length' : 2 ≤ zlen S := proj1 S_length.

(** The types a bit vector holds, from position [lo] on. *)
Record typed (t : BV.t) (lo : Z) : Prop := {
  typed_wf : BV.wf t;
  typed_size : BV._size t = n;
  typed_bit i : lo ≤ i < n → BV.bit (BV._v t) i = ty S i;
}.

Lemma typed_get t lo i : typed t lo → 0 ≤ lo → lo ≤ i < n → BV.get t i = Ret (ty S i).
Proof.
  intros [Hwf Hsz Hb] Hlo Hi. rewrite BV.get_spec by lia. by rewrite Hb.
Qed.

Lemma typed_set t i : typed t (i + 1) → 0 ≤ i < n → typed (BV.set t i (ty S i)) i.
Proof.
  intros [Hwf Hsz Hb] Hi. split; [apply BV.set_wf; [done|lia]| |].
  - unfold BV.set, BV.size. cbn [BV._size]. case_decide; lia.
  - intros j Hj. rewrite BV.set_bit by lia. case_decide; [by subst|]. apply Hb. lia.
Qed.

Lemma typed_start : typed (BV.set (BV.set BV.new (n - 2) false) (n - 1) true) (n - 2).
Proof.
  split; [do 2 (apply BV.set_wf; [|lia]); apply BV.new_wf| |].
  - unfold BV.set, BV.size. cbn [BV._size BV.new]. repeat case_decide; lia.
  - intros i Hi. rewrite !BV.set_bit by lia. case_decide; [subst; by rewrite ty_last|].
    rewrite decide_True by lia. replace i with (n - 2) by lia. by rewrite ty_penult.
Qed.

Lemma classify_spec A :
  zlen A = n → ∃ t, classify (hp A) s n = Ret t ∧ ∀ i, 0 ≤ i < n → BV.get t i = Ret (ty S i).
Proof.
  intros HA. unfold classify.
  loop (λ (k : nat) (t : BV.t), typed t (n - 2 - Z.of_nat k)) as (t & Ht & Htyped);
    [rewrite Z.sub_0_r; apply typed_start| |exists t; split; [exact Ht|]].
  - intros k i t Hi Ht. apply lookup_down in Hi as [-> Hi].
    set (i := n - 2 - 1 - Z.of_nat k) in *. assert (typed t (i + 1)) as Ht' by (by replace (i + 1) with (n - 2 - Z.of_nat k) by lia).
    unfold isS, compare. rewrite !S_get by (done || lia). cbn [mbind outcome_bind].
    exists (BV.set t i (ty S i)). split; [|by replace (n - 2 - Z.of_nat (Datatypes.S k)) with i by lia; apply typed_set; [|lia]].
    rewrite (ty_step S S_marked i) by lia.
    destruct (bool_decide (chr S i < chr S (i + 1))) eqn:Hlt; [done|]. cbn [orb mbind outcome_bind].
    destruct (bool_decide (chr S i = chr S (i + 1))) eqn:Heq; [|done]. cbn [andb].
    rewrite (typed_get t (i + 1)) by (done || lia). done.
  - intros i Hi. rewrite length_down in Htyped. apply (typed_get _ _ _ Htyped); lia.
Qed.

(** ** Buckets *)

Context (K : Z).
Hypothesis (S_codes : ∀ i, 0 ≤ i < n → chr S i ≤ K).

Definition occurs (c : Z) (l : list Z) : Z := zlen (filter (λ x, x = c) l).

Lemma smaller_succ c : smaller S (c + 1) = smaller S c + occurs c S.
Proof. apply zlen_filter_or. intros x _. lia. Qed.

Lemma code_range i : 0 ≤ i < n → 0 ≤ chr S i ≤ K.
Proof. intros Hi. pose proof (chr_nonneg S S_marked i Hi). pose proof (S_codes i Hi). lia. Qed.

Lemma K_nonneg : 0 ≤ K.
Proof. pose proof (code_range 0). lia. Qed.

Lemma count_loop A :
  zlen A = n →
  ∃ bkt, ofold (λ bkt i, c ← get (hp A) s i; '(_, bkt) ← bump bkt c; Ret bkt)
           (replicate (Z.to_nat (K + 1)) 0) (seqZ 0 n) = Ret bkt ∧
    zlen bkt = K + 1 ∧ ∀ c, 0 ≤ c ≤ K → aget bkt c = Some (occurs c S).
Proof.
  intros HA. pose proof K_nonneg.
  loop (λ (k : nat) (bkt : list Z), zlen bkt = K + 1 ∧ ∀ c, 0 ≤ c ≤ K → aget bkt c = Some (occurs c (take k S)))
    as (bkt & Hrun & Hlen & Hbkt).
  - rewrite zlen_replicate. split; [lia|]. intros c Hc. apply aget_replicate. lia.
  - intros k i bkt Hi [Hlen Hbkt]. apply lookup_seqZ in Hi as [-> Hk]. rewrite Z.add_0_l.
    pose proof (code_range (Z.of_nat k) ltac:(lia)) as Hc.
    rewrite S_get by (done || lia). cbn [mbind outcome_bind]. unfold bump.
    rewrite Hbkt by done. cbn [of_option mbind outcome_bind]. rewrite aset_in_range by lia.
    eexists. split; [reflexivity|]. rewrite zlen_insert. split; [done|]. intros c Hc'.
    rewrite aget_insert by lia.
    rewrite (take_S_r _ _ (chr S (Z.of_nat k))) by (rewrite <- aget_nat; apply chr_get; lia).
    unfold occurs. rewrite filter_app, zlen_app. case_decide as Heq.
    + subst c. by rewrite filter_cons_True.
    + rewrite filter_cons_False by done. change (zlen (filter _ [])) with 0. rewrite Z.add_0_r. by apply Hbkt.
  - exists bkt. split_and!; [done..|]. intros c Hc. rewrite Hbkt by done. do 2 f_equal.
    rewrite length_seqZ. apply take_ge. unfold zlen. lia.
Qed.

Lemma buckets A (end_ : bool) :
  zlen A = n →
  ∃ bkt, _getBuckets (hp A) s n K end_ = Ret bkt ∧ zlen bkt = K + 1 ∧
    ∀ c, 0 ≤ c ≤ K → aget bkt c = Some (smaller S (if end_ then c + 1 else c)).
Proof.
  intros HA. pose proof K_nonneg. unfold _getBuckets.
  destruct (count_loop A HA) as (bkt0 & Hrun0 & Hlen0 & Hbkt0).
  cbv zeta. setoid_rewrite Hrun0. cbn [mbind outcome_bind].
  loop (λ (k : nat) '((bkt, sum) : list Z * Z), zlen bkt = K + 1 ∧ sum = smaller S (Z.of_nat k) ∧
    ∀ c, 0 ≤ c ≤ K → aget bkt c = Some (if decide (c < Z.of_nat k)
      then smaller S (if end_ then c + 1 else c) else occurs c S)) as ([bkt sum] & Hrun & Hlen & _ & Hbkt).
  - split_and!; [done|symmetry; apply (smaller_0 S S_marked)|]. intros c Hc. rewrite decide_False by lia. by apply Hbkt0.
  - intros k i [bkt sum] Hi (Hlen & -> & Hbkt). apply lookup_seqZ in Hi as [-> Hk]. rewrite Z.add_0_l.
    rewrite Hbkt, decide_False by lia. cbn [of_option mbind outcome_bind]. rewrite aset_in_range by lia.
    eexists (_, _). split; [reflexivity|]. cbv beta iota. rewrite zlen_insert, Nat2Z.inj_succ. unfold Z.succ. rewrite smaller_succ.
    split_and!; [done..|]. intros c Hc. rewrite aget_insert by lia. case_decide as Heq.
    + subst c. rewrite decide_True by lia. f_equal. destruct end_; [by rewrite smaller_succ|lia].
    + rewrite Hbkt by done. repeat case_decide; done || lia.
  - rewrite Hrun. exists bkt. cbn [mbind outcome_bind]. split_and!; [done..|]. intros c Hc.
    rewrite Hbkt by done. rewrite length_seqZ, decide_True by lia. done.
Qed.

(** ** Inducing the L-type suffixes *)

Context (t : BV.t).
Hypothesis (t_types : ∀ i, 0 ≤ i < n → BV.get t i = Ret (ty S i)).

Definition actL (j : Z) : bool := bool_decide (0 ≤ j < n - 1) && negb (ty S j).
Definition actS (j : Z) : bool := bool_decide (0 ≤ j < n - 1) && ty S j.

Lemma actL_true j : actL j = true ↔ 0 ≤ j < n - 1 ∧ ty S j = false.
Proof. unfold actL. by rewrite andb_true_iff, bool_decide_eq_true, negb_true_iff. Qed.

Lemma actS_true j : actS j = true ↔ 0 ≤ j < n - 1 ∧ ty S j = true.
Proof. unfold actS. by rewrite andb_true_iff, bool_decide_eq_true. Qed.

Lemma base_even c : base n (ltr S) (2 * c) = smaller S c.
Proof.
  rewrite (smaller_positions S S_marked). apply zlen_filter_ext. intros j _. fold (chr S j).
  unfold ltr. destruct (ty S j); simpl Z.b2z; lia.
Qed.

(** The entries of the array are positions or -1. *)
Definition entries (A : list Z) : Prop := zlen A = n ∧ Forall (λ x, -1 ≤ x < n) A.

Lemma entries_get A k : entries A → 0 ≤ k < n → ∃ x, aget A k = Some x ∧ -1 ≤ x < n.
Proof.
  intros [HA HF] Hk. destruct (aget_is_Some A k) as [x Hx]; [lia|]. exists x. split; [done|].
  rewrite Forall_forall in HF. by apply HF, (aget_elem_of _ k).
Qed.

Lemma entries_insert A p j : entries A → -1 ≤ j < n → entries (<[Z.to_nat p := j]> A).
Proof. intros [HA HF] Hj. split; [by rewrite zlen_insert|]. by apply Forall_insert. Qed.

(** [_induceSAl] runs the scan; its bucket pointers are those of the even letters. *)
Section induceL.
Context (R : Z → Z → Prop) (A0 : list Z).
Hypothesis (scan : scan_ok n (ltr S) actL R A0).

Lemma induceL_loop :
  entries A0 →
  ∃ A, _induceSAl (hp A0) t s n K false = Ret (hp A) ∧ entries A ∧ scan_done n (ltr S) actL R A0 A.
Proof.
  intros HA0. destruct scan as [Hinit Hstay HL Hplace Hfinish]. unfold _induceSAl.
  destruct (buckets A0 false ltac:(apply HA0)) as (bkt0 & -> & Hlen0 & Hbkt0). cbn [mbind outcome_bind].
  loop (λ (k : nat) '((h, bkt) : heap * list Z), ∃ A ptr, h = hp A ∧ entries A ∧
    scanned n (ltr S) actL R A0 (Z.of_nat k) A ptr ∧ zlen bkt = K + 1 ∧
    ∀ c, 0 ≤ c ≤ K → aget bkt c = Some (ptr (2 * c))) as ([h bkt] & Hrun & A & ptr & -> & HA & Hsc & _).
  - exists A0, (base n (ltr S)). split_and!; [done..|]. intros c Hc. rewrite Hbkt0, base_even by done. done.
  - intros k i [h bkt] Hi (A & ptr & -> & HA & Hsc & Hlen & Hbkt). apply lookup_seqZ in Hi as [-> Hk].
    rewrite Z.add_0_l. destruct (entries_get A (Z.of_nat k) HA ltac:(lia)) as (x & Hx & Hxr).
    replace (Z.of_nat (Datatypes.S k)) with (Z.of_nat k + 1) by lia.
    unfold induceSAl_step. rewrite aget_hp, Hx by (destruct HA; lia). cbn [of_option mbind outcome_bind].
    destruct (decide (x - 1 >= 0)) as [Hj|Hj].
    + rewrite t_types by lia. cbn [mbind outcome_bind]. destruct (ty S (x - 1)) eqn:Ht; cbn [negb].
      * exists (hp A, bkt). split; [done|]. exists A, ptr. split_and!; try done. apply (Hstay _ _ _ x); [done..|].
        unfold actL. by rewrite Ht, andb_false_r.
      * assert (actL (x - 1) = true) as Ha by (apply actL_true; split; [lia|done]).
        pose proof (HL _ _ _ _ Hsc Hx Ha) as Hp. pose proof (code_range (x - 1) ltac:(lia)) as Hc.
        assert (ltr S (x - 1) = 2 * chr S (x - 1)) as Hltr by (unfold ltr; rewrite Ht; simpl; lia).
        rewrite S_get by (destruct HA; done || lia). cbn [mbind outcome_bind]. unfold bump.
        rewrite Hbkt by done. cbn [of_option mbind outcome_bind]. rewrite aset_in_range by lia.
        cbn [mbind outcome_bind]. rewrite <- Hltr, store_hp by (destruct HA; lia). cbn [mbind outcome_bind].
        eexists (_, _). split; [reflexivity|]. eexists _, _.
        split_and!; [reflexivity|by apply entries_insert; [|lia]|by apply Hplace|by rewrite zlen_insert|].
        intros c Hc'. rewrite aget_insert by lia. unfold upd. rewrite Hltr.
        repeat case_decide; try lia; [done|by apply Hbkt].
    + exists (hp A, bkt). split; [done|]. exists A, ptr. split_and!; try done. apply (Hstay _ _ _ x); [done..|].
      unfold actL. by rewrite bool_decide_eq_false_2 by lia.
  - rewrite Hrun. exists A. split_and!; [done..|]. apply (Hfinish A ptr).
    by rewrite length_seqZ, Z2Nat.id in Hsc by lia.
Qed.
End induceL.

(** ** Inducing the S-type suffixes

    The same scan, from the right: on the reversed array, with the letters
    negated. *)

Definition rltr (j : Z) : Z := - ltr S j.

Lemma base_rev u : base n rltr u = n - base n (ltr S) (1 - u).
Proof.
  unfold base. pose proof (zlen_filter_or (λ j, rltr j < u) (λ j, ltr S j < 1 - u) (λ j, True) (seqZ 0 n)) as H.
  rewrite (filter_all (λ j, True)), zlen_seqZ in H by (lia || by apply Forall_true).
  assert (n = zlen (filter (λ j, rltr j < u) (seqZ 0 n)) + zlen (filter (λ j, ltr S j < 1 - u) (seqZ 0 n))); [|lia].
  apply H. intros j _. unfold rltr. lia.
Qed.

Lemma region_rev u k : region n rltr u k ↔ region n (ltr S) (- u) (n - 1 - k).
Proof.
  unfold region. rewrite !base_rev. replace (1 - (u + 1)) with (- u) by lia.
  replace (- u + 1) with (1 - u) by lia. lia.
Qed.

Section induceS.
Context (R : Z → Z → Prop) (A0 : list Z).
Hypothesis (scan : scan_ok n rltr actS R (reverse A0)).

Lemma induceS_loop :
  entries A0 →
  ∃ A, _induceSAs (hp A0) t s n K true = Ret (hp A) ∧ entries A ∧
    scan_done n rltr actS R (reverse A0) (reverse A).
Proof.
  intros HA0. destruct scan as [Hinit Hstay HL Hplace Hfinish]. unfold _induceSAs.
  destruct (buckets A0 true ltac:(apply HA0)) as (bkt0 & -> & Hlen0 & Hbkt0). cbn [mbind outcome_bind].
  loop (λ (k : nat) '((h, bkt) : heap * list Z), ∃ A ptr, h = hp A ∧ entries A ∧
    scanned n rltr actS R (reverse A0) (Z.of_nat k) (reverse A) ptr ∧ zlen bkt = K + 1 ∧
    ∀ c, 0 ≤ c ≤ K → aget bkt c = Some (n - ptr (- (2 * c + 1)))) as ([h bkt] & Hrun & A & ptr & -> & HA & Hsc & _).
  - exists A0, (base n rltr). split_and!; [done..|]. intros c Hc.
    rewrite Hbkt0, base_rev, <- base_even by done. f_equal. replace (1 - - (2 * c + 1)) with (2 * (c + 1)); lia.
  - intros k i [h bkt] Hi (A & ptr & -> & HA & Hsc & Hlen & Hbkt). apply lookup_down in Hi as [-> Hk].
    pose proof (proj1 HA) as Hn.
    destruct (entries_get A (n - 1 - Z.of_nat k) HA ltac:(lia)) as (x & Hx & Hxr).
    assert (aget (reverse A) (Z.of_nat k) = Some x) as Hx' by (rewrite aget_reverse, Hn by lia; done).
    replace (Z.of_nat (Datatypes.S k)) with (Z.of_nat k + 1) by lia.
    unfold induceSAs_step. rewrite aget_hp, Hx by lia. cbn [of_option mbind outcome_bind].
    assert (actS (x - 1) = false → ∃ st, Ret (hp A, bkt) = Ret st ∧ let '(h, bkt) := st in
      ∃ A ptr, h = hp A ∧ entries A ∧ scanned n rltr actS R (reverse A0) (Z.of_nat k + 1) (reverse A) ptr ∧
        zlen bkt = K + 1 ∧ ∀ c, 0 ≤ c ≤ K → aget bkt c = Some (n - ptr (- (2 * c + 1)))) as Hno.
    { intros Ha. exists (hp A, bkt). split; [done|]. exists A, ptr. split_and!; try done. by apply (Hstay _ _ _ x). }
    destruct (decide (x - 1 >= 0)) as [Hj|Hj]; [|apply Hno; unfold actS; by rewrite bool_decide_eq_false_2 by lia].
    rewrite t_types by lia. cbn [mbind outcome_bind].
    destruct (ty S (x - 1)) eqn:Ht; [|apply Hno; unfold actS; by rewrite Ht, andb_false_r].
    assert (actS (x - 1) = true) as Ha by (apply actS_true; split; [lia|done]).
    pose proof (HL _ _ _ _ Hsc Hx' Ha) as Hp. pose proof (code_range (x - 1) ltac:(lia)) as Hc.
    assert (rltr (x - 1) = - (2 * chr S (x - 1) + 1)) as Hltr by (unfold rltr, ltr; rewrite Ht; simpl; lia).
    rewrite S_get by (done || lia). cbn [mbind outcome_bind]. unfold drop_one.
    rewrite Hbkt by done. cbn [of_option mbind outcome_bind]. rewrite aset_in_range by lia.
    cbn [mbind outcome_bind]. rewrite <- Hltr, store_hp by lia. cbn [mbind outcome_bind].
    eexists (_, _). split; [reflexivity|]. exists (<[Z.to_nat (n - ptr (rltr (x - 1)) - 1) := x - 1]> A).
    exists (upd ptr (rltr (x - 1)) (ptr (rltr (x - 1)) + 1)).
    split_and!; [reflexivity|by apply entries_insert; [|lia]| |by rewrite zlen_insert|].
    + rewrite reverse_insert, Hn by lia.
      replace (n - 1 - (n - ptr (rltr (x - 1)) - 1)) with (ptr (rltr (x - 1))) by lia. by apply Hplace.
    + intros c Hc'. rewrite aget_insert by lia. unfold upd. rewrite Hltr.
      repeat case_decide; try lia; [f_equal; lia|by apply Hbkt].
  - rewrite Hrun. exists A. split_and!; [done..|]. apply (Hfinish _ ptr).
    by rewrite length_down, Z2Nat.id, Z.sub_0_r in Hsc by lia.
Qed.
End induceS.

(** ** From sorted LMS characters to a sorted array *)

Lemma ltr_range j : 0 ≤ j < n → 0 ≤ ltr S j < 2 * K + 2.
Proof. intros Hj. pose proof (code_range j Hj). unfold ltr. destruct (ty S j); simpl Z.b2z; lia. Qed.

Lemma actL_letter j j' : 0 ≤ j < n → 0 ≤ j' < n → ltr S j = ltr S j' → actL j = actL j'.
Proof.
  intros Hj Hj' Heq. apply ltr_inj in Heq as [Hc Ht]. unfold actL. rewrite Ht.
  destruct (ty S j') eqn:Hty; [by rewrite !andb_false_r|].
  assert (∀ i, 0 ≤ i < n → ty S i = false → i < n - 1) as H.
  { intros i Hi Hf. destruct (decide (i = n - 1)) as [->|]; [by rewrite (ty_last S) in Hf|lia]. }
  pose proof (H _ Hj Ht). pose proof (H _ Hj' Hty). by rewrite !bool_decide_eq_true_2 by lia.
Qed.

Lemma actS_letter j j' : 0 ≤ j < n → 0 ≤ j' < n → ltr S j = ltr S j' → actS j = actS j'.
Proof.
  intros Hj Hj' Heq. unfold actS. rewrite (proj2 (ltr_inj S _ _ Heq)). f_equal. apply bool_decide_ext.
  pose proof (ltr_last S S_marked j Hj) as H1. pose proof (ltr_last S S_marked j' Hj') as H2.
  rewrite <- Heq in H2. rewrite Heq in H1. split; intros ?; (split; [lia|]).
  - destruct (decide (j' = n - 1)) as [E|]; [|lia]. subst j'. rewrite H1 in H; [lia|done].
  - destruct (decide (j = n - 1)) as [E|]; [|lia]. subst j. rewrite H2 in H; [lia|done].
Qed.

Lemma actL_next j :
  actL j = true → ltr S (j + 1) < ltr S j ∨ (ltr S (j + 1) = ltr S j ∧ actL (j + 1) = true).
Proof.
  rewrite !actL_true. intros [Hj Ht]. destruct (L_next S S_marked j Hj Ht) as [Hle Heq].
  destruct (decide (chr S (j + 1) = chr S j)) as [Hc|Hc].
  - right. specialize (Heq Hc). unfold ltr. rewrite Hc, Heq, Ht. split_and!; try done; [lia|].
    destruct (decide (j + 1 = n - 1)) as [E|]; [by rewrite E, (ty_last S) in Heq|lia].
  - left. unfold ltr. rewrite Ht. destruct (ty S (j + 1)); simpl Z.b2z; lia.
Qed.

Lemma actS_inner j : 0 ≤ j < n - 1 → ty S j = true → j + 1 < n - 1.
Proof.
  intros Hj Ht. destruct (decide (j + 1 = n - 1)) as [E|]; [|lia].
  replace j with (n - 2) in Ht by lia. by rewrite (ty_penult S) in Ht.
Qed.

Lemma actS_next j :
  actS j = true → rltr (j + 1) < rltr j ∨ (rltr (j + 1) = rltr j ∧ actS (j + 1) = true).
Proof.
  rewrite !actS_true. intros [Hj Ht]. destruct (S_next S S_marked j Hj Ht) as [Hle Heq].
  pose proof (actS_inner j Hj Ht). unfold rltr.
  destruct (decide (chr S (j + 1) = chr S j)) as [Hc|Hc].
  - right. specialize (Heq Hc). unfold ltr. rewrite Hc, Heq, Ht. split_and!; done || lia.
  - left. unfold ltr. rewrite Ht. destruct (ty S (j + 1)); simpl Z.b2z; lia.
Qed.

(** Keys the two scans sort by: each starts with the letter of its position, an
    L-type one continues with the key of the next position, and so does an
    S-type one in the second scan. *)
Record keys (keyL keyS : Z → list Z) : Prop := {
  keyL_head x : 0 ≤ x < n → ∃ l, keyL x = ltr S x :: l;
  keyL_next j : actL j = true → keyL j = ltr S j :: keyL (j + 1);
  keyS_L j : actL j = true → keyS j = keyL j;
  keyS_next j : actS j = true → keyS j = ltr S j :: keyS (j + 1);
  keyS_last : ∃ l, keyS (n - 1) = ltr S (n - 1) :: l;
}.

(** What the first scan starts from: every LMS character once, in its bucket, in
    the order of the keys, and -1 elsewhere. *)
Record seeded (keyL : Z → list Z) (A : list Z) : Prop := {
  seeded_entries : entries A;
  seeded_lms k x : aget A k = Some x → 0 ≤ x → lms S x = true ∧ region n (ltr S) (ltr S x) k;
  seeded_inj k k' x : 0 ≤ x → aget A k = Some x → aget A k' = Some x → k = k';
  seeded_sorted k k' x x' : k < k' → 0 ≤ x → 0 ≤ x' → aget A k = Some x → aget A k' = Some x' →
    ltr S x = ltr S x' → lle (keyL x) (keyL x');
  seeded_all x : 0 ≤ x < n → lms S x = true → ∃ k, aget A k = Some x;
}.

Lemma pos_class x : 0 ≤ x < n → actL x = true ∨ actS x = true ∨ x = n - 1.
Proof.
  intros Hx. rewrite actL_true, actS_true. destruct (decide (x = n - 1)); [by auto|].
  destruct (ty S x); [right; left|left]; (split; [lia|done]).
Qed.

Section sorting.
Context (keyL keyS : Z → list Z) (A0 : list Z).
Hypothesis (HK : keys keyL keyS).
Hypothesis (HA0 : seeded keyL A0).

Definition RL (x y : Z) : Prop := lle (keyL x) (keyL y).
Definition RS (x y : Z) : Prop := lle (keyS y) (keyS x).

Lemma actl_L u : actl n (ltr S) actL u → ∃ j, 0 ≤ j < n - 1 ∧ ty S j = false ∧ ltr S j = u.
Proof. unfold actl. intros (j & _ & [Hj Ht]%actL_true & HV)%Exists_exists. by exists j. Qed.

Lemma actl_S u : actl n rltr actS u → ∃ j, 0 ≤ j < n - 1 ∧ ty S j = true ∧ ltr S j = - u.
Proof.
  unfold actl. intros (j & _ & [Hj Ht]%actS_true & HV)%Exists_exists. exists j. unfold rltr in HV.
  split_and!; done || lia.
Qed.

Lemma lms_not_actl x : 0 ≤ x < n → lms S x = true → ¬ actl n (ltr S) actL (ltr S x).
Proof.
  intros Hx (_ & Ht & _)%lms_inv (j & Hj & Hf & Heq)%actl_L. apply ltr_inj in Heq as [_ Heq]. congruence.
Qed.

(** The seeds of a region. *)
Lemma seed_region k u x :
  region n (ltr S) u k → aget A0 k = Some x → 0 ≤ x → 0 ≤ x < n ∧ lms S x = true ∧ ltr S x = u.
Proof.
  intros Hu Hx Hpos. destruct (seeded_lms _ _ HA0 k x Hx Hpos) as [Hl Hr].
  destruct (seeded_entries _ _ HA0) as [_ HF]. rewrite Forall_forall in HF.
  pose proof (HF x (aget_elem_of _ _ _ Hx)). split_and!; [lia..|done|].
  by apply (region_unique n (ltr S) (ltr S x) u k).
Qed.

Lemma seed_junk k x : aget A0 k = Some x → actS (x - 1) = false.
Proof.
  intros Hx. destruct (decide (0 ≤ x)) as [Hp|Hp]; [|unfold actS; by rewrite bool_decide_eq_false_2 by lia].
  destruct (seeded_lms _ _ HA0 k x Hx Hp) as [(_ & _ & Hf)%lms_inv _].
  unfold actS. by rewrite Hf, andb_false_r.
Qed.

Lemma scan_L : scan_ok n (ltr S) actL RL A0.
Proof.
  pose proof (seeded_entries _ _ HA0) as HE. apply (scan_runs n (ltr S) actL RL A0) with (lo := 0) (hi := 2 * K + 2).
  - lia.
  - apply HE.
  - apply ltr_range.
  - by intros j [? _]%actL_true.
  - apply actL_letter.
  - apply actL_next.
  - intros x y Hx Hy Hlt. unfold RL. destruct (keyL_head _ _ HK x Hx) as [l ->].
    destruct (keyL_head _ _ HK y Hy) as [l' ->]. by apply lle_head.
  - intros j j' Ha Ha' HV HR. unfold RL. rewrite (keyL_next _ _ HK j), (keyL_next _ _ HK j'), HV by done.
    by apply lle_cons.
  - intros k u x Hu Hl Hx. unfold actL. rewrite bool_decide_eq_false_2; [done|]. intros ?.
    destruct (seed_region k u x Hu Hx ltac:(lia)) as (Hr & Hlms & <-). by apply (lms_not_actl x).
  - intros k u x Hu Hl Hx. destruct (decide (x < 0)); [by left|right].
    destruct (seed_region k u x Hu Hx ltac:(lia)) as (Hr & _ & ?). done.
  - intros k k' u x _ _ _. apply (seeded_inj _ _ HA0).
  - intros k k' u x x' Hu Hu' _ Hlt Hx Hx' Hk Hk'.
    apply (seeded_sorted _ _ HA0 k k'); try done.
    destruct (seed_region k u x Hu Hk Hx) as (_ & _ & ->). by destruct (seed_region k' u x' Hu' Hk' Hx') as (_ & _ & ->).
  - intros j [Hj Ht]%actL_true. destruct (after_L S j Hj Ht) as [Hf|Hl].
    + left. apply actL_true. split; [|done].
      destruct (decide (j + 1 = n - 1)) as [E|]; [by rewrite E, (ty_last S) in Hf|lia].
    + right. destruct (seeded_all _ _ HA0 (j + 1) ltac:(lia) Hl) as [k Hk].
      destruct (seeded_lms _ _ HA0 k (j + 1) Hk ltac:(lia)) as [_ Hr].
      exists k, (ltr S (j + 1)). split_and!; [done| |done]. apply lms_not_actl; [lia|done].
Qed.

Section second.
Context (A1 : list Z).
Hypothesis (HA1 : scan_done n (ltr S) actL RL A0 A1).

Lemma zlen_A1 : zlen A1 = n.
Proof. apply HA1. Qed.

Lemma get_rev_A1 k u x :
  region n rltr u k → aget (reverse A1) k = Some x →
  region n (ltr S) (- u) (n - 1 - k) ∧ aget A1 (n - 1 - k) = Some x.
Proof.
  intros Hu Hx. pose proof (region_range n rltr ltac:(lia) _ _ Hu) as Hr.
  rewrite aget_reverse, zlen_A1 in Hx by (rewrite zlen_A1; lia). by apply region_rev in Hu.
Qed.

(** A bucket of letters that are neither placed by the first nor by the second
    scan holds the sentinel only. *)
Lemma sentinel_bucket u k x :
  region n (ltr S) u k → ¬ actl n (ltr S) actL u → ¬ actl n rltr actS (- u) →
  aget A1 k = Some x → 0 ≤ x → x = n - 1.
Proof.
  intros Hu Hl Hs Hk Hx. rewrite (done_seed _ _ _ _ _ _ HA1 u k Hl Hu) in Hk.
  destruct (seed_region k u x Hu Hk Hx) as (Hr & _ & <-).
  destruct (pos_class x Hr) as [Ha|[Ha|?]]; [| |done]; exfalso.
  - apply Hl. apply actl_letter; [apply actL_letter|done..].
  - apply Hs. change (- ltr S x) with (rltr x). apply actl_letter; [|done..].
    intros j j' Hj Hj' Heq. apply actS_letter; [done..|]. unfold rltr in Heq. lia.
Qed.

Lemma second_seed k u x :
  region n rltr u k → ¬ actl n rltr actS u → aget (reverse A1) k = Some x →
  x < 0 ∨ (0 ≤ x < n ∧ rltr x = u).
Proof.
  intros Hu Hs Hx. destruct (get_rev_A1 k u x Hu Hx) as [Hu' Hx'].
  destruct (decide (actl n (ltr S) actL (- u))) as [Hl|Hl].
  - destruct (done_bucket _ _ _ _ _ _ HA1 _ _ Hl Hu') as (j & Hj & [Ha _]%actL_true & HV).
    rewrite Hx' in Hj. simplify_eq. unfold rltr. right. lia.
  - destruct (decide (x < 0)); [by left|right].
    rewrite (done_seed _ _ _ _ _ _ HA1 _ _ Hl Hu') in Hx'.
    destruct (seed_region _ _ _ Hu' Hx' ltac:(lia)) as (? & _ & ?). unfold rltr. lia.
Qed.

Lemma second_inj k k' u x :
  region n rltr u k → region n rltr u k' → 0 ≤ x →
  aget (reverse A1) k = Some x → aget (reverse A1) k' = Some x → k = k'.
Proof.
  intros Hu Hu' Hp Hx Hx'. destruct (get_rev_A1 k u x Hu Hx) as [Hr Hk].
  destruct (get_rev_A1 k' u x Hu' Hx') as [Hr' Hk']. assert (n - 1 - k = n - 1 - k'); [|lia].
  destruct (decide (actl n (ltr S) actL (- u))) as [Hl|Hl].
  - by apply (done_inj _ _ _ _ _ _ HA1 (- u) _ _ x).
  - rewrite (done_seed _ _ _ _ _ _ HA1 _ _ Hl Hr) in Hk. rewrite (done_seed _ _ _ _ _ _ HA1 _ _ Hl Hr') in Hk'.
    by apply (seeded_inj _ _ HA0 _ _ x).
Qed.

Lemma second_sorted k k' u x x' :
  region n rltr u k → region n rltr u k' → ¬ actl n rltr actS u → k < k' → 0 ≤ x → 0 ≤ x' →
  aget (reverse A1) k = Some x → aget (reverse A1) k' = Some x' → RS x x'.
Proof.
  intros Hu Hu' Hs Hlt Hp Hp' Hx Hx'. destruct (get_rev_A1 k u x Hu Hx) as [Hr Hk].
  destruct (get_rev_A1 k' u x' Hu' Hx') as [Hr' Hk'].
  destruct (decide (actl n (ltr S) actL (- u))) as [Hl|Hl].
  - destruct (done_bucket _ _ _ _ _ _ HA1 _ _ Hl Hr) as (j & Hj & Ha & _). rewrite Hk in Hj. simplify_eq.
    destruct (done_bucket _ _ _ _ _ _ HA1 _ _ Hl Hr') as (j' & Hj' & Ha' & _). rewrite Hk' in Hj'. simplify_eq.
    unfold RS. rewrite !(keyS_L _ _ HK) by done.
    apply (done_sorted _ _ _ _ _ _ HA1 (- u) (n - 1 - k') (n - 1 - k)); done || lia.
  - assert (x' = x) as ->; [|pose proof (second_inj k k' u x Hu Hu' Hp Hx Hx'); lia].
    transitivity (n - 1); [|symmetry].
    + apply (sentinel_bucket (- u) (n - 1 - k')); try done. by rewrite Z.opp_involutive.
    + apply (sentinel_bucket (- u) (n - 1 - k)); try done. by rewrite Z.opp_involutive.
Qed.

(** Keys of the second scan start with the letter too. *)
Lemma keyS_head x : 0 ≤ x < n → ∃ l, keyS x = ltr S x :: l.
Proof.
  intros Hx. destruct (pos_class x Hx) as [Ha|[Ha| ->]].
  - rewrite (keyS_L _ _ HK), (keyL_next _ _ HK) by done. by eexists.
  - rewrite (keyS_next _ _ HK) by done. by eexists.
  - apply HK.
Qed.

Lemma RS_letter x y : 0 ≤ x < n → 0 ≤ y < n → rltr x < rltr y → RS x y.
Proof.
  intros Hx Hy Hlt. unfold RS. destruct (keyS_head x Hx) as [l ->]. destruct (keyS_head y Hy) as [l' ->].
  apply lle_head. unfold rltr in Hlt. lia.
Qed.

Lemma scan_S : scan_ok n rltr actS RS (reverse A1).
Proof.
  apply (scan_runs n rltr actS RS (reverse A1)) with (lo := - (2 * K + 2)) (hi := 1).
  - lia.
  - by rewrite zlen_reverse, zlen_A1.
  - intros j Hj. pose proof (ltr_range j Hj). unfold rltr. lia.
  - by intros j [? _]%actS_true.
  - intros j j' Hj Hj' HV. apply actS_letter; [done..|]. unfold rltr in HV. lia.
  - apply actS_next.
  - apply RS_letter.
  - intros j j' Ha Ha' HV HR. unfold RS. rewrite (keyS_next _ _ HK j), (keyS_next _ _ HK j') by done.
    unfold rltr in HV. replace (ltr S j') with (ltr S j) by lia. by apply lle_cons.
  - intros k u x Hu Hs Hx. destruct (get_rev_A1 k u x Hu Hx) as [Hr Hk].
    apply actl_S in Hs as (j & Hj & Ht & Hjl). rewrite (done_seed _ _ _ _ _ _ HA1 (- u)) in Hk; [by apply (seed_junk _ _ Hk)| |done].
    intros (j' & _ & Hf & Hjl')%actl_L. rewrite <- Hjl in Hjl'. apply ltr_inj in Hjl' as [_ ?]. congruence.
  - apply second_seed.
  - intros k k' u x Hu Hu' _. by apply (second_inj k k' u).
  - apply second_sorted.
  - intros j [Hj Ht]%actS_true. pose proof (actS_inner j Hj Ht).
    destruct (ty S (j + 1)) eqn:Ht'; [left; apply actS_true; split; [lia|done]|right].
    destruct (done_all _ _ _ _ _ _ HA1 (j + 1)) as (k & Hr & Hk); [apply actL_true; split; [lia|done]|].
    pose proof (aget_Some_range _ _ _ Hk) as Hkr. rewrite zlen_A1 in Hkr.
    exists (n - 1 - k), (rltr (j + 1)). split_and!.
    + apply region_rev. unfold rltr. rewrite Z.opp_involutive. by replace (n - 1 - (n - 1 - k)) with k by lia.
    + intros (j' & _ & Hs & Heq)%actl_S. unfold rltr in Heq. rewrite Z.opp_involutive in Heq.
      apply ltr_inj in Heq as [_ ?]. congruence.
    + rewrite aget_reverse, zlen_A1 by (rewrite zlen_A1; lia).
      by replace (n - 1 - (n - 1 - k)) with k by lia.
Qed.

Context (A2 : list Z).
Hypothesis (HA2 : scan_done n rltr actS RS (reverse A1) (reverse A2)).

Lemma zlen_A2 : zlen A2 = n.
Proof. rewrite <- zlen_reverse. apply HA2. Qed.

Lemma A2_rev u k :
  region n (ltr S) u k → region n rltr (- u) (n - 1 - k) ∧ aget A2 k = aget (reverse A2) (n - 1 - k).
Proof.
  intros Hu. pose proof (region_range n (ltr S) ltac:(lia) _ _ Hu) as Hr. split.
  - apply region_rev. rewrite Z.opp_involutive. by replace (n - 1 - (n - 1 - k)) with k by lia.
  - rewrite aget_reverse, zlen_A2 by (rewrite zlen_A2; lia). f_equal. lia.
Qed.

Lemma A2_kept u k :
  region n (ltr S) u k → ¬ actl n rltr actS (- u) → aget A2 k = aget A1 k.
Proof.
  intros Hu Hs. pose proof (region_range n (ltr S) ltac:(lia) _ _ Hu) as Hr.
  destruct (A2_rev u k Hu) as [Hu' ->]. rewrite (done_seed _ _ _ _ _ _ HA2 _ _ Hs Hu').
  rewrite aget_reverse, zlen_A1 by (rewrite zlen_A1; lia). f_equal. lia.
Qed.

Lemma L_not_actS j : ty S j = false → ¬ actl n rltr actS (- ltr S j).
Proof.
  intros Hf (j' & _ & Ht & Heq)%actl_S. rewrite Z.opp_involutive in Heq.
  apply ltr_inj in Heq as [_ ?]. congruence.
Qed.

(** Every position is in the array, in its bucket. *)
Lemma A2_all x : 0 ≤ x < n → ∃ k, region n (ltr S) (ltr S x) k ∧ aget A2 k = Some x.
Proof.
  intros Hx. destruct (pos_class x Hx) as [Ha|[Ha|Hn]].
  - destruct (done_all _ _ _ _ _ _ HA1 x Ha) as (k & Hr & Hk). exists k. split; [done|].
    apply actL_true in Ha as [_ Hf]. rewrite (A2_kept _ _ Hr); [done|]. by apply L_not_actS.
  - destruct (done_all _ _ _ _ _ _ HA2 x Ha) as (k & Hr & Hk). exists (n - 1 - k).
    apply region_rev in Hr. unfold rltr in Hr. rewrite Z.opp_involutive in Hr. split; [done|].
    destruct (A2_rev _ _ Hr) as [_ ->]. by replace (n - 1 - (n - 1 - k)) with k by lia.
  - pose proof (lms_last S S_marked S_length') as Hl. rewrite <- Hn in Hl.
    destruct (seeded_all _ _ HA0 x Hx Hl) as [k Hk]. exists k.
    destruct (seeded_lms _ _ HA0 k x Hk ltac:(lia)) as [_ Hr]. split; [done|].
    rewrite (A2_kept _ _ Hr), (done_seed _ _ _ _ _ _ HA1 _ _ (lms_not_actl x Hx Hl) Hr); [done|].
    intros (j & Hj & _ & Heq)%actl_S. rewrite Z.opp_involutive, Hn in Heq.
    apply (ltr_last S) in Heq; [lia|done|lia].
Qed.

Lemma A2_perm : A2 ≡ₚ seqZ 0 n.
Proof.
  apply seqZ_cover; [apply zlen_A2|]. intros x Hx.
  destruct (A2_all x Hx) as (k & _ & Hk). by apply (aget_elem_of _ k).
Qed.

Lemma A2_get k x : aget A2 k = Some x → 0 ≤ x < n ∧ region n (ltr S) (ltr S x) k.
Proof.
  intros Hk. assert (0 ≤ x < n) as Hx.
  { apply aget_elem_of in Hk. rewrite A2_perm in Hk. apply elem_of_seqZ in Hk. lia. }
  split; [done|]. destruct (A2_all x Hx) as (k' & Hr & Hk').
  assert (NoDup A2) as Hnd by (rewrite A2_perm; apply NoDup_seqZ).
  pose proof (aget_Some_range _ _ _ Hk). pose proof (aget_Some_range _ _ _ Hk').
  rewrite aget_nonneg in Hk, Hk' by lia. pose proof (NoDup_lookup _ _ _ _ Hnd Hk Hk').
  by replace k with k' by lia.
Qed.

Lemma A2_sorted : StronglySorted (λ x y, lle (keyS x) (keyS y)) A2.
Proof.
  apply StronglySorted_aget. intros k k' x x' Hlt Hk Hk'.
  destruct (A2_get k x Hk) as [Hx Hr]. destruct (A2_get k' x' Hk') as [Hx' Hr'].
  destruct (Z.lt_total (ltr S x) (ltr S x')) as [Hll|[Heq|Hgt]].
  - apply RS_letter; [done..|]. unfold rltr. lia.
  - rewrite <- Heq in Hr'. destruct (A2_rev _ _ Hr) as [Hs Hks]. destruct (A2_rev _ _ Hr') as [Hs' Hks'].
    rewrite Hks in Hk. rewrite Hks' in Hk'.
    destruct (decide (actl n rltr actS (- ltr S x))) as [Ha|Ha].
    + apply (done_sorted _ _ _ _ _ _ HA2 (- ltr S x) (n - 1 - k') (n - 1 - k)); done || lia.
    + rewrite (done_seed _ _ _ _ _ _ HA2 _ _ Ha Hs) in Hk. rewrite (done_seed _ _ _ _ _ _ HA2 _ _ Ha Hs') in Hk'.
      apply (second_sorted (n - 1 - k') (n - 1 - k) (- ltr S x)); done || lia.
  - pose proof (region_lt _ _ _ _ _ _ Hr' Hr Hgt). lia.
Qed.
End second.

(** The two loops sort every position by its key. *)
Lemma induce_sorts :
  ∃ A, (h ← _induceSAl (hp A0) t s n K false; _induceSAs h t s n K true) = Ret (hp A) ∧
    A ≡ₚ seqZ 0 n ∧ StronglySorted (λ x y, lle (keyS x) (keyS y)) A.
Proof.
  destruct (induceL_loop RL A0 scan_L (seeded_entries _ _ HA0)) as (A1 & -> & HE1 & HA1). cbn [mbind outcome_bind].
  destruct (induceS_loop RS A1 (scan_S A1 HA1) HE1) as (A2 & -> & _ & HA2).
  exists A2. split; [done|]. split; [by apply (A2_perm A1)|by apply (A2_sorted A1)].
Qed.
End sorting.
End level.
