(* ===== verification/SaisLevel.v ===== *)
(** * One level of the suffix sort

    The loops of [SAIS._make] around the induction: placing the LMS characters at
    the ends of their buckets, collecting them sorted, naming the strings between
    them, and storing the string of names behind the array of its own problem. *)

From S2P Require Import Prelude BitVector Suffixes Sais SaisTypes SaisScan SaisInduce.

Local Open Scope Z_scope.
Import SAIS.

Lemma StronglySorted_reverse {A} (R : relation A) (l : list A) :
  StronglySorted R l → StronglySorted (flip R) (reverse l).
Proof.
  induction 1 as [|x l _ IH Hall]; [constructor|]. rewrite reverse_cons.
  apply StronglySorted_app_2; [|done|repeat constructor].
  intros y z Hy ->%list_elem_of_singleton. rewrite elem_of_reverse in Hy.
  rewrite Forall_forall in Hall. by apply Hall.
Qed.

Lemma StronglySorted_all {A} (R : relation A) (l : list A) :
  (∀ x y, x ∈ l → y ∈ l → R x y) → StronglySorted R l.
Proof.
  induction l as [|x l IH]; intros HR; constructor; [apply IH; set_solver|].
  apply Forall_forall. intros y Hy. apply HR; set_solver.
Qed.

Lemma NoDup_split {A} (l P P' Q Q' : list A) x :
  NoDup l → l = P ++ x :: Q → l = P' ++ x :: Q' → P = P' ∧ Q = Q'.
Proof.
  intros Hnd -> Heq. revert P' Heq. induction P as [|y P IH]; intros [|y' P'] Heq; simpl in *; simplify_eq.
  - done.
  - apply NoDup_cons in Hnd as [Hn _]. destruct Hn. set_solver.
  - apply NoDup_cons in Hnd as [Hn _]. destruct Hn. set_solver.
  - apply NoDup_cons in Hnd as [_ Hnd]. destruct (IH Hnd P') as [-> ->]; [done|done].
Qed.

(** Two elements of a list, in either order. *)
Lemma split_order {A} (l P P' Q Q' : list A) x y :
  l = P ++ x :: Q → l = P' ++ y :: Q' →
  (P = P' ∧ x = y ∧ Q = Q') ∨ (∃ M, P' = P ++ x :: M) ∨ (∃ M, P = P' ++ y :: M).
Proof.
  intros -> Heq. revert P' Heq. induction P as [|z P IH]; intros [|z' P'] Heq; injection Heq as -> Heq.
  - by left.
  - right. left. by exists P'.
  - right. right. by exists P.
  - destruct (IH P' Heq) as [(-> & -> & ->)|[[M ->]|[M ->]]]; eauto 10.
Qed.

(** ** The hypotheses of a level *)

Record level (S chs tail : list Z) (s : OArray) (K : Z) : Prop := {
  lv_marked : marked S;
  lv_length : 2 ≤ zlen S < 2 ^ 31 - 1;
  lv_get A i : zlen A = zlen S → 0 ≤ i < zlen S → get (hp chs tail A) s i = Ret (chr S i);
  lv_codes i : 0 ≤ i < zlen S → chr S i ≤ K;
}.

Section level.
Context (S chs tail : list Z) (s : OArray) (K : Z).
Hypothesis (HS : level S chs tail s K).
Abbreviation n := (zlen S).
Abbreviation hp := (hp chs tail).
Let S_marked := lv_marked _ _ _ _ _ HS.
Let S_length := lv_length _ _ _ _ _ HS.
Let S_length' : 2 ≤ zlen S := proj1 S_length.
Let S_get := lv_get _ _ _ _ _ HS.
Let S_codes := lv_codes _ _ _ _ _ HS.
Context (t : BV.t).
Hypothesis (t_types : ∀ i, 0 ≤ i < n → BV.get t i = Ret (ty S i)).

(** ** Placing LMS characters *)

Definition with_chr (c : Z) (l : list Z) : Z := zlen (filter (λ y, chr S y = c) l).

(** The cell that [x] gets after the characters [P]. *)
Definition slot (P : list Z) (x : Z) : Z := smaller S (chr S x + 1) - 1 - with_chr (chr S x) P.

Definition lms_list (l : list Z) : Prop := NoDup l ∧ ∀ x, x ∈ l → 0 ≤ x < n ∧ lms S x = true.

Lemma with_chr_app c P Q : with_chr c (P ++ Q) = with_chr c P + with_chr c Q.
Proof. unfold with_chr. by rewrite filter_app, zlen_app. Qed.

Lemma with_chr_cons c x P : with_chr c (x :: P) = (if decide (chr S x = c) then 1 else 0) + with_chr c P.
Proof. unfold with_chr. rewrite filter_cons. case_decide; [by rewrite zlen_cons|lia]. Qed.

Lemma lms_letter x : lms S x = true → ltr S x = 2 * chr S x + 1.
Proof. intros (_ & Ht & _)%lms_inv. unfold ltr. by rewrite Ht. Qed.

Lemma slot_region P x : lms_list (P ++ [x]) → region n (ltr S) (ltr S x) (slot P x).
Proof.
  intros [Hnd Hl]. assert (ltr S x = 2 * chr S x + 1) as Hx by (apply lms_letter, Hl; set_solver).
  pose proof (base_count n (ltr S) (ltr S x)) as Hb.
  assert (with_chr (chr S x) (P ++ [x]) ≤ zlen (filter (λ j, ltr S j = ltr S x) (seqZ 0 n))) as Hc.
  { apply NoDup_count; [by apply NoDup_filter|]. intros y [Hy Hin]%list_elem_of_filter.
    destruct (Hl y Hin) as [Hr Hlms]. apply list_elem_of_filter. split; [|apply elem_of_seqZ; lia].
    rewrite (lms_letter y Hlms), Hx. lia. }
  rewrite with_chr_app, with_chr_cons, decide_True in Hc by done. change (with_chr _ []) with 0 in Hc.
  pose proof (zlen_nonneg (filter (λ y, chr S y = chr S x) P)) as Hp. fold (with_chr (chr S x) P) in Hp.
  unfold region, slot. replace (ltr S x + 1) with (2 * (chr S x + 1)) in * by lia.
  rewrite (base_even S S_marked) in *. lia.
Qed.

Lemma slot_range P x : lms_list (P ++ [x]) → 0 ≤ slot P x < n.
Proof. intros Hl. eapply region_range; [lia|]. by apply slot_region. Qed.

Lemma lms_list_prefix P Q : lms_list (P ++ Q) → lms_list P.
Proof. intros [Hnd Hl]. apply NoDup_app in Hnd as (Hnd & _ & _). split; [done|]. set_solver. Qed.

Lemma lms_list_split P x Q : lms_list (P ++ x :: Q) → lms_list (P ++ [x]).
Proof. rewrite (cons_middle x P Q), app_assoc. apply lms_list_prefix. Qed.

(** Later characters of a bucket get earlier cells. *)
Lemma slot_later P x M y :
  lms_list (P ++ x :: M ++ [y]) → ltr S y = ltr S x → slot (P ++ x :: M) y < slot P x.
Proof.
  intros _ [Hc _]%ltr_inj. unfold slot. rewrite Hc, with_chr_app, with_chr_cons, decide_True by done.
  pose proof (zlen_nonneg (filter (λ z, chr S z = chr S x) M)) as Hp. fold (with_chr (chr S x) M) in Hp. lia.
Qed.

Lemma slot_fresh P x M y : lms_list (P ++ x :: M ++ [y]) → slot (P ++ x :: M) y ≠ slot P x.
Proof.
  intros Hl Heq. destruct (decide (ltr S y = ltr S x)) as [He|Hne].
  { pose proof (slot_later P x M y Hl He). lia. }
  apply Hne. eapply (region_unique n (ltr S)); [apply (slot_region (P ++ x :: M)); by rewrite <- app_assoc|].
  rewrite Heq. apply slot_region. by apply (lms_list_split _ _ (M ++ [y])).
Qed.

(** [U] is the part of the array still to be moved, [l] the characters placed. *)
Record placed (U l A : list Z) : Prop := {
  placed_entries : entries S A;
  placed_get k x : 0 ≤ x → aget A k = Some x ↔ aget U k = Some x ∨ ∃ P Q, l = P ++ x :: Q ∧ k = slot P x;
}.

Lemma placed_clear U x l A :
  placed (U ++ [x]) l A → zlen U < n → (∀ P y Q, l = P ++ y :: Q → slot P y ≠ zlen U) →
  placed U l (<[Z.to_nat (zlen U) := -1]> A).
Proof.
  intros [HE HG] HU Hl. pose proof (zlen_nonneg U). split; [apply entries_insert; [done|lia]|].
  intros k y Hy. rewrite aget_insert by (destruct HE; lia). case_decide as Hk.
  - subst k. split; [intros [=]; lia|]. rewrite aget_None by lia. intros [|(P & Q & Heq & Hk)]; [done|].
    by destruct (Hl P y Q Heq).
  - rewrite HG by done. f_equiv. destruct (decide (k < zlen U)) as [Hlt|Hge]; [by rewrite aget_app_l|].
    rewrite !aget_None by (rewrite ?zlen_app; change (zlen [x]) with 1; lia). done.
Qed.

Lemma placed_add U l x A :
  placed U l A → lms_list (l ++ [x]) → zlen U ≤ slot l x →
  placed U (l ++ [x]) (<[Z.to_nat (slot l x) := x]> A).
Proof.
  intros [HE HG] Hl HU. pose proof (slot_range l x Hl) as Hs. destruct (proj2 Hl x ltac:(set_solver)) as [Hx _].
  split; [apply entries_insert; [done|lia]|]. intros k y Hy. rewrite aget_insert by (destruct HE; lia).
  case_decide as Hk.
  - subst k. split; [intros [= <-]; right; by exists l, []|]. rewrite aget_None by lia.
    intros [|(P & Q & Heq & Hk)]; [done|]. destruct Q as [|z Q _] using rev_ind.
    { apply app_inj_tail in Heq as [_ ->]. done. }
    rewrite app_comm_cons, app_assoc in Heq. apply app_inj_tail in Heq as [-> ->].
    exfalso. rewrite <- app_assoc in Hl. by apply (slot_fresh P y Q z).
  - rewrite HG by done. f_equiv. split; intros (P & Q & Heq & ->).
    + exists P, (Q ++ [x]). by rewrite Heq, <- app_assoc.
    + destruct Q as [|z Q _] using rev_ind.
      { apply app_inj_tail in Heq as [-> ->]. done. }
      rewrite app_comm_cons, app_assoc in Heq. apply app_inj_tail in Heq as [-> ->]. by exists P, Q.
Qed.

(** Buckets after the characters [l]. *)
Definition bkts (bkt l : list Z) : Prop :=
  zlen bkt = K + 1 ∧ ∀ c, 0 ≤ c ≤ K → aget bkt c = Some (smaller S (c + 1) - with_chr c l).

Lemma bkts_start A : zlen A = n → ∃ bkt, _getBuckets (hp A) s n K true = Ret bkt ∧ bkts bkt [].
Proof.
  intros HA. destruct (buckets S chs tail s S_marked S_length S_get K S_codes A true HA) as (bkt & -> & Hlen & Hb).
  exists bkt. split; [done|]. split; [done|]. intros c Hc. rewrite Hb by done. f_equal.
  change (with_chr c []) with 0. lia.
Qed.

Lemma bkts_drop bkt l x :
  bkts bkt l → 0 ≤ x < n → ∃ bkt', drop_one bkt (chr S x) = Ret (slot l x, bkt') ∧ bkts bkt' (l ++ [x]).
Proof.
  intros [Hlen Hb] Hx. pose proof (code_range S S_marked K S_codes x Hx) as Hc. unfold drop_one.
  rewrite Hb by done. cbn [of_option mbind outcome_bind]. rewrite aset_in_range by lia. cbn [mbind outcome_bind].
  eexists. split; [unfold slot; do 2 f_equal; lia|]. split; [by rewrite zlen_insert|]. intros c Hc'.
  rewrite aget_insert, with_chr_app, with_chr_cons by lia. change (with_chr c []) with 0.
  case_decide as H1; [subst c; rewrite decide_True by done; f_equal; lia|].
  rewrite decide_False, Hb by done. f_equal. lia.
Qed.

(** All the LMS characters placed, sorted from the last to the first. *)
Lemma placed_seeded key l A :
  placed [] l A → l ≡ₚ lmslist S → StronglySorted (λ x y, ltr S x = ltr S y → lle (key y) (key x)) l → seeded S key A.
Proof.
  intros [HE HG] Hperm Hsort.
  assert (lms_list l) as Hl.
  { split; [rewrite Hperm; apply NoDup_filter, NoDup_seqZ|]. intros x. rewrite Hperm. by intros ?%elem_of_lmslist. }
  assert (∀ k x, 0 ≤ x → aget A k = Some x ↔ ∃ P Q, l = P ++ x :: Q ∧ k = slot P x) as HG'.
  { intros k x Hx. rewrite HG by done. split; [intros [Hn|?]; [by rewrite aget_None in Hn by (change (zlen []) with 0; lia)|done]|by right]. }
  split; [done|..].
  - intros k x Hk Hx. destruct (proj1 (HG' k x Hx) Hk) as (P & Q & Heq & ->).
    destruct (proj2 Hl x ltac:(set_solver)) as [_ Hlms]. split; [done|]. apply slot_region.
    apply (lms_list_split P x Q). by rewrite <- Heq.
  - intros k k' x Hx Hk Hk'. destruct (proj1 (HG' k x Hx) Hk) as (P & Q & Heq & ->).
    destruct (proj1 (HG' k' x Hx) Hk') as (P' & Q' & Heq' & ->).
    destruct (NoDup_split _ _ _ _ _ _ (proj1 Hl) Heq Heq') as [-> _]. done.
  - intros k k' x x' Hlt Hx Hx' Hk Hk' Hltr. destruct (proj1 (HG' k x Hx) Hk) as (P & Q & Heq & ->).
    destruct (proj1 (HG' k' x' Hx') Hk') as (P' & Q' & Heq' & ->).
    destruct (split_order _ _ _ _ _ _ _ Heq Heq') as [(-> & -> & _)|[[M ->]|[M ->]]]; [lia|..].
    + exfalso. apply (Z.lt_asymm _ _ Hlt). apply slot_later; [|done].
      rewrite app_comm_cons, app_assoc. apply (lms_list_split _ _ Q'). by rewrite <- Heq'.
    + rewrite Heq' in Hsort. rewrite Heq' in Heq. rewrite <- app_assoc in Heq. apply app_inv_head in Heq.
      simplify_eq/=. apply StronglySorted_app_1_r, StronglySorted_inv in Hsort as [_ Hall].
      rewrite Forall_forall in Hall. apply Hall; [set_solver|done].
  - intros x Hx Hlms. assert (x ∈ l) as Hin by (rewrite Hperm; by apply elem_of_lmslist).
    apply list_elem_of_split in Hin as (P & Q & Heq). exists (slot P x). apply HG'; [lia|]. by exists P, Q.
Qed.

Lemma isLMS_spec i : 0 ≤ i < n → _isLMS t i = Ret (lms S i).
Proof.
  intros Hi. unfold _isLMS, lms. case_decide as Hp.
  - rewrite !t_types by lia. cbn [mbind outcome_bind]. rewrite bool_decide_eq_true_2 by lia. by destruct (ty S i).
  - by rewrite bool_decide_eq_false_2 by lia.
Qed.

Definition lms_upto (k : Z) : list Z := filter (λ i, lms S i = true) (seqZ 0 k).

Lemma lms_upto_step (k : nat) :
  lms_upto (Z.of_nat k + 1) = lms_upto (Z.of_nat k) ++ if lms S (Z.of_nat k) then [Z.of_nat k] else [].
Proof.
  unfold lms_upto. replace (Z.of_nat k + 1) with (Z.of_nat (Datatypes.S k)) by lia. rewrite seqZ_S, filter_app. f_equal. rewrite filter_cons, Z.add_0_l.
  case_decide; by destruct (lms S (Z.of_nat k)).
Qed.

Lemma lms_upto_list k : k ≤ n → lms_list (lms_upto k).
Proof.
  intros Hk. split; [apply NoDup_filter, NoDup_seqZ|].
  intros x [Hl Hx%elem_of_seqZ]%list_elem_of_filter. split; [lia|done].
Qed.

(** Stage 1: the LMS characters in the order of the string. *)
Lemma place_LMS_spec A bkt :
  A = replicate (Z.to_nat n) (-1) → bkts bkt [] →
  ∃ A', place_LMS (hp A) t s bkt n = Ret (hp A') ∧ seeded S (rest S) A'.
Proof.
  intros HA Hb. unfold place_LMS.
  loop (λ (k : nat) '((h, bkt) : heap * list Z), ∃ A, h = hp A ∧ placed [] (lms_upto (Z.of_nat k + 1)) A ∧
    bkts bkt (lms_upto (Z.of_nat k + 1))) as ([h bkt'] & Hrun & A' & -> & HP & _).
  - exists A. split; [done|]. change (lms_upto (Z.of_nat 0 + 1)) with (@nil Z). split; [|done]. subst A. split.
    + split; [rewrite zlen_replicate; lia|]. apply Forall_replicate. lia.
    + intros k x Hx. split; [|intros [Hn|(P & Q & Heq & _)]; [by destruct (Z.to_nat k); unfold aget in Hn; case_decide|by destruct P]].
      intros Hk%aget_elem_of%elem_of_replicate_inv. lia.
  - intros k i [h bkt'] Hi (A' & -> & HP & Hb'). apply lookup_seqZ in Hi as [-> Hk].
    rewrite Z.add_comm, isLMS_spec by lia. cbn [mbind outcome_bind].
    rewrite Nat2Z.inj_succ. unfold Z.succ. pose proof (lms_upto_step (Datatypes.S k)) as Hstep.
    rewrite Nat2Z.inj_succ in Hstep. unfold Z.succ in Hstep. rewrite Hstep. clear Hstep.
    destruct (lms S (Z.of_nat k + 1)) eqn:Hl; [|by eexists (_, _); split; [done|]; exists A'; rewrite app_nil_r].
    pose proof (proj1 (placed_entries _ _ _ HP)) as Hn. rewrite S_get by (done || lia). cbn [mbind outcome_bind].
    destruct (bkts_drop _ _ (Z.of_nat k + 1) Hb' ltac:(lia)) as (bkt2 & -> & Hb2). cbn [mbind outcome_bind].
    assert (lms_list (lms_upto (Z.of_nat k + 1) ++ [Z.of_nat k + 1])) as Hlist.
    { pose proof (lms_upto_list (Z.of_nat k + 1 + 1) ltac:(lia)) as Hlist.
      replace (Z.of_nat k + 1) with (Z.of_nat (Datatypes.S k)) in * by lia. rewrite lms_upto_step, Hl in Hlist. done. }
    pose proof (slot_range _ _ Hlist). rewrite store_hp by lia. cbn [mbind outcome_bind].
    eexists (_, _). split; [done|]. eexists. split; [done|]. split; [|done].
    apply placed_add; [done..|]. change (zlen []) with 0. lia.
  - rewrite Hrun. exists A'. split; [done|]. rewrite length_seqZ, Z2Nat.id, Z.sub_add in HP by lia.
    apply (placed_seeded _ (lms_upto n)); [done|done|].
    apply StronglySorted_all. intros x y [Hx Hlx]%elem_of_lmslist [Hy Hly]%elem_of_lmslist Heq.
    rewrite (rest_eq S x), (rest_eq S y), Hlx, Hly, Heq by done. apply lle_refl.
Qed.

(** Stage 3: the sorted LMS characters move from the front to their buckets. *)
Lemma with_chr_reverse c l : with_chr c (reverse l) = with_chr c l.
Proof. apply zlen_filter_perm. apply reverse_Permutation. Qed.

Lemma slot_ahead U y W :
  lms_list (U ++ y :: W) → (∀ z, z ∈ U → chr S z ≤ chr S y) → zlen U ≤ slot (reverse W) y.
Proof.
  intros [Hnd Hl] HU. set (c := chr S y) in *.
  assert (zlen (U ++ y :: filter (λ z, chr S z = c) W) ≤ smaller S (c + 1)) as Hc.
  { rewrite (smaller_positions S S_marked). apply NoDup_count.
    - apply NoDup_app in Hnd as (H1 & H2 & [H3 H4]%NoDup_cons). apply NoDup_app. split_and!; [done| |].
      + intros z Hz Hin. apply (H2 z Hz). apply elem_of_cons in Hin as [->|[_ ?]%list_elem_of_filter]; set_solver.
      + apply NoDup_cons. split; [|by apply NoDup_filter]. by intros [_ ?]%list_elem_of_filter.
    - intros z Hz. assert (chr S z ≤ c ∧ z ∈ U ++ y :: W) as [Hzc Hin].
      { apply elem_of_app in Hz as [Hz|[->|[Hz1 Hz2]%list_elem_of_filter]%elem_of_cons].
        - split; [by apply HU|set_solver].
        - split; [done|set_solver].
        - split; [lia|set_solver]. }
      destruct (Hl z Hin) as [Hr _]. apply list_elem_of_filter. rewrite elem_of_seqZ. fold (chr S z). lia. }
  rewrite zlen_app, zlen_cons in Hc. unfold slot. rewrite with_chr_reverse. fold c. unfold with_chr. lia.
Qed.

Section spread.
Context (L : list Z) (key : Z → list Z).
Hypothesis (L_perm : L ≡ₚ lmslist S).
Hypothesis (L_chr : StronglySorted (λ x y, chr S x ≤ chr S y) L).
Hypothesis (L_key : StronglySorted (λ x y, lle (key x) (key y)) L).

Lemma L_list : lms_list L.
Proof.
  split; [rewrite L_perm; apply NoDup_filter, NoDup_seqZ|].
  intros x. rewrite L_perm. by intros ?%elem_of_lmslist.
Qed.

Lemma L_ahead U y W : L = U ++ y :: W → zlen U ≤ slot (reverse W) y.
Proof.
  intros HL. apply slot_ahead; [rewrite <- HL; apply L_list|]. intros z Hz.
  pose proof L_chr as Hs. rewrite HL in Hs. apply (StronglySorted_app_1_elem_of _ _ _ z y Hs); [done|left].
Qed.

(** One move: [U] is left at the front, [x] goes before [W]. *)
Lemma spread_step U x W A bkt :
  L = U ++ x :: W → placed (U ++ [x]) (reverse W) A → bkts bkt (reverse W) →
  ∃ A' bkt', (j ← of_option (aget (sa (hp A)) (zlen U));
              h ← store (hp A) (zlen U) (-1);
              c ← get h s j;
              '(p, bkt) ← drop_one bkt c;
              h ← store h p j;
              Ret (h, bkt)) = Ret (hp A', bkt') ∧
    placed U (reverse (x :: W)) A' ∧ bkts bkt' (reverse (x :: W)).
Proof.
  intros HL HP Hb. pose proof (zlen_nonneg U) as HU. pose proof (proj1 (placed_entries _ _ _ HP)) as Hn.
  destruct (proj2 L_list x ltac:(rewrite HL; set_solver)) as [Hx _].
  assert (lms_list (reverse W ++ [x])) as Hl.
  { pose proof L_list as [Hnd Hin]. rewrite HL in Hnd, Hin. rewrite <- reverse_cons. split.
    - rewrite reverse_Permutation. by apply NoDup_app in Hnd as (_ & _ & ?).
    - intros y. rewrite elem_of_reverse. set_solver. }
  pose proof (slot_range _ _ Hl) as Hs. pose proof (L_ahead U x W HL) as Hah.
  assert (zlen U < n) as HUn by lia.
  rewrite aget_hp by lia.
  assert (aget A (zlen U) = Some x) as ->.
  { apply (placed_get _ _ _ HP); [lia|]. left. by rewrite aget_app_r, Z.sub_diag by lia. }
  cbn [of_option mbind outcome_bind]. rewrite store_hp by lia. cbn [mbind outcome_bind].
  rewrite S_get by (rewrite ?zlen_insert; done). cbn [mbind outcome_bind].
  destruct (bkts_drop _ _ x Hb Hx) as (bkt2 & -> & Hb2). cbn [mbind outcome_bind].
  rewrite store_hp by (rewrite zlen_insert; lia). cbn [mbind outcome_bind].
  eexists _, _. split; [done|]. rewrite reverse_cons. split; [|done]. apply placed_add; [|done..].
  apply placed_clear with (x := x); [done..|]. intros P y Q Heq.
  assert (W = reverse Q ++ y :: reverse P) as HW.
  { apply (f_equal reverse) in Heq. rewrite reverse_involutive, reverse_app, reverse_cons, <- app_assoc in Heq. done. }
  assert (zlen (U ++ x :: reverse Q) ≤ slot (reverse (reverse P)) y) as Hy
    by (apply L_ahead; rewrite HL, HW, <- app_assoc; done).
  rewrite reverse_involutive, zlen_app, zlen_cons in Hy. pose proof (zlen_nonneg (reverse Q)). lia.
Qed.

Lemma spread_spec bkt :
  zlen L ≤ n → bkts bkt [] →
  ∃ A', spread (hp (L ++ replicate (Z.to_nat (n - zlen L)) (-1))) s bkt (zlen L) = Ret (hp A') ∧ seeded S key A'.
Proof.
  intros HLn Hb. unfold spread. set (A := L ++ _).
  loop (λ (k : nat) '((h, bkt) : heap * list Z), ∃ A U W, h = hp A ∧ L = U ++ W ∧ zlen W = Z.of_nat k ∧
    placed U (reverse W) A ∧ bkts bkt (reverse W)) as ([h bkt'] & Hrun & A' & U & W & -> & HL & HW & HP & _).
  - exists A, L, []. rewrite app_nil_r. split_and!; [done..| |done]. split.
    + split; [unfold A; rewrite zlen_app, zlen_replicate; lia|]. apply Forall_app. split.
      * apply Forall_forall. intros x [Hx _]%(proj2 L_list). lia.
      * apply Forall_replicate. lia.
    + intros k x Hx. split; [|intros [Hk|(P & Q & Heq & _)]; [|by destruct P]].
      * intros Hk. left. destruct (decide (k < zlen L)); [by rewrite <- (aget_app_l _ (replicate (Z.to_nat (n - zlen L)) (-1)))|].
        unfold A in Hk. rewrite aget_app_r in Hk by lia. apply aget_elem_of, elem_of_replicate_inv in Hk. lia.
      * unfold A. rewrite aget_app_l; [done|]. apply aget_Some_range in Hk. lia.
  - intros k i [h bkt'] Hi (A' & U & W & -> & HL & HW & HP & Hb'). apply lookup_down in Hi as [-> Hk].
    pose proof (f_equal zlen HL) as Hlen. rewrite zlen_app in Hlen.
    destruct U as [|x U _] using rev_ind; [change (zlen []) with 0 in Hlen; lia|].
    rewrite zlen_app in Hlen. change (zlen [x]) with 1 in Hlen.
    replace (zlen L - 1 - Z.of_nat k) with (zlen U) by lia. rewrite <- app_assoc in HL. destruct (spread_step U x W A' bkt' HL HP Hb') as (A2 & bkt2 & -> & HP2 & Hb2).
    exists (hp A2, bkt2). split; [done|]. exists A2, U, (x :: W). rewrite zlen_cons. split_and!; done || lia.
  - rewrite Hrun. exists A'. split; [done|]. rewrite length_down in HW.
    assert (U = []) as ->.
    { apply (f_equal zlen) in HL. rewrite zlen_app in HL. destruct U as [|x U]; [done|].
      rewrite zlen_cons in HL. pose proof (zlen_nonneg U). pose proof (zlen_nonneg L). lia. }
    simpl in HL. subst W. apply (placed_seeded _ (reverse L)); [done|by etrans; [apply reverse_Permutation|]|].
    apply StronglySorted_reverse in L_key. eapply StronglySorted_impl; [|exact L_key]. done.
Qed.
End spread.
End level.
