(* ===== verification/SaisNames.v ===== *)
(** * The reduced problem of the suffix sort

    The second half of a level of [SAIS._make]: collecting the sorted LMS
    characters, naming the strings that start at them, the reduced string of
    names, and back from its suffix array to the sorted LMS suffixes. *)

From S2P Require Import Prelude BitVector Suffixes Sais SaisTypes SaisScan SaisInduce SaisLevel.

Local Open Scope Z_scope.
Import SAIS.

Lemma take_cells {A} (l l' : list A) m :
  zlen l = m → m ≤ zlen l' → (∀ i, 0 ≤ i < m → aget l' i = aget l i) → take (Z.to_nat m) l' = l.
Proof.
  intros Hl Hl' Hget. pose proof (zlen_nonneg l). apply aget_ext; rewrite zlen_take; [lia|].
  intros i Hi. rewrite aget_take by lia. apply Hget. lia.
Qed.

Lemma drop_cells {A} (l l' : list A) m :
  0 ≤ m → zlen l' = m + zlen l → (∀ i, 0 ≤ i < zlen l → aget l' (m + i) = aget l i) → drop (Z.to_nat m) l' = l.
Proof.
  intros Hm Hl' Hget. pose proof (zlen_nonneg l). apply aget_ext; rewrite zlen_drop; [lia|].
  intros i Hi. rewrite aget_drop by lia. rewrite <- Hget by lia. f_equal. lia.
Qed.

Lemma filter_fmap {A B} (f : A → B) (P : B → Prop) `{!∀ x, Decision (P x)} (l : list A) :
  filter P (f <$> l) = f <$> filter (λ x, P (f x)) l.
Proof.
  induction l as [|x l IH]; [done|]. cbn [fmap list_fmap]. rewrite !filter_cons. case_decide; [|done].
  cbn [fmap list_fmap]. by f_equal.
Qed.

Lemma fill_spec chs tail A lo hi :
  zlen A = hi → 0 ≤ lo ≤ hi →
  fill (hp chs tail A) lo hi =
    Ret (hp chs tail (take (Z.to_nat lo) A ++ replicate (Z.to_nat (hi - lo)) (-1))).
Proof.
  intros <- Hlo. unfold fill.
  loop (λ (k : nat) (h : heap), ∃ A', h = hp chs tail A' ∧ zlen A' = zlen A ∧
    ∀ i, aget A' i = if decide (lo ≤ i < lo + Z.of_nat k) then Some (-1) else aget A i)
    as (h & -> & A' & -> & Hlen & Hget).
  - exists A. split_and!; [done..|]. intros i. by rewrite decide_False by lia.
  - intros k i h Hi (A' & -> & Hlen & Hget). apply lookup_seqZ in Hi as [-> Hk].
    rewrite store_hp by lia. eexists. split; [done|]. eexists. split; [done|]. rewrite zlen_insert. split; [done|].
    intros i. rewrite aget_insert by lia. rewrite Hget. repeat case_decide; done || lia.
  - do 2 f_equal. rewrite length_seqZ in Hget. rewrite <- (take_drop (Z.to_nat lo) A'). f_equal.
    + apply take_cells; rewrite ?zlen_take; [lia..|]. intros i Hi. rewrite aget_take, Hget by lia.
      by rewrite decide_False by lia.
    + apply drop_cells; rewrite ?zlen_replicate; [lia..|]. intros i Hi.
      rewrite Hget, aget_replicate, decide_True by lia. done.
Qed.

Section level.
Context (S chs tail : list Z) (s : OArray) (K : Z).
Hypothesis (HS : level S chs tail s K).
Abbreviation n := (zlen S).
Abbreviation hp := (hp chs tail).
Let S_marked := lv_marked _ _ _ _ _ HS.
Let S_length := lv_length _ _ _ _ _ HS.
Let S_length' : 2 ≤ zlen S := proj1 S_length.
Let S_get := lv_get _ _ _ _ _ HS.
Let S_codes := lv_codes _ _ _ _ _ HS.
Context (t : BV.t).
Hypothesis (t_types : ∀ i, 0 ≤ i < n → BV.get t i = Ret (ty S i)).

(** ** Collecting *)

Lemma compact_spec A :
  A ≡ₚ seqZ 0 n → let L := filter (λ x, lms S x = true) A in
  ∃ A', compact (hp A) t n = Ret (hp A', zlen L) ∧ zlen A' = n ∧ take (Z.to_nat (zlen L)) A' = L.
Proof.
  intros HA L. set (F := λ k : nat, filter (λ x, lms S x = true) (take k A)).
  assert (zlen A = n) as Hn by (unfold zlen at 1; rewrite HA, length_seqZ; lia).
  unfold compact.
  loop (λ (k : nat) '((h, n1) : heap * Z), ∃ A', h = hp A' ∧ zlen A' = n ∧ n1 = zlen (F k) ∧
    (∀ i, i < n1 → aget A' i = aget (F k) i) ∧ ∀ i, Z.of_nat k ≤ i → aget A' i = aget A i)
    as ([h n1] & Hrun & A' & -> & Hlen & -> & Hlo & _).
  - exists A. split_and!; [done..| |done]. intros i Hi. change (zlen (F 0%nat)) with 0 in Hi. by rewrite !aget_None by lia.
  - intros k i [h n1] Hi (A' & -> & Hlen & -> & Hlo & Hhi). apply lookup_seqZ in Hi as [-> Hk]. rewrite Z.add_0_l.
    destruct (aget_is_Some A (Z.of_nat k)) as [x Hx]; [lia|].
    assert (0 ≤ x < n) as Hxr by (apply aget_elem_of in Hx; rewrite HA in Hx; apply elem_of_seqZ in Hx; lia).
    rewrite aget_hp, Hhi, Hx by lia. cbn [of_option mbind outcome_bind].
    rewrite (isLMS_spec S t t_types) by done. cbn [mbind outcome_bind].
    assert (F (Datatypes.S k) = F k ++ if lms S x then [x] else []) as HF.
    { unfold F. rewrite (take_S_r _ _ x) by (by rewrite <- aget_nat). rewrite filter_app, filter_cons.
      f_equal. case_decide; by destruct (lms S x). }
    pose proof (zlen_nonneg (F k)). rewrite HF.
    destruct (lms S x).
    + assert (zlen (F k) ≤ Z.of_nat k) as HFk.
      { unfold F, zlen. pose proof (length_filter (λ x, lms S x = true) (take k A)) as Hf.
        rewrite length_take in Hf. lia. }
      rewrite store_hp by lia. eexists (_, _). split; [done|]. exists (<[Z.to_nat (zlen (F k)) := x]> A').
      rewrite zlen_insert, zlen_app. change (zlen [x]) with 1. split_and!; [done..| |].
      * intros i Hi. rewrite aget_insert by lia. case_decide as Heq.
        { subst i. by rewrite aget_app_r, Z.sub_diag by lia. }
        rewrite aget_app_l by lia. apply Hlo. lia.
      * intros i Hi. rewrite aget_insert, decide_False by lia. apply Hhi. lia.
    + eexists (_, _). split; [done|]. exists A'. rewrite app_nil_r. split_and!; [done..|]. intros i Hi. apply Hhi. lia.
  - assert (F (length (seqZ 0 n)) = L) as HFL by (unfold F; rewrite length_seqZ, take_ge by (unfold zlen in Hn |- *; lia); done).
    rewrite HFL in Hrun, Hlo. rewrite Hrun. exists A'. split_and!; [done..|]. apply take_cells; [done| |intros; apply Hlo; lia].
    unfold L. pose proof (length_filter (λ x, lms S x = true) A). unfold zlen in *. lia.
Qed.

(** ** LMS characters are at least two apart *)

Lemma lms_apart x y : lms S x = true → lms S y = true → x < y → x + 1 < y.
Proof.
  intros (_ & Hx & _)%lms_inv Hy Hlt. destruct (decide (y = x + 1)) as [->|]; [|lia].
  by rewrite (after_S S x Hx) in Hy.
Qed.

Lemma lms_half x y : lms S x = true → lms S y = true → x / 2 = y / 2 → x = y.
Proof.
  intros Hx Hy Heq. destruct (Z.lt_total x y) as [Hlt|[?|Hlt]]; [|done|].
  - pose proof (lms_apart _ _ Hx Hy Hlt). Z.to_euclidean_division_equations. lia.
  - pose proof (lms_apart _ _ Hy Hx Hlt). Z.to_euclidean_division_equations. lia.
Qed.

Lemma lms_count : 2 * zlen (lmslist S) ≤ n.
Proof.
  transitivity (zlen (lmslist S ++ (Z.pred <$> lmslist S))); [rewrite zlen_app, zlen_fmap; lia|].
  rewrite <- (zlen_seqZ 0 n) by lia. apply NoDup_count.
  - assert (NoDup (lmslist S)) as Hnd by apply NoDup_filter, NoDup_seqZ.
    apply NoDup_app. split_and!; [done| |by apply NoDup_fmap_2; [intros ???; lia|]].
    intros x [_ Hx]%elem_of_lmslist (y & -> & [_ Hy]%elem_of_lmslist)%list_elem_of_fmap.
    pose proof (lms_apart _ _ Hx Hy). lia.
  - intros x [[Hx _]%elem_of_lmslist|(y & -> & [Hy Hl]%elem_of_lmslist)%list_elem_of_fmap]%elem_of_app;
      apply elem_of_seqZ; [lia|]. apply lms_inv in Hl. lia.
Qed.

Lemma half_range x : 0 ≤ x < n → 0 ≤ zlen (lmslist S) + x / 2 < n.
Proof. intros Hx. pose proof lms_count. pose proof (zlen_nonneg (lmslist S)). Z.to_euclidean_division_equations. lia. Qed.

(** The array index the source computes for a name. *)
Lemma half_index pos : 0 ≤ pos → (if decide (js_rem pos 2 = 0) then pos / 2 else (pos - 1) / 2) = pos / 2.
Proof.
  intros Hp. unfold js_rem. rewrite Z.rem_mod_nonneg by lia. case_decide; [done|].
  Z.to_euclidean_division_equations. lia.
Qed.

(** ** Comparing the strings between LMS characters *)

Lemma differ_rest k A pos prev d :
  zlen A = n → 0 ≤ pos → 0 ≤ prev → 0 < d → pos + d < n → prev + d < n → n ≤ Z.of_nat k + d →
  ty S (pos + d - 1) = ty S (prev + d - 1) →
  differ k (hp A) t s pos prev d = Ret (bool_decide (rest S (pos + d) ≠ rest S (prev + d))).
Proof.
  intros HA Hpos Hprev. revert d. induction k as [|k IH]; intros d Hd H1 H2 Hk Ht; [lia|].
  cbn [differ]. rewrite decide_False by lia. unfold compare.
  rewrite !S_get, !t_types by (done || lia). cbn [mbind outcome_bind]. rewrite (rest_eq S (pos + d)), (rest_eq S (prev + d)) by lia.
  destruct (decide (ltr S (pos + d) = ltr S (prev + d))) as [Hl|Hl].
  - destruct (ltr_inj S _ _ Hl) as [Hc Hty]. rewrite bool_decide_eq_true_2 by done. cbn [negb].
    rewrite Hty, Bool.eqb_reflx. cbn [negb]. rewrite decide_True, !(isLMS_spec S t t_types) by lia.
    cbn [mbind outcome_bind]. rewrite Hl, (lms_ltr S (pos + d) (prev + d)) by (done || lia).
    destruct (lms S (prev + d)) eqn:Hlms; cbn [mbind outcome_bind].
    + rewrite bool_decide_eq_false_2; [done|]. intros Hne. by apply Hne.
    + pose proof (not_lms_inner S S_marked S_length' (prev + d) ltac:(lia) Hlms).
      rewrite <- (lms_ltr S (pos + d) (prev + d)) in Hlms by (done || lia).
      pose proof (not_lms_inner S S_marked S_length' (pos + d) ltac:(lia) Hlms).
      rewrite IH by (rewrite ?Z.add_assoc, ?Z.add_simpl_r; done || lia). f_equal. rewrite !Z.add_assoc.
      apply bool_decide_ext. split; [congruence|]. intros Hne Heq. apply Hne. by rewrite Heq.
  - rewrite (bool_decide_eq_true_2 (_ ≠ _)) by congruence.
    destruct (bool_decide (chr S (pos + d) = chr S (prev + d))) eqn:Hc; cbn [negb]; [|done].
    apply bool_decide_eq_true in Hc. destruct (Bool.eqb _ _) eqn:Hty; cbn [negb]; [|done].
    destruct Hl. apply Bool.eqb_prop in Hty. unfold ltr. by rewrite Hc, Hty.
Qed.

Lemma differ_spec A pos prev :
  zlen A = n → 0 ≤ pos < n → 0 ≤ prev < n → pos ≠ prev →
  differ (Z.to_nat n) (hp A) t s pos prev 0 = Ret (bool_decide (sub S pos ≠ sub S prev)).
Proof.
  intros HA Hpos Hprev Hne. destruct (Z.to_nat n) as [|k] eqn:Hk; [lia|].
  cbn [differ]. rewrite decide_False by lia. unfold compare. rewrite !Z.add_0_r.
  rewrite !S_get, !t_types by (done || lia). cbn [mbind outcome_bind]. unfold sub.
  destruct (decide (ltr S pos = ltr S prev)) as [Hl|Hl].
  - destruct (ltr_inj S _ _ Hl) as [Hc Hty]. rewrite bool_decide_eq_true_2 by done. cbn [negb].
    rewrite Hty, Bool.eqb_reflx. cbn [negb]. rewrite decide_False by lia. cbn [mbind outcome_bind].
    assert (pos ≠ n - 1) by (intros ->; symmetry in Hl; apply (ltr_last S) in Hl; done || lia).
    assert (prev ≠ n - 1) by (intros ->; apply (ltr_last S) in Hl; done || lia).
    rewrite differ_rest by (rewrite ?Z.add_0_l, ?Z.add_simpl_r; done || lia). f_equal. rewrite Z.add_0_l.
    apply bool_decide_ext. rewrite Hl. split; [congruence|]. intros Hn Heq. apply Hn. by rewrite Heq.
  - rewrite (bool_decide_eq_true_2 (_ ≠ _)) by congruence.
    destruct (bool_decide (chr S pos = chr S prev)) eqn:Hc; cbn [negb]; [|done].
    apply bool_decide_eq_true in Hc. destruct (Bool.eqb _ _) eqn:Hty; cbn [negb]; [|done].
    destruct Hl. apply Bool.eqb_prop in Hty. unfold ltr. by rewrite Hc, Hty.
Qed.

(** ** Names *)

(** [nm] names the strings at the positions [l] by their rank, from 0 to [name - 1]. *)
Record named (l : list Z) (nm : Z → Z) (name : Z) : Prop := {
  nm_range x : x ∈ l → 0 ≤ nm x < name;
  nm_order x y : x ∈ l → y ∈ l → nm x < nm y → sub S x ≺ sub S y;
  nm_same x y : x ∈ l → y ∈ l → nm x = nm y → sub S x = sub S y;
  nm_onto m : 0 ≤ m < name → ∃ x, x ∈ l ∧ nm x = m;
}.

Lemma upd_other (f : Z → Z) x v y (l : list Z) : y ∈ l → x ∉ l → upd f x v y = f y.
Proof. intros Hy Hx. unfold upd. case_decide; [by subst|done]. Qed.

Lemma upd_same (f : Z → Z) x v : upd f x v x = v.
Proof. unfold upd. by rewrite decide_True. Qed.

Lemma named_new l nm name x :
  named l nm name → x ∉ l → 0 ≤ name → (∀ z, z ∈ l → sub S z ≺ sub S x) →
  named (l ++ [x]) (upd nm x name) (name + 1).
Proof.
  intros [H1 H2 H3 H4] Hx Hn Hmax. split.
  - intros y [Hy| ->%list_elem_of_singleton]%elem_of_app; [|rewrite upd_same; lia].
    rewrite (upd_other _ _ _ _ l) by done. pose proof (H1 y Hy). lia.
  - intros y z [Hy| ->%list_elem_of_singleton]%elem_of_app [Hz| ->%list_elem_of_singleton]%elem_of_app;
      rewrite ?upd_same, ?(upd_other _ _ _ _ l) by done; intros Hlt; [by apply H2|by apply Hmax| |lia].
    pose proof (H1 z Hz). lia.
  - intros y z [Hy| ->%list_elem_of_singleton]%elem_of_app [Hz| ->%list_elem_of_singleton]%elem_of_app;
      rewrite ?upd_same, ?(upd_other _ _ _ _ l) by done; intros Heq; [by apply H3| | |done].
    + pose proof (H1 y Hy). lia.
    + pose proof (H1 z Hz). lia.
  - intros m Hm. destruct (decide (m = name)) as [->|Hne].
    + exists x. rewrite upd_same. split; [set_solver|done].
    + destruct (H4 m ltac:(lia)) as (y & Hy & Hnm). exists y. rewrite (upd_other _ _ _ _ l) by done.
      split; [set_solver|done].
Qed.

Lemma named_same l nm name x prev :
  named l nm name → x ∉ l → prev ∈ l → nm prev = name - 1 → sub S x = sub S prev →
  named (l ++ [x]) (upd nm x (name - 1)) name.
Proof.
  intros [H1 H2 H3 H4] Hx Hp Hnp Hsub. pose proof (H1 prev Hp) as Hr. split.
  - intros y [Hy| ->%list_elem_of_singleton]%elem_of_app; [|rewrite upd_same; lia].
    rewrite (upd_other _ _ _ _ l) by done. by apply H1.
  - intros y z [Hy| ->%list_elem_of_singleton]%elem_of_app [Hz| ->%list_elem_of_singleton]%elem_of_app;
      rewrite ?upd_same, ?(upd_other _ _ _ _ l) by done; intros Hlt; [by apply H2| | |lia].
    + rewrite Hsub. apply H2; done || lia.
    + pose proof (H1 z Hz). lia.
  - intros y z [Hy| ->%list_elem_of_singleton]%elem_of_app [Hz| ->%list_elem_of_singleton]%elem_of_app;
      rewrite ?upd_same, ?(upd_other _ _ _ _ l) by done; intros Heq; [by apply H3| | |done].
    + rewrite Hsub. apply H3; done || lia.
    + rewrite Hsub. apply H3; done || lia.
  - intros m Hm. destruct (H4 m Hm) as (y & Hy & Hnm). exists y. rewrite (upd_other _ _ _ _ l) by done.
    split; [set_solver|done].
Qed.

Section naming.
Context (L : list Z).
Hypothesis (L_perm : L ≡ₚ lmslist S).
Hypothesis (L_sub : StronglySorted (λ x y, lle (sub S x) (sub S y)) L).
Abbreviation n1 := (zlen L).

Lemma zlen_L : zlen L = zlen (lmslist S).
Proof. unfold zlen. by rewrite L_perm. Qed.

(** The array after the names of the positions [l]. *)
Record name_cells (A l : list Z) (nm : Z → Z) : Prop := {
  nc_length : zlen A = n;
  nc_front i : i < n1 → aget A i = aget L i;
  nc_name x : x ∈ l → aget A (n1 + x / 2) = Some (nm x);
  nc_rest i : n1 ≤ i < n → (∀ x, x ∈ l → i ≠ n1 + x / 2) → aget A i = Some (-1);
}.

Lemma name_cells_add A l nm x v :
  name_cells A l nm → x ∉ l → (∀ y, y ∈ l ++ [x] → 0 ≤ y < n ∧ lms S y = true) →
  name_cells (<[Z.to_nat (n1 + x / 2) := v]> A) (l ++ [x]) (upd nm x v).
Proof.
  intros [H1 H2 H3 H4] Hx Hl. destruct (Hl x ltac:(set_solver)) as [Hxr Hxl].
  pose proof (half_range x Hxr) as Hr. rewrite <- zlen_L in Hr. pose proof (Z.div_pos x 2 ltac:(lia) ltac:(lia)).
  split.
  - by rewrite zlen_insert.
  - intros i Hi. rewrite aget_insert, decide_False by lia. by apply H2.
  - intros y [Hy| ->%list_elem_of_singleton]%elem_of_app; rewrite aget_insert by lia.
    + assert (n1 + y / 2 ≠ n1 + x / 2) as Hne.
      { intros Heq. apply Hx. destruct (Hl y ltac:(set_solver)) as [_ Hyl].
        by rewrite (lms_half x y) by (done || lia). }
      rewrite (upd_other _ _ _ _ l), decide_False by done. by apply H3.
    + by rewrite decide_True, upd_same by done.
  - intros i Hi Hne. rewrite aget_insert, decide_False by (lia || apply Hne; set_solver).
    apply H4; [done|]. intros y Hy. apply Hne. set_solver.
Qed.

Definition name_inv (k : nat) (st : heap * Z * Z) : Prop :=
  let '(h, name, prev) := st in
  ∃ A nm, h = hp A ∧ name_cells A (take k L) nm ∧ named (take k L) nm name ∧
    (k = 0%nat → prev = -1 ∧ name = 0) ∧
    ∀ P y, take k L = P ++ [y] → prev ∈ P ++ [y] ∧ sub S prev = sub S y ∧ nm prev = name - 1.

Lemma L_elem x : x ∈ L → 0 ≤ x < n ∧ lms S x = true.
Proof. rewrite L_perm. apply elem_of_lmslist. Qed.

Lemma L_fresh k x : L !! k = Some x → x ∉ take k L.
Proof.
  intros Hx. assert (NoDup L) as Hnd by (rewrite L_perm; apply NoDup_filter, NoDup_seqZ).
  rewrite <- (take_drop_middle L k x Hx) in Hnd. apply NoDup_app in Hnd as (_ & Hd & _).
  intros Hin. apply (Hd x Hin). left.
Qed.

(** Whether the string at the next position is new. *)
Lemma name_compare k A nm name prev x :
  name_inv k (hp A, name, prev) → zlen A = n → named (take k L) nm name → L !! k = Some x →
  ∃ b, differ (Z.to_nat n) (hp A) t s x prev 0 = Ret b ∧
    (b = true → ∀ z, z ∈ take k L → sub S z ≺ sub S x) ∧
    (b = false → prev ∈ take k L ∧ sub S x = sub S prev).
Proof.
  intros (A' & nm' & _ & _ & _ & H0 & Hprev) HA Hnm Hx.
  destruct (L_elem x ltac:(by eapply list_elem_of_lookup_2)) as [Hxr _].
  pose proof (L_fresh k x Hx) as Hnew.
  destruct (take k L) as [|y P _] eqn:Htk using rev_ind.
  - assert (k = 0%nat) as ->. { destruct k; [done|]. by destruct L. }
    destruct (H0 eq_refl) as [-> _]. exists true. split_and!; [|intros _ z Hz; by apply elem_of_nil in Hz|done].
    by destruct (Z.to_nat n) eqn:Hn; [lia|].
  - destruct (Hprev P y eq_refl) as (Hin & Hsub & _).
    assert (∀ z, z ∈ P ++ [y] → z ∈ L) as HinL by (intros z Hz; rewrite <- (take_drop k L), Htk; set_solver).
    destruct (L_elem prev (HinL prev Hin)) as [Hpr _].
    exists (bool_decide (sub S x ≠ sub S prev)).
    split; [apply differ_spec; [done..|]; intros ->; by apply Hnew|]. split.
    + rewrite bool_decide_eq_true. intros Hne z Hz.
      pose proof L_sub as Hs. rewrite <- (take_drop_middle L k x Hx), Htk, <- app_assoc in Hs.
      assert (lle (sub S y) (sub S x)) as Hyx.
      { apply StronglySorted_app_1_r in Hs. apply StronglySorted_inv in Hs as [_ Hall].
        rewrite Forall_forall in Hall. apply Hall. left. }
      assert (sub S y ≺ sub S x) as Hlt.
      { destruct (lex_total (sub S y) (sub S x)) as [?|[?|?]]; [done|congruence|by destruct Hyx]. }
      apply elem_of_app in Hz as [Hz| ->%list_elem_of_singleton]; [|done].
      assert (lle (sub S z) (sub S y)) as Hzy by (apply (StronglySorted_app_1_elem_of _ _ _ z y Hs); [done|left]).
      destruct (lex_total (sub S z) (sub S x)) as [?|[Heq|Hgt]]; [done|..].
      * rewrite Heq in Hzy. by destruct Hzy.
      * destruct Hzy. by apply (lex_trans _ (sub S x)).
    + rewrite bool_decide_eq_false. intros Heq. split; [done|]. by apply dec_stable.
Qed.

Lemma name_step_spec k i st :
  seqZ 0 n1 !! k = Some i → name_inv k st →
  ∃ st', name_step t s n n1 st i = Ret st' ∧ name_inv (Datatypes.S k) st'.
Proof.
  intros Hi Hinv. apply lookup_seqZ in Hi as [-> Hk]. rewrite Z.add_0_l.
  destruct (lookup_lt_is_Some_2 L k) as [x Hx]; [unfold zlen in Hk; lia|].
  destruct st as [[h name] prev]. pose proof Hinv as (A & nm & -> & HC & Hnm & _ & Hprev).
  pose proof (nc_length _ _ _ HC) as HA. pose proof (L_fresh k x Hx) as Hnew.
  assert (∀ y, y ∈ take k L ++ [x] → 0 ≤ y < n ∧ lms S y = true) as Hl.
  { intros y Hy. apply L_elem. rewrite <- (take_drop_middle L k x Hx). set_solver. }
  destruct (Hl x ltac:(set_solver)) as [Hxr _]. pose proof (half_range x Hxr) as Hr. rewrite <- zlen_L in Hr.
  unfold name_step. pose proof lms_count as Hc. rewrite <- zlen_L in Hc.
  rewrite aget_hp, (nc_front _ _ _ HC), aget_nat, Hx by lia.
  cbn [of_option mbind outcome_bind].
  destruct (name_compare k A nm name prev x Hinv HA Hnm Hx) as (b & -> & Hb1 & Hb2). cbn [mbind outcome_bind].
  rewrite half_index by lia. unfold name_inv. rewrite (take_S_r _ _ _ Hx). destruct b.
  - rewrite store_hp by lia. cbn [mbind outcome_bind]. replace (name + 1 - 1) with name by lia.
    eexists (_, _, _). split; [reflexivity|]. eexists _, (upd nm x name).
    split_and!; [reflexivity|by apply name_cells_add| |done|].
    + apply named_new; [done..| |by apply Hb1].
      destruct Hinv as (_ & _ & _ & _ & _ & H0 & _). destruct k as [|k]; [destruct (H0 eq_refl); lia|].
      destruct (lookup_lt_is_Some_2 L k) as [y Hy]; [apply lookup_lt_Some in Hx; lia|].
      pose proof (nm_range _ _ _ Hnm y ltac:(rewrite (take_S_r _ _ _ Hy); set_solver)). lia.
    + intros P y Heq. apply app_inj_tail in Heq as [<- <-]. rewrite upd_same.
      split_and!; [set_solver|done|lia].
  - rewrite store_hp by lia. cbn [mbind outcome_bind]. destruct (Hb2 eq_refl) as [Hin Hsub].
    assert (nm prev = name - 1) as Hnp.
    { revert Hin Hprev. generalize (take k L) as l. intros l Hin Hprev.
      destruct l as [|y P _] using rev_ind; [by apply elem_of_nil in Hin|]. by destruct (Hprev P y eq_refl) as (_ & _ & ?). }
    eexists (_, _, _). split; [reflexivity|]. eexists _, (upd nm x (name - 1)).
    split_and!; [reflexivity|by apply name_cells_add|by apply (named_same _ _ _ _ prev)|done|].
    intros P y Heq. apply app_inj_tail in Heq as [<- <-].
    split_and!; [set_solver|done|]. by rewrite (upd_other _ _ _ _ (take k L)).
Qed.

(** The whole loop names every LMS character. *)
Lemma names_spec A :
  A = L ++ replicate (Z.to_nat (n - n1)) (-1) →
  ∃ A' nm name prev, ofold (name_step t s n n1) (hp A, 0, -1) (seqZ 0 n1) = Ret (hp A', name, prev) ∧
    name_cells A' L nm ∧ named L nm name.
Proof.
  intros HA. pose proof lms_count as Hc. rewrite <- zlen_L in Hc. pose proof (zlen_nonneg L).
  destruct (ofold_inv name_inv (name_step t s n n1) (seqZ 0 n1) (hp A, 0, -1)) as ([[h name] prev] & Hrun & Hinv).
  - exists A, (λ _, 0). split_and!; [done| | |done|by intros []].
    + subst A. split.
      * rewrite zlen_app, zlen_replicate. lia.
      * intros i Hi. by apply aget_app_l.
      * intros x Hx. by apply elem_of_nil in Hx.
      * intros i Hi _. rewrite aget_app_r by lia. apply aget_replicate. lia.
    + split; [set_solver..|lia].
  - apply name_step_spec.
  - destruct Hinv as (A' & nm & -> & HC & Hnm & _). rewrite length_seqZ, take_ge in HC, Hnm by (unfold zlen; lia).
    by exists A', nm, name, prev.
Qed.

(** ** The reduced string *)

Lemma gather_spec A m :
  zlen A = n → 0 ≤ m ≤ n → let W := filter (λ x, x >= 0) (drop (Z.to_nat m) A) in
  ∃ A', gather (hp A) n m = Ret (hp A') ∧ zlen A' = n ∧ drop (Z.to_nat (n - zlen W)) A' = W.
Proof.
  intros HA Hm W. set (F := λ k : nat, filter (λ x, x >= 0) (drop (Z.to_nat (n - Z.of_nat k)) A)).
  assert (∀ k, Z.of_nat k ≤ n → zlen (F k) ≤ Z.of_nat k) as HF.
  { intros k Hk. unfold F, zlen. pose proof (length_filter (λ x, x >= 0) (drop (Z.to_nat (n - Z.of_nat k)) A)) as Hl.
    rewrite length_drop in Hl. unfold zlen in HA, Hl |- *. lia. }
  unfold gather.
  loop (λ (k : nat) '((h, j) : heap * Z), ∃ A', h = hp A' ∧ zlen A' = n ∧ j = n - 1 - zlen (F k) ∧
    (∀ i, 0 ≤ i < zlen (F k) → aget A' (n - zlen (F k) + i) = aget (F k) i) ∧
    ∀ i, i < n - Z.of_nat k → aget A' i = aget A i) as ([h j] & Hrun & A' & -> & Hlen & -> & Hhi & _).
  - assert (F 0%nat = []) as -> by (unfold F; rewrite drop_ge; [done|unfold zlen in *; lia]).
    exists A. change (zlen []) with 0. split_and!; done || lia.
  - intros k i [h j] Hi (A' & -> & Hlen & -> & Hhi & Hlo). apply lookup_down in Hi as [-> Hk].
    destruct (aget_is_Some A (n - 1 - Z.of_nat k)) as [x Hx]; [lia|].
    rewrite aget_hp, Hlo, Hx by lia. cbn [of_option mbind outcome_bind].
    assert (F (Datatypes.S k) = (if decide (x >= 0) then [x] else []) ++ F k) as HFS.
    { unfold F. rewrite aget_nonneg in Hx by lia.
      replace (Z.to_nat (n - Z.of_nat (Datatypes.S k))) with (Z.to_nat (n - 1 - Z.of_nat k)) by lia.
      rewrite (drop_S _ _ _ Hx), filter_cons.
      replace (Datatypes.S (Z.to_nat (n - 1 - Z.of_nat k))) with (Z.to_nat (n - Z.of_nat k)) by lia. by case_decide. }
    rewrite HFS. pose proof (HF k ltac:(lia)). pose proof (zlen_nonneg (F k)). case_decide.
    + rewrite store_hp by lia. eexists (_, _). split; [done|]. eexists. split; [done|]. rewrite zlen_insert, zlen_app.
      change (zlen [x]) with 1. split_and!; [done|lia| |].
      * intros i Hi. rewrite aget_insert by lia. case_decide.
        { replace i with 0 by lia. done. }
        rewrite aget_app_r by (change (zlen [x]) with 1; lia). rewrite <- Hhi by (change (zlen [x]) with 1; lia).
        f_equal. change (zlen [x]) with 1. lia.
      * intros i Hi. rewrite aget_insert, decide_False by lia. apply Hlo. lia.
    + eexists (_, _). split; [done|]. exists A'. split_and!; [done..|]. intros i Hi. apply Hlo. lia.
  - assert (F (length (down m n)) = W) as HW.
    { unfold F, W. rewrite length_down. do 2 f_equal. lia. }
    pose proof (HF (length (down m n)) ltac:(rewrite length_down; lia)) as HWn.
    rewrite HW in *. rewrite length_down in HWn. rewrite Hrun. exists A'. split_and!; [done..|].
    apply drop_cells; [lia|lia|done].
Qed.

Section reduced.
Context (A : list Z) (nm : Z → Z) (name : Z).
Hypothesis (HC : name_cells A L nm).
Hypothesis (Hnm : named L nm name).

Definition S1 : list Z := nm <$> lmslist S.

Lemma nm_nonneg x : x ∈ lmslist S → 0 ≤ nm x.
Proof. rewrite <- L_perm. intros Hx. pose proof (nm_range _ _ _ Hnm x Hx). lia. Qed.

Lemma halves_sorted : StronglySorted Z.lt ((λ x, x / 2) <$> lmslist S).
Proof.
  apply StronglySorted_aget. intros k k' a b Hlt. rewrite !aget_fmap.
  destruct (aget (lmslist S) k) as [x|] eqn:Hx; [|done]. destruct (aget (lmslist S) k') as [y|] eqn:Hy; [|done].
  intros [= <-] [= <-]. destruct (aget_split _ _ _ Hx) as (P & Q & Heq & HP).
  assert (x < y) as Hxy.
  { pose proof (lmslist_sorted S) as Hs. rewrite Heq in Hs, Hy. rewrite aget_app_r, aget_cons, decide_False in Hy by lia.
    apply StronglySorted_app_1_r, StronglySorted_inv in Hs as [_ Hall]. rewrite Forall_forall in Hall.
    apply Hall. by eapply aget_elem_of. }
  apply aget_elem_of, elem_of_lmslist in Hx as [_ Hx]. apply aget_elem_of, elem_of_lmslist in Hy as [_ Hy].
  pose proof (lms_apart x y Hx Hy Hxy). Z.to_euclidean_division_equations. lia.
Qed.

(** Where the names are, from left to right. *)
Lemma named_cells :
  filter (λ m, default (-1) (aget A (n1 + m)) >= 0) (seqZ 0 (n - n1)) = (λ x, x / 2) <$> lmslist S.
Proof.
  pose proof lms_count as Hc. rewrite <- zlen_L in Hc. pose proof (zlen_nonneg L).
  apply (StronglySorted_unique Z.le).
  - apply StronglySorted_filter. eapply StronglySorted_impl; [|apply seqZ_sorted]. intros; lia.
  - eapply StronglySorted_impl; [|apply halves_sorted]. intros; lia.
  - apply NoDup_Permutation.
    + apply NoDup_filter, NoDup_seqZ.
    + apply NoDup_fmap_2_strong; [|apply NoDup_filter, NoDup_seqZ].
      intros x y [_ Hx]%elem_of_lmslist [_ Hy]%elem_of_lmslist. by apply lms_half.
    + intros m. rewrite list_elem_of_filter, elem_of_seqZ, list_elem_of_fmap. split.
      * intros [Hm Hr].
        destruct (decide (m ∈ (λ x, x / 2) <$> lmslist S)) as [(x & -> & Hx)%list_elem_of_fmap|Hn]; [by exists x|].
        exfalso. rewrite (nc_rest _ _ _ HC) in Hm; [simpl in Hm; lia|lia|].
        intros x Hx Heq. apply Hn, list_elem_of_fmap. exists x. split; [lia|]. by rewrite <- L_perm.
      * intros (x & -> & Hx). pose proof (nm_nonneg x Hx). assert (x ∈ L) as HxL by (by rewrite L_perm).
        rewrite (nc_name _ _ _ HC x HxL). simpl. apply elem_of_lmslist in Hx as [Hx _].
        pose proof (half_range x Hx) as Hr. rewrite <- zlen_L in Hr. pose proof (Z.div_pos x 2). lia.
Qed.

Lemma gather_names :
  ∃ A', gather (hp A) n n1 = Ret (hp A') ∧ zlen A' = n ∧ drop (Z.to_nat (n - n1)) A' = S1.
Proof.
  pose proof lms_count as Hc. rewrite <- zlen_L in Hc. pose proof (zlen_nonneg L).
  pose proof (nc_length _ _ _ HC) as HA.
  assert (filter (λ x, x >= 0) (drop (Z.to_nat n1) A) = S1) as HW.
  { transitivity (filter (λ x, x >= 0) ((λ m, default (-1) (aget A (n1 + m))) <$> seqZ 0 (n - n1))).
    { f_equal. apply drop_cells; rewrite ?zlen_fmap, ?zlen_seqZ by lia; [lia..|]. intros i Hi.
      rewrite aget_fmap, aget_seqZ by lia. simpl. destruct (aget_is_Some A (n1 + i)) as [x Hx]; [lia|].
      rewrite Z.add_0_l. by rewrite Hx. }
    rewrite filter_fmap, named_cells, <- list_fmap_compose. apply list_fmap_ext.
    intros i x Hx%list_elem_of_lookup_2. simpl. rewrite <- L_perm in Hx.
    by rewrite (nc_name _ _ _ HC x Hx). }
  destruct (gather_spec A n1 HA ltac:(lia)) as (A' & -> & HA' & Hd). rewrite HW in Hd.
  exists A'. split_and!; [done..|]. unfold S1 in Hd. rewrite zlen_fmap, <- zlen_L in Hd. done.
Qed.

Lemma zlen_S1 : zlen S1 = n1.
Proof. unfold S1. by rewrite zlen_fmap, zlen_L. Qed.

Lemma last_lms : n - 1 ∈ lmslist S.
Proof. apply elem_of_lmslist. split; [lia|by apply lms_last]. Qed.

Lemma lms_first x : x ∈ lmslist S → x ≠ n - 1 → nm (n - 1) < nm x.
Proof.
  intros Hx Hne. pose proof (proj1 (elem_of_lmslist S x) Hx) as [Hxr Hxl].
  assert (sub S (n - 1) ≺ sub S x) as Hlt.
  { rewrite (sub_last S). unfold sub. rewrite lex_cons. left. rewrite !lms_letter by done || by apply lms_last.
    rewrite (chr_last S S_marked). pose proof (chr_pos S S_marked x). lia. }
  pose proof last_lms as Hn. rewrite <- L_perm in Hx, Hn.
  destruct (Z.lt_total (nm (n - 1)) (nm x)) as [?|[Heq|Hgt]]; [done|..].
  - rewrite (nm_same _ _ _ Hnm _ _ Hn Hx Heq) in Hlt. by apply lex_irrefl in Hlt.
  - by destruct (lex_asym _ _ Hlt (nm_order _ _ _ Hnm _ _ Hx Hn Hgt)).
Qed.

Lemma nm_last : nm (n - 1) = 0.
Proof.
  pose proof last_lms as Hn. pose proof (nm_nonneg _ Hn) as H0. rewrite <- L_perm in Hn.
  pose proof (nm_range _ _ _ Hnm _ Hn). destruct (nm_onto _ _ _ Hnm 0 ltac:(lia)) as (x & Hx & Hx0).
  rewrite L_perm in Hx. destruct (decide (x = n - 1)) as [->|Hne]; [done|]. pose proof (lms_first x Hx Hne). lia.
Qed.

Lemma name_pos : 1 ≤ name.
Proof. pose proof last_lms as Hn. rewrite <- L_perm in Hn. pose proof (nm_range _ _ _ Hnm _ Hn). lia. Qed.

Lemma S1_chr i : 0 ≤ i < n1 → ∃ x, aget (lmslist S) i = Some x ∧ chr S1 i = nm x ∧ x ∈ lmslist S.
Proof.
  intros Hi. destruct (aget_is_Some (lmslist S) i) as [x Hx]; [by rewrite <- zlen_L|]. exists x.
  unfold chr, S1. rewrite aget_fmap, Hx. split_and!; [done..|]. by eapply aget_elem_of.
Qed.

Lemma S1_codes i : 0 ≤ i < n1 → chr S1 i ≤ name - 1.
Proof.
  intros Hi. destruct (S1_chr i Hi) as (x & _ & -> & Hx). rewrite <- L_perm in Hx.
  pose proof (nm_range _ _ _ Hnm x Hx). lia.
Qed.

Lemma lmslist_end : ∃ P, lmslist S = P ++ [n - 1].
Proof.
  destruct (lmslist S) as [|x P _] eqn:Heq using rev_ind.
  - pose proof last_lms as Hn. rewrite Heq in Hn. by apply elem_of_nil in Hn.
  - exists P. apply (lmslist_final S S_marked S_length') in Heq. by rewrite Heq.
Qed.

Lemma S1_marked : marked S1.
Proof.
  destruct lmslist_end as [P HP].
  assert (zlen P = n1 - 1) as HPn by (rewrite zlen_L, HP, zlen_app; change (zlen [n - 1]) with 1; lia).
  split; rewrite zlen_S1.
  - unfold S1. rewrite aget_fmap, HP, aget_app_r by lia. rewrite HPn, Z.sub_diag. simpl. by rewrite nm_last.
  - intros k c Hk Hc. unfold S1 in Hc. rewrite aget_fmap in Hc.
    destruct (aget (lmslist S) k) as [x|] eqn:Hx; [|done]. simplify_eq/=.
    assert (x ≠ n - 1) as Hne.
    { intros ->. assert (NoDup (P ++ [n - 1])) as Hnd by (rewrite <- HP; apply NoDup_filter, NoDup_seqZ).
      apply NoDup_app in Hnd as (_ & Hd & _). rewrite HP, aget_app_l in Hx by lia.
      apply (Hd (n - 1)); [by eapply aget_elem_of|left]. }
    pose proof (lms_first x (aget_elem_of _ _ _ Hx) Hne). rewrite nm_last in *. lia.
Qed.

(** As many names as LMS characters: the names are their ranks. *)
Lemma S1_distinct : n1 ≤ name → S1 ≡ₚ seqZ 0 n1.
Proof.
  intros Hn. apply seqZ_cover; [apply zlen_S1|]. intros m Hm.
  destruct (nm_onto _ _ _ Hnm m ltac:(lia)) as (x & Hx & <-). apply list_elem_of_fmap. exists x.
  split; [done|]. by rewrite <- L_perm.
Qed.
End reduced.
End naming.
End level.
