(* ===== verification/SaisCorrect.v ===== *)
(** * The suffix sort is correct

    [SAIS.make] on a marked string returns its sorted suffixes.  The recursion of
    [SAIS._make] is followed level by level: what [SaisLevel], [SaisInduce] and
    [SaisNames] show of the loops is put together here. *)

From S2P Require Import Prelude BitVector Suffixes Sais SaisTypes SaisScan SaisInduce SaisLevel SaisNames.

Local Open Scope Z_scope.
Import SAIS.

Lemma get_behind chs tail A o i :
  i + o < zlen A → get (hp chs tail A) (mkO true o) i = of_option (aget A (i + o)).
Proof. intros Hi. unfold get, array, hp. cbn [in_sa sa offset]. by rewrite aget_app_l. Qed.

Lemma set_behind chs tail A o i x :
  0 ≤ i + o < zlen A →
  set (hp chs tail A) (mkO true o) i x = Ret (hp chs tail (<[Z.to_nat (i + o) := x]> A)).
Proof. intros Hi. unfold set. cbn [in_sa offset]. by apply store_hp. Qed.

Lemma drop_get {A} (l W : list A) m i :
  drop (Z.to_nat m) l = W → 0 ≤ m → 0 ≤ i → aget l (i + m) = aget W i.
Proof. intros <- Hm Hi. rewrite aget_drop by done. f_equal. lia. Qed.

Lemma take_get {A} (l W : list A) m i :
  take (Z.to_nat m) l = W → i < m → aget l i = aget W i.
Proof. intros <- Hi. unfold aget. case_decide; [done|]. rewrite lookup_take_lt by lia. done. Qed.

(** ** Loops on an array whose end holds a string [W] *)

Section behind.
Context (chs tail W : list Z) (n : Z).
Abbreviation hp := (hp chs tail).
Abbreviation m := (zlen W).
Hypothesis (room : 2 * zlen W ≤ n).
Abbreviation s1 := (mkO true (n - zlen W)).

Let m_nonneg : 0 ≤ m := zlen_nonneg W.

(** Distinct names are the ranks of their suffixes. *)
Lemma rank_loop A :
  zlen A = n → drop (Z.to_nat (n - m)) A = W → W ≡ₚ seqZ 0 m →
  ∃ A', ofold (λ h i, x ← get h s1 i; store h x i) (hp A) (seqZ 0 m) = Ret (hp A') ∧ zlen A' = n ∧
    ∀ i x, aget W i = Some x → aget A' x = Some i.
Proof.
  intros HA HW Hperm.
  assert (∀ i x, aget W i = Some x → 0 ≤ x < m) as Hr.
  { intros i x Hx%aget_elem_of. rewrite Hperm in Hx. apply elem_of_seqZ in Hx. lia. }
  assert (NoDup W) as Hnd by (rewrite Hperm; apply NoDup_seqZ).
  loop (λ (k : nat) (h : heap), ∃ A', h = hp A' ∧ zlen A' = n ∧ drop (Z.to_nat (n - m)) A' = W ∧
    ∀ i x, i < Z.of_nat k → aget W i = Some x → aget A' x = Some i) as (h & -> & A' & -> & HA' & _ & Hget).
  - exists A. split_and!; [done..|]. intros i x Hi Hx. apply aget_Some_range in Hx. lia.
  - intros k i h Hi (A' & -> & HA' & HW' & Hget). apply lookup_seqZ in Hi as [-> Hk]. rewrite Z.add_0_l.
    rewrite get_behind by lia. rewrite (drop_get _ _ _ _ HW') by lia.
    destruct (aget_is_Some W (Z.of_nat k)) as [x Hx]; [lia|]. rewrite Hx. cbn [of_option mbind outcome_bind].
    pose proof (Hr _ _ Hx). rewrite store_hp by lia. eexists. split; [done|]. eexists. split; [done|].
    rewrite zlen_insert. split_and!; [done|by rewrite drop_insert_lt by lia|].
    intros i y Hi Hy. pose proof (Hr _ _ Hy). rewrite aget_insert by lia. case_decide as Heq.
    + subst y. pose proof (aget_Some_range _ _ _ Hy). rewrite aget_nonneg in Hx, Hy by lia.
      pose proof (NoDup_lookup _ _ _ _ Hnd Hx Hy). f_equal. lia.
    + apply Hget; [|done]. destruct (decide (i = Z.of_nat k)) as [->|]; [congruence|lia].
  - exists A'. split_and!; [done..|]. intros i x Hx. apply Hget; [|done]. rewrite length_seqZ.
    apply aget_Some_range in Hx. lia.
Qed.

Lemma ranks_sorted A :
  zlen A = n → W ≡ₚ seqZ 0 m → (∀ i x, aget W i = Some x → aget A x = Some i) →
  sorted_suffixes W (take (Z.to_nat m) A).
Proof.
  intros HA Hperm Hget.
  assert (∀ i, 0 ≤ i < m → ∃ x, aget W i = Some x ∧ 0 ≤ x < m) as Hr.
  { intros i Hi. destruct (aget_is_Some W i Hi) as [x Hx]. exists x. split; [done|].
    apply aget_elem_of in Hx. rewrite Hperm in Hx. apply elem_of_seqZ in Hx. lia. }
  assert (take (Z.to_nat m) A ≡ₚ seqZ 0 m) as HP.
  { apply seqZ_cover; [rewrite zlen_take; lia|]. intros i Hi. destruct (Hr i Hi) as (x & Hx & Hxr).
    apply (aget_elem_of _ x). rewrite aget_take by lia. by apply Hget. }
  assert (NoDup (take (Z.to_nat m) A)) as Hnd by (rewrite HP; apply NoDup_seqZ).
  assert (∀ k i, aget (take (Z.to_nat m) A) k = Some i → aget W i = Some k) as Hinv.
  { intros k i Hk. pose proof (aget_elem_of _ _ _ Hk) as Hi. rewrite HP in Hi. apply elem_of_seqZ in Hi.
    destruct (Hr i ltac:(lia)) as (x & Hx & Hxr). pose proof (Hget i x Hx) as Hx'.
    rewrite <- (aget_take _ (Z.to_nat m)) in Hx' by lia. pose proof (aget_Some_range _ _ _ Hk).
    rewrite aget_nonneg in Hk, Hx' by lia. pose proof (NoDup_lookup _ _ _ _ Hnd Hk Hx'). by replace k with x by lia. }
  split; [done|]. apply StronglySorted_aget. intros k k' i i' Hlt Hk Hk'.
  rewrite (sfx_cons _ _ _ (Hinv _ _ Hk)), (sfx_cons _ _ _ (Hinv _ _ Hk')), lex_cons. by left.
Qed.

(** Replacing indices by what they refer to. *)
Lemma refer_loop A sa1 :
  zlen A = n → take (Z.to_nat m) A = sa1 → drop (Z.to_nat (n - m)) A = W → sa1 ≡ₚ seqZ 0 m →
  ∃ A', ofold (λ h i, x ← of_option (aget (sa h) i); y ← get h s1 x; store h i y) (hp A) (seqZ 0 m) = Ret (hp A') ∧
    zlen A' = n ∧ take (Z.to_nat m) A' = (λ x, default 0 (aget W x)) <$> sa1.
Proof.
  intros HA Hsa HW Hperm. assert (zlen sa1 = m) as Hlen by (rewrite <- Hsa, zlen_take; lia).
  loop (λ (k : nat) (h : heap), ∃ A', h = hp A' ∧ zlen A' = n ∧ drop (Z.to_nat (n - m)) A' = W ∧
    ∀ i, 0 ≤ i < m → aget A' i = if decide (i < Z.of_nat k) then aget ((λ x, default 0 (aget W x)) <$> sa1) i
      else aget sa1 i) as (h & -> & A' & -> & HA' & _ & Hget).
  - exists A. split_and!; [done..|]. intros i Hi. rewrite decide_False by lia. apply (take_get _ _ m); [done|lia].
  - intros k i h Hi (A' & -> & HA' & HW' & Hget). apply lookup_seqZ in Hi as [-> Hk]. rewrite Z.add_0_l.
    rewrite aget_hp, Hget, decide_False by lia. destruct (aget_is_Some sa1 (Z.of_nat k)) as [x Hx]; [lia|].
    rewrite Hx. cbn [of_option mbind outcome_bind].
    assert (0 ≤ x < m) as Hxr by (apply aget_elem_of in Hx; rewrite Hperm in Hx; apply elem_of_seqZ in Hx; lia).
    rewrite get_behind by lia. rewrite (drop_get _ _ _ _ HW') by lia.
    destruct (aget_is_Some W x Hxr) as [y Hy]. rewrite Hy. cbn [of_option mbind outcome_bind].
    rewrite store_hp by lia. eexists. split; [done|]. eexists. split; [done|].
    rewrite zlen_insert. split_and!; [done|by rewrite drop_insert_lt by lia|].
    intros i Hi. rewrite aget_insert by lia. case_decide as Heq.
    + subst i. rewrite decide_True, aget_fmap, Hx by lia. simpl. by rewrite Hy.
    + rewrite Hget by done. repeat case_decide; done || lia.
  - exists A'. split_and!; [done..|]. apply take_cells; rewrite ?zlen_fmap; [done|lia|]. intros i Hi.
    rewrite Hget, length_seqZ, decide_True by lia. done.
Qed.
End behind.

(** ** One level *)

Section level.
Context (S chs tail : list Z) (s : OArray) (K : Z).
Hypothesis (HS : level S chs tail s K).
Abbreviation n := (zlen S).
Abbreviation hp := (hp chs tail).
Let S_marked := lv_marked _ _ _ _ _ HS.
Let S_length := lv_length _ _ _ _ _ HS.
Let S_length' : 2 ≤ zlen S := proj1 S_length.
Let S_get := lv_get _ _ _ _ _ HS.
Let S_codes := lv_codes _ _ _ _ _ HS.
Context (t : BV.t).
Hypothesis (t_types : ∀ i, 0 ≤ i < n → BV.get t i = Ret (ty S i)).
Abbreviation m := (zlen (lmslist S)).
Abbreviation s1 := (mkO true (n - m)).

(** The loops' result, one after the other. *)
Lemma induce keyL keyS A0 :
  keys S keyL keyS → seeded S keyL A0 →
  ∃ h A, _induceSAl (hp A0) t s n K false = Ret h ∧ _induceSAs h t s n K true = Ret (hp A) ∧
    A ≡ₚ seqZ 0 n ∧ StronglySorted (λ x y, lle (keyS x) (keyS y)) A.
Proof.
  intros HK HA0. destruct (induce_sorts S chs tail s S_marked S_length S_get K S_codes t t_types _ _ _ HK HA0)
    as (A & Hrun & HA). destruct (_induceSAl _ _ _ _ _ _) as [h| | |]; try done. by exists h, A.
Qed.

Lemma keys_sub : keys S (rest S) (sub S).
Proof.
  split.
  - intros x Hx. rewrite (rest_eq S) by done. by eexists.
  - intros j [Hj Ht]%actL_true. rewrite (rest_eq S) by lia. unfold lms. by rewrite Ht, andb_false_r.
  - intros j [Hj Ht]%actL_true. apply sub_L; [lia|done].
  - intros j [Hj Ht]%actS_true. by apply sub_S.
  - rewrite (sub_last S). by eexists.
Qed.

Lemma keys_usfx : keys S (usfx S) (usfx S).
Proof.
  assert (∀ x, 0 ≤ x < n → usfx S x = ltr S x :: usfx S (x + 1)) as Hcons by (intros; apply usfx_cons; lia).
  split.
  - intros x Hx. rewrite Hcons by done. by eexists.
  - intros j [Hj _]%actL_true. apply Hcons. lia.
  - done.
  - intros j [Hj _]%actS_true. apply Hcons. lia.
  - rewrite Hcons by lia. by eexists.
Qed.

Lemma name_LMS_spec A :
  zlen A = n →
  ∃ A' nm name L, name_LMS (hp A) t s n K = Ret (hp A', m, name) ∧ zlen A' = n ∧
    L ≡ₚ lmslist S ∧ named S L nm name ∧ drop (Z.to_nat (n - m)) A' = S1 S nm.
Proof.
  intros HA. unfold name_LMS. destruct (bkts_start S chs tail s K HS A HA) as (bkt & -> & Hb). cbn [mbind outcome_bind].
  rewrite fill_spec by lia. cbn [mbind outcome_bind]. change (Z.to_nat 0) with O.
  rewrite take_0, app_nil_l, Z.sub_0_r.
  destruct (place_LMS_spec S chs tail s K HS t t_types _ bkt eq_refl Hb) as (A1 & -> & Hseed). cbn [mbind outcome_bind].
  destruct (induce _ _ _ keys_sub Hseed) as (h & A2 & -> & Hrun & Hperm & Hsort). cbn [mbind outcome_bind].
  rewrite Hrun. cbn [mbind outcome_bind].
  set (L := filter (λ x, lms S x = true) A2).
  assert (L ≡ₚ lmslist S) as HL by (unfold L, lmslist; by rewrite Hperm).
  assert (StronglySorted (λ x y, lle (sub S x) (sub S y)) L) as HLs by (by apply StronglySorted_filter).
  destruct (compact_spec S chs tail s K HS t t_types A2 Hperm) as (A3 & -> & HA3 & Htake). fold L in Htake |- *.
  cbn [mbind outcome_bind]. pose proof (zlen_L S L HL) as HLm. pose proof (lms_count S chs tail s K HS).
  pose proof (zlen_nonneg L). rewrite fill_spec by lia. rewrite Htake. cbn [mbind outcome_bind].
  destruct (names_spec S chs tail s K HS t t_types L HL HLs _ eq_refl) as (A4 & nm & name & prev & -> & HC & Hnm).
  cbn [mbind outcome_bind].
  destruct (gather_names S chs tail s K HS L HL A4 nm name HC Hnm) as (A5 & -> & HA5 & Hdrop).
  cbn [mbind outcome_bind]. rewrite HLm in Hdrop |- *. by exists A5, nm, name, L.
Qed.

Lemma list_LMS_spec A :
  zlen A = n →
  ∃ A', list_LMS (hp A) t s1 n = Ret (hp A') ∧ zlen A' = n ∧ drop (Z.to_nat (n - m)) A' = lmslist S ∧
    ∀ i, i < n - m → aget A' i = aget A i.
Proof.
  intros HA. pose proof (lms_count S chs tail s K HS). pose proof (zlen_nonneg (lmslist S)). unfold list_LMS.
  assert (∀ k, k ≤ n → zlen (lms_upto S k) ≤ m) as Hup.
  { intros k Hk. apply NoDup_count; [apply NoDup_filter, NoDup_seqZ|].
    intros x [Hx Hr%elem_of_seqZ]%list_elem_of_filter. apply elem_of_lmslist. split; [lia|done]. }
  loop (λ (k : nat) '((h, j) : heap * Z), ∃ A', h = hp A' ∧ zlen A' = n ∧ j = zlen (lms_upto S (Z.of_nat k + 1)) ∧
    (∀ i, 0 ≤ i < j → aget A' (n - m + i) = aget (lms_upto S (Z.of_nat k + 1)) i) ∧
    ∀ i, i < n - m → aget A' i = aget A i) as ([h j] & Hrun & A' & -> & HA' & -> & Hget & Hlo).
  - exists A. change (lms_upto S (Z.of_nat 0 + 1)) with (@nil Z). change (zlen []) with 0. split_and!; done || lia.
  - intros k i [h j] Hi (A' & -> & HA' & -> & Hget & Hlo). apply lookup_seqZ in Hi as [-> Hk].
    rewrite (Z.add_comm 1), (isLMS_spec S t t_types) by lia. cbn [mbind outcome_bind].
    replace (Z.of_nat k + 1) with (Z.of_nat (Datatypes.S k)) in * by lia.
    pose proof (Hup (Z.of_nat (Datatypes.S k) + 1) ltac:(lia)) as Hm. rewrite lms_upto_step in Hm |- *.
    set (l := lms_upto S (Z.of_nat (Datatypes.S k))) in *. pose proof (zlen_nonneg l).
    destruct (lms S (Z.of_nat (Datatypes.S k)));
      [|by eexists (_, _); split; [done|]; exists A'; rewrite app_nil_r].
    rewrite zlen_app in Hm |- *. change (zlen [_]) with 1 in *. rewrite set_behind by lia.
    eexists (_, _). split; [done|]. eexists. split; [done|]. rewrite zlen_insert. split_and!; [done|done|..].
    + intros i Hi. rewrite aget_insert by lia. case_decide as Heq.
      * replace i with (zlen l) by lia. by rewrite aget_app_r, Z.sub_diag by lia.
      * rewrite aget_app_l by lia. apply Hget. lia.
    + intros i Hi. rewrite aget_insert, decide_False by lia. by apply Hlo.
  - rewrite Hrun. rewrite length_seqZ, Z2Nat.id, Z.sub_add in Hget by lia.
    exists A'. split_and!; [done|done| |done]. apply drop_cells; [lia|lia|done].
Qed.

(** ** From the suffix array of the names to the sorted LMS suffixes *)

Section result.
Context (L : list Z) (nm : Z → Z) (name : Z) (sa1 : list Z).
Hypothesis (L_perm : L ≡ₚ lmslist S).
Hypothesis (Hnm : named S L nm name).
Hypothesis (Hsa1 : sorted_suffixes (S1 S nm) sa1).

Definition lms_order : list Z := (λ x, default 0 (aget (lmslist S) x)) <$> sa1.

Lemma sa1_perm : sa1 ≡ₚ seqZ 0 m.
Proof. rewrite (sa_perm _ _ Hsa1). unfold S1. by rewrite zlen_fmap. Qed.

Lemma lms_order_perm : lms_order ≡ₚ lmslist S.
Proof.
  unfold lms_order. rewrite sa1_perm. pose proof (zlen_nonneg (lmslist S)).
  assert ((λ x, default 0 (aget (lmslist S) x)) <$> seqZ 0 m = lmslist S) as ->; [|done].
  apply aget_ext; [by rewrite zlen_fmap, zlen_seqZ by lia|].
  intros i Hi. rewrite zlen_fmap, zlen_seqZ in Hi by lia.
  rewrite aget_fmap, aget_seqZ, Z.add_0_l by lia. destruct (aget_is_Some (lmslist S) i Hi) as [x Hx].
  cbn [fmap option_fmap option_map]. by rewrite Hx.
Qed.

Lemma S1_suffix i x : aget (lmslist S) i = Some x →
  ∃ P l, lmslist S = P ++ x :: l ∧ sfx (S1 S nm) i = nm <$> x :: l.
Proof.
  intros Hx. pose proof (aget_Some_range _ _ _ Hx) as Hi. rewrite aget_nonneg in Hx by lia.
  exists (take (Z.to_nat i) (lmslist S)), (drop (Datatypes.S (Z.to_nat i)) (lmslist S)).
  split; [symmetry; by apply take_drop_middle|]. unfold sfx, S1. rewrite <- fmap_drop. f_equal. by apply drop_S.
Qed.

Lemma lms_order_sorted : StronglySorted (λ x y, usfx S x ≺ usfx S y) lms_order.
Proof.
  unfold lms_order. apply StronglySorted_aget. intros k k' x y Hlt. rewrite !aget_fmap.
  destruct (aget sa1 k) as [i|] eqn:Hi; [|done]. destruct (aget sa1 k') as [j|] eqn:Hj; [|done].
  cbn [fmap option_fmap option_map]. intros [= <-] [= <-].
  assert (sfx (S1 S nm) i ≺ sfx (S1 S nm) j) as Hs.
  { destruct (aget_split _ _ _ Hi) as (P & Q & Heq & HP). pose proof (sa_sorted _ _ Hsa1) as Hs.
    rewrite Heq in Hs, Hj. rewrite aget_app_r, aget_cons, decide_False in Hj by lia.
    apply StronglySorted_app_1_r, StronglySorted_inv in Hs as [_ Hall]. rewrite Forall_forall in Hall.
    apply Hall. by eapply aget_elem_of. }
  apply aget_elem_of in Hi, Hj. rewrite sa1_perm in Hi, Hj. apply elem_of_seqZ in Hi, Hj.
  destruct (aget_is_Some (lmslist S) i ltac:(lia)) as [x Hx]. destruct (aget_is_Some (lmslist S) j ltac:(lia)) as [y Hy].
  rewrite Hx, Hy. simpl. destruct (S1_suffix i x Hx) as (P & l & HP & Hsi).
  destruct (S1_suffix j y Hy) as (P' & l' & HP' & Hsj). rewrite Hsi, Hsj in Hs.
  apply (names_lex S S_marked S_length' nm) with (4 := HP') (3 := HP); [..|done].
  - intros a b Ha Hb. apply (nm_order _ _ _ _ Hnm); by rewrite L_perm.
  - intros a b Ha Hb. apply (nm_same _ _ _ _ Hnm); by rewrite L_perm.
Qed.

Lemma lms_order_chr : StronglySorted (λ x y, chr S x ≤ chr S y) lms_order.
Proof.
  pose proof lms_order_sorted as Hs. pose proof lms_order_perm as Hp.
  assert (∀ x, x ∈ lms_order → 0 ≤ x < n) as Hr by (intros x; rewrite Hp; by intros [? _]%elem_of_lmslist).
  clear Hp. induction Hs as [|x l _ IH Hall]; constructor; [apply IH; set_solver|].
  rewrite Forall_forall in Hall |- *. intros y Hy. pose proof (Hr x ltac:(set_solver)). pose proof (Hr y ltac:(set_solver)).
  specialize (Hall y Hy). rewrite (usfx_cons S x), (usfx_cons S y), lex_cons in Hall by lia. unfold ltr in Hall.
  destruct (ty S x), (ty S y); simpl Z.b2z in Hall; lia.
Qed.

(** The order of the typed suffixes is the order of the suffixes. *)
Lemma usfx_sorted A :
  A ≡ₚ seqZ 0 n → StronglySorted (λ x y, lle (usfx S x) (usfx S y)) A → sorted_suffixes S A.
Proof.
  intros HA Hs. split; [done|].
  assert (NoDup A) as Hnd by (rewrite HA; apply NoDup_seqZ).
  assert (∀ x, x ∈ A → 0 ≤ x < n) as Hr by (intros x; rewrite HA; intros Hx%elem_of_seqZ; lia).
  clear HA. induction Hs as [|x l _ IH Hall]; constructor.
  - apply IH; [by apply NoDup_cons in Hnd as [_ ?]|set_solver].
  - rewrite Forall_forall in Hall |- *. intros y Hy. pose proof (Hr x ltac:(set_solver)) as Hx.
    pose proof (Hr y ltac:(set_solver)) as Hyr. apply (usfx_lex S S_marked); [lia|lia|].
    destruct (lex_total (usfx S x) (usfx S y)) as [?|[Heq|Hgt]]; [done| |by destruct (Hall y Hy)].
    exfalso. apply (f_equal zlen) in Heq. unfold usfx in Heq. rewrite !zlen_fmap, !zlen_seqZ in Heq by lia.
    apply NoDup_cons in Hnd as [Hn _]. apply Hn. by replace x with y by lia.
Qed.

Lemma induce_result_spec A :
  zlen A = n → take (Z.to_nat m) A = sa1 →
  ∃ A', induce_result (hp A) t s s1 n m K = Ret (hp A') ∧ sorted_suffixes S A'.
Proof.
  intros HA Htake. unfold induce_result. pose proof (lms_count S chs tail s K HS) as Hc.
  pose proof (zlen_nonneg (lmslist S)).
  destruct (bkts_start S chs tail s K HS A HA) as (bkt & -> & Hb). cbn [mbind outcome_bind].
  destruct (list_LMS_spec A HA) as (A1 & -> & HA1 & Hdrop & Hlo). cbn [mbind outcome_bind].
  assert (take (Z.to_nat m) A1 = sa1) as Htake1.
  { rewrite <- Htake. apply take_cells; rewrite ?zlen_take; [lia..|]. intros i Hi. rewrite aget_take by lia. apply Hlo. lia. }
  destruct (refer_loop chs tail (lmslist S) n Hc A1 sa1 HA1 Htake1 Hdrop sa1_perm) as (A2 & -> & HA2 & Htake2).
  cbn [mbind outcome_bind]. rewrite fill_spec by lia. rewrite Htake2. fold lms_order. cbn [mbind outcome_bind].
  assert (zlen lms_order = m) as Hm by (unfold zlen; by rewrite lms_order_perm).
  destruct (spread_spec S chs tail s K HS t t_types lms_order (usfx S) lms_order_perm lms_order_chr) with (bkt := bkt)
    as (A3 & Hspread & Hseed); [|lia|done|].
  { eapply StronglySorted_impl; [|apply lms_order_sorted]. intros; by apply lex_lle. }
  rewrite Hm in Hspread. rewrite Hspread. cbn [mbind outcome_bind].
  destruct (induce _ _ _ keys_usfx Hseed) as (h & A4 & -> & Hrun & Hperm & Hsort). cbn [mbind outcome_bind].
  exists A4. split; [done|]. by apply usfx_sorted.
Qed.
End result.
End level.

(** ** The recursion *)

(** The reduced problem: the string of names sits behind the array it is sorted in. *)
Lemma reduced_level S chs tail s K L nm name A :
  level S chs tail s K → L ≡ₚ lmslist S → named S L nm name → zlen A = zlen S →
  drop (Z.to_nat (zlen S - zlen (lmslist S))) A = S1 S nm → name < zlen (lmslist S) →
  level (S1 S nm) chs (drop (Z.to_nat (zlen (lmslist S))) A ++ tail)
    (mkO true (zlen S - zlen (lmslist S))) (name - 1).
Proof.
  intros HS HL Hnm HA Hdrop Hlt. pose proof (lms_count S chs tail s K HS) as Hc.
  pose proof (lv_length _ _ _ _ _ HS). pose proof (zlen_nonneg (lmslist S)).
  pose proof (name_pos S chs tail s K HS L HL nm name Hnm).
  assert (zlen (S1 S nm) = zlen (lmslist S)) as HS1 by (unfold S1; by rewrite zlen_fmap).
  split.
  - by apply (S1_marked S chs tail s K HS L HL nm name).
  - lia.
  - intros B i HB Hi. unfold get, array, hp. cbn [in_sa sa offset].
    rewrite aget_app_r, aget_app_l, aget_drop by (rewrite ?zlen_drop; lia).
    replace (Z.of_nat (Z.to_nat (zlen (lmslist S))) + (i + (zlen S - zlen (lmslist S)) - zlen B))
      with (i + (zlen S - zlen (lmslist S))) by lia.
    rewrite (drop_get _ _ _ i Hdrop), (chr_get (S1 S nm) i Hi) by lia. done.
  - intros i Hi. apply (S1_codes S L HL nm name Hnm). rewrite (zlen_L S L HL). lia.
Qed.

Lemma make_level fuel S chs tail s K A :
  level S chs tail s K → zlen A = zlen S → zlen S ≤ Z.of_nat fuel →
  ∃ A', _make fuel (hp chs tail A) s (zlen S) K = Ret (hp chs tail A') ∧ sorted_suffixes S A'.
Proof.
  revert S chs tail s K A. induction fuel as [|fuel IH]; intros S chs tail s K A HS HA Hf;
    pose proof (lv_length _ _ _ _ _ HS) as Hn; [lia|].
  cbn [_make].
  destruct (classify_spec S chs tail s (lv_marked _ _ _ _ _ HS) Hn (lv_get _ _ _ _ _ HS) A HA) as (t & -> & Ht).
  cbn [mbind outcome_bind].
  destruct (name_LMS_spec S chs tail s K HS t Ht A HA) as (A1 & nm & name & L & -> & HA1 & HL & Hnm & Hdrop).
  cbn [mbind outcome_bind]. cbv zeta. pose proof (lms_count S chs tail s K HS) as Hc.
  set (m := zlen (lmslist S)) in *. pose proof (zlen_nonneg (lmslist S)) as Hm0. fold m in Hm0.
  assert (zlen (S1 S nm) = m) as HS1 by (unfold S1, m; by rewrite zlen_fmap).
  assert (∃ A2, (if decide (name < m) then _make fuel (hp chs tail A1) (mkO true (zlen S - m)) m (name - 1)
      else ofold (λ h i, x ← get h (mkO true (zlen S - m)) i; store h x i) (hp chs tail A1) (seqZ 0 m))
      = Ret (hp chs tail A2) ∧ zlen A2 = zlen S ∧ sorted_suffixes (S1 S nm) (take (Z.to_nat m) A2))
    as (A2 & -> & HA2 & Hsorted).
  - case_decide as Hlt.
    + destruct (IH (S1 S nm) chs (drop (Z.to_nat m) A1 ++ tail) (mkO true (zlen S - m)) (name - 1) (take (Z.to_nat m) A1))
        as (A' & Hrun & HA'); [by apply (reduced_level S chs tail s K L)|rewrite zlen_take; lia|lia|].
      unfold hp in *. rewrite app_assoc, take_drop, HS1 in Hrun. rewrite Hrun.
      pose proof (zlen_sa _ _ HA') as Hlen. rewrite HS1 in Hlen.
      exists (A' ++ drop (Z.to_nat m) A1). rewrite <- app_assoc, zlen_app, zlen_drop.
      split_and!; [done|lia|]. rewrite take_app_le, take_ge by (unfold zlen in Hlen; lia). done.
    + pose proof (zlen_L S L HL) as HLm. fold m in HLm.
      pose proof (S1_distinct S L HL nm name Hnm ltac:(lia)) as Hdist. rewrite HLm, <- HS1 in Hdist.
      rewrite <- HS1 in Hdrop, Hc |- *.
      destruct (rank_loop chs tail (S1 S nm) (zlen S) Hc A1 HA1 Hdrop Hdist) as (A2 & -> & HA2 & Hget).
      exists A2. split_and!; [done..|]. by apply (ranks_sorted (S1 S nm) (zlen S)).
  - cbn [mbind outcome_bind]. by apply (induce_result_spec S chs tail s K HS t Ht L nm name _ HL Hnm Hsorted).
Qed.

Lemma max_code (l : list Z) a :
  let b := foldl (λ maxCode code, if decide (code > maxCode) then code else maxCode) a l in
  a ≤ b ∧ ∀ x, x ∈ l → x ≤ b.
Proof.
  revert a. induction l as [|y l IH]; intros a; [split; [done|]; intros x Hx; by apply elem_of_nil in Hx|].
  cbn [foldl]. cbv zeta. specialize (IH (if decide (y > a) then y else a)). cbv zeta in IH.
  destruct IH as [H1 H2]. split; [case_decide; lia|]. intros x [->|Hx]%elem_of_cons; [case_decide; lia|by apply H2].
Qed.

(** [make] returns the suffix array of every marked string. *)
Lemma make_spec T :
  marked T → 2 ≤ zlen T < 2 ^ 31 - 1 → ∃ sa, SAIS.make T = Ret sa ∧ sorted_suffixes T sa.
Proof.
  intros HT Hn. unfold make. cbv zeta. set (K := foldl _ 0 T).
  assert (level T T [] (mkO false 0) K) as HL.
  { split; [done|done|..].
    - intros A i _ Hi. unfold get, array. cbn [in_sa offset chars hp]. by rewrite Z.add_0_r, (chr_get T i).
    - intros i Hi. apply (proj2 (max_code T 0)), (aget_elem_of _ i), chr_get, Hi. }
  destruct (make_level (S (length T)) T T [] (mkO false 0) K (replicate (length T) 0) HL) as (A & Hrun & HA);
    [by rewrite zlen_replicate|unfold zlen; lia|].
  unfold hp in Hrun. rewrite app_nil_r in Hrun. rewrite Hrun. exists A. cbn [mbind outcome_bind sa].
  by rewrite app_nil_r.
Qed.

(** C6: the suffix sort returns, for every string that ends in its only end
    marker, all positions of the string, in the lexicographic order of the
    suffixes that start there. *)
Theorem suffix_sort_correct T :
  marked T → 2 ≤ zlen T < 2 ^ 31 - 1 → ∃ sa, SAIS.make T = Ret sa ∧ sorted_suffixes T sa.
Proof. apply make_spec. Qed.

Lemma suffix_sort_correct_witness :
  ∃ sa, SAIS.make [2; 1; 2; 1; 3; 1; 0] = Ret sa ∧ sorted_suffixes [2; 1; 2; 1; 3; 1; 0] sa.
Proof.
  apply (suffix_sort_correct [2; 1; 2; 1; 3; 1; 0]); [|done].
  apply (marked_app [2; 1; 2; 1; 3; 1]). by repeat constructor.
Defined.
