(* ===== verification/BurrowsWheeler.v ===== *)
(** * The Burrows-Wheeler transform

    Models [src/misc/oktavia/src/burrows-wheeler-transform.jsx].  What [build] and
    [get] compute is shown in [FMIndex], where the transform is used. *)

From S2P Require Import Prelude Sais.

Local Open Scope Z_scope.

Module BWT.

Definition END_MARKER : jsstr := fromCharCode 0.

Record t := mk { _str : jsstr; _size : Z; _head : Z; _suffixarray : list Z }.

Definition new : t := mk [] 0 0 [].
Definition size (b : t) : Z := _size b.
Definition head (b : t) : Z := _head b.
Definition clear (b : t) : t := mk [] 0 0 [].

Definition build (b : t) (str : jsstr) : outcome t :=
  sa ← SAIS.make str;
  Ret (mk str (zlen str) (indexOf sa 0) sa).

(** [get(i)], a string of one character. *)
Definition get_at (b : t) (i : Z) : outcome jsstr :=
  let size := size b in
  if decide (i >= size) then Throw "BurrowsWheelerTransform.get() : range error"
  else
    x ← of_option (aget (_suffixarray b) i);
    let index := js_rem (x + size - 1) size in
    Ret (charAt (_str b) index).

Definition get (b : t) : outcome jsstr :=
  ofold (λ str i, c ← get_at b i; Ret (str ++ c)) [] (seqZ 0 (size b)).

(** [String.replace] with a string pattern of one character: the first occurrence
    is replaced.  A replacement with a dollar sign has a syntax of its own and is
    outside the model. *)
Fixpoint replace_first (s : jsstr) (c : Z) (r : jsstr) : jsstr :=
  match s with
  | [] => []
  | x :: s => if decide (x = c) then r ++ s else x :: replace_first s c r
  end.

Definition get_replace (b : t) (replace : jsstr) : outcome jsstr :=
  result ← get b;
  if decide (36 ∈ replace) then Undef else Ret (replace_first result 0 replace).

End BWT.
