(* ===== verification/FMIndex.v ===== *)
(** * The FM-index

    Models [src/misc/oktavia/src/fm-index.jsx]: the compressed full-text index
    the search engine is built on.  [repr fm T sa] says that the index holds the
    text [T] with the suffix array [sa]; [build] establishes it, and under it
    [search], [getPosition] and [getSubstring] are shown to answer on [T]. *)

From S2P Require Import Prelude JsObject Binary BitVector WaveletMatrix Suffixes Sais SaisCorrect BurrowsWheeler.

Local Open Scope Z_scope.

Module FM.

Record t := mk {
  _substr : jsstr;
  _ddic : Z;
  _ssize : Z;
  _head : Z;
  _sv : WM.t;
  _posdic : list Z;
  _idic : list Z;
  (** The codes the table holds; the slots up to its [length] of 65536 that are
      never written read as [undefined]. *)
  _rlt : list Z;
}.

Definition new : t := mk [] 0 0 0 WM.new [] [] [].

Definition clear (fm : t) : t := mk [] 0 (_ssize fm) 0 (WM.clear (_sv fm)) [] [] (_rlt fm).

Definition size (fm : t) : Z := WM.size (_sv fm).
Definition contentSize (fm : t) : Z := zlen (_substr fm).

(** The loop of [getRows] over the rest of the keyword, last character first;
    [None] is [NaN], with which every comparison is false. *)
Fixpoint rows_loop (fm : t) (rest : jsstr) (first last : option Z) : outcome (Z * option (Z * Z)) :=
  match first, last with
  | Some first, Some last =>
    if decide (first <= last) then
      match rest with
      | [] => Ret (last - 1 - (first - 1) + 1, Some (first - 1, last - 1))
      | c :: rest =>
        r1 ← WM.rank (_sv fm) (first - 1) c;
        r2 ← WM.rank (_sv fm) last c;
        rows_loop fm rest ((λ x, x + r1 + 1) <$> aget (_rlt fm) c) ((λ x, x + r2) <$> aget (_rlt fm) c)
      end
    else Ret (0, None)
  | _, _ => Ret (0, None)
  end.

(** [getRows(key, pos)]: the number of rows and what it writes to [pos]. *)
Definition getRows (fm : t) (key : jsstr) : outcome (Z * option (Z * Z)) :=
  match reverse key with
  | [] => Ret (0, None)
  | code :: rest =>
    rows_loop fm rest ((λ x, x + 1) <$> aget (_rlt fm) code) (aget (_rlt fm) (code + 1))
  end.

(** The step shared by the loops: [i = this._rlt[c] + this._sv.rank(i, c)]. *)
Definition LF (fm : t) (i : Z) : outcome (Z * Z) :=
  c ← WM.get (_sv fm) i;
  x ← of_option (aget (_rlt fm) c);
  r ← WM.rank (_sv fm) i c;
  Ret (c, x + r).

Fixpoint position_loop (fuel : nat) (fm : t) (i pos : Z) : outcome Z :=
  match fuel with
  | O => NoFuel
  | S fuel =>
    if decide (i = _head fm) then Ret pos
    else if decide (js_rem i (_ddic fm) = 0) then
      p ← of_option (aget (_posdic fm) (i / _ddic fm));
      Ret (pos + (p + 1))
    else
      '(_, i) ← LF fm i;
      position_loop fuel fm i (pos + 1)
  end.

Definition getPosition (fm : t) (i : Z) : outcome Z :=
  if decide (i >= size fm) then Throw "FMIndex.getPosition() : range error"
  else
    pos ← position_loop (S (Z.to_nat (size fm))) fm i 0;
    Ret (js_rem pos (size fm)).

Fixpoint substring_loop (fuel : nat) (fm : t) (pos pos_end pos_tmp : Z) (i : option Z)
    (substr : jsstr) : outcome jsstr :=
  match fuel with
  | O => NoFuel
  | S fuel =>
    if decide (pos_tmp >= pos) then
      i ← of_option i;
      '(c, i) ← LF fm i;
      let substr := if decide (pos_tmp < pos_end) then fromCharCode c ++ substr else substr in
      if decide (pos_tmp = 0) then Ret substr
      else substring_loop fuel fm pos pos_end (pos_tmp - 1) (Some i) substr
    else Ret substr
  end.

Definition getSubstring (fm : t) (pos len : Z) : outcome jsstr :=
  if decide (pos >= size fm) then Throw "FMIndex.getSubstring() : range error"
  else
    let pos_end := Z.min (pos + len) (size fm) in
    let pos_idic := (pos_end + _ddic fm - 2) / _ddic fm in
    let '(pos_tmp, i) :=
      if decide (pos_idic < zlen (_idic fm)) then (pos_idic * _ddic fm, aget (_idic fm) pos_idic)
      else (size fm - 1, Some (_head fm)) in
    substring_loop (S (Z.to_nat (pos_tmp - pos + 1))) fm pos pos_end pos_tmp i [].

(** One iteration of the loop of [_buildDictionaries]. *)
Definition dictionary_step (fm : t) (i pos : Z) : outcome (t * Z) :=
  posdic ← (if decide (js_rem i (_ddic fm) = 0) then aset (_posdic fm) (i / _ddic fm) pos
            else Ret (_posdic fm));
  idic ← (if decide (js_rem pos (_ddic fm) = 0) then aset (_idic fm) (pos / _ddic fm) i
          else Ret (_idic fm));
  '(_, i) ← LF fm i;
  Ret (mk (_substr fm) (_ddic fm) (_ssize fm) (_head fm) (_sv fm) posdic idic (_rlt fm), i).

Fixpoint dictionary_loop (fuel : nat) (fm : t) (i pos : Z) : outcome t :=
  match fuel with
  | O => NoFuel
  | S fuel =>
    '(fm, i) ← dictionary_step fm i pos;
    if decide (i = _head fm) then Ret fm else dictionary_loop fuel fm i (pos - 1)
  end.

(** The first loop runs while [i < this._ssize / this._ddic + 1], a comparison
    of numbers that are not truncated: one iteration more than the quotient
    rounded up. *)
Definition _buildDictionaries (fm : t) : outcome t :=
  let entries := (_ssize fm + _ddic fm - 1) / _ddic fm + 1 in
  let zeros := replicate (Z.to_nat entries) 0 in
  let fm := mk (_substr fm) (_ddic fm) (_ssize fm) (_head fm) (_sv fm)
               (_posdic fm ++ zeros) (_idic fm ++ zeros) (_rlt fm) in
  dictionary_loop (S (Z.to_nat (size fm))) fm (_head fm) (size fm - 1).

(** [this._rlt[c] = ...] for the codes below [maxChar]. *)
Definition cache_rlt (sv : WM.t) (rlt : list Z) (maxChar : Z) : outcome (list Z) :=
  ofold (λ rlt c, x ← WM.rank_less_than sv (WM.size sv) c; aset rlt c x) rlt (seqZ 0 maxChar).

(** [verbose] only adds messages on the console. *)
Definition build (fm : t) (end_marker : jsstr) (maxChar ddic : Z) : outcome t :=
  b ← BWT.build BWT.new (_substr fm ++ end_marker);
  s ← BWT.get b;
  let sv := WM.setMaxCharCode (_sv fm) maxChar in
  sv ← WM.build sv s;
  rlt ← cache_rlt sv (_rlt fm) maxChar;
  _buildDictionaries (mk [] ddic (zlen s) (BWT.head b) sv (_posdic fm) (_idic fm) rlt).

Definition push (fm : t) (doc : jsstr) : outcome t :=
  if decide (zlen doc <= 0) then Throw "FMIndex::push(): empty string"
  else Ret (mk (_substr fm ++ doc) (_ddic fm) (_ssize fm) (_head fm) (_sv fm)
               (_posdic fm) (_idic fm) (_rlt fm)).

Definition search (fm : t) (keyword : jsstr) : outcome (list Z) :=
  '(rows, position) ← getRows fm keyword;
  if decide (rows > 0) then
    '(first, last) ← of_option position;
    omap_list (getPosition fm) (seqZ first (last + 1 - first))
  else Ret [].

Definition dump (fm : t) : outcome jsstr :=
  let report := Bin.report_add Bin.report_new 6 6 in
  '(s, _) ← WM.dump (_sv fm) (Some report);
  Ret (Bin.dump32bitNumber (_ddic fm) ++ Bin.dump32bitNumber (_ssize fm) ++
       Bin.dump32bitNumber (_head fm) ++ s ++ Bin.dump32bitNumber (zlen (_posdic fm)) ++
       concat (Bin.dump32bitNumber <$> _posdic fm) ++ concat (Bin.dump32bitNumber <$> _idic fm)).

(** The body of the loops that read the dictionaries. *)
Definition load_entry (data : jsstr) (st : list Z * Z) (i : Z) : outcome (list Z * Z) :=
  let '(l, offset) := st in
  x ← Bin.load32bitNumber data offset;
  Ret (l ++ [x], offset + 2).

Definition load (fm : t) (data : jsstr) (offset : Z) : outcome (t * Z) :=
  ddic ← Bin.load32bitNumber data offset;
  ssize ← Bin.load32bitNumber data (offset + 2);
  head ← Bin.load32bitNumber data (offset + 4);
  '(sv, offset) ← WM.load (_sv fm) data (offset + 6);
  rlt ← cache_rlt sv (_rlt fm) (2 ^ WM.bitsize sv);
  size ← Bin.load32bitNumber data offset;
  let offset := offset + 2 in
  '(posdic, offset) ← ofold (load_entry data) (_posdic fm, offset) (seqZ 0 size);
  '(idic, offset) ← ofold (load_entry data) (_idic fm, offset) (seqZ 0 size);
  Ret (mk (_substr fm) (to_int32 ddic) (to_int32 ssize) (to_int32 head) sv posdic idic rlt, offset).

(** ** What an index holds *)

(** The positions where a keyword occurs. *)
Definition occurrences (T key : list Z) : list Z :=
  filter (λ k, key `prefix_of` sfx T k) (seqZ 0 (zlen T)).

(** The tables the queries read: the transform, and the smaller characters of
    every code below [M]. *)
Record tables (fm : t) (T sa : list Z) (M : Z) : Prop := {
  tables_marked : marked T;
  tables_sorted : sorted_suffixes T sa;
  tables_codes : Forall (λ c, c < M) T;
  tables_max : M ≤ 65536;
  tables_length : zlen T < 2 ^ 31 - 1;
  tables_sv : WM.repr (_sv fm) (bwt T sa);
  tables_rlt_length : zlen (_rlt fm) = M;
  tables_rlt c : 0 ≤ c < M → aget (_rlt fm) c = Some (smaller T c);
  tables_bitsize : WM.bitsize (_sv fm) ≤ 16;
  tables_bits : M ≤ 2 ^ WM.bitsize (_sv fm);
  tables_head : aget sa (_head fm) = Some 0;
  tables_ddic : 0 < _ddic fm < 2 ^ 31;
  tables_ssize : _ssize fm = zlen T;
}.

Record repr (fm : t) (T sa : list Z) (M : Z) : Prop := {
  repr_tables :> tables fm T sa M;
  repr_posdic i k : aget sa i = Some k → i mod _ddic fm = 0 →
    aget (_posdic fm) (i / _ddic fm) = Some ((k - 1) mod zlen T);
  repr_idic p : 0 ≤ p < zlen T → p mod _ddic fm = 0 →
    ∃ i, aget (_idic fm) (p / _ddic fm) = Some i ∧ aget sa i = Some ((p + 1) mod zlen T);
  repr_posdic_length : zlen (_posdic fm) = (zlen T + _ddic fm - 1) / _ddic fm + 1;
  repr_slots : Forall (λ x, 0 ≤ x < 2 ^ 31) (_posdic fm ++ _idic fm);
  repr_idic_length : zlen (_idic fm) = (zlen T + _ddic fm - 1) / _ddic fm + 1;
  repr_idic_rest p : zlen T ≤ p < zlen (_idic fm) * _ddic fm → p mod _ddic fm = 0 →
    aget (_idic fm) (p / _ddic fm) = Some 0;
}.

Section queries.
Context (fm : t) (T sa : list Z) (M : Z) (R : tables fm T sa M).
Abbreviation n := (zlen T).

Let T_marked : marked T := tables_marked _ _ _ _ R.
Let sa_ok : sorted_suffixes T sa := tables_sorted _ _ _ _ R.

Lemma size_text : size fm = n.
Proof.
  unfold size, WM.size. rewrite (WM.repr_size _ _ (tables_sv _ _ _ _ R)). by apply zlen_bwt.
Qed.

Lemma text_code k c : aget T k = Some c → 0 ≤ c < M.
Proof.
  intros Hc. pose proof (T_nonneg T T_marked k c Hc).
  pose proof (tables_codes _ _ _ _ R) as HF. rewrite Forall_forall in HF.
  split; [done|]. by apply HF, (aget_elem_of _ k).
Qed.

Lemma before_code k : 0 ≤ k < n → 0 ≤ before T k < M.
Proof.
  intros Hk. pose proof (length_positive T T_marked). unfold before.
  destruct (aget_is_Some T ((k - 1) mod n)) as [c Hc]; [apply Z.mod_pos_bound; lia|].
  rewrite Hc. by eapply text_code.
Qed.

(** The step of the loops, on the rows. *)
Lemma LF_spec i k :
  aget sa i = Some k → ∃ i', LF fm i = Ret (before T k, i') ∧ aget sa i' = Some ((k - 1) mod n).
Proof.
  intros Hi. pose proof (sa_get T sa sa_ok _ _ Hi) as [Hir Hk]. unfold LF.
  pose proof (tables_sv _ _ _ _ R) as Hsv.
  rewrite (WM.get_code _ _ Hsv i (before T k)) by (unfold bwt; by rewrite aget_fmap, Hi).
  cbn [mbind outcome_bind]. rewrite (tables_rlt _ _ _ _ R) by by apply before_code.
  cbn [mbind outcome_bind of_option].
  rewrite (WM.rank_code _ _ Hsv) by (rewrite zlen_bwt by done; lia). cbn [mbind outcome_bind].
  eexists. split; [done|]. by apply LF_row.
Qed.

(** ** Backward search *)

Lemma rows_occurrences P :
  rows_below T true P = rows_below T false P + zlen (occurrences T P).
Proof.
  apply zlen_filter_or. intros k _. split; [apply cut_prefix|].
  intros [Hc Hp]. by apply cut_not_prefix in Hc.
Qed.

Lemma rows_below_nil : rows_below T false [] = 0 ∧ rows_below T true [] = n.
Proof.
  unfold rows_below. split.
  - by rewrite filter_none by (apply Forall_forall; done).
  - rewrite filter_all by (apply Forall_forall; done). apply zlen_seqZ, zlen_nonneg.
Qed.

Lemma rows_below_char c :
  0 < c → rows_below T false [c] = smaller T c ∧ rows_below T true [c] = smaller T (c + 1).
Proof.
  intros Hc. destruct rows_below_nil as [H0 H1].
  rewrite !(rows_below_cons T sa T_marked sa_ok) by done. rewrite H0, H1. split.
  - change (Z.to_nat 0) with O. rewrite take_0. change (zlen (filter _ [])) with 0. lia.
  - rewrite take_ge by (pose proof (zlen_bwt T sa sa_ok) as Hl; unfold zlen in *; lia).
    rewrite (zlen_filter_perm _ (bwt T sa) T) by by apply bwt_perm.
    unfold smaller. symmetry. apply zlen_filter_or. intros x _. lia.
Qed.

Lemma elem_of_occurrences P k : k ∈ occurrences T P ↔ 0 ≤ k < n ∧ P `prefix_of` sfx T k.
Proof. unfold occurrences. rewrite list_elem_of_filter, elem_of_seqZ. naive_solver lia. Qed.

Lemma occurrences_none P : occurrences T P = [] ↔ ∀ k, k ∉ occurrences T P.
Proof.
  split; [intros -> k; apply not_elem_of_nil|]. intros Hk.
  destruct (occurrences T P) as [|k l]; [done|]. destruct (Hk k). left.
Qed.

Lemma occurrence_get P c k : k ∈ occurrences T (c :: P) → aget T k = Some c.
Proof.
  intros [Hk [s Hs]]%elem_of_occurrences. destruct (aget_is_Some T k Hk) as [x Hx].
  rewrite (sfx_cons _ _ _ Hx) in Hs. by injection Hs as -> _.
Qed.

(** A keyword occurs only where its end does. *)
Lemma occurrences_cons c P : P ≠ [] → occurrences T P = [] → occurrences T (c :: P) = [].
Proof.
  intros HP Hnone. rewrite occurrences_none in *. intros k Hk. pose proof (occurrence_get _ _ _ Hk) as Hc.
  apply (Hnone (k + 1)). apply elem_of_occurrences in Hk as [Hk [s Hs]].
  rewrite (sfx_cons _ _ _ Hc) in Hs. injection Hs as Hs. apply elem_of_occurrences.
  split; [|by exists s]. destruct (decide (k + 1 < n)); [lia|]. exfalso.
  assert (sfx T (k + 1) = []) as Hnil by (unfold sfx; apply drop_ge; unfold zlen in *; lia).
  rewrite Hnil in Hs. by destruct P.
Qed.

Lemma occurrences_app A P : P ≠ [] → occurrences T P = [] → occurrences T (A ++ P) = [].
Proof.
  intros HP Hnone. induction A as [|c A IH]; [done|]. simpl. apply occurrences_cons; [|done].
  by destruct A.
Qed.

Lemma occurrences_outside A c P : M ≤ c → occurrences T (A ++ c :: P) = [].
Proof.
  intros Hc. apply occurrences_app; [done|]. apply occurrences_none.
  intros k Hk%occurrence_get. apply text_code in Hk. lia.
Qed.

(** What [getRows] returns for a keyword. *)
Definition rows_answer (key : list Z) : Z * option (Z * Z) :=
  if decide (occurrences T key = []) then (0, None)
  else (zlen (occurrences T key), Some (rows_below T false key, rows_below T true key - 1)).

Lemma occurrences_pos P : occurrences T P ≠ [] ↔ 0 < zlen (occurrences T P).
Proof. unfold zlen. destruct (occurrences T P); simpl; split; try done; lia. Qed.

Lemma rows_loop_spec rest P :
  P ≠ [] → Forall (λ c, 0 < c) rest →
  rows_loop fm rest (Some (rows_below T false P + 1)) (Some (rows_below T true P))
    = Ret (rows_answer (reverse rest ++ P)).
Proof.
  revert P. induction rest as [|c rest IH]; intros P HP Hpos.
  - simpl. pose proof (rows_occurrences P) as Hocc. pose proof (occurrences_pos P) as Hpo.
    unfold rows_answer. change (reverse [] ++ P) with P. case_decide as Hle.
    + rewrite decide_False by (apply Hpo; lia). f_equal; f_equal; [lia|]; do 2 f_equal; lia.
    + rewrite decide_True; [done|]. destruct (decide (occurrences T P = [])) as [|Hne]; [done|].
      apply Hpo in Hne. lia.
  - apply Forall_cons in Hpos as [Hc Hpos]. cbn [rows_loop].
    rewrite reverse_cons, <- app_assoc. cbn [app].
    pose proof (rows_occurrences P) as Hocc. pose proof (rows_below_range T false P) as Hr0.
    pose proof (rows_below_range T true P) as Hr1. case_decide as Hle.
    + pose proof (tables_sv _ _ _ _ R) as Hsv. pose proof (zlen_bwt T sa sa_ok).
      replace (rows_below T false P + 1 - 1) with (rows_below T false P) by lia.
      rewrite !(WM.rank_code _ _ Hsv) by lia. cbn [mbind outcome_bind].
      destruct (decide (c < M)).
      * rewrite (tables_rlt _ _ _ _ R) by lia. cbn [fmap option_fmap option_map].
        rewrite <- !(rows_below_cons T sa T_marked sa_ok) by done. by apply IH.
      * rewrite (aget_None (_rlt fm)) by (rewrite (tables_rlt_length _ _ _ _ R); lia).
        unfold rows_answer. rewrite decide_True by (apply occurrences_outside; lia).
        by destruct rest.
    + unfold rows_answer. rewrite decide_True; [done|]. change (c :: P) with ([c] ++ P). rewrite app_assoc.
      apply occurrences_app; [done|]. destruct (decide (occurrences T P = [])) as [|Hne]; [done|].
      apply occurrences_pos in Hne. lia.
Qed.

(** Backward search finds the rows of a keyword, unless it ends in the largest
    code of the table, whose upper bound the table does not hold. *)
Lemma getRows_spec key :
  key ≠ [] → Forall (λ c, 0 < c) key → list.last key ≠ Some (M - 1) →
  getRows fm key = Ret (rows_answer key).
Proof.
  intros Hne Hpos Hlast. destruct key as [|c P _] using rev_ind; [done|].
  apply Forall_app in Hpos as [Hpos Hc]. rewrite Forall_singleton in Hc.
  rewrite last_snoc in Hlast. unfold getRows. rewrite reverse_snoc.
  destruct (decide (c < M)).
  - destruct (rows_below_char c Hc) as [H0 H1]. assert (c ≠ M - 1) by congruence.
    rewrite !(tables_rlt _ _ _ _ R) by lia. cbn [fmap option_fmap option_map].
    rewrite <- H0, <- H1, rows_loop_spec; [by rewrite reverse_involutive|done|].
    by apply Forall_reverse.
  - rewrite (aget_None (_rlt fm) c) by (rewrite (tables_rlt_length _ _ _ _ R); lia).
    unfold rows_answer. rewrite decide_True by (apply occurrences_outside; lia). by destruct (reverse P).
Qed.

Lemma getRows_top key :
  list.last key = Some (M - 1) → getRows fm key = Ret (0, None).
Proof.
  destruct key as [|c P _] using rev_ind; [done|]. rewrite last_snoc. intros [= ->].
  unfold getRows. rewrite reverse_snoc. replace (M - 1 + 1) with M by lia.
  rewrite (aget_None (_rlt fm) M) by (rewrite (tables_rlt_length _ _ _ _ R); lia).
  destruct (aget (_rlt fm) (M - 1)); by destruct (reverse P).
Qed.

(** The rows of a keyword, in the order of the suffix array. *)
Lemma rows_segment P :
  take (Z.to_nat (zlen (occurrences T P))) (drop (Z.to_nat (rows_below T false P)) sa)
    = filter (λ k, P `prefix_of` sfx T k) sa.
Proof.
  pose proof (rows_occurrences P) as Hocc. pose proof (rows_below_range T false P) as Hr.
  pose proof (zlen_nonneg (occurrences T P)).
  set (a := Z.to_nat (rows_below T false P)). set (b := Z.to_nat (rows_below T true P)).
  assert (take (Z.to_nat (zlen (occurrences T P))) (drop a sa) = drop a (take b sa)) as ->.
  { rewrite skipn_firstn_comm. f_equal. lia. }
  assert (∀ i k, aget sa i = Some k → P `prefix_of` sfx T k ↔ Z.of_nat a ≤ i < Z.of_nat b) as Hrow.
  { intros i k Hi. pose proof (row_cut T sa sa_ok false P _ _ Hi) as H0.
    pose proof (row_cut T sa sa_ok true P _ _ Hi) as H1. rewrite cut_prefix, H0 in H1. split.
    - intros Hp. assert (i < rows_below T true P) by (apply H1; by right).
      assert (¬ i < rows_below T false P); [|lia]. rewrite <- H0. intros Hc. by apply cut_not_prefix in Hc.
    - intros Hr'. destruct H1 as [_ H1]. destruct (H1 ltac:(lia)); [lia|done]. }
  rewrite <- (take_drop b sa) at 2. rewrite <- (take_drop a (take b sa)) at 2.
  rewrite !filter_app, (filter_none _ (take a (take b sa))), (filter_none _ (drop b sa)), filter_all, app_nil_r; [done|..].
  - apply Forall_forall. intros k (i & Hi)%elem_of_aget. pose proof (aget_Some_range _ _ _ Hi) as Hir.
    rewrite zlen_drop, zlen_take in Hir. rewrite aget_drop, aget_take in Hi by lia.
    apply (Hrow _ _ Hi). lia.
  - apply Forall_forall. intros k (i & Hi)%elem_of_aget. pose proof (aget_Some_range _ _ _ Hi) as Hir.
    rewrite aget_drop in Hi by lia. rewrite (Hrow _ _ Hi). lia.
  - apply Forall_forall. intros k (i & Hi)%elem_of_aget. pose proof (aget_Some_range _ _ _ Hi) as Hir.
    rewrite take_take, zlen_take in Hir. rewrite take_take, aget_take in Hi by lia.
    rewrite (Hrow _ _ Hi). lia.
Qed.
End queries.

(** ** Positions and text *)

Section positions.
Context (fm : t) (T sa : list Z) (M : Z) (R : repr fm T sa M).
Abbreviation n := (zlen T).

Let T_marked : marked T := tables_marked _ _ _ _ R.
Let sa_ok : sorted_suffixes T sa := tables_sorted _ _ _ _ R.

Lemma position_loop_spec fuel i k pos :
  aget sa i = Some k → k < Z.of_nat fuel → position_loop fuel fm i pos = Ret (pos + k).
Proof.
  revert i k pos. induction fuel as [|fuel IH]; intros i k pos Hi Hfuel.
  { pose proof (sa_get T sa sa_ok _ _ Hi). lia. }
  pose proof (sa_get T sa sa_ok _ _ Hi) as [Hir Hk]. pose proof (tables_ddic _ _ _ _ R) as [Hd _].
  cbn [position_loop]. case_decide as Hh.
  { subst i. rewrite (tables_head _ _ _ _ R) in Hi. simplify_eq. f_equal. lia. }
  assert (k ≠ 0) as Hk0.
  { intros ->. apply Hh. apply (sa_nodup T sa sa_ok _ _ 0); [done|apply (tables_head _ _ _ _ R)]. }
  rewrite js_rem_nonneg by lia. case_decide as Hm.
  - rewrite (repr_posdic _ _ _ _ R _ _ Hi Hm), Z.mod_small by lia. cbn [of_option mbind outcome_bind].
    f_equal. lia.
  - destruct (LF_spec fm T sa M R i k Hi) as (i' & -> & Hi'). cbn [mbind outcome_bind].
    rewrite Z.mod_small in Hi' by lia. rewrite (IH i' (k - 1)) by (done || lia). f_equal. lia.
Qed.

Lemma getPosition_spec i k : aget sa i = Some k → getPosition fm i = Ret k.
Proof.
  intros Hi. pose proof (sa_get T sa sa_ok _ _ Hi) as [Hir Hk]. unfold getPosition.
  rewrite (size_text fm T sa M R), decide_False by lia.
  rewrite (position_loop_spec _ i k) by (done || lia). cbn [mbind outcome_bind].
  rewrite js_rem_nonneg, Z.mod_small by lia. f_equal.
Qed.

Lemma search_spec key :
  key ≠ [] → Forall (λ c, 0 < c) key → list.last key ≠ Some (M - 1) →
  search fm key = Ret (filter (λ k, key `prefix_of` sfx T k) sa).
Proof.
  intros Hne Hpos Hlast. unfold search. rewrite (getRows_spec fm T sa M R key) by done.
  rewrite <- (rows_segment fm T sa M R). unfold rows_answer. case_decide as Hocc.
  { rewrite Hocc. done. }
  apply occurrences_pos in Hocc. cbn [mbind outcome_bind]. rewrite decide_True by lia.
  cbn [of_option mbind outcome_bind].
  pose proof (rows_occurrences T key) as Hrows. pose proof (rows_below_range T false key).
  pose proof (rows_below_range T true key). pose proof (zlen_sa T sa sa_ok).
  replace (rows_below T true key - 1 + 1 - rows_below T false key) with (zlen (occurrences T key)) by lia.
  rewrite (omap_list_pure _ (λ i, default 0 (aget sa i))).
  - f_equal. apply aget_ext; [rewrite zlen_fmap, zlen_seqZ, zlen_take, zlen_drop by lia; lia|].
    intros i. rewrite zlen_fmap, zlen_seqZ by lia. intros Hi.
    rewrite aget_fmap, aget_seqZ, aget_take, aget_drop by lia. rewrite Z2Nat.id by lia. simpl.
    destruct (aget_is_Some sa (rows_below T false key + i)) as [k Hk]; [lia|]. by rewrite Hk.
  - intros i Hi%elem_of_seqZ. destruct (aget_is_Some sa i) as [k Hk]; [lia|].
    rewrite Hk. by apply getPosition_spec.
Qed.

(** The text the loop of [getSubstring] reads when it starts [delta] positions off. *)
Definition text_at (delta q : Z) : Z := default 0 (aget T ((q - delta) mod n)).

Lemma before_text delta p : before T ((p + 1 - delta) mod n) = text_at delta p.
Proof.
  unfold before, text_at. rewrite Zminus_mod_idemp_l. by replace (p + 1 - delta - 1) with (p - delta) by lia.
Qed.

Lemma text_at_code delta q : fromCharCode (text_at delta q) = [text_at delta q].
Proof.
  unfold fromCharCode. f_equal. apply to_uint16_small. rewrite <- before_text.
  pose proof (length_positive T T_marked). pose proof (tables_max _ _ _ _ R).
  pose proof (before_code fm T sa M R ((q + 1 - delta) mod n)) as Hb.
  specialize (Hb ltac:(apply Z.mod_pos_bound; lia)). lia.
Qed.

Lemma text_snoc delta pos m :
  pos ≤ m →
  text_at delta <$> seqZ pos (m + 1 - pos) = (text_at delta <$> seqZ pos (m - pos)) ++ [text_at delta m].
Proof.
  intros Hm. replace (m + 1 - pos) with (m - pos + 1) by lia. rewrite seqZ_app, fmap_app by lia.
  do 2 f_equal. replace (pos + (m - pos)) with m by lia. done.
Qed.

Lemma substring_loop_spec delta fuel pos pos_end p i substr :
  0 ≤ pos → Z.max 0 (p - pos + 1) < Z.of_nat fuel →
  (pos ≤ p → aget sa i = Some ((p + 1 - delta) mod n)) →
  substring_loop fuel fm pos pos_end p (Some i) substr
    = Ret ((text_at delta <$> seqZ pos (Z.min (p + 1) pos_end - pos)) ++ substr).
Proof.
  intros Hpos. revert p i substr. induction fuel as [|fuel IH]; intros p i substr Hfuel Hi; [lia|].
  cbn [substring_loop]. case_decide as Hp; [|by rewrite seqZ_nil by lia].
  destruct (LF_spec fm T sa M R i _ (Hi ltac:(lia))) as (i' & Hlf & Hi').
  cbn [of_option mbind outcome_bind]. rewrite Hlf. cbn [mbind outcome_bind].
  rewrite before_text, text_at_code.
  assert ((text_at delta <$> seqZ pos (Z.min (p + 1) pos_end - pos)) ++ substr
    = (text_at delta <$> seqZ pos (Z.min p pos_end - pos)) ++
      (if decide (p < pos_end) then [text_at delta p] ++ substr else substr)) as ->.
  { case_decide.
    - rewrite !Z.min_l, text_snoc, <- app_assoc by lia. done.
    - by rewrite !Z.min_r by lia. }
  destruct (decide (p = 0)) as [->|Hp0].
  - by rewrite (seqZ_nil pos) by lia.
  - rewrite (IH (p - 1) i'); [by replace (p - 1 + 1) with p by lia|lia|].
    intros _. rewrite Hi', Zminus_mod_idemp_l. do 2 f_equal. lia.
Qed.

(** The position of the table [_idic] a substring that ends at [pos_end] is read
    back from: the next multiple of the density. *)
Definition checkpoint (pos_end : Z) : Z := (pos_end + _ddic fm - 2) / _ddic fm * _ddic fm.

Lemma checkpoint_range pos_end :
  0 ≤ pos_end ≤ n → pos_end - 1 ≤ checkpoint pos_end ∧ checkpoint pos_end < zlen (_idic fm) * _ddic fm.
Proof.
  intros Hp. pose proof (tables_ddic _ _ _ _ R) as [Hd _]. rewrite (repr_idic_length _ _ _ _ R).
  unfold checkpoint. split; [Z.div_mod_to_equations; nia|].
  apply Z.mul_lt_mono_pos_r; [done|].
  assert ((pos_end + _ddic fm - 2) / _ddic fm ≤ (n + _ddic fm - 1) / _ddic fm); [|lia].
  apply Z.div_le_mono; lia.
Qed.

Lemma getSubstring_unfold pos len :
  0 ≤ pos < n → 0 ≤ len →
  let pos_end := Z.min (pos + len) n in
  let p := checkpoint pos_end in
  getSubstring fm pos len =
    substring_loop (S (Z.to_nat (p - pos + 1))) fm pos pos_end p (aget (_idic fm) (p / _ddic fm)) [].
Proof.
  intros Hpos Hlen pos_end p. pose proof (tables_ddic _ _ _ _ R) as [Hd _].
  destruct (checkpoint_range pos_end) as [_ Hc]; [lia|]. unfold getSubstring.
  rewrite (size_text fm T sa M R), decide_False by lia. fold pos_end.
  rewrite decide_True by (unfold checkpoint in Hc; nia).
  unfold p, checkpoint. by rewrite Z.div_mul by lia.
Qed.

Lemma checkpoint_mod pos_end : checkpoint pos_end mod _ddic fm = 0.
Proof. apply Z.mod_mul. pose proof (tables_ddic _ _ _ _ R). lia. Qed.

Lemma getSubstring_near pos len :
  0 ≤ pos < n → 0 ≤ len → checkpoint (Z.min (pos + len) n) < n →
  getSubstring fm pos len = Ret (take (Z.to_nat len) (drop (Z.to_nat pos) T)).
Proof.
  intros Hpos Hlen Hnear. rewrite getSubstring_unfold by done. cbv zeta.
  set (pe := Z.min (pos + len) n) in *. set (p := checkpoint pe) in *.
  destruct (checkpoint_range pe) as [Hc _]; [lia|]. fold p in Hc.
  assert (text_at 0 <$> seqZ pos (pe - pos) = take (Z.to_nat len) (drop (Z.to_nat pos) T)) as Htext.
  { apply aget_ext; rewrite zlen_fmap, zlen_seqZ by lia; [rewrite zlen_take, zlen_drop; lia|].
    intros q Hq. rewrite aget_fmap, aget_seqZ, aget_take, aget_drop by lia. simpl. unfold text_at.
    rewrite Z.sub_0_r, Z.mod_small, Z2Nat.id by lia.
    destruct (aget_is_Some T (pos + q)) as [c Hq']; [lia|]. by rewrite Hq'. }
  rewrite <- Htext. destruct (decide (pos ≤ p)).
  - destruct (repr_idic _ _ _ _ R p) as (i & -> & Hi); [lia|apply checkpoint_mod|].
    rewrite (substring_loop_spec 0), app_nil_r by (try lia; intros; by rewrite Z.sub_0_r).
    by rewrite Z.min_r by lia.
  - rewrite seqZ_nil by lia. cbn [substring_loop]. by rewrite decide_False by lia.
Qed.

Lemma getSubstring_far pos len :
  0 ≤ pos < n → 0 ≤ len →
  let pos_end := Z.min (pos + len) n in
  let p := checkpoint pos_end in
  n ≤ p → getSubstring fm pos len = Ret (text_at (p - (n - 2)) <$> seqZ pos (pos_end - pos)).
Proof.
  intros Hpos Hlen pos_end p Hfar. rewrite getSubstring_unfold by done. fold pos_end. fold p.
  destruct (checkpoint_range pos_end) as [Hc Hlt]; [lia|]. fold p in Hc, Hlt.
  rewrite (repr_idic_rest _ _ _ _ R) by (lia || apply checkpoint_mod).
  rewrite (substring_loop_spec (p - (n - 2))), app_nil_r; [by rewrite Z.min_r by lia|lia|lia|].
  intros _. rewrite (first_row T sa T_marked sa_ok). f_equal.
  replace (p + 1 - (p - (n - 2))) with (n - 1) by lia. by rewrite Z.mod_small by lia.
Qed.
End positions.

(** ** Building *)

Section build.
Context (T sa : list Z) (M : Z).
Hypothesis (T_marked : marked T).
Hypothesis (sa_make : SAIS.make T = Ret sa).
Hypothesis (sa_ok : sorted_suffixes T sa).
Hypothesis (T_length : zlen T < 2 ^ 31 - 1).
Hypothesis (T_codes : Forall (λ c, c < M) T).
Hypothesis (M_range : 2 ≤ M ≤ 65536).
Abbreviation n := (zlen T).

(** The transform of the text. *)
Lemma bwt_build :
  ∃ b, BWT.build BWT.new T = Ret b ∧ BWT.get b = Ret (bwt T sa) ∧ aget sa (BWT.head b) = Some 0.
Proof.
  pose proof (length_positive T T_marked). unfold BWT.build. rewrite sa_make. cbn [mbind outcome_bind].
  eexists. split; [reflexivity|]. split; [|apply indexOf_spec, (elem_of_sa T sa sa_ok); lia].
  unfold BWT.get, BWT.size. cbn [BWT._size].
  replace (seqZ 0 n) with (seqZ 0 (zlen sa)) by by rewrite (zlen_sa T sa sa_ok).
  rewrite (ofold_index _ (λ str k, Ret (str ++ [before T k]))).
  - rewrite (ofold_pure _ (λ str k, str ++ [before T k])) by done. f_equal. unfold bwt.
    assert (∀ l s, foldl (λ str k, str ++ [before T k]) s l = s ++ (before T <$> l)) as Hf; [|apply Hf].
    induction l as [|k l IH]; intros s; csimpl; [by rewrite app_nil_r|]. rewrite IH, <- app_assoc. done.
  - intros s i k Hi. pose proof (sa_get T sa sa_ok _ _ Hi) as [Hir Hk].
    unfold BWT.get_at, BWT.size. cbn [BWT._size BWT._suffixarray BWT._str].
    rewrite decide_False, Hi by lia. cbn [of_option mbind outcome_bind].
    rewrite js_rem_nonneg by lia. replace (k + n - 1) with (k - 1 + 1 * n) by lia.
    rewrite Z.mod_add by lia. unfold charAt, before.
    destruct (aget_is_Some T ((k - 1) mod n)) as [c Hc]; [apply Z.mod_pos_bound; lia|]. by rewrite Hc.
Qed.

Lemma cache_rlt_spec sv m :
  WM.repr sv (bwt T sa) → 0 ≤ m ≤ 2 ^ WM.bitsize sv →
  cache_rlt sv [] m = Ret (smaller T <$> seqZ 0 m).
Proof.
  intros Hsv Hm. unfold cache_rlt.
  destruct (ofold_inv (λ k rlt, rlt = smaller T <$> seqZ 0 (Z.of_nat k))
    (λ rlt c, x ← WM.rank_less_than sv (WM.size sv) c; aset rlt c x) (seqZ 0 m) []) as (rlt & -> & ->); [done| |].
  - intros k c rlt Hc ->. apply lookup_seqZ in Hc as [-> Hk]. rewrite Z.add_0_l.
    assert (WM.size sv = n) as Hs by (rewrite <- (zlen_bwt T sa sa_ok); apply (WM.repr_size _ _ Hsv)).
    rewrite (WM.rank_less_than_code _ _ Hsv), Hs, take_ge; unfold WM.bitsize in *; try lia.
    + cbn [mbind outcome_bind]. eexists. split; [|reflexivity].
      rewrite (smaller_bwt T sa T_marked sa_ok). unfold aset.
      rewrite zlen_fmap, zlen_seqZ, decide_False, decide_True by lia.
      by rewrite seqZ_S, fmap_app.
    + pose proof (zlen_bwt T sa sa_ok) as Hl. unfold zlen in *. lia.
    + rewrite (zlen_bwt T sa sa_ok). pose proof (zlen_nonneg T). lia.
  - rewrite length_seqZ, Z2Nat.id by lia. done.
Qed.

Lemma tables_dictionaries fm posdic idic :
  tables fm T sa M →
  tables (mk (_substr fm) (_ddic fm) (_ssize fm) (_head fm) (_sv fm) posdic idic (_rlt fm)) T sa M.
Proof. by intros []; split. Qed.

(** The dictionaries once the positions above [p] are entered. *)
Record entered (fm : t) (p : Z) : Prop := {
  entered_tables : tables fm T sa M;
  entered_posdic_length : zlen (_posdic fm) = (n + _ddic fm - 1) / _ddic fm + 1;
  entered_idic_length : zlen (_idic fm) = (n + _ddic fm - 1) / _ddic fm + 1;
  entered_slots : Forall (λ x, 0 ≤ x < 2 ^ 31) (_posdic fm ++ _idic fm);
  entered_posdic p' i : p < p' < n → aget sa i = Some ((p' + 1) mod n) → i mod _ddic fm = 0 →
    aget (_posdic fm) (i / _ddic fm) = Some p';
  entered_idic p' : p < p' < n → p' mod _ddic fm = 0 →
    ∃ i, aget (_idic fm) (p' / _ddic fm) = Some i ∧ aget sa i = Some ((p' + 1) mod n);
  entered_rest p' : n ≤ p' < zlen (_idic fm) * _ddic fm → p' mod _ddic fm = 0 →
    aget (_idic fm) (p' / _ddic fm) = Some 0;
}.

Lemma entered_all fm : entered fm (-1) → repr fm T sa M.
Proof.
  intros [Htab Hpl Hil Hs Hp Hi Hr]. pose proof (length_positive T T_marked).
  split; [done| |intros p Hp'; apply Hi; lia|done..].
  intros i k Hk Hm. pose proof (sa_get T sa sa_ok _ _ Hk) as [_ Hkr].
  apply Hp; [pose proof (Z.mod_pos_bound (k - 1) n); lia| |done].
  rewrite Hk, Zplus_mod_idemp_l. f_equal. rewrite Z.mod_small; lia.
Qed.

(** Multiples of the density with the same quotient are equal. *)
Lemma same_slot d a b : 0 < d → a mod d = 0 → b mod d = 0 → a / d = b / d → a = b.
Proof. intros. Z.div_mod_to_equations. nia. Qed.

Lemma cell_range d a : 0 < d → 0 ≤ a < n → 0 ≤ a / d < (n + d - 1) / d + 1.
Proof.
  intros. split; [apply Z.div_pos; lia|]. assert (a / d ≤ (n + d - 1) / d); [apply Z.div_le_mono|]; lia.
Qed.

(** A conditional write to a slot. *)
Definition enter (d : Z) (l : list Z) (a x : Z) : list Z :=
  if decide (a mod d = 0) then <[Z.to_nat (a / d) := x]> l else l.

Lemma zlen_enter d l a x : zlen (enter d l a x) = zlen l.
Proof. unfold enter. case_decide; by rewrite ?zlen_insert. Qed.

Lemma aget_enter d l a x b :
  0 < d → 0 ≤ a / d < zlen l → b mod d = 0 →
  aget (enter d l a x) (b / d) = if decide (a = b) then Some x else aget l (b / d).
Proof.
  intros Hd Ha Hb. unfold enter. destruct (decide (a = b)) as [->|Hab].
  - rewrite decide_True, aget_insert, decide_True by done. done.
  - case_decide; [|done]. rewrite aget_insert by done. rewrite decide_False; [done|].
    intros Heq. apply Hab. by apply (same_slot d).
Qed.

Lemma next_inj p p' : 0 ≤ p < n → 0 ≤ p' < n → (p + 1) mod n = (p' + 1) mod n → p = p'.
Proof.
  assert (∀ q, 0 ≤ q < n → (q + 1) mod n = if decide (q = n - 1) then 0 else q + 1) as Hq.
  { intros q Hq. case_decide as Hn; [|apply Z.mod_small; lia].
    replace (q + 1) with n by lia. apply Z.mod_same. lia. }
  intros Hp Hp'. rewrite !Hq by done. repeat case_decide; lia.
Qed.

Lemma entered_step fm i p :
  entered fm p → 0 ≤ p < n → aget sa i = Some ((p + 1) mod n) →
  entered (mk (_substr fm) (_ddic fm) (_ssize fm) (_head fm) (_sv fm)
              (enter (_ddic fm) (_posdic fm) i p) (enter (_ddic fm) (_idic fm) p i) (_rlt fm)) (p - 1).
Proof.
  intros [Htab Hpl Hil Hsl Hpos Hid Hrest] Hp Hi. pose proof (sa_get T sa sa_ok _ _ Hi) as [Hir _].
  pose proof (tables_ddic _ _ _ _ Htab) as [Hd _].
  pose proof (cell_range (_ddic fm) i Hd Hir). pose proof (cell_range (_ddic fm) p Hd Hp).
  split; cbn [_posdic _idic _ddic]; rewrite ?zlen_enter; try done.
  - by apply tables_dictionaries.
  - apply Forall_app in Hsl as [Hs1 Hs2]. apply Forall_app. split; unfold enter; case_decide; try done;
      apply Forall_insert; (done || lia).
  - intros p' i2 Hp' Hi2 Hm. rewrite aget_enter by (done || lia). case_decide as Heq.
    + subst i2. f_equal. apply next_inj; [lia..|]. congruence.
    + apply Hpos; [|done..]. destruct (decide (p' = p)); [|lia]. subst p'.
      destruct Heq. by apply (sa_nodup T sa sa_ok _ _ _ Hi).
  - intros p' Hp' Hm. rewrite aget_enter by (done || lia). case_decide as Heq; [subst; eauto|].
    apply Hid; [lia|done].
  - intros p' Hp' Hm. rewrite aget_enter, decide_False by (done || lia). by apply Hrest.
Qed.

Lemma dictionary_step_spec fm i p :
  entered fm p → 0 ≤ p < n → aget sa i = Some ((p + 1) mod n) →
  ∃ fm' i', dictionary_step fm i p = Ret (fm', i') ∧ entered fm' (p - 1) ∧
    aget sa i' = Some p ∧ _ddic fm' = _ddic fm.
Proof.
  intros He Hp Hi. pose proof (sa_get T sa sa_ok _ _ Hi) as [Hir _].
  pose proof (tables_ddic _ _ _ _ (entered_tables _ _ He)) as [Hd _].
  pose proof (cell_range (_ddic fm) i Hd Hir). pose proof (cell_range (_ddic fm) p Hd Hp).
  pose proof (entered_posdic_length _ _ He). pose proof (entered_idic_length _ _ He).
  destruct (LF_spec fm T sa M (entered_tables _ _ He) i _ Hi) as (i' & Hlf & Hi').
  eexists _, i'. split_and!; [|by apply entered_step| |done].
  - unfold dictionary_step, enter. rewrite !js_rem_nonneg by lia.
    repeat case_decide; rewrite ?aset_in_range by lia; cbn [mbind outcome_bind];
      rewrite ?aset_in_range by lia; cbn [mbind outcome_bind]; by rewrite Hlf.
  - rewrite Hi', Zminus_mod_idemp_l. f_equal. rewrite Z.mod_small; lia.
Qed.

(** The loop visits every position once and stops back at the head. *)
Lemma dictionary_loop_spec fuel fm i p :
  entered fm p → 0 ≤ p < n → p < Z.of_nat fuel → aget sa i = Some ((p + 1) mod n) →
  ∃ fm', dictionary_loop fuel fm i p = Ret fm' ∧ repr fm' T sa M ∧ _ddic fm' = _ddic fm.
Proof.
  revert fm i p. induction fuel as [|fuel IH]; intros fm i p He Hp Hfuel Hi; [lia|].
  destruct (dictionary_step_spec fm i p He Hp Hi) as (fm' & i' & Hstep & He' & Hi' & Hh).
  pose proof (tables_head _ _ _ _ (entered_tables _ _ He')) as Hhead.
  cbn [dictionary_loop]. rewrite Hstep. cbn [mbind outcome_bind]. case_decide as Heq.
  - exists fm'. split_and!; [done| |done]. apply entered_all. rewrite <- Heq, Hi' in Hhead. simplify_eq. done.
  - assert (p ≠ 0) as Hp0.
    { intros ->. apply Heq. by apply (sa_nodup T sa sa_ok _ _ _ Hi'). }
    rewrite <- Hh. apply IH; [done|lia|lia|]. rewrite Hi'. f_equal. rewrite Z.mod_small; lia.
Qed.

(** [_buildDictionaries] returns, with every entry right. *)
Lemma buildDictionaries_spec fm :
  tables fm T sa M → _ssize fm = n → _posdic fm = [] → _idic fm = [] →
  ∃ fm', _buildDictionaries fm = Ret fm' ∧ repr fm' T sa M ∧ _ddic fm' = _ddic fm.
Proof.
  intros Htab Hsz Hp Hi. pose proof (length_positive T T_marked). pose proof (tables_ddic _ _ _ _ Htab) as [Hd _].
  unfold _buildDictionaries. rewrite Hsz, Hp, Hi, !app_nil_l.
  set (z := replicate _ 0). set (fm0 := mk _ _ _ _ _ _ _ _).
  assert (tables fm0 T sa M) as Htab0 by (destruct Htab; by split).
  assert (0 ≤ (n + _ddic fm - 1) / _ddic fm) by (apply Z.div_pos; lia).
  assert (zlen z = (n + _ddic fm - 1) / _ddic fm + 1) as Hz by (unfold z; rewrite zlen_replicate; lia).
  rewrite (size_text fm0 T sa M Htab0).
  apply (dictionary_loop_spec _ fm0); [|lia|lia|].
  - split; try done; [by apply Forall_app; split; apply Forall_replicate|lia|lia|].
    intros p' Hp' Hm. cbn [fm0 _idic _ddic] in *. apply aget_replicate.
    rewrite <- zlen_replicate with (x := 0). fold z. rewrite Hz in Hp' |- *.
    split; [apply Z.div_pos; lia|apply Z.div_lt_upper_bound; lia].
  - rewrite (tables_head _ _ _ _ Htab0). f_equal. replace (n - 1 + 1) with n by lia. by rewrite Z.mod_same by lia.
Qed.

(** [build] on the text pushed to a new index. *)
Lemma fm_build_repr substr ddic :
  T = substr ++ [0] → 1 ≤ ddic < 2 ^ 31 →
  ∃ fm, build (mk substr 0 0 0 WM.new [] [] []) [0] M ddic = Ret fm ∧ repr fm T sa M ∧ _ddic fm = ddic.
Proof.
  intros HT Hd. destruct bwt_build as (b & Hb & Hget & Hhead). unfold build. cbn [_substr _sv _posdic _idic _rlt].
  rewrite <- HT, Hb. cbn [mbind outcome_bind]. rewrite Hget. cbn [mbind outcome_bind].
  destruct (WM.setMaxCharCode_bits M M_range) as [HB Hpow].
  destruct (WM.build_repr (WM.setMaxCharCode WM.new M) (bwt T sa)) as (sv & Hsv & Rsv & HBsv);
    [lia| |by rewrite zlen_bwt|apply IMap.wf_nil|by intros p [x Hx]|].
  { rewrite (bwt_perm T sa T_marked sa_ok). apply Forall_forall. intros c (k & Hk)%elem_of_aget.
    pose proof (T_nonneg T T_marked k c Hk). rewrite Forall_forall in T_codes.
    pose proof (T_codes c (aget_elem_of _ _ _ Hk)). lia. }
  rewrite Hsv. cbn [mbind outcome_bind].
  rewrite (cache_rlt_spec sv M Rsv) by (unfold WM.bitsize; rewrite HBsv; lia). cbn [mbind outcome_bind].
  rewrite zlen_bwt by done. set (fm0 := mk _ _ _ _ _ _ _ _).
  assert (tables fm0 T sa M) as Htab.
  { split; cbn [fm0 _sv _rlt _head _ddic]; try done;
      [lia|by rewrite zlen_fmap, zlen_seqZ by lia| |unfold WM.bitsize; rewrite HBsv; lia..|lia].
    intros c Hc. by rewrite aget_fmap, aget_seqZ, Z.add_0_l by lia. }
  by apply buildDictionaries_spec.
Qed.
End build.

(** ** Saving and loading *)

Lemma load_entries_spec data l a off acc :
  Forall (λ x, 0 ≤ x < 2 ^ 31) l → has_at data off (concat (Bin.dump32bitNumber <$> l)) →
  ofold (load_entry data) (acc, off) (seqZ a (zlen l)) = Ret (acc ++ l, off + 2 * zlen l).
Proof.
  intros Hl Hat. rewrite (ofold_ext _ (WM.load_sep data)) by (by intros [? ?] ? _).
  apply WM.load_seps_spec; [|done]. eapply Forall_impl; [done|]. simpl. lia.
Qed.

Lemma dump_total fm T sa M : repr fm T sa M → ∃ s, dump fm = Ret s.
Proof.
  intros R. destruct (WM.dump_spec _ _ (tables_sv _ _ _ _ R)) as (ss & _ & Hd).
  unfold dump. destruct (Hd (Some (Bin.report_add Bin.report_new 6 6))) as [r ->]. eauto.
Qed.

(** The index [load] makes of the dump of [fm]: the table of smaller characters
    covers every code of [bitsize] bits. *)
Definition loaded (fm : t) (T : list Z) : t :=
  mk [] (_ddic fm) (_ssize fm) (_head fm) (WM.norm (_sv fm)) (_posdic fm) (_idic fm)
     (smaller T <$> seqZ 0 (2 ^ WM.bitsize (_sv fm))).

Lemma repr_loaded fm T sa M :
  repr fm T sa M → repr (loaded fm T) T sa (2 ^ WM.bitsize (_sv fm)).
Proof.
  intros [[] ? ? ? ? ? ?]. pose proof (WM.repr_bitsize _ _ tables_sv0) as HB.
  pose proof (Z.pow_le_mono_r 2 (WM.bitsize (_sv fm)) 16 ltac:(lia) ltac:(lia)).
  assert (0 ≤ 2 ^ WM.bitsize (_sv fm)) by lia.
  split; [split|..]; cbn [loaded _substr _ddic _ssize _head _sv _posdic _idic _rlt]; try done.
  - pose proof (WM.repr_codes _ _ tables_sv0) as Hc. rewrite (bwt_perm T sa) in Hc by done.
    eapply Forall_impl; [exact Hc|]. unfold WM.bitsize. simpl. lia.
  - by apply WM.repr_norm.
  - by rewrite zlen_fmap, zlen_seqZ.
  - intros c Hc. by rewrite aget_fmap, aget_seqZ, Z.add_0_l.
Qed.

Lemma load_repr fm T sa M s data off :
  repr fm T sa M → dump fm = Ret s → has_at data off s →
  load new data off = Ret (loaded fm T, off + zlen s).
Proof.
  intros R Hs Hat. pose proof (tables_sv _ _ _ _ R) as Hsv. pose proof (WM.repr_norm _ _ Hsv) as Hsv'.
  destruct (WM.dump_spec _ _ Hsv) as (ss & _ & Hd).
  destruct (Hd None) as [r0 Hr0]. destruct (Hd (Some (Bin.report_add Bin.report_new 6 6))) as [r1 Hr1].
  unfold dump in Hs. rewrite Hr1 in Hs. cbn [mbind outcome_bind] in Hs.
  set (w := WM.contents (_sv fm) ss) in *.
  match type of Hs with Ret ?x = _ => assert (s = x) as -> by congruence end. clear Hs Hd Hr1.
  rewrite !has_at_app in Hat. autorewrite with zlen in *. rewrite !Bin.zlen_dump32 in *.
  rewrite !(WM.zlen_concat_dump _ 2) in * by done. destruct Hat as (Ha & Hb & Hc & Hw & He & Hf & Hg).
  pose proof (tables_ddic _ _ _ _ R). pose proof (tables_ssize _ _ _ _ R). pose proof (tables_length _ _ _ _ R).
  pose proof (sa_get T sa (tables_sorted _ _ _ _ R) _ _ (tables_head _ _ _ _ R)) as [Hh _].
  pose proof (zlen_nonneg T). pose proof (repr_slots _ _ _ _ R) as Hsl. apply Forall_app in Hsl as [Hs1 Hs2].
  assert (0 ≤ zlen (_posdic fm) < 2 ^ 32 ∧ zlen (_idic fm) = zlen (_posdic fm)) as [Hpl Hil].
  { rewrite (repr_idic_length _ _ _ _ R), (repr_posdic_length _ _ _ _ R). split; [|done].
    split; [assert (0 ≤ (zlen T + _ddic fm - 1) / _ddic fm) by (apply Z.div_pos; lia); lia|].
    assert ((zlen T + _ddic fm - 1) / _ddic fm ≤ zlen T + _ddic fm - 1) by (apply Z.div_le_upper_bound; nia). lia. }
  unfold load. cbn [new _sv _posdic _idic _rlt _substr].
  rewrite (Bin.load32_dump32 (_ddic fm) data off), Z.mod_small by (done || lia). cbn [mbind outcome_bind].
  rewrite (Bin.load32_dump32 (_ssize fm) data (off + 2)), Z.mod_small by (done || lia). cbn [mbind outcome_bind].
  replace (off + 4) with (off + 2 + 2) by lia. replace (off + 6) with (off + 2 + 2 + 2) by lia.
  rewrite (Bin.load32_dump32 (_head fm)), Z.mod_small by (done || lia). cbn [mbind outcome_bind].
  rewrite (Bin.codec_load (Codec := WM.codec_wavelet) (_sv fm) w)
    by (by eauto || done || by unfold WM.dump_string; rewrite Hr0). cbn [mbind outcome_bind].
  rewrite (cache_rlt_spec T sa (tables_marked _ _ _ _ R) (tables_sorted _ _ _ _ R) _ _ Hsv')
    by (split; [apply Z.pow_nonneg; lia|done]).
  cbn [mbind outcome_bind]. rewrite (Bin.load32_dump32 (zlen (_posdic fm))), Z.mod_small by done.
  cbn [mbind outcome_bind]. rewrite load_entries_spec by done. cbn [mbind outcome_bind].
  rewrite <- Hil, load_entries_spec by (done || by rewrite Hil). cbn [mbind outcome_bind].
  rewrite !to_int32_small by lia. unfold loaded. f_equal. f_equal. lia.
Qed.

(** ** Indexing a collection of documents *)

(** How a client makes an index. *)
Definition index (docs : list jsstr) (maxChar ddic : Z) : outcome t :=
  fm ← ofold push new docs;
  build fm BWT.END_MARKER maxChar ddic.

(** The documents an index of that kind is made for. *)
Record indexable (docs : list jsstr) (maxChar ddic : Z) : Prop := {
  ix_docs : docs ≠ [];
  ix_doc doc : doc ∈ docs → doc ≠ [];
  ix_codes doc c : doc ∈ docs → c ∈ doc → 0 < c < maxChar;
  ix_length : zlen (concat docs) < 2 ^ 31 - 2;
  ix_max : 2 ≤ maxChar ≤ 65536;
  ix_ddic : 1 ≤ ddic < 2 ^ 31;
}.

Lemma elem_of_concat_inv {A} (x : A) (ls : list (list A)) : x ∈ concat ls → ∃ l, x ∈ l ∧ l ∈ ls.
Proof.
  induction ls as [|l ls IH]; cbn [concat]; [by intros ?%elem_of_nil|].
  intros [Hx|Hx]%elem_of_app; [exists l; split; [done|left]|].
  destruct (IH Hx) as (l' & ? & ?). exists l'. split; [done|by right].
Qed.

Lemma push_docs docs fm :
  (∀ doc, doc ∈ docs → doc ≠ []) →
  ofold push fm docs = Ret (mk (_substr fm ++ concat docs) (_ddic fm) (_ssize fm) (_head fm) (_sv fm)
    (_posdic fm) (_idic fm) (_rlt fm)).
Proof.
  revert fm. induction docs as [|doc docs IH]; intros fm Hd.
  - cbn [ofold concat]. rewrite app_nil_r. by destruct fm.
  - cbn [ofold]. assert (push fm doc = Ret (mk (_substr fm ++ doc) (_ddic fm) (_ssize fm) (_head fm) (_sv fm)
      (_posdic fm) (_idic fm) (_rlt fm))) as ->.
    { unfold push. assert (doc ≠ []) by (apply Hd; left). destruct doc as [|c doc]; [done|].
      rewrite decide_False; [done|]. rewrite zlen_cons. pose proof (zlen_nonneg doc). lia. }
    cbn [mbind outcome_bind]. rewrite IH by set_solver.
    cbn [concat _substr _ddic _ssize _head _sv _posdic _idic _rlt]. by rewrite app_assoc.
Qed.

Lemma ix_marked docs maxChar ddic : indexable docs maxChar ddic → marked (concat docs ++ [0]).
Proof.
  intros Hx. apply marked_app. apply Forall_forall. intros c (doc & Hc & Hd)%elem_of_concat_inv.
  by pose proof (ix_codes _ _ _ Hx doc c Hd Hc) as [? _].
Qed.

(** The index is built, and holds the text with its suffix array. *)
Lemma index_repr docs maxChar ddic :
  indexable docs maxChar ddic →
  ∃ fm sa, index docs maxChar ddic = Ret fm ∧ repr fm (concat docs ++ [0]) sa maxChar ∧ _ddic fm = ddic.
Proof.
  intros Hx. pose proof (ix_marked _ _ _ Hx) as HT. pose proof (ix_length _ _ _ Hx).
  assert (1 ≤ zlen (concat docs)).
  { pose proof (ix_docs _ _ _ Hx). destruct docs as [|doc docs]; [done|].
    pose proof (ix_doc _ _ _ Hx doc ltac:(left)). destruct doc as [|c doc]; [done|].
    cbn [concat]. rewrite <- app_comm_cons, zlen_cons. pose proof (zlen_nonneg (doc ++ concat docs)). lia. }
  assert (zlen (concat docs ++ [0]) = zlen (concat docs) + 1) as Hlen by (by rewrite zlen_app).
  destruct (make_spec (concat docs ++ [0]) HT) as (sa & Hsa & Hok); [lia|].
  unfold index. rewrite push_docs by apply (ix_doc _ _ _ Hx). cbn [mbind outcome_bind].
  destruct (fm_build_repr (concat docs ++ [0]) sa maxChar HT Hsa Hok) with (substr := concat docs) (ddic := ddic)
    as (fm & Hfm & Hr); [lia| |apply (ix_max _ _ _ Hx)|done|apply (ix_ddic _ _ _ Hx)|].
  { apply Forall_app. split; [|apply Forall_singleton; pose proof (ix_max _ _ _ Hx); lia].
    apply Forall_forall. intros c (doc & Hc & Hd)%elem_of_concat_inv. by apply (ix_codes _ _ _ Hx doc c Hd Hc). }
  by exists fm, sa.
Qed.

(** ** What the index answers *)

(** Where a keyword without the end marker occurs in the text with its marker. *)
Lemma prefix_text text key k :
  key ≠ [] → Forall (λ c, 0 < c) key → 0 ≤ k →
  key `prefix_of` sfx (text ++ [0]) k ↔ take (length key) (drop (Z.to_nat k) text) = key.
Proof.
  intros Hne Hpos Hk. unfold sfx. destruct (decide (Z.to_nat k ≤ length text)%nat) as [Hle|Hgt].
  - rewrite drop_app_le by done. generalize (drop (Z.to_nat k) text) as u. clear Hne. intros u.
    revert u. induction Hpos as [|c key Hc _ IH]; intros u; [simpl; split; [done|intros _; apply prefix_nil]|].
    destruct u as [|x u]; simpl.
    + split; [|done]. intros Hp. apply prefix_cons_inv_1 in Hp. lia.
    + split.
      * intros Hp. pose proof (prefix_cons_inv_1 _ _ _ _ Hp). apply prefix_cons_inv_2 in Hp. subst x.
        f_equal. by apply IH.
      * intros [= -> Hp]. by apply prefix_cons, IH.
  - rewrite !drop_ge by (rewrite ?length_app; simpl; lia). rewrite take_nil. split; [|by intros <-].
    by intros ->%prefix_nil_inv.
Qed.

(** A keyword is found at exactly the places of the text where it stands, each
    once. *)
Lemma found_repr fm text sa M key :
  repr fm (text ++ [0]) sa M → key ≠ [] → Forall (λ c, 0 < c) key → list.last key ≠ Some (M - 1) →
  ∃ ps, search fm key = Ret ps ∧ NoDup ps ∧
    ∀ k, k ∈ ps ↔ 0 ≤ k ∧ take (length key) (drop (Z.to_nat k) text) = key.
Proof.
  intros Hr Hne Hpos Hlast. pose proof (tables_sorted _ _ _ _ Hr) as Hok. eexists _.
  split; [by apply (search_spec fm _ sa M Hr)|]. split.
  { apply NoDup_filter. rewrite (sa_perm _ _ Hok). apply NoDup_seqZ. }
  intros k. rewrite list_elem_of_filter, (sa_perm _ _ Hok), elem_of_seqZ. split.
  - intros [Hp Hk]. split; [lia|]. by rewrite prefix_text in Hp by (done || lia).
  - intros [Hk Ht]. assert (k < zlen text) as Hlt.
    { destruct (decide (k < zlen text)); [done|]. rewrite drop_ge, take_nil in Ht by (unfold zlen in *; lia). by subst. }
    split; [by rewrite prefix_text|]. rewrite zlen_app. change (zlen [0]) with 1. lia.
Qed.

(** C5: searching an index of documents returns, for every keyword that does not
    end in the largest code, exactly the positions of the documents' text where
    the keyword stands, each of them once. *)
Theorem search_exact docs maxChar ddic key :
  indexable docs maxChar ddic → key ≠ [] → Forall (λ c, 0 < c) key → list.last key ≠ Some (maxChar - 1) →
  ∃ fm ps, index docs maxChar ddic = Ret fm ∧ search fm key = Ret ps ∧ NoDup ps ∧
    ∀ k, k ∈ ps ↔ 0 ≤ k ∧ take (length key) (drop (Z.to_nat k) (concat docs)) = key.
Proof.
  intros Hx Hne Hpos Hlast. destruct (index_repr docs maxChar ddic Hx) as (fm & sa & Hfm & Hr & _).
  destruct (found_repr fm _ sa maxChar key Hr Hne Hpos Hlast) as (ps & ? & ? & ?). by exists fm, ps.
Qed.

Lemma sample_indexable : indexable [[1; 2; 1]; [3; 1; 2]] 8 2.
Proof.
  split; [done|..|lia|lia].
  - intros doc Hd. assert (doc = [1; 2; 1] ∨ doc = [3; 1; 2]) as [-> | ->] by set_solver; done.
  - intros doc c Hd Hc. assert (doc = [1; 2; 1] ∨ doc = [3; 1; 2]) as [-> | ->] by set_solver; set_solver by lia.
  - cbv. done.
Qed.

Lemma search_exact_witness :
  ∃ fm ps, index [[1; 2; 1]; [3; 1; 2]] 8 2 = Ret fm ∧ search fm [1; 2] = Ret ps ∧ 0 ∈ ps ∧ 4 ∈ ps ∧ 3 ∉ ps.
Proof.
  destruct (search_exact [[1; 2; 1]; [3; 1; 2]] 8 2 [1; 2] sample_indexable) as (fm & ps & Hfm & Hs & _ & Hps);
    [done|by repeat constructor|done|].
  exists fm, ps. split; [exact Hfm|]. split; [exact Hs|]. rewrite !Hps. split_and!; [done..|]. by intros [_ ?].
Defined.

(** C35: a keyword that ends in the largest code of the index is never found, also
    where the text has it: the table of smaller characters has no entry after
    that code. *)
Theorem search_top_lost docs maxChar ddic key :
  indexable docs maxChar ddic → list.last key = Some (maxChar - 1) →
  ∃ fm, index docs maxChar ddic = Ret fm ∧ search fm key = Ret [].
Proof.
  intros Hx Hlast. destruct (index_repr docs maxChar ddic Hx) as (fm & sa & Hfm & Hr & _).
  exists fm. split; [exact Hfm|]. unfold search. by rewrite (getRows_top fm _ sa maxChar Hr key Hlast).
Qed.

Lemma small_indexable : indexable [[1; 3; 2]] 4 2.
Proof.
  split; [done|..|lia|lia].
  - intros doc ->%list_elem_of_singleton. done.
  - intros doc c ->%list_elem_of_singleton Hc. set_solver by lia.
  - cbv. done.
Qed.

Lemma search_top_lost_witness :
  (∃ fm, index [[1; 3; 2]] 4 2 = Ret fm ∧ search fm [1; 3] = Ret []) ∧
  take 2 (drop 0 (concat [[1; 3; 2]])) = [1; 3].
Proof. split; [apply (search_top_lost _ _ _ _ small_indexable)|]; done. Defined.

(** The cell of the dictionary a substring up to [pos_end] is read back from. *)
Definition next_checkpoint (ddic pos_end : Z) : Z := (pos_end + ddic - 2) / ddic * ddic.

(** C12: a substring is read out of the index as it stands in the text, where the
    next checkpoint after its end is inside the text. *)
Theorem substring_exact docs maxChar ddic pos len :
  indexable docs maxChar ddic → let T := concat docs ++ [0] in
  0 ≤ pos < zlen T → 0 ≤ len → next_checkpoint ddic (Z.min (pos + len) (zlen T)) < zlen T →
  ∃ fm, index docs maxChar ddic = Ret fm ∧
    getSubstring fm pos len = Ret (take (Z.to_nat len) (drop (Z.to_nat pos) T)).
Proof.
  intros Hx T Hpos Hlen Hc. destruct (index_repr docs maxChar ddic Hx) as (fm & sa & Hfm & Hr & Hd).
  exists fm. split; [exact Hfm|]. apply (getSubstring_near fm T sa maxChar Hr); [done..|].
  unfold checkpoint. by rewrite Hd.
Qed.

Lemma substring_exact_witness :
  ∃ fm, index [[1; 2; 1]; [3; 1; 2]] 8 2 = Ret fm ∧ getSubstring fm 2 3 = Ret [1; 3; 1].
Proof. apply (substring_exact _ _ _ 2 3 sample_indexable); done. Defined.

(** where the next checkpoint lies past the text, the substring comes out
    shifted: its unused cell of the dictionary holds row 0, which stands for the
    last position but one. *)
Theorem substring_shifted docs maxChar ddic pos len :
  indexable docs maxChar ddic → let T := concat docs ++ [0] in
  0 ≤ pos < zlen T → 0 ≤ len →
  let pos_end := Z.min (pos + len) (zlen T) in
  let shift := next_checkpoint ddic pos_end - (zlen T - 2) in
  2 ≤ shift →
  ∃ fm, index docs maxChar ddic = Ret fm ∧
    getSubstring fm pos len = Ret ((λ q, default 0 (aget T ((q - shift) mod zlen T))) <$> seqZ pos (pos_end - pos)).
Proof.
  intros Hx T Hpos Hlen pe shift Hs. destruct (index_repr docs maxChar ddic Hx) as (fm & sa & Hfm & Hr & Hd).
  exists fm. split; [exact Hfm|]. unfold shift, next_checkpoint. rewrite <- Hd.
  apply (getSubstring_far fm T sa maxChar Hr); [done..|]. unfold checkpoint. rewrite Hd.
  unfold shift, next_checkpoint in Hs. fold T pe in Hs |- *. lia.
Qed.

(** The last characters of "1 2 1 3 1 2" come out as characters from before. *)
Lemma substring_shifted_witness :
  ∃ fm, index [[1; 2; 1]; [3; 1; 2]] 8 4 = Ret fm ∧ getSubstring fm 4 2 = Ret [2; 1].
Proof.
  assert (indexable [[1; 2; 1]; [3; 1; 2]] 8 4) as Hx by (pose proof sample_indexable as []; split; done).
  apply (substring_shifted _ _ _ 4 2 Hx); done.
Defined.

(** Two indices of a text with the same density give the same answers. *)
Lemma same_substrings fm fm' T sa sa' M M' pos len :
  repr fm T sa M → repr fm' T sa' M' → _ddic fm' = _ddic fm → 0 ≤ pos < zlen T → 0 ≤ len →
  getSubstring fm' pos len = getSubstring fm pos len.
Proof.
  intros R R' Hd Hpos Hlen.
  assert (∀ e, checkpoint fm' e = checkpoint fm e) as Hc by (intros e; unfold checkpoint; by rewrite Hd).
  destruct (decide (checkpoint fm (Z.min (pos + len) (zlen T)) < zlen T)).
  - rewrite (getSubstring_near fm T sa M R), (getSubstring_near fm' T sa' M' R') by (rewrite ?Hc; done). done.
  - rewrite (getSubstring_far fm T sa M R), (getSubstring_far fm' T sa' M' R') by (rewrite ?Hc; done || lia).
    by rewrite Hc.
Qed.

Lemma same_searches fm fm' T sa M M' key :
  repr fm T sa M → repr fm' T sa M' → M ≤ M' → key ≠ [] → Forall (λ c, 0 < c) key →
  list.last key ≠ Some (M - 1) → search fm' key = search fm key.
Proof.
  intros R R' HM Hne Hpos Hlast. rewrite (search_spec fm T sa M R key) by done.
  destruct (decide (list.last key = Some (M' - 1))) as [Htop|]; [|by apply (search_spec fm' T sa M' R')].
  unfold search. rewrite (getRows_top fm' T sa M' R' key Htop). cbn [mbind outcome_bind].
  rewrite decide_False by lia. f_equal. symmetry. apply Permutation_nil_r.
  rewrite (sa_perm _ _ (tables_sorted _ _ _ _ R)). change (occurrences T key ≡ₚ []).
  apply last_Some in Htop as [A ->]. rewrite (occurrences_outside fm T sa M R A (M' - 1) []); [done|].
  assert (M' ≠ M); [|lia]. intros ->. apply Hlast. by rewrite last_snoc.
Qed.

(** an index read back from its dump answers every search and every substring
    as the index that was saved. *)
Theorem index_roundtrip docs maxChar ddic :
  indexable docs maxChar ddic →
  ∃ fm s, index docs maxChar ddic = Ret fm ∧ dump fm = Ret s ∧ ∀ data off, has_at data off s →
    ∃ fm', load new data off = Ret (fm', off + zlen s) ∧
      (∀ key, key ≠ [] → Forall (λ c, 0 < c) key → list.last key ≠ Some (maxChar - 1) →
        search fm' key = search fm key) ∧
      ∀ pos len, 0 ≤ pos < zlen (concat docs ++ [0]) → 0 ≤ len → getSubstring fm' pos len = getSubstring fm pos len.
Proof.
  intros Hx. destruct (index_repr docs maxChar ddic Hx) as (fm & sa & Hfm & R & _).
  destruct (dump_total _ _ _ _ R) as [s Hs]. exists fm, s. split; [exact Hfm|]. split; [exact Hs|].
  intros data off Hat. pose proof (repr_loaded _ _ _ _ R) as R'.
  exists (loaded fm (concat docs ++ [0])). split; [by apply (load_repr _ _ _ _ _ _ _ R)|]. split.
  - intros key Hne Hpos Hlast. apply (same_searches _ _ _ _ _ _ key R R'); [|done..]. apply (tables_bits _ _ _ _ R).
  - intros pos len Hpos Hlen. by apply (same_substrings _ _ _ _ _ _ _ pos len R R').
Qed.

Lemma index_roundtrip_witness :
  ∃ fm s fm', index [[1; 2; 1]; [3; 1; 2]] 8 2 = Ret fm ∧ dump fm = Ret s ∧
    load new s 0 = Ret (fm', zlen s) ∧ search fm' [1; 2] = search fm [1; 2].
Proof.
  destruct (index_roundtrip _ _ _ sample_indexable) as (fm & s & Hfm & Hs & Hload).
  destruct (Hload s 0) as (fm' & Hl & Hsearch & _); [split; [done|]; rewrite drop_0; by apply take_ge|].
  exists fm, s, fm'. split; [exact Hfm|]. split; [exact Hs|]. split; [exact Hl|].
  apply Hsearch; [done|by repeat constructor|done].
Defined.

(** C13: building an index never fails nor runs on: the dictionaries' walk through
    the text comes back to its start after as many steps as the text is long, and
    every row then has its position. *)
Theorem positions_total docs maxChar ddic :
  indexable docs maxChar ddic →
  ∃ fm sa, index docs maxChar ddic = Ret fm ∧ sorted_suffixes (concat docs ++ [0]) sa ∧
    size fm = zlen sa ∧ ∀ i, 0 ≤ i → getPosition fm i =
      match aget sa i with Some k => Ret k | None => Throw "FMIndex.getPosition() : range error" end.
Proof.
  intros Hx. destruct (index_repr docs maxChar ddic Hx) as (fm & sa & Hfm & R & _). exists fm, sa.
  split; [exact Hfm|]. pose proof (tables_sorted _ _ _ _ R) as Hok. split; [done|].
  assert (size fm = zlen sa) as Hsz by (rewrite (size_text _ _ _ _ R); symmetry; by apply zlen_sa).
  split; [done|]. intros i Hi. destruct (aget sa i) as [k|] eqn:Hk; [by apply (getPosition_spec _ _ _ _ R)|].
  unfold getPosition. rewrite Hsz, decide_True; [done|].
  destruct (decide (i < zlen sa)); [|lia]. destruct (aget_is_Some sa i) as [k Hk']; [lia|congruence].
Qed.

Lemma positions_total_witness :
  ∃ fm, index [[1; 2; 1]; [3; 1; 2]] 8 2 = Ret fm ∧ ∃ k, getPosition fm 3 = Ret k.
Proof.
  destruct (positions_total _ _ _ sample_indexable) as (fm & sa & Hfm & Hok & _ & Hpos).
  exists fm. split; [exact Hfm|]. rewrite Hpos by done. pose proof (zlen_sa _ _ Hok) as Hlen.
  change (zlen (concat _ ++ [0])) with 7 in Hlen.
  destruct (aget_is_Some sa 3) as [k Hk]; [lia|]. exists k. rewrite Hk. reflexivity.
Defined.
End FM.
