(* ===== verification/Lang.v ===== *)
(** * Functions of the language

    The string functions that the parsers and the front end use: the class of
    spaces of regular expressions, [join], [encodeURIComponent], and the facts
    about [slice] that the parsers share. *)

From S2P Require Import Prelude.

Local Open Scope Z_scope.

Module Lang.

(** The class [[\s　]] of regular expressions. *)
Definition isSpace (c : Z) : bool :=
  bool_decide (9 ≤ c ≤ 13) || bool_decide (0x2000 ≤ c ≤ 0x200a) ||
  bool_decide (c ∈ [32; 160; 0x1680; 0x2028; 0x2029; 0x202f; 0x205f; 0x3000; 0xfeff]).

(** [join]. *)
Fixpoint join (sep : jsstr) (l : list jsstr) : jsstr :=
  match l with
  | [] => []
  | [s] => s
  | s :: l => s ++ sep ++ join sep l
  end.

(** The characters [encodeURIComponent] leaves alone. *)
Definition unreserved (c : Z) : bool :=
  bool_decide (48 ≤ c ≤ 57) || bool_decide (65 ≤ c ≤ 90) || bool_decide (97 ≤ c ≤ 122) ||
  bool_decide (c ∈ jstr "-_.!~*'()").

Definition hex_digit (d : Z) : Z := if decide (d < 10) then 48 + d else 55 + d.
Definition percent (b : Z) : jsstr := [37; hex_digit (b / 16); hex_digit (b mod 16)].

(** The UTF-8 bytes of a code point. *)
Definition utf8 (c : Z) : list Z :=
  if decide (c < 0x80) then [c]
  else if decide (c < 0x800) then [0xc0 + c / 64; 0x80 + c mod 64]
  else if decide (c < 0x10000) then [0xe0 + c / 4096; 0x80 + (c / 64) mod 64; 0x80 + c mod 64]
  else [0xf0 + c / 262144; 0x80 + (c / 4096) mod 64; 0x80 + (c / 64) mod 64; 0x80 + c mod 64].

Definition is_high (c : Z) : bool := bool_decide (0xd800 ≤ c ≤ 0xdbff).
Definition is_low (c : Z) : bool := bool_decide (0xdc00 ≤ c ≤ 0xdfff).

Fixpoint encodeURIComponent (s : jsstr) : outcome jsstr :=
  match s with
  | [] => Ret []
  | c :: s =>
    if unreserved c then r ← encodeURIComponent s; Ret (c :: r)
    else if is_low c then Throw "URIError"
    else if is_high c then
      match s with
      | d :: s =>
        if is_low d then
          r ← encodeURIComponent s;
          Ret (concat (percent <$> utf8 ((c - 0xd800) * 1024 + (d - 0xdc00) + 0x10000)) ++ r)
        else Throw "URIError"
      | [] => Throw "URIError"
      end
    else r ← encodeURIComponent s; Ret (concat (percent <$> utf8 c) ++ r)
  end.

(** [s.indexOf(w) != -1] for strings. *)
Fixpoint contains (s w : jsstr) : bool :=
  bool_decide (w `prefix_of` s) || match s with [] => false | _ :: s => contains s w end.

(** [s.substring(a, b)]: the bounds are clamped, and swapped if they are out of
    order. *)
Definition substring (s : jsstr) (a b : Z) : jsstr :=
  let clamp z := Z.max 0 (Z.min z (zlen s)) in
  js_slice s (Z.min (clamp a) (clamp b)) (Z.max (clamp a) (clamp b)).

(** [s.indexOf(c, i)] for a character [c] and [i >= 0]. *)
Definition indexOf_at (s : jsstr) (c i : Z) : Z :=
  let r := indexOf (drop (Z.to_nat i) s) c in if decide (r = -1) then -1 else i + r.

(** The class [\w] of regular expressions. *)
Definition isWord (c : Z) : bool :=
  bool_decide (48 ≤ c ≤ 57) || bool_decide (65 ≤ c ≤ 90) || bool_decide (97 ≤ c ≤ 122) || bool_decide (c = 95).

(** [s.split(/\s+/)]: [cur] is the word being read, [gap] says that the last
    character was a space. *)
Fixpoint split_spaces (s cur : jsstr) (gap : bool) : list jsstr :=
  match s with
  | [] => [cur]
  | c :: s =>
    if isSpace c then if gap then split_spaces s cur true else cur :: split_spaces s [] true
    else split_spaces s (cur ++ [c]) false
  end.

End Lang.

(** Closed decidable facts, by evaluation. *)
Ltac decided := apply (bool_decide_unpack _); vm_compute; exact I.

(** Arithmetic with lengths, which are not negative. *)
Ltac zlens :=
  repeat match goal with
    | |- context [zlen ?l] => lazymatch goal with H : 0 ≤ zlen l |- _ => fail | _ => pose proof (zlen_nonneg l) end
    end; lia.

Lemma slice_middle (a w b : jsstr) : js_slice (a ++ w ++ b) (zlen a) (zlen a + zlen w) = w.
Proof.
  pose proof (zlen_nonneg a). pose proof (zlen_nonneg w). pose proof (zlen_nonneg b).
  unfold js_slice, slice_index. autorewrite with zlen.
  rewrite !decide_False by lia. rewrite !Z.min_l by lia.
  replace (Z.to_nat (zlen a)) with (length a) by (unfold zlen; lia).
  rewrite drop_app_length. replace (Z.to_nat _) with (length w) by (unfold zlen; lia). apply take_app_length.
Qed.

Lemma slice_one (a s : jsstr) c : js_slice (a ++ c :: s) (zlen a) (zlen a + 1) = [c].
Proof. exact (slice_middle a [c] s). Qed.

Lemma slice_end (a w : jsstr) : js_slice (a ++ w) (zlen a) (zlen (a ++ w)) = w.
Proof. rewrite zlen_app. rewrite <- (app_nil_r w) at 1. apply slice_middle. Qed.

Lemma substring_take (s : jsstr) b : 0 ≤ b → Lang.substring s 0 b = take (Z.to_nat b) s.
Proof.
  intros Hb. pose proof (zlen_nonneg s). unfold Lang.substring. cbv zeta. rewrite slice_range by lia.
  replace (Z.min _ (Z.max 0 (Z.min b (zlen s)))) with 0 by lia. cbn [Z.to_nat drop].
  destruct (decide (b ≤ zlen s)); [f_equal; lia|].
  rewrite (take_ge s (Z.to_nat b)) by (unfold zlen in *; lia). apply take_ge. unfold zlen in *. lia.
Qed.

(** ** What [encodeURIComponent] lets through *)

Definition uri_safe (c : Z) : bool := Lang.unreserved c || bool_decide (c = 37).

Lemma hex_safe d : 0 ≤ d < 16 → uri_safe (Lang.hex_digit d) = true.
Proof.
  intros Hd. unfold uri_safe, Lang.unreserved, Lang.hex_digit. case_decide.
  - by rewrite (bool_decide_eq_true_2 (48 ≤ 48 + d ≤ 57)) by lia.
  - rewrite (bool_decide_eq_true_2 (65 ≤ 55 + d ≤ 90)) by lia. by rewrite orb_true_r.
Qed.

Lemma percent_safe b : 0 ≤ b < 256 → Forall (λ c, uri_safe c = true) (Lang.percent b).
Proof.
  intros Hb. pose proof (Z.div_pos b 16). pose proof (Z.div_lt_upper_bound b 16 16). pose proof (Z.mod_pos_bound b 16).
  repeat constructor; apply hex_safe; lia.
Qed.

Lemma utf8_bytes c : 0 ≤ c < 0x110000 → Forall (λ b, 0 ≤ b < 256) (Lang.utf8 c).
Proof.
  intros Hc. unfold Lang.utf8. repeat case_decide; repeat constructor; Z.to_euclidean_division_equations; lia.
Qed.

Lemma escaped_safe c : 0 ≤ c < 0x110000 → Forall (λ b, uri_safe b = true) (concat (Lang.percent <$> Lang.utf8 c)).
Proof.
  intros Hc. pose proof (utf8_bytes c Hc) as Hb. induction Hb as [|b l Hb _ IH]; [done|].
  cbn [fmap list_fmap concat]. apply Forall_app. split; [by apply percent_safe|done].
Qed.

Lemma encode_safe s r :
  Forall (λ c, 0 ≤ c < 65536) s → Lang.encodeURIComponent s = Ret r → Forall (λ c, uri_safe c = true) r.
Proof.
  remember (length s) as k eqn:Hk. revert s r Hk. induction k as [k IH] using lt_wf_ind. intros [|c s] r -> Hs; [by intros [= <-]|].
  apply Forall_cons in Hs as [Hc Hs]. cbn [Lang.encodeURIComponent].
  destruct (Lang.unreserved c) eqn:Hu.
  { intros (r0 & Hr & [= <-])%bind_Ret. constructor; [by unfold uri_safe; rewrite Hu|]. apply (IH (length s)) in Hr; simpl; done || lia. }
  destruct (Lang.is_low c) eqn:Hlow; [done|]. destruct (Lang.is_high c) eqn:Hhigh.
  - destruct s as [|d s]; [done|]. apply Forall_cons in Hs as [Hd Hs]. destruct (Lang.is_low d) eqn:Hd'; [|done].
    intros (r0 & Hr & [= <-])%bind_Ret. apply Forall_app. split; [|apply (IH (length s)) in Hr; simpl; done || lia].
    apply bool_decide_eq_true in Hhigh, Hd'. apply escaped_safe. lia.
  - intros (r0 & Hr & [= <-])%bind_Ret. apply Forall_app. split; [apply escaped_safe; lia|].
    apply (IH (length s)) in Hr; simpl; done || lia.
Qed.
