(* ===== verification/Query.v ===== *)
(** * Queries

    Models [src/misc/oktavia/src/query.jsx], one word of a query with its flags, and
    the [highlight] methods that the two parsers of queries share. *)

From S2P Require Import Prelude Lang.

Local Open Scope Z_scope.

Module Query.

Record t := mk { word : jsstr; or : bool; not : bool; raw : bool }.

Definition new : t := mk [] false false false.

Definition toString (q : t) : jsstr :=
  (if or q then jstr "OR " else []) ++ (if not q then jstr "-" else []) ++
  (if raw q then [34] ++ word q ++ [34] else word q).

End Query.

(** The loop of both [highlight] methods. *)
Definition highlight_words (queries : list Query.t) : outcome jsstr :=
  result ← omap_list (λ q, w ← Lang.encodeURIComponent (Query.word q); Ret (jstr "highlight=" ++ w))
    (filter (λ q, Query.not q = false) queries);
  Ret ([63] ++ Lang.join [38] result).

(** The queries that have a spelling: a bare word is not empty, holds no space,
    does not start like a flag or a quote, and is not [OR]; a quoted one holds no
    quote. *)
Definition printable (q : Query.t) : Prop :=
  if Query.raw q then 34 ∉ Query.word q
  else Query.word q ≠ [] ∧ Forall (λ c, Lang.isSpace c = false) (Query.word q) ∧
       head (Query.word q) ≠ Some 45 ∧ head (Query.word q) ≠ Some 34 ∧ Query.word q ≠ jstr "OR".
