(* ===== verification/QueryParser.v ===== *)
(** * The parser of command line words

    Models [src/misc/oktavia/src/query-parser.jsx]: a query is given as a list of
    words, each of them with its sign and its quotes. *)

From S2P Require Import Prelude Lang Query.

Local Open Scope Z_scope.

Module QueryParser.

Record t := mk { queries : list Query.t }.
Definition new : t := mk [].

(** One word; [nextOr] says that the word before was [OR]. *)
Definition parse_word (st : list Query.t * bool) (word : jsstr) : list Query.t * bool :=
  let '(queries, nextOr) := st in
  if decide (word = jstr "OR") then (queries, true)
  else
    let '(not, word) := if decide (js_slice word 0 1 = [45]) then (true, js_slice word 1 (zlen word))
                        else (false, word) in
    let '(raw, word) :=
      if decide (js_slice word 0 1 = [34] ∧ js_slice word (zlen word - 1) (zlen word) = [34])
      then (true, js_slice word 1 (zlen word - 1)) else (false, word) in
    (queries ++ [Query.mk word nextOr not raw], false).

Definition parse (p : t) (queryStrings : list jsstr) : t * list Query.t :=
  let '(queries, _) := foldl parse_word (queries p, false) queryStrings in
  (mk queries, queries).

Definition highlight (p : t) : outcome jsstr := highlight_words (queries p).

End QueryParser.

(** The words a query is given as on the command line. *)
Definition words (q : Query.t) : list jsstr :=
  (if Query.or q then [jstr "OR"] else []) ++
  [Query.toString (Query.mk (Query.word q) false (Query.not q) (Query.raw q))].

(** The queries those words can express. *)
Definition expressible (q : Query.t) : Prop :=
  Query.raw q = true ∨
  (¬ (head (Query.word q) = Some 34 ∧ last (Query.word q) = Some 34) ∧
   (Query.not q = true ∨ (head (Query.word q) ≠ Some 45 ∧ Query.word q ≠ jstr "OR"))).

Module WordParserProofs.
Import QueryParser.

Lemma slice_first (w : jsstr) c : js_slice w 0 1 = [c] ↔ head w = Some c.
Proof. destruct w as [|x w]; [done|]. unfold js_slice, slice_index. rewrite zlen_cons. pose proof (zlen_nonneg w).
  rewrite !decide_False, Z.min_l, Z.min_l by lia. simpl. split; [by intros [= ->]|by intros [= ->]].
Qed.

Lemma slice_rest (w : jsstr) c : js_slice (c :: w) 1 (zlen (c :: w)) = w.
Proof. apply (slice_end [c] w). Qed.

Lemma slice_last (w : jsstr) c : js_slice w (zlen w - 1) (zlen w) = [c] ↔ last w = Some c.
Proof.
  destruct w as [|x w _] using rev_ind; [done|]. rewrite last_snoc.
  replace (zlen (w ++ [x]) - 1) with (zlen w) by (rewrite zlen_app; change (zlen [x]) with 1; lia).
  rewrite slice_end. split; [by intros [= ->]|by intros [= ->]].
Qed.

Lemma slice_quoted (w : jsstr) : js_slice ([34] ++ w ++ [34]) 1 (zlen ([34] ++ w ++ [34]) - 1) = w.
Proof.
  rewrite <- (slice_middle [34] w [34]) at 3. f_equal. rewrite !zlen_app. change (zlen [34]) with 1. lia.
Qed.
(** The quotes of a word. *)
Lemma quotes_raw qs w o n :
  (let '(raw, word) :=
     if decide (js_slice ([34] ++ w ++ [34]) 0 1 = [34] ∧
         js_slice ([34] ++ w ++ [34]) (zlen ([34] ++ w ++ [34]) - 1) (zlen ([34] ++ w ++ [34])) = [34])
     then (true, js_slice ([34] ++ w ++ [34]) 1 (zlen ([34] ++ w ++ [34]) - 1)) else (false, [34] ++ w ++ [34]) in
   (qs ++ [Query.mk word o n raw], false)) = (qs ++ [Query.mk w o n true], false).
Proof.
  rewrite decide_True; [by rewrite slice_quoted|]. rewrite slice_first, slice_last. split; [done|].
  by rewrite app_assoc, last_snoc.
Qed.

Lemma quotes_bare qs w o n :
  ¬ (head w = Some 34 ∧ last w = Some 34) →
  (let '(raw, word) :=
     if decide (js_slice w 0 1 = [34] ∧ js_slice w (zlen w - 1) (zlen w) = [34])
     then (true, js_slice w 1 (zlen w - 1)) else (false, w) in
   (qs ++ [Query.mk word o n raw], false)) = (qs ++ [Query.mk w o n false], false).
Proof. intros Hw. rewrite decide_False; [done|]. by rewrite slice_first, slice_last. Qed.

Lemma parse_printed qs q o :
  expressible q →
  parse_word (qs, o) (Query.toString (Query.mk (Query.word q) false (Query.not q) (Query.raw q)))
    = (qs ++ [Query.mk (Query.word q) o (Query.not q) (Query.raw q)], false).
Proof.
  destruct q as [w oo n r]. unfold expressible, Query.toString, parse_word.
  cbn [Query.word Query.not Query.raw Query.or app]. intros Hq. destruct n; cbn [app].
  - change (jstr "-") with [45]. cbn [app]. rewrite decide_False by done.
    rewrite (decide_True (P := js_slice _ 0 1 = [45])) by by apply slice_first.
    rewrite slice_rest. destruct r; [apply quotes_raw|]. apply quotes_bare. naive_solver.
  - destruct r.
    + rewrite decide_False by done. rewrite decide_False; [apply quotes_raw|]. by rewrite slice_first.
    + destruct Hq as [?|(Hq & [?|[H1 H2]])]; [done..|]. rewrite decide_False by done.
      rewrite decide_False; [by apply quotes_bare|]. by rewrite slice_first.
Qed.
End WordParserProofs.

(** the command line parser reads a list of queries back from their words. *)
Theorem query_words_roundtrip qs :
  Forall expressible qs →
  QueryParser.parse QueryParser.new (concat (words <$> qs)) = (QueryParser.mk qs, qs).
Proof.
  intros Hqs. unfold QueryParser.parse. cbn [QueryParser.queries QueryParser.new].
  assert (∀ acc, foldl QueryParser.parse_word (acc, false) (concat (words <$> qs)) = (acc ++ qs, false)) as ->; [|done].
  induction Hqs as [|q qs Hq _ IH]; intros acc; [by rewrite app_nil_r|].
  cbn [fmap list_fmap concat]. rewrite foldl_app, (cons_middle q), app_assoc, <- IH. f_equal.
  destruct q as [w o n r]. unfold words. destruct o; cbn [Query.or app foldl].
  - unfold QueryParser.parse_word at 2. rewrite decide_True by done. by apply WordParserProofs.parse_printed.
  - by apply WordParserProofs.parse_printed.
Qed.

Lemma query_words_roundtrip_witness :
  snd (QueryParser.parse QueryParser.new [jstr "search"; jstr "OR"; jstr "-word"])
    = [Query.mk (jstr "search") false false false; Query.mk (jstr "word") true true false].
Proof.
  refine (f_equal snd (query_words_roundtrip [Query.mk (jstr "search") false false false;
    Query.mk (jstr "word") true true false] _)).
  repeat (apply Forall_cons; split); [right; decided..|done].
Defined.
