(* ===== verification/QueryStringParser.v ===== *)
(** * The parser of the search box

    Models [src/misc/oktavia/src/query-string-parser.jsx], a state machine over the
    characters of the query.  It reads back what [Query.toString] prints, and
    whatever it reads can be printed. *)

From S2P Require Import Prelude Lang Query.

Local Open Scope Z_scope.

Module QueryStringParser.

Record t := mk { queries : list Query.t }.
Definition new : t := mk [].

Inductive status := Free | InWord | InQuote.

(** The variables of [parse]. *)
Record machine := mkM {
  found : list Query.t;
  nextOr : bool;
  nextNot : bool;
  currentWordStart : Z;
  state : status;
}.

(** The body of the loop, on the character [ch] at [i]. *)
Definition step (queryString : jsstr) (m : machine) (i ch : Z) : machine :=
  match state m with
  | Free =>
    if negb (Lang.isSpace ch) then
      if decide (ch = 45) then mkM (found m) (nextOr m) true (currentWordStart m) Free
      else if decide (ch = 34) then mkM (found m) (nextOr m) (nextNot m) (i + 1) InQuote
      else mkM (found m) (nextOr m) (nextNot m) i InWord
    else mkM (found m) (nextOr m) false (currentWordStart m) Free
  | InWord =>
    if Lang.isSpace ch then
      let word := js_slice queryString (currentWordStart m) i in
      if decide (word = jstr "OR") then mkM (found m) true (nextNot m) (currentWordStart m) Free
      else mkM (found m ++ [Query.mk word (nextOr m) (nextNot m) false]) false false (currentWordStart m) Free
    else m
  | InQuote =>
    if decide (ch = 34) then
      let word := js_slice queryString (currentWordStart m) i in
      mkM (found m ++ [Query.mk word (nextOr m) (nextNot m) true]) false false (currentWordStart m) Free
    else m
  end.

(** The loop, from index [i] on. *)
Fixpoint run (queryString : jsstr) (i : Z) (rest : jsstr) (m : machine) : machine :=
  match rest with
  | [] => m
  | ch :: rest => run queryString (i + 1) rest (step queryString m i ch)
  end.

(** What is left open at the end of the string. *)
Definition finish (queryString : jsstr) (m : machine) : list Query.t :=
  let word := js_slice queryString (currentWordStart m) (zlen queryString) in
  match state m with
  | Free => found m
  | InWord =>
    if decide (word = jstr "OR") then found m
    else found m ++ [Query.mk word (nextOr m) (nextNot m) false]
  | InQuote => found m ++ [Query.mk word (nextOr m) (nextNot m) true]
  end.

Definition parse (p : t) (queryString : jsstr) : t * list Query.t :=
  let m := run queryString 0 queryString (mkM (queries p) false false 0 Free) in
  let queries := finish queryString m in
  (mk queries, queries).

Definition highlight (p : t) : outcome jsstr := highlight_words (queries p).

End QueryStringParser.

Module StringParserProofs.
Import QueryStringParser.

Lemma run_app s i a b m : run s i (a ++ b) m = run s (i + zlen a) b (run s i a m).
Proof.
  revert i m. induction a as [|c a IH]; intros i m.
  - cbn [app run]. by rewrite zlen_nil, Z.add_0_r.
  - cbn [app run]. rewrite IH, zlen_cons. f_equal. lia.
Qed.

Lemma run_word s i w m :
  state m = InWord → Forall (λ c, Lang.isSpace c = false) w → run s i w m = m.
Proof.
  intros Hm Hw. revert i. induction Hw as [|c w Hc _ IH]; intros i; [done|].
  cbn [run]. unfold step. rewrite Hm, Hc. apply IH.
Qed.

Lemma run_quoted s i w m : state m = InQuote → 34 ∉ w → run s i w m = m.
Proof.
  intros Hm. revert i. induction w as [|c w IH]; intros i Hw; [done|].
  apply not_elem_of_cons in Hw as [Hc Hw]. cbn [run]. unfold step.
  rewrite Hm, decide_False by done. by apply IH.
Qed.

(** Entering a bare word and a quoted word from the free state. *)
Lemma enter_word s i w m :
  state m = Free → w ≠ [] → Forall (λ c, Lang.isSpace c = false) w →
  head w ≠ Some 45 → head w ≠ Some 34 →
  run s i w m = mkM (found m) (nextOr m) (nextNot m) i InWord.
Proof.
  intros Hm Hne Hw H1 H2. destruct w as [|c w]; [done|]. simpl in H1, H2.
  apply Forall_cons in Hw as [Hc Hw]. cbn [run]. unfold step at 1.
  rewrite Hm, Hc, !decide_False by congruence. by apply run_word.
Qed.

(** The text of a query, from a state that is ready to take it. *)
Definition body (q : Query.t) : jsstr := if Query.raw q then [34] ++ Query.word q ++ [34] else Query.word q.

Lemma run_or pre post m :
  state m = Free →
  run (pre ++ jstr "OR " ++ post) (zlen pre) (jstr "OR ") m
    = mkM (found m) true (nextNot m) (zlen pre) Free.
Proof.
  intros Hm. change (jstr "OR ") with (jstr "OR" ++ [32]). rewrite run_app.
  rewrite (enter_word _ _ (jstr "OR")) by (done || decided). cbn [run]. unfold step. cbn [state currentWordStart found nextOr nextNot].
  change (Lang.isSpace 32) with true. cbv iota. rewrite <- app_assoc. by rewrite slice_middle, decide_True.
Qed.

Lemma run_minus s i m :
  state m = Free → run s i [45] m = mkM (found m) (nextOr m) true (currentWordStart m) Free.
Proof. intros Hm. cbn [run]. unfold step. by rewrite Hm. Qed.

(** A quoted word is taken at its closing quote. *)
Lemma run_raw pre w post m :
  state m = Free → 34 ∉ w →
  run (pre ++ ([34] ++ w ++ [34]) ++ post) (zlen pre) ([34] ++ w ++ [34]) m
    = mkM (found m ++ [Query.mk w (nextOr m) (nextNot m) true]) false false (zlen pre + 1) Free.
Proof.
  intros Hm Hw. rewrite run_app. cbn [run]. unfold step at 1. rewrite Hm.
  change (Lang.isSpace 34) with false. cbn [negb]. rewrite decide_False, decide_True by done.
  rewrite run_app, (run_quoted _ _ w) by done. cbn [run]. unfold step. cbn [state currentWordStart found nextOr nextNot].
  rewrite decide_True by done. change (zlen [34]) with 1. do 4 f_equal.
  transitivity (js_slice ((pre ++ [34]) ++ w ++ [34] ++ post) (zlen (pre ++ [34])) (zlen (pre ++ [34]) + zlen w));
    [|apply slice_middle]. rewrite zlen_app. change (zlen [34]) with 1. by rewrite <- !app_assoc.
Qed.

(** The flags and the word, up to the point where the word would be taken. *)
Definition flags (m : machine) (q : Query.t) (k : Z) : machine :=
  mkM (found m) (Query.or q) (Query.not q) k Free.

Lemma run_flags pre q post m :
  state m = Free → nextOr m = false → nextNot m = false →
  ∃ k, run (pre ++ Query.toString q ++ post) (zlen pre)
         ((if Query.or q then jstr "OR " else []) ++ (if Query.not q then jstr "-" else [])) m = flags m q k.
Proof.
  intros Hm Ho Hn. unfold Query.toString, flags. destruct m as [qs o nn k st]. cbn [state nextOr nextNot found] in *. subst.
  rewrite run_app. destruct (Query.or q).
  - rewrite <- !app_assoc, run_or by done. cbn [found nextNot]. destruct (Query.not q); [|by eexists].
    rewrite run_minus by done. by eexists.
  - cbn [run]. destruct (Query.not q); [|by eexists]. rewrite run_minus by done. by eexists.
Qed.

Lemma toString_split q :
  Query.toString q = ((if Query.or q then jstr "OR " else []) ++ (if Query.not q then jstr "-" else [])) ++ body q.
Proof. unfold Query.toString, body. by rewrite <- app_assoc. Qed.

(** A printed query, closed by a space or by the end of the string. *)
Lemma run_query pre q post m :
  printable q → state m = Free → nextOr m = false → nextNot m = false →
  let s := pre ++ Query.toString q ++ post in
  let m' := run s (zlen pre) (Query.toString q) m in
  (post = [] → finish s m' = found m ++ [q]) ∧
  ∀ c, head post = Some c → Lang.isSpace c = true →
    ∃ k, step s m' (zlen (pre ++ Query.toString q)) c = mkM (found m ++ [q]) false false k Free.
Proof.
  intros Hq Hm Ho Hn s m'. destruct (run_flags pre q post m Hm Ho Hn) as [k Hk].
  set (f := (if Query.or q then jstr "OR " else []) ++ (if Query.not q then jstr "-" else [])) in Hk.
  assert (Query.toString q = f ++ body q) as Hs by apply toString_split.
  assert (m' = run s (zlen (pre ++ f)) (body q) (flags m q k)) as Hm'.
  { unfold m'. fold s f in Hk. rewrite Hs, run_app, <- zlen_app. by rewrite Hk. }
  assert (s = (pre ++ f) ++ body q ++ post) as Hs' by (unfold s; by rewrite Hs, <- !app_assoc).
  destruct q as [w o nn r]. unfold printable, body in *. cbn [Query.word Query.raw Query.or Query.not] in *. destruct r.
  - assert (m' = mkM (found m ++ [Query.mk w o nn true]) false false (zlen (pre ++ f) + 1) Free) as ->.
    { rewrite Hm', Hs', run_raw by done. done. }
    split; [done|]. intros c _ Hc. unfold step. cbn [state]. rewrite Hc. cbn [negb found nextOr]. by eexists.
  - destruct Hq as (Hne & Hw & H1 & H2 & HOR).
    assert (m' = mkM (found m) o nn (zlen (pre ++ f)) InWord) as ->.
    { rewrite Hm', enter_word by done. done. }
    split.
    + intros ->. unfold finish. cbn [state currentWordStart found nextOr nextNot].
      rewrite Hs', app_nil_r. by rewrite slice_end, decide_False by done.
    + intros c _ Hc. unfold step. cbn [state currentWordStart found nextOr nextNot]. rewrite Hc, Hs, app_assoc, (zlen_app (pre ++ f) w), Hs'.
      rewrite slice_middle, decide_False by done. by eexists.
Qed.

(** All the queries, one after the other. *)
Lemma run_queries qs pre q0 m :
  Forall printable (q0 :: qs) → state m = Free → nextOr m = false → nextNot m = false →
  let s := pre ++ Lang.join [32] (Query.toString <$> q0 :: qs) in
  finish s (run s (zlen pre) (Lang.join [32] (Query.toString <$> q0 :: qs)) m) = found m ++ q0 :: qs.
Proof.
  revert pre q0 m. induction qs as [|q1 qs IH]; intros pre q0 m [Hq Hqs]%Forall_cons Hm Ho Hn.
  - destruct (run_query pre q0 [] m Hq Hm Ho Hn) as [Hend _]. cbv zeta in Hend. rewrite app_nil_r in Hend.
    by apply Hend.
  - set (rest := Lang.join [32] (Query.toString <$> q1 :: qs)) in *.
    change (Lang.join [32] (Query.toString <$> q0 :: q1 :: qs)) with (Query.toString q0 ++ [32] ++ rest).
    destruct (run_query pre q0 ([32] ++ rest) m Hq Hm Ho Hn) as [_ Hsp].
    destruct (Hsp 32) as [k Hk]; [done..|]. cbv zeta in *.
    rewrite run_app, <- zlen_app. cbn [app run] in *. rewrite Hk.
    specialize (IH (pre ++ Query.toString q0 ++ [32]) q1 (mkM (found m ++ [q0]) false false k Free) Hqs).
    cbv zeta in IH. fold rest in IH. rewrite !zlen_app in IH. change (zlen [32]) with 1 in IH.
    rewrite <- !app_assoc in IH. cbn [app found] in IH. rewrite zlen_app, <- Z.add_assoc, IH by done.
    by rewrite <- app_assoc.
Qed.
End StringParserProofs.

(** The printed form of a list of queries is parsed into them. *)
Lemma parse_query_string qs :
  Forall printable qs →
  QueryStringParser.parse QueryStringParser.new (Lang.join [32] (Query.toString <$> qs))
    = (QueryStringParser.mk qs, qs).
Proof.
  intros Hqs. unfold QueryStringParser.parse. cbv zeta.
  enough (∀ s, s = Lang.join [32] (Query.toString <$> qs) →
    QueryStringParser.finish s (QueryStringParser.run s 0 s (QueryStringParser.mkM [] false false 0 QueryStringParser.Free)) = qs)
    as H by (cbn [QueryStringParser.queries QueryStringParser.new]; by rewrite H).
  intros s ->. destruct qs as [|q qs]; [done|]. by apply (StringParserProofs.run_queries qs [] q).
Qed.

(** C31: the search box parser reads a list of queries back from their printed form,
    with every flag: [OR], the minus sign and the quotes. *)
Theorem query_string_roundtrip qs :
  Forall printable qs →
  QueryStringParser.parse QueryStringParser.new (Lang.join [32] (Query.toString <$> qs))
    = (QueryStringParser.mk qs, qs).
Proof. apply parse_query_string. Qed.

Lemma query_string_roundtrip_witness :
  snd (QueryStringParser.parse QueryStringParser.new (jstr "search -word OR " ++ [34] ++ jstr "two words" ++ [34]))
    = [Query.mk (jstr "search") false false false; Query.mk (jstr "word") false true false;
       Query.mk (jstr "two words") true false true].
Proof.
  refine (f_equal snd (query_string_roundtrip [Query.mk (jstr "search") false false false;
    Query.mk (jstr "word") false true false; Query.mk (jstr "two words") true false true] _)).
  repeat (apply Forall_cons; split); [split_and!; try done; decided..| |done]. unfold printable. cbn [Query.raw Query.word]. decided.
Defined.

(** the parameters [highlight] makes of the queries that are not negated hold no
    character with a meaning in an address, so that the ampersands between them
    separate them. *)
Theorem highlight_parameters qs s :
  Forall (λ q, Forall (λ c, 0 ≤ c < 65536) (Query.word q)) qs →
  QueryStringParser.highlight (QueryStringParser.mk qs) = Ret s →
  ∃ ps, s = [63] ++ Lang.join [38] ((λ e, jstr "highlight=" ++ e) <$> ps) ∧
    Forall2 (λ q e, Lang.encodeURIComponent (Query.word q) = Ret e) (filter (λ q, Query.not q = false) qs) ps ∧
    Forall (Forall (λ c, uri_safe c = true)) ps.
Proof.
  intros Hqs. unfold QueryStringParser.highlight, highlight_words. cbn [QueryStringParser.queries].
  intros (l & Hl & [= <-])%bind_Ret.
  assert (Forall (λ q, Forall (λ c, 0 ≤ c < 65536) (Query.word q)) (filter (λ q, Query.not q = false) qs)) as Hf.
  { rewrite Forall_forall in *. intros q [_ Hq]%list_elem_of_filter. auto. }
  revert l Hl Hf. induction (filter _ qs) as [|q fs IH]; intros l Hl Hf; cbn [omap_list] in Hl.
  - injection Hl as <-. exists []. by repeat constructor.
  - apply Forall_cons in Hf as [Hq Hf]. apply bind_Ret in Hl as (y & Hy & Hl). apply bind_Ret in Hl as (ys & Hys & [= <-]).
    apply bind_Ret in Hy as (e & He & [= <-]). destruct (IH ys Hys Hf) as (ps & Hs & H2 & Hps).
    exists (e :: ps). assert (ys = (λ e, jstr "highlight=" ++ e) <$> ps) as ->.
    { clear -Hys H2. revert ys Hys. induction H2 as [|q e qs ps Hqe _ IH]; intros ys Hys; cbn [omap_list] in Hys.
      - by injection Hys as <-.
      - apply bind_Ret in Hys as (y & Hy & Hys). apply bind_Ret in Hys as (ys' & Hys & [= <-]).
        rewrite Hqe in Hy. injection Hy as <-. cbn [fmap list_fmap]. f_equal. by apply IH. }
    split; [done|]. split; [by constructor|]. constructor; [|done]. by apply (encode_safe (Query.word q)).
Qed.

Lemma highlight_parameters_witness :
  ∃ ps, jstr "?highlight=a%20b" = [63] ++ Lang.join [38] ((λ e, jstr "highlight=" ++ e) <$> ps) ∧
    Forall (Forall (λ c, uri_safe c = true)) ps.
Proof.
  destruct (highlight_parameters [Query.mk (jstr "a b") false false true; Query.mk (jstr "c") false true false]
    (jstr "?highlight=a%20b")) as (ps & Hs & _ & Hps); [decided|reflexivity|]. by exists ps.
Defined.

Module Invariant.
Import QueryStringParser.

(** What is open in the state after the characters [pre]. *)
Definition open_word (pre : jsstr) (m : machine) : Prop :=
  match state m with
  | Free => True
  | InWord => ∃ a w, pre = a ++ w ∧ zlen a = currentWordStart m ∧ w ≠ [] ∧
      Forall (λ c, Lang.isSpace c = false) w ∧ head w ≠ Some 45 ∧ head w ≠ Some 34
  | InQuote => ∃ a w, pre = a ++ w ∧ zlen a = currentWordStart m ∧ 34 ∉ w
  end.

Definition inv (pre : jsstr) (m : machine) : Prop := Forall printable (found m) ∧ open_word pre m.

Lemma step_inv s pre c rest m :
  s = pre ++ c :: rest → inv pre m → inv (pre ++ [c]) (step s m (zlen pre) c).
Proof.
  intros Hs [Hf Ho]. unfold inv, open_word, step in *. destruct (state m) eqn:Hst.
  - destruct (Lang.isSpace c) eqn:Hsp; cbn [negb]; [done|].
    case_decide as H1; [done|]. case_decide as H2; cbn [found state currentWordStart]; (split; [done|]).
    + exists (pre ++ [c]), []. rewrite app_nil_r, zlen_app. split_and!; [done..|apply not_elem_of_nil].
    + exists pre, [c]. split_and!; [done|done|done|by repeat constructor|simpl; congruence..].
  - destruct Ho as (a & w & Hpre & Ha & Hne & Hw & H1 & H2). destruct (Lang.isSpace c) eqn:Hsp.
    + rewrite Hs, Hpre, <- Ha, <- app_assoc, zlen_app, slice_middle. case_decide as HOR; [done|].
      cbn [found state]. split; [|done]. apply Forall_app. split; [done|]. apply Forall_singleton. done.
    + split; [done|]. rewrite Hst. exists a, (w ++ [c]). rewrite Hpre, <- app_assoc. split_and!; [done|done|by destruct w| |by destruct w..].
      apply Forall_app. split; [done|]. by apply Forall_singleton.
  - destruct Ho as (a & w & Hpre & Ha & Hw). case_decide as Hc.
    + rewrite Hs, Hpre, <- Ha, <- app_assoc, zlen_app, slice_middle. cbn [found state]. split; [|done].
      apply Forall_app. split; [done|]. by apply Forall_singleton.
    + split; [done|]. rewrite Hst. exists a, (w ++ [c]). rewrite Hpre, <- app_assoc. split_and!; [done..|].
      rewrite not_elem_of_app, list_elem_of_singleton. split; [done|congruence].
Qed.

Lemma run_inv s pre rest m :
  s = pre ++ rest → inv pre m → inv s (run s (zlen pre) rest m).
Proof.
  revert pre m. induction rest as [|c rest IH]; intros pre m Hs Hi; [by rewrite app_nil_r in Hs; subst|].
  cbn [run]. replace (zlen pre + 1) with (zlen (pre ++ [c])) by (rewrite zlen_app; done).
  apply IH; [by rewrite <- app_assoc|]. by apply (step_inv s pre c rest).
Qed.

Lemma finish_inv s m : inv s m → Forall printable (finish s m).
Proof.
  intros [Hf Ho]. unfold open_word, finish in *. destruct (state m); [done|..].
  - destruct Ho as (a & w & Hs & Ha & Hne & Hw & H1 & H2). subst s. rewrite <- Ha, slice_end.
    case_decide; [done|]. apply Forall_app. split; [done|]. by apply Forall_singleton.
  - destruct Ho as (a & w & Hs & Ha & Hw). subst s. rewrite <- Ha, slice_end.
    apply Forall_app. split; [done|]. by apply Forall_singleton.
Qed.
End Invariant.

(** whatever is typed, the search box parser only makes queries that have a
    spelling: no empty bare word, no space or flag character left in one, no quote
    inside a quoted one. *)
Theorem parsed_printable s : Forall printable (snd (QueryStringParser.parse QueryStringParser.new s)).
Proof.
  unfold QueryStringParser.parse. cbn [snd QueryStringParser.queries QueryStringParser.new].
  apply Invariant.finish_inv. by apply (Invariant.run_inv s [] s).
Qed.
