(* ===== verification/SearchResult.v ===== *)
(** * Search results

    Models [src/misc/oktavia/src/search-result.jsx]: the units a query found, and
    how the results of several queries are combined.  A [SearchUnit] is an object
    that several results share, so units live in a store and results hold
    references; merging with [or] writes to the units of the left result. *)

From S2P Require Import Prelude JsObject.

Local Open Scope Z_scope.

(** ** [Array.prototype.sort] with a comparison function

    The sort is stable, as the standard requires since 2019. *)

Section sort.
Context {A : Type} (cmp : A → A → Z).

Fixpoint sort_insert (x : A) (l : list A) : list A :=
  match l with
  | [] => [x]
  | y :: l' => if decide (cmp x y < 0) then x :: l else y :: sort_insert x l'
  end.

Definition js_sort (l : list A) : list A := foldl (λ acc x, sort_insert x acc) [] l.

Lemma sort_insert_perm x l : sort_insert x l ≡ₚ x :: l.
Proof.
  induction l as [|y l IH]; cbn [sort_insert]; [done|]. case_decide; [done|].
  rewrite IH. constructor.
Qed.

Lemma js_sort_perm l : js_sort l ≡ₚ l.
Proof.
  unfold js_sort. rewrite <- (app_nil_l l) at 2. generalize (@nil A) as acc.
  induction l as [|x l IH]; intros acc; cbn [foldl]; [by rewrite app_nil_r|].
  rewrite IH, sort_insert_perm. apply Permutation_middle.
Qed.

(** A comparison by a number sorts by that number. *)
Context (key : A → Z) (cmp_key : ∀ a b, cmp a b = key a - key b).

Lemma sort_insert_sorted x l :
  StronglySorted (λ a b, key a ≤ key b) l → StronglySorted (λ a b, key a ≤ key b) (sort_insert x l).
Proof.
  induction 1 as [|y l Hl IH Hall]; cbn [sort_insert]; [repeat constructor|].
  rewrite cmp_key. case_decide.
  - constructor; [by constructor|]. constructor; [lia|]. eapply Forall_impl; [exact Hall|]. simpl. lia.
  - constructor; [done|]. rewrite sort_insert_perm. constructor; [lia|done].
Qed.

Lemma js_sort_sorted l : StronglySorted (λ a b, key a ≤ key b) (js_sort l).
Proof.
  unfold js_sort. assert (StronglySorted (λ a b, key a ≤ key b) (@nil A)) as H by constructor. revert H.
  generalize (@nil A) as acc. induction l as [|x l IH]; intros acc Hacc; [done|]. by apply IH, sort_insert_sorted.
Qed.
End sort.

Module SR.

Record Position := mkPosition { word : jsstr; position : Z; stemmed : bool }.

Record SearchUnit := mkUnit {
  positions : list (Z * Position);
  id : Z;
  _size : Z;
  score : Z;
  startPosition : Z;
}.

Definition unit_new (id : Z) : SearchUnit := mkUnit [] id 0 0 (-1).

Definition addPosition (u : SearchUnit) (w : jsstr) (p : Z) (stem : bool) : SearchUnit :=
  match IMap.get (positions u) p with
  | None =>
    mkUnit (IMap.put (positions u) p (mkPosition w p stem)) (id u) (_size u + 1) (score u) (startPosition u)
  | Some o =>
    let w' := if decide (zlen (word o) < zlen w) then w else word o in
    mkUnit (IMap.put (positions u) p (mkPosition w' (position o) (stemmed o && stem)))
           (id u) (_size u) (score u) (startPosition u)
  end.

Definition unit_get (u : SearchUnit) (p : Z) : option Position := IMap.get (positions u) p.
Definition unit_size (u : SearchUnit) : Z := _size u.

Definition unit_merge (u rhs : SearchUnit) : SearchUnit :=
  foldl (λ u '(_, pos), addPosition u (word pos) (position pos) (stemmed pos)) u (positions rhs).

Definition getPositions (u : SearchUnit) : list Position :=
  js_sort (λ a b, position a - position b) (positions u).*2.

(** The units in memory, by reference. *)
Abbreviation store := (list SearchUnit).

Record SingleResult := mkResult {
  units : list nat;
  unitIds : list Z;
  or : bool;
  not : bool;
  searchWord : jsstr;
}.

Definition result_new : SingleResult := mkResult [] [] false false [].
Definition result_for (w : jsstr) (or not : bool) : SingleResult := mkResult [] [] or not w.

Definition getSearchUnit (h : store) (r : SingleResult) (unitId : Z) : outcome (store * SingleResult * nat) :=
  let existing := indexOf (unitIds r) unitId in
  if decide (existing = -1) then
    Ret (h ++ [unit_new unitId],
         mkResult (units r ++ [length h]) (unitIds r ++ [unitId]) (or r) (not r) (searchWord r),
         length h)
  else
    ref ← of_option (aget (units r) existing);
    Ret (h, r, ref).

(** Adding one unit to a result that is being made. *)
Definition keep (res : SingleResult) (id : Z) (ref : nat) : SingleResult :=
  mkResult (units res ++ [ref]) (unitIds res ++ [id]) (or res) (not res) (searchWord res).

Definition _andMerge (l res rhs : SingleResult) : outcome SingleResult :=
  ofold (λ res i,
    id ← of_option (aget (unitIds l) i);
    if decide (indexOf (unitIds rhs) id ≠ -1) then
      ref ← of_option (aget (units l) i); Ret (keep res id ref)
    else Ret res) res (seqZ 0 (zlen (unitIds l))).

Definition _notMerge (l res rhs : SingleResult) : outcome SingleResult :=
  ofold (λ res i,
    id ← of_option (aget (unitIds l) i);
    if decide (indexOf (unitIds rhs) id = -1) then
      ref ← of_option (aget (units l) i); Ret (keep res id ref)
    else Ret res) res (seqZ 0 (zlen (unitIds l))).

(** [lhsSection.merge(rhsSection)], on the store. *)
Definition merge_refs (h : store) (lref rref : nat) : outcome store :=
  lu ← of_option (h !! lref);
  ru ← of_option (h !! rref);
  Ret (<[lref := unit_merge lu ru]> h).

Definition or_step (rhs : SingleResult) (st : store * SingleResult) (i : Z) : outcome (store * SingleResult) :=
  let '(h, res) := st in
  id ← of_option (aget (unitIds rhs) i);
  rref ← of_option (aget (units rhs) i);
  if decide (indexOf (unitIds res) id ≠ -1) then
    lref ← of_option (aget (units res) (indexOf (unitIds res) id));
    h ← merge_refs h lref rref;
    Ret (h, res)
  else Ret (h, keep res id rref).

Definition _orMerge (h : store) (l res rhs : SingleResult) : outcome (store * SingleResult) :=
  ofold (or_step rhs) (h, mkResult (units l) (unitIds l) (or res) (not res) (searchWord res))
    (seqZ 0 (zlen (unitIds rhs))).

Definition merge (h : store) (l rhs : SingleResult) : outcome (store * SingleResult) :=
  let res := result_new in
  if or rhs then _orMerge h l res rhs
  else if not rhs then res ← _notMerge l res rhs; Ret (h, res)
  else res ← _andMerge l res rhs; Ret (h, res).

Definition size (r : SingleResult) : Z := zlen (units r).

(** [mergeResult(results)]; of no results it is [undefined]. *)
Definition mergeResult (h : store) (results : list SingleResult) : outcome (store * option SingleResult) :=
  match results with
  | [] => Ret (h, None)
  | first :: results =>
    '(h, r) ← ofold (λ '(h, rhs) r, merge h rhs r) (h, first) results;
    Ret (h, Some r)
  end.

Record Proposal := mkProposal { omit : Z; expect : Z }.

Record SearchSummary := mkSummary { sourceResults : list SingleResult; result : option SingleResult }.

Definition summary_new : SearchSummary := mkSummary [] None.
Definition addQuery (s : SearchSummary) (r : SingleResult) : SearchSummary :=
  mkSummary (sourceResults s ++ [r]) (result s).

Definition summary_merge (h : store) (s : SearchSummary) : outcome (store * SearchSummary) :=
  '(h, r) ← mergeResult h (sourceResults s);
  Ret (h, mkSummary (sourceResults s) r).

(** [result.size()], of a result that may be missing. *)
Definition size_of_result (r : option SingleResult) : outcome Z :=
  match r with
  | Some r => Ret (size r)
  | None => Throw "TypeError"
  end.

Definition proposal_step (sources : list SingleResult) (st : store * list Proposal) (i : Z)
    : outcome (store * list Proposal) :=
  let '(h, proposals) := st in
  let tmpSource := take (Z.to_nat i) sources ++ drop (S (Z.to_nat i)) sources in
  '(h, r) ← mergeResult h tmpSource;
  n ← size_of_result r;
  Ret (h, proposals ++ [mkProposal i n]).

Definition getProposal (h : store) (s : SearchSummary) : outcome (store * list Proposal) :=
  '(h, proposals) ← ofold (proposal_step (sourceResults s)) (h, []) (seqZ 0 (zlen (sourceResults s)));
  Ret (h, js_sort (λ a b, expect b - expect a) proposals).

Definition getSortedResult (h : store) (s : SearchSummary) : outcome (list nat) :=
  match result s with
  | None => Throw "TypeError"
  | Some r =>
    us ← omap_list (λ ref, u ← of_option (h !! ref); Ret (ref, u)) (units r);
    Ret (js_sort (λ a b, score b.2 - score a.2) us).*1
  end.

Definition summary_size (s : SearchSummary) : outcome Z := size_of_result (result s).


(** ** Units *)

(** The table of positions, its count, and the positions' own numbers agree. *)
Record unit_wf (u : SearchUnit) : Prop := {
  uw_positions : IMap.wf (positions u);
  uw_size : _size u = zlen (positions u);
  uw_own p o : IMap.get (positions u) p = Some o → position o = p;
}.

(** Two findings at one position: the longer word, stemmed only if both are. *)
Definition join_position (a b : Position) : Position :=
  mkPosition (if decide (zlen (word a) < zlen (word b)) then word b else word a) (position a) (stemmed a && stemmed b).

Definition join (a b : option Position) : option Position :=
  match a, b with
  | Some a, Some b => Some (join_position a b)
  | None, b => b
  | a, None => a
  end.

Lemma put_length {V} (m : list (Z * V)) k v :
  IMap.wf m → zlen (IMap.put m k v) = zlen m + match IMap.get m k with Some _ => 0 | None => 1 end.
Proof.
  unfold IMap.wf. induction m as [|[k' v'] m IH]; intros Hwf; [done|]. cbn [IMap.put IMap.get IMap.keys fmap list_fmap fst] in *.
  apply StronglySorted_inv in Hwf as [Hwf Hall]. case_decide as Hlt.
  - rewrite decide_False by lia. assert (IMap.get m k = None) as ->; [|rewrite !zlen_cons; lia].
    destruct (IMap.get m k) as [x|] eqn:Hx; [|done]. rewrite Forall_forall in Hall.
    assert (k ∈ IMap.keys m) as Hk by (apply IMap.get_keys; by exists x). apply Hall in Hk. lia.
  - case_decide as Heq; [subst; rewrite decide_True by done; rewrite !zlen_cons; lia|].
    rewrite decide_False by lia. rewrite !zlen_cons, IH by done. lia.
Qed.

Lemma addPosition_get u w p st q :
  unit_wf u →
  IMap.get (positions (addPosition u w p st)) q
    = join (IMap.get (positions u) q) (if decide (p = q) then Some (mkPosition w p st) else None).
Proof.
  intros Hu. unfold addPosition. destruct (IMap.get (positions u) p) as [o|] eqn:Hp; cbn [positions]; rewrite IMap.get_iput;
    case_decide as Hq; subst; rewrite ?Hp; try done; by destruct (IMap.get (positions u) q).
Qed.

Lemma addPosition_wf u w p st : unit_wf u → unit_wf (addPosition u w p st).
Proof.
  intros Hu. split.
  - unfold addPosition. destruct (IMap.get _ _); apply IMap.iput_wf, Hu.
  - unfold addPosition. destruct (IMap.get (positions u) p) as [o|] eqn:Hp; cbn [positions _size];
      rewrite put_length, Hp, (uw_size _ Hu) by apply Hu; lia.
  - intros q o. rewrite addPosition_get by done. unfold join, join_position.
    destruct (IMap.get (positions u) q) as [a|] eqn:Hq; case_decide; intros [= <-]; subst; cbn [position]; try done;
      by apply (uw_own _ Hu).
Qed.

Lemma addPosition_id u w p st : id (addPosition u w p st) = id u.
Proof. unfold addPosition. by destruct (IMap.get _ _). Qed.

Lemma join_assoc_none a : join a None = a.
Proof. by destruct a. Qed.

Lemma unit_merge_spec u rhs :
  unit_wf u → unit_wf rhs →
  unit_wf (unit_merge u rhs) ∧ id (unit_merge u rhs) = id u ∧
  ∀ q, unit_get (unit_merge u rhs) q = join (unit_get u q) (unit_get rhs q).
Proof.
  intros Hu Hr. unfold unit_merge, unit_get. pose proof (uw_positions _ Hr) as Hwf.
  assert (∀ p o, (p, o) ∈ positions rhs → position o = p) as Hown.
  { intros p o Hin. apply (uw_own _ Hr). by apply IMap.get_elem_of. }
  revert u Hu. induction (positions rhs) as [|[p o] m IH]; intros u Hu; cbn [foldl].
  - split_and!; [done..|]. intros q. by rewrite join_assoc_none.
  - unfold IMap.wf in *. cbn [IMap.keys fmap list_fmap fst] in Hwf. apply StronglySorted_inv in Hwf as [Hwf Hall].
    rewrite (Hown p o) by left.
    destruct (IH Hwf ltac:(intros; apply Hown; by right) (addPosition u (word o) p (stemmed o))) as (H1 & H2 & H3);
      [by apply addPosition_wf|]. split_and!; [done|by rewrite H2, addPosition_id|].
    intros q. rewrite H3, addPosition_get by done. cbn [IMap.get]. case_decide as Hpq; [subst q|by rewrite join_assoc_none].
    assert (IMap.get m p = None) as ->.
    { destruct (IMap.get m p) as [x|] eqn:Hx; [|done]. rewrite Forall_forall in Hall.
      assert (p ∈ IMap.keys m) as Hk by (apply IMap.get_keys; by exists x). apply Hall in Hk. lia. }
    rewrite join_assoc_none. f_equal. f_equal. destruct o as [w p' st]. cbn. f_equal. symmetry. apply (Hown p (mkPosition w p' st)). left.
Qed.

(** ** Results *)

(** [id] is listed in the result, with the unit at [ref]. *)
Definition lists (r : SingleResult) (ref : nat) (i : Z) : Prop := (ref, i) ∈ zip (units r) (unitIds r).

(** The unit at [ref] is a well-formed unit of number [i]. *)
Definition stored (h : store) (ref : nat) (i : Z) : Prop := ∃ u, h !! ref = Some u ∧ id u = i ∧ unit_wf u.

Record result_wf (h : store) (r : SingleResult) : Prop := {
  rw_ids : NoDup (unitIds r);
  rw_units : Forall2 (stored h) (units r) (unitIds r);
}.

(** What a step may do to the units: they keep their numbers and stay well formed. *)
Definition stable (h h' : store) : Prop := ∀ ref i, stored h ref i → stored h' ref i.

Lemma stable_refl h : stable h h.
Proof. by intros ref i. Qed.
Lemma stable_trans h1 h2 h3 : stable h1 h2 → stable h2 h3 → stable h1 h3.
Proof. intros H1 H2 ref i Hs. auto. Qed.

Lemma stable_wf h h' r : stable h h' → result_wf h r → result_wf h' r.
Proof.
  intros Hst [Hnd Hu]. split; [done|]. eapply Forall2_impl; [exact Hu|]. apply Hst.
Qed.

Lemma stored_fun h ref i j : stored h ref i → stored h ref j → i = j.
Proof. intros (u & Hu & <- & _) (v & Hv & <- & _). congruence. Qed.

Lemma lists_stored h r ref i : result_wf h r → lists r ref i → stored h ref i.
Proof.
  intros [_ Hu] Hl. unfold lists in Hl. apply list_elem_of_lookup in Hl as [k Hk].
  apply lookup_zip_Some in Hk as [Hk1 Hk2]. by eapply Forall2_lookup_lr.
Qed.

Lemma lists_ids r ref i : lists r ref i → ref ∈ units r ∧ i ∈ unitIds r.
Proof.
  intros [k Hk]%list_elem_of_lookup. apply lookup_zip_Some in Hk as [Hk1 Hk2].
  split; by eapply list_elem_of_lookup_2.
Qed.

Lemma wf_zip h r : result_wf h r → (zip (units r) (unitIds r)).*2 = unitIds r ∧ (zip (units r) (unitIds r)).*1 = units r.
Proof.
  intros [_ Hu]. apply Forall2_length in Hu. split; [apply snd_zip|apply fst_zip]; lia.
Qed.

Lemma lists_index h r i :
  result_wf h r → i ∈ unitIds r → ∃ ref, aget (units r) (indexOf (unitIds r) i) = Some ref ∧ lists r ref i.
Proof.
  intros [_ Hu] Hi. pose proof (indexOf_spec _ _ Hi) as Hk. pose proof (aget_Some_range _ _ _ Hk).
  rewrite aget_nonneg in Hk by lia. destruct (Forall2_lookup_r _ _ _ _ _ Hu Hk) as (ref & Href & _).
  exists ref. rewrite aget_nonneg by lia. split; [done|].
  apply (list_elem_of_lookup_2 _ (Z.to_nat (indexOf (unitIds r) i))). by apply lookup_zip_Some.
Qed.

Lemma lists_fun h r ref1 ref2 i : result_wf h r → lists r ref1 i → lists r ref2 i → ref1 = ref2.
Proof.
  intros [Hnd _] [k1 H1]%list_elem_of_lookup [k2 H2]%list_elem_of_lookup.
  apply lookup_zip_Some in H1 as [? H1], H2 as [? H2].
  assert (k1 = k2) as -> by (by eapply NoDup_lookup). congruence.
Qed.

Lemma keep_wf h res i ref : result_wf h res → i ∉ unitIds res → stored h ref i → result_wf h (keep res i ref).
Proof.
  intros [Hnd Hu] Hi Hs. split; cbn.
  - apply NoDup_app. split_and!; [done| |apply NoDup_singleton]. intros x Hx ->%list_elem_of_singleton. done.
  - apply Forall2_app; [done|]. by repeat constructor.
Qed.

Lemma lists_keep h res i ref r j :
  result_wf h res → lists (keep res i ref) r j ↔ lists res r j ∨ (r = ref ∧ j = i).
Proof.
  intros [_ Hu%Forall2_length]. unfold lists. cbn. rewrite zip_with_app by done.
  rewrite elem_of_app. cbn. rewrite list_elem_of_singleton. naive_solver.
Qed.

(** The units of a result, one after the other. *)
Lemma ofold_units {S} h r (f : S → Z → outcome S) (g : S → nat * Z → outcome S) s :
  result_wf h r →
  (∀ s k ref i, aget (units r) k = Some ref → aget (unitIds r) k = Some i → f s k = g s (ref, i)) →
  ofold f s (seqZ 0 (zlen (unitIds r))) = ofold g s (zip (units r) (unitIds r)).
Proof.
  intros [_ Hu%Forall2_length] Hf.
  assert (zlen (unitIds r) = zlen (zip (units r) (unitIds r))) as ->.
  { unfold zlen. rewrite length_zip_with. lia. }
  apply ofold_index. intros s' k [ref i] Hk. pose proof (aget_Some_range _ _ _ Hk).
  rewrite aget_nonneg in Hk by lia. apply lookup_zip_Some in Hk as [??].
  apply Hf; rewrite aget_nonneg by lia; done.
Qed.

(** Keeping the units that pass a test. *)
Lemma keep_loop (P : Z → Prop) `{!∀ x, Decision (P x)} ps res :
  ofold (λ res '(ref, i), if decide (P i) then Ret (keep res i ref) else Ret res) res ps
  = Ret (mkResult (units res ++ (filter (λ p, P p.2) ps).*1) (unitIds res ++ (filter (λ p, P p.2) ps).*2)
           (or res) (not res) (searchWord res)).
Proof.
  revert res. induction ps as [|[ref i] ps IH]; intros res; cbn [ofold].
  - cbn. rewrite !app_nil_r. by destruct res.
  - rewrite filter_cons. cbn [snd]. case_decide; cbn [mbind outcome_bind]; rewrite IH; cbn; [|done].
    by rewrite <- !app_assoc.
Qed.

Lemma filter_snd {A} (P : Z → Prop) `{!∀ x, Decision (P x)} (ps : list (A * Z)) :
  (filter (λ p, P p.2) ps).*2 = filter P ps.*2.
Proof. induction ps as [|[a b] ps IH]; [done|]. rewrite fmap_cons, !filter_cons. cbn [snd]. case_decide; [rewrite fmap_cons|]; by rewrite IH. Qed.

Lemma keep_filter_wf h r (P : Z → Prop) `{!∀ x, Decision (P x)} :
  result_wf h r →
  let ps := filter (λ p, P p.2) (zip (units r) (unitIds r)) in
  result_wf h (mkResult ps.*1 ps.*2 false false []) ∧ ps.*2 = filter P (unitIds r).
Proof.
  intros Hr ps. assert (ps.*2 = filter P (unitIds r)) as Hids.
  { unfold ps. rewrite filter_snd. by destruct (wf_zip _ _ Hr) as [-> _]. }
  split; [|done]. split; cbn; [rewrite Hids; apply NoDup_filter, Hr|].
  assert (Forall (λ p, stored h p.1 p.2) ps) as Hall.
  { apply Forall_forall. intros [ref i] [_ Hin]%list_elem_of_filter. by apply (lists_stored h r). }
  clearbody ps. clear Hids. induction Hall as [|[ref i] l H1 _ IH]; cbn; constructor; done.
Qed.

Lemma unit_merge_stored h lref rref i :
  stored h lref i → stored h rref i →
  ∃ lu ru, h !! lref = Some lu ∧ h !! rref = Some ru ∧
    merge_refs h lref rref = Ret (<[lref := unit_merge lu ru]> h) ∧ stable h (<[lref := unit_merge lu ru]> h).
Proof.
  intros (lu & Hlu & Hli & Hlw) (ru & Hru & Hri & Hrw). exists lu, ru. unfold merge_refs. rewrite Hlu, Hru.
  split_and!; [done..|]. destruct (unit_merge_spec lu ru Hlw Hrw) as (Hw & Hid & _). intros ref j (u & Hu & <- & Huw).
  destruct (decide (ref = lref)) as [->|Hne].
  - exists (unit_merge lu ru). rewrite list_lookup_insert_eq by (by eapply lookup_lt_Some).
    assert (u = lu) as -> by congruence. done.
  - exists u. by rewrite list_lookup_insert_ne by done.
Qed.

Lemma filter_same {A} (P Q : A → Prop) `{!∀ x, Decision (P x), !∀ x, Decision (Q x)} (l : list A) :
  (∀ x, x ∈ l → P x ↔ Q x) → filter P l = filter Q l.
Proof.
  induction l as [|x l IH]; intros HPQ; [done|]. rewrite !filter_cons.
  rewrite IH by (intros; apply HPQ; by right). apply decide_ext. apply HPQ. left.
Qed.

(** The loop of [_orMerge] over the units of the right result. *)
Definition or_pair (st : store * SingleResult) (p : nat * Z) : outcome (store * SingleResult) :=
  let '(h, res) := st in
  if decide (indexOf (unitIds res) p.2 ≠ -1) then
    lref ← of_option (aget (units res) (indexOf (unitIds res) p.2));
    h ← merge_refs h lref p.1;
    Ret (h, res)
  else Ret (h, keep res p.2 p.1).

Lemma or_loop ps h res :
  result_wf h res → NoDup ps.*2 → Forall (λ p, stored h p.1 p.2) ps →
  ∃ h' res', ofold or_pair (h, res) ps = Ret (h', res') ∧ result_wf h' res' ∧ stable h h' ∧
    unitIds res' = unitIds res ++ filter (λ i, i ∉ unitIds res) ps.*2 ∧
    (∀ ref, (∀ i, lists res ref i → i ∉ ps.*2) → h' !! ref = h !! ref) ∧
    (∀ lref rref i lu ru, lists res lref i → (rref, i) ∈ ps → rref ∉ units res →
       h !! lref = Some lu → h !! rref = Some ru → h' !! lref = Some (unit_merge lu ru)).
Proof.
  revert h res. induction ps as [|[r1 i1] ps IH]; intros h res Hwf Hnd Hst.
  { exists h, res. split_and!; [done|done|apply stable_refl|by rewrite app_nil_r|done|].
    by intros ????? _ ?%elem_of_nil. }
  rewrite fmap_cons in Hnd. apply NoDup_cons in Hnd as [Hi1 Hnd]. cbn [snd] in Hi1. apply Forall_cons in Hst as [Hs1 Hst].
  cbn [fst snd] in Hs1. cbn [ofold or_pair fst snd]. destruct (decide (i1 ∈ unitIds res)) as [Hin|Hin].
  - rewrite decide_True by (rewrite indexOf_none; naive_solver). destruct (lists_index _ _ _ Hwf Hin) as (l1 & -> & Hl1).
    destruct (unit_merge_stored h l1 r1 i1) as (lu1 & ru1 & Hlu1 & Hru1 & Hm & Hstab);
      [by eapply lists_stored|done|]. cbn [of_option mbind outcome_bind]. rewrite Hm. cbn [mbind outcome_bind].
    destruct (IH (<[l1 := unit_merge lu1 ru1]> h) res) as (h' & res' & -> & Hwf' & Hstab' & Hids & Hsame & Hmerge);
      [by eapply stable_wf|done|by eapply Forall_impl; [exact Hst|]; intros p; apply Hstab|].
    exists h', res'. split_and!; [done|done|by eapply stable_trans| | |].
    + rewrite Hids, fmap_cons, filter_cons_False by (cbn; tauto). done.
    + intros ref Href. rewrite Hsame by (intros i Hi Hin'; apply (Href i Hi); by right).
      apply list_lookup_insert_ne. intros ->. apply (Href i1); [done|]. left.
    + intros lref rref i lu ru Hl [[= -> ->]|Hr]%elem_of_cons Hnew Hlu Hru.
      * assert (lref = l1) as -> by exact (lists_fun h res _ _ i1 Hwf Hl Hl1). rewrite Hsame.
        { rewrite list_lookup_insert_eq by (by eapply lookup_lt_Some). congruence. }
        intros j Hj. assert (j = i1) as -> by (apply (stored_fun h l1); by eapply lists_stored). done.
      * assert (i ≠ i1). { intros ->. apply Hi1. apply (list_elem_of_fmap_2 snd) in Hr. done. }
        apply (Hmerge lref rref i); [done..| |]; rewrite list_lookup_insert_ne; try done.
        { intros ->. assert (i = i1); [|done]. apply (stored_fun h lref); by eapply lists_stored. }
        { intros ->. apply Hnew. by apply lists_ids in Hl1 as [??]. }
  - rewrite decide_False by (rewrite indexOf_none; naive_solver). cbn [mbind outcome_bind].
    destruct (IH h (keep res i1 r1)) as (h' & res' & -> & Hwf' & Hstab' & Hids & Hsame & Hmerge); [by apply keep_wf|done..|].
    exists h', res'. split_and!; [done|done|done| | |].
    + rewrite Hids, fmap_cons, filter_cons_True by (cbn; tauto). cbn. rewrite <- app_assoc. cbn. do 2 f_equal.
      apply filter_same. intros j Hj. rewrite elem_of_app, list_elem_of_singleton. naive_solver.
    + intros ref Href. apply Hsame. intros i [Hi|[-> ->]]%(lists_keep h) Hin'; [|done..].
      apply (Href i Hi). by right.
    + intros lref rref i lu ru Hl Hr Hnew Hlu Hru. apply lists_ids in Hl as Hl'. apply elem_of_cons in Hr as [[= -> ->]|Hr]; [naive_solver|].
      apply (Hmerge lref rref i); [by rewrite (lists_keep h) by done; left|done| |done..].
      cbn. rewrite elem_of_app, list_elem_of_singleton. intros [?| ->]; [done|].
      rewrite Forall_forall in Hst. pose proof (stored_fun _ _ _ _ Hs1 (Hst _ Hr)) as ->.
      apply (list_elem_of_fmap_2 snd) in Hr. done.
Qed.

(** ** Merging *)

(** The units a merge keeps. *)
Definition combine_ids (or not : bool) (l r : list Z) : list Z :=
  if or then l ++ filter (λ i, i ∉ l) r
  else if not then filter (λ i, i ∉ r) l
  else filter (λ i, i ∈ r) l.

Lemma or_merge_spec h l res rhs :
  result_wf h l → result_wf h rhs →
  ∃ h' res', _orMerge h l res rhs = Ret (h', res') ∧ result_wf h' res' ∧ stable h h' ∧
    unitIds res' = combine_ids true false (unitIds l) (unitIds rhs) ∧
    ∀ lref rref i lu ru, lists l lref i → lists rhs rref i → rref ∉ units l →
      h !! lref = Some lu → h !! rref = Some ru → h' !! lref = Some (unit_merge lu ru).
Proof.
  intros Hl Hr. unfold _orMerge. rewrite (ofold_units h rhs _ or_pair).
  2: done.
  2: { intros [h0 res0] k ref i Href Hi. unfold or_step, or_pair. rewrite Href, Hi. done. }
  set (res0 := mkResult _ _ _ _ _).
  destruct (or_loop (zip (units rhs) (unitIds rhs)) h res0) as (h' & res' & Hrun & Hwf & Hst & Hids & _ & Hm).
  - by destruct Hl.
  - destruct (wf_zip _ _ Hr) as [-> _]. apply Hr.
  - apply Forall_forall. intros [ref i] Hin. by apply (lists_stored h rhs).
  - exists h', res'. split_and!; [done|done|done| |].
    + rewrite Hids. by destruct (wf_zip _ _ Hr) as [-> _].
    + intros lref rref i lu ru H1 H2. by apply (Hm lref rref i).
Qed.

Lemma keep_merge_spec (P : Z → Prop) `{!∀ x, Decision (P x)} (f : SingleResult → Z → outcome SingleResult) h l :
  result_wf h l →
  (∀ s k ref i, aget (units l) k = Some ref → aget (unitIds l) k = Some i →
     f s k = if decide (P i) then Ret (keep s i ref) else Ret s) →
  ∃ res, ofold f result_new (seqZ 0 (zlen (unitIds l))) = Ret res ∧ result_wf h res ∧ unitIds res = filter P (unitIds l).
Proof.
  intros Hl Hf. rewrite (ofold_units h l _ (λ res '(ref, i), if decide (P i) then Ret (keep res i ref) else Ret res)) by done.
  rewrite keep_loop. eexists. split; [done|]. by apply (keep_filter_wf h l P).
Qed.

Lemma merge_spec h l r :
  result_wf h l → result_wf h r →
  ∃ h' res, merge h l r = Ret (h', res) ∧ result_wf h' res ∧ stable h h' ∧
    unitIds res = combine_ids (or r) (not r) (unitIds l) (unitIds r).
Proof.
  intros Hl Hr. unfold merge. destruct (or r) eqn:Hor.
  { destruct (or_merge_spec h l result_new r Hl Hr) as (h' & res & -> & ? & ? & ? & _). eauto 10. }
  destruct (not r) eqn:Hnot.
  - destruct (keep_merge_spec (λ i, i ∉ unitIds r) (λ res i,
      id ← of_option (aget (unitIds l) i);
      if decide (indexOf (unitIds r) id = -1) then
        ref ← of_option (aget (units l) i); Ret (keep res id ref)
      else Ret res) h l Hl) as (res & Hrun & Hwf & Hids).
    { intros s k ref i Href Hi. rewrite Href, Hi. cbn [of_option mbind outcome_bind].
      apply decide_ext, indexOf_none. }
    unfold _notMerge. rewrite Hrun. exists h, res. split_and!; [done..|apply stable_refl|done].
  - destruct (keep_merge_spec (λ i, i ∈ unitIds r) (λ res i,
      id ← of_option (aget (unitIds l) i);
      if decide (indexOf (unitIds r) id ≠ -1) then
        ref ← of_option (aget (units l) i); Ret (keep res id ref)
      else Ret res) h l Hl) as (res & Hrun & Hwf & Hids).
    { intros s k ref i Href Hi. rewrite Href, Hi. cbn [of_option mbind outcome_bind].
      apply decide_ext. rewrite indexOf_none. destruct (decide (i ∈ unitIds r)); naive_solver. }
    unfold _andMerge. rewrite Hrun. exists h, res. split_and!; [done..|apply stable_refl|done].
Qed.

(** The units that a list of results keeps, merged from the left. *)
Definition merged_ids (results : list SingleResult) : list Z :=
  match results with
  | [] => []
  | first :: results => foldl (λ ids r, combine_ids (or r) (not r) ids (unitIds r)) (unitIds first) results
  end.

Lemma mergeResult_spec h results :
  results ≠ [] → Forall (result_wf h) results →
  ∃ h' r, mergeResult h results = Ret (h', Some r) ∧ result_wf h' r ∧ stable h h' ∧ unitIds r = merged_ids results.
Proof.
  intros Hne Hall. destruct results as [|first rest]; [done|]. apply Forall_cons in Hall as [Hf Hall].
  unfold mergeResult, merged_ids. clear Hne. revert h first Hf Hall. induction rest as [|r rest IH]; intros h first Hf Hall.
  { exists h, first. split_and!; [done..|apply stable_refl|done]. }
  apply Forall_cons in Hall as [Hr Hall]. cbn [ofold foldl].
  destruct (merge_spec h first r Hf Hr) as (h1 & m & -> & Hm & Hst & Hids). cbn [mbind outcome_bind].
  destruct (IH h1 m Hm) as (h' & res & Hrun & Hwf & Hst' & Hids').
  { eapply Forall_impl; [exact Hall|]. intros x. by apply stable_wf. }
  exists h', res. split_and!; [exact Hrun|done|by eapply stable_trans|]. by rewrite Hids', Hids.
Qed.

(** C16: merging the results of the words of a query keeps, without repetition
    and in the order of the first word, the units a set reading of the query
    prescribes: a plain word intersects, [OR] unites, [-] subtracts, from left
    to right.  The merge always returns, and every result, the sources
    included, still holds well-formed units. *)
Theorem merge_results h results (Hne : results ≠ []) (Hwf : Forall (result_wf h) results) :
  ∃ h' r, mergeResult h results = Ret (h', Some r) ∧ result_wf h' r ∧ unitIds r = merged_ids results ∧
    Forall (result_wf h') results.
Proof.
  destruct (mergeResult_spec h results Hne Hwf) as (h' & r & ? & ? & Hst & ?). exists h', r. split_and!; [done..|].
  eapply Forall_impl; [exact Hwf|]. intros x. by apply stable_wf.
Qed.

(** uniting two results joins, position by position, the units that both
    have: at a position that both found the longer word stays, and it counts as
    stemmed only if both are.  The unit is the one of the left result, which
    therefore changes too. *)
Theorem or_merge_joins h l r lref rref i lu ru
  (Hl : result_wf h l) (Hr : result_wf h r) (Hor : or r = true)
  (Hli : lists l lref i) (Hri : lists r rref i) (Hnew : rref ∉ units l)
  (Hlu : h !! lref = Some lu) (Hru : h !! rref = Some ru) :
  ∃ h' res u, merge h l r = Ret (h', res) ∧ i ∈ unitIds res ∧ h' !! lref = Some u ∧
    ∀ q, unit_get u q = join (unit_get lu q) (unit_get ru q).
Proof.
  unfold merge. rewrite Hor. destruct (or_merge_spec h l result_new r Hl Hr) as (h' & res & -> & _ & _ & Hids & Hm).
  exists h', res, (unit_merge lu ru). split_and!; [done| |by eapply Hm|].
  - rewrite Hids. apply elem_of_app. left. by apply lists_ids in Hli as [_ ?].
  - destruct (lists_stored h l lref i Hl Hli) as (u1 & Hu1 & _ & Hw1).
    destruct (lists_stored h r rref i Hr Hri) as (u2 & Hu2 & _ & Hw2).
    apply unit_merge_spec; congruence.
Qed.

Lemma wf_size h r : result_wf h r → size r = zlen (unitIds r).
Proof. intros [_ Hu%Forall2_length]. unfold size, zlen. by rewrite Hu. Qed.

(** What leaving out the [i]-th word is expected to find. *)
Definition proposal_of (sources : list SingleResult) (i : Z) : Proposal :=
  mkProposal i (zlen (merged_ids (delete (Z.to_nat i) sources))).

Lemma proposal_loop h sources :
  2 ≤ zlen sources → Forall (result_wf h) sources →
  ∃ h', ofold (proposal_step sources) (h, []) (seqZ 0 (zlen sources))
          = Ret (h', proposal_of sources <$> seqZ 0 (zlen sources)) ∧ stable h h'.
Proof.
  intros Hlen Hall.
  loop (λ (k : nat) (st : store * list Proposal), stable h st.1 ∧ st.2 = proposal_of sources <$> seqZ 0 (Z.of_nat k))
    as ([h' ps] & -> & Hst & Hps).
  - split; [apply stable_refl|done].
  - intros k x [h1 ps] Hk [Hst Hps]. cbn [fst snd] in *. apply lookup_seqZ in Hk as [-> Hk]. rewrite Z.add_0_l.
    unfold proposal_step. rewrite <- delete_take_drop.
    destruct (mergeResult_spec h1 (delete (Z.to_nat (Z.of_nat k)) sources)) as (h2 & r & -> & Hr & Hst2 & Hids).
    { intros Hnil. apply (f_equal length) in Hnil. rewrite length_delete in Hnil; [|apply lookup_lt_is_Some; unfold zlen in *; lia].
      cbn in Hnil. unfold zlen in Hlen. lia. }
    { apply Forall_delete. eapply Forall_impl; [exact Hall|]. intros y. by apply stable_wf. }
    cbn [mbind outcome_bind size_of_result]. eexists. split; [done|]. cbn [fst snd]. split; [by eapply stable_trans|].
    rewrite Hps, (wf_size h2) by done. rewrite Hids. replace (Z.of_nat (S k)) with (Z.of_nat k + 1) by lia.
    rewrite seqZ_app by lia. rewrite fmap_app. done.
  - exists h'. cbn [fst snd] in *. split; [|done]. rewrite Hps, length_seqZ.
    do 4 f_equal. pose proof (zlen_nonneg sources). lia.
Qed.

Lemma getProposal_spec h s (Hlen : 2 ≤ zlen (sourceResults s)) (Hwf : Forall (result_wf h) (sourceResults s)) :
  ∃ h' ps, getProposal h s = Ret (h', ps) ∧ Forall (result_wf h') (sourceResults s) ∧
    ps ≡ₚ proposal_of (sourceResults s) <$> seqZ 0 (zlen (sourceResults s)) ∧
    StronglySorted (λ a b, expect b ≤ expect a) ps.
Proof.
  destruct (proposal_loop h _ Hlen Hwf) as (h' & Hrun & Hst). unfold getProposal. rewrite Hrun. cbn [mbind outcome_bind].
  eexists h', _. split; [done|]. split_and!.
  - eapply Forall_impl; [exact Hwf|]. intros x. by apply stable_wf.
  - apply js_sort_perm.
  - eapply StronglySorted_impl, (js_sort_sorted _ (λ p, - expect p)); cbn; lia.
Qed.

(** for a query of at least two words the proposals say, for each word,
    how many units the query finds when that word is left out, and come with
    the most promising first. *)
Theorem proposals_correct h s (Hlen : 2 ≤ zlen (sourceResults s)) (Hwf : Forall (result_wf h) (sourceResults s)) :
  ∃ h' ps, getProposal h s = Ret (h', ps) ∧ Forall (result_wf h') (sourceResults s) ∧
    ps ≡ₚ proposal_of (sourceResults s) <$> seqZ 0 (zlen (sourceResults s)) ∧
    StronglySorted (λ a b, expect b ≤ expect a) ps.
Proof. by apply getProposal_spec. Qed.

(** with a single word there is nothing to leave out: [getProposal] asks
    for the size of a result that does not exist and throws. *)
Theorem proposal_single_throws h s r (Hone : sourceResults s = [r]) : getProposal h s = Throw "TypeError".
Proof. unfold getProposal. rewrite Hone. done. Qed.

(** ** The positions of a unit

    A unit is filled by calls of [addPosition], [unit_merge] among them.  What
    the calls say about a position, as pairs of a word and whether it was
    stemmed. *)

Definition said (calls : list Position) (p : Z) : list (jsstr * bool) :=
  omap (λ c, if decide (position c = p) then Some (word c, stemmed c) else None) calls.

(** What is to be recorded of them: the first of the longest words, and that it was
    stemmed only if all of them were. *)
Record recorded (calls : list Position) (o : Position) : Prop := {
  recorded_word : ∃ l1 st l2, said calls (position o) = l1 ++ (word o, st) :: l2 ∧
    Forall (λ c, zlen c.1 < zlen (word o)) l1 ∧ Forall (λ c, zlen c.1 ≤ zlen (word o)) l2;
  recorded_stemmed : stemmed o = forallb snd (said calls (position o));
}.

Definition filled (i : Z) (calls : list Position) : SearchUnit :=
  foldl (λ u c, addPosition u (word c) (position c) (stemmed c)) (unit_new i) calls.

Lemma unit_new_wf i : unit_wf (unit_new i).
Proof. split; [constructor|done|done]. Qed.

Lemma said_snoc calls c p :
  said (calls ++ [c]) p = said calls p ++ if decide (position c = p) then [(word c, stemmed c)] else [].
Proof. unfold said. rewrite omap_app. cbn [omap list_omap]. by case_decide. Qed.

Lemma recorded_join calls c o :
  recorded calls o → position c = position o → recorded (calls ++ [c]) (join_position o c).
Proof.
  intros [(l1 & st & l2 & Hs & H1 & H2) Hst] Hc. split; cbn [position word stemmed join_position]; rewrite said_snoc, (decide_True (P := position c = _)) by done.
  - rewrite Hs. case_decide as Hw.
    + exists (l1 ++ (word o, st) :: l2), (stemmed c), []. split; [done|]. split; [|constructor]. apply Forall_app. split.
      { eapply Forall_impl; [exact H1|]. simpl. lia. }
      constructor; [done|]. eapply Forall_impl; [exact H2|]. simpl. lia.
    + exists l1, st, (l2 ++ [(word c, stemmed c)]). split; [by rewrite <- app_assoc|]. split; [done|].
      apply Forall_app. split; [done|]. apply Forall_singleton. cbn. lia.
  - by rewrite forallb_app, Hst; cbn; rewrite andb_true_r.
Qed.

Lemma filled_spec i calls :
  unit_wf (filled i calls) ∧ id (filled i calls) = i ∧
  ∀ p, match unit_get (filled i calls) p with Some o => position o = p ∧ recorded calls o | None => said calls p = [] end.
Proof.
  induction calls as [|c calls (Hw & Hi & Hget)] using rev_ind; [split_and!; [apply unit_new_wf|done..]|].
  unfold filled in *. rewrite foldl_app. cbn [foldl]. set (u := foldl _ _ calls) in *.
  split_and!; [by apply addPosition_wf|by rewrite addPosition_id|]. intros p. specialize (Hget p). unfold unit_get in *.
  rewrite addPosition_get by done. destruct (IMap.get (positions u) p) as [o|]; case_decide as Hp; cbn [join].
  - destruct Hget as [Ho Hr]. split; [done|].
    replace (mkPosition (word c) (position c) (stemmed c)) with c by (by destruct c). apply recorded_join; congruence.
  - destruct Hget as [Ho [(l1 & st & l2 & Hs & H1 & H2) Hst]]. split; [done|].
    assert (said (calls ++ [c]) (position o) = said calls (position o)) as Heq by (rewrite said_snoc, decide_False by congruence; apply app_nil_r).
    split; rewrite Heq; [by exists l1, st, l2|done].
  - split; [done|]. split; cbn [position word stemmed]; rewrite said_snoc, Hp, Hget, (decide_True (P := p = p)) by done; [by exists [], (stemmed c), []|].
    cbn. by rewrite andb_true_r.
  - by rewrite said_snoc, Hget, decide_False.
Qed.

Lemma listed_sorted u : unit_wf u → StronglySorted (λ a b, position a < position b) (getPositions u).
Proof.
  intros Hu. assert (getPositions u ≡ₚ (positions u).*2) as Hp by apply js_sort_perm.
  pose proof (js_sort_sorted (λ a b, position a - position b) position (λ _ _, eq_refl) (positions u).*2) as Hs.
  fold (getPositions u) in Hs. assert (NoDup (position <$> getPositions u)) as Hnd.
  { rewrite Hp. assert (position <$> (positions u).*2 = IMap.keys (positions u)) as ->; [|apply IMap.wf_NoDup, Hu].
    unfold IMap.keys. rewrite <- list_fmap_compose. apply list_fmap_ext. intros k [p o] Hk. cbn.
    apply (uw_own _ Hu). apply IMap.get_elem_of; [apply Hu|]. by eapply list_elem_of_lookup_2. }
  clear Hp. induction Hs as [|a l Hl IH Hall]; [constructor|]. rewrite fmap_cons in Hnd.
  apply NoDup_cons in Hnd as [Ha Hnd]. constructor; [auto|]. rewrite Forall_forall in *. intros b Hb.
  specialize (Hall b Hb). cut (position a ≠ position b); [lia|]. intros Heq. apply Ha. rewrite Heq.
  by apply list_elem_of_fmap_2.
Qed.

Lemma elem_of_listed u o : unit_wf u → o ∈ getPositions u ↔ unit_get u (position o) = Some o.
Proof.
  intros Hu. assert (getPositions u ≡ₚ (positions u).*2) as Hp by apply js_sort_perm.
  unfold unit_get. rewrite Hp, IMap.get_elem_of, list_elem_of_fmap by apply Hu. split.
  - intros ([p o'] & -> & Hin). cbn. replace (position o') with p; [done|]. symmetry.
    apply (uw_own _ Hu), IMap.get_elem_of; [apply Hu|done].
  - intros Hin. by exists (position o, o).
Qed.

(** C36: after any calls of [addPosition] a new unit lists, in ascending order and each
    once, exactly the positions that were added, as many as its size says; of
    several calls for a position it keeps the first of the longest words, and
    counts it as stemmed only if all of them were. *)
Theorem positions_listed i calls (u := filled i calls) :
  StronglySorted (λ a b, position a < position b) (getPositions u) ∧
  zlen (getPositions u) = unit_size u ∧
  (∀ p, p ∈ position <$> getPositions u ↔ p ∈ position <$> calls) ∧
  ∀ o, o ∈ getPositions u → recorded calls o.
Proof.
  destruct (filled_spec i calls) as (Hw & _ & Hget). fold u in Hw, Hget. split_and!.
  - by apply listed_sorted.
  - unfold unit_size, getPositions. rewrite (uw_size _ Hw). unfold zlen. by rewrite (js_sort_perm _ _), length_fmap.
  - intros p. specialize (Hget p). assert (p ∈ position <$> calls ↔ said calls p ≠ []) as ->.
    { unfold said. clear. induction calls as [|c calls IH]; [set_solver|]. cbn [fmap list_fmap omap list_omap]. rewrite elem_of_cons, IH.
      case_decide; naive_solver. }
    rewrite list_elem_of_fmap. setoid_rewrite elem_of_listed; [|done]. destruct (unit_get u p) as [o|] eqn:Ho.
    + destruct Hget as [<- [(l1 & st & l2 & Hs & _) _]]. split; [|by intros _; exists o]. intros _. rewrite Hs. by destruct l1.
    + split; [|done]. intros (o & -> & Ho'). congruence.
  - intros o Ho%elem_of_listed; [|done]. specialize (Hget (position o)). rewrite Ho in Hget. apply Hget.
Qed.

Lemma stored_new h i : stored (h ++ [unit_new i]) (length h) i.
Proof. exists (unit_new i). rewrite list_lookup_middle by done. split_and!; [done..|apply unit_new_wf]. Qed.

Lemma stable_app h h' : stable h (h ++ h').
Proof. intros ref i (u & Hu & Hi & Hw). exists u. by rewrite lookup_app_l by (by eapply lookup_lt_Some). Qed.

(** Looking for a unit finds the one that is there or adds a new, empty one. *)
Lemma getSearchUnit_spec h r i :
  result_wf h r →
  ∃ h' r' ref, getSearchUnit h r i = Ret (h', r', ref) ∧ result_wf h' r' ∧ stable h h' ∧ lists r' ref i ∧
    unitIds r' = (if decide (i ∈ unitIds r) then unitIds r else unitIds r ++ [i]) ∧
    (∀ ref' j, lists r' ref' j → j ≠ i → lists r ref' j ∧ h' !! ref' = h !! ref') ∧
    (h' !! ref = if decide (i ∈ unitIds r) then h !! ref else Some (unit_new i)) ∧
    (∀ ref' j, lists r ref' j → lists r' ref' j).
Proof.
  intros Hr. unfold getSearchUnit. destruct (decide (i ∈ unitIds r)) as [Hi|Hi].
  - rewrite decide_False by (rewrite indexOf_none; naive_solver).
    destruct (lists_index h r i Hr Hi) as (ref & -> & Hl). exists h, r, ref. split_and!; [done|done|apply stable_refl|done..].
  - rewrite decide_True by (by rewrite indexOf_none). set (h' := h ++ [unit_new i]).
    change (mkResult (units r ++ [length h]) _ _ _ _) with (keep r i (length h)).
    assert (stable h h') as Hst by apply stable_app. pose proof (stable_wf _ _ _ Hst Hr) as Hr'.
    exists h', (keep r i (length h)), (length h). split_and!; [done| |done| |done| | |].
    + apply keep_wf; [done..|apply stored_new].
    + rewrite (lists_keep h') by done. by right.
    + intros ref' j [Hj|[-> ->]]%(lists_keep h') Hne; [|done..]. split; [done|].
      destruct (lists_stored h r ref' j Hr Hj) as (u & Hu & _). apply lookup_app_l. by eapply lookup_lt_Some.
    + by apply list_lookup_middle.
    + intros ref' j Hj. rewrite (lists_keep h') by done. by left.
Qed.

(** The flags of a result stay as its query set them. *)
Definition same_flags (r r' : SingleResult) : Prop := or r' = or r ∧ not r' = not r.

Lemma getSearchUnit_flags h r i h' r' ref : getSearchUnit h r i = Ret (h', r', ref) → same_flags r r'.
Proof.
  unfold getSearchUnit, same_flags. case_decide; [by intros [= _ <- _]|].
  destruct (aget (units r) _); [|done]. by intros [= _ <- _].
Qed.

(** ** Instances *)

Definition sample_store : store :=
  [ addPosition (unit_new 1) (jstr "a") 3 false; addPosition (unit_new 2) (jstr "a") 4 true;
    addPosition (unit_new 2) (jstr "ab") 4 false; addPosition (unit_new 5) (jstr "ab") 0 false ].
Definition sample_left : SingleResult := mkResult [0%nat; 1%nat] [1; 2] false false (jstr "a").
Definition sample_right : SingleResult := mkResult [2%nat; 3%nat] [2; 5] true false (jstr "ab").

Ltac sample_wf :=
  split; [by apply (bool_decide_unpack _)
         |repeat constructor; eexists; (split; [reflexivity|]); (split; [reflexivity|]); apply addPosition_wf, unit_new_wf].

Lemma sample_left_wf : result_wf sample_store sample_left.
Proof. sample_wf. Qed.
Lemma sample_right_wf : result_wf sample_store sample_right.
Proof. sample_wf. Qed.

Lemma sample_all_wf : Forall (result_wf sample_store) [sample_left; sample_right].
Proof. rewrite !Forall_cons. split_and!; [apply sample_left_wf|apply sample_right_wf|constructor]. Qed.

Lemma merge_results_witness :
  ∃ h' r, mergeResult sample_store [sample_left; sample_right] = Ret (h', Some r) ∧ unitIds r = [1; 2; 5].
Proof.
  destruct (merge_results sample_store [sample_left; sample_right]) as (h' & r & Hrun & _ & Hids & _).
  - done.
  - apply sample_all_wf.
  - exists h', r. split; [exact Hrun|]. rewrite Hids. reflexivity.
Defined.

Lemma or_merge_joins_witness :
  ∃ h' res u, merge sample_store sample_left sample_right = Ret (h', res) ∧ h' !! 1%nat = Some u ∧
    unit_get u 4 = Some (mkPosition (jstr "ab") 4 false).
Proof.
  destruct (or_merge_joins sample_store sample_left sample_right 1 2 2
    (addPosition (unit_new 2) (jstr "a") 4 true) (addPosition (unit_new 2) (jstr "ab") 4 false)
    sample_left_wf sample_right_wf) as (h' & res & u & Hrun & _ & Hu & Hget).
  - reflexivity.
  - right. left.
  - left.
  - by apply (bool_decide_unpack _).
  - reflexivity.
  - reflexivity.
  - exists h', res, u. split; [exact Hrun|]. split; [exact Hu|]. rewrite Hget. reflexivity.
Defined.

Lemma proposals_correct_witness :
  ∃ h' ps, getProposal sample_store (mkSummary [sample_left; sample_right] None) = Ret (h', ps) ∧
    ps ≡ₚ [mkProposal 0 2; mkProposal 1 2].
Proof.
  destruct (proposals_correct sample_store (mkSummary [sample_left; sample_right] None)) as (h' & ps & Hrun & _ & Hps & _).
  - done.
  - apply sample_all_wf.
  - exists h', ps. split; [exact Hrun|]. rewrite Hps. reflexivity.
Defined.

Lemma proposal_single_throws_witness :
  getProposal sample_store (mkSummary [sample_left] None) = Throw "TypeError".
Proof. apply (proposal_single_throws sample_store (mkSummary [sample_left] None) sample_left). reflexivity. Defined.

End SR.
