(* ===== verification/Text.v ===== *)
(** * The text of the search engine

    Models the part of [src/misc/oktavia/src/oktavia.jsx] that holds the text: the
    characters are renumbered in the order of their first use, and the index is
    built over those codes.  The record [Text.t] has the fields [_fmindex],
    [_utf162compressCode] and [_compressCode2utf16] of the class [Oktavia]; the
    other fields are added in [Oktavia]. *)

From Stdlib Require QArith_base.
From S2P Require Import Prelude JsObject Suffixes BurrowsWheeler FMIndex Lang.

Local Open Scope Z_scope.

Module Text.

Definition eof : jsstr := fromCharCode 0.
Definition eob : jsstr := fromCharCode 1.
Definition unknown : jsstr := fromCharCode 3.

(** [_utf162compressCode] is a sparse array: the object of its defined slots. *)
Record t := mk {
  _fmindex : FM.t;
  _utf162compressCode : list (Z * jsstr);
  _compressCode2utf16 : list jsstr;
}.

Definition new : t := mk FM.new [(0, eof); (1, eob); (2, unknown)] [eof; eob; unknown].

Definition addEndOfBlock (p : t) : outcome t :=
  fm ← FM.push (_fmindex p) eob;
  Ret (mk fm (_utf162compressCode p) (_compressCode2utf16 p)).

(** The body of the loop of [addWord], on the tables and the codes so far. *)
Definition register (st : list (Z * jsstr) * list jsstr * list Z) (charCode : Z)
    : list (Z * jsstr) * list jsstr * list Z :=
  let '(toCode, fromCode, str) := st in
  match IMap.get toCode charCode with
  | Some newCharCode => (toCode, fromCode, str ++ newCharCode)
  | None =>
    let newCharCode := fromCharCode (zlen fromCode) in
    (IMap.put toCode charCode newCharCode, fromCode ++ [fromCharCode charCode], str ++ newCharCode)
  end.

Definition addWord (p : t) (words : jsstr) : outcome t :=
  let '(toCode, fromCode, str) := foldl register (_utf162compressCode p, _compressCode2utf16 p, []) words in
  fm ← FM.push (_fmindex p) str;
  Ret (mk fm toCode fromCode).

Definition _convertToCompressionCode (p : t) (keyword : jsstr) : jsstr :=
  concat ((λ c, default unknown (IMap.get (_utf162compressCode p) c)) <$> keyword).

(** A density in percent; numbers are exact. *)
Definition number : Type := QArith_base.Q.
Definition percent (n : Z) : number := QArith_base.Qmake n 1.

(** The distance of two checkpoints. *)
Definition cacheRange (cacheDensity : number) : Z :=
  let n := QArith_base.Qnum cacheDensity in let d := Z.pos (QArith_base.Qden cacheDensity) in
  if decide (100 * n ≤ d) then 10000
  else if decide (100 * d ≤ n) then 1
  else (200 * d + n) / (2 * n).

(** [build], without the metadata. *)
Definition build (p : t) (cacheDensity : number) : outcome t :=
  fm ← FM.build (_fmindex p) eof (zlen (_compressCode2utf16 p)) (cacheRange cacheDensity);
  Ret (mk fm (_utf162compressCode p) (_compressCode2utf16 p)).

Definition contentSize (p : t) : Z := FM.contentSize (_fmindex p).

Definition isWordChar (c : Z) : bool := Lang.isWord c.

Definition wordPositionType (p : t) (position : Z) : outcome Z :=
  if decide (position = 0) then Ret 4
  else
    ahead ← FM.getSubstring (_fmindex p) (position - 1) 1;
    Ret (if existsb Lang.isSpace ahead then 2
         else if existsb (λ c, negb (isWordChar c)) ahead then 1
         else if decide (eob = ahead) then 3
         else 0).

(** A code without an entry adds nothing, as [join] skips [undefined]. *)
Definition _getSubstring (p : t) (position length : Z) : outcome jsstr :=
  result ← FM.getSubstring (_fmindex p) position length;
  Ret (concat ((λ c, default [] (aget (_compressCode2utf16 p) c)) <$> result)).

(** ** The codes *)

(** The tables after the characters [chars] were registered, in that order. *)
Record coded (toCode : list (Z * jsstr)) (fromCode : list jsstr) (chars : list Z) : Prop := {
  coded_chars : Forall (λ c, 3 ≤ c < 65536) chars;
  coded_nodup : NoDup chars;
  coded_from : fromCode = [eof; eob; unknown] ++ ((λ c, [c]) <$> chars);
  coded_to c : IMap.get toCode c =
    if decide (c = 0) then Some [0] else if decide (c = 1) then Some [1] else if decide (c = 2) then Some [3]
    else if decide (c ∈ chars) then Some [3 + indexOf chars c] else None;
}.

(** What a text may hold besides registered characters: ends of blocks. *)
Definition code (chars : list Z) (c : Z) : Z := if decide (c = 1) then 1 else 3 + indexOf chars c.

Definition plain (c : Z) : Prop := 3 ≤ c < 65536.

(** Distinct characters from [3] up are fewer than the codes. *)
Lemma chars_bound chars : Forall plain chars → NoDup chars → zlen chars ≤ 65533.
Proof.
  intros Hc Hnd. assert (length chars ≤ length (seqZ 3 65533))%nat as Hle.
  { apply NoDup_incl_length; [by apply NoDup_ListNoDup|]. intros c Hin. apply list_elem_of_In.
    rewrite elem_of_seqZ. apply list_elem_of_In in Hin. rewrite Forall_forall in Hc. specialize (Hc c Hin).
    unfold plain in Hc. lia. }
  rewrite length_seqZ in Hle. unfold zlen. lia.
Qed.

Lemma new_coded : coded (_utf162compressCode new) (_compressCode2utf16 new) [].
Proof.
  split; [done|constructor|done|]. intros c. cbn. repeat case_decide; try done; try lia. set_solver.
Qed.

(** Registering the characters of a word: the ones not seen before are added. *)
Definition extend (chars : list Z) (c : Z) : list Z := if decide (c ∈ chars) then chars else chars ++ [c].

Lemma extend_prefix chars w : chars `prefix_of` foldl extend chars w.
Proof.
  revert chars. induction w as [|c w IH]; intros chars; [done|]. cbn [foldl]. etrans; [|apply IH].
  unfold extend. case_decide; [done|]. by apply prefix_app_r.
Qed.

Lemma extend_elem chars w c : c ∈ foldl extend chars w ↔ c ∈ chars ∨ c ∈ w.
Proof.
  revert chars. induction w as [|x w IH]; intros chars; cbn [foldl]; [rewrite elem_of_nil; tauto|].
  rewrite IH, elem_of_cons. unfold extend. case_decide; [naive_solver|]. rewrite elem_of_app, list_elem_of_singleton. naive_solver.
Qed.

Lemma code_prefix chars chars' c : chars `prefix_of` chars' → c = 1 ∨ c ∈ chars → code chars' c = code chars c.
Proof.
  intros [l ->] Hc. unfold code. case_decide; [done|]. destruct Hc as [?|Hc]; [done|]. by rewrite indexOf_app_l.
Qed.

Lemma coded_snoc toCode fromCode chars c :
  coded toCode fromCode chars → plain c → c ∉ chars →
  coded (IMap.put toCode c (fromCharCode (zlen fromCode))) (fromCode ++ [fromCharCode c]) (chars ++ [c]) ∧
  fromCharCode (zlen fromCode) = [code (chars ++ [c]) c].
Proof.
  intros [Hch Hnd Hfrom Hto] Hc Hin. unfold plain in Hc.
  assert (zlen fromCode = 3 + zlen chars) as Hlen by (rewrite Hfrom, zlen_app, zlen_fmap; done).
  pose proof (zlen_nonneg chars).
  assert (Forall plain (chars ++ [c])) as Hch' by (apply Forall_app; split; [done|by apply Forall_singleton]).
  assert (NoDup (chars ++ [c])) as Hnd'.
  { apply NoDup_app. split_and!; [done| |apply NoDup_singleton]. intros x Hx ->%list_elem_of_singleton. done. }
  pose proof (chars_bound _ Hch' Hnd') as Hb. rewrite zlen_app in Hb. change (zlen [c]) with 1 in Hb.
  unfold fromCharCode, code. rewrite Hlen. rewrite (to_uint16_small c), (to_uint16_small (3 + zlen chars)) by lia.
  rewrite indexOf_new by done. rewrite (decide_False (P := c = 1)) by lia. split; [|done]. split; [done|done| |].
  - rewrite Hfrom, fmap_app, app_assoc. done.
  - intros d. rewrite IMap.get_iput, Hto. destruct (decide (c = d)) as [<-|Hne].
    + rewrite !decide_False by lia. rewrite decide_True by (apply elem_of_app; right; left). by rewrite indexOf_new.
    + repeat (case_decide; [done|]). destruct (decide (d ∈ chars)) as [Hd|Hd].
      * rewrite decide_True by (apply elem_of_app; by left). by rewrite indexOf_app_l.
      * rewrite decide_False; [done|]. rewrite elem_of_app, list_elem_of_singleton. naive_solver.
Qed.

Lemma register_coded toCode fromCode str chars c :
  coded toCode fromCode chars → plain c →
  ∃ toCode' fromCode', register (toCode, fromCode, str) c = (toCode', fromCode', str ++ [code (extend chars c) c]) ∧
    coded toCode' fromCode' (extend chars c).
Proof.
  intros Hk Hc. pose proof Hc as Hc'. unfold plain in Hc'. unfold register. rewrite (coded_to _ _ _ Hk).
  rewrite !decide_False by lia. unfold extend. destruct (decide (c ∈ chars)) as [Hin|Hin].
  - eexists _, _. unfold code. by rewrite (decide_False (P := c = 1)) by lia.
  - destruct (coded_snoc _ _ _ c Hk Hc Hin) as [Hk' Hcode].
    eexists _, _. split; [|exact Hk']. by rewrite <- Hcode.
Qed.

Lemma register_word toCode fromCode str chars w :
  coded toCode fromCode chars → Forall plain w →
  ∃ toCode' fromCode', foldl register (toCode, fromCode, str) w
      = (toCode', fromCode', str ++ (code (foldl extend chars w) <$> w)) ∧
    coded toCode' fromCode' (foldl extend chars w).
Proof.
  intros Hk Hw. revert toCode fromCode str chars Hk. induction Hw as [|c w Hc Hw IH]; intros toCode fromCode str chars Hk.
  { eexists _, _. cbn. by rewrite app_nil_r. }
  cbn [foldl]. destruct (register_coded toCode fromCode str chars c Hk Hc) as (to1 & from1 & -> & Hk1).
  destruct (IH to1 from1 (str ++ [code (extend chars c) c]) (extend chars c) Hk1) as (to2 & from2 & Hrun & Hk2).
  exists to2, from2. split; [|done]. etrans; [exact Hrun|]. rewrite <- app_assoc. cbn [fmap list_fmap app]. do 3 f_equal.
  symmetry. apply code_prefix; [apply extend_prefix|]. right. unfold extend. case_decide; [done|].
  apply elem_of_app. right. left.
Qed.

(** ** Adding text *)

(** The text before it is indexed: [T], with [1] for the end of a block. *)
Record holds (p : t) (chars T : list Z) : Prop := {
  holds_coded : coded (_utf162compressCode p) (_compressCode2utf16 p) chars;
  holds_text : Forall (λ c, c = 1 ∨ c ∈ chars) T;
  holds_index : _fmindex p = FM.mk (code chars <$> T) 0 0 0 (FM._sv FM.new) [] [] [];
}.

Lemma new_holds : holds new [] [].
Proof. split; [apply new_coded|constructor|done]. Qed.

Lemma contentSize_holds p chars T : holds p chars T → contentSize p = zlen T.
Proof. intros [_ _ Hf]. unfold contentSize, FM.contentSize. rewrite Hf. cbn. apply zlen_fmap. Qed.

Lemma addWord_holds p chars T w :
  holds p chars T → Forall plain w → w ≠ [] →
  ∃ p', addWord p w = Ret p' ∧ holds p' (foldl extend chars w) (T ++ w).
Proof.
  intros [Hk Ht Hf] Hw Hne. unfold addWord.
  destruct (register_word _ _ [] chars w Hk Hw) as (toCode & fromCode & -> & Hk').
  unfold FM.push. rewrite Hf. cbn [FM._substr FM._ddic FM._ssize FM._head FM._sv FM._posdic FM._idic FM._rlt app].
  rewrite decide_False by (rewrite zlen_fmap; destruct w; [done|]; rewrite zlen_cons; pose proof (zlen_nonneg w); lia).
  cbn [mbind outcome_bind]. eexists. split; [done|]. split; cbn [_utf162compressCode _compressCode2utf16 _fmindex].
  - done.
  - apply Forall_app. split; [eapply Forall_impl; [exact Ht|]|apply Forall_forall]; cbn; intros c; rewrite extend_elem; tauto.
  - rewrite fmap_app. f_equal. f_equal. rewrite Forall_forall in Ht. apply list_fmap_ext. intros k c Hk0. symmetry.
    apply code_prefix; [apply extend_prefix|]. apply Ht. by eapply list_elem_of_lookup_2.
Qed.

Lemma addEndOfBlock_holds p chars T :
  holds p chars T → ∃ p', addEndOfBlock p = Ret p' ∧ holds p' chars (T ++ [1]).
Proof.
  intros [Hk Ht Hf]. unfold addEndOfBlock, FM.push. rewrite Hf. cbn [mbind outcome_bind]. eexists. split; [done|].
  split; cbn; [done| |by rewrite fmap_app]. apply Forall_app. split; [done|]. apply Forall_singleton. by left.
Qed.

(** ** The text once it is indexed *)

Record indexed (p : t) (chars T : list Z) (M ddic : Z) : Prop := {
  indexed_coded : coded (_utf162compressCode p) (_compressCode2utf16 p) chars;
  indexed_text : Forall (λ c, c = 1 ∨ c ∈ chars) T;
  indexed_max : 3 + zlen chars ≤ M;
  indexed_ddic : FM._ddic (_fmindex p) = ddic;
  indexed_repr : ∃ sa, FM.repr (_fmindex p) ((code chars <$> T) ++ [0]) sa M;
}.

Lemma cacheRange_bounds d : 1 ≤ cacheRange d < 2 ^ 31.
Proof.
  destruct d as [n d]. unfold cacheRange. cbn [QArith_base.Qnum QArith_base.Qden]. case_decide; [lia|]. case_decide; [lia|]. split.
  - apply Z.div_le_lower_bound; lia.
  - assert ((200 * Z.pos d + n) / (2 * n) ≤ 10001) by (apply Z.div_le_upper_bound; lia). lia.
Qed.

Lemma char_code_range chars c : c = 1 ∨ c ∈ chars → 0 < code chars c < 3 + zlen chars.
Proof.
  pose proof (zlen_nonneg chars). unfold code. intros Hc. case_decide; [lia|]. destruct Hc as [?|Hc]; [done|].
  pose proof (indexOf_range chars c Hc). lia.
Qed.

Lemma code_inj chars c d : c = 1 ∨ c ∈ chars → d = 1 ∨ d ∈ chars → code chars c = code chars d → c = d.
Proof.
  unfold code. intros Hc Hd. repeat case_decide; [congruence|..]; intros Heq.
  - destruct Hd as [?|Hd%indexOf_range]; [done|lia].
  - destruct Hc as [?|Hc%indexOf_range]; [done|lia].
  - destruct Hc as [?|Hc]; [done|]. destruct Hd as [?|Hd]; [done|]. apply (indexOf_inj chars); [done..|lia].
Qed.

Lemma map_code_inj chars l1 l2 :
  Forall (λ c, c = 1 ∨ c ∈ chars) l1 → Forall (λ c, c = 1 ∨ c ∈ chars) l2 →
  code chars <$> l1 = code chars <$> l2 ↔ l1 = l2.
Proof.
  intros H1 H2. split; [|by intros ->]. revert l2 H2. induction H1 as [|c l1 Hc _ IH]; intros [|d l2] H2 Heq; [done..|].
  apply Forall_cons in H2 as [Hd H2]. injection Heq as Heq1 Heq2. f_equal; [by apply (code_inj chars)|by apply IH].
Qed.

Lemma build_indexed p chars T d :
  holds p chars T → T ≠ [] → zlen T < 2 ^ 31 - 2 →
  ∃ p', build p d = Ret p' ∧ indexed p' chars T (3 + zlen chars) (cacheRange d) ∧
    _utf162compressCode p' = _utf162compressCode p ∧ _compressCode2utf16 p' = _compressCode2utf16 p.
Proof.
  intros [Hk Ht Hf] Hne Hlen. pose proof (chars_bound _ (coded_chars _ _ _ Hk) (coded_nodup _ _ _ Hk)).
  pose proof (zlen_nonneg chars). pose proof (cacheRange_bounds d).
  destruct (FM.index_repr [code chars <$> T] (3 + zlen chars) (cacheRange d)) as (fm & sa & Hfm & Hr & Hd).
  { split; [done|..|lia|lia].
    - intros doc ->%list_elem_of_singleton. by destruct T.
    - intros doc c ->%list_elem_of_singleton Hc. apply list_elem_of_fmap in Hc as (x & -> & Hx).
      apply char_code_range. rewrite Forall_forall in Ht. by apply Ht.
    - cbn [concat]. by rewrite app_nil_r, zlen_fmap. }
  unfold FM.index in Hfm. rewrite FM.push_docs in Hfm by (intros doc ->%list_elem_of_singleton; by destruct T).
  cbn [concat] in Hfm, Hr. rewrite app_nil_r in Hfm, Hr.
  unfold build. assert (zlen (_compressCode2utf16 p) = 3 + zlen chars) as ->.
  { rewrite (coded_from _ _ _ Hk), zlen_app, zlen_fmap. done. }
  rewrite Hf. change eof with BWT.END_MARKER.
  cbn [FM.new FM._substr FM._ddic FM._ssize FM._head FM._sv FM._posdic FM._idic FM._rlt app mbind outcome_bind] in Hfm.
  cbn [FM.new FM._sv]. rewrite Hfm. cbn [mbind outcome_bind]. eexists. split; [done|]. split; [|done].
  split; cbn; [done|done|lia|done|by exists sa].
Qed.

(** The characters of a keyword as the codes see them: one that no text has
    shares its code with the first character that was registered. *)
Definition seen_as (chars : list Z) (c : Z) : Z := if decide (c ∈ chars) then c else default 3 (head chars).

Lemma convert_codes p chars key :
  coded (_utf162compressCode p) (_compressCode2utf16 p) chars → chars ≠ [] → Forall plain key →
  _convertToCompressionCode p key = code chars <$> (seen_as chars <$> key).
Proof.
  intros Hk Hne Hkey. unfold _convertToCompressionCode. induction Hkey as [|c key Hc _ IH]; [done|].
  unfold plain in Hc. cbn [fmap list_fmap concat]. rewrite IH, (coded_to _ _ _ Hk), !decide_False by lia.
  unfold seen_as, code. destruct (decide (c ∈ chars)) as [Hin|Hin]; cbn [default from_option app].
  - by rewrite (decide_False (P := c = 1)) by lia.
  - destruct chars as [|x chars]; [done|]. cbn [head default from_option]. pose proof (coded_chars _ _ _ Hk) as Hch.
    apply Forall_cons in Hch as [Hx _]. rewrite (decide_False (P := x = 1)) by lia.
    unfold indexOf. cbn [index_from]. by rewrite decide_True.
Qed.

Lemma seen_as_in chars c : chars ≠ [] → seen_as chars c ∈ chars.
Proof. intros Hne. unfold seen_as. case_decide; [done|]. destruct chars; [done|]. left. Qed.

(** Searching for registered characters. *)
Lemma search_indexed p chars T M ddic key :
  indexed p chars T M ddic → key ≠ [] → Forall (λ c, c = 1 ∨ c ∈ chars) key → (code chars <$> list.last key) ≠ Some (M - 1) →
  ∃ ps, FM.search (_fmindex p) (code chars <$> key) = Ret ps ∧ NoDup ps ∧
    ∀ k, k ∈ ps ↔ 0 ≤ k ∧ take (length key) (drop (Z.to_nat k) T) = key.
Proof.
  intros [Hk Ht HM Hd (sa & Hr)] Hne Hkey Hlast.
  destruct (FM.found_repr (_fmindex p) (code chars <$> T) sa M (code chars <$> key) Hr) as (ps & Hs & Hnd & Hps).
  - by destruct key.
  - apply Forall_fmap. eapply Forall_impl; [exact Hkey|]. intros c Hc. by apply char_code_range.
  - by rewrite fmap_last.
  - exists ps. split_and!; [done|done|]. intros k. rewrite Hps, length_fmap, <- fmap_drop, <- fmap_take.
    rewrite map_code_inj; [done| |done]. by apply Forall_take, Forall_drop.
Qed.

(** Decoding. *)
Lemma decode_codes p chars l :
  coded (_utf162compressCode p) (_compressCode2utf16 p) chars → Forall (λ c, c = 1 ∨ c ∈ chars) l →
  concat ((λ c, default [] (aget (_compressCode2utf16 p) c)) <$> (code chars <$> l)) = l.
Proof.
  intros Hk Hl. rewrite (coded_from _ _ _ Hk). induction Hl as [|c l Hc _ IH]; [done|].
  cbn [fmap list_fmap concat]. rewrite IH. unfold code. case_decide as H1; [by subst|]. destruct Hc as [?|Hc]; [done|].
  pose proof (indexOf_range chars c Hc). rewrite aget_app_r by (change (zlen [eof; eob; unknown]) with 3; lia).
  change (zlen [eof; eob; unknown]) with 3. replace (3 + indexOf chars c - 3) with (indexOf chars c) by lia.
  rewrite aget_fmap, indexOf_spec by done. done.
Qed.

Lemma substring_indexed p chars T M ddic pos len :
  indexed p chars T M ddic → 0 ≤ pos → 0 ≤ len → pos + len ≤ zlen T → FM.next_checkpoint ddic (pos + len) ≤ zlen T →
  _getSubstring p pos len = Ret (take (Z.to_nat len) (drop (Z.to_nat pos) T)).
Proof.
  intros [Hk Ht HM Hd (sa & Hr)] Hpos Hlen Hle Hc. unfold _getSubstring.
  assert (zlen ((code chars <$> T) ++ [0]) = zlen T + 1) as HT by (rewrite zlen_app, zlen_fmap; done).
  rewrite (FM.getSubstring_near (_fmindex p) _ sa M Hr pos len); rewrite ?HT; [|lia..|].
  - cbn [mbind outcome_bind]. f_equal. rewrite drop_app_le by (rewrite length_fmap; unfold zlen in *; lia).
    rewrite take_app_le by (rewrite length_drop, length_fmap; unfold zlen in *; lia).
    rewrite <- fmap_drop, <- fmap_take. apply decode_codes; [done|]. by apply Forall_take, Forall_drop.
  - rewrite Z.min_l by lia. unfold FM.checkpoint. rewrite Hd. unfold FM.next_checkpoint in Hc. lia.
Qed.
(** Where the checkpoint after the end of a substring lies past the text, what is read
    lies [shift] characters before it, around the end of the text. *)
Definition shifted (T : list Z) (ddic pos len : Z) : list Z :=
  let shift := FM.next_checkpoint ddic (pos + len) - (zlen T - 1) in
  (λ q, default 0 (aget (T ++ [0]) ((q - shift) mod (zlen T + 1)))) <$> seqZ pos len.

Lemma decode_at p chars T i :
  coded (_utf162compressCode p) (_compressCode2utf16 p) chars → Forall (λ c, c = 1 ∨ c ∈ chars) T → 0 ≤ i < zlen T + 1 →
  default [] (aget (_compressCode2utf16 p) (default 0 (aget ((code chars <$> T) ++ [0]) i))) = [default 0 (aget (T ++ [0]) i)].
Proof.
  intros Hk Ht Hi. destruct (decide (i < zlen T)) as [Hlt|Hge].
  - rewrite !aget_app_l by (rewrite ?zlen_fmap; done). rewrite aget_fmap. destruct (aget_is_Some T i) as [c Hc]; [lia|]. rewrite Hc.
    cbn [fmap option_fmap option_map default from_option id].
    pose proof (decode_codes p chars [c] Hk) as Hd. cbn [fmap list_fmap concat] in Hd. rewrite app_nil_r in Hd. apply Hd.
    apply Forall_singleton. rewrite Forall_forall in Ht. apply Ht. by eapply aget_elem_of.
  - rewrite !aget_app_r by (rewrite ?zlen_fmap; lia). rewrite zlen_fmap. replace (i - zlen T) with 0 by lia.
    by rewrite (coded_from _ _ _ Hk).
Qed.

Lemma substring_past p chars T M ddic pos len :
  indexed p chars T M ddic → 0 ≤ pos → 0 ≤ len → pos + len ≤ zlen T → zlen T < FM.next_checkpoint ddic (pos + len) →
  _getSubstring p pos len = Ret (shifted T ddic pos len).
Proof.
  intros [Hk Ht HM Hd (sa & Hr)] Hpos Hlen Hle Hc. unfold _getSubstring.
  assert (zlen ((code chars <$> T) ++ [0]) = zlen T + 1) as HT by (rewrite zlen_app, zlen_fmap; done).
  assert (∀ e, FM.checkpoint (_fmindex p) e = FM.next_checkpoint ddic e) as He.
  { intros e. unfold FM.checkpoint, FM.next_checkpoint. by rewrite Hd. }
  rewrite (FM.getSubstring_far (_fmindex p) _ sa M Hr pos len); rewrite ?HT, ?Z.min_l, ?He by lia; [|lia..].
  cbn [mbind outcome_bind]. f_equal. unfold shifted. replace (pos + len - pos) with len by lia.
  replace (zlen T + 1 - 2) with (zlen T - 1) by lia. set (shift := _ - (zlen T - 1)).
  induction (seqZ pos len) as [|q qs IH]; [done|]. cbn [fmap list_fmap concat]. rewrite IH. unfold FM.text_at. rewrite HT.
  rewrite (decode_at p chars T); [done..|]. apply Z.mod_pos_bound. pose proof (zlen_nonneg T). lia.
Qed.
End Text.
