(* ===== verification/Metadata.v ===== *)
(** * Metadata: how the text is divided

    Models the base class of [src/misc/oktavia/src/metadata.jsx].  Each kind of
    metadata is a bit vector over the text that marks where its parts end.  The
    base class is the type class [Meta.Metadata], with the methods the four
    subclasses override; a method that asks its parent object for the text gets
    the parent's text as an argument. *)

From stdpp Require Import pretty.
From S2P Require Import Prelude JsObject Binary BitVector FMIndex Text SearchResult.

Local Open Scope Z_scope.

Module Meta.

Definition report := option Bin.CompressionReport.

(** [Metadata]: the bit vector and the methods that the subclasses override. *)
Class Metadata (M : Type) := {
  _bitVector : M → BV.t;
  _build : M → M;
  grouping : M → SR.store → SR.SingleResult → list Z → jsstr → bool → outcome (SR.store * SR.SingleResult);
  getInformation : M → Z → outcome jsstr;
  _dump : M → report → outcome (jsstr * report);
}.

(** The methods that are inherited, on the bit vector. *)
Definition _size (bv : BV.t) : outcome Z := BV.rank bv (BV.size bv) true.

(** [index < 0 || this._size() <= index] *)
Definition check_index (bv : BV.t) (index : Z) : outcome () :=
  let error := Throw ("Section.getContent() : range error " +:+ pretty index) in
  if decide (index < 0) then error
  else n ← _size bv; if decide (n <= index) then error else Ret ().

Definition getStartPosition (bv : BV.t) (index : Z) : outcome Z :=
  _ ← check_index bv index;
  if decide (index > 0) then p ← BV.select bv (index - 1) true; Ret (p + 1) else Ret 0.

Definition getContent (p : Text.t) (bv : BV.t) (index : Z) : outcome jsstr :=
  _ ← check_index bv index;
  startPosition ← (if decide (index > 0) then p ← BV.select bv (index - 1) true; Ret (p + 1) else Ret 0);
  last ← BV.select bv index true;
  Text._getSubstring p startPosition (last - startPosition + 1).

Definition base_dump (bv : BV.t) (r : report) : outcome (jsstr * report) := BV.dump bv r.
Definition base_load (data : jsstr) (offset : Z) : outcome (BV.t * Z) := BV.load BV.new data offset.

(** The loop of [grouping], for sections and splitters. *)
Definition group_step (bv : BV.t) (getIndex : Z → outcome Z) (word : jsstr) (stemmed : bool)
    (st : SR.store * SR.SingleResult) (position : Z) : outcome (SR.store * SR.SingleResult) :=
  let '(h, result) := st in
  index ← getIndex position;
  '(h, result, ref) ← SR.getSearchUnit h result index;
  unit ← of_option (h !! ref);
  unit ← (if decide (SR.startPosition unit < 0) then
            s ← getStartPosition bv index;
            Ret (SR.mkUnit (SR.positions unit) (SR.id unit) (SR._size unit) (SR.score unit) s)
          else Ret unit);
  Ret (<[ref := SR.addPosition unit word (position - SR.startPosition unit) stemmed]> h, result).

(** ** The marks in the text *)

(** How many of the marks [es] come before a position. *)
Definition below (es : list Z) (p : Z) : Z := zlen (filter (λ e, e < p) es).

Lemma below_nonneg es p : 0 ≤ below es p.
Proof. apply zlen_nonneg. Qed.

Lemma below_all es p : Forall (λ e, e < p) es → below es p = zlen es.
Proof. intros H. unfold below. by rewrite filter_all. Qed.

Lemma below_none es p : Forall (λ e, p ≤ e) es → below es p = 0.
Proof. intros H. unfold below. rewrite filter_none; [done|]. eapply Forall_impl; [exact H|]. simpl. lia. Qed.

Lemma below_le es p : below es p ≤ zlen es.
Proof. unfold below, zlen. pose proof (length_filter (λ e, e < p) es). lia. Qed.

Lemma below_app es1 es2 p : below (es1 ++ es2) p = below es1 p + below es2 p.
Proof. unfold below. by rewrite filter_app, zlen_app. Qed.

Lemma below_mono es p q : p ≤ q → below es p ≤ below es q.
Proof.
  intros Hpq. induction es as [|e es IH]; [done|]. change (e :: es) with ([e] ++ es). rewrite !below_app.
  assert (below [e] p ≤ below [e] q); [|lia]. unfold below. rewrite !filter_cons. repeat case_decide; try done; lia.
Qed.

Lemma below_step es n :
  StronglySorted Z.lt es → below es (n + 1) = below es n + if bool_decide (n ∈ es) then 1 else 0.
Proof.
  induction 1 as [|e es Hs IH Hall]; [done|]. change (e :: es) with ([e] ++ es). rewrite !below_app, IH.
  destruct (decide (n = e)) as [->|Hne].
  - rewrite (bool_decide_eq_true_2 (e ∈ [e] ++ es)) by left. rewrite bool_decide_eq_false_2.
    + rewrite (below_all [e] (e + 1)), (below_none [e] e) by (repeat constructor; lia). change (zlen [e]) with 1. lia.
    + intros Hin. rewrite Forall_forall in Hall. specialize (Hall e Hin). lia.
  - assert (below [e] (n + 1) = below [e] n) as ->.
    { unfold below. rewrite !filter_cons. destruct (decide (e < n)); [rewrite !decide_True by lia|rewrite !decide_False by lia]; done. }
    rewrite (bool_decide_ext (n ∈ [e] ++ es) (n ∈ es)); [lia|]. rewrite elem_of_app, list_elem_of_singleton. naive_solver.
Qed.

(** A bit vector with the bits [es] set, the last of them its last bit. *)
Record marks (bv : BV.t) (es : list Z) : Prop := {
  marks_wf : BV.wf bv;
  marks_sorted : StronglySorted Z.lt es;
  marks_nonneg : Forall (λ e, 0 ≤ e) es;
  marks_size : BV._size bv = match list.last es with Some e => e + 1 | None => 0 end;
  marks_bit i : 0 ≤ i → BV.bit (BV._v bv) i = bool_decide (i ∈ es);
}.

Lemma new_marks : marks BV.new [].
Proof.
  split; [apply BV.new_wf|constructor|constructor|done|]. intros i Hi.
  rewrite (BV.wf_tail _ BV.new_wf) by done. symmetry. apply bool_decide_eq_false_2, not_elem_of_nil.
Qed.

Lemma sorted_last es e : StronglySorted Z.lt es → list.last es = Some e → Forall (λ x, x ≤ e) es.
Proof.
  intros Hs Hl. apply last_Some in Hl as [l ->]. apply Forall_app. split; [|repeat constructor; lia].
  apply Forall_forall. intros x Hx. pose proof (StronglySorted_app_1_elem_of _ l [e] x e Hs Hx ltac:(left)). lia.
Qed.

(** A new mark after the others. *)
Lemma set_marks bv es e :
  marks bv es → 0 ≤ e < 2 ^ 31 - 1 → Forall (λ x, x < e) es → marks (BV.set bv e true) (es ++ [e]).
Proof.
  intros [Hwf Hs Hn Hsz Hb] He Hall. split.
  - by apply BV.set_wf.
  - apply StronglySorted_app_2; [|done|repeat constructor]. intros x y Hx ->%list_elem_of_singleton.
    rewrite Forall_forall in Hall. by apply Hall.
  - apply Forall_app. split; [done|]. repeat constructor. lia.
  - rewrite last_snoc. unfold BV.set, BV.size. cbn [BV._size]. rewrite Hsz.
    destruct (list.last es) as [x|] eqn:Hl; rewrite decide_True; try lia.
    assert (x < e); [|lia]. rewrite Forall_forall in Hall. apply Hall. by apply last_Some_elem_of.
  - intros i Hi. rewrite BV.set_bit, Hb by (done || lia). symmetry. case_decide as Hie.
    + apply bool_decide_eq_true_2. apply elem_of_app. right. by apply list_elem_of_singleton.
    + apply bool_decide_ext. rewrite elem_of_app, list_elem_of_singleton. naive_solver.
Qed.

(** Marking a position again changes nothing. *)
Lemma set_marks_again bv es e :
  marks bv es → e < 2 ^ 31 - 1 → list.last es = Some e → marks (BV.set bv e true) es.
Proof.
  intros [Hwf Hs Hn Hsz Hb] He Hl. rewrite Hl in Hsz. assert (e ∈ es) as Hin.
  { apply last_Some in Hl as [l ->]. apply elem_of_app. right. left. }
  assert (0 ≤ e) by (rewrite Forall_forall in Hn; by apply Hn).
  split; [by apply BV.set_wf|done|done| |].
  - rewrite Hl. unfold BV.set, BV.size. cbn [BV._size]. rewrite Hsz, decide_False by lia. done.
  - intros i Hi. rewrite BV.set_bit, Hb by (done || lia). case_decide as Hie; [|done]. subst i.
    by rewrite bool_decide_eq_true_2.
Qed.

Lemma build_marks bv es : marks bv es → BV._r bv = [] → marks (BV.build bv) es ∧ BV.built (BV.build bv).
Proof.
  intros [Hwf Hs Hn Hsz Hb] Hr. destruct (BV.build_spec bv Hwf Hr) as (Hwf' & Hbt & _). split; [|done].
  unfold BV.build in *. destruct (BV.build_loop _ _ _ _) as [r n]. split; done.
Qed.

Section lookup.
Context (bv : BV.t) (es : list Z) (Hm : marks bv es) (Hbt : BV.built bv).

Lemma marks_in e : e ∈ es → 0 ≤ e < BV._size bv.
Proof.
  intros He. split; [pose proof (marks_nonneg _ _ Hm) as Hn; rewrite Forall_forall in Hn; by apply Hn|].
  rewrite (marks_size _ _ Hm). destruct (list.last es) as [x|] eqn:Hl.
  - pose proof (sorted_last es x (marks_sorted _ _ Hm) Hl) as Hle. rewrite Forall_forall in Hle. specialize (Hle e He). simpl in Hle. lia.
  - apply last_None in Hl. subst. by apply elem_of_nil in He.
Qed.

Lemma cnt_marks n : BV.cnt (BV.eqbit (BV._v bv) true) 0 n = below es (Z.of_nat n).
Proof.
  induction n as [|n IH].
  - rewrite below_none; [done|]. apply (marks_nonneg _ _ Hm).
  - replace (S n) with (n + 1)%nat by lia. rewrite BV.cnt_app, IH.
    replace (Z.of_nat (n + 1)) with (Z.of_nat n + 1) by lia. rewrite below_step by apply (marks_sorted _ _ Hm).
    f_equal. cbn [BV.cnt]. unfold BV.eqbit. rewrite (marks_bit _ _ Hm) by lia. rewrite Z.add_0_l.
    by destruct (bool_decide _).
Qed.

Lemma rank_marks p : 0 ≤ p ≤ BV._size bv → BV.rank bv p true = Ret (below es p).
Proof. intros Hp. rewrite BV.rank_spec by (done || apply Hm). rewrite cnt_marks. do 2 f_equal. lia. Qed.

Lemma size_marks : _size bv = Ret (zlen es).
Proof.
  pose proof (BV.wf_size _ (marks_wf _ _ Hm)). unfold _size, BV.size. rewrite rank_marks by lia. f_equal. apply below_all.
  apply Forall_forall. intros e He. by apply marks_in.
Qed.

(** Marks before and after one of them. *)
Lemma sorted_tail l1 e l2 : es = l1 ++ e :: l2 → Forall (λ x, e ≤ x) (e :: l2) ∧ Forall (λ x, x ≤ e) (l1 ++ [e]).
Proof.
  intros Heq. pose proof (marks_sorted _ _ Hm) as Hs. rewrite Heq in Hs. split.
  - apply StronglySorted_app_1_r, StronglySorted_inv in Hs as [_ Hs]. constructor; [lia|].
    eapply Forall_impl; [exact Hs|]. simpl. lia.
  - change (e :: l2) with ([e] ++ l2) in Hs. rewrite app_assoc in Hs. apply StronglySorted_app_1_l in Hs.
    apply sorted_last; [done|apply last_snoc].
Qed.

(** The number of marks before a mark is its index. *)
Lemma below_index i e : aget es i = Some e → below es e = i.
Proof.
  intros (l1 & l2 & Heq & <-)%aget_split. destruct (sorted_tail l1 e l2 Heq) as [Ht _].
  rewrite Heq, below_app, below_all, below_none; [lia|done|].
  pose proof (marks_sorted _ _ Hm) as Hs. rewrite Heq in Hs.
  apply Forall_forall. intros x Hx. apply (StronglySorted_app_1_elem_of _ l1 (e :: l2) x e Hs Hx). left.
Qed.

Lemma select_marks i e : aget es i = Some e → BV.select bv i true = Ret e.
Proof.
  intros Hi. pose proof (aget_Some_range _ _ _ Hi). assert (BV.count true (BV.bits bv) = zlen es) as Hc.
  { pose proof size_marks as Hsz. unfold _size, BV.size in Hsz. pose proof (BV.wf_size _ (marks_wf _ _ Hm)).
    rewrite BV.rank_spec in Hsz by (done || apply Hm || lia). rewrite BV.count_bits. congruence. }
  destruct (BV.select_spec bv true i) as (q & -> & Hq & Hbit & Hcnt); [apply Hm|done|lia|].
  rewrite (marks_bit _ _ Hm) in Hbit by lia. apply bool_decide_eq_true in Hbit. f_equal.
  destruct (elem_of_aget _ _ Hbit) as [j Hj]. rewrite cnt_marks, Z2Nat.id, (below_index j q Hj) in Hcnt by lia. congruence.
Qed.

(** Part [i] of the text starts after the mark before it. *)
Definition part_start (es : list Z) (i : Z) : Z := match aget es (i - 1) with Some e => e + 1 | None => 0 end.

Lemma check_index_marks i : 0 ≤ i < zlen es → check_index bv i = Ret ().
Proof. intros Hi. unfold check_index. rewrite decide_False by lia. rewrite size_marks. csimpl. by rewrite decide_False by lia. Qed.

Lemma check_index_range i :
  i < 0 ∨ zlen es ≤ i → check_index bv i = Throw ("Section.getContent() : range error " +:+ pretty i).
Proof.
  intros Hi. unfold check_index. case_decide; [done|]. rewrite size_marks. csimpl. by rewrite decide_True by lia.
Qed.

Lemma start_marks i : 0 ≤ i < zlen es → getStartPosition bv i = Ret (part_start es i).
Proof.
  intros Hi. unfold getStartPosition, part_start. rewrite check_index_marks by done. csimpl. case_decide as H0.
  - destruct (aget_is_Some es (i - 1)) as [e He]; [lia|]. by rewrite (select_marks _ e He), He.
  - by rewrite (aget_None es) by lia.
Qed.

(** The part that a position belongs to. *)
Lemma below_part i p e : aget es i = Some e → part_start es i ≤ p ≤ e → below es p = i.
Proof.
  intros Hi Hp. unfold part_start in Hp. pose proof (aget_Some_range _ _ _ Hi).
  apply aget_split in Hi as (l1 & l2 & Heq & Hlen). destruct (sorted_tail l1 e l2 Heq) as [Ht _].
  assert (Forall (λ x, x < p) l1) as H1.
  { destruct (aget es (i - 1)) as [y|] eqn:Hy.
    - apply aget_split in Hy as (m1 & m2 & Heq' & Hlen'). destruct (sorted_tail m1 y m2 Heq') as [_ Hy].
      assert (l1 = m1 ++ [y]) as ->.
      { apply (app_inj_1 _ _ (e :: l2) m2); [|by rewrite <- Heq, <- app_assoc].
        rewrite length_app. cbn. unfold zlen in *. lia. }
      eapply Forall_impl; [exact Hy|]. simpl. lia.
    - destruct (decide (i = 0)); [destruct l1; [done|]; rewrite zlen_cons in Hlen; pose proof (zlen_nonneg l1); lia|].
      destruct (aget_is_Some es (i - 1)) as [y Hy']; [lia|congruence]. }
  rewrite Heq, below_app, below_all, below_none; [lia| |done]. eapply Forall_impl; [exact Ht|]. simpl. lia.
Qed.

Lemma part_of p : 0 ≤ p < BV._size bv → ∃ e, aget es (below es p) = Some e ∧ part_start es (below es p) ≤ p ≤ e.
Proof.
  intros Hp. rewrite (marks_size _ _ Hm) in Hp. destruct (list.last es) as [x|] eqn:Hl; [|lia]. apply last_Some in Hl as [l Hl].
  pose proof (below_nonneg es p). destruct (aget_is_Some es (below es p)) as [e He].
  { split; [done|]. rewrite Hl, below_app, (below_none [x]) by (repeat constructor; lia). rewrite zlen_app.
    pose proof (below_le l p). change (zlen [x]) with 1. lia. }
  exists e. split; [done|]. split.
  - unfold part_start. destruct (aget es (below es p - 1)) as [y|] eqn:Hy; [|lia].
    apply aget_split in Hy as (l1 & l2 & Heq & Hlen). destruct (decide (p ≤ y)); [|lia].
    destruct (sorted_tail l1 y l2 Heq) as [Ht _]. rewrite Heq, below_app, (below_none (y :: l2)) in Hlen.
    + pose proof (below_le l1 p). lia.
    + eapply Forall_impl; [exact Ht|]. simpl. lia.
  - apply aget_split in He as (l1 & l2 & Heq & Hlen). destruct (decide (e < p)); [|lia].
    destruct (sorted_tail l1 e l2 Heq) as [_ Ht]. change (e :: l2) with ([e] ++ l2) in Heq. rewrite app_assoc in Heq.
    rewrite Heq, below_app, below_all in Hlen by (eapply Forall_impl; [exact Ht|]; simpl; lia).
    pose proof (below_nonneg l2 p). rewrite zlen_app in Hlen. change (zlen [e]) with 1 in Hlen. lia.
Qed.

Lemma part_start_range i e : aget es i = Some e → 0 ≤ part_start es i ≤ e.
Proof.
  intros Hi. pose proof (marks_nonneg _ _ Hm) as Hn. rewrite Forall_forall in Hn.
  pose proof (Hn e (aget_elem_of _ _ _ Hi)). unfold part_start. destruct (aget es (i - 1)) as [y|] eqn:Hy; [|lia].
  pose proof (Hn y (aget_elem_of _ _ _ Hy)). pose proof (below_index _ _ Hy). pose proof (below_index _ _ Hi).
  destruct (decide (y < e)); [lia|]. pose proof (below_mono es e y). lia.
Qed.

Lemma content_substring p i e :
  aget es i = Some e → getContent p bv i = Text._getSubstring p (part_start es i) (e + 1 - part_start es i).
Proof.
  intros Hi. pose proof (aget_Some_range _ _ _ Hi).
  pose proof (start_marks i ltac:(done)) as Hs. unfold getStartPosition in Hs. unfold getContent.
  rewrite check_index_marks in Hs |- * by done. csimpl. cbn [mbind outcome_bind] in Hs. rewrite Hs. csimpl.
  rewrite (select_marks i e Hi). csimpl. by replace (e - part_start es i + 1) with (e + 1 - part_start es i) by lia.
Qed.

Lemma content_marks p chars T M ddic i e :
  Text.indexed p chars T M ddic → aget es i = Some e → e < zlen T → FM.next_checkpoint ddic (e + 1) ≤ zlen T →
  getContent p bv i = Ret (take (Z.to_nat (e + 1 - part_start es i)) (drop (Z.to_nat (part_start es i)) T)).
Proof.
  intros Hx Hi He Hc. pose proof (part_start_range i e Hi). rewrite (content_substring p i e Hi).
  apply (Text.substring_indexed p chars T M ddic); [done|lia..|].
  by replace (part_start es i + (e + 1 - part_start es i)) with (e + 1) by lia.
Qed.

Lemma content_past p chars T M ddic i e :
  Text.indexed p chars T M ddic → aget es i = Some e → e < zlen T → zlen T < FM.next_checkpoint ddic (e + 1) →
  getContent p bv i = Ret (Text.shifted T ddic (part_start es i) (e + 1 - part_start es i)).
Proof.
  intros Hx Hi He Hc. pose proof (part_start_range i e Hi). rewrite (content_substring p i e Hi).
  apply (Text.substring_past p chars T M ddic); [done|lia..|].
  by replace (part_start es i + (e + 1 - part_start es i)) with (e + 1) by lia.
Qed.
End lookup.

(** ** Parts that cover the text *)

(** The ends of consecutive parts, the first of which starts at [start]. *)
Fixpoint ends (start : Z) (docs : list jsstr) : list Z :=
  match docs with
  | [] => []
  | doc :: docs => (start + zlen doc - 1) :: ends (start + zlen doc) docs
  end.

Lemma ends_app start docs docs' :
  ends start (docs ++ docs') = ends start docs ++ ends (start + zlen (concat docs)) docs'.
Proof.
  revert start. induction docs as [|d docs IH]; intros start; cbn [ends app concat]; [f_equal; change (zlen []) with 0; lia|].
  rewrite IH, zlen_app. do 3 f_equal. lia.
Qed.

Lemma zlen_ends start docs : zlen (ends start docs) = zlen docs.
Proof. revert start. induction docs as [|d docs IH]; intros start; cbn [ends]; [done|]. by rewrite !zlen_cons, IH. Qed.

Lemma aget_ends start docs k d :
  docs !! k = Some d → aget (ends start docs) (Z.of_nat k) = Some (start + zlen (concat (take k docs)) + zlen d - 1).
Proof.
  intros (l1 & l2 & -> & ->)%list_elem_of_split_length. fold (zlen l1). rewrite take_app_length, ends_app.
  rewrite <- (zlen_ends start l1) at 1. rewrite aget_app_r, Z.sub_diag by lia. done.
Qed.

Lemma part_start_ends docs k :
  (k ≤ length docs)%nat → part_start (ends 0 docs) (Z.of_nat k) = zlen (concat (take k docs)).
Proof.
  intros Hk. unfold part_start. destruct k as [|k]; [done|]. destruct (lookup_lt_is_Some_2 docs k) as [d Hd]; [lia|].
  replace (Z.of_nat (S k) - 1) with (Z.of_nat k) by lia. rewrite (aget_ends 0 docs k d Hd).
  rewrite (take_S_r docs k d Hd), concat_app, zlen_app. cbn [concat]. rewrite app_nil_r. lia.
Qed.

(** Marking the end of one more part. *)
Lemma set_end bv docs d :
  marks bv (ends 0 docs) → d ≠ [] → zlen (concat (docs ++ [d])) < 2 ^ 31 →
  marks (BV.set bv (zlen (concat (docs ++ [d])) - 1) true) (ends 0 (docs ++ [d])).
Proof.
  intros Hm Hd. rewrite ends_app, concat_app, zlen_app. cbn [ends concat]. rewrite app_nil_r. intros Hlen.
  pose proof (zlen_nonneg (concat docs)). assert (1 ≤ zlen d).
  { destruct d; [done|]. rewrite zlen_cons. pose proof (zlen_nonneg d). lia. }
  replace (0 + zlen (concat docs) + zlen d - 1) with (zlen (concat docs) + zlen d - 1) by lia.
  apply set_marks; [done|lia|]. apply Forall_forall. intros e He.
  pose proof (marks_in bv _ Hm e He) as Hr. rewrite (marks_size _ _ Hm) in Hr.
  destruct docs as [|x docs _] using rev_ind; [by apply elem_of_nil in He|].
  rewrite ends_app in Hr. cbn [ends] in Hr. rewrite last_snoc in Hr. rewrite concat_app, zlen_app. cbn [concat].
  rewrite app_nil_r. lia.
Qed.

Lemma size_ends bv bodies : marks bv (ends 0 bodies) → BV._size bv = zlen (concat bodies).
Proof.
  intros Hm. rewrite (marks_size _ _ Hm). destruct bodies as [|d bodies _] using rev_ind; [done|].
  rewrite ends_app, concat_app, zlen_app. cbn [ends concat]. rewrite last_snoc, app_nil_r. lia.
Qed.

(** ** Grouping positions by part *)

Section grouping.
Context (bv : BV.t) (es : list Z) (Hm : marks bv es) (Hbt : BV.built bv).
Context (getIndex : Z → outcome Z) (Hindex : ∀ p, 0 ≤ p < BV._size bv → getIndex p = Ret (below es p)).
Context (word : jsstr) (stemmed : bool).

(** The unit of part [i] when the positions [ps] were found. *)
Definition unit_of (ps : list Z) (i : Z) (u : SR.SearchUnit) : Prop :=
  SR.startPosition u = part_start es i ∧
  ∀ q, SR.unit_get u q =
    if decide (q + part_start es i ∈ ps ∧ below es (q + part_start es i) = i)
    then Some (SR.mkPosition word q stemmed) else None.

Record grouped (ps : list Z) (h : SR.store) (r : SR.SingleResult) : Prop := {
  grouped_wf : SR.result_wf h r;
  grouped_ids : SR.unitIds r = foldl Text.extend [] (below es <$> ps);
  grouped_units ref i u : SR.lists r ref i → h !! ref = Some u → unit_of ps i u;
}.

(** The unit that [group_step] writes to: its start is known, its positions are
    those found so far. *)
Lemma group_unit ps h r p h1 r1 ref :
  grouped ps h r → 0 ≤ p < BV._size bv → SR.getSearchUnit h r (below es p) = Ret (h1, r1, ref) →
  ∃ u u1, h1 !! ref = Some u ∧ SR.unit_wf u1 ∧ SR.id u1 = below es p ∧ unit_of ps (below es p) u1 ∧
    (if decide (SR.startPosition u < 0) then
       s ← getStartPosition bv (below es p);
       Ret (SR.mkUnit (SR.positions u) (SR.id u) (SR._size u) (SR.score u) s)
     else Ret u) = Ret u1.
Proof.
  intros [Hwf Hids Hus] Hp Hg. destruct (SR.getSearchUnit_spec h r (below es p) Hwf)
    as (h1' & r1' & ref' & Hg' & Hwf1 & Hst & Hl & Hids1 & Hother & Hu & Hold).
  rewrite Hg in Hg'. injection Hg' as <- <- <-. destruct (part_of bv es Hm p Hp) as (e & He & Hr).
  pose proof (part_start_range bv es Hm _ _ He) as Hps.
  destruct (SR.lists_stored h1 r1 ref (below es p) Hwf1 Hl) as (u & Hu1 & Hid & Huw). exists u.
  destruct (decide (below es p ∈ SR.unitIds r)) as [Hin|Hin].
  - destruct (SR.lists_index h r _ Hwf Hin) as (ref2 & _ & Hl2).
    assert (ref2 = ref) as -> by (apply (SR.lists_fun h1 r1 _ _ (below es p) Hwf1); auto).
    rewrite Hu in Hu1. pose proof (Hus ref _ u Hl2 Hu1) as Huo. exists u. rewrite Hu.
    split_and!; [done..|]. destruct Huo as [Hs _]. by rewrite decide_False by lia.
  - rewrite Hu in Hu1. injection Hu1 as <-. exists (SR.mkUnit [] (below es p) 0 0 (part_start es (below es p))).
    split_and!; [done|by split; [constructor|..]|done| |].
    + split; [done|]. intros q. rewrite decide_False; [done|]. intros [Hq1 Hq2]. apply Hin. rewrite Hids, Text.extend_elem.
      right. rewrite <- Hq2. by apply list_elem_of_fmap_2.
    + cbn [SR.unit_new SR.startPosition]. rewrite decide_True by lia.
      rewrite (start_marks bv es Hm Hbt) by (apply (aget_Some_range _ _ _ He)). done.
Qed.

(** Finding one more position of the part. *)
Lemma unit_of_add ps p u :
  SR.unit_wf u → unit_of ps (below es p) u →
  unit_of (ps ++ [p]) (below es p) (SR.addPosition u word (p - SR.startPosition u) stemmed).
Proof.
  intros Hw [Hs Hget]. split.
  { unfold SR.addPosition. destruct (IMap.get _ _); done. }
  intros q. unfold SR.unit_get in *. rewrite SR.addPosition_get, Hget, Hs by done.
  set (start := part_start es (below es p)). destruct (decide (p - start = q)) as [<-|Hq].
  - replace (p - start + start) with p by lia. rewrite (decide_True (P := p ∈ ps ++ [p] ∧ _)).
    + case_decide; cbn [SR.join]; [|done]. unfold SR.join_position. cbn.
      rewrite decide_False by lia. by rewrite andb_diag.
    + split; [|done]. apply elem_of_app. right. left.
  - rewrite SR.join_assoc_none. apply decide_ext. rewrite elem_of_app, list_elem_of_singleton.
    assert (q + start ≠ p) by lia. naive_solver.
Qed.

Lemma unit_of_other ps p i u : below es p ≠ i → unit_of ps i u → unit_of (ps ++ [p]) i u.
Proof.
  intros Hne [Hs Hget]. split; [done|]. intros q. rewrite Hget. apply decide_ext.
  rewrite elem_of_app, list_elem_of_singleton. naive_solver.
Qed.

Lemma group_step_spec ps h r p :
  grouped ps h r → 0 ≤ p < BV._size bv →
  ∃ h' r', group_step bv getIndex word stemmed (h, r) p = Ret (h', r') ∧ grouped (ps ++ [p]) h' r' ∧
    SR.stable h h' ∧ SR.same_flags r r'.
Proof.
  intros Hg Hp. pose proof Hg as [Hwf Hids Hus]. unfold group_step. rewrite Hindex by done. cbn [mbind outcome_bind].
  destruct (SR.getSearchUnit_spec h r (below es p) Hwf)
    as (h1 & r1 & ref & Hrun & Hwf1 & Hst & Hl & Hids1 & Hother & _ & _). rewrite Hrun. cbn [mbind outcome_bind].
  destruct (group_unit ps h r p h1 r1 ref Hg Hp Hrun) as (u & u1 & Hu & Hw1 & Hid1 & Huo & Hstart).
  rewrite Hu. cbn [of_option mbind outcome_bind]. rewrite Hstart. cbn [mbind outcome_bind].
  eexists _, r1. split; [done|]. set (u2 := SR.addPosition u1 word (p - SR.startPosition u1) stemmed).
  assert (SR.stable h1 (<[ref := u2]> h1)) as Hst2.
  { intros ref' i (v & Hv & Hi & Hvw). destruct (decide (ref' = ref)) as [->|Hne].
    - exists u2. rewrite list_lookup_insert_eq by (by eapply lookup_lt_Some). split_and!; [done| |by apply SR.addPosition_wf].
      unfold u2. rewrite SR.addPosition_id, Hid1. apply (SR.stored_fun h1 ref); [by eapply SR.lists_stored|]. by exists v.
    - exists v. by rewrite list_lookup_insert_ne by done. }
  split; [|split; [by eapply SR.stable_trans|by eapply SR.getSearchUnit_flags]]. split.
  - by eapply SR.stable_wf.
  - rewrite Hids1, fmap_app, foldl_app, <- Hids. done.
  - intros ref' i v Hli Hv. destruct (decide (i = below es p)) as [->|Hne].
    + assert (ref' = ref) as -> by exact (SR.lists_fun h1 r1 _ _ _ Hwf1 Hli Hl).
      rewrite list_lookup_insert_eq in Hv by (by eapply lookup_lt_Some). injection Hv as <-. by apply unit_of_add.
    + assert (ref' ≠ ref).
      { intros ->. apply Hne. apply (SR.stored_fun h1 ref); by eapply SR.lists_stored. }
      rewrite list_lookup_insert_ne in Hv by done. destruct (Hother ref' i Hli Hne) as [Hlr Heq]. rewrite Heq in Hv.
      apply unit_of_other; [done|]. by apply (Hus ref').
Qed.

(** Grouping positions: a unit for each part with one of them, in the order of
    their first positions, holding those of the part, counted from its start. *)
Lemma grouping_spec qs ps h r :
  grouped ps h r → Forall (λ p, 0 ≤ p < BV._size bv) qs →
  ∃ h' r', ofold (group_step bv getIndex word stemmed) (h, r) qs = Ret (h', r') ∧ grouped (ps ++ qs) h' r' ∧
    SR.stable h h' ∧ SR.same_flags r r'.
Proof.
  intros Hg Hqs. revert ps h r Hg. induction Hqs as [|p qs Hp _ IH]; intros ps h r Hg.
  { exists h, r. rewrite app_nil_r. split_and!; [done..|apply SR.stable_refl|done]. }
  cbn [ofold]. destruct (group_step_spec ps h r p Hg Hp) as (h1 & r1 & -> & Hg1 & Hst1 & Hf1). cbn [mbind outcome_bind].
  destruct (IH _ _ _ Hg1) as (h' & r' & Hrun & Hg' & Hst & Hf). exists h', r'. rewrite <- app_assoc in Hg'.
  split_and!; [done|done|by eapply SR.stable_trans|]. unfold SR.same_flags in *. destruct Hf1, Hf. split; congruence.
Qed.

Lemma grouped_nil h w o n : grouped [] h (SR.result_for w o n).
Proof. split; [split; constructor|done|]. by intros ref i u ?%elem_of_nil. Qed.
End grouping.
(** ** Saving and loading *)

(** What the engine relies on to save and load a kind of metadata: its dump is
    the number of the kind and a body, from which [load] restores the object. *)
Class Saved (M : Type) `{Metadata M} (ok : M → Prop) (kind : Z) (load : jsstr → Z → outcome (M * Z)) (norm : M → M) : Prop :=
  saved m r : ok m → ∃ body r', _dump m r = Ret (Bin.dump16bitNumber kind ++ body, r') ∧
    ∀ data off, has_at data off body → load data off = Ret (norm m, off + zlen body).

Lemma bits_saved bv r :
  BV.wf bv → ∃ body r', BV.dump bv r = Ret (body, r') ∧
    ∀ data off, has_at data off body → BV.load BV.new data off = Ret (BV.norm bv, off + zlen body).
Proof.
  intros Hwf. destruct (Bin.codec_total (Codec := BV.codec_bitvector) bv Hwf) as [body Hb].
  destruct (BV.dump_report bv body r Hb) as [r' Hr]. exists body, r'. split; [done|].
  intros data off. by apply (Bin.codec_load (Codec := BV.codec_bitvector)).
Qed.

Lemma names_saved names r :
  Bin.strings_ok names → ∃ body r', Bin.dumpStringList names r = (body, r') ∧
    ∀ data off, has_at data off body → Bin.loadStringList data off = Ret (names, off + zlen body).
Proof.
  intros Hok. destruct (Bin.dumpStringList names r) as [body r'] eqn:Hd. exists body, r'. split; [done|].
  assert (body = Bin.list_code names) as ->.
  { unfold Bin.list_code. rewrite Bin.dumpStringList_code, <- (Bin.dumpStringList_code names r). by rewrite Hd. }
  intros data off. by apply Bin.loadStringList_code.
Qed.

Lemma norm_marks bv es : marks bv es → marks (BV.norm bv) es ∧ BV.built (BV.norm bv).
Proof.
  intros [Hwf Hs Hn Hsz Hb]. destruct (BV.norm_spec bv Hwf) as (Hwf' & Hbt & Hbits). split; [|done].
  assert (BV._size (BV.norm bv) = BV._size bv) as Hsz'.
  { apply (f_equal zlen) in Hbits. rewrite !BV.zlen_bits in Hbits; [done|apply BV.wf_size..]; done. }
  split; [done..|by rewrite Hsz'|]. intros i Hi. rewrite <- Hb by done.
  destruct (decide (i < BV._size bv)).
  - apply (f_equal (λ l, aget l i)) in Hbits. rewrite !BV.aget_bits in Hbits by lia. congruence.
  - rewrite !BV.wf_tail; [done|done|lia|done|lia].
Qed.
End Meta.
