(* ===== verification/Sections.v ===== *)
(** * Sections

    Models the class [Section] of [src/misc/oktavia/src/metadata.jsx]: named parts
    of the text, one after the other.  [setTail] closes a part. *)

From stdpp Require Import pretty.
From S2P Require Import Prelude JsObject Binary BitVector FMIndex Text SearchResult Metadata.

Local Open Scope Z_scope.

Module Sec.
Import Meta.
Record t := mk { bv : BV.t; _names : list jsstr }.

Definition new : t := mk BV.new [].

Definition setTail (s : t) (name : jsstr) (index : Z) : t :=
  mk (BV.set (bv s) (index - 1) true) (_names s ++ [name]).

Definition size (s : t) : Z := zlen (_names s).

Definition getSectionIndex (s : t) (position : Z) : outcome Z :=
  if decide (position < 0 ∨ BV.size (bv s) <= position)
  then Throw ("Section.getSectionIndex() : range error " +:+ pretty position)
  else BV.rank (bv s) position true.

Definition getName (s : t) (index : Z) : outcome jsstr :=
  if decide (index < 0 ∨ size s <= index) then Throw "Section.getName() : range error"
  else of_option (aget (_names s) index).

Definition _load (data : jsstr) (offset : Z) : outcome (t * Z) :=
  '(names, offset) ← Bin.loadStringList data offset;
  '(bv, offset) ← base_load data offset;
  Ret (mk bv names, offset).

Definition dump (s : t) (r : report) : outcome (jsstr * report) :=
  let r := Bin.report_opt r 1 1 in
  let '(names, r) := Bin.dumpStringList (_names s) r in
  '(bits, r) ← base_dump (bv s) r;
  Ret (Bin.dump16bitNumber 0 ++ names ++ bits, r).

#[global] Instance section_metadata : Metadata t := {
  _bitVector := bv;
  _build s := mk (BV.build (bv s)) (_names s);
  grouping s h result positions word stemmed :=
    ofold (group_step (bv s) (getSectionIndex s) word stemmed) (h, result) positions;
  getInformation := getName;
  _dump := dump;
}.
(** ** Saving and loading *)

Definition saveable (s : t) : Prop := BV.wf (bv s) ∧ Bin.strings_ok (_names s).
Definition norm (s : t) : t := mk (BV.norm (bv s)) (_names s).

#[global] Instance section_saved : Saved t saveable 0 _load norm.
Proof.
  intros s r [Hbv Hn]. cbn [_dump section_metadata]. unfold dump, base_dump.
  destruct (names_saved _ (Bin.report_opt r 1 1) Hn) as (nb & r1 & -> & Hln).
  destruct (bits_saved _ r1 Hbv) as (bb & r2 & -> & Hlb). cbn [mbind outcome_bind].
  exists (nb ++ bb), r2. split; [done|]. intros data off [H1 H2]%has_at_app.
  unfold _load, base_load. rewrite Hln by done. cbn [mbind outcome_bind]. rewrite Hlb by done. cbn [mbind outcome_bind].
  by rewrite zlen_app, Z.add_assoc.
Qed.

End Sec.
