(* ===== verification/Splitters.v ===== *)
(** * Splitters

    Models the class [Splitter] of [src/misc/oktavia/src/metadata.jsx]: parts of
    the text without names of their own. *)

From stdpp Require Import pretty.
From S2P Require Import Prelude JsObject Binary BitVector FMIndex Text SearchResult Metadata.

Local Open Scope Z_scope.

Module Spl.
Import Meta.
Record t := mk { bv : BV.t; name : option jsstr }.

Definition new : t := mk BV.new None.
Definition new_named (name : jsstr) : t := mk BV.new (Some name).

Definition size (s : t) : outcome Z := _size (bv s).

Definition split (s : t) (index : Z) : t := mk (BV.set (bv s) (index - 1) true) (name s).

Definition getIndex (s : t) (position : Z) : outcome Z :=
  if decide (position < 0 ∨ BV.size (bv s) <= position)
  then Throw "Section.getSectionIndex() : range error"
  else BV.rank (bv s) position true.

(** [this.name + ((index + 1) as string)] *)
Definition information (s : t) (index : Z) : jsstr :=
  match name s with
  | Some name => name ++ jstr (pretty (index + 1))
  | None => []
  end.

Definition _load (data : jsstr) (offset : Z) : outcome (t * Z) :=
  '(bv, offset) ← base_load data offset;
  Ret (mk bv None, offset).

Definition dump (s : t) (r : report) : outcome (jsstr * report) :=
  let r := Bin.report_opt r 1 1 in
  '(bits, r) ← base_dump (bv s) r;
  Ret (Bin.dump16bitNumber 1 ++ bits, r).

#[global] Instance splitter_metadata : Metadata t := {
  _bitVector := bv;
  _build s := mk (BV.build (bv s)) (name s);
  grouping s h result positions word stemmed :=
    ofold (group_step (bv s) (getIndex s) word stemmed) (h, result) positions;
  getInformation s index := Ret (information s index);
  _dump := dump;
}.
(** ** Saving and loading: the name is not saved *)

Definition saveable (s : t) : Prop := BV.wf (bv s).
Definition norm (s : t) : t := mk (BV.norm (bv s)) None.

#[global] Instance splitter_saved : Saved t saveable 1 _load norm.
Proof.
  intros s r Hbv. cbn [_dump splitter_metadata]. unfold dump, base_dump.
  destruct (bits_saved _ (Bin.report_opt r 1 1) Hbv) as (bb & r2 & -> & Hlb). cbn [mbind outcome_bind].
  exists bb, r2. split; [done|]. intros data off Hat. unfold _load, base_load. by rewrite Hlb.
Qed.

End Spl.
