(* ===== verification/Tables.v ===== *)
(** * Tables

    Models the class [Table] of [src/misc/oktavia/src/metadata.jsx]: the text is a
    table, written row by row and cell by cell, with an end of block after each
    cell. *)

From stdpp Require Import pretty.
From S2P Require Import Prelude JsObject Binary BitVector FMIndex Lang Text SearchResult Metadata.

Local Open Scope Z_scope.

(** [split] by a separator of one character. *)
Fixpoint js_split (s : jsstr) (sep : Z) : list jsstr :=
  match s with
  | [] => [[]]
  | c :: s =>
    if decide (c = sep) then [] :: js_split s sep
    else match js_split s sep with w :: ws => (c :: w) :: ws | [] => [[c]] end
  end.

Module Tab.
Import Meta.
Record t := mk { bv : BV.t; _headers : list jsstr; _columnTails : BV.t }.

Definition new (headers : list jsstr) : t := mk BV.new headers BV.new.

Definition rowSize (s : t) : outcome Z := _size (bv s).
Definition columnSize (s : t) : Z := zlen (_headers s).

(** The end of the block goes to the text of the parent. *)
Definition setColumnTail (p : Text.t) (s : t) : outcome (Text.t * t) :=
  let index := Text.contentSize p in
  p ← Text.addEndOfBlock p;
  Ret (p, mk (bv s) (_headers s) (BV.set (_columnTails s) (index - 1) true)).

Definition setRowTail (p : Text.t) (s : t) : t :=
  let index := Text.contentSize p in
  mk (BV.set (bv s) (index - 1) true) (_headers s) (_columnTails s).

Definition getCell (s : t) (position : Z) : outcome (list Z) :=
  if decide (position < 0 ∨ BV.size (bv s) <= position)
  then Throw ("Section.getSectionIndex() : range error " +:+ pretty position)
  else
    row ← BV.rank (bv s) position true;
    currentColumn ← BV.rank (_columnTails s) position true;
    lastRowColumn ←
      (if decide (row > 0) then
         startPosition ← BV.select (bv s) (row - 1) true;
         BV.rank (_columnTails s) (startPosition + 1) true
       else Ret 0);
    Ret [row; currentColumn - lastRowColumn].

Definition getRowContent (p : Text.t) (s : t) (rowIndex : Z) : outcome (list (jsstr * jsstr)) :=
  content ← getContent p (bv s) rowIndex;
  let values := take (length (_headers s)) (js_split content 1) in
  ofold (λ result i,
    header ← of_option (aget (_headers s) i);
    Ret (Obj.put result header (default [] (aget values i)))) [] (seqZ 0 (zlen (_headers s))).

Definition _load (data : jsstr) (offset : Z) : outcome (t * Z) :=
  '(headers, offset) ← Bin.loadStringList data offset;
  '(bv, offset) ← base_load data offset;
  '(columnTails, offset) ← BV.load BV.new data offset;
  Ret (mk bv headers columnTails, offset).

Definition dump (s : t) (r : report) : outcome (jsstr * report) :=
  let r := Bin.report_opt r 1 1 in
  let '(headers, r) := Bin.dumpStringList (_headers s) r in
  '(bits, r) ← base_dump (bv s) r;
  '(tails, r) ← BV.dump (_columnTails s) r;
  Ret (Bin.dump16bitNumber 2 ++ headers ++ bits ++ tails, r).

#[global] Instance table_metadata : Metadata t := {
  _bitVector := bv;
  _build s := mk (BV.build (bv s)) (_headers s) (BV.build (_columnTails s));
  grouping s h result positions word stemmed := Ret (h, result);
  getInformation s index := Ret [];
  _dump := dump;
}.
(** ** Saving and loading *)

Definition saveable (s : t) : Prop := BV.wf (bv s) ∧ BV.wf (_columnTails s) ∧ Bin.strings_ok (_headers s).
Definition norm (s : t) : t := mk (BV.norm (bv s)) (_headers s) (BV.norm (_columnTails s)).

#[global] Instance table_saved : Saved t saveable 2 _load norm.
Proof.
  intros s r (Hbv & Hct & Hn). cbn [_dump table_metadata]. unfold dump, base_dump.
  destruct (names_saved _ (Bin.report_opt r 1 1) Hn) as (nb & r1 & -> & Hln).
  destruct (bits_saved _ r1 Hbv) as (bb & r2 & -> & Hlb). cbn [mbind outcome_bind].
  destruct (bits_saved _ r2 Hct) as (cb & r3 & -> & Hlc). cbn [mbind outcome_bind].
  exists (nb ++ bb ++ cb), r3. split; [done|]. intros data off [H1 [H2 H3]%has_at_app]%has_at_app.
  unfold _load, base_load. rewrite Hln by done. cbn [mbind outcome_bind]. rewrite Hlb by done. cbn [mbind outcome_bind].
  rewrite Hlc by done. cbn [mbind outcome_bind]. rewrite !zlen_app. do 2 f_equal. lia.
Qed.

(** ** Filling a table *)

(** How a client writes a table, cell by cell. *)
Definition add_cell (st : Text.t * t) (cell : jsstr) : outcome (Text.t * t) :=
  let '(p, s) := st in
  p ← Text.addWord p cell;
  setColumnTail p s.

Definition add_row (st : Text.t * t) (row : list jsstr) : outcome (Text.t * t) :=
  '(p, s) ← ofold add_cell st row;
  Ret (p, setRowTail p s).

Definition fill_table (headers : list jsstr) (rows : list (list jsstr)) : outcome (Text.t * t) :=
  ofold add_row (Text.new, new headers) rows.

(** The text of cells, and the ends of the cells in it. *)
Definition cells_text (cells : list jsstr) : jsstr := concat ((λ c, c ++ [1]) <$> cells).

Fixpoint cell_ends (start : Z) (cells : list jsstr) : list Z :=
  match cells with
  | [] => []
  | c :: cells => (start + zlen c - 1) :: cell_ends (start + zlen c + 1) cells
  end.

Lemma cells_text_app l1 l2 : cells_text (l1 ++ l2) = cells_text l1 ++ cells_text l2.
Proof. unfold cells_text. by rewrite fmap_app, concat_app. Qed.

Lemma zlen_cell c : zlen (cells_text [c]) = zlen c + 1.
Proof. unfold cells_text. cbn. by rewrite app_nil_r, zlen_app. Qed.

Lemma cell_ends_app start l1 l2 : cell_ends start (l1 ++ l2) = cell_ends start l1 ++ cell_ends (start + zlen (cells_text l1)) l2.
Proof.
  revert start. induction l1 as [|c l1 IH]; intros start; cbn [cell_ends app].
  - f_equal. change (zlen (cells_text [])) with 0. lia.
  - rewrite IH. change (c :: l1) with ([c] ++ l1). rewrite cells_text_app, zlen_app, zlen_cell. do 3 f_equal. lia.
Qed.

Lemma cell_ends_range start (cells : list jsstr) :
  Forall (λ c, c ≠ []) cells → Forall (λ e, start ≤ e < start + zlen (cells_text cells) - 1) (cell_ends start cells).
Proof.
  intros Hne. revert start. induction Hne as [|c cells Hc _ IH]; intros start; [constructor|]. cbn [cell_ends].
  change (c :: cells) with ([c] ++ cells). rewrite cells_text_app, zlen_app, zlen_cell.
  assert (1 ≤ zlen c) by (destruct c; [done|]; rewrite zlen_cons; pose proof (zlen_nonneg c); lia).
  pose proof (zlen_nonneg (cells_text cells)). constructor; [lia|]. eapply Forall_impl; [apply IH|]. simpl. lia.
Qed.

Lemma zlen_cell_ends start cells : zlen (cell_ends start cells) = zlen cells.
Proof. revert start. induction cells as [|c cells IH]; intros start; cbn [cell_ends]; [done|]. by rewrite !zlen_cons, IH. Qed.

(** The number of cells that end before a position. *)
Lemma below_cells (l1 : list jsstr) (c : jsstr) (l2 : list jsstr) x :
  Forall (λ c, c ≠ []) (l1 ++ c :: l2) → zlen (cells_text l1) ≤ x < zlen (cells_text l1) + zlen c →
  below (cell_ends 0 (l1 ++ c :: l2)) x = zlen l1.
Proof.
  intros Hne Hx. apply Forall_app in Hne as [H1 H2]. rewrite cell_ends_app, below_app, below_all, below_none.
  - rewrite zlen_cell_ends. lia.
  - cbn [cell_ends]. constructor; [lia|]. apply Forall_cons in H2 as [_ H2].
    eapply Forall_impl; [apply (cell_ends_range _ _ H2)|]. simpl. lia.
  - eapply Forall_impl; [apply (cell_ends_range _ _ H1)|]. simpl. lia.
Qed.

(** What is written so far: [cells] in the text, of which the rows [rows] are closed. *)
Record written (p : Text.t) (s : t) (rows : list (list jsstr)) (cells : list jsstr) : Prop := {
  written_text : ∃ chars, Text.holds p chars (cells_text cells);
  written_rows : marks (bv s) (ends 0 (cells_text <$> rows));
  written_cells : marks (_columnTails s) (cell_ends 0 cells);
  written_fresh : BV._r (bv s) = [] ∧ BV._r (_columnTails s) = [];
}.

Lemma add_cell_written p s rows (cells : list jsstr) (c : jsstr) :
  written p s rows cells → Forall (λ c, c ≠ []) (cells ++ [c]) → Forall Text.plain c →
  zlen (cells_text (cells ++ [c])) < 2 ^ 31 →
  ∃ p' s', add_cell (p, s) c = Ret (p', s') ∧ written p' s' rows (cells ++ [c]) ∧ _headers s' = _headers s.
Proof.
  intros [(chars & Ht) Hr Hc [Hf1 Hf2]] Hne Hp Hlen. pose proof Hne as [Hn1 Hn2]%Forall_app. rewrite Forall_singleton in Hn2.
  unfold add_cell. destruct (Text.addWord_holds _ _ _ c Ht Hp Hn2) as (p1 & -> & Hh1). cbn [mbind outcome_bind].
  unfold setColumnTail. rewrite (Text.contentSize_holds _ _ _ Hh1).
  destruct (Text.addEndOfBlock_holds _ _ _ Hh1) as (p2 & -> & Hh2). cbn [mbind outcome_bind].
  eexists _, _. split; [done|]. split; [|done]. rewrite cells_text_app, zlen_app, zlen_cell in Hlen.
  assert (1 ≤ zlen c) by (destruct c; [done|]; rewrite zlen_cons; pose proof (zlen_nonneg c); lia).
  pose proof (zlen_nonneg (cells_text cells)). split; cbn [bv _columnTails]; [|done| |done].
  - eexists. rewrite cells_text_app. unfold cells_text at 2. cbn [fmap list_fmap concat]. rewrite app_nil_r, app_assoc. exact Hh2.
  - rewrite cell_ends_app, zlen_app. cbn [cell_ends]. rewrite Z.add_0_l. apply set_marks; [done|lia|].
    eapply Forall_impl; [apply (cell_ends_range _ _ Hn1)|]. simpl. lia.
Qed.

Lemma add_cells_written p s rows (cells row : list jsstr) :
  written p s rows cells → Forall (λ c, c ≠ []) (cells ++ row) → Forall (Forall Text.plain) row →
  zlen (cells_text (cells ++ row)) < 2 ^ 31 →
  ∃ p' s', ofold add_cell (p, s) row = Ret (p', s') ∧ written p' s' rows (cells ++ row) ∧ _headers s' = _headers s.
Proof.
  revert p s cells. induction row as [|c row IH]; intros p s cells Hw Hne Hp Hlen.
  { exists p, s. by rewrite app_nil_r. }
  apply Forall_cons in Hp as [Hc Hp]. rewrite (cons_middle c), app_assoc in *. cbn [ofold].
  pose proof Hne as [Hne1 _]%Forall_app. destruct (add_cell_written p s rows cells c Hw Hne1 Hc) as (p1 & s1 & -> & Hw1 & Hh1).
  { rewrite cells_text_app, zlen_app in Hlen. pose proof (zlen_nonneg (cells_text row)). lia. }
  cbn [mbind outcome_bind]. destruct (IH p1 s1 (cells ++ [c]) Hw1 Hne Hp Hlen) as (p' & s' & Hrun & Hw' & Hh').
  exists p', s'. split_and!; [done..|congruence].
Qed.

Lemma cells_text_concat (rows : list (list jsstr)) : cells_text (concat rows) = concat (cells_text <$> rows).
Proof. induction rows as [|row rows IH]; [done|]. cbn [concat fmap list_fmap]. by rewrite cells_text_app, IH. Qed.

(** The tables that can be written this way. *)
Record table_ok (rows : list (list jsstr)) : Prop := {
  table_rows : Forall (λ row, row ≠ []) rows;
  table_cells : Forall (λ c, c ≠ []) (concat rows);
  table_plain : Forall (Forall Text.plain) (concat rows);
  table_length : zlen (cells_text (concat rows)) < 2 ^ 31 - 2;
}.

Lemma cells_text_some row : row ≠ [] → cells_text row ≠ [].
Proof. destruct row as [|c row]; [done|]. intros _. unfold cells_text. cbn. by destruct c. Qed.

Lemma add_rows_written p s (done todo : list (list jsstr)) :
  written p s done (concat done) → table_ok (done ++ todo) →
  ∃ p' s', ofold add_row (p, s) todo = Ret (p', s') ∧ written p' s' (done ++ todo) (concat (done ++ todo)) ∧
    _headers s' = _headers s.
Proof.
  revert p s done. induction todo as [|row todo IH]; intros p s dn Hw Hok.
  { exists p, s. by rewrite app_nil_r. }
  rewrite (cons_middle row), app_assoc in Hok |- *. pose proof Hok as [Hr Hc Hp Hlen]. rewrite concat_app in Hc, Hp.
  pose proof Hr as [Hr1 _]%Forall_app. apply Forall_app in Hr1 as [_ Hr1]. rewrite Forall_singleton in Hr1.
  apply Forall_app in Hc as [Hc _], Hp as [Hp _]. rewrite concat_app in Hc, Hp. cbn [concat] in Hc, Hp. rewrite app_nil_r in Hc, Hp.
  apply Forall_app in Hp as [_ Hp].
  assert (zlen (cells_text (concat dn ++ row)) < 2 ^ 31) as Hlen1.
  { rewrite concat_app, cells_text_app, zlen_app, concat_app in Hlen. cbn [concat] in Hlen. rewrite app_nil_r in Hlen.
    pose proof (zlen_nonneg (cells_text (concat todo))). lia. }
  cbn [ofold]. unfold add_row at 2. destruct (add_cells_written p s dn _ row Hw Hc Hp Hlen1) as (p1 & s1 & -> & Hw1 & Hh1).
  cbn [mbind outcome_bind]. destruct (IH p1 (setRowTail p1 s1) (dn ++ [row])) as (p' & s' & Hrun & Hw' & Hh'); [|done|].
  - destruct Hw1 as [[chars Ht] Hrm Hcm Hf]. unfold setRowTail. rewrite (Text.contentSize_holds _ _ _ Ht).
    rewrite concat_app. cbn [concat]. rewrite app_nil_r. split; cbn [bv _columnTails]; [by exists chars| |done|done].
    rewrite fmap_app. cbn [fmap list_fmap]. replace (zlen (cells_text (concat dn ++ row))) with (zlen (concat ((cells_text <$> dn) ++ [cells_text row]))).
    + apply set_end; [done|by apply cells_text_some|]. by rewrite concat_app, <- cells_text_concat; cbn [concat]; rewrite app_nil_r, <- cells_text_app.
    + by rewrite concat_app, <- cells_text_concat; cbn [concat]; rewrite app_nil_r, <- cells_text_app.
  - exists p', s'. split_and!; [exact Hrun|done|]. by rewrite Hh', <- Hh1.
Qed.

Lemma fill_written headers rows :
  table_ok rows → ∃ p s, fill_table headers rows = Ret (p, s) ∧ written p s rows (concat rows) ∧ _headers s = headers.
Proof.
  intros Hok. destruct (add_rows_written Text.new (new headers) [] rows) as (p & s & Hrun & Hw & Hh); [|done|by exists p, s].
  split; [exists []; apply Text.new_holds|apply new_marks..|done].
Qed.

Lemma size_cells ct (cells : list jsstr) :
  marks ct (cell_ends 0 cells) → cells ≠ [] → BV._size ct = zlen (cells_text cells) - 1.
Proof.
  intros Hm Hne. rewrite (marks_size _ _ Hm). destruct cells as [|c cells _] using rev_ind; [done|].
  rewrite cell_ends_app, cells_text_app, zlen_app, zlen_cell. cbn [cell_ends]. rewrite last_snoc. lia.
Qed.

(** ** Looking up a cell *)

Section lookup.
Context (s : t) (R1 R2 : list (list jsstr)) (c1 c2 : list jsstr) (cell : jsstr).
Abbreviation row := (c1 ++ cell :: c2).
Abbreviation rows := (R1 ++ row :: R2).
Context (Hok : table_ok rows) (Hr : marks (bv s) (ends 0 (cells_text <$> rows))) (Hrb : BV.built (bv s)).
Context (Hc : marks (_columnTails s) (cell_ends 0 (concat rows))) (Hcb : BV.built (_columnTails s)).

Abbreviation row_start := (zlen (cells_text (concat R1))).

Let cells_eq : concat rows = (concat R1 ++ c1) ++ cell :: (c2 ++ concat R2).
Proof. rewrite concat_app. cbn [concat]. by rewrite <- !app_assoc. Qed.

Let text_eq : zlen (cells_text (concat rows)) =
  row_start + zlen (cells_text c1) + (zlen cell + 1) + zlen (cells_text (c2 ++ concat R2)).
Proof.
  rewrite cells_eq. change (cell :: (c2 ++ concat R2)) with ([cell] ++ (c2 ++ concat R2)).
  rewrite (cells_text_app _ ([cell] ++ _)), (cells_text_app (concat R1)), (cells_text_app [cell]), !zlen_app, zlen_cell. lia.
Qed.

Lemma row_of off :
  0 ≤ off < zlen cell →
  BV.rank (bv s) (row_start + zlen (cells_text c1) + off) true = Ret (zlen R1) ∧
  part_start (ends 0 (cells_text <$> rows)) (zlen R1) = row_start.
Proof.
  intros Hoff. pose proof (zlen_nonneg (cells_text c1)). pose proof (zlen_nonneg (cells_text (concat R1))).
  pose proof (zlen_nonneg (cells_text (c2 ++ concat R2))). pose proof (zlen_nonneg (cells_text c2)).
  assert ((cells_text <$> rows) !! length R1 = Some (cells_text row)) as Hl by (by rewrite list_lookup_fmap, list_lookup_middle).
  assert (concat (@take jsstr (length R1) (cells_text <$> rows)) = cells_text (concat R1)) as Ht.
  { rewrite fmap_app, take_app_length' by by rewrite length_fmap. by rewrite cells_text_concat. }
  assert (part_start (ends 0 (cells_text <$> rows)) (zlen R1) = row_start) as Hps.
  { unfold zlen at 1. rewrite part_start_ends, Ht; [done|]. rewrite length_fmap, length_app. lia. }
  split; [|done]. pose proof (aget_ends 0 _ _ _ Hl) as He. rewrite Ht in He. fold (zlen R1) in He.
  rewrite (rank_marks _ _ Hr Hrb).
  - f_equal. apply (below_part _ _ Hr _ _ _ He). rewrite Hps. change (cell :: c2) with ([cell] ++ c2).
    rewrite !cells_text_app, !zlen_app, zlen_cell. lia.
  - rewrite (size_ends _ _ Hr), <- cells_text_concat, text_eq. lia.
Qed.

Lemma column_of off :
  0 ≤ off < zlen cell →
  BV.rank (_columnTails s) (row_start + zlen (cells_text c1) + off) true = Ret (zlen (concat R1) + zlen c1).
Proof.
  intros Hoff. pose proof (zlen_nonneg (cells_text c1)). pose proof (zlen_nonneg (cells_text (concat R1))).
  pose proof (zlen_nonneg (cells_text (c2 ++ concat R2))). rewrite (rank_marks _ _ Hc Hcb).
  - rewrite <- (zlen_app (concat R1) c1). f_equal. rewrite cells_eq. apply below_cells.
    + rewrite <- cells_eq. apply Hok.
    + rewrite cells_text_app, zlen_app. lia.
  - rewrite (size_cells _ _ Hc) by (rewrite cells_eq; by destruct (concat R1 ++ c1)). rewrite text_eq. lia.
Qed.

Lemma row_columns : BV.rank (_columnTails s) row_start true = Ret (zlen (concat R1)).
Proof.
  pose proof (zlen_nonneg (cells_text (concat R1))). assert (∃ f rest, row = f :: rest) as (f & rest & Hf) by (destruct c1; eauto).
  assert (concat rows = concat R1 ++ f :: (rest ++ concat R2)) as Heq by (rewrite concat_app; cbn [concat]; by rewrite Hf).
  pose proof (table_cells _ Hok) as Hne. rewrite Heq in Hne. pose proof Hne as [_ [Hf0 _]%Forall_cons]%Forall_app.
  assert (1 ≤ zlen f) by (destruct f as [|z f]; [done|]; rewrite zlen_cons; pose proof (zlen_nonneg f); lia).
  rewrite (rank_marks _ _ Hc Hcb).
  - f_equal. rewrite Heq. apply below_cells; [done|lia].
  - rewrite (size_cells _ _ Hc) by (rewrite Heq; by destruct (concat R1)). rewrite Heq.
    change (f :: (rest ++ concat R2)) with ([f] ++ (rest ++ concat R2)). rewrite (cells_text_app (concat R1)), (cells_text_app [f]), !zlen_app, zlen_cell.
    pose proof (zlen_nonneg (cells_text (rest ++ concat R2))). lia.
Qed.

Lemma getCell_spec off :
  0 ≤ off < zlen cell → getCell s (row_start + zlen (cells_text c1) + off) = Ret [zlen R1; zlen c1].
Proof.
  intros Hoff. pose proof (zlen_nonneg (cells_text c1)). pose proof (zlen_nonneg (cells_text (concat R1))).
  pose proof (zlen_nonneg (cells_text (c2 ++ concat R2))). pose proof (zlen_nonneg R1).
  destruct (row_of off Hoff) as [Hrow Hps]. unfold getCell. rewrite decide_False.
  2: { unfold BV.size. rewrite (size_ends _ _ Hr), <- cells_text_concat, text_eq. lia. }
  rewrite Hrow. cbn [mbind outcome_bind]. rewrite column_of by done. cbn [mbind outcome_bind].
  assert ((if decide (zlen R1 > 0) then
       startPosition ← BV.select (bv s) (zlen R1 - 1) true;
       BV.rank (_columnTails s) (startPosition + 1) true
     else Ret 0) = Ret (zlen (concat R1))) as ->.
  { case_decide as Hpos.
    - unfold part_start in Hps. destruct (aget_is_Some (ends 0 (cells_text <$> rows)) (zlen R1 - 1)) as [e He].
      { rewrite zlen_ends, zlen_fmap, zlen_app, zlen_cons. pose proof (zlen_nonneg R2). lia. }
      rewrite He in Hps. rewrite (select_marks _ _ Hr Hrb _ _ He). cbn [mbind outcome_bind]. rewrite Hps. apply row_columns.
    - destruct R1 as [|r0 R0]; [done|]. rewrite zlen_cons in Hpos. pose proof (zlen_nonneg R0). lia. }
  cbn [mbind outcome_bind]. do 3 f_equal. lia.
Qed.
End lookup.

(** a table that was filled cell by cell tells for every position inside a
    cell the row and the column of the cell. *)
Theorem table_cell headers R1 c1 cell c2 R2 off
  (Hok : table_ok (R1 ++ (c1 ++ cell :: c2) :: R2)) (Hoff : 0 ≤ off < zlen cell) :
  ∃ p s, fill_table headers (R1 ++ (c1 ++ cell :: c2) :: R2) = Ret (p, s) ∧
    getCell (_build s) (zlen (cells_text (concat R1)) + zlen (cells_text c1) + off) = Ret [zlen R1; zlen c1].
Proof.
  destruct (fill_written headers _ Hok) as (p & s & Hrun & [_ Hr Hc [Hf1 Hf2]] & _). exists p, s. split; [exact Hrun|].
  destruct (build_marks _ _ Hr Hf1) as [Hr' Hrb]. destruct (build_marks _ _ Hc Hf2) as [Hc' Hcb].
  by apply (getCell_spec _ R1 R2 c1 c2 cell).
Qed.

(** ** Reading a row *)

Lemma js_split_cell (c rest : jsstr) : 1 ∉ c → js_split (c ++ 1 :: rest) 1 = c :: js_split rest 1.
Proof.
  induction c as [|x c IH]; intros Hc; cbn [app js_split]; [by rewrite decide_True|].
  apply not_elem_of_cons in Hc as [Hx Hc]. rewrite decide_False by done. by rewrite IH.
Qed.

Lemma js_split_cells (row : list jsstr) : Forall (λ c, 1 ∉ c) row → js_split (cells_text row) 1 = row ++ [[]].
Proof.
  induction 1 as [|c row Hc _ IH]; [done|]. unfold cells_text. cbn [fmap list_fmap concat]. rewrite <- app_assoc. cbn [app].
  rewrite js_split_cell by done. fold (cells_text row). by rewrite IH.
Qed.

(** The object that pairs the headers with the values. *)
Definition record_of (headers values : list jsstr) : list (jsstr * jsstr) :=
  foldl (λ m e, Obj.put m e.1 e.2) [] (zip headers values).

Lemma foldl_put_get {V} (es m : list (jsstr * V)) k :
  NoDup es.*1 → Obj.get (foldl (λ m e, Obj.put m e.1 e.2) m es) k =
    match Obj.get es k with Some v => Some v | None => Obj.get m k end.
Proof.
  revert m. induction es as [|[k' v] es IH]; intros m Hnd; [done|]. cbn [foldl fst snd].
  rewrite fmap_cons in Hnd. apply NoDup_cons in Hnd as [Hk' Hnd]. rewrite IH by done. cbn [Obj.get]. rewrite Obj.get_put.
  case_decide as Hk; [subst|done]. by rewrite Obj.get_not_key.
Qed.

Lemma record_get headers values j h v :
  NoDup headers → headers !! j = Some h → values !! j = Some v → length values = length headers →
  Obj.get (record_of headers values) h = Some v.
Proof.
  intros Hnd Hh Hv Hlen. assert ((zip headers values).*1 = headers) as Hk by (apply fst_zip; lia).
  unfold record_of. rewrite foldl_put_get by by rewrite Hk.
  assert (Obj.get (zip headers values) h = Some v) as ->; [|done].
  assert ((h, v) ∈ zip headers values) as Hin by (apply (list_elem_of_lookup_2 _ j); by apply lookup_zip_Some).
  rewrite <- Hk in Hnd. clear -Hin Hnd. induction (zip headers values) as [|[h' v'] l IH]; [by apply elem_of_nil in Hin|].
  rewrite fmap_cons in Hnd. apply NoDup_cons in Hnd as [Hh' Hnd]. cbn [Obj.get].
  apply elem_of_cons in Hin as [[= <- <-]|Hin]; [by rewrite decide_True|].
  rewrite decide_False; [by apply IH|]. intros ->. apply Hh'. by apply (list_elem_of_fmap_2 fst) in Hin.
Qed.

Lemma getRowContent_spec p s r (content : jsstr) (row : list jsstr) :
  getContent p (bv s) r = Ret content → js_split content 1 = row ++ [[]] → length row = length (_headers s) →
  getRowContent p s r = Ret (record_of (_headers s) row).
Proof.
  intros Hc Hs Hlen. unfold getRowContent. rewrite Hc. cbn [mbind outcome_bind]. rewrite Hs, <- Hlen, take_app_length.
  unfold record_of. assert (zlen (_headers s) = zlen (zip (_headers s) row)) as ->.
  { unfold zlen. rewrite length_zip_with. lia. }
  rewrite (ofold_index _ (λ m e, Ret (Obj.put m e.1 e.2)) (zip (_headers s) row)).
  - by apply ofold_pure.
  - intros m i [h v] Hi. pose proof (aget_Some_range _ _ _ Hi). rewrite aget_nonneg in Hi by lia.
    apply lookup_zip_Some in Hi as [Hh Hv]. assert (aget (_headers s) i = Some h) as -> by (rewrite aget_nonneg by lia; exact Hh).
    assert (aget row i = Some v) as Hv' by (rewrite aget_nonneg by lia; exact Hv).
    cbn [of_option mbind outcome_bind]. by rewrite Hv'.
Qed.

(** The text of a row. *)
Lemma row_content p chars M density vec (R1 : list (list jsstr)) (row : list jsstr) R2 :
  marks vec (ends 0 (cells_text <$> R1 ++ row :: R2)) → BV.built vec →
  Text.indexed p chars (cells_text (concat (R1 ++ row :: R2))) M (Text.cacheRange density) →
  FM.next_checkpoint (Text.cacheRange density) (zlen (cells_text (concat (R1 ++ [row]))))
    ≤ zlen (cells_text (concat (R1 ++ row :: R2))) →
  getContent p vec (zlen R1) = Ret (cells_text row).
Proof.
  intros Hm Hbt Hi Hcp. set (docs := cells_text <$> R1 ++ row :: R2) in *.
  assert (docs !! length R1 = Some (cells_text row)) as Hl by (unfold docs; by rewrite list_lookup_fmap, list_lookup_middle).
  assert (concat (@take jsstr (length R1) docs) = cells_text (concat R1)) as Ht.
  { unfold docs. rewrite fmap_app, take_app_length' by by rewrite length_fmap. by rewrite cells_text_concat. }
  pose proof (aget_ends 0 _ _ _ Hl) as He. rewrite Ht in He. fold (zlen R1) in He.
  assert (part_start (ends 0 docs) (zlen R1) = zlen (cells_text (concat R1))) as Hps.
  { unfold zlen at 1. rewrite part_start_ends, Ht; [done|]. apply lookup_lt_Some in Hl. lia. }
  assert (cells_text (concat (R1 ++ row :: R2)) = cells_text (concat R1) ++ cells_text row ++ cells_text (concat R2)) as HT
    by (rewrite concat_app, cells_text_app; cbn [concat]; by rewrite cells_text_app).
  assert (zlen (cells_text (concat (R1 ++ [row]))) = zlen (cells_text (concat R1)) + zlen (cells_text row)) as Hend
    by (rewrite concat_app, cells_text_app, zlen_app; cbn [concat]; by rewrite app_nil_r).
  rewrite Hend, HT in Hcp. rewrite HT in Hi. rewrite !zlen_app in Hcp. pose proof (zlen_nonneg (cells_text (concat R2))).
  rewrite (content_marks _ _ Hm Hbt _ _ _ _ _ _ _ Hi He); rewrite ?zlen_app; [|lia|].
  - rewrite Hps. f_equal.
    replace (Z.to_nat (0 + zlen (cells_text (concat R1)) + zlen (cells_text row) - 1 + 1 - zlen (cells_text (concat R1))))
      with (length (cells_text row)) by (unfold zlen; lia).
    assert (Z.to_nat (zlen (cells_text (concat R1))) = length (cells_text (concat R1))) as -> by (unfold zlen; lia).
    rewrite drop_app_length. apply take_app_length.
  - by replace (0 + zlen (cells_text (concat R1)) + zlen (cells_text row) - 1 + 1)
      with (zlen (cells_text (concat R1)) + zlen (cells_text row)) by lia.
Qed.

(** a row of the table is read back as an object that gives each header its
    cell, where the checkpoint after the row is inside the text. *)
Theorem table_row headers (R1 : list (list jsstr)) (row : list jsstr) R2 density
  (Hok : table_ok (R1 ++ row :: R2)) (Hnd : NoDup headers) (Hlen : length row = length headers)
  (Hcp : FM.next_checkpoint (Text.cacheRange density) (zlen (cells_text (concat (R1 ++ [row]))))
         ≤ zlen (cells_text (concat (R1 ++ row :: R2)))) :
  ∃ p s p' m, fill_table headers (R1 ++ row :: R2) = Ret (p, s) ∧ Text.build p density = Ret p' ∧
    getRowContent p' (_build s) (zlen R1) = Ret m ∧
    ∀ j h v, headers !! j = Some h → row !! j = Some v → Obj.get m h = Some v.
Proof.
  destruct (fill_written headers _ Hok) as (p & s & Hrun & [(chars & Ht) Hr _ [Hf1 _]] & Hh). exists p, s.
  destruct (build_marks _ _ Hr Hf1) as [Hr' Hrb].
  destruct (Text.build_indexed p chars _ density Ht) as (p' & Hb & Hi & _).
  { apply cells_text_some. pose proof (table_rows _ Hok) as Hrows. apply Forall_app in Hrows as [_ [Hrow _]%Forall_cons].
    rewrite concat_app. cbn [concat]. intros [_ [? _]%app_nil]%app_nil. done. }
  { apply Hok. }
  exists p', (record_of headers row). split; [exact Hrun|]. split; [exact Hb|]. clear Hrun Hb.
  split; [|intros j h v Hj Hv; by apply (record_get headers row j)].
  rewrite <- Hh. change (_headers s) with (_headers (_build s)).
  apply (getRowContent_spec _ (_build s) _ (cells_text row)); [|apply js_split_cells|by cbn; rewrite Hh].
  - exact (row_content p' chars _ density _ R1 row R2 Hr' Hrb Hi Hcp).
  - pose proof (table_plain _ Hok) as Hp. rewrite concat_app in Hp. cbn [concat] in Hp. apply Forall_app in Hp as [_ Hp].
    apply Forall_app in Hp as [Hp _]. eapply Forall_impl; [exact Hp|]. intros c Hc Hin. rewrite Forall_forall in Hc.
    specialize (Hc 1 Hin). unfold Text.plain in Hc. lia.
Qed.

(** ** Instances *)

Definition sample_headers : list jsstr := [jstr "name"; jstr "age"].

Lemma sample_table_ok : table_ok ([[jstr "Ann"; jstr "31"]] ++ [jstr "Bob"; jstr "47"] :: [[jstr "Eve"; jstr "29"]]).
Proof. split; [decided|decided|unfold Text.plain; decided|vm_compute; reflexivity]. Qed.

Lemma table_cell_witness :
  ∃ p s, fill_table sample_headers [[jstr "Ann"; jstr "31"]; [jstr "Bob"; jstr "47"]; [jstr "Eve"; jstr "29"]] = Ret (p, s) ∧
    getCell (_build s) 12 = Ret [1; 1].
Proof.
  apply (table_cell sample_headers [[jstr "Ann"; jstr "31"]] [jstr "Bob"] (jstr "47") [] [[jstr "Eve"; jstr "29"]] 1).
  - exact sample_table_ok.
  - vm_compute. split; [discriminate|reflexivity].
Defined.

Lemma table_row_witness :
  ∃ p s p' m, fill_table sample_headers [[jstr "Ann"; jstr "31"]; [jstr "Bob"; jstr "47"]; [jstr "Eve"; jstr "29"]] = Ret (p, s) ∧
    Text.build p (Text.percent 100) = Ret p' ∧ getRowContent p' (_build s) 1 = Ret m ∧ Obj.get m (jstr "age") = Some (jstr "47").
Proof.
  destruct (table_row sample_headers [[jstr "Ann"; jstr "31"]] [jstr "Bob"; jstr "47"] [[jstr "Eve"; jstr "29"]] (Text.percent 100) sample_table_ok)
    as (p & s & p' & m & Hf & Hb & Hm & Hget).
  - decided.
  - reflexivity.
  - vm_compute. discriminate.
  - exists p, s, p', m. split; [exact Hf|]. split; [exact Hb|]. split; [exact Hm|]. apply (Hget 1%nat); reflexivity.
Defined.
End Tab.
