(* ===== verification/Blocks.v ===== *)
(** * Blocks

    Models the class [Block] of [src/misc/oktavia/src/metadata.jsx]: named parts of
    the text with other text between them; the marks open and close a block in
    turn. *)

From stdpp Require Import pretty.
From S2P Require Import Prelude JsObject Binary BitVector FMIndex Lang Text SearchResult Metadata.

Local Open Scope Z_scope.

Module Blk.
Import Meta.
Record t := mk { bv : BV.t; _names : list jsstr; _start : bool }.

Definition new : t := mk BV.new [] false.

(** The message names the block that is open; [last] is there when one is. *)
Definition startBlock (s : t) (blockName : jsstr) (index : Z) : outcome t :=
  if _start s then Throw "Splitter is not closed"
  else Ret (mk (BV.set (bv s) (index - 1) true) (_names s ++ [blockName]) true).

Definition endBlock (s : t) (index : Z) : outcome t :=
  if negb (_start s) then Throw "Splitter is not started"
  else Ret (mk (BV.set (bv s) (index - 1) true) (_names s) false).

Definition size (s : t) : Z := zlen (_names s).

Definition blockIndex (p : Text.t) (s : t) (position : Z) : outcome Z :=
  if decide (position < 0 ∨ FM.size (Text._fmindex p) - 1 <= position)
  then Throw ("Block.blockIndex() : range error " +:+ pretty position)
  else if decide (position >= BV.size (bv s)) then
    r ← BV.rank (bv s) (BV.size (bv s) - 1) true; Ret (r + 1)
  else BV.rank (bv s) position true.

Definition inBlock (p : Text.t) (s : t) (position : Z) : outcome bool :=
  blockIndex ← blockIndex p s position;
  Ret (bool_decide (js_rem blockIndex 2 ≠ 0)).

Definition getBlockContent (p : Text.t) (s : t) (position : Z) : outcome jsstr :=
  blockIndex ← blockIndex p s position;
  if decide (js_rem blockIndex 2 ≠ 0) then getContent p (bv s) blockIndex else Ret [].

Definition getBlockName (p : Text.t) (s : t) (position : Z) : outcome jsstr :=
  blockIndex ← blockIndex p s position;
  if decide (js_rem blockIndex 2 ≠ 0) then of_option (aget (_names s) (js_shr blockIndex 1)) else Ret [].

Definition _load (data : jsstr) (offset : Z) : outcome (t * Z) :=
  '(names, offset) ← Bin.loadStringList data offset;
  '(bv, offset) ← base_load data offset;
  Ret (mk bv names false, offset).

Definition dump (s : t) (r : report) : outcome (jsstr * report) :=
  let r := Bin.report_opt r 1 1 in
  let '(names, r) := Bin.dumpStringList (_names s) r in
  '(bits, r) ← base_dump (bv s) r;
  Ret (Bin.dump16bitNumber 3 ++ names ++ bits, r).

#[global] Instance block_metadata : Metadata t := {
  _bitVector := bv;
  _build s := mk (BV.build (bv s)) (_names s) (_start s);
  grouping s h result positions word stemmed := Ret (h, result);
  getInformation s index := Ret [];
  _dump := dump;
}.
(** ** Saving and loading: an open block is not open afterwards *)

Definition saveable (s : t) : Prop := BV.wf (bv s) ∧ Bin.strings_ok (_names s).
Definition norm (s : t) : t := mk (BV.norm (bv s)) (_names s) false.

#[global] Instance block_saved : Saved t saveable 3 _load norm.
Proof.
  intros s r [Hbv Hn]. cbn [_dump block_metadata]. unfold dump, base_dump.
  destruct (names_saved _ (Bin.report_opt r 1 1) Hn) as (nb & r1 & -> & Hln).
  destruct (bits_saved _ r1 Hbv) as (bb & r2 & -> & Hlb). cbn [mbind outcome_bind].
  exists (nb ++ bb), r2. split; [done|]. intros data off [H1 H2]%has_at_app.
  unfold _load, base_load. rewrite Hln by done. cbn [mbind outcome_bind]. rewrite Hlb by done. cbn [mbind outcome_bind].
  by rewrite zlen_app, Z.add_assoc.
Qed.

(** ** Marking blocks *)

(** A block: its name, its first position and the position after its last. *)
Record block := mkBlock { name : jsstr; first : Z; stop : Z }.

Definition add_block (s : t) (b : block) : outcome t :=
  s ← startBlock s (name b) (first b);
  endBlock s (stop b).

Definition block_marks (bs : list block) : list Z := concat ((λ b, [first b - 1; stop b - 1]) <$> bs).

(** Blocks one after the other, with text before and between them. *)
Fixpoint apart (from : Z) (bs : list block) : Prop :=
  match bs with
  | [] => True
  | b :: bs => from < first b < stop b ∧ stop b < 2 ^ 31 ∧ apart (stop b) bs
  end.

Lemma block_marks_range from bs : apart from bs → Forall (λ e, from ≤ e) (block_marks bs).
Proof.
  revert from. induction bs as [|b bs IH]; intros from Hb; [constructor|]. destruct Hb as (Hf & Hs & Hb).
  unfold block_marks. cbn [fmap list_fmap concat app]. constructor; [lia|]. constructor; [lia|].
  eapply Forall_impl; [by apply IH|]. simpl. lia.
Qed.

(** The block at a position, with its index. *)
Fixpoint block_at (bs : list block) (pos : Z) : option (Z * block) :=
  match bs with
  | [] => None
  | b :: bs => if decide (first b ≤ pos < stop b) then Some (0, b) else prod_map Z.succ id <$> block_at bs pos
  end.

Lemma below_blocks from bs pos :
  apart from bs →
  match block_at bs pos with
  | Some (j, b) => below (block_marks bs) pos = 2 * j + 1 ∧ aget bs j = Some b
  | None => ∃ j, 0 ≤ j ∧ below (block_marks bs) pos = 2 * j
  end.
Proof.
  revert from. induction bs as [|b bs IH]; intros from Hb; [by exists 0|]. destruct Hb as (Hf & Hs & Hb).
  assert (block_marks (b :: bs) = [first b - 1] ++ [stop b - 1] ++ block_marks bs) as -> by done.
  rewrite !below_app. cbn [block_at]. case_decide as Hin.
  - split; [|done]. rewrite (below_all [_]), (below_none [stop b - 1]), (below_none (block_marks bs)); [done| |..].
    + eapply Forall_impl; [by apply block_marks_range|]. simpl. lia.
    + repeat constructor. lia.
    + repeat constructor. lia.
  - destruct (decide (pos < first b)) as [Hlt|Hge].
    + assert (block_at bs pos = None) as ->.
      { assert (pos < stop b) as Hp by lia. clear -Hb Hp. revert Hb Hp. generalize (stop b) as fr.
        induction bs as [|c bs IH]; intros fr Hb Hp; [done|]. destruct Hb as (? & ? & Hb). cbn [block_at].
        rewrite decide_False by lia. by rewrite (IH (stop c)) by (done || lia). }
      exists 0. rewrite (below_none [first b - 1]), (below_none [stop b - 1]), (below_none (block_marks bs)); [done| |repeat constructor; lia..].
      eapply Forall_impl; [by apply block_marks_range|]. simpl. lia.
    + rewrite (below_all [first b - 1]), (below_all [stop b - 1]) by (repeat constructor; lia).
      change (zlen [first b - 1]) with 1. change (zlen [stop b - 1]) with 1. specialize (IH (stop b) Hb).
      destruct (block_at bs pos) as [[j c]|]; cbn.
      * destruct IH as [IH1 IH2]. pose proof (aget_Some_range _ _ _ IH2). split; [lia|].
        rewrite aget_cons, decide_False by lia. by replace (Z.succ j - 1) with j by lia.
      * destruct IH as (j & Hj & IH). exists (j + 1). lia.
Qed.

Record marked (s : t) (bs : list block) : Prop := {
  marked_bits : marks (bv s) (block_marks bs);
  marked_names : _names s = name <$> bs;
  marked_closed : _start s = false;
}.

(** Adding blocks in order. *)
Lemma add_blocks bs s pre from :
  marked s pre → BV._r (bv s) = [] → 0 ≤ from → Forall (λ e, e < from) (block_marks pre) → apart from bs →
  ∃ s', ofold add_block s bs = Ret s' ∧ marked s' (pre ++ bs) ∧ BV._r (bv s') = [].
Proof.
  revert s pre from. induction bs as [|b bs IH]; intros s pre from Hm Hr H0 Hpre Hb.
  { exists s. by rewrite app_nil_r. }
  destruct Hb as (Hf & Hs & Hb). destruct Hm as [Hm Hn Hc]. cbn [ofold].
  assert (add_block s b = Ret (mk (BV.set (BV.set (bv s) (first b - 1) true) (stop b - 1) true) (_names s ++ [name b]) false)) as ->
    by (unfold add_block, startBlock, endBlock; by rewrite Hc).
  cbn [mbind outcome_bind]. rewrite (cons_middle b), app_assoc.
  apply (IH _ _ (stop b)); [|done|lia| |done].
  - split; cbn [bv _names _start]; [|by rewrite Hn, fmap_app|done].
    assert (block_marks (pre ++ [b]) = (block_marks pre ++ [first b - 1]) ++ [stop b - 1]) as ->
      by (unfold block_marks; rewrite fmap_app, concat_app; cbn; by rewrite <- app_assoc).
    apply set_marks; [apply set_marks; [done|lia|]|lia|].
    + eapply Forall_impl; [exact Hpre|]. simpl. lia.
    + apply Forall_app. split; [eapply Forall_impl; [exact Hpre|]; simpl; lia|]. repeat constructor. lia.
  - unfold block_marks. rewrite fmap_app, concat_app. apply Forall_app. split.
    + eapply Forall_impl; [exact Hpre|]. simpl. lia.
    + cbn. repeat constructor; lia.
Qed.

(** ** Looking up a position *)

Section lookup.
Context (p : Text.t) (s : t) (es : list Z) (Hm : marks (bv s) es) (Hbt : BV.built (bv s)) (Hne : es ≠ []).

Lemma below_size pos : below es pos ≤ BV._size (bv s).
Proof.
  pose proof (BV.wf_size _ (marks_wf _ _ Hm)). etrans; [apply below_le|].
  rewrite <- (below_all es (BV._size (bv s))) by (apply Forall_forall; intros e He; by apply (marks_in _ _ Hm)).
  pose proof (cnt_marks _ _ Hm (Z.to_nat (BV._size (bv s)))) as Hc. rewrite Z2Nat.id in Hc by lia. rewrite <- Hc.
  pose proof (BV.cnt_bound (BV.eqbit (BV._v (bv s)) true) 0 (Z.to_nat (BV._size (bv s)))). lia.
Qed.

Lemma blockIndex_spec pos :
  0 ≤ pos < FM.size (Text._fmindex p) - 1 → blockIndex p s pos = Ret (below es pos).
Proof.
  intros Hp. unfold blockIndex. rewrite decide_False by lia. unfold BV.size. case_decide as Hge.
  - destruct (list.last es) as [e|] eqn:Hl; [|by apply last_None in Hl]. pose proof (marks_size _ _ Hm) as Hsz. rewrite Hl in Hsz.
    apply last_Some in Hl as [l Hl]. assert (e ∈ es) as He by (rewrite Hl; apply elem_of_app; right; left).
    pose proof (marks_in _ _ Hm e He). rewrite (rank_marks _ _ Hm Hbt) by lia. cbn [mbind outcome_bind]. f_equal.
    rewrite (below_all es pos) by (apply Forall_forall; intros x Hx; pose proof (marks_in _ _ Hm x Hx); lia).
    rewrite Hsz. replace (e + 1 - 1) with e by lia. rewrite (below_index _ _ Hm (zlen l) e), Hl, zlen_app; [done|].
    by rewrite Hl, aget_app_r, Z.sub_diag by lia.
  - apply (rank_marks _ _ Hm Hbt). lia.
Qed.

(** An odd number of marks before the position. *)
Lemma in_block pos j :
  0 ≤ pos < FM.size (Text._fmindex p) - 1 → below es pos = 2 * j + 1 →
  inBlock p s pos = Ret true ∧ getBlockName p s pos = of_option (aget (_names s) j).
Proof.
  intros Hp Hj. pose proof (below_nonneg es pos). pose proof (below_size pos). pose proof (BV.wf_size _ (marks_wf _ _ Hm)).
  unfold inBlock, getBlockName. rewrite blockIndex_spec by done. cbn [mbind outcome_bind]. rewrite js_rem_nonneg by lia.
  assert (below es pos mod 2 = 1) as Hodd by (rewrite Hj; Z.div_mod_to_equations; lia). rewrite Hodd. split; [done|].
  rewrite decide_True by done. rewrite js_shr_div by lia. do 2 f_equal. rewrite Hj. Z.div_mod_to_equations. lia.
Qed.

Lemma not_in_block pos j :
  0 ≤ pos < FM.size (Text._fmindex p) - 1 → below es pos = 2 * j →
  inBlock p s pos = Ret false ∧ getBlockName p s pos = Ret [].
Proof.
  intros Hp Hj. pose proof (below_nonneg es pos). unfold inBlock, getBlockName. rewrite blockIndex_spec by done.
  cbn [mbind outcome_bind]. rewrite js_rem_nonneg by lia.
  assert (below es pos mod 2 = 0) as Heven by (rewrite Hj; Z.div_mod_to_equations; lia). rewrite Heven. done.
Qed.
End lookup.

(** C32: positions are told apart by the blocks they are in: with at least one block,
    the first of them after position 0, and none that touches the next one, a
    position is in a block exactly if one contains it, and then it has the name of
    that block. *)
Theorem block_membership p bs pos
  (Hb : apart 0 bs) (Hne : bs ≠ []) (Hp : 0 ≤ pos < FM.size (Text._fmindex p) - 1) :
  ∃ s, ofold add_block new bs = Ret s ∧
    inBlock p (_build s) pos = Ret (bool_decide (is_Some (block_at bs pos))) ∧
    getBlockName p (_build s) pos = Ret (match block_at bs pos with Some (_, b) => name b | None => [] end).
Proof.
  destruct (add_blocks bs new [] 0) as (s & Hrun & [Hm Hn Hc] & Hr); [split; [apply new_marks|done|done]|done|lia|constructor|done|].
  exists s. split; [done|]. destruct (build_marks _ _ Hm Hr) as [Hm' Hbt]. cbn [app] in *.
  assert (block_marks bs ≠ []) as Hne' by (by destruct bs). pose proof (below_blocks 0 bs pos Hb) as Hbl.
  change (_build s) with (mk (BV.build (bv s)) (_names s) (_start s)). set (s' := mk _ _ _).
  destruct (block_at bs pos) as [[j b]|].
  - destruct Hbl as [Hj Hjb]. destruct (in_block p s' _ Hm' Hbt Hne' pos j Hp Hj) as [-> ->]. split; [done|].
    cbn [_names s']. by rewrite Hn, aget_fmap, Hjb.
  - destruct Hbl as (j & _ & Hj). destruct (not_in_block p s' _ Hm' Hbt Hne' pos j Hp Hj) as [-> ->]. done.
Qed.

(** without any block the rank of position -1 is asked for, which reads an entry
    before the start of the table of ranks. *)
Theorem no_blocks p pos (Hp : 0 ≤ pos < FM.size (Text._fmindex p) - 1) : inBlock p (_build new) pos = Undef.
Proof. unfold inBlock, blockIndex. rewrite decide_False, decide_True by (cbn; lia). vm_compute. reflexivity. Qed.

(** a block that starts where the one before it ends shares its mark, which
    turns everything after it inside out: the second block is not found, and all
    the text after it counts as inside. *)
Theorem adjacent_blocks p a b c n1 n2 pos
  (Habc : 0 < a < b ∧ b < c < 2 ^ 31) (Hp : b ≤ pos < FM.size (Text._fmindex p) - 1) :
  ∃ s, ofold add_block new [mkBlock n1 a b; mkBlock n2 b c] = Ret s ∧
    inBlock p (_build s) pos = Ret (bool_decide (c ≤ pos)) ∧
    getBlockName p (_build s) pos = Ret (if decide (c ≤ pos) then n2 else []).
Proof.
  eexists. split; [done|]. set (v := BV.set (BV.set (BV.set (BV.set BV.new (a - 1) true) (b - 1) true) (b - 1) true) (c - 1) true).
  assert (marks v (([a - 1] ++ [b - 1]) ++ [c - 1])) as Hm.
  { apply set_marks; [|lia|repeat constructor; lia]. apply set_marks_again; [|lia|done].
    apply set_marks; [|lia|repeat constructor; lia]. apply (set_marks _ []); [apply new_marks|lia|constructor]. }
  destruct (build_marks v _ Hm eq_refl) as [Hm' Hbt].
  match goal with |- inBlock _ ?x _ = _ ∧ _ => change x with (mk (BV.build v) [n1; n2] false) end. set (s' := mk _ _ _).
  assert (below (([a - 1] ++ [b - 1]) ++ [c - 1]) pos = if decide (c ≤ pos) then 2 * 1 + 1 else 2 * 1) as Hbl.
  { rewrite below_app, (below_all (_ ++ _)) by (repeat constructor; lia). case_decide.
    - by rewrite below_all by (repeat constructor; lia).
    - by rewrite below_none by (repeat constructor; lia). }
  destruct (decide (c ≤ pos)) as [Hc|Hc].
  - destruct (in_block p s' _ Hm' Hbt ltac:(done) pos 1 ltac:(lia) Hbl) as [-> ->]. by rewrite bool_decide_eq_true_2.
  - destruct (not_in_block p s' _ Hm' Hbt ltac:(done) pos 1 ltac:(lia) Hbl) as [-> ->]. by rewrite bool_decide_eq_false_2.
Qed.

(** ** Instances *)

Lemma sample_text : ∃ p, (p ← Text.addWord Text.new (jstr "a title, the text and a note"); Text.build p (Text.percent 5)) = Ret p ∧
  FM.size (Text._fmindex p) = 29.
Proof.
  destruct (Text.addWord_holds Text.new [] [] (jstr "a title, the text and a note") Text.new_holds) as (p0 & Ha & Hh);
    [unfold Text.plain; decided|discriminate|].
  destruct (Text.build_indexed p0 _ _ (Text.percent 5) Hh) as (p & Hb & [_ _ _ _ (sa & Hr)] & _); [discriminate|vm_compute; reflexivity|].
  exists p. split; [rewrite Ha; exact Hb|]. rewrite (FM.size_text _ _ _ _ (FM.repr_tables _ _ _ _ Hr)), zlen_app, zlen_fmap. reflexivity.
Qed.

Lemma block_membership_witness :
  ∃ p s, FM.size (Text._fmindex p) = 29 ∧ ofold add_block new [mkBlock (jstr "title") 2 7; mkBlock (jstr "note") 24 28] = Ret s ∧
    getBlockName p (_build s) 3 = Ret (jstr "title").
Proof.
  destruct sample_text as (p & _ & Hsz). exists p.
  destruct (block_membership p [mkBlock (jstr "title") 2 7; mkBlock (jstr "note") 24 28] 3) as (s & Hs & _ & Hn).
  - cbn. lia.
  - discriminate.
  - rewrite Hsz. lia.
  - exists s. split; [exact Hsz|]. split; [exact Hs|exact Hn].
Defined.

Lemma no_blocks_witness : ∃ p, FM.size (Text._fmindex p) = 29 ∧ inBlock p (_build new) 3 = Undef.
Proof. destruct sample_text as (p & _ & Hsz). exists p. split; [exact Hsz|]. apply (no_blocks p 3). rewrite Hsz. lia. Defined.

Lemma adjacent_blocks_witness :
  ∃ p s, FM.size (Text._fmindex p) = 29 ∧ ofold add_block new [mkBlock (jstr "title") 2 7; mkBlock (jstr "note") 7 12] = Ret s ∧
    inBlock p (_build s) 9 = Ret false.
Proof.
  destruct sample_text as (p & _ & Hsz). exists p.
  destruct (adjacent_blocks p 2 7 12 (jstr "title") (jstr "note") 9) as (s & Hs & Hin & _).
  - lia.
  - rewrite Hsz. lia.
  - exists s. split; [exact Hsz|]. split; [exact Hs|exact Hin].
Defined.
End Blk.
