(* ===== verification/Oktavia.v ===== *)
(** * The search engine

    Models [src/misc/oktavia/src/oktavia.jsx]: the object that holds the text, its
    metadata and the table of stemmed words, is filled, built, searched, saved and
    loaded.  The text and its codes are in [Text].

    A stemmer is an implementation of the interface of [stemmer/stemmer.jsx], given
    by its function [stemWord].  [toLowerCase] is a parameter: it is the table of
    Unicode. *)

From S2P Require Import Prelude JsObject Binary BitVector FMIndex Lang Query Text SearchResult Metadata Sections Splitters Tables Blocks.

Local Open Scope Z_scope.

Module Okt.
Import Meta.

(** An object of one of the classes. *)
Inductive metadata :=
  | MSection (s : Sec.t)
  | MSplitter (s : Spl.t)
  | MTable (s : Tab.t)
  | MBlock (s : Blk.t).

#[global] Instance metadata_any : Metadata metadata := {
  _bitVector m := match m with
    | MSection s => _bitVector s | MSplitter s => _bitVector s | MTable s => _bitVector s | MBlock s => _bitVector s end;
  _build m := match m with
    | MSection s => MSection (_build s) | MSplitter s => MSplitter (_build s)
    | MTable s => MTable (_build s) | MBlock s => MBlock (_build s) end;
  grouping m := match m with
    | MSection s => grouping s | MSplitter s => grouping s | MTable s => grouping s | MBlock s => grouping s end;
  getInformation m := match m with
    | MSection s => getInformation s | MSplitter s => getInformation s
    | MTable s => getInformation s | MBlock s => getInformation s end;
  _dump m := match m with
    | MSection s => _dump s | MSplitter s => _dump s | MTable s => _dump s | MBlock s => _dump s end;
}.

Record t := mk {
  text : Text.t;
  _metadatas : list (jsstr * metadata);
  _metadataLabels : list jsstr;
  _stemmer : option (jsstr → jsstr);
  _stemmingResult : list (jsstr * list jsstr);
}.

Definition new : t := mk Text.new [] [] None [].

Definition setStemmer (o : t) (stemmer : jsstr → jsstr) : t :=
  mk (text o) (_metadatas o) (_metadataLabels o) (Some stemmer) (_stemmingResult o).

Definition with_text (o : t) (p : Text.t) : t :=
  mk p (_metadatas o) (_metadataLabels o) (_stemmer o) (_stemmingResult o).

(** Without metadata the label is [undefined], and so is what it names. *)
Definition getPrimaryMetadata (o : t) : outcome metadata :=
  match _metadataLabels o with
  | [] => Throw "TypeError"
  | label :: _ => of_option (Obj.get (_metadatas o) label)
  end.

(** [addSection], [addSplitter], [addTable] and [addBlock], which differ in the
    object they make; the messages quote the name. *)
Definition add (o : t) (key : jsstr) (m : metadata) : outcome t :=
  if decide (indexOf (_metadataLabels o) key ≠ -1) then Throw "Metadata name is already exists"
  else Ret (mk (text o) (Obj.put (_metadatas o) key m) (_metadataLabels o ++ [key]) (_stemmer o) (_stemmingResult o)).

Definition addSection (o : t) (key : jsstr) : outcome t := add o key (MSection Sec.new).
Definition addSplitter (o : t) (key : jsstr) : outcome t := add o key (MSplitter Spl.new).
Definition addTable (o : t) (key : jsstr) (headers : list jsstr) : outcome t := add o key (MTable (Tab.new headers)).
Definition addBlock (o : t) (key : jsstr) : outcome t := add o key (MBlock Blk.new).

(** [getSection], [getSplitter], [getTable] and [getBlock]; the cast to the class
    gives [null] for an object of another one. *)
Definition getMetadata (o : t) (key : jsstr) : outcome metadata :=
  if decide (indexOf (_metadataLabels o) key = -1) then Throw "Metadata name does't exists"
  else of_option (Obj.get (_metadatas o) key).

Definition getSection (o : t) (key : jsstr) : outcome (option Sec.t) :=
  m ← getMetadata o key; Ret (match m with MSection s => Some s | _ => None end).
Definition getSplitter (o : t) (key : jsstr) : outcome (option Spl.t) :=
  m ← getMetadata o key; Ret (match m with MSplitter s => Some s | _ => None end).
Definition getTable (o : t) (key : jsstr) : outcome (option Tab.t) :=
  m ← getMetadata o key; Ret (match m with MTable s => Some s | _ => None end).
Definition getBlock (o : t) (key : jsstr) : outcome (option Blk.t) :=
  m ← getMetadata o key; Ret (match m with MBlock s => Some s | _ => None end).

Definition addEndOfBlock (o : t) : outcome t := p ← Text.addEndOfBlock (text o); Ret (with_text o p).
Definition addWord (o : t) (words : jsstr) : outcome t := p ← Text.addWord (text o) words; Ret (with_text o p).
Definition contentSize (o : t) : Z := Text.contentSize (text o).
Definition wordPositionType (o : t) (position : Z) : outcome Z := Text.wordPositionType (text o) position.

(** The methods of the metadata that take their position from the text: the
    object in the table is the one the client holds. *)
Definition with_metadata (o : t) (key : jsstr) (m : metadata) : t :=
  mk (text o) (Obj.put (_metadatas o) key m) (_metadataLabels o) (_stemmer o) (_stemmingResult o).

(** A method called on [null]. *)
Definition object {A} (m : outcome (option A)) : outcome A :=
  a ← m; match a with Some a => Ret a | None => Throw "TypeError" end.

Definition section_setTail (o : t) (key name : jsstr) : outcome t :=
  s ← object (getSection o key);
  Ret (with_metadata o key (MSection (Sec.setTail s name (contentSize o)))).

Definition splitter_split (o : t) (key : jsstr) : outcome t :=
  s ← object (getSplitter o key);
  Ret (with_metadata o key (MSplitter (Spl.split s (contentSize o)))).

Definition table_setColumnTail (o : t) (key : jsstr) : outcome t :=
  s ← object (getTable o key);
  '(p, s) ← Tab.setColumnTail (text o) s;
  Ret (with_metadata (with_text o p) key (MTable s)).

Definition table_setRowTail (o : t) (key : jsstr) : outcome t :=
  s ← object (getTable o key);
  Ret (with_metadata o key (MTable (Tab.setRowTail (text o) s))).

Definition block_startBlock (o : t) (key blockName : jsstr) : outcome t :=
  s ← object (getBlock o key);
  s ← Blk.startBlock s blockName (contentSize o);
  Ret (with_metadata o key (MBlock s)).

Definition block_endBlock (o : t) (key : jsstr) : outcome t :=
  s ← object (getBlock o key);
  s ← Blk.endBlock s (contentSize o);
  Ret (with_metadata o key (MBlock s)).

Section stemming.
Context (toLowerCase : jsstr → jsstr).

(** The entry of a word in the table of stemmed words, if it gets one. *)
Definition registerWord (o : t) (originalWord : jsstr) (stemming : bool) : option jsstr :=
  let smallWord := toLowerCase (js_slice originalWord 0 1) ++ js_slice originalWord 1 (zlen originalWord) in
  match (if stemming then _stemmer o else None) with
  | Some stemWord =>
    let baseWord := stemWord (toLowerCase originalWord) in
    if Lang.contains originalWord baseWord then None else Some baseWord
  | None => if decide (originalWord = smallWord) then None else Some smallWord
  end.

(** The body of the loop: an entry is a list of words, unless its key is the name
    of a method that every object has. *)
Definition stem_word (o : t) (stemming : bool) (table : list (jsstr * list jsstr)) (originalWord : jsstr)
    : outcome (list (jsstr * list jsstr)) :=
  match registerWord o originalWord stemming with
  | None | Some [] => Ret table
  | Some key =>
    let compressedCodeWord := Text._convertToCompressionCode (text o) originalWord in
    match Obj.read table key with
    | Obj.Absent => Ret (Obj.put table key [compressedCodeWord])
    | Obj.Own stemmedList =>
      if decide (indexOf stemmedList compressedCodeWord = -1)
      then Ret (Obj.put table key (stemmedList ++ [compressedCodeWord])) else Ret table
    | Obj.Inherited _ => Throw "TypeError"
    end
  end.

Definition addWord_stemming (o : t) (words : jsstr) (stemming : bool) : outcome t :=
  o ← addWord o words;
  table ← ofold (stem_word o stemming) (_stemmingResult o) (Lang.split_spaces words [] false);
  Ret (mk (text o) (_metadatas o) (_metadataLabels o) (_stemmer o) table).

(** A method that is found in the place of a list has no words: its slots are
    [undefined], which cannot be searched for. *)
Definition rawSearch (o : t) (keyword : jsstr) (stemming : bool) : outcome (list Z) :=
  if stemming then
    match _stemmer o with
    | None => Ret []
    | Some stemWord =>
      match Obj.read (_stemmingResult o) (stemWord (toLowerCase keyword)) with
      | Obj.Absent => Ret []
      | Obj.Own stemmedList =>
        ofold (λ result word, found ← FM.search (Text._fmindex (text o)) word; Ret (result ++ found)) [] stemmedList
      | Obj.Inherited n => if decide (0 < n) then Throw "TypeError" else Ret []
      end
    end
  else FM.search (Text._fmindex (text o)) (Text._convertToCompressionCode (text o) keyword).

Definition _searchQuery (h : SR.store) (o : t) (query : Query.t) : outcome (SR.store * SR.SingleResult) :=
  let result := SR.result_for (Query.word query) (Query.or query) (Query.not query) in
  positions ←
    (if Query.raw query then rawSearch o (Query.word query) false
     else
       plain ← rawSearch o (Query.word query) false;
       stemmed ← rawSearch o (Query.word query) true;
       Ret (plain ++ stemmed));
  m ← getPrimaryMetadata o;
  grouping m h result positions (Query.word query) (negb (Query.raw query)).

Definition search (h : SR.store) (o : t) (queries : list Query.t) : outcome (SR.store * SR.SearchSummary) :=
  '(h, summary) ← ofold (λ '(h, summary) query,
    '(h, result) ← _searchQuery h o query;
    Ret (h, SR.addQuery summary result)) (h, SR.summary_new) queries;
  SR.summary_merge h summary.
End stemming.

Definition build (o : t) (cacheDensity : Text.number) : outcome t :=
  p ← Text.build (text o) cacheDensity;
  Ret (mk p (prod_map id _build <$> _metadatas o) (_metadataLabels o) (_stemmer o) (_stemmingResult o)).

(** ** Saving and loading *)

Definition header : jsstr := js_slice (fst (Bin.dumpString (jstr "oktavia-01") None)) 1 6.

(** The loop of [dump] over the labels. *)
Fixpoint dump_metadata (metadatas : list (jsstr * metadata)) (labels : list jsstr) : outcome jsstr :=
  match labels with
  | [] => Ret []
  | name :: labels =>
    m ← of_option (Obj.get metadatas name);
    '(data, report) ← _dump m (Some Bin.report_new);
    let '(label, _) := Bin.dumpString name report in
    rest ← dump_metadata metadatas labels;
    Ret (label ++ data ++ rest)
  end.

(** [verbose] only adds messages on the console. *)
Definition dump (o : t) : outcome jsstr :=
  fmdata ← FM.dump (Text._fmindex (text o));
  let codes := Text._compressCode2utf16 (text o) in
  let '(stems, _) := Bin.dumpStringListMap (_stemmingResult o) (Some Bin.report_new) in
  metadata ← dump_metadata (_metadatas o) (_metadataLabels o);
  Ret (header ++ fmdata ++ Bin.dump16bitNumber (zlen codes) ++ concat (drop 3 codes) ++ stems ++
       Bin.dump16bitNumber (zlen (_metadataLabels o)) ++ metadata).

(** The loop over the character codes: the tables and the offset. *)
Definition load_code (data : jsstr) (st : list (Z * jsstr) * list jsstr * Z) (i : Z)
    : outcome (list (Z * jsstr) * list jsstr * Z) :=
  let '(toCode, fromCode, offset) := st in
  charCode ← Bin.load16bitNumber data offset;
  Ret (IMap.put toCode charCode (fromCharCode i), fromCode ++ [fromCharCode charCode], offset + 1).

(** The object that [type] names; for another [type] nothing is read. *)
Definition load_object (type : Z) (data : jsstr) (offset : Z) : outcome (option (metadata * Z)) :=
  if decide (type = 0) then '(s, offset) ← Sec._load data offset; Ret (Some (MSection s, offset))
  else if decide (type = 1) then '(s, offset) ← Spl._load data offset; Ret (Some (MSplitter s, offset))
  else if decide (type = 2) then '(s, offset) ← Tab._load data offset; Ret (Some (MTable s, offset))
  else if decide (type = 3) then '(s, offset) ← Blk._load data offset; Ret (Some (MBlock s, offset))
  else Ret None.

(** The body of the loop over the metadata: an object that is read is registered
    under its name. *)
Definition load_metadata (data : jsstr) (st : list (jsstr * metadata) * list jsstr * Z) (i : Z)
    : outcome (list (jsstr * metadata) * list jsstr * Z) :=
  let '(metadatas, labels, offset) := st in
  '(name, offset) ← Bin.loadString data offset;
  type ← Bin.load16bitNumber data offset;
  let offset := offset + 1 in
  loaded ← load_object type data offset;
  match loaded with
  | Some (m, offset) => Ret (Obj.put metadatas name m, labels ++ [name], offset)
  | None => Ret (metadatas, labels, offset)
  end.

Definition load (o : t) (data : jsstr) : outcome t :=
  if decide (js_slice data 0 5 ≠ header) then Throw "Invalid data file"
  else
    '(fm, offset) ← FM.load (Text._fmindex (text o)) data 5;
    charCodeCount ← Bin.load16bitNumber data offset;
    '(toCode, fromCode, offset) ← ofold (load_code data)
      ([(0, Text.eof); (1, Text.eob); (2, Text.unknown)], [Text.eof; Text.eob; Text.unknown], offset + 1)
      (seqZ 3 (charCodeCount - 3));
    '(stems, offset) ← Bin.loadStringListMap data offset;
    metadataCount ← Bin.load16bitNumber data offset;
    '(metadatas, labels, _) ← ofold (load_metadata data) ([], [], offset + 1) (seqZ 0 metadataCount);
    Ret (mk (Text.mk fm toCode fromCode) metadatas labels (_stemmer o) stems).

End Okt.
