(* ===== verification/OktaviaSearch.v ===== *)
(** * Searching documents

    The whole engine at work: documents are added to a section each, the index is
    built, and queries are answered.  [ready o docs chars M] says that the object
    [o] holds the documents [docs]; building establishes it, and under it
    [search] is shown to find the documents that a query asks for. *)

From S2P Require Import Prelude JsObject Binary BitVector FMIndex Lang Query Text SearchResult Metadata Sections Oktavia.

Local Open Scope Z_scope.

Module OktSearch.
Import Meta Okt.

(** How a client indexes documents, each with its name. *)
Definition add_document (key : jsstr) (o : t) (doc : jsstr * jsstr) : outcome t :=
  o ← addWord o doc.2;
  section_setTail o key doc.1.

Definition index_documents (key : jsstr) (docs : list (jsstr * jsstr)) (density : Text.number) : outcome t :=
  o ← addSection new key;
  o ← ofold (add_document key) o docs;
  build o density.

(** The documents that can be indexed. *)
Record indexable (docs : list (jsstr * jsstr)) : Prop := {
  docs_some : docs ≠ [];
  docs_body : Forall (λ d, d.2 ≠ [] ∧ Forall Text.plain d.2) docs;
  docs_length : zlen (concat docs.*2) < 2 ^ 31 - 2;
}.

(** The characters of a text, in the order of their first occurrence; the mark for
    the end of a block is none. *)
Definition alphabet (T : list Z) : list Z := foldl Text.extend [] (filter (λ c, c ≠ 1) T).

Lemma alphabet_app (T w : list Z) : Forall Text.plain w → alphabet (T ++ w) = foldl Text.extend (alphabet T) w.
Proof.
  intros Hw. unfold alphabet. rewrite filter_app, foldl_app, (filter_all _ w); [done|].
  eapply Forall_impl; [exact Hw|]. unfold Text.plain. lia.
Qed.

Lemma alphabet_mark (T : list Z) : alphabet (T ++ [1]) = alphabet T.
Proof. unfold alphabet. rewrite filter_app. cbn. by rewrite app_nil_r. Qed.

(** The engine while documents are added. *)
Record filling (o : t) (key : jsstr) (docs : list (jsstr * jsstr)) : Prop := {
  filling_text : Text.holds (text o) (alphabet (concat docs.*2)) (concat docs.*2);
  filling_labels : _metadataLabels o = [key];
  filling_section : ∃ s, _metadatas o = [(key, MSection s)] ∧ marks (Sec.bv s) (ends 0 docs.*2) ∧
    BV._r (Sec.bv s) = [] ∧ Sec._names s = docs.*1;
  filling_stemmer : _stemmer o = None;
  filling_stems : _stemmingResult o = [];
}.

(** The engine with the documents indexed; there may be metadata besides. *)
Record ready (o : t) (key : jsstr) (docs : list (jsstr * jsstr)) (chars : list Z) (M ddic : Z) : Prop := {
  ready_text : Text.indexed (text o) chars (concat docs.*2) M ddic;
  ready_labels : head (_metadataLabels o) = Some key;
  ready_section : ∃ s, Obj.get (_metadatas o) key = Some (MSection s) ∧ marks (Sec.bv s) (ends 0 docs.*2) ∧
    BV.built (Sec.bv s) ∧ Sec._names s = docs.*1;
  ready_stemmer : _stemmer o = None;
}.

Lemma primary_section o key s :
  head (_metadataLabels o) = Some key → Obj.get (_metadatas o) key = Some (MSection s) → getPrimaryMetadata o = Ret (MSection s).
Proof. intros Hl Hm. unfold getPrimaryMetadata. destruct (_metadataLabels o); [done|]. injection Hl as ->. by rewrite Hm. Qed.

Lemma section_of o key s : key ∈ _metadataLabels o → Obj.get (_metadatas o) key = Some (MSection s) → object (getSection o key) = Ret s.
Proof.
  intros Hl Hm. unfold object, getSection, getMetadata. rewrite Hm. pose proof (indexOf_range _ _ Hl). by rewrite decide_False by lia.
Qed.

Lemma get_single {V} k (v : V) : Obj.get [(k, v)] k = Some v.
Proof. cbn [Obj.get]. by rewrite decide_True. Qed.

Lemma put_single {V} k (v v' : V) : Obj.put [(k, v)] k v' = [(k, v')].
Proof. unfold Obj.put. cbn [Obj.get]. rewrite decide_True by done. cbn [Obj.replace]. by rewrite decide_True. Qed.

Lemma add_document_filling o key docs (name doc : jsstr) :
  filling o key docs → doc ≠ [] → Forall Text.plain doc → zlen (concat (docs ++ [(name, doc)]).*2) < 2 ^ 31 →
  ∃ o', add_document key o (name, doc) = Ret o' ∧ filling o' key (docs ++ [(name, doc)]).
Proof.
  intros [Ht Hl (s & Hm & Hmk & Hr & Hn) Hst Hse] Hne Hp Hlen. unfold add_document. cbn [fst snd].
  destruct (Text.addWord_holds _ _ _ doc Ht Hp Hne) as (p & Hadd & Hh). unfold addWord. rewrite Hadd. cbn [mbind outcome_bind].
  unfold section_setTail. rewrite (section_of _ key s); [|by cbn; rewrite Hl; left|by cbn; rewrite Hm, get_single]. cbn [mbind outcome_bind].
  eexists. split; [done|]. rewrite fmap_app in *. cbn [fmap list_fmap snd fst] in *.
  assert (contentSize (with_text o p) = zlen (concat (docs.*2 ++ [doc]))) as ->.
  { unfold contentSize. cbn [with_text text]. rewrite (Text.contentSize_holds _ _ _ Hh), concat_app. cbn [concat]. by rewrite app_nil_r. }
  split; cbn [with_metadata with_text text _metadatas _metadataLabels _stemmer _stemmingResult]; rewrite ?fmap_app; cbn [fmap list_fmap snd fst].
  - rewrite concat_app. cbn [concat]. by rewrite app_nil_r, alphabet_app.
  - done.
  - eexists. split; [by rewrite Hm, put_single|].
    split_and!; cbn [Sec.setTail Sec.bv Sec._names]; [by apply set_end|done|by rewrite Hn].
  - done.
  - done.
Qed.

Lemma filling_all key docs o pre :
  filling o key pre → indexable (pre ++ docs) → ∃ o', ofold (add_document key) o docs = Ret o' ∧ filling o' key (pre ++ docs).
Proof.
  revert o pre. induction docs as [|[name doc] docs IH]; intros o pre Hf Hx.
  { exists o. by rewrite app_nil_r. }
  pose proof (docs_body _ Hx) as Hb. apply Forall_app in Hb as [_ Hb]. apply Forall_cons in Hb as [[Hne Hp] _].
  pose proof (docs_length _ Hx) as Hlen. cbn [ofold]. cbn [snd] in Hne, Hp.
  assert (pre ++ (name, doc) :: docs = (pre ++ [(name, doc)]) ++ docs) as Heq by (by rewrite <- app_assoc).
  destruct (add_document_filling o key pre name doc Hf Hne Hp) as (o1 & -> & Hf1).
  { rewrite Heq, fmap_app, concat_app, zlen_app in Hlen. pose proof (zlen_nonneg (concat docs.*2)). lia. }
  cbn [mbind outcome_bind]. rewrite Heq in *. by apply IH.
Qed.

Lemma filling_new key : ∃ o, addSection new key = Ret o ∧ filling o key [].
Proof.
  eexists. split; [done|]. split; [apply Text.new_holds|done| |done|done].
  exists Sec.new. split_and!; [done|apply new_marks|done|done].
Qed.

(** Indexing returns, and the engine then holds the documents. *)
Lemma index_engine key docs density :
  indexable docs →
  ∃ o, index_documents key docs density = Ret o ∧
    ready o key docs (alphabet (concat docs.*2)) (3 + zlen (alphabet (concat docs.*2))) (Text.cacheRange density) ∧
    _metadataLabels o = [key] ∧ _stemmingResult o = [].
Proof.
  intros Hx. unfold index_documents. destruct (filling_new key) as (o0 & -> & Hf0). cbn [mbind outcome_bind].
  destruct (filling_all key docs o0 [] Hf0 Hx) as (o1 & -> & [Ht Hl (s & Hm & Hmk & Hr & Hn) Hst Hse]). cbn [mbind outcome_bind app] in *.
  unfold build. destruct (Text.build_indexed _ _ _ density Ht) as (p & -> & Hi & _).
  - pose proof (docs_some _ Hx). pose proof (docs_body _ Hx) as Hb. destruct docs as [|[n d] docs]; [done|].
    apply Forall_cons in Hb as [[Hd _] _]. cbn in *. by destruct d.
  - apply (docs_length _ Hx).
  - cbn [mbind outcome_bind]. eexists. split; [done|]. destruct (build_marks _ _ Hmk Hr) as [Hmk' Hbt].
    split; [|done]. split; cbn [text _metadataLabels _metadatas _stemmer _stemmingResult]; [done|by rewrite Hl| |done].
    exists (Sec.mk (BV.build (Sec.bv s)) (Sec._names s)). rewrite Hm. split_and!; [apply get_single|done..].
Qed.

Lemma index_ready key docs density :
  indexable docs →
  ∃ o, index_documents key docs density = Ret o ∧
    ready o key docs (alphabet (concat docs.*2)) (3 + zlen (alphabet (concat docs.*2))) (Text.cacheRange density).
Proof. intros Hx. destruct (index_engine key docs density Hx) as (o & Ho & R & _). by exists o. Qed.

Lemma alphabet_some docs : indexable docs → alphabet (concat docs.*2) ≠ [].
Proof.
  intros Hx. pose proof (docs_some _ Hx). pose proof (docs_body _ Hx) as Hb.
  destruct docs as [|[n [|c d]] docs]; [done|by apply Forall_cons in Hb as [[? _] _]|].
  apply Forall_cons in Hb as [[_ Hc] _]. apply Forall_cons in Hc as [Hc _]. unfold Text.plain in Hc.
  intros Heq. apply (not_elem_of_nil c). rewrite <- Heq. apply Text.extend_elem. right. apply list_elem_of_filter. split; [lia|left].
Qed.

(** The largest code is the one of the last character. *)
Lemma largest_code chars (w : jsstr) :
  NoDup chars → Forall (λ c, 3 ≤ c) chars → Forall (λ c, c ∈ chars) w → w ≠ [] →
  (Text.code chars <$> list.last w) = Some (3 + zlen chars - 1) ↔ list.last w = list.last chars.
Proof.
  intros Hnd Hc Hw Hne. destruct (list.last w) as [c|] eqn:Hl; [|by apply last_None in Hl].
  assert (c ∈ chars) as Hin by (rewrite Forall_forall in Hw; by apply Hw, last_Some_elem_of).
  assert (3 ≤ c) as H3 by (rewrite Forall_forall in Hc; by apply Hc).
  cbn [fmap option_fmap option_map]. unfold Text.code. rewrite decide_False by lia.
  destruct chars as [|x chars _] using rev_ind; [by apply elem_of_nil in Hin|]. rewrite last_snoc, zlen_app. change (zlen [x]) with 1.
  assert (aget (chars ++ [x]) (zlen chars) = Some x) as Hx by (rewrite aget_app_r, Z.sub_diag by lia; done).
  pose proof (indexOf_spec _ _ Hin) as Hs. split.
  - intros [= Heq]. replace (indexOf _ c) with (zlen chars) in Hs by lia. congruence.
  - intros [= ->]. f_equal. pose proof (indexOf_range _ _ Hin) as Hr. rewrite aget_nonneg in Hs, Hx by (lia || apply zlen_nonneg).
    pose proof (NoDup_lookup _ _ _ _ Hnd Hs Hx). pose proof (zlen_nonneg chars). lia.
Qed.

Section ready.
Context (toLowerCase : jsstr → jsstr).
Context (o : t) (key : jsstr) (docs : list (jsstr * jsstr)) (chars : list Z) (M ddic : Z) (R : ready o key docs chars M ddic).

(** A word that can be looked up: its characters occur in the documents, and it
    does not end in the largest code. *)
Definition searchable (word : jsstr) : Prop :=
  word ≠ [] ∧ Forall (λ c, c ∈ chars) word ∧ (Text.code chars <$> list.last word) ≠ Some (M - 1).

(** Where a word stands in the documents' text. *)
Definition stands (word : jsstr) (p : Z) : Prop :=
  0 ≤ p ∧ take (length word) (drop (Z.to_nat p) (concat docs.*2)) = word.

Lemma raw_search word :
  searchable word → ∃ ps, rawSearch toLowerCase o word false = Ret ps ∧ NoDup ps ∧ ∀ p, p ∈ ps ↔ stands word p.
Proof.
  intros (Hne & Hc & Hlast). pose proof (ready_text _ _ _ _ _ _ R) as Hi. pose proof (Text.indexed_coded _ _ _ _ _ Hi) as Hk.
  assert (chars ≠ []) by (destruct word; [done|]; apply Forall_cons in Hc as [Hc _]; by intros ->; apply elem_of_nil in Hc).
  assert (Forall Text.plain word) as Hpl.
  { pose proof (Text.coded_chars _ _ _ Hk) as Hch. rewrite Forall_forall in *. intros c Hin. by apply Hch, Hc. }
  unfold rawSearch. rewrite (Text.convert_codes _ _ _ Hk) by done.
  assert (Text.seen_as chars <$> word = word) as ->.
  { clear -Hc. induction Hc as [|c w Hc _ IH]; [done|]. cbn [fmap list_fmap]. rewrite IH. unfold Text.seen_as. by rewrite decide_True. }
  apply (Text.search_indexed _ _ _ _ _ _ Hi); [done| |done]. eapply Forall_impl; [exact Hc|]. by right.
Qed.

(** Any word is searched as the codes see it, and is lost where it then ends in the
    largest code. *)
Lemma raw_search_seen word :
  Forall Text.plain word → word ≠ [] → chars ≠ [] →
  ∃ ps, rawSearch toLowerCase o word false = Ret ps ∧
    ∀ p, p ∈ ps ↔ (Text.code chars <$> list.last (Text.seen_as chars <$> word)) ≠ Some (M - 1) ∧
      stands (Text.seen_as chars <$> word) p.
Proof.
  intros Hp Hne Hch. pose proof (ready_text _ _ _ _ _ _ R) as Hi. pose proof (Text.indexed_coded _ _ _ _ _ Hi) as Hk.
  unfold rawSearch. rewrite (Text.convert_codes _ _ _ Hk) by done. set (w := Text.seen_as chars <$> word).
  destruct (decide ((Text.code chars <$> list.last w) = Some (M - 1))) as [Hlost|Hlast].
  - exists []. destruct (Text.indexed_repr _ _ _ _ _ Hi) as (sa & Hr). split.
    + unfold FM.search. by rewrite (FM.getRows_top _ _ _ _ (FM.repr_tables _ _ _ _ Hr)) by (by rewrite fmap_last).
    + intros p. rewrite elem_of_nil. tauto.
  - destruct (Text.search_indexed _ _ _ _ _ w Hi) as (ps & Hs & _ & Hps); [by destruct word| |done|].
    + apply Forall_fmap, Forall_forall. intros c _. right. by apply Text.seen_as_in.
    + exists ps. split; [exact Hs|]. intros p. rewrite Hps. unfold stands. tauto.
Qed.

(** Where document [k] starts in the text, in which the documents follow one another
    without anything between them. *)
Definition doc_start (k : Z) : Z := zlen (concat (take (Z.to_nat k) docs.*2)).

(** A word starts in document [k]: what the engine looks for. *)
Definition starts (word : jsstr) (k off : Z) : Prop :=
  ∃ d, aget docs k = Some d ∧ 0 ≤ off < zlen d.2 ∧ stands word (doc_start k + off).

(** It occurs in the document, from its first to its last character. *)
Definition occurs (word : jsstr) (k off : Z) : Prop :=
  ∃ d, aget docs k = Some d ∧ 0 ≤ off ∧ off + zlen word ≤ zlen d.2 ∧ take (length word) (drop (Z.to_nat off) d.2) = word.

(** Or it runs over the end of the document, into those that follow. *)
Definition runs_over (word : jsstr) (k off : Z) : Prop :=
  ∃ d, aget docs k = Some d ∧ 0 ≤ off < zlen d.2 ∧ zlen d.2 < off + zlen word ∧ stands word (doc_start k + off).

Definition matches (word : jsstr) (k off : Z) : Prop := occurs word k off ∨ runs_over word k off.

Lemma document_text k d :
  aget docs k = Some d → ∃ rest, drop (Z.to_nat (doc_start k)) (concat docs.*2) = d.2 ++ rest ∧
  doc_start k + zlen d.2 + zlen rest = zlen (concat docs.*2).
Proof.
  intros (l1 & l2 & Hdocs & Hk)%aget_split. unfold doc_start. rewrite Hdocs. subst k. exists (concat l2.*2).
  assert (Z.to_nat (zlen l1) = length (l1.*2)) as -> by (rewrite length_fmap; unfold zlen; lia).
  rewrite fmap_app, take_app_length, concat_app, zlen_app. cbn [fmap list_fmap concat]. rewrite zlen_app.
  assert (Z.to_nat (zlen (concat l1.*2)) = length (concat l1.*2)) as -> by (unfold zlen; lia).
  rewrite drop_app_length. split; [done|lia].
Qed.

Lemma starts_matches word k off : word ≠ [] → starts word k off ↔ matches word k off.
Proof.
  intros Hne. assert (0 < zlen word) by (destruct word; [done|unfold zlen; cbn; lia]).
  assert (∀ d, aget docs k = Some d → 0 ≤ off → off + zlen word ≤ zlen d.2 →
    stands word (doc_start k + off) ↔ take (length word) (drop (Z.to_nat off) d.2) = word) as Hin.
  { intros d (rest & Hd & _)%document_text Hoff Hle. assert (0 ≤ doc_start k) by apply zlen_nonneg. unfold stands.
    rewrite Z2Nat.inj_add, <- drop_drop, Hd, drop_app_le, take_app_le by (rewrite ?length_drop; unfold zlen in *; lia).
    split; [by intros [_ Ht]|]. intros Ht. split; [lia|exact Ht]. }
  split.
  - intros (d & Hd & Hoff & Hst). destruct (decide (off + zlen word ≤ zlen d.2)).
    + left. exists d. split_and!; [done|lia|done|]. apply (Hin d); [done|lia|done|done].
    + right. exists d. split_and!; [done|lia..|done].
  - intros [(d & Hd & Hoff & Hle & Ht)|(d & Hd & Hoff & Ho2 & Hst)]; exists d; (split; [done|]); (split; [lia|]); [|done]. by apply (Hin d).
Qed.

(** Where every document ends in a character that the word has not, no match runs
    over. *)
Definition apart (word : jsstr) : Prop := Forall (λ d, ∃ c, list.last d.2 = Some c ∧ c ∉ word) docs.

Lemma apart_occurs word k off : apart word → matches word k off ↔ occurs word k off.
Proof.
  intros Hap. split; [|by left]. intros [?|(d & Hd & Hoff & Hp & _ & Hst)]; [done|]. exfalso.
  assert (∃ c, list.last d.2 = Some c ∧ c ∉ word) as (c & Hlast & Hc).
  { unfold apart in Hap. rewrite Forall_forall in Hap. apply Hap. by eapply aget_elem_of. }
  apply Hc. destruct (document_text k d Hd) as (rest & Ht & _). assert (0 ≤ doc_start k) by apply zlen_nonneg.
  apply last_Some in Hlast as (l & Hl). rewrite Z2Nat.inj_add, <- drop_drop, Ht, Hl, <- app_assoc in Hst by lia.
  assert (zlen d.2 = zlen l + 1) as Hz by (rewrite Hl, zlen_app; done).
  rewrite drop_app_le in Hst by (unfold zlen in *; lia). rewrite <- Hst. apply elem_of_take.
  exists (length l - Z.to_nat off)%nat. rewrite lookup_app_r by (rewrite length_drop; lia). rewrite length_drop, Nat.sub_diag.
  split; [done|]. unfold zlen in *. lia.
Qed.

Lemma doc_part k d :
  aget docs k = Some d →
  aget (ends 0 docs.*2) k = Some (doc_start k + zlen d.2 - 1) ∧ part_start (ends 0 docs.*2) k = doc_start k.
Proof.
  intros Hk. pose proof (aget_Some_range _ _ _ Hk). rewrite aget_nonneg in Hk by lia.
  assert (docs.*2 !! Z.to_nat k = Some d.2) as Hk2 by (by rewrite list_lookup_fmap, Hk).
  split; rewrite <- (Z2Nat.id k) at 1 by lia; [by rewrite (aget_ends 0 _ _ _ Hk2)|].
  rewrite part_start_ends; [done|]. rewrite length_fmap. unfold zlen in *. lia.
Qed.

(** The document that a position lies in. *)
Lemma locate s p :
  marks (Sec.bv s) (ends 0 docs.*2) → 0 ≤ p < zlen (concat docs.*2) →
  ∃ d, aget docs (below (ends 0 docs.*2) p) = Some d ∧ 0 ≤ p - doc_start (below (ends 0 docs.*2) p) < zlen d.2.
Proof.
  intros Hm Hp. destruct (part_of _ _ Hm p) as (e & He & Hr); [by rewrite (size_ends _ _ Hm)|].
  pose proof (aget_Some_range _ _ _ He) as Hk. rewrite zlen_ends, zlen_fmap in Hk.
  destruct (aget_is_Some docs _ Hk) as [d Hd]. exists d. split; [done|].
  destruct (doc_part _ _ Hd) as [He' Hs]. rewrite He' in He. injection He as <-. rewrite Hs in Hr. lia.
Qed.

Lemma stands_range word p : word ≠ [] → stands word p → 0 ≤ p < zlen (concat docs.*2).
Proof.
  intros Hne [Hp Ht]. split; [done|]. destruct (decide (p < zlen (concat docs.*2))); [done|].
  rewrite drop_ge, take_nil in Ht by (unfold zlen in *; lia). by subst.
Qed.

(** A position of the unit of document [k] is where the word starts in it. *)
Lemma starts_below s word (L : Prop) (ps : list Z) k off :
  marks (Sec.bv s) (ends 0 docs.*2) → word ≠ [] → (∀ p, p ∈ ps ↔ L ∧ stands word p) → 0 ≤ k < zlen docs →
  off + part_start (ends 0 docs.*2) k ∈ ps ∧ below (ends 0 docs.*2) (off + part_start (ends 0 docs.*2) k) = k ↔
  L ∧ starts word k off.
Proof.
  intros Hm Hne Hps Hk. destruct (aget_is_Some docs k Hk) as [d Hd]. destruct (doc_part k d Hd) as [He Hs].
  rewrite Hps, Hs, Z.add_comm. split.
  - intros [[HL Hst] Hb]. split; [exact HL|]. pose proof (stands_range word _ Hne Hst) as Hr. destruct (locate s _ Hm Hr) as (d' & Hd' & Hoff).
    rewrite Hb in Hd', Hoff. exists d'. split_and!; [done|lia..|done].
  - intros (HL & d' & Hd' & Hoff & Hst). assert (d' = d) as -> by congruence. split; [done|].
    apply (below_part _ _ Hm k _ _ He). rewrite Hs. lia.
Qed.

(** One query: where the positions that were found for it are those of [word], there
    is a unit for each document with a match, with its positions. *)
Lemma found_units h q ps (L : Prop) word :
  rawSearch toLowerCase o (Query.word q) false = Ret ps → word ≠ [] → (∀ p, p ∈ ps ↔ L ∧ stands word p) →
  ∃ h' r, _searchQuery toLowerCase h o q = Ret (h', r) ∧ SR.result_wf h' r ∧ SR.stable h h' ∧
    SR.or r = Query.or q ∧ SR.not r = Query.not q ∧
    (∀ k, k ∈ SR.unitIds r ↔ ∃ off, L ∧ matches word k off) ∧
    ∀ ref k u, SR.lists r ref k → h' !! ref = Some u →
      SR.startPosition u = doc_start k ∧
      ∀ off pos, SR.unit_get u off = Some pos ↔
        pos = SR.mkPosition (Query.word q) off (negb (Query.raw q)) ∧ L ∧ matches word k off.
Proof.
  intros Hrun Hne Hps.
  destruct (ready_section _ _ _ _ _ _ R) as (s & Hms & Hm & Hbt & _).
  pose proof (primary_section o key s (ready_labels _ _ _ _ _ _ R) Hms) as Hp. unfold _searchQuery.
  assert ((if Query.raw q then rawSearch toLowerCase o (Query.word q) false
     else plain ← rawSearch toLowerCase o (Query.word q) false;
          stemmed ← rawSearch toLowerCase o (Query.word q) true; Ret (plain ++ stemmed)) = Ret ps) as ->.
  { rewrite Hrun. destruct (Query.raw q); [done|]. unfold rawSearch. rewrite (ready_stemmer _ _ _ _ _ _ R).
    cbn [mbind outcome_bind]. by rewrite app_nil_r. }
  cbn [mbind outcome_bind]. rewrite Hp. cbn [mbind outcome_bind grouping metadata_any Sec.section_metadata].
  set (stemmed := negb (Query.raw q)).
  destruct (grouping_spec (Sec.bv s) _ Hm Hbt (Sec.getSectionIndex s)) with (word := Query.word q) (stemmed := stemmed)
    (qs := ps) (ps := @nil Z) (h := h) (r := SR.result_for (Query.word q) (Query.or q) (Query.not q))
    as (h' & r & -> & [Hwf Hids Hus] & Hst & Hor & Hnot).
  - intros p Hpr. unfold Sec.getSectionIndex, BV.size. rewrite decide_False by lia. apply (rank_marks _ _ Hm Hbt). lia.
  - apply grouped_nil.
  - apply Forall_forall. intros p [_ Hin]%Hps. rewrite (size_ends _ _ Hm). by apply (stands_range word).
  - exists h', r. cbn [app] in *.
    assert (∀ k, k ∈ SR.unitIds r ↔ ∃ off, L ∧ matches word k off) as Hk.
    { intros k. setoid_rewrite <- starts_matches; [|done]. rewrite Hids, Text.extend_elem, elem_of_nil, list_elem_of_fmap. split.
      - intros [[]|(p & -> & [HL Hin]%Hps)]. pose proof (stands_range _ _ Hne Hin) as Hr.
        destruct (locate s p Hm Hr) as (d & Hd & Hoff). exists (p - doc_start (below (ends 0 docs.*2) p)). split; [exact HL|].
        exists d. split_and!; [done|lia..|]. by replace (doc_start _ + _) with p by lia.
      - intros (off & HL & d & Hd & Hoff & Hin). right. exists (doc_start k + off). destruct (doc_part k d Hd) as [He Hps'].
        split; [|by apply Hps]. symmetry. apply (below_part _ _ Hm k _ _ He). rewrite Hps'. lia. }
    split_and!; [done..|]. intros ref k u Hl Hu. destruct (Hus ref k u Hl Hu) as [Hstart Hget].
    apply SR.lists_ids in Hl as [_ Hkin]. apply Hk in Hkin as (off0 & _ & (d & Hd & _)%starts_matches); [|done].
    pose proof (aget_Some_range _ _ _ Hd) as Hkr. destruct (doc_part k d Hd) as [_ Hds].
    split; [by rewrite Hstart|]. intros off pos. rewrite Hget. pose proof (starts_below s _ L ps k off Hm Hne Hps Hkr) as Hob.
    rewrite starts_matches in Hob by done.
    case_decide as Hc; rewrite Hob in Hc; naive_solver.
Qed.

(** What a result of a query is: the documents with a match of its word; if the
    documents end in characters that the word has not, those in which it occurs. *)
Definition answers (q : Query.t) (r : SR.SingleResult) : Prop :=
  SR.or r = Query.or q ∧ SR.not r = Query.not q ∧ (∀ k, k ∈ SR.unitIds r ↔ ∃ off, matches (Query.word q) k off) ∧
  (apart (Query.word q) → ∀ k, k ∈ SR.unitIds r ↔ ∃ off, occurs (Query.word q) k off).

Lemma query_answers h q :
  searchable (Query.word q) →
  ∃ h' r, _searchQuery toLowerCase h o q = Ret (h', r) ∧ SR.result_wf h' r ∧ SR.stable h h' ∧ answers q r ∧
    ∀ ref k u off pos, SR.lists r ref k → h' !! ref = Some u → SR.unit_get u off = Some pos ↔
      pos = SR.mkPosition (Query.word q) off (negb (Query.raw q)) ∧ matches (Query.word q) k off.
Proof.
  intros Hs. destruct (raw_search _ Hs) as (ps & Hrun & _ & Hps).
  destruct (found_units h q ps True (Query.word q)) as (h' & r & Hq & Hwf & Hst & Hor & Hnot & Hids & Hus); [done|apply Hs|intros p; rewrite Hps; tauto|].
  assert (∀ k, k ∈ SR.unitIds r ↔ ∃ off, matches (Query.word q) k off) as Hk.
  { intros k. rewrite Hids. split; intros [off Hoff]; exists off; tauto. }
  exists h', r. split; [exact Hq|]. split; [exact Hwf|]. split; [exact Hst|]. split.
  - split; [exact Hor|]. split; [exact Hnot|]. split; [exact Hk|]. intros Hap k. rewrite Hk. by setoid_rewrite (apart_occurs _ k _ Hap).
  - intros ref k u off pos Hl Hu. destruct (Hus ref k u Hl Hu) as [_ Hget]. rewrite Hget. tauto.
Qed.

(** What is found of a word: its characters that no document has are taken for the
    first one of the documents, and nothing is found where it then ends in the
    largest code. *)
Definition located (word : jsstr) (k off : Z) : Prop :=
  (Text.code chars <$> list.last (Text.seen_as chars <$> word)) ≠ Some (M - 1) ∧ matches (Text.seen_as chars <$> word) k off.

Lemma seen_known word : Forall (λ c, c ∈ chars) word → Text.seen_as chars <$> word = word.
Proof.
  intros Hc. induction Hc as [|c w Hc _ IH]; [done|]. cbn [fmap list_fmap]. rewrite IH. unfold Text.seen_as. by rewrite decide_True.
Qed.

Lemma located_searchable word k off : searchable word → located word k off ↔ matches word k off.
Proof. intros (_ & Hc & Hl). unfold located. rewrite (seen_known word Hc). split; [intros [_ Hm]; exact Hm|intros Hm; split; [exact Hl|exact Hm]]. Qed.

Lemma query_units h q :
  chars ≠ [] → Query.word q ≠ [] → Forall Text.plain (Query.word q) →
  ∃ h' r, _searchQuery toLowerCase h o q = Ret (h', r) ∧ SR.result_wf h' r ∧ SR.stable h h' ∧
    SR.or r = Query.or q ∧ SR.not r = Query.not q ∧
    (∀ k, k ∈ SR.unitIds r ↔ ∃ off, located (Query.word q) k off) ∧
    ∀ ref k u, SR.lists r ref k → h' !! ref = Some u →
      SR.startPosition u = doc_start k ∧
      ∀ off pos, SR.unit_get u off = Some pos ↔
        pos = SR.mkPosition (Query.word q) off (negb (Query.raw q)) ∧ located (Query.word q) k off.
Proof.
  intros Hch Hne Hp. destruct (raw_search_seen _ Hp Hne Hch) as (ps & Hrun & Hps).
  apply (found_units h q ps _ (Text.seen_as chars <$> Query.word q) Hrun); [by destruct (Query.word q)|exact Hps].
Qed.

(** The queries one after the other, where each of them has a result as [A] says. *)
Lemma search_loop (A : Query.t → SR.SingleResult → Prop) qs h summary :
  Forall (λ q, ∀ h, ∃ h' r, _searchQuery toLowerCase h o q = Ret (h', r) ∧ SR.result_wf h' r ∧ SR.stable h h' ∧ A q r) qs →
  Forall (SR.result_wf h) (SR.sourceResults summary) →
  ∃ h' rs, ofold (λ '(h, summary) query,
      '(h, result) ← _searchQuery toLowerCase h o query; Ret (h, SR.addQuery summary result)) (h, summary) qs
    = Ret (h', SR.mkSummary (SR.sourceResults summary ++ rs) (SR.result summary)) ∧
    Forall (SR.result_wf h') (SR.sourceResults summary ++ rs) ∧ Forall2 A qs rs.
Proof.
  intros Hqs. revert h summary. induction Hqs as [|q qs Hq _ IH]; intros h [src res] Hwf; cbn [SR.sourceResults SR.result] in *.
  { exists h, []. rewrite app_nil_r. repeat split; [done|constructor]. }
  cbn [ofold]. destruct (Hq h) as (h1 & r & -> & Hr & Hst & HA). cbn [mbind outcome_bind].
  destruct (IH h1 (SR.addQuery (SR.mkSummary src res) r)) as (h' & rs & Hrun & Hwf' & Hall).
  { cbn. apply Forall_app. split; [|by apply Forall_singleton]. eapply Forall_impl; [exact Hwf|]. intros x. by apply SR.stable_wf. }
  exists h', (r :: rs). cbn [SR.addQuery SR.sourceResults SR.result] in *. rewrite <- app_assoc in *.
  split; [exact Hrun|]. split; [exact Hwf'|]. by constructor.
Qed.

Lemma search_all (A : Query.t → SR.SingleResult → Prop) h0 qs :
  qs ≠ [] →
  Forall (λ q, ∀ h, ∃ h' r, _searchQuery toLowerCase h o q = Ret (h', r) ∧ SR.result_wf h' r ∧ SR.stable h h' ∧ A q r) qs →
  ∃ h rs r, search toLowerCase h0 o qs = Ret (h, SR.mkSummary rs (Some r)) ∧ SR.result_wf h r ∧
    SR.unitIds r = SR.merged_ids rs ∧ Forall2 A qs rs ∧ Forall (SR.result_wf h) rs.
Proof.
  intros Hne Hqs. destruct (search_loop A qs h0 SR.summary_new Hqs) as (h1 & rs & Hrun & Hwf & Hall); [constructor|].
  cbn [SR.summary_new SR.sourceResults SR.result app] in *.
  destruct (SR.mergeResult_spec h1 rs) as (h & r & Hmg & Hr & Hst & Hids); [|done|].
  - intros ->. apply Forall2_length in Hall. by destruct qs.
  - exists h, rs, r. split_and!; [|done..|].
    + unfold search. rewrite Hrun. cbn [mbind outcome_bind]. unfold SR.summary_merge. cbn [SR.sourceResults]. by rewrite Hmg.
    + eapply Forall_impl; [exact Hwf|]. intros x. by apply SR.stable_wf.
Qed.

Lemma search_ready h0 qs :
  qs ≠ [] → Forall (λ q, searchable (Query.word q)) qs →
  ∃ h rs r, search toLowerCase h0 o qs = Ret (h, SR.mkSummary rs (Some r)) ∧ SR.result_wf h r ∧
    SR.unitIds r = SR.merged_ids rs ∧ Forall2 answers qs rs ∧ Forall (SR.result_wf h) rs.
Proof.
  intros Hne Hqs. apply (search_all answers h0 qs Hne). eapply Forall_impl; [exact Hqs|]. intros q Hq h.
  destruct (query_answers h q Hq) as (h' & r & Hrun & Hwf & Hst & Ha & _). by exists h', r.
Qed.
End ready.

(** What a new index finds of a word in its documents: the characters that no document
    has are taken for the first one of the documents, and a word that then ends
    in their last character, the one that was met last, is not found at all. *)
Definition finds (docs : list (jsstr * jsstr)) (word : jsstr) (k off : Z) : Prop :=
  let chars := alphabet (concat docs.*2) in
  let seen := Text.seen_as chars <$> word in
  list.last seen ≠ list.last chars ∧ matches docs seen k off.

Lemma ready_largest o key docs ddic word :
  let chars := alphabet (concat docs.*2) in
  ready o key docs chars (3 + zlen chars) ddic → chars ≠ [] → word ≠ [] →
  (Text.code chars <$> list.last (Text.seen_as chars <$> word)) = Some (3 + zlen chars - 1) ↔
  list.last (Text.seen_as chars <$> word) = list.last chars.
Proof.
  intros chars R Hch Hne. pose proof (Text.indexed_coded _ _ _ _ _ (ready_text _ _ _ _ _ _ R)) as Hk. apply largest_code; [apply Hk|..].
  - eapply Forall_impl; [apply (Text.coded_chars _ _ _ Hk)|]. unfold Text.plain. simpl. lia.
  - apply Forall_fmap, Forall_forall. intros c _. by apply Text.seen_as_in.
  - by destruct word.
Qed.

Lemma ready_finds o key docs ddic word k off :
  let chars := alphabet (concat docs.*2) in
  ready o key docs chars (3 + zlen chars) ddic → chars ≠ [] → word ≠ [] →
  located docs chars (3 + zlen chars) word k off ↔ finds docs word k off.
Proof. cbv zeta. intros R Hch Hne. unfold located, finds. cbv zeta. by rewrite (ready_largest o key docs ddic word R Hch Hne). Qed.

(** What the result of a query is, whatever its word: the documents in which it is
    found.  For a word of characters of the documents that does not end in the
    last one these are the documents with a match, and if the documents end in
    characters that the word has not, those in which it occurs. *)
Definition reports (docs : list (jsstr * jsstr)) (q : Query.t) (r : SR.SingleResult) : Prop :=
  let chars := alphabet (concat docs.*2) in
  SR.or r = Query.or q ∧ SR.not r = Query.not q ∧
  (∀ k, k ∈ SR.unitIds r ↔ ∃ off, finds docs (Query.word q) k off) ∧
  (searchable chars (3 + zlen chars) (Query.word q) → ∀ k, k ∈ SR.unitIds r ↔ ∃ off, matches docs (Query.word q) k off) ∧
  (searchable chars (3 + zlen chars) (Query.word q) → apart docs (Query.word q) →
   ∀ k, k ∈ SR.unitIds r ↔ ∃ off, occurs docs (Query.word q) k off).

Lemma search_reports toLowerCase o key docs ddic :
  let chars := alphabet (concat docs.*2) in
  ready o key docs chars (3 + zlen chars) ddic → indexable docs → ∀ h0 qs, qs ≠ [] →
  Forall (λ q, Query.word q ≠ [] ∧ Forall Text.plain (Query.word q)) qs →
  ∃ h rs r, search toLowerCase h0 o qs = Ret (h, SR.mkSummary rs (Some r)) ∧ SR.result_wf h r ∧
    SR.unitIds r = SR.merged_ids rs ∧ Forall2 (reports docs) qs rs ∧ Forall (SR.result_wf h) rs.
Proof.
  intros chars R Hx h0 qs Hne Hqs. pose proof (alphabet_some docs Hx) as Hch. apply (search_all toLowerCase o (reports docs) h0 qs Hne).
  eapply Forall_impl; [exact Hqs|]. intros q [Hw Hp] h.
  destruct (query_units toLowerCase o key docs _ _ _ R h q Hch Hw Hp) as (h' & r & Hrun & Hwf & Hst & Hor & Hnot & Hids & _).
  exists h', r. split; [exact Hrun|]. split; [exact Hwf|]. split; [exact Hst|].
  unfold reports. setoid_rewrite <- (ready_finds o key docs _ _ _ _ R Hch Hw).
  split_and!; [done..|intros Hs k|intros Hs Hap k; setoid_rewrite <- (apart_occurs docs _ k _ Hap)];
    setoid_rewrite <- (located_searchable docs _ _ _ k _ Hs); apply Hids.
Qed.

(** C4: documents are indexed and searched.  For queries of any words, indexing and
    searching return, and the result is the combination, as the flags of the
    queries ask, of the documents found for each word: those in which the word
    stands, inside of the document or over its end, once the characters that no
    document has are taken for the first one; none if it then ends in the last
    character of the alphabet.  If every document ends in a character that a
    searchable word has not, exactly the documents in which it occurs. *)
Theorem search_documents toLowerCase key docs density qs
  (Hx : indexable docs) (Hne : qs ≠ []) (Hqs : Forall (λ q, Query.word q ≠ [] ∧ Forall Text.plain (Query.word q)) qs) :
  ∃ o h rs r, index_documents key docs density = Ret o ∧
    search toLowerCase [] o qs = Ret (h, SR.mkSummary rs (Some r)) ∧
    NoDup (SR.unitIds r) ∧ SR.unitIds r = SR.merged_ids rs ∧ Forall2 (reports docs) qs rs.
Proof.
  destruct (index_ready key docs density Hx) as (o & Ho & R).
  destruct (search_reports toLowerCase o key docs _ R Hx [] qs Hne Hqs) as (h & rs & r & Hrun & Hwf & Hids & Hall & _).
  exists o, h, rs, r. split; [exact Ho|]. split; [exact Hrun|]. split; [apply Hwf|]. split; [exact Hids|exact Hall].
Qed.

(** C9: the result of a single word has exactly one unit for each document in which it
    is found, and none besides; the unit knows where the document starts and
    lists, counted from there, the places where it is found and nothing else. *)
Theorem search_positions toLowerCase key docs density q
  (Hx : indexable docs) (Hw : Query.word q ≠ []) (Hp : Forall Text.plain (Query.word q)) :
  ∃ o h r, index_documents key docs density = Ret o ∧
    search toLowerCase [] o [q] = Ret (h, SR.mkSummary [r] (Some r)) ∧ NoDup (SR.unitIds r) ∧
    (∀ k, (∃ off, finds docs (Query.word q) k off) ↔ ∃ ref u, SR.lists r ref k ∧ h !! ref = Some u) ∧
    ∀ ref k u, SR.lists r ref k → h !! ref = Some u →
      SR.startPosition u = doc_start docs k ∧
      ∀ off pos, SR.unit_get u off = Some pos ↔
        pos = SR.mkPosition (Query.word q) off (negb (Query.raw q)) ∧ finds docs (Query.word q) k off.
Proof.
  destruct (index_ready key docs density Hx) as (o & Ho & R). pose proof (alphabet_some docs Hx) as Hch.
  destruct (query_units toLowerCase o key docs _ _ _ R [] q Hch Hw Hp) as (h & r & Hrun & Hwf & _ & _ & _ & Hids & Hus).
  setoid_rewrite (ready_finds o key docs _ _ _ _ R Hch Hw) in Hids. setoid_rewrite (ready_finds o key docs _ _ _ _ R Hch Hw) in Hus.
  exists o, h, r. split; [exact Ho|]. split; [|split; [apply Hwf|split; [|exact Hus]]].
  - unfold search. cbn [ofold]. rewrite Hrun. reflexivity.
  - intros k. rewrite <- Hids. split.
    + intros (ref & _ & Hl)%(SR.lists_index h); [|done]. destruct (SR.lists_stored h r ref k Hwf Hl) as (u & Hu & _). by exists ref, u.
    + intros (ref & u & Hl & _). by apply (SR.lists_ids r ref).
Qed.

(** C37: a character that no document has is not told apart from the first
    character of the documents: a word with such characters is found wherever
    the word with that character in their place stands. *)
Theorem unknown_collides toLowerCase key docs density word
  (Hx : indexable docs) (Hp : Forall Text.plain word) (Hne : word ≠ []) :
  let chars := alphabet (concat docs.*2) in
  list.last (Text.seen_as chars <$> word) ≠ list.last chars →
  ∃ o ps, index_documents key docs density = Ret o ∧ rawSearch toLowerCase o word false = Ret ps ∧
    ∀ p, p ∈ ps ↔ stands docs (Text.seen_as chars <$> word) p.
Proof.
  intros chars Hlast. destruct (index_ready key docs density Hx) as (o & Ho & R). pose proof (alphabet_some docs Hx) as Hch.
  destruct (raw_search_seen toLowerCase o key docs _ _ _ R word Hp Hne Hch) as (ps & Hs & Hps).
  exists o, ps. split; [exact Ho|]. split; [exact Hs|]. intros p. rewrite Hps.
  rewrite (ready_largest o key docs _ word R Hch Hne). fold chars. tauto.
Qed.

(** C10: the name of a document is read back from the index, and its content as well
    where the checkpoint after its end is inside the text; where it lies past the
    text, which can happen to the documents at the end, characters of before
    come out in their place. *)
Theorem document_content key docs density k d (Hx : indexable docs) (Hd : aget docs k = Some d) :
  let next := FM.next_checkpoint (Text.cacheRange density) (doc_start docs k + zlen d.2) in
  ∃ o s content, index_documents key docs density = Ret o ∧ getPrimaryMetadata o = Ret (MSection s) ∧
    getInformation s k = Ret d.1 ∧ getContent (text o) (Sec.bv s) k = Ret content ∧
    (next ≤ zlen (concat docs.*2) → content = d.2) ∧
    (zlen (concat docs.*2) < next →
     content = Text.shifted (concat docs.*2) (Text.cacheRange density) (doc_start docs k) (zlen d.2)).
Proof.
  intros next. destruct (index_ready key docs density Hx) as (o & Ho & R).
  destruct (ready_section _ _ _ _ _ _ R) as (s & Hs & Hm & Hbt & Hn). pose proof (aget_Some_range _ _ _ Hd).
  destruct (doc_part docs k d Hd) as [He Hps]. destruct (document_text docs k d Hd) as (rest & Ht & Hle).
  pose proof (zlen_nonneg rest).
  assert (doc_start docs k + zlen d.2 - 1 + 1 = doc_start docs k + zlen d.2) as Hnext by lia.
  assert (doc_start docs k + zlen d.2 - doc_start docs k = zlen d.2) as Hlen by lia.
  exists o, s. eexists (if decide (next ≤ zlen (concat docs.*2)) then d.2 else _).
  split; [exact Ho|]. clear Ho. split; [by apply (primary_section o key); [apply R|]|]. split_and!.
  - cbn [getInformation Sec.section_metadata]. unfold Sec.getName, Sec.size. rewrite Hn, zlen_fmap, decide_False by lia.
    by rewrite aget_fmap, Hd.
  - case_decide as Hc.
    + rewrite (content_marks _ _ Hm Hbt _ _ _ _ _ _ _ (ready_text _ _ _ _ _ _ R) He); rewrite ?Hnext; [|lia|exact Hc].
      rewrite Hps, Hlen, Ht. assert (Z.to_nat (zlen d.2) = length d.2) as -> by (unfold zlen; lia). by rewrite take_app_length.
    + rewrite (content_past _ _ Hm Hbt _ _ _ _ _ _ _ (ready_text _ _ _ _ _ _ R) He); rewrite ?Hnext; [|lia..].
      by rewrite Hps, Hlen.
  - intros Hc. by rewrite decide_True.
  - intros Hc. by rewrite decide_False by lia.
Qed.


(** a word whose entry in the table of stemmed words would be named like a
    method that every object has breaks the engine: it can neither be added nor,
    with a stemmer, be searched for without quotes. *)
Theorem inherited_word_throws toLowerCase o o1 word stemWord key n
  (Hkey : list_find (λ e, jstr e.1 = jstr key) Obj.inherited = Some n) (Hn : 0 < n.2.2)
  (Hown : Obj.get (_stemmingResult o) (jstr key) = None)
  (Hone : Lang.split_spaces word [] false = [word]) (Hadd : addWord o word = Ret o1)
  (Hsmall : toLowerCase (js_slice word 0 1) ++ js_slice word 1 (zlen word) = jstr key) (Hdiff : word ≠ jstr key)
  (Hstem : _stemmer o = Some stemWord) (Hbase : stemWord (toLowerCase word) = jstr key) :
  addWord_stemming toLowerCase o word false = Throw "TypeError" ∧ rawSearch toLowerCase o word true = Throw "TypeError".
Proof.
  assert (∀ table, Obj.get table (jstr key) = None → Obj.read (V := list jsstr) table (jstr key) = Obj.Inherited n.2.2) as Hread.
  { intros table Ht. unfold Obj.read. rewrite Ht, Hkey. by destruct n as [? [? ?]]. }
  assert (jstr key ≠ []) as Hne.
  { intros Heq. rewrite Heq in Hkey. vm_compute in Hkey. discriminate. }
  split.
  - unfold addWord_stemming. rewrite Hadd. cbn [mbind outcome_bind]. rewrite Hone. cbn [ofold]. unfold stem_word, registerWord.
    assert (_stemmingResult o1 = _stemmingResult o) as ->.
    { unfold addWord in Hadd. apply bind_Ret in Hadd as (p & _ & [= <-]). done. }
    rewrite Hsmall, decide_False by done. destruct (jstr key) as [|c w] eqn:Hj; [done|]. by rewrite Hread.
  - unfold rawSearch. rewrite Hstem, Hbase, Hread by done. by rewrite decide_True.
Qed.

(** ** Instances *)

Definition ascii_lower (s : jsstr) : jsstr := (λ c, if decide (65 ≤ c ≤ 90) then c + 32 else c) <$> s.

Definition sample_docs : list (jsstr * jsstr) :=
  [(jstr "one", jstr "hello world"); (jstr "two", jstr "world peace")].

Lemma sample_docs_ok : indexable sample_docs.
Proof.
  split; [done| |vm_compute; done]. unfold Text.plain. decided.
Qed.

Lemma sample_searchable : let chars := alphabet (concat sample_docs.*2) in searchable chars (3 + zlen chars) (jstr "world").
Proof. cbv zeta. unfold searchable. decided. Qed.

Lemma sample_matches k off d :
  aget sample_docs k = Some d → 0 ≤ off → off + 5 ≤ zlen d.2 → take 5 (drop (Z.to_nat off) d.2) = jstr "world" →
  matches sample_docs (jstr "world") k off.
Proof. intros Hd Hoff Hle Ht. left. exists d. split; [done|]. split; [done|]. split; [exact Hle|exact Ht]. Qed.

(** A word that no document has, found as the end of the first document with the start
    of the second one. *)
Lemma search_documents_witness :
  (∃ o h rs r, index_documents (jstr "document") sample_docs (Text.percent 5) = Ret o ∧
    search ascii_lower [] o [Query.mk (jstr "world") false false false] = Ret (h, SR.mkSummary rs (Some r)) ∧
    0 ∈ SR.unitIds r ∧ 1 ∈ SR.unitIds r) ∧
  (∃ o h rs r, index_documents (jstr "document") sample_docs (Text.percent 5) = Ret o ∧
    search ascii_lower [] o [Query.mk (jstr "dwor") false false false] = Ret (h, SR.mkSummary rs (Some r)) ∧ 0 ∈ SR.unitIds r).
Proof.
  split.
  - destruct (search_documents ascii_lower (jstr "document") sample_docs (Text.percent 5) [Query.mk (jstr "world") false false false]
      sample_docs_ok) as (o & h & rs & r & Ho & Hs & _ & Hids & Hall).
    + discriminate.
    + apply Forall_singleton. unfold Text.plain. decided.
    + exists o, h, rs, r. split; [exact Ho|]. split; [exact Hs|]. clear Ho Hs.
      inversion Hall as [|? r1 ? ? (_ & _ & _ & Hk & _) Hnil]. subst. inversion Hnil. subst.
      rewrite Hids. cbn [SR.merged_ids foldl]. rewrite !(Hk sample_searchable). split.
      * exists 6. eapply sample_matches; [reflexivity|lia|vm_compute; discriminate|reflexivity].
      * exists 0. eapply sample_matches; [reflexivity|lia|vm_compute; discriminate|reflexivity].
  - destruct (search_documents ascii_lower (jstr "document") sample_docs (Text.percent 5) [Query.mk (jstr "dwor") false false false]
      sample_docs_ok) as (o & h & rs & r & Ho & Hs & _ & Hids & Hall).
    + discriminate.
    + apply Forall_singleton. unfold Text.plain. decided.
    + exists o, h, rs, r. split; [exact Ho|]. split; [exact Hs|]. clear Ho Hs.
      inversion Hall as [|? r1 ? ? (_ & _ & Hk & _) Hnil]. subst. inversion Hnil. subst.
      rewrite Hids. cbn [SR.merged_ids foldl]. apply Hk. exists 10. split; [vm_compute; discriminate|]. right.
      exists (jstr "one", jstr "hello world"). split; [reflexivity|]. split; [vm_compute; split; [discriminate|reflexivity]|].
      split; [vm_compute; reflexivity|]. split; [vm_compute; discriminate|reflexivity].
Defined.

(** The unit of the first document lists the word at its place. *)
Lemma search_positions_witness :
  ∃ o h r ref u, index_documents (jstr "document") sample_docs (Text.percent 5) = Ret o ∧
    search ascii_lower [] o [Query.mk (jstr "world") false false true] = Ret (h, SR.mkSummary [r] (Some r)) ∧
    SR.lists r ref 0 ∧ h !! ref = Some u ∧ SR.unit_get u 6 = Some (SR.mkPosition (jstr "world") 6 false).
Proof.
  destruct (search_positions ascii_lower (jstr "document") sample_docs (Text.percent 5) (Query.mk (jstr "world") false false true)
    sample_docs_ok) as (o & h & r & Ho & Hs & _ & Hk & Hus); [discriminate|unfold Text.plain; decided|].
  assert (finds sample_docs (jstr "world") 0 6) as Hf.
  { split; [vm_compute; discriminate|]. eapply sample_matches; [reflexivity|lia|vm_compute; discriminate|reflexivity]. }
  destruct (proj1 (Hk 0)) as (ref & u & Hl & Hu); [by exists 6|]. exists o, h, r, ref, u. split; [exact Ho|]. split; [exact Hs|].
  split; [exact Hl|]. split; [exact Hu|]. apply (Hus ref 0 u Hl Hu). split; [reflexivity|exact Hf].
Defined.

(** ["xello"], which is in neither document, is found where ["hello"] stands. *)
Lemma unknown_collides_witness :
  ∃ o ps, index_documents (jstr "document") sample_docs (Text.percent 5) = Ret o ∧
    rawSearch ascii_lower o (jstr "xello") false = Ret ps ∧ 0 ∈ ps.
Proof.
  destruct (unknown_collides ascii_lower (jstr "document") sample_docs (Text.percent 5) (jstr "xello") sample_docs_ok)
    as (o & ps & Ho & Hs & Hps).
  - unfold Text.plain. decided.
  - discriminate.
  - vm_compute. congruence.
  - exists o, ps. split; [exact Ho|]. split; [exact Hs|]. apply Hps. split; [lia|]. vm_compute. reflexivity.
Defined.

(** The last document is not read back as it was added. *)
Lemma document_content_witness :
  (∃ o s, index_documents (jstr "document") sample_docs (Text.percent 100) = Ret o ∧ getPrimaryMetadata o = Ret (MSection s) ∧
    getInformation s 0 = Ret (jstr "one") ∧ getContent (text o) (Sec.bv s) 0 = Ret (jstr "hello world")) ∧
  ∃ o s, index_documents (jstr "document") sample_docs (Text.percent 5) = Ret o ∧ getPrimaryMetadata o = Ret (MSection s) ∧
    getInformation s 1 = Ret (jstr "two") ∧ getContent (text o) (Sec.bv s) 1 ≠ Ret (jstr "world peace").
Proof.
  split.
  - destruct (document_content (jstr "document") sample_docs (Text.percent 100) 0 (jstr "one", jstr "hello world") sample_docs_ok)
      as (o & s & content & Ho & Hs & Hn & Hc & Hin & _); [reflexivity|].
    rewrite Hin in Hc by (vm_compute; discriminate). exists o, s. split; [exact Ho|]. split; [exact Hs|]. split; [exact Hn|exact Hc].
  - destruct (document_content (jstr "document") sample_docs (Text.percent 5) 1 (jstr "two", jstr "world peace") sample_docs_ok)
      as (o & s & content & Ho & Hs & Hn & Hc & _ & Hout); [reflexivity|].
    rewrite Hout in Hc by (vm_compute; reflexivity). exists o, s. split; [exact Ho|]. split; [exact Hs|]. split; [exact Hn|].
    rewrite Hc. vm_compute. discriminate.
Defined.

(** A stemmer that leaves every word as it is. *)
Definition sample_engine : t := setStemmer new (λ w, w).

Lemma inherited_word_throws_witness :
  addWord_stemming ascii_lower sample_engine (jstr "Constructor") false = Throw "TypeError" ∧
  rawSearch ascii_lower sample_engine (jstr "Constructor") true = Throw "TypeError".
Proof.
  destruct (addWord sample_engine (jstr "Constructor")) as [o1| | |] eqn:Hadd; [|discriminate..].
  eapply (inherited_word_throws ascii_lower sample_engine o1 (jstr "Constructor") (λ w, w) "constructor");
    [vm_compute; reflexivity|reflexivity|reflexivity|vm_compute; reflexivity|exact Hadd|vm_compute; reflexivity|discriminate|reflexivity|vm_compute; reflexivity].
Defined.
End OktSearch.
