(* ===== verification/OktaviaFile.v ===== *)
(** * Saving and loading the engine

    [Okt.dump] writes the index, the character codes, the stemmed words and the
    metadata one after the other; [Okt.load] restores them.  An engine that was
    loaded answers searches as the documents prescribe. *)

From S2P Require Import Prelude JsObject Binary BitVector WaveletMatrix FMIndex Lang Query Text SearchResult.
From S2P Require Import Metadata Sections Splitters Tables Blocks Oktavia OktaviaSearch.

Local Open Scope Z_scope.

Module OktFile.
Import Meta Okt OktSearch.

(** ** The metadata *)

Definition saveable (m : metadata) : Prop :=
  match m with
  | MSection s => Sec.saveable s
  | MSplitter s => Spl.saveable s
  | MTable s => Tab.saveable s
  | MBlock s => Blk.saveable s
  end.

Definition norm (m : metadata) : metadata :=
  match m with
  | MSection s => MSection (Sec.norm s)
  | MSplitter s => MSplitter (Spl.norm s)
  | MTable s => MTable (Tab.norm s)
  | MBlock s => MBlock (Blk.norm s)
  end.

(** From the law of one kind to the object in the table. *)
Lemma kind_saved {M} `{Metadata M} (ok : M → Prop) kind load (nm : M → M) (inj : M → metadata) (m : M) r :
  Saved M ok kind load nm → ok m → 0 ≤ kind < 4 →
  (∀ data off, load_object kind data off = ('(s, offset) ← load data off; Ret (Some (inj s, offset)))) →
  ∃ kind body r', _dump m r = Ret (Bin.dump16bitNumber kind ++ body, r') ∧ 0 ≤ kind < 4 ∧
    ∀ data off, has_at data off body → load_object kind data off = Ret (Some (inj (nm m), off + zlen body)).
Proof.
  intros Hs Hok Hk Hl. destruct (Hs m r Hok) as (body & r' & Hd & Hload). exists kind, body, r'.
  split_and!; [done|lia..|]. intros data off Hat. rewrite Hl, (Hload data off Hat). done.
Qed.

Lemma object_saved m r :
  saveable m → ∃ kind body r', _dump m r = Ret (Bin.dump16bitNumber kind ++ body, r') ∧ 0 ≤ kind < 4 ∧
    ∀ data off, has_at data off body → load_object kind data off = Ret (Some (norm m, off + zlen body)).
Proof.
  destruct m as [s|s|s|s]; intros Hok; cbn [_dump metadata_any saveable norm] in *.
  - apply (kind_saved Sec.saveable 0 Sec._load Sec.norm MSection s r Sec.section_saved); done || lia.
  - apply (kind_saved Spl.saveable 1 Spl._load Spl.norm MSplitter s r Spl.splitter_saved); done || lia.
  - apply (kind_saved Tab.saveable 2 Tab._load Tab.norm MTable s r Tab.table_saved); done || lia.
  - apply (kind_saved Blk.saveable 3 Blk._load Blk.norm MBlock s r Blk.block_saved); done || lia.
Qed.

(** The table of metadata after the objects named [labels] are read. *)
Definition reload (ms : list (jsstr * metadata)) (labels : list jsstr) (acc : list (jsstr * metadata)) : list (jsstr * metadata) :=
  foldl (λ acc name, match Obj.get ms name with Some m => Obj.put acc name (norm m) | None => acc end) acc labels.

Lemma dump_metadata_spec ms labels :
  Forall (λ name, Bin.string_ok name ∧ ∃ m, Obj.get ms name = Some m ∧ saveable m) labels →
  ∃ s, dump_metadata ms labels = Ret s ∧ ∀ data off a acc ls, has_at data off s →
    ofold (load_metadata data) (acc, ls, off) (seqZ a (zlen labels)) = Ret (reload ms labels acc, ls ++ labels, off + zlen s).
Proof.
  induction 1 as [|name labels [Hn (m & Hm & Hok)] _ (rest & IHd & IHl)].
  { exists []. split; [done|]. intros data off a acc ls _. cbn. by rewrite app_nil_r, Z.add_0_r. }
  destruct (object_saved m (Some Bin.report_new) Hok) as (kind & body & r' & Hd & Hk & Hload).
  cbn [dump_metadata]. rewrite Hm. cbn [of_option mbind outcome_bind]. rewrite Hd. cbn [mbind outcome_bind].
  destruct (Bin.dumpString name r') as [label r2] eqn:Hlab. rewrite IHd. cbn [mbind outcome_bind].
  assert (label = Bin.string_code name) as -> by (rewrite <- (Bin.dumpString_code name r'), Hlab; done).
  eexists. split; [done|]. intros data off a acc ls [H1 [[H2 H3]%has_at_app H4]%has_at_app]%has_at_app.
  rewrite zlen_cons, seqZ_cons by (pose proof (zlen_nonneg labels); lia). cbn [ofold].
  assert (load_metadata data (acc, ls, off) a
    = Ret (Obj.put acc name (norm m), ls ++ [name], off + zlen (Bin.string_code name) + 1 + zlen body)) as ->.
  { unfold load_metadata. rewrite (Bin.loadString_code name) by done. cbn [mbind outcome_bind].
    rewrite (Bin.load16_dump16 kind) by done. cbn [mbind outcome_bind]. rewrite Z.mod_small by lia.
    rewrite Bin.zlen_dump16 in H3. rewrite Hload by done. done. }
  cbn [mbind outcome_bind]. rewrite zlen_app, Bin.zlen_dump16, Z.add_assoc in H4.
  replace (Z.pred (1 + zlen labels)) with (zlen labels) by lia. rewrite IHl by done.
  cbn [reload foldl]. rewrite Hm, <- app_assoc, !zlen_app, Bin.zlen_dump16. do 2 f_equal. lia.
Qed.

Lemma reload_get ms labels acc name :
  Obj.get (reload ms labels acc) name =
    if decide (name ∈ labels ∧ is_Some (Obj.get ms name)) then norm <$> Obj.get ms name else Obj.get acc name.
Proof.
  revert acc. induction labels as [|l labels IH]; intros acc.
  { rewrite decide_False; [done|]. intros [?%elem_of_nil _]. done. }
  change (reload ms (l :: labels) acc)
    with (reload ms labels match Obj.get ms l with Some m => Obj.put acc l (norm m) | None => acc end). rewrite IH. destruct (Obj.get ms l) as [m|] eqn:Hl.
  - rewrite Obj.get_put. destruct (decide (l = name)) as [->|Hne].
    + rewrite (decide_True (P := name ∈ name :: labels ∧ _)) by (split; [left|by eexists]). case_decide; by rewrite Hl.
    + apply decide_ext. rewrite elem_of_cons. naive_solver.
  - apply decide_ext. rewrite elem_of_cons. split; [naive_solver|]. intros [[->|?] [x Hx]]; [congruence|by eauto].
Qed.

(** ** The character codes *)

Lemma load_codes data off toCode fromCode pre chars :
  Text.coded toCode fromCode pre → Forall Text.plain chars → NoDup (pre ++ chars) → has_at data off chars →
  ∃ toCode' fromCode', ofold (load_code data) (toCode, fromCode, off) (seqZ (3 + zlen pre) (zlen chars))
      = Ret (toCode', fromCode', off + zlen chars) ∧ Text.coded toCode' fromCode' (pre ++ chars).
Proof.
  intros Hk Hp. revert off toCode fromCode pre Hk. induction Hp as [|c chars Hc _ IH]; intros off toCode fromCode pre Hk Hnd Hat.
  { exists toCode, fromCode. by rewrite app_nil_r, Z.add_0_r. }
  apply has_at_cons in Hat as [Hc0 Hat]. rewrite zlen_cons, seqZ_cons by (pose proof (zlen_nonneg chars); lia).
  assert (c ∉ pre) as Hin by (intros Hin; apply NoDup_app in Hnd as (_ & Hnd & _); apply (Hnd c Hin); left).
  destruct (Text.coded_snoc _ _ _ c Hk Hc Hin) as [Hk' _].
  assert (zlen fromCode = 3 + zlen pre) as Hlen by (rewrite (Text.coded_from _ _ _ Hk), zlen_app, zlen_fmap; done).
  cbn [ofold]. assert (load_code data (toCode, fromCode, off) (3 + zlen pre)
    = Ret (IMap.put toCode c (fromCharCode (3 + zlen pre)), fromCode ++ [fromCharCode c], off + 1)) as ->
    by (unfold load_code, Bin.load16bitNumber; by rewrite Hc0). cbn [mbind outcome_bind].
  rewrite Hlen in Hk'. rewrite (cons_middle c), app_assoc in Hnd.
  destruct (IH (off + 1) _ _ (pre ++ [c]) Hk' Hnd Hat) as (to' & from' & Hrun & Hk2). exists to', from'.
  rewrite zlen_app in Hrun. change (zlen [c]) with 1 in Hrun. rewrite <- app_assoc in Hk2. split; [|done].
  replace (Z.succ (3 + zlen pre)) with (3 + (zlen pre + 1)) by lia.
  replace (Z.pred (1 + zlen chars)) with (zlen chars) by lia. rewrite Hrun. do 2 f_equal. lia.
Qed.

(** ** The file *)

Record storable (o : t) (chars T : list Z) : Prop := {
  store_text : ∃ M ddic, Text.indexed (text o) chars T M ddic;
  store_codes : 3 + zlen chars < 65536;
  store_stems : Bin.map_ok (_stemmingResult o);
  store_labels : Forall (λ name, Bin.string_ok name ∧ ∃ m, Obj.get (_metadatas o) name = Some m ∧ saveable m) (_metadataLabels o);
  store_count : zlen (_metadataLabels o) < 65536;
}.

Lemma concat_singletons (l : list Z) : concat ((λ c, [c]) <$> l) = l.
Proof. induction l as [|c l IH]; [done|]. cbn [fmap list_fmap concat]. by rewrite IH. Qed.

Lemma header_length : zlen header = 5.
Proof. done. Qed.

Lemma stems_saved (m : list (jsstr * list jsstr)) r :
  Bin.map_ok m → ∃ s r', Bin.dumpStringListMap m r = (s, r') ∧
    ∀ data off, has_at data off s → Bin.loadStringListMap data off = Ret (m, off + zlen s).
Proof.
  intros Hok. destruct (Bin.dumpStringListMap m r) as [s r'] eqn:Hd. exists s, r'. split; [done|].
  assert (s = (Bin.dumpStringListMap m None).1) as ->.
  { rewrite Bin.dumpStringListMap_code, <- (Bin.dumpStringListMap_code m r). by rewrite Hd. }
  intros data off. by apply (Bin.codec_load (Codec := Bin.codec_string_list_map) m).
Qed.

(** What [load] makes of what [dump] wrote. *)
Lemma file_spec o chars T :
  storable o chars T →
  ∃ s fm toCode, dump o = Ret s ∧
    load new s = Ret (mk (Text.mk fm toCode (Text._compressCode2utf16 (text o)))
      (reload (_metadatas o) (_metadataLabels o) []) (_metadataLabels o) None (_stemmingResult o)) ∧
    Text.coded toCode (Text._compressCode2utf16 (text o)) chars ∧
    ∀ sa M, FM.repr (Text._fmindex (text o)) ((Text.code chars <$> T) ++ [0]) sa M →
      FM.repr fm ((Text.code chars <$> T) ++ [0]) sa (2 ^ WM.bitsize (FM._sv (Text._fmindex (text o)))) ∧
      FM._ddic fm = FM._ddic (Text._fmindex (text o)).
Proof.
  intros [(M & ddic & [Hk _ _ _ (sa & Hr)]) Hcodes Hstems Hlabels Hcount].
  destruct (FM.dump_total _ _ _ _ Hr) as [fmdata Hfm].
  destruct (stems_saved _ (Some Bin.report_new) Hstems) as (stems & r' & Hsd & Hsl).
  destruct (dump_metadata_spec _ _ Hlabels) as (meta & Hmd & Hml).
  unfold dump. rewrite Hfm. cbn [mbind outcome_bind]. rewrite Hsd, Hmd. cbn [mbind outcome_bind].
  assert (concat (drop 3 (Text._compressCode2utf16 (text o))) = chars) as ->.
  { rewrite (Text.coded_from _ _ _ Hk). apply concat_singletons. }
  assert (zlen (Text._compressCode2utf16 (text o)) = 3 + zlen chars) as Hlen
    by (rewrite (Text.coded_from _ _ _ Hk), zlen_app, zlen_fmap; done).
  set (s := header ++ _). assert (has_at s 0 s) as Hat by (rewrite <- (app_nil_r s) at 1; apply has_at_self).
  unfold s in Hat at 2. rewrite !has_at_app, header_length, !Bin.zlen_dump16, !Z.add_0_l in Hat.
  destruct Hat as (Hh & Hf & Hc & Hch & Hs & Hn & Hm). pose proof (zlen_nonneg chars).
  destruct (load_codes s _ _ _ [] chars Text.new_coded (Text.coded_chars _ _ _ Hk) (Text.coded_nodup _ _ _ Hk) Hch)
    as (toCode & fromCode & Hcl & Hk').
  assert (fromCode = Text._compressCode2utf16 (text o)) as ->
    by (rewrite (Text.coded_from _ _ _ Hk'), (Text.coded_from _ _ _ Hk); done).
  exists s, (FM.loaded (Text._fmindex (text o)) ((Text.code chars <$> T) ++ [0])), toCode. split; [done|]. split; [|split; [done|]].
  - unfold load. rewrite decide_False; [|intros Hne; apply Hne; by apply (has_at_slice s 0 header)].
    change (Text._fmindex (text new)) with FM.new. rewrite (FM.load_repr _ _ _ _ _ _ _ Hr Hfm Hf). cbn [mbind outcome_bind].
    rewrite (Bin.load16_dump16 _ _ _ Hc), Hlen, Z.mod_small by lia. cbn [mbind outcome_bind].
    replace (3 + zlen chars - 3) with (zlen chars) by lia. cbn [Text.new Text._utf162compressCode Text._compressCode2utf16] in Hcl.
    change (3 + zlen (@nil Z)) with 3 in Hcl. rewrite Hcl. cbn [mbind outcome_bind].
    rewrite (Hsl _ _ Hs). cbn [mbind outcome_bind].
    rewrite (Bin.load16_dump16 _ _ _ Hn), Z.mod_small by (pose proof (zlen_nonneg (_metadataLabels o)); lia). cbn [mbind outcome_bind].
    rewrite (Hml s _ 0 [] [] Hm). done.
  - intros sa' M' Hr'. split; [by apply (FM.repr_loaded _ _ _ M')|done].
Qed.

(** C8: an engine with metadata of any kinds is restored from its dump: the
    labels, the stemmed words and the characters are the same, every metadata
    object comes back with its bits, and the text reads the same everywhere. *)
Theorem file_roundtrip o chars T (Hst : storable o chars T) :
  ∃ s o', dump o = Ret s ∧ load new s = Ret o' ∧
    _metadataLabels o' = _metadataLabels o ∧ _stemmingResult o' = _stemmingResult o ∧
    (∀ name, name ∈ _metadataLabels o → Obj.get (_metadatas o') name = norm <$> Obj.get (_metadatas o) name) ∧
    (∀ word, Forall Text.plain word →
       Text._convertToCompressionCode (text o') word = Text._convertToCompressionCode (text o) word) ∧
    ∀ pos len, 0 ≤ pos ≤ zlen T → 0 ≤ len → Text._getSubstring (text o') pos len = Text._getSubstring (text o) pos len.
Proof.
  destruct (file_spec o chars T Hst) as (s & fm & toCode & Hd & Hl & Hk & Hr). eexists s, _. split; [exact Hd|]. split; [exact Hl|].
  clear Hd Hl. cbn [_metadataLabels _stemmingResult _metadatas text].
  pose proof Hst as [(M & ddic & [Hk0 _ _ _ (sa & Hr0)]) _ _ Hlab _]. split; [done|]. split; [done|]. split; [|split].
  - intros name Hn. rewrite Forall_forall in Hlab. destruct (Hlab name Hn) as (_ & m & Hm & _).
    rewrite reload_get, decide_True; [done|]. split; [done|]. by rewrite Hm.
  - intros word _. unfold Text._convertToCompressionCode. f_equal. apply list_fmap_ext. intros k c _. cbn [Text._utf162compressCode].
    by rewrite (Text.coded_to _ _ _ Hk), (Text.coded_to _ _ _ Hk0).
  - intros pos len Hpos Hlen. unfold Text._getSubstring. cbn [Text._fmindex Text._compressCode2utf16].
    destruct (Hr sa M Hr0) as [Hr' Hdd]. rewrite (FM.same_substrings _ _ _ _ _ _ _ pos len Hr0 Hr' Hdd); [done| |done].
    rewrite zlen_app, zlen_fmap. change (zlen [0]) with 1. lia.
Qed.

(** ** Documents *)

(** The names that fit in a file. *)
Definition names_ok (key : jsstr) (docs : list (jsstr * jsstr)) : Prop :=
  Bin.string_ok key ∧ Bin.strings_ok docs.*1 ∧ 3 + zlen (alphabet (concat docs.*2)) < 65536.

Lemma ready_storable o key docs chars M ddic :
  ready o key docs chars M ddic → _metadataLabels o = [key] → _stemmingResult o = [] →
  Bin.string_ok key → Bin.strings_ok docs.*1 → 3 + zlen chars < 65536 → storable o chars (concat docs.*2).
Proof.
  intros [Ht _ (s & Hm & Hmk & _ & Hn) _] Hl Hse Hkey Hnames Hc. split.
  - by exists M, ddic.
  - done.
  - rewrite Hse. split_and!; [split; constructor|constructor|done].
  - rewrite Hl. apply Forall_singleton. split; [done|]. exists (MSection s). split; [done|]. split; [apply Hmk|by rewrite Hn].
  - by rewrite Hl.
Qed.

(** The engine that is loaded is ready for the same documents, with the same rows of
    the index. *)
Lemma load_engine o key docs chars M ddic :
  ready o key docs chars M ddic → storable o chars (concat docs.*2) →
  ∃ s o' M' sa, dump o = Ret s ∧ load new s = Ret o' ∧ M ≤ M' ∧ ready o' key docs chars M' ddic ∧
    FM.repr (Text._fmindex (text o)) ((Text.code chars <$> concat docs.*2) ++ [0]) sa M ∧
    FM.repr (Text._fmindex (text o')) ((Text.code chars <$> concat docs.*2) ++ [0]) sa M'.
Proof.
  intros R Hst. pose proof R as [Hx Hl (sec & Hm & Hmk & _ & Hn) _].
  destruct (file_spec o chars _ Hst) as (s & fm & toCode & Hd & Hload & Hk & Hr).
  destruct Hx as [_ Ht HM Hdd (sa & Hrepr)]. eexists s, _, _, sa. split; [exact Hd|]. split; [exact Hload|]. clear Hd Hload.
  destruct (Hr sa M Hrepr) as [Hr' Hdd']. pose proof (FM.tables_bits _ _ _ _ (FM.repr_tables _ _ _ _ Hrepr)).
  split; [done|]. split; [|by split]. destruct (norm_marks _ _ Hmk) as [Hmk' Hbt].
  split; cbn [text _metadataLabels _metadatas _stemmer _stemmingResult].
  - split; cbn; [done|done|lia|congruence|by exists sa].
  - done.
  - exists (Sec.norm sec). split_and!; [|done..]. rewrite reload_get, decide_True, Hm; [done|].
    split; [by apply head_Some_elem_of|by eexists].
  - done.
Qed.

Lemma load_ready o key docs chars M ddic :
  ready o key docs chars M ddic → storable o chars (concat docs.*2) →
  ∃ s o' M', dump o = Ret s ∧ load new s = Ret o' ∧ M ≤ M' ∧ ready o' key docs chars M' ddic.
Proof.
  intros R Hst. destruct (load_engine o key docs chars M ddic R Hst) as (s & o' & M' & sa & Hd & Hl & HM & R' & _). by exists s, o', M'.
Qed.

(** ** The same searches *)

Lemma same_groups bv bv' es getIndex getIndex' word stemmed st qs :
  marks bv es → BV.built bv → marks bv' es → BV.built bv' → Forall (λ p, 0 ≤ p < BV._size bv) qs →
  (∀ p, 0 ≤ p < BV._size bv → getIndex p = Ret (below es p) ∧ getIndex' p = Ret (below es p)) →
  ofold (group_step bv' getIndex' word stemmed) st qs = ofold (group_step bv getIndex word stemmed) st qs.
Proof.
  intros Hm Hb Hm' Hb' Hqs Hget. apply ofold_ext. intros [h r] p Hin. rewrite Forall_forall in Hqs.
  pose proof (Hqs p Hin) as Hp. destruct (Hget p Hp) as [Hi Hi']. unfold group_step. rewrite Hi, Hi'. cbn [mbind outcome_bind].
  destruct (part_of bv es Hm p Hp) as (e & He & _). pose proof (aget_Some_range _ _ _ He) as Hr.
  by rewrite (start_marks bv es Hm Hb _ Hr), (start_marks bv' es Hm' Hb' _ Hr).
Qed.

Section same.
Context (toLowerCase : jsstr → jsstr) (key : jsstr) (docs : list (jsstr * jsstr)) (chars sa : list Z) (ddic : Z).
Context (o o' : t) (M M' : Z) (R : ready o key docs chars M ddic) (R' : ready o' key docs chars M' ddic).
Hypothesis (rows : FM.repr (Text._fmindex (text o)) ((Text.code chars <$> concat docs.*2) ++ [0]) sa M).
Hypothesis (rows' : FM.repr (Text._fmindex (text o')) ((Text.code chars <$> concat docs.*2) ++ [0]) sa M').
Hypothesis (rounded : M ≤ M') (some : chars ≠ []).

(** A word that the engine does not lose. *)
Definition kept (word : jsstr) : Prop :=
  word ≠ [] ∧ Forall Text.plain word ∧ (Text.code chars <$> list.last (Text.seen_as chars <$> word)) ≠ Some (M - 1).

Lemma same_raw word : kept word → rawSearch toLowerCase o' word false = rawSearch toLowerCase o word false.
Proof.
  intros (Hne & Hp & Hlast). unfold rawSearch.
  rewrite (Text.convert_codes _ _ _ (Text.indexed_coded _ _ _ _ _ (ready_text _ _ _ _ _ _ R))) by done.
  rewrite (Text.convert_codes _ _ _ (Text.indexed_coded _ _ _ _ _ (ready_text _ _ _ _ _ _ R'))) by done.
  apply (FM.same_searches _ _ _ sa M M' _ rows rows' rounded); [by destruct word| |by rewrite fmap_last].
  do 2 apply Forall_fmap. eapply Forall_impl; [exact Hp|]. intros c _. apply Text.char_code_range. right. by apply Text.seen_as_in.
Qed.

Lemma same_query h q : kept (Query.word q) → _searchQuery toLowerCase h o' q = _searchQuery toLowerCase h o q.
Proof.
  intros Hk. pose proof Hk as (Hne & Hp & Hlast). destruct (raw_search_seen toLowerCase o key docs chars M ddic R _ Hp Hne some) as (ps & Hrun & Hps).
  unfold _searchQuery. rewrite (same_raw _ Hk), Hrun. unfold rawSearch.
  rewrite (ready_stemmer _ _ _ _ _ _ R), (ready_stemmer _ _ _ _ _ _ R'). cbn [mbind outcome_bind]. rewrite app_nil_r.
  assert ((if Query.raw q then Ret ps else Ret ps) = Ret ps) as -> by (by destruct (Query.raw q)). cbn [mbind outcome_bind].
  destruct (ready_section _ _ _ _ _ _ R) as (s & Hs & Hm & Hbt & _). destruct (ready_section _ _ _ _ _ _ R') as (s' & Hs' & Hm' & Hbt' & _).
  rewrite (primary_section o key s (ready_labels _ _ _ _ _ _ R) Hs), (primary_section o' key s' (ready_labels _ _ _ _ _ _ R') Hs').
  cbn [mbind outcome_bind grouping metadata_any Sec.section_metadata].
  assert (BV._size (Sec.bv s') = BV._size (Sec.bv s)) as Hsz by (by rewrite (size_ends _ _ Hm), (size_ends _ _ Hm')).
  apply (same_groups _ _ _ _ _ _ _ _ _ Hm Hbt Hm' Hbt').
  - apply Forall_forall. intros p [_ Hin]%Hps. rewrite (size_ends _ _ Hm). apply (stands_range docs (Text.seen_as chars <$> Query.word q) p); [by destruct (Query.word q)|done].
  - intros p Hpr. unfold Sec.getSectionIndex, BV.size. rewrite Hsz, !decide_False by lia.
    split; [apply (rank_marks _ _ Hm Hbt)|apply (rank_marks _ _ Hm' Hbt')]; lia.
Qed.

Lemma same_search h qs : Forall (λ q, kept (Query.word q)) qs → search toLowerCase h o' qs = search toLowerCase h o qs.
Proof.
  intros Hqs. unfold search. f_equal. apply ofold_ext. intros [h1 s] q Hin. rewrite Forall_forall in Hqs. by rewrite (same_query h1 q (Hqs q Hin)).
Qed.
End same.

(** A table of codes that was rounded up loses no word. *)
Lemma searchable_loaded chars M qs :
  3 + zlen chars ≤ M → Forall (λ q, searchable chars (3 + zlen chars) (Query.word q)) qs →
  Forall (λ q, searchable chars M (Query.word q)) qs.
Proof.
  intros HM Hqs. eapply Forall_impl; [exact Hqs|]. intros q (Hw & Hin & Hlast). split; [exact Hw|]. split; [exact Hin|].
  destruct (list.last (Query.word q)) as [c|] eqn:Hl'; [|discriminate]. cbn in *. intros [= Heq]. apply Hlast. f_equal.
  assert (c ∈ chars) as Hc' by (rewrite Forall_forall in Hin; apply Hin, last_Some_elem_of, Hl').
  pose proof (Text.char_code_range _ c (or_intror Hc')). lia.
Qed.

(** C7: documents that were indexed, saved and loaded are searched as before: for
    words that do not end, as the codes see them, in the last character of the
    documents, the search of the loaded engine returns the same units with the
    same positions as the search of the engine that was saved; the result combines
    the documents found for each word as the flags ask. *)
Theorem loaded_search toLowerCase key docs density qs
  (Hx : indexable docs) (Hok : names_ok key docs) (Hne : qs ≠ [])
  (Hqs : let chars := alphabet (concat docs.*2) in
         Forall (λ q, Query.word q ≠ [] ∧ Forall Text.plain (Query.word q) ∧
           list.last (Text.seen_as chars <$> Query.word q) ≠ list.last chars) qs) :
  ∃ o s o' h rs r, index_documents key docs density = Ret o ∧ dump o = Ret s ∧ load new s = Ret o' ∧
    search toLowerCase [] o' qs = search toLowerCase [] o qs ∧
    search toLowerCase [] o qs = Ret (h, SR.mkSummary rs (Some r)) ∧
    SR.unitIds r = SR.merged_ids rs ∧ Forall2 (reports docs) qs rs.
Proof.
  destruct (index_engine key docs density Hx) as (o & Ho & R & Hlab & Hse). destruct Hok as (Hkey & Hnames & Hc).
  destruct (load_engine _ _ _ _ _ _ R (ready_storable _ _ _ _ _ _ R Hlab Hse Hkey Hnames Hc))
    as (s & o' & M' & sa & Hd & Hl & HM & R' & Hrows & Hrows').
  destruct (search_reports toLowerCase o key docs _ R Hx [] qs Hne) as (h & rs & r & Hs & _ & Hids & Hall & _).
  { eapply Forall_impl; [exact Hqs|]. by intros q (? & ? & _). }
  exists o, s, o', h, rs, r. split; [exact Ho|]. split; [exact Hd|]. split; [exact Hl|]. split; [|by split].
  apply (same_search toLowerCase key docs _ sa _ o o' _ M' R R' Hrows Hrows' HM (alphabet_some docs Hx)).
  eapply Forall_impl; [exact Hqs|]. intros q (Hw & Hp & Hlast). split; [exact Hw|]. split; [exact Hp|].
  by rewrite (ready_largest o key docs _ _ R (alphabet_some docs Hx) Hw).
Qed.

(** ** Instances *)

Lemma sample_names_ok : names_ok (jstr "document") sample_docs.
Proof. unfold names_ok, Bin.string_ok, Bin.strings_ok, Bin.string_ok, Bin.code_unit. decided. Qed.

Lemma file_roundtrip_witness :
  ∃ o s o', index_documents (jstr "document") sample_docs (Text.percent 5) = Ret o ∧ dump o = Ret s ∧ load new s = Ret o' ∧
    Text._getSubstring (text o') 6 5 = Text._getSubstring (text o) 6 5.
Proof.
  destruct (index_engine (jstr "document") sample_docs (Text.percent 5) sample_docs_ok) as (o & Ho & R & Hlab & Hse).
  pose proof sample_names_ok as (Hkey & Hnames & Hc).
  destruct (file_roundtrip o _ _ (ready_storable _ _ _ _ _ _ R Hlab Hse Hkey Hnames Hc)) as (s & o' & Hd & Hl & _ & _ & _ & _ & Hsub).
  exists o, s, o'. split; [exact Ho|]. split; [exact Hd|]. split; [exact Hl|]. apply Hsub; [vm_compute; split; discriminate|lia].
Defined.

Lemma loaded_search_witness :
  ∃ o s o' h rs r, index_documents (jstr "document") sample_docs (Text.percent 5) = Ret o ∧ dump o = Ret s ∧ load new s = Ret o' ∧
    search ascii_lower [] o' [Query.mk (jstr "world") false false false] = Ret (h, SR.mkSummary rs (Some r)) ∧ 0 ∈ SR.unitIds r.
Proof.
  destruct (loaded_search ascii_lower (jstr "document") sample_docs (Text.percent 5) [Query.mk (jstr "world") false false false]
    sample_docs_ok sample_names_ok) as (o & s & o' & h & rs & r & Ho & Hd & Hl & Heq & Hs & Hids & Hall).
  - discriminate.
  - cbv zeta. apply Forall_singleton. split; [discriminate|]. split; [unfold Text.plain; decided|vm_compute; discriminate].
  - exists o, s, o', h, rs, r. split; [exact Ho|]. split; [exact Hd|]. split; [exact Hl|]. rewrite Heq. split; [exact Hs|].
    inversion Hall as [|? r1 ? ? (_ & _ & _ & Hk & _) Hnil]. subst. inversion Hnil. subst.
    rewrite Hids. cbn [SR.merged_ids foldl]. rewrite (Hk sample_searchable). exists 6.
    eapply sample_matches; [reflexivity|lia|vm_compute; discriminate|reflexivity].
Defined.
End OktFile.
