(* ===== verification/Getopt.v ===== *)
(** * The parser of command lines

    Model of [src/misc/oktavia/src/getopt.jsx], which the tools use to read
    their options.  The state has the fields of [BasicParser]; what the code
    writes with [console.error] is collected in [stderr].

    The theorems: a command line made of declared options, in any of the forms
    the parser accepts, is read back as these options and the arguments after
    them; the loop of a caller that stops at errors always ends; and a caller
    that goes on after an error, as both tools do, never ends on an unknown
    long option. *)

From S2P Require Import Prelude JsObject Lang.

Local Open Scope Z_scope.

Module Getopt.

(** ** Model *)

(** The letter of an option is a string, unless the name of a long option is
    that of a method which every object inherits: then it is that method. *)
Inductive value := Str (s : jsstr) | Method (name : jsstr).

Record CommandOption := { option_ : value; optarg : option jsstr; error : bool }.

Record t := {
  _argv : list jsstr;
  _options : list (jsstr * bool);
  _aliases : list (jsstr * jsstr);
  _optind : Z;
  _subind : Z;
  _silent : bool;
  _extraoptions : bool;
  stderr : list jsstr
}.

Definition seek (p : t) (optind subind : Z) : t :=
  {| _argv := _argv p; _options := _options p; _aliases := _aliases p; _optind := optind; _subind := subind;
     _silent := _silent p; _extraoptions := _extraoptions p; stderr := stderr p |}.
Definition set_extraoptions (p : t) : t :=
  {| _argv := _argv p; _options := _options p; _aliases := _aliases p; _optind := _optind p; _subind := _subind p;
     _silent := _silent p; _extraoptions := true; stderr := stderr p |}.
Definition set_silent (p : t) (b : bool) : t :=
  {| _argv := _argv p; _options := _options p; _aliases := _aliases p; _optind := _optind p; _subind := _subind p;
     _silent := b; _extraoptions := _extraoptions p; stderr := stderr p |}.
Definition put_option (p : t) (chr : jsstr) (arg : bool) : t :=
  {| _argv := _argv p; _options := Obj.put (_options p) chr arg; _aliases := _aliases p; _optind := _optind p;
     _subind := _subind p; _silent := _silent p; _extraoptions := _extraoptions p; stderr := stderr p |}.
Definition put_alias (p : t) (alias chr : jsstr) : t :=
  {| _argv := _argv p; _options := _options p; _aliases := Obj.put (_aliases p) alias chr; _optind := _optind p;
     _subind := _subind p; _silent := _silent p; _extraoptions := _extraoptions p; stderr := stderr p |}.
Definition console_error (p : t) (msg : jsstr) : t :=
  {| _argv := _argv p; _options := _options p; _aliases := _aliases p; _optind := _optind p; _subind := _subind p;
     _silent := _silent p; _extraoptions := _extraoptions p; stderr := stderr p ++ [msg] |}.

(** Whether the character at [i] exists and is [c]. *)
Definition next_is (s : jsstr) (i c : Z) : bool :=
  bool_decide (i < zlen s) && bool_decide (js_slice s i (i + 1) = [c]).

(** The long names of one option: [i] is the position of the last character
    read. *)
Fixpoint parse_aliases (fuel : nat) (optstr chr : jsstr) (i : Z) (p : t) : outcome (Z * t) :=
  match fuel with
  | O => NoFuel
  | S fuel =>
    if next_is optstr (i + 1) 40 then
      let i := i + 1 in
      let cp := Lang.indexOf_at optstr 41 (i + 1) in
      if decide (cp = -1) then Throw "invalid optstring: missing ) to match ("
      else parse_aliases fuel optstr chr cp (put_alias p (Lang.substring optstr (i + 1) cp) chr)
    else Ret (i, p)
  end.

Fixpoint parse_options (fuel : nat) (optstr : jsstr) (i : Z) (p : t) : outcome t :=
  match fuel with
  | O => NoFuel
  | S fuel =>
    if decide (i < zlen optstr) then
      let chr := js_slice optstr i (i + 1) in
      if negb (forallb Lang.isWord chr) then
        Throw "invalid optstring: only alphanumeric characters may be used as options"
      else
        let arg := next_is optstr (i + 1) 58 in
        let i := if arg then i + 1 else i in
        '(i, p) ← parse_aliases (S fuel) optstr chr i (put_option p chr arg);
        parse_options fuel optstr (i + 1) p
    else Ret p
  end.

Definition _parseOptstr (optstr : jsstr) (p : t) : outcome t :=
  let silent := next_is optstr 0 58 in
  parse_options (S (length optstr)) optstr (if silent then 1 else 0) (set_silent p silent).

Definition new (optstring : jsstr) (argv : list jsstr) : outcome t :=
  _parseOptstr optstring
    {| _argv := argv; _options := []; _aliases := []; _optind := 0; _subind := 0; _silent := false;
       _extraoptions := false; stderr := [] |}.

Definition optind (p : t) : Z := _optind p.

Definition plain (o : value) : CommandOption := {| option_ := o; optarg := None; error := false |}.
Definition with_arg (chr arg : jsstr) : CommandOption := {| option_ := Str chr; optarg := Some arg; error := false |}.
Definition failed (chr : jsstr) : CommandOption := {| option_ := Str (jstr "?"); optarg := Some chr; error := true |}.

Definition _errMissingArg (p : t) (chr : jsstr) : t * CommandOption :=
  if _silent p then (p, with_arg (jstr ":") chr)
  else (console_error p (jstr "option requires an argument -- " ++ chr ++ [10]), failed chr).

Definition _errInvalidOption (p : t) (chr : jsstr) : t * CommandOption :=
  (if _silent p then p else console_error p (jstr "illegal option -- " ++ chr ++ [10]), failed chr).

Definition _errExtraArg (p : t) (chr : jsstr) : t * CommandOption :=
  (if _silent p then p else console_error p (jstr "option expects no argument -- " ++ chr ++ [10]), failed chr).

Definition _getoptArgument (p : t) (chr : jsstr) : outcome (t * CommandOption) :=
  if decide (zlen (_argv p) ≤ _optind p) then Ret (_errMissingArg p chr)
  else
    arg ← of_option (aget (_argv p) (_optind p));
    Ret (seek p (_optind p + 1) 0, with_arg chr (Lang.substring arg (_subind p) (zlen arg))).

(** [chr] is one character, which no inherited property is named like: [get] is
    the operator [in] on it. *)
Definition _getoptShort (p : t) : outcome (t * CommandOption) :=
  arg ← of_option (aget (_argv p) (_optind p));
  let chr := js_slice arg (_subind p) (_subind p + 1) in
  let p := if decide (zlen arg ≤ _subind p + 1) then seek p (_optind p + 1) 0
           else seek p (_optind p) (_subind p + 1) in
  match Obj.get (_options p) chr with
  | None => Ret (_errInvalidOption p chr)
  | Some false => Ret (p, plain (Str chr))
  | Some true => _getoptArgument p chr
  end.

Definition _getoptLong (p : t) : outcome (t * CommandOption) :=
  arg ← of_option (aget (_argv p) (_optind p));
  let eq := indexOf arg 61 in
  let alias := Lang.substring arg 2 (if decide (eq = -1) then zlen arg else eq) in
  let no_argument chr :=
    if decide (eq ≠ -1) then Ret (_errExtraArg p alias)
    else Ret (seek p (_optind p + 1) (_subind p), plain chr) in
  match Obj.read (_aliases p) alias with
  | Obj.Absent => Ret (_errInvalidOption p alias)
  | Obj.Inherited _ => no_argument (Method alias)
  | Obj.Own chr =>
    if default false (Obj.get (_options p) chr) then
      _getoptArgument (if decide (eq = -1) then seek p (_optind p + 1) (_subind p) else seek p (_optind p) (eq + 1)) chr
    else no_argument (Str chr)
  end.

Definition getopt (p : t) : outcome (t * option CommandOption) :=
  if decide (zlen (_argv p) ≤ _optind p) then Ret (p, None)
  else
    arg ← of_option (aget (_argv p) (_optind p));
    let some m := ('(p, o) ← m; Ret (p, Some o)) : outcome (t * option CommandOption) in
    if _extraoptions p then Ret (seek p (_optind p + 1) (_subind p), Some (plain (Str arg)))
    else if decide (_subind p = 0) then
      if decide (arg = jstr "-" ∨ arg = []) then Ret (p, None)
      else if decide (charAt arg 0 ≠ jstr "-") then
        Ret (seek (set_extraoptions p) (_optind p + 1) (_subind p), Some (plain (Str arg)))
      else if decide (arg = jstr "--") then Ret (seek p (_optind p + 1) 0, None)
      else if decide (js_slice arg 1 2 = jstr "-") then some (_getoptLong p)
      else some (_getoptShort (seek p (_optind p) (_subind p + 1)))
    else some (_getoptShort p).

(** The loop of the tools: [opt = parser.getopt(); while (opt) { ...; opt =
    parser.getopt(); }], and the same loop left at an error. *)
Fixpoint getopts (fuel : nat) (p : t) : outcome (t * list CommandOption) :=
  match fuel with
  | O => NoFuel
  | S fuel =>
    '(p, o) ← getopt p;
    match o with
    | None => Ret (p, [])
    | Some o => '(p, os) ← getopts fuel p; Ret (p, o :: os)
    end
  end.

Fixpoint getopts_ok (fuel : nat) (p : t) : outcome (t * list CommandOption) :=
  match fuel with
  | O => NoFuel
  | S fuel =>
    '(p, o) ← getopt p;
    match o with
    | None => Ret (p, [])
    | Some o => if error o then Ret (p, [o]) else '(p, os) ← getopts_ok fuel p; Ret (p, o :: os)
    end
  end.

(** ** The string that declares the options *)

(** The declaration of an option: its letter, whether it takes an argument, and
    its long names. *)
Record decl := { letter : Z; takes : bool; names : list jsstr }.

#[global] Instance decl_eq : EqDecision decl.
Proof. solve_decision. Defined.

Definition parens (n : jsstr) : jsstr := [40] ++ n ++ [41].
Definition print_decl (d : decl) : jsstr :=
  letter d :: (if takes d then [58] else []) ++ concat (parens <$> names d).
Definition optstring (silent : bool) (ds : list decl) : jsstr :=
  (if silent then [58] else []) ++ concat (print_decl <$> ds).

Definition decl_ok (d : decl) : Prop :=
  Lang.isWord (letter d) = true ∧ Forall (λ n : jsstr, 41 ∉ n) (names d).

Definition letters (ds : list decl) : list (jsstr * bool) := (λ d, ([letter d], takes d)) <$> ds.
Definition long_names (ds : list decl) : list (jsstr * jsstr) :=
  concat ((λ d, (λ n, (n, [letter d])) <$> names d) <$> ds).
Definition obj_of {V} (l : list (jsstr * V)) : list (jsstr * V) := foldl (λ o e, Obj.put o e.1 e.2) [] l.

(** The parser that has read the declarations [ds]. *)
Definition declared (silent : bool) (ds : list decl) (argv : list jsstr) : t :=
  {| _argv := argv; _options := obj_of (letters ds); _aliases := obj_of (long_names ds); _optind := 0; _subind := 0;
     _silent := silent; _extraoptions := false; stderr := [] |}.

Lemma next_is_app (a s : jsstr) c : next_is (a ++ s) (zlen a) c = bool_decide (head s = Some c).
Proof.
  unfold next_is. destruct s as [|c' s].
  - rewrite app_nil_r. by rewrite bool_decide_eq_false_2 by lia.
  - rewrite bool_decide_eq_true_2 by (rewrite zlen_app, zlen_cons; pose proof (zlen_nonneg s); lia).
    rewrite slice_one. apply bool_decide_ext. cbn [head]. split; congruence.
Qed.

Lemma indexOf_at_app (a n s : jsstr) c : c ∉ n → Lang.indexOf_at (a ++ n ++ c :: s) c (zlen a) = zlen a + zlen n.
Proof.
  intros Hn. unfold Lang.indexOf_at. replace (Z.to_nat (zlen a)) with (length a) by (unfold zlen; lia).
  rewrite drop_app_length, indexOf_new by done.
  pose proof (zlen_nonneg n). by rewrite decide_False by lia.
Qed.

Lemma substring_middle (a w s : jsstr) : Lang.substring (a ++ w ++ s) (zlen a) (zlen a + zlen w) = w.
Proof.
  pose proof (zlen_nonneg a). pose proof (zlen_nonneg w). pose proof (zlen_nonneg s).
  unfold Lang.substring. rewrite !zlen_app. rewrite !(Z.min_l _ (zlen a + (zlen w + zlen s))) by lia.
  rewrite Z.min_l, !Z.max_r by lia. apply slice_middle.
Qed.

Lemma parse_aliases_print fuel (a s chr : jsstr) ns p :
  (length ns < fuel)%nat → Forall (λ n : jsstr, 41 ∉ n) ns → head s ≠ Some 40 →
  parse_aliases fuel (a ++ concat (parens <$> ns) ++ s) chr (zlen a - 1) p =
  Ret (zlen (a ++ concat (parens <$> ns)) - 1, foldl (λ p n, put_alias p n chr) p ns).
Proof.
  revert a p fuel. induction ns as [|n ns IH]; intros a p fuel Hf Hns Hs; (destruct fuel as [|fuel]; [lia|]);
    cbn [parse_aliases]; rewrite Z.sub_add; cbn [fmap list_fmap concat foldl app].
  - by rewrite next_is_app, app_nil_r, bool_decide_eq_false_2.
  - apply Forall_cons in Hns as [Hn Hns]. rewrite <- !app_assoc.
    set (r := concat (parens <$> ns) ++ s).
    assert (next_is (a ++ parens n ++ r) (zlen a) 40 = true) as -> by (by rewrite next_is_app, bool_decide_eq_true_2).
    assert (a ++ parens n ++ r = (a ++ [40]) ++ n ++ 41 :: r) as -> by (unfold parens; by rewrite <- !app_assoc).
    replace (zlen a + 1) with (zlen (a ++ [40])) by (rewrite zlen_app, zlen_cons, zlen_nil; lia).
    rewrite indexOf_at_app by done. pose proof (zlen_nonneg (a ++ [40])). pose proof (zlen_nonneg n).
    rewrite decide_False by lia. rewrite substring_middle.
    replace ((a ++ [40]) ++ n ++ 41 :: r) with ((a ++ parens n) ++ r) by (unfold parens; by rewrite <- !app_assoc).
    replace (zlen (a ++ [40]) + zlen n) with (zlen (a ++ parens n) - 1)
      by (unfold parens; autorewrite with zlen; lia).
    unfold r. rewrite IH by (cbn [length] in *; done || lia). by rewrite <- !app_assoc.
Qed.

Definition add_decl (p : t) (d : decl) : t :=
  foldl (λ p n, put_alias p n [letter d]) (put_option p [letter d] (takes d)) (names d).

Lemma head_decls ds c : Forall decl_ok ds → Lang.isWord c = false → head (concat (print_decl <$> ds)) ≠ Some c.
Proof. destruct 1 as [|d ds [Hd _] _]; [done|]. cbn. intros Hc [= <-]. congruence. Qed.

Lemma head_parens ns (s : jsstr) c : c ≠ 40 → head s ≠ Some c → head (concat (parens <$> ns) ++ s) ≠ Some c.
Proof. destruct ns; [done|]. cbn. congruence. Qed.

Lemma length_parens ns : (length ns ≤ length (concat (parens <$> ns)))%nat.
Proof. induction ns as [|n ns IH]; [done|]. cbn. rewrite length_app. lia. Qed.

Lemma parse_options_print fuel a ds p :
  (length (concat (print_decl <$> ds)) < fuel)%nat → Forall decl_ok ds →
  parse_options fuel (a ++ concat (print_decl <$> ds)) (zlen a) p = Ret (foldl add_decl p ds).
Proof.
  revert a p fuel. induction ds as [|d ds IH]; intros a p fuel Hf Hds; (destruct fuel as [|fuel]; [lia|]).
  { cbn. rewrite app_nil_r. by rewrite decide_False by lia. }
  apply Forall_cons in Hds as [Hd Hds]. pose proof Hd as [Hw Hn].
  rewrite fmap_cons in Hf |- *. cbn [concat foldl] in Hf |- *. set (r := concat (print_decl <$> ds)) in *.
  assert (a ++ print_decl d ++ r =
    (a ++ [letter d]) ++ (if takes d then [58] else []) ++ concat (parens <$> names d) ++ r) as Heq.
  { unfold print_decl. cbn [app]. by rewrite <- !app_assoc. }
  cbn [parse_options]. rewrite decide_True.
  2:{ rewrite Heq, !zlen_app, zlen_cons. zlens. }
  assert (js_slice (a ++ print_decl d ++ r) (zlen a) (zlen a + 1) = [letter d]) as -> by apply slice_one.
  cbn [forallb]. rewrite Hw. cbn [andb negb].
  set (b := (a ++ [letter d]) ++ (if takes d then [58] else [])).
  assert (next_is (a ++ print_decl d ++ r) (zlen a + 1) 58 = takes d) as ->.
  { rewrite Heq. replace (zlen a + 1) with (zlen (a ++ [letter d])) by (rewrite zlen_app, zlen_cons, zlen_nil; lia).
    rewrite next_is_app. destruct (takes d); [done|]. apply bool_decide_eq_false, head_parens; [done|]. by apply head_decls. }
  rewrite Heq, (app_assoc (a ++ [letter d])). fold b.
  replace (if takes d then zlen a + 1 else zlen a) with (zlen b - 1)
    by (unfold b; destruct (takes d); autorewrite with zlen; lia).
  unfold print_decl in Hf. cbn [app length] in Hf. rewrite !length_app in Hf. pose proof (length_parens (names d)).
  rewrite parse_aliases_print by (lia || done || by apply head_decls). cbn [mbind outcome_bind].
  rewrite Z.sub_add, app_assoc. apply IH; [fold r; lia|done].
Qed.

Lemma put_aliases p chr ns :
  foldl (λ p n, put_alias p n chr) p ns =
  {| _argv := _argv p; _options := _options p;
     _aliases := foldl (λ o e, Obj.put o e.1 e.2) (_aliases p) ((λ n, (n, chr)) <$> ns); _optind := _optind p;
     _subind := _subind p; _silent := _silent p; _extraoptions := _extraoptions p; stderr := stderr p |}.
Proof. revert p. induction ns as [|n ns IH]; intros p; [by destruct p|]. cbn [foldl]. by rewrite IH. Qed.

Lemma declared_fold (silent : bool) argv ds1 ds2 :
  foldl add_decl (declared silent ds1 argv) ds2 = declared silent (ds1 ++ ds2) argv.
Proof.
  revert ds1. induction ds2 as [|d ds2 IH]; intros ds1; [by rewrite app_nil_r|]. cbn [foldl].
  replace (ds1 ++ d :: ds2) with ((ds1 ++ [d]) ++ ds2) by by rewrite <- app_assoc. rewrite <- IH. f_equal.
  unfold add_decl. rewrite put_aliases. unfold declared, put_option, letters, long_names, obj_of.
  rewrite !fmap_app, concat_app, !foldl_app. cbn [fmap list_fmap concat].  by rewrite app_nil_r.
Qed.

(** The declarations are read back. *)
Lemma new_print silent ds argv : Forall decl_ok ds → new (optstring silent ds) argv = Ret (declared silent ds argv).
Proof.
  intros Hds. unfold new, _parseOptstr. assert (next_is (optstring silent ds) 0 58 = silent) as ->.
  { unfold optstring. etrans; [exact (next_is_app [] _ 58)|]. destruct silent; [done|]. apply bool_decide_eq_false. by apply head_decls. }
  unfold optstring. assert ((if silent then 1 else 0) = zlen (if silent then [58] else [])) as -> by by destruct silent.
  rewrite parse_options_print; [|rewrite length_app; lia|done]. f_equal. exact (declared_fold silent argv [] ds).
Qed.

(** ** The options of a command line *)

(** The forms an option may have: letters of options without an argument in one
    word, the last of them possibly an option with its argument, in the same
    word or in the next one; a long name alone, with its argument after [=], or
    with its argument in the next word. *)
Inductive item :=
  | Flags (d : decl) (ds : list decl)
  | Value (ds : list decl) (d : decl) (v : jsstr)
  | Separate (ds : list decl) (d : decl) (v : jsstr)
  | Long (d : decl) (n : jsstr)
  | LongValue (d : decl) (n v : jsstr)
  | LongSeparate (d : decl) (n v : jsstr).

Definition words (x : item) : list jsstr :=
  match x with
  | Flags d ds => [45 :: (letter <$> d :: ds)]
  | Value ds d v => [45 :: (letter <$> ds) ++ letter d :: v]
  | Separate ds d v => [45 :: (letter <$> ds) ++ [letter d]; v]
  | Long d n => [45 :: 45 :: n]
  | LongValue d n v => [45 :: 45 :: n ++ 61 :: v]
  | LongSeparate d n v => [45 :: 45 :: n; v]
  end.

Definition flag (d : decl) : CommandOption := plain (Str [letter d]).

Definition meaning (x : item) : list CommandOption :=
  match x with
  | Flags d ds => flag <$> d :: ds
  | Value ds d v | Separate ds d v => (flag <$> ds) ++ [with_arg [letter d] v]
  | Long d n => [flag d]
  | LongValue d n v | LongSeparate d n v => [with_arg [letter d] v]
  end.

(** The option is declared, used as it is declared, and a long name is not
    empty and has no [=]. *)
Definition item_ok (ds : list decl) (x : item) : Prop :=
  let declared (b : bool) d := d ∈ ds ∧ takes d = b in
  let named d (n : jsstr) := n ∈ names d ∧ n ≠ [] ∧ 61 ∉ n in
  match x with
  | Flags d fs => Forall (declared false) (d :: fs)
  | Value fs d v => Forall (declared false) fs ∧ declared true d ∧ v ≠ []
  | Separate fs d v => Forall (declared false) fs ∧ declared true d
  | Long d n => declared false d ∧ named d n
  | LongValue d n v | LongSeparate d n v => declared true d ∧ named d n
  end.

(** What may follow the options: nothing; a word that is no option, after which
    every word is an argument; [--]; or a word at which the parser stops. *)
Inductive tail :=
  | Done
  | Operands (c : Z) (s : jsstr) (l : list jsstr)
  | DashDash (l : list jsstr)
  | Stop (a : jsstr) (l : list jsstr).

Definition tail_words (x : tail) : list jsstr :=
  match x with
  | Done => []
  | Operands c s l => (c :: s) :: l
  | DashDash l => jstr "--" :: l
  | Stop a l => a :: l
  end.

Definition tail_meaning (x : tail) : list CommandOption :=
  match x with
  | Operands c s l => (λ a, plain (Str a)) <$> (c :: s) :: l
  | _ => []
  end.

Definition unread (x : tail) : list jsstr :=
  match x with Done | Operands _ _ _ => [] | DashDash l => l | Stop a l => a :: l end.

Definition tail_ok (x : tail) : Prop :=
  match x with
  | Done | DashDash _ => True
  | Operands c _ _ => c ≠ 45
  | Stop a _ => a = jstr "-" ∨ a = []
  end.

(** Calls of [getopt] that give the options [os] and lead from [p] to [p']. *)
Inductive reads : t → list CommandOption → t → Prop :=
  | reads_nil p : reads p [] p
  | reads_cons p o p1 os p' : getopt p = Ret (p1, Some o) → reads p1 os p' → reads p (o :: os) p'.

Lemma reads_app p os p1 os' p' : reads p os p1 → reads p1 os' p' → reads p (os ++ os') p'.
Proof. induction 1; [done|]. intros. econstructor; eauto. Qed.

Lemma reads_getopts p os p' fuel :
  reads p os p' → getopts (length os + fuel) p = '(q, os') ← getopts fuel p'; Ret (q, os ++ os').
Proof.
  induction 1 as [p|p o p1 os p' Ho _ IH]; cbn [length Nat.add app]; [by destruct (getopts fuel p) as [[]| | |]|].
  cbn [getopts]. rewrite Ho. cbn [mbind outcome_bind]. rewrite IH. by destruct (getopts fuel p') as [[]| | |].
Qed.

Lemma reads_start p q os p' : getopt p = getopt q → os ≠ [] → reads q os p' → reads p os p'.
Proof. intros Heq Hos Hr. destruct Hr as [|q o p1 os p' Ho Hr]; [done|]. econstructor; [|done]. congruence. Qed.

Lemma getopt_long p c (s : jsstr) :
  aget (_argv p) (_optind p) = Some (45 :: 45 :: c :: s) → _subind p = 0 → _extraoptions p = false →
  getopt p = '(p, o) ← _getoptLong p; Ret (p, Some o).
Proof.
  intros Hk Hj He. pose proof (aget_Some_range _ _ _ Hk). unfold getopt. rewrite decide_False by lia.
  rewrite Hk, Hj, He. cbn [of_option mbind outcome_bind].
  rewrite decide_True by done. rewrite decide_False by by intros [|].
  rewrite decide_False by (intros Hn; by apply Hn). rewrite decide_False by done.
  by rewrite decide_True by exact (slice_one [45] (c :: s) 45).
Qed.

Lemma long_names_keys ds : (long_names ds).*1 = concat (names <$> ds).
Proof.
  unfold long_names. induction ds as [|d l IH]; [done|]. rewrite !fmap_cons. cbn [concat]. rewrite fmap_app, IH. f_equal.
  rewrite <- list_fmap_compose. apply list_fmap_id.
Qed.

Section line.
Context (silent : bool) (ds : list decl) (argv : list jsstr).
Hypothesis ds_ok : Forall decl_ok ds.
Hypothesis letters_distinct : NoDup (letter <$> ds).
Hypothesis names_distinct : NoDup (concat (names <$> ds)).

Definition pos (k j : Z) : t := seek (declared silent ds argv) k j.

Lemma get_letter d : d ∈ ds → Obj.get (obj_of (letters ds)) [letter d] = Some (takes d).
Proof.
  intros Hd. apply Obj.get_puts.
  - unfold letters. rewrite <- list_fmap_compose.
    change (NoDup ((λ d : decl, [letter d]) <$> ds)). rewrite (list_fmap_compose letter (λ c : Z, [c])).
    apply NoDup_fmap_2; [|done]. by intros ?? [= ->].
  - unfold letters. apply list_elem_of_fmap. eauto.
Qed.

Lemma get_name d n : d ∈ ds → n ∈ names d → Obj.read (obj_of (long_names ds)) n = Obj.Own [letter d].
Proof.
  intros Hd Hn. unfold Obj.read, obj_of. erewrite Obj.get_puts; [done|..].
  - by rewrite long_names_keys.
  - unfold long_names. apply list_elem_of_In, in_concat. exists ((λ n, (n, [letter d])) <$> names d).
    rewrite <- !list_elem_of_In, !list_elem_of_fmap. split; [by exists d|by exists n].
Qed.

Lemma getopt_short k j arg :
  aget argv k = Some arg → 1 ≤ j → getopt (pos k j) = '(p, o) ← _getoptShort (pos k j); Ret (p, Some o).
Proof.
  intros Hk Hj. pose proof (aget_Some_range _ _ _ Hk). unfold getopt. cbn. rewrite decide_False by lia.
  rewrite Hk. cbn [of_option mbind outcome_bind]. by rewrite decide_False by lia.
Qed.

Lemma getopt_start k c (s : jsstr) : aget argv k = Some (45 :: c :: s) → c ≠ 45 → getopt (pos k 0) = getopt (pos k 1).
Proof.
  intros Hk Hc. rewrite (getopt_short _ 1 _ Hk) by lia. pose proof (aget_Some_range _ _ _ Hk). unfold getopt. cbn.
  rewrite decide_False by lia. rewrite Hk. cbn [of_option mbind outcome_bind].
  rewrite decide_True by done. rewrite decide_False by by intros [|].
  rewrite decide_False by (intros Hn; by apply Hn). rewrite decide_False by by intros [= ->].
  rewrite decide_False; [done|]. change (js_slice (45 :: c :: s) 1 2) with (js_slice ([45] ++ c :: s) (zlen [45]) (zlen [45] + 1)).
  rewrite slice_one. by intros [= ->].
Qed.

Lemma short_flag k (a s : jsstr) d :
  aget argv k = Some (a ++ letter d :: s) → d ∈ ds → takes d = false →
  _getoptShort (pos k (zlen a)) = Ret (if decide (s = []) then pos (k + 1) 0 else pos k (zlen a + 1), flag d).
Proof.
  intros Hk Hd Ht. unfold _getoptShort. cbn [pos seek declared _argv _optind _subind]. rewrite Hk.
  cbn [of_option mbind outcome_bind]. rewrite slice_one, zlen_app, zlen_cons.
  destruct s as [|c s]; [rewrite !decide_True by (rewrite zlen_nil; done || lia)|rewrite !decide_False by (rewrite zlen_cons; done || zlens)];
    cbn [_options seek declared]; by rewrite get_letter, Ht.
Qed.

Lemma flags_reads k (a s : jsstr) fs :
  aget argv k = Some (a ++ (letter <$> fs) ++ s) → a ≠ [] → s ≠ [] → Forall (λ d, d ∈ ds ∧ takes d = false) fs →
  reads (pos k (zlen a)) (flag <$> fs) (pos k (zlen a + zlen fs)).
Proof.
  revert a. induction fs as [|d fs IH]; intros a Hk Ha Hs Hfs.
  { rewrite zlen_nil, Z.add_0_r. constructor. }
  apply Forall_cons in Hfs as [[Hd Ht] Hfs]. rewrite !fmap_cons in *. cbn [app] in Hk. econstructor.
  - rewrite (getopt_short _ _ _ Hk) by (destruct a; [done|]; rewrite zlen_cons; zlens).
    rewrite (short_flag _ _ _ _ Hk Hd Ht). cbn [mbind outcome_bind]. rewrite decide_False; [done|].
    by intros [_ ?]%app_nil.
  - replace (zlen a + zlen (d :: fs)) with (zlen (a ++ [letter d]) + zlen fs) by (rewrite zlen_app, !zlen_cons, zlen_nil; lia).
    replace (zlen a + 1) with (zlen (a ++ [letter d])) by (rewrite zlen_app, zlen_cons, zlen_nil; lia).
    apply IH; [|by destruct a|done..]. by rewrite <- app_assoc.
Qed.

Lemma argument k j (a v : jsstr) chr :
  aget argv k = Some (a ++ v) → j = zlen a → _getoptArgument (pos k j) chr = Ret (pos (k + 1) 0, with_arg chr v).
Proof.
  intros Hk ->. pose proof (aget_Some_range _ _ _ Hk). unfold _getoptArgument. cbn [pos seek declared _argv _optind _subind].
  rewrite decide_False by lia. rewrite Hk. cbn [of_option mbind outcome_bind]. do 3 f_equal.
  rewrite zlen_app. rewrite <- (app_nil_r v) at 1. apply substring_middle.
Qed.

(** The last letter of a word takes its argument from the rest of the word, or
    from the next one. *)
Lemma short_value k (a s v : jsstr) d :
  aget argv k = Some (a ++ letter d :: s) → d ∈ ds → takes d = true →
  (s = v ∧ s ≠ [] ∨ s = [] ∧ aget argv (k + 1) = Some v) →
  _getoptShort (pos k (zlen a)) = Ret (pos (k + if decide (s = []) then 2 else 1) 0, with_arg [letter d] v).
Proof.
  intros Hk Hd Ht Hv. unfold _getoptShort. cbn [pos seek declared _argv _optind _subind]. rewrite Hk.
  cbn [of_option mbind outcome_bind]. rewrite slice_one, zlen_app, zlen_cons. destruct Hv as [[<- Hs]|[-> Hv]].
  - rewrite !decide_False by (destruct s; [done|rewrite ?zlen_cons; done || zlens]).
    cbn [_options seek declared]. rewrite get_letter, Ht by done. apply (argument k _ (a ++ [letter d]) s).
    + by rewrite <- app_assoc.
    + rewrite zlen_app, zlen_cons, zlen_nil. lia.
  - rewrite !decide_True by (rewrite ?zlen_nil; done || lia). cbn [_options seek declared]. rewrite get_letter, Ht by done.
    replace (k + 2) with (k + 1 + 1) by lia. by apply (argument (k + 1) 0 [] v).
Qed.

(** A word of letters is read up to the last one. *)
Lemma cluster_reads k fs d (s : jsstr) o p' :
  aget argv k = Some (45 :: (letter <$> fs) ++ letter d :: s) →
  Forall (λ d, d ∈ ds ∧ takes d = false) fs → d ∈ ds →
  _getoptShort (pos k (zlen (45 :: (letter <$> fs)))) = Ret (p', o) →
  reads (pos k 0) ((flag <$> fs) ++ [o]) p'.
Proof.
  intros Hk Hfs Hd Ho. apply (reads_start _ (pos k 1)).
  - assert (∀ d, d ∈ ds → letter d ≠ 45) as Hw.
    { intros d' Hd' Heq. rewrite Forall_forall in ds_ok. destruct (ds_ok d' Hd') as [Hw _]. by rewrite Heq in Hw. }
    destruct fs as [|d' fs]; (eapply getopt_start; [exact Hk|]); apply Hw; [done|].
    by apply Forall_cons in Hfs as [[??] _].
  - by destruct fs.
  - eapply reads_app; [apply (flags_reads k [45] (letter d :: s)); [exact Hk|done..]|].
    econstructor; [|constructor]. rewrite (getopt_short _ _ _ Hk) by (rewrite zlen_cons; zlens).
    rewrite zlen_cons, zlen_fmap in Ho. change (zlen [45]) with 1. by rewrite Ho.
Qed.

Lemma long_read k d (n s v : jsstr) :
  d ∈ ds → n ∈ names d → n ≠ [] → 61 ∉ n → aget argv k = Some (45 :: 45 :: n ++ s) →
  (takes d = false ∧ s = [] → reads (pos k 0) [flag d] (pos (k + 1) 0)) ∧
  (takes d = true ∧ s = 61 :: v → reads (pos k 0) [with_arg [letter d] v] (pos (k + 1) 0)) ∧
  (takes d = true ∧ s = [] ∧ aget argv (k + 1) = Some v → reads (pos k 0) [with_arg [letter d] v] (pos (k + 2) 0)).
Proof.
  intros Hd Hn Hne Heq Hk.
  assert (indexOf (45 :: 45 :: n) 61 = -1) as Hno by (apply indexOf_none; set_solver).
  assert (getopt (pos k 0) = '(p, o) ← _getoptLong (pos k 0); Ret (p, Some o)) as Hlong.
  { destruct n as [|c n]; [done|]. by apply (getopt_long _ c (n ++ s)). }
  assert (∀ p o, _getoptLong (pos k 0) = Ret (p, o) → reads (pos k 0) [o] p) as Hone.
  { intros p o Ho. econstructor; [|constructor]. by rewrite Hlong, Ho. }
  assert (∀ s', Lang.substring (45 :: 45 :: n ++ s') 2 (2 + zlen n) = n) as Hsub by exact (substring_middle [45; 45] n).
  assert (zlen (45 :: 45 :: n) = 2 + zlen n) as Hzn by (rewrite !zlen_cons; lia).
  split_and!; intros Hs; apply Hone; unfold _getoptLong; cbn [pos seek declared _argv _optind _subind _aliases _options];
    rewrite Hk; cbn [of_option mbind outcome_bind].
  - destruct Hs as [Ht ->]. rewrite !app_nil_r, Hno, decide_True by done. specialize (Hsub []). rewrite app_nil_r in Hsub.
    rewrite Hzn, Hsub, (get_name d n) by done. rewrite get_letter, Ht by done. cbn [default id].
    by rewrite decide_False by (intros Hx; by apply Hx).
  - destruct Hs as [Ht ->]. assert (indexOf (45 :: 45 :: n ++ 61 :: v) 61 = 2 + zlen n) as ->.
    { rewrite <- Hzn. apply (indexOf_new (45 :: 45 :: n)). set_solver. }
    rewrite !decide_False by zlens. rewrite Hsub, (get_name d n) by done. rewrite get_letter, Ht by done. cbn [default id].
    apply (argument k _ (45 :: 45 :: n ++ [61]) v).
    + rewrite Hk. cbn [app]. by rewrite <- app_assoc.
    + change (45 :: 45 :: n ++ [61]) with ((45 :: 45 :: n) ++ [61]). rewrite zlen_app, Hzn, zlen_cons, zlen_nil. lia.
  - destruct Hs as (Ht & -> & Hv). rewrite !app_nil_r, Hno, decide_True by done. specialize (Hsub []). rewrite app_nil_r in Hsub.
    rewrite Hzn, Hsub, (get_name d n) by done. rewrite get_letter, Ht by done. cbn [default id].
    replace (k + 2) with (k + 1 + 1) by lia. by apply (argument (k + 1) 0 [] v).
Qed.

Lemma item_reads x (a b : list jsstr) :
  argv = a ++ words x ++ b → item_ok ds x →
  reads (pos (zlen a) 0) (meaning x) (pos (zlen (a ++ words x)) 0).
Proof.
  intros Hargv Hx. assert (∀ j w, words x !! j = Some w → aget argv (zlen a + Z.of_nat j) = Some w) as Hw.
  { intros j w Hj. rewrite Hargv, aget_app_r, Z.add_simpl_l, aget_nat by lia. by apply lookup_app_l_Some. }
  pose proof (Hw O) as Hw0. replace (zlen a + Z.of_nat 0) with (zlen a) in Hw0 by lia. pose proof (Hw 1%nat) as Hw1.
  rewrite zlen_app. destruct x as [d fs|fs d v|fs d v|d n|d n v|d n v]; cbn [words meaning item_ok] in *; cbn in Hw1;
    specialize (Hw0 _ eq_refl).
  - destruct (exists_last (l := d :: fs)) as (l & d' & Heq); [done|]. rewrite Heq in *.
    apply Forall_app in Hx as [Hl [Hd _]%Forall_cons]. rewrite fmap_app. rewrite fmap_app in Hw0.
    eapply (cluster_reads _ _ d' []); [exact Hw0|done|apply Hd|]. apply (short_flag _ (45 :: (letter <$> l)) []); [exact Hw0|apply Hd..].
  - destruct Hx as (Hl & [Hd Ht] & Hv). eapply cluster_reads; [exact Hw0|done..|].
    rewrite (short_value _ (45 :: (letter <$> fs)) v v d); [by rewrite decide_False|exact Hw0|done..|by left].
  - destruct Hx as (Hl & [Hd Ht]). eapply (cluster_reads _ _ _ []); [exact Hw0|done..|].
    by rewrite (short_value _ (45 :: (letter <$> fs)) [] v d); [|exact Hw0|done..|right; split; [|apply Hw1]].
  - destruct Hx as [[Hd Ht] (Hn & Hne & Heq)]. eapply (long_read _ d n [] []); try done. by rewrite app_nil_r.
  - destruct Hx as [[Hd Ht] (Hn & Hne & Heq)]. by eapply (long_read _ d n (61 :: v) v).
  - destruct Hx as [[Hd Ht] (Hn & Hne & Heq)]. eapply (long_read _ d n [] v); try done; [by rewrite app_nil_r|].
    split_and!; [done..|]. by apply Hw1.
Qed.

Lemma items_reads xs (a b : list jsstr) :
  argv = a ++ concat (words <$> xs) ++ b → Forall (item_ok ds) xs →
  reads (pos (zlen a) 0) (concat (meaning <$> xs)) (pos (zlen (a ++ concat (words <$> xs))) 0).
Proof.
  revert a. induction xs as [|x xs IH]; intros a Hargv Hxs.
  { rewrite app_nil_r. constructor. }
  apply Forall_cons in Hxs as [Hx Hxs]. rewrite fmap_cons in Hargv. cbn [concat] in Hargv. rewrite <- app_assoc in Hargv.
  rewrite !fmap_cons. cbn [concat]. eapply reads_app; [by eapply item_reads|].
  rewrite (app_assoc a). apply IH; [by rewrite <- app_assoc|done].
Qed.

(** The words from the first one that is no option on are arguments. *)
Lemma operands_reads p k l :
  _argv p = argv → _extraoptions p = true → argv = take (Z.to_nat k) argv ++ l → 0 ≤ k → 
  reads (seek p k 0) ((λ a, plain (Str a)) <$> l) (seek p (k + zlen l) 0).
Proof.
  intros Hp He. revert k. induction l as [|w l IH]; intros k Hargv Hk; [|].
  { rewrite (@zlen_nil jsstr). rewrite Z.add_0_r. constructor. }
  assert (aget argv k = Some w) as Hw.
  { assert (argv !! Z.to_nat k = Some w) as Hw; [|by rewrite aget_nonneg].
    assert (length (take (Z.to_nat k) argv) = Z.to_nat k) as Hlen.
    { apply (f_equal length) in Hargv. rewrite length_app, length_take in *. cbn [length] in Hargv. lia. }
    rewrite Hargv, lookup_app_r, Hlen, Nat.sub_diag by lia. done. }
  pose proof (aget_Some_range _ _ _ Hw). rewrite fmap_cons. econstructor.
  - unfold getopt. cbn [seek _argv _optind _extraoptions _subind]. rewrite Hp, He, decide_False by lia. by rewrite Hw.
  - rewrite zlen_cons, Z.add_assoc. apply (IH (k + 1)); [|lia]. rewrite Z2Nat.inj_add by lia. rewrite Nat.add_1_r.
    rewrite (take_S_r _ _ w) by (rewrite aget_nonneg in Hw by lia; done). by rewrite <- app_assoc.
Qed.

Lemma snoc_index {A} (a : list A) w l : a ++ w :: l = (a ++ [w]) ++ l ∧ Z.to_nat (zlen a + 1) = length (a ++ [w]).
Proof. rewrite <- app_assoc, length_app. unfold zlen. cbn [length app]. split; [done|lia]. Qed.

Lemma tail_reads x (a : list jsstr) :
  argv = a ++ tail_words x → tail_ok x →
  ∃ p' p'', reads (pos (zlen a) 0) (tail_meaning x) p' ∧ getopt p' = Ret (p'', None) ∧
    drop (Z.to_nat (optind p'')) argv = unread x ∧ stderr p'' = [].
Proof.
  intros Hargv Hx. assert (Z.to_nat (zlen a) = length a) as Hlen by (unfold zlen; lia).
  assert (∀ w l, tail_words x = w :: l → aget argv (zlen a) = Some w) as Hw.
  { intros w l Hl. by rewrite Hargv, Hl, aget_app_r, Z.sub_diag. }
  assert (zlen argv = zlen a + zlen (tail_words x)) as Hz by by rewrite Hargv, zlen_app.
  assert (∀ w l, tail_words x = w :: l → ¬ zlen argv ≤ zlen a) as Hle by (intros w l Hl; rewrite Hz, Hl, zlen_cons; zlens).
  unfold optind. destruct x as [|c s l|l|w l]; cbn [tail_words tail_meaning tail_ok unread] in *;
    try (specialize (Hw _ _ eq_refl); specialize (Hle _ _ eq_refl)).
  - exists (pos (zlen a) 0), (pos (zlen a) 0). split; [constructor|]. unfold getopt. cbn [pos seek _argv _optind declared].
    rewrite decide_True by (rewrite Hz, (@zlen_nil jsstr); lia). split_and!; [done| |done].
    by rewrite Hlen, Hargv, drop_app_length.
  - set (p := set_extraoptions (pos (zlen a) 0)). exists (seek p (zlen argv) 0), (seek p (zlen argv) 0). split_and!; [|..|done].
    + eapply reads_cons; [|rewrite Hz, (@zlen_cons jsstr), Z.add_assoc; apply (operands_reads p); [done..| |zlens]].
      * unfold getopt. cbn [pos seek _argv _optind declared _extraoptions _subind]. rewrite decide_False by done. rewrite Hw.
        cbn [of_option mbind outcome_bind]. rewrite decide_True by done. rewrite decide_False by by intros [[= ->]|].
        by rewrite decide_True by by intros [= ->].
      * destruct (snoc_index a (c :: s) l) as [E ->]. rewrite (eq_trans Hargv E). by rewrite take_app_length.
    + unfold getopt. by rewrite decide_True by (cbn; lia).
    + cbn. apply drop_ge. unfold zlen. lia.
  - exists (pos (zlen a) 0), (pos (zlen a + 1) 0). split; [constructor|]. unfold getopt. cbn [pos seek _argv _optind declared _extraoptions _subind].
    rewrite decide_False by done. rewrite Hw. cbn [of_option mbind outcome_bind]. split_and!; [done| |done].
    destruct (snoc_index a (jstr "--") l) as [E ->]. by rewrite (eq_trans Hargv E), drop_app_length.
  - exists (pos (zlen a) 0), (pos (zlen a) 0). split; [constructor|]. unfold getopt. cbn [pos seek _argv _optind declared _extraoptions _subind].
    rewrite decide_False by done. rewrite Hw. cbn [of_option mbind outcome_bind]. rewrite !decide_True by done.
    split_and!; [done| |done]. by rewrite Hlen, Hargv, drop_app_length.
Qed.

End line.

(** The calls for a command line, up to the last one, which finds no option. *)
Lemma line_reads silent ds xs tl :
  Forall decl_ok ds → NoDup (letter <$> ds) → NoDup (concat (names <$> ds)) →
  Forall (item_ok ds) xs → tail_ok tl →
  let argv := concat (words <$> xs) ++ tail_words tl in
  ∃ p p' q, new (optstring silent ds) argv = Ret p ∧ reads p (concat (meaning <$> xs) ++ tail_meaning tl) q ∧ getopt q = Ret (p', None) ∧
    drop (Z.to_nat (optind p')) argv = unread tl ∧ stderr p' = [].
Proof.
  intros Hds Hl Hn Hxs Htl argv. exists (declared silent ds argv).
  pose proof (items_reads silent ds argv Hds Hl Hn xs [] (tail_words tl) eq_refl Hxs) as Hitems.
  destruct (tail_reads silent ds argv tl (concat (words <$> xs)) eq_refl Htl) as (p' & p'' & Htail & Hend & Hdrop & Herr).
  exists p'', p'. split_and!; [by apply new_print|exact (reads_app _ _ _ _ _ Hitems Htail)|done..].
Qed.

(** C28: A command line that consists of declared options, in any of the accepted
    forms, and of what may follow them is read by the tools' loop as exactly
    these options with their arguments, then as the remaining arguments;
    [optind] ends at the words that were not read, and nothing is reported. *)
Theorem command_line_parsed silent ds xs tl :
  Forall decl_ok ds → NoDup (letter <$> ds) → NoDup (concat (names <$> ds)) →
  Forall (item_ok ds) xs → tail_ok tl →
  let argv := concat (words <$> xs) ++ tail_words tl in
  let os := concat (meaning <$> xs) ++ tail_meaning tl in
  ∃ p p', new (optstring silent ds) argv = Ret p ∧ getopts (S (length os)) p = Ret (p', os) ∧
    drop (Z.to_nat (optind p')) argv = unread tl ∧ stderr p' = [].
Proof.
  intros Hds Hl Hn Hxs Htl argv os. destruct (line_reads silent ds xs tl Hds Hl Hn Hxs Htl) as (p & p' & q & Hp & Hr & Hend & Hdrop & Herr).
  exists p, p'. split_and!; try done. replace (S (length os)) with (length os + 1)%nat by lia.
  rewrite (reads_getopts p os q) by exact Hr. cbn [getopts]. rewrite Hend. cbn [mbind outcome_bind]. by rewrite app_nil_r.
Qed.

Definition sample_decls : list decl :=
  [{| letter := 109; takes := false; names := [jstr "mono"] |};
   {| letter := 115; takes := true; names := [jstr "stemmer"] |};
   {| letter := 110; takes := true; names := [jstr "number"] |};
   {| letter := 104; takes := false; names := [jstr "help"] |}].

Lemma command_line_parsed_witness :
  ∃ p p', new (jstr "m(mono)s:(stemmer)n:(number)h(help)")
      [jstr "-mn5"; jstr "--stemmer=english"; jstr "--number"; jstr "-1"; jstr "--help"; jstr "word"; jstr "-m"] = Ret p ∧
    getopts 8 p = Ret (p', [plain (Str (jstr "m")); with_arg (jstr "n") (jstr "5"); with_arg (jstr "s") (jstr "english");
      with_arg (jstr "n") (jstr "-1"); plain (Str (jstr "h")); plain (Str (jstr "word")); plain (Str (jstr "-m"))]) ∧
    drop (Z.to_nat (optind p')) [jstr "-mn5"; jstr "--stemmer=english"; jstr "--number"; jstr "-1"; jstr "--help"; jstr "word"; jstr "-m"] = [] ∧
    stderr p' = [].
Proof.
  set (d k := nth k sample_decls {| letter := 0; takes := false; names := [] |}).
  apply (command_line_parsed false sample_decls
    [Value [d 0%nat] (d 2%nat) (jstr "5"); LongValue (d 1%nat) (jstr "stemmer") (jstr "english");
     LongSeparate (d 2%nat) (jstr "number") (jstr "-1"); Long (d 3%nat) (jstr "help")]
    (Operands 119 (jstr "ord") [jstr "-m"])).
  - repeat constructor; decided.
  - decided.
  - decided.
  - repeat constructor; decided.
  - done.
Defined.

(** ** Errors *)

(** The state of a parser whose next word is the long option [n], which does not
    exist. *)
Definition at_unknown (p : t) (n : jsstr) : Prop :=
  aget (_argv p) (_optind p) = Some (45 :: 45 :: n) ∧ n ≠ [] ∧ (61 ∉ n) ∧
  Obj.read (_aliases p) n = Obj.Absent ∧
  _subind p = 0 ∧ _extraoptions p = false.

Lemma unknown_stays p n :
  at_unknown p n → ∃ p', getopt p = Ret (p', Some (failed n)) ∧ at_unknown p' n.
Proof.
  intros (Hk & Hne & Heq & Habs & Hj & He).
  assert (getopt p = ('(p, o) ← _getoptLong p; Ret (p, Some o))) as ->.
  { destruct n as [|c n]; [done|]. by eapply getopt_long. }
  unfold _getoptLong. rewrite Hk. cbn [of_option mbind outcome_bind].
  assert (indexOf (45 :: 45 :: n) 61 = -1) as -> by (apply indexOf_none; set_solver).
  rewrite decide_True by done. assert (Lang.substring (45 :: 45 :: n) 2 (zlen (45 :: 45 :: n)) = n) as ->.
  { rewrite !zlen_cons. replace (1 + (1 + zlen n)) with (zlen [45; 45] + zlen n) by (rewrite !zlen_cons, zlen_nil; lia).
    pose proof (substring_middle [45; 45] n []) as H. rewrite app_nil_r in H. exact H. }
  rewrite Habs. unfold _errInvalidOption. cbn [mbind outcome_bind]. eexists. split; [done|].
  unfold at_unknown. by destruct (_silent p).
Qed.

Lemma unknown_forever p n fuel : at_unknown p n → getopts fuel p = NoFuel.
Proof.
  revert p. induction fuel as [|fuel IH]; intros p Hp; [done|]. cbn [getopts].
  destruct (unknown_stays p n Hp) as (p' & -> & Hp'). cbn [mbind outcome_bind]. by rewrite IH.
Qed.

Lemma reads_forever p os p' : reads p os p' → (∀ fuel, getopts fuel p' = NoFuel) → ∀ fuel, getopts fuel p = NoFuel.
Proof.
  induction 1 as [|p o p1 os p' Ho _ IH]; intros Hp' fuel; [done|]. destruct fuel as [|fuel]; [done|].
  cbn [getopts]. rewrite Ho. cbn [mbind outcome_bind]. by rewrite IH.
Qed.

(** A long option that is not declared is never passed: the tools, which go on
    after an error, ask for the next option forever. *)
Theorem unknown_option_loops silent ds xs (n : jsstr) rest fuel p :
  Forall decl_ok ds → NoDup (letter <$> ds) → NoDup (concat (names <$> ds)) →
  Forall (item_ok ds) xs → n ≠ [] → 61 ∉ n → n ∉ concat (names <$> ds) → n ∉ (λ e, jstr e.1) <$> Obj.inherited →
  new (optstring silent ds) (concat (words <$> xs) ++ (jstr "--" ++ n) :: rest) = Ret p →
  getopts fuel p = NoFuel.
Proof.
  intros Hds Hl Hn Hxs Hne Heq Hnew Hinh Hp. set (argv := concat (words <$> xs) ++ (jstr "--" ++ n) :: rest) in *.
  rewrite new_print in Hp by done. injection Hp as <-.
  pose proof (items_reads silent ds argv Hds Hl Hn xs [] _ eq_refl Hxs) as Hitems.
  apply (reads_forever _ _ _ Hitems). intros f. apply (unknown_forever _ n). split_and!; try done.
  - cbn. unfold argv. by rewrite aget_app_r, Z.sub_diag.
  - cbn. unfold Obj.read, obj_of. rewrite Obj.get_puts_none by by rewrite long_names_keys.
    rewrite (proj2 (list_find_None _ _)); [done|]. apply Forall_forall. intros e He Hen.
    apply Hinh, list_elem_of_fmap. eauto.
Qed.

Lemma unknown_option_loops_witness :
  ∃ p, new (jstr "m(mono)s:(stemmer)n:(number)h(help)") [jstr "-m"; jstr "--color"; jstr "word"] = Ret p ∧
    ∀ fuel, getopts fuel p = NoFuel.
Proof.
  eexists. split; [vm_compute; reflexivity|]. intros fuel.
  apply (unknown_option_loops false sample_decls [Flags (nth 0 sample_decls {| letter := 0; takes := false; names := [] |}) []] (jstr "color") [jstr "word"]).
  - repeat constructor; decided.
  - decided.
  - decided.
  - repeat constructor; decided.
  - done.
  - decided.
  - decided.
  - decided.
  - vm_compute. reflexivity.
Defined.

(** ** Termination *)

(** The invariant the comments of [getopt] state: the indices are not negative,
    and [_subind] stays inside its word; it is [0] among the arguments. *)
Definition inv (p : t) : Prop :=
  0 ≤ _optind p ∧ 0 ≤ _subind p ∧ (zlen (_argv p) ≤ _optind p ∨ _extraoptions p = true → _subind p = 0) ∧
  ∀ arg, aget (_argv p) (_optind p) = Some arg → _subind p = 0 ∨ _subind p < zlen arg.

Definition size (l : list jsstr) : Z := foldr (λ a n, 1 + zlen a + n) 0 l.

(** What is left to read: the words from [_optind] on, less what was read of the
    first one. *)
Definition left (p : t) : Z := size (drop (Z.to_nat (_optind p)) (_argv p)) - _subind p.

Lemma size_nonneg l : 0 ≤ size l.
Proof. induction l as [|a l IH]; [done|]. change (0 ≤ 1 + zlen a + size l). zlens. Qed.

Lemma left_seek p k j arg :
  0 ≤ k → aget (_argv p) k = Some arg → left (seek p k j) = 1 + zlen arg - j + left (seek p (k + 1) 0).
Proof.
  intros Hk Harg. unfold left. cbn [seek _argv _optind _subind]. rewrite aget_nonneg in Harg by lia.
  rewrite (drop_S _ _ _ Harg), Z2Nat.inj_add, Nat.add_1_r by lia. unfold size. cbn [foldr]. lia.
Qed.

Lemma inv_seek p k : 0 ≤ k → inv (seek p k 0).
Proof. intros Hk. split_and!; cbn; auto with lia. Qed.

(** A result that keeps the invariant and, unless it is an error, leaves at most
    [b] to read. *)
Definition ends_by (p : t) (b : Z) (m : outcome (t * CommandOption)) : Prop :=
  ∃ p' o, m = Ret (p', o) ∧ inv p' ∧ _argv p' = _argv p ∧ (error o = false → left p' ≤ b).

Lemma left_self p arg :
  0 ≤ _optind p → aget (_argv p) (_optind p) = Some arg →
  left p = 1 + zlen arg - _subind p + left (seek p (_optind p + 1) 0).
Proof. intros Hk Ha. rewrite <- (left_seek p _ _ arg) by done. by destruct p. Qed.

(** The argument of an option may start at the end of its word. *)
Definition room (p : t) : Prop :=
  0 ≤ _optind p ∧ 0 ≤ _subind p ∧ (zlen (_argv p) ≤ _optind p → _subind p = 0) ∧
  ∀ arg, aget (_argv p) (_optind p) = Some arg → _subind p ≤ zlen arg.

Lemma inv_room p : inv p → room p.
Proof. intros (? & ? & ? & Harg). split_and!; [done..|auto|]. intros arg Ha. destruct (Harg arg Ha); zlens. Qed.

Lemma argument_ends p chr : room p → ends_by p (left p) (_getoptArgument p chr).
Proof.
  intros (Hk & Hj & Hend & Harg). unfold _getoptArgument. case_decide as Hd.
  - assert (inv p) as Hp. { split_and!; [done..|auto|]. intros arg Ha. apply aget_Some_range in Ha. lia. }
    unfold _errMissingArg. destruct (_silent p); do 2 eexists; (split_and!; [reflexivity|exact Hp|done|done]).
  - destruct (aget_is_Some (_argv p) (_optind p)) as [arg Ha]; [lia|]. rewrite Ha. cbn [of_option mbind outcome_bind].
    do 2 eexists. split_and!; [done|apply inv_seek; lia|done|]. intros _. rewrite (left_self p arg) by done.
    specialize (Harg _ Ha). lia.
Qed.

Lemma ends_weaken p p1 b1 b m : _argv p1 = _argv p → b1 ≤ b → ends_by p1 b1 m → ends_by p b m.
Proof.
  intros Hargv Hb (p' & o & -> & Hp' & Hargv' & Hl). exists p', o. split_and!; [done..|congruence|].
  intros Ho. specialize (Hl Ho). lia.
Qed.

Lemma failed_ends p p' b chr : inv p' → _argv p' = _argv p → ends_by p b (Ret (p', failed chr)).
Proof. intros. do 2 eexists. by split_and!. Qed.

Lemma short_ends p arg :
  inv p → _extraoptions p = false → aget (_argv p) (_optind p) = Some arg → _subind p < zlen arg →
  ends_by p (left p - 1) (_getoptShort p).
Proof.
  intros Hp He Ha Hlt. pose proof Hp as (Hk & Hj & _ & _). unfold _getoptShort. rewrite Ha. cbn [of_option mbind outcome_bind].
  set (p1 := if decide _ then _ else _). assert (inv p1 ∧ _argv p1 = _argv p ∧ left p1 ≤ left p - 1) as (Hp1 & Hargv & Hleft).
  { rewrite (left_self p arg) by done. unfold p1. case_decide.
    - split_and!; [apply inv_seek; lia|done|lia].
    - rewrite (left_seek p _ _ arg) by done. split_and!; [|done|lia]. split_and!; cbn; [lia|lia| |].
      + apply aget_Some_range in Ha. intros [?|?]; [lia|congruence].
      + intros ? [= <-]%(eq_trans (eq_sym Ha)). lia. }
  destruct (Obj.get (_options p1) _) as [[]|].
  - by eapply ends_weaken, argument_ends, inv_room.
  - do 2 eexists. by split_and!.
  - apply failed_ends; by destruct (_silent p1).
Qed.

Lemma long_ends p arg :
  inv p → aget (_argv p) (_optind p) = Some arg → _subind p = 0 → ends_by p (left p - 1) (_getoptLong p).
Proof.
  intros Hp Ha Hj. pose proof Hp as (Hk & _ & _ & _). unfold _getoptLong. rewrite Ha, Hj. cbn [of_option mbind outcome_bind].
  pose proof (left_self p arg Hk Ha) as Hleft. pose proof (zlen_nonneg arg). set (alias := Lang.substring _ _ _).
  assert (∀ o, ends_by p (left p - 1) (if decide (indexOf arg 61 ≠ -1) then Ret (_errExtraArg p alias)
            else Ret (seek p (_optind p + 1) 0, plain o))) as Hno.
  { intros o. case_decide; [apply failed_ends; by destruct (_silent p)|]. do 2 eexists.
    split_and!; [done|apply inv_seek; lia|done|intros _; lia]. }
  destruct (Obj.read _ alias) as [chr|n|]; [|apply Hno|apply failed_ends; by destruct (_silent p)].
  destruct (default false _); [clear Hno|apply Hno]. case_decide as Heq.
  - eapply (ends_weaken _ (seek p (_optind p + 1) 0)); [done| |apply argument_ends, inv_room, inv_seek; lia]. lia.
  - assert (61 ∈ arg) as [Hlo Hhi]%indexOf_range by (destruct (decide (61 ∈ arg)); [done|by rewrite indexOf_none in Heq]).
    eapply (ends_weaken _ (seek p (_optind p) (indexOf arg 61 + 1)) (left (seek p (_optind p) (indexOf arg 61 + 1)))).
    + done.
    + rewrite (left_seek p _ _ arg) by done. lia.
    + apply argument_ends. split_and!; cbn; [lia..|apply aget_Some_range in Ha; lia|].
      intros ? [= <-]%(eq_trans (eq_sym Ha)). lia.
Qed.

(** [getopt] returns, keeps the invariant, and, unless it reports an error,
    reads something. *)
Lemma getopt_ends p :
  inv p → ∃ p' o, getopt p = Ret (p', o) ∧
    (∀ o', o = Some o' → inv p' ∧ _argv p' = _argv p ∧ (error o' = false → left p' ≤ left p - 1)).
Proof.
  intros Hp. pose proof Hp as (Hk & Hj & Hend & Harg). unfold getopt. case_decide; [by do 2 eexists|].
  destruct (aget_is_Some (_argv p) (_optind p)) as [arg Ha]; [lia|]. rewrite Ha. cbn [of_option mbind outcome_bind].
  pose proof (left_self p arg Hk Ha) as Hleft. pose proof (zlen_nonneg arg). specialize (Harg arg Ha).
  assert (∀ m, ends_by p (left p - 1) m → ∃ p' o, ('(p, o) ← m; Ret (p, Some o)) = Ret (p', o) ∧
    (∀ o', o = Some o' → inv p' ∧ _argv p' = _argv p ∧ (error o' = false → left p' ≤ left p - 1))) as Hsome.
  { intros m (p' & o & -> & ? & ? & ?). do 2 eexists. split; [done|]. by intros o' [= <-]. }
  destruct (_extraoptions p) eqn:He.
  { apply (Hsome (Ret (_, _))). rewrite Hend by auto. do 2 eexists. split_and!; [done|apply inv_seek; lia|done|intros _; lia]. }
  case_decide as Hj0; [|apply Hsome, (short_ends p arg); [done..|lia]].
  case_decide as Hdash; [by do 2 eexists|]. case_decide as Hc.
  { apply (Hsome (Ret (_, _))). rewrite Hj0. do 2 eexists. split_and!; [done|apply inv_seek; lia|done|intros _].
    change (left (seek p (_optind p + 1) 0) ≤ left p - 1). lia. }
  case_decide as Hdd; [by do 2 eexists|]. case_decide; apply Hsome; [by apply (long_ends p arg)|].
  assert (1 < zlen arg) as Hlen.
  { destruct arg as [|c [|c' arg]]; [naive_solver| |rewrite !zlen_cons; zlens]. destruct Hdash.
    left. exact Hc. }
  apply (ends_weaken _ (seek p (_optind p) (_subind p + 1)) (left (seek p (_optind p) (_subind p + 1)) - 1)); [done|..].
  - rewrite (left_seek p _ _ arg) by done. lia.
  - apply (short_ends _ arg); [|done|done|cbn; lia]. split_and!; cbn; [lia..| |].
    + apply aget_Some_range in Ha. intros [?|?]; [lia|congruence].
    + intros ? [= <-]%(eq_trans (eq_sym Ha)). lia.
Qed.

Lemma left_nonneg p : inv p → 0 ≤ left p.
Proof.
  intros (Hk & Hj & Hend & Harg). destruct (aget (_argv p) (_optind p)) as [arg|] eqn:Ha.
  - rewrite (left_self p arg) by done. unfold left. cbn. pose proof (size_nonneg (drop (Z.to_nat (_optind p + 1)) (_argv p))).
    destruct (Harg _ eq_refl); zlens.
  - unfold left. rewrite Hend; [pose proof (size_nonneg (drop (Z.to_nat (_optind p)) (_argv p))); lia|]. left.
    destruct (decide (zlen (_argv p) ≤ _optind p)) as [|Hn]; [done|]. destruct (aget_is_Some (_argv p) (_optind p)); [lia|congruence].
Qed.

Lemma getopts_ok_ends fuel p : inv p → left p < Z.of_nat fuel → ∃ p' os, getopts_ok fuel p = Ret (p', os).
Proof.
  revert p. induction fuel as [|fuel IH]; intros p Hp Hl; [pose proof (left_nonneg p Hp); lia|]. cbn [getopts_ok].
  destruct (getopt_ends p Hp) as (p' & o & -> & Ho). cbn [mbind outcome_bind]. destruct o as [o|]; [|by do 2 eexists].
  destruct (Ho o eq_refl) as (Hp' & _ & Hl'). destruct (error o); [by do 2 eexists|].
  destruct (IH p') as (q & os & ->); [done|specialize (Hl' eq_refl); lia|]. by do 2 eexists.
Qed.

(** Reading the declarations only fills the tables of the parser. *)
Definition kept (p p' : t) : Prop := _argv p' = _argv p ∧ _optind p' = _optind p ∧ _subind p' = _subind p.

Lemma indexOf_at_range s c i : 0 ≤ i → Lang.indexOf_at s c i ≠ -1 → i ≤ Lang.indexOf_at s c i < zlen s.
Proof.
  intros Hi. unfold Lang.indexOf_at. case_decide as Hn; [done|]. intros _. rewrite indexOf_none in Hn.
  apply dec_stable, indexOf_range in Hn. rewrite zlen_drop in Hn. lia.
Qed.

Lemma parse_aliases_total fuel optstr chr i p :
  -1 ≤ i < zlen optstr → zlen optstr - i ≤ Z.of_nat fuel →
  (∃ m, parse_aliases fuel optstr chr i p = Throw m) ∨
  ∃ i' p', parse_aliases fuel optstr chr i p = Ret (i', p') ∧ i ≤ i' < zlen optstr ∧ kept p p'.
Proof.
  revert i p. induction fuel as [|fuel IH]; intros i p Hi Hf; [lia|]. cbn [parse_aliases].
  destruct (next_is optstr (i + 1) 40); [|right; do 2 eexists; split_and!; done || lia]. case_decide as Hcp; [eauto|].
  apply indexOf_at_range in Hcp; [|lia]. set (cp := Lang.indexOf_at optstr 41 (i + 1 + 1)) in *.
  destruct (IH cp (put_alias p (Lang.substring optstr (i + 1 + 1) cp) chr)) as [[m ->]|(i' & p' & -> & Hi' & Hp')];
    [lia|lia|eauto|]. right. do 2 eexists. split_and!; [done|lia..|exact Hp'].
Qed.

Lemma parse_options_total fuel optstr i p :
  0 ≤ i ≤ zlen optstr → zlen optstr - i < Z.of_nat fuel →
  (∃ m, parse_options fuel optstr i p = Throw m) ∨ ∃ p', parse_options fuel optstr i p = Ret p' ∧ kept p p'.
Proof.
  revert i p. induction fuel as [|fuel IH]; intros i p Hi Hf; [lia|]. cbn [parse_options].
  case_decide; [|right; by eexists]. destruct (negb _); [eauto|].
  set (arg := next_is optstr (i + 1) 58). set (i1 := if arg then i + 1 else i).
  assert (i ≤ i1 < zlen optstr) as Hi1.
  { unfold i1. destruct arg eqn:Ha; [|lia]. apply andb_true_iff in Ha as [Ha _]. apply bool_decide_eq_true in Ha. lia. }
  destruct (parse_aliases_total (S fuel) optstr (js_slice optstr i (i + 1)) i1 (put_option p (js_slice optstr i (i + 1)) arg))
    as [[m ->]|(i' & p' & -> & Hi' & Hp')]; [lia|lia|by left; eexists|]. cbn [mbind outcome_bind].
  destruct (IH (i' + 1) p') as [[m ->]|(q & -> & Hq)]; [lia|lia|eauto|]. right. eexists. split; [done|].
  destruct Hp' as (? & ? & ?), Hq as (? & ? & ?). cbn [put_option _argv _optind _subind] in *. split_and!; congruence.
Qed.

(** C29: Reading declarations ends: it makes a parser or throws.  From then on the
    loop that asks for options until the end or an error finishes after at most
    as many calls as the words have characters, counting one more for each word,
    and for the end. *)
Theorem option_loop_ends optstr argv :
  match new optstr argv with
  | Ret p => ∃ p' os, getopts_ok (S (Z.to_nat (size argv))) p = Ret (p', os)
  | Throw _ => True
  | _ => False
  end.
Proof.
  unfold new, _parseOptstr. set (silent := next_is optstr 0 58). set (p0 := set_silent _ _).
  assert (0 ≤ (if silent then 1 else 0) ≤ zlen optstr) as Hi.
  { destruct silent eqn:Hs; [|zlens]. apply andb_true_iff in Hs as [Hs _]. apply bool_decide_eq_true in Hs. lia. }
  destruct (parse_options_total (S (length optstr)) optstr (if silent then 1 else 0) p0) as [[m ->]|(p & -> & Hargv & Hk & Hj)];
    [done|unfold zlen; lia|done|]. pose proof (size_nonneg argv). apply getopts_ok_ends.
  - split_and!; rewrite ?Hk, ?Hj; cbn; [lia..|done|by left].
  - unfold left. rewrite Hargv, Hk, Hj. change (size argv - 0 < Z.of_nat (S (Z.to_nat (size argv)))). lia.
Qed.

End Getopt.
