(* ===== verification/BaseStemmer.v ===== *)
(** * The base of the stemmers

    Model of [src/misc/oktavia/src/stemmer/base-stemmer.jsx] and [among.jsx]: the
    string a stemmer works on with its cursor, limits and slice, the search of a
    table of endings, and the cache of results.  A subclass adds fields, which
    are the type [X], and a method [stem].

    The two searches [find_among] and [find_among_b] are binary searches that
    remember how much of a key is known to match.  The theorem shows that they
    find the longest entry of a table that stands at the cursor, provided that
    the table is sorted and its links point to the next shorter entry. *)

From S2P Require Import Prelude JsObject Suffixes.

Local Open Scope Z_scope.
Local Open Scope js_scope.

Module Stemmer.
Section Stemmer.
Context {X : Type}.

(** ** Model *)

Record t := {
  current : jsstr;
  cursor : Z;
  limit : Z;
  limit_backward : Z;
  bra : Z;
  ket : Z;
  cache : list (jsstr * jsstr);
  own : X
}.

Definition set_current (st : t) (s : jsstr) (limit' cursor' : Z) : t :=
  {| current := s; cursor := cursor'; limit := limit'; limit_backward := limit_backward st; bra := bra st; ket := ket st;
     cache := cache st; own := own st |}.
Definition set_cursor (st : t) (c : Z) : t := set_current st (current st) (limit st) c.
Definition set_limit_backward (st : t) (c : Z) : t :=
  {| current := current st; cursor := cursor st; limit := limit st; limit_backward := c; bra := bra st; ket := ket st;
     cache := cache st; own := own st |}.
Definition set_slice (st : t) (b k : Z) : t :=
  {| current := current st; cursor := cursor st; limit := limit st; limit_backward := limit_backward st; bra := b;
     ket := k; cache := cache st; own := own st |}.
Definition set_own (st : t) (x : X) : t :=
  {| current := current st; cursor := cursor st; limit := limit st; limit_backward := limit_backward st; bra := bra st;
     ket := ket st; cache := cache st; own := x |}.
Definition set_cache (st : t) (m : list (jsstr * jsstr)) : t :=
  {| current := current st; cursor := cursor st; limit := limit st; limit_backward := limit_backward st; bra := bra st;
     ket := ket st; cache := m; own := own st |}.

Definition setCurrent (st : t) (value : jsstr) : t :=
  {| current := value; cursor := 0; limit := zlen value; limit_backward := 0; bra := 0; ket := zlen value;
     cache := cache st; own := own st |}.

Definition getCurrent (st : t) : jsstr := current st.

(** The fields of [X] have their initial values [x]. *)
Definition new (x : X) : t :=
  setCurrent {| current := []; cursor := 0; limit := 0; limit_backward := 0; bra := 0; ket := 0; cache := []; own := x |} [].

Definition copy_from (st other : t) : t :=
  {| current := current other; cursor := cursor other; limit := limit other; limit_backward := limit_backward other;
     bra := bra other; ket := ket other; cache := cache st; own := own st |}.

(** [s[ch >>> 3] & (0x1 << (ch & 0x7))], where a missing element counts as [0]. *)
Definition group_bit (s : list Z) (ch : Z) : Z := int_of (aget s (ch >>>' 3)) &' (1 <<' (ch &' 7)).

Definition in_grouping (st : t) (s : list Z) (min max : Z) : outcome (t * bool) :=
  if decide (limit st ≤ cursor st) then Ret (st, false)
  else
    ch ← of_option (charCodeAt (current st) (cursor st));
    if decide (max < ch ∨ ch < min) then Ret (st, false)
    else if decide (group_bit s (ch - min) = 0) then Ret (st, false)
    else Ret (set_cursor st (cursor st + 1), true).

Definition in_grouping_b (st : t) (s : list Z) (min max : Z) : outcome (t * bool) :=
  if decide (cursor st ≤ limit_backward st) then Ret (st, false)
  else
    ch ← of_option (charCodeAt (current st) (cursor st - 1));
    if decide (max < ch ∨ ch < min) then Ret (st, false)
    else if decide (group_bit s (ch - min) = 0) then Ret (st, false)
    else Ret (set_cursor st (cursor st - 1), true).

Definition out_grouping (st : t) (s : list Z) (min max : Z) : outcome (t * bool) :=
  if decide (limit st ≤ cursor st) then Ret (st, false)
  else
    ch ← of_option (charCodeAt (current st) (cursor st));
    if decide (max < ch ∨ ch < min) then Ret (set_cursor st (cursor st + 1), true)
    else if decide (group_bit s (ch - min) = 0) then Ret (set_cursor st (cursor st + 1), true)
    else Ret (st, false).

Definition out_grouping_b (st : t) (s : list Z) (min max : Z) : outcome (t * bool) :=
  if decide (cursor st ≤ limit_backward st) then Ret (st, false)
  else
    ch ← of_option (charCodeAt (current st) (cursor st - 1));
    if decide (max < ch ∨ ch < min) then Ret (set_cursor st (cursor st - 1), true)
    else if decide (group_bit s (ch - min) = 0) then Ret (set_cursor st (cursor st - 1), true)
    else Ret (st, false).

Definition in_range (st : t) (min max : Z) : outcome (t * bool) :=
  if decide (limit st ≤ cursor st) then Ret (st, false)
  else
    ch ← of_option (charCodeAt (current st) (cursor st));
    if decide (max < ch ∨ ch < min) then Ret (st, false) else Ret (set_cursor st (cursor st + 1), true).

Definition in_range_b (st : t) (min max : Z) : outcome (t * bool) :=
  if decide (cursor st ≤ limit_backward st) then Ret (st, false)
  else
    ch ← of_option (charCodeAt (current st) (cursor st - 1));
    if decide (max < ch ∨ ch < min) then Ret (st, false) else Ret (set_cursor st (cursor st - 1), true).

Definition out_range (st : t) (min max : Z) : outcome (t * bool) :=
  if decide (limit st ≤ cursor st) then Ret (st, false)
  else
    ch ← of_option (charCodeAt (current st) (cursor st));
    if decide (¬ (max < ch ∨ ch < min)) then Ret (st, false) else Ret (set_cursor st (cursor st + 1), true).

Definition out_range_b (st : t) (min max : Z) : outcome (t * bool) :=
  if decide (cursor st ≤ limit_backward st) then Ret (st, false)
  else
    ch ← of_option (charCodeAt (current st) (cursor st - 1));
    if decide (¬ (max < ch ∨ ch < min)) then Ret (st, false) else Ret (set_cursor st (cursor st - 1), true).

Definition eq_s (st : t) (s_size : Z) (s : jsstr) : t * bool :=
  if decide (limit st - cursor st < s_size) then (st, false)
  else if decide (js_slice (current st) (cursor st) (cursor st + s_size) ≠ s) then (st, false)
  else (set_cursor st (cursor st + s_size), true).

Definition eq_s_b (st : t) (s_size : Z) (s : jsstr) : t * bool :=
  if decide (cursor st - limit_backward st < s_size) then (st, false)
  else if decide (js_slice (current st) (cursor st - s_size) (cursor st) ≠ s) then (st, false)
  else (set_cursor st (cursor st - s_size), true).

Definition eq_v (st : t) (s : jsstr) : t * bool := eq_s st (zlen s) s.
Definition eq_v_b (st : t) (s : jsstr) : t * bool := eq_s_b st (zlen s) s.

(** *** Tables of endings *)

Record Among := { s : jsstr; substring_i : Z; result : Z; method : option (t → outcome (t * bool)) }.

Definition s_size (w : Among) : Z := zlen (s w).

(** The inner loop: compares the rest of a key, from [common] on, with the text;
    [ahead k] is the [k]-th character from the cursor, [None] at the limit. *)
Fixpoint compare_rest (ahead : Z → outcome (option Z)) (rest : jsstr) (common : Z) : outcome (Z * Z) :=
  match rest with
  | [] => Ret (0, common)
  | x :: rest =>
    o ← ahead common;
    match o with
    | None => Ret (-1, common)
    | Some ch => let diff := ch - x in if decide (diff ≠ 0) then Ret (diff, common) else compare_rest ahead rest (common + 1)
    end
  end.

(** The first loop of [find_among] and [find_among_b]; the latter halves with
    [>>], which is the same as [j - i] is not negative. *)
Fixpoint find_loop (fuel : nat) (ahead : Z → outcome (option Z)) (key : Among → jsstr) (v : list Among)
  (i j common_i common_j : Z) (first_key_inspected : bool) : outcome (Z * Z) :=
  match fuel with
  | O => NoFuel
  | S fuel =>
    let k := i + ((j - i) >>>' 1) in
    let common := if decide (common_i < common_j) then common_i else common_j in
    w ← of_option (aget v k);
    '(diff, common) ← compare_rest ahead (drop (Z.to_nat common) (key w)) common;
    let '(i, common_i, j, common_j) := if decide (diff < 0) then (i, common_i, k, common) else (k, common, j, common_j) in
    if decide (j - i ≤ 1) then
      if decide (i > 0 ∨ j = i) then Ret (i, common_i)
      else if first_key_inspected then Ret (i, common_i)
      else find_loop fuel ahead key v i j common_i common_j true
    else find_loop fuel ahead key v i j common_i common_j first_key_inspected
  end.

(** The second loop: [move] is the cursor after an entry, [call] runs its method. *)
Fixpoint take_loop (fuel : nat) (move : Among → Z) (call : (t → outcome (t * bool)) → t → outcome (t * bool))
  (v : list Among) (common_i : Z) (st : t) (i : Z) : outcome (t * Z) :=
  match fuel with
  | O => NoFuel
  | S fuel =>
    w ← of_option (aget v i);
    '(st, found) ←
      (if decide (s_size w ≤ common_i) then
         let st := set_cursor st (move w) in
         match method w with
         | None => Ret (st, true)
         | Some m => '(st, res) ← call m st; Ret (set_cursor st (move w), res)
         end
       else Ret (st, false));
    if (found : bool) then Ret (st, result w)
    else if decide (substring_i w < 0) then Ret (st, 0)
    else take_loop fuel move call v common_i st (substring_i w)
  end.

(** [find_among] calls the method of an entry on the object of the entry and not
    on the stemmer; no table that is searched forwards has an entry with a
    method, and the call is outside the model. *)
Definition find_among (st : t) (v : list Among) (v_size : Z) : outcome (t * Z) :=
  let c := cursor st in
  let ahead k := if decide (c + k = limit st) then Ret None else ch ← of_option (charCodeAt (current st) (c + k)); Ret (Some ch) in
  '(i, common_i) ← find_loop (Z.to_nat (v_size + 2)) ahead s v 0 v_size 0 0 false;
  take_loop (S (length v)) (λ w, c + s_size w) (λ _ _, Undef) v common_i st i.

Definition find_among_b (st : t) (v : list Among) (v_size : Z) : outcome (t * Z) :=
  let c := cursor st in
  let ahead k :=
    if decide (c - k = limit_backward st) then Ret None
    else ch ← of_option (charCodeAt (current st) (c - 1 - k)); Ret (Some ch) in
  '(i, common_i) ← find_loop (Z.to_nat (v_size + 2)) ahead (λ w, reverse (s w)) v 0 v_size 0 0 false;
  take_loop (S (length v)) (λ w, c - s_size w) (λ m st, m st) v common_i st i.

(** *** The slice *)

Definition replace_s (st : t) (c_bra c_ket : Z) (s : jsstr) : t * Z :=
  let adjustment := zlen s - (c_ket - c_bra) in
  let current' := js_slice (current st) 0 c_bra ++ s ++ js_slice (current st) c_ket (zlen (current st)) in
  let cursor' :=
    if decide (c_ket ≤ cursor st) then cursor st + adjustment
    else if decide (c_bra < cursor st) then c_bra else cursor st in
  (set_current st current' (limit st + adjustment) cursor', adjustment).

Definition slice_check (st : t) : bool :=
  negb (bool_decide (bra st < 0) || bool_decide (ket st < bra st) || bool_decide (limit st < ket st) ||
        bool_decide (zlen (current st) < limit st)).

Definition slice_from (st : t) (s : jsstr) : t * bool :=
  if slice_check st then ((replace_s st (bra st) (ket st) s).1, true) else (st, false).

Definition slice_del (st : t) : t * bool := slice_from st [].

Definition insert (st : t) (c_bra c_ket : Z) (s : jsstr) : t :=
  let '(st, adjustment) := replace_s st c_bra c_ket s in
  let st := set_slice st (if decide (c_bra ≤ bra st) then bra st + adjustment else bra st) (ket st) in
  set_slice st (bra st) (if decide (c_bra ≤ ket st) then ket st + adjustment else ket st).

Definition slice_to (st : t) : jsstr := if slice_check st then js_slice (current st) (bra st) (ket st) else [].

Definition assign_to (st : t) : jsstr := js_slice (current st) 0 (limit st).

(** *** The cache: [stem] is the method of the subclass, which overrides the one here *)

Definition base_stem (st : t) : outcome (t * bool) := Ret (st, false).

Definition stemWord (stem : t → outcome (t * bool)) (st : t) (word : jsstr) : outcome (t * jsstr) :=
  match Obj.get (cache st) (jstr "." ++ word) with
  | Some result => Ret (st, result)
  | None =>
    '(st, _) ← stem (setCurrent st word);
    let result := getCurrent st in
    Ret (set_cache st (Obj.put (cache st) (jstr "." ++ word) result), result)
  end.

Definition stemWords (stem : t → outcome (t * bool)) (st : t) (words : list jsstr) : outcome (t * list jsstr) :=
  ofold (λ '(st, results) word,
    '(st, result) ←
      match Obj.get (cache st) (jstr "." ++ word) with
      | Some result => Ret (st, result)
      | None =>
        '(st, _) ← stem (setCurrent st word);
        let result := getCurrent st in
        Ret (set_cache st (Obj.put (cache st) (jstr "." ++ word) result), result)
      end;
    Ret (st, results ++ [result])) (st, []) words.

(** ** The search of a table *)

(** The length of the longest common prefix. *)
Fixpoint lcp (a b : list Z) : Z :=
  match a, b with
  | x :: a, y :: b => if decide (x = y) then 1 + lcp a b else 0
  | _, _ => 0
  end.

Lemma lcp_app p a b : lcp (p ++ a) (p ++ b) = zlen p + lcp a b.
Proof. induction p as [|x p IH]; [done|]. cbn [app lcp]. rewrite decide_True, zlen_cons by done. lia. Qed.

Lemma lcp_range a b : 0 ≤ lcp a b ≤ zlen a.
Proof.
  revert b. induction a as [|x a IH]; intros b; [done|]. rewrite zlen_cons. specialize (IH (tail b)).
  destruct b as [|y b]; cbn [lcp tail] in *; [lia|]. case_decide; lia.
Qed.

Lemma lcp_prefix p a b : p `prefix_of` a → zlen p ≤ lcp a b ↔ p `prefix_of` b.
Proof.
  revert a b. induction p as [|x p IH]; intros a b Hp.
  { split; [intros _; apply prefix_nil|]. intros _. apply lcp_range. }
  destruct a as [|y a]; [by apply prefix_nil_not in Hp|]. pose proof (prefix_cons_inv_1 _ _ _ _ Hp) as ->.
  apply prefix_cons_inv_2 in Hp. rewrite zlen_cons. destruct b as [|z b]; cbn [lcp].
  { split; [pose proof (zlen_nonneg p); lia|by intros ?%prefix_nil_not]. }
  case_decide as Hyz.
  - subst. split; [intros; apply prefix_cons, (IH a b Hp); lia|]. intros Hb%prefix_cons_inv_2. apply (IH a b Hp) in Hb. lia.
  - split; [pose proof (zlen_nonneg p); lia|]. by intros ?%prefix_cons_inv_1.
Qed.

Lemma lcp_comm a b : lcp a b = lcp b a.
Proof.
  revert b. induction a as [|x a IH]; intros [|y b]; [done..|]. cbn [lcp]. rewrite IH. by repeat case_decide; subst.
Qed.

Lemma lex_app p a b : (p ++ a) ≺ (p ++ b) ↔ a ≺ b.
Proof. induction p as [|x p IH]; [done|]. cbn [app]. rewrite lex_cons. naive_solver lia. Qed.

Lemma prefix_lex p a : p `prefix_of` a → ¬ a ≺ p.
Proof. intros [k ->] H. rewrite <- (app_nil_r p) in H at 2. rewrite lex_app in H. by destruct k. Qed.

(** What lies between two strings with a common prefix has it, too. *)
Lemma prefix_between p a b c : p `prefix_of` a → p `prefix_of` c → ¬ b ≺ a → ¬ c ≺ b → p `prefix_of` b.
Proof.
  revert a b c. induction p as [|x p IH]; intros a b c Ha Hc Hab Hbc; [apply prefix_nil|].
  destruct a as [|xa a]; [by apply prefix_nil_not in Ha|]. destruct c as [|xc c]; [by apply prefix_nil_not in Hc|].
  pose proof (prefix_cons_inv_1 _ _ _ _ Ha) as <-. pose proof (prefix_cons_inv_1 _ _ _ _ Hc) as <-.
  apply prefix_cons_inv_2 in Ha, Hc. destruct b as [|y b]; [by destruct Hab|]. rewrite !lex_cons in *.
  assert (x = y) as <- by lia. apply prefix_cons. apply (IH a b c); naive_solver.
Qed.

Section search.
Context (T : list Z) (ahead : Z → outcome (option Z)) (key : Among → jsstr) (v : list Among).
Hypothesis ahead_text : ∀ k, 0 ≤ k ≤ zlen T → ahead k = Ret (aget T k).
Hypothesis key_size : ∀ w, zlen (key w) = s_size w.

Lemma compare_rest_spec pre rest T' :
  T = pre ++ T' → ∃ d, compare_rest ahead rest (zlen pre) = Ret (d, zlen pre + lcp rest T') ∧ (d < 0 ↔ T' ≺ rest).
Proof.
  revert pre T'. induction rest as [|x rest IH]; intros pre T' HT; cbn [compare_rest lcp].
  { exists 0. split; [f_equal; f_equal; lia|]. destruct T'; cbn; naive_solver lia. }
  rewrite ahead_text by (rewrite HT, zlen_app; pose proof (zlen_nonneg pre); pose proof (zlen_nonneg T'); lia).
  cbn [mbind outcome_bind]. rewrite HT, aget_app_r, Z.sub_diag by lia. destruct T' as [|y T'].
  { exists (-1). cbn. split; [f_equal; f_equal; lia|]. naive_solver lia. }
  change (aget (y :: T') 0) with (Some y). cbv iota. setoid_rewrite lex_cons. case_decide as Hd.
  - exists (y - x). rewrite decide_False by lia. split; [f_equal; f_equal; lia|]. lia.
  - assert (x = y) as -> by lia. rewrite decide_True by done.
    destruct (IH (pre ++ [y]) T') as (d & Hcmp & Hlt); [by rewrite <- app_assoc|]. exists d.
    rewrite zlen_app, zlen_cons, zlen_nil in Hcmp. replace (zlen pre + (1 + 0)) with (zlen pre + 1) in Hcmp by lia.
    rewrite Hcmp. split; [f_equal; f_equal; lia|]. rewrite Hlt. naive_solver lia.
Qed.

Lemma compare_key K m :
  0 ≤ m ≤ lcp K T → ∃ d, compare_rest ahead (drop (Z.to_nat m) K) m = Ret (d, lcp K T) ∧ (d < 0 ↔ T ≺ K).
Proof.
  intros Hm. set (p := take (Z.to_nat m) K).
  assert (p `prefix_of` T) as [T' HT].
  { apply (lcp_prefix p K T); [apply prefix_take|]. unfold p. rewrite zlen_take. lia. }
  assert (K = p ++ drop (Z.to_nat m) K) as HK by (symmetry; apply take_drop).
  assert (zlen p = m) as Hp by (pose proof (lcp_range K T); unfold p; rewrite zlen_take; lia).
  destruct (compare_rest_spec p (drop (Z.to_nat m) K) T' HT) as (d & Hd & Hlt). rewrite Hp in Hd. exists d.
  rewrite Hd, HT. rewrite HK at 2 3. by rewrite lcp_app, lex_app, Hp.
Qed.

(** A table as the searches need it: sorted by its keys, each entry linked to the
    longest entry that is a proper prefix of it. *)
Definition proper (a b : Among) : Prop := key a `prefix_of` key b ∧ key a ≠ key b.

Fixpoint sorted (l : list Among) : bool :=
  match l with
  | [] => true
  | w :: l => forallb (λ w', lex (key w) (key w')) l && sorted l
  end.

Definition linked (w : Among) : Prop :=
  match aget v (substring_i w) with
  | Some w' => proper w' w ∧ Forall (λ w'', proper w'' w → s_size w'' ≤ s_size w') v
  | None => substring_i w < 0 ∧ Forall (λ w'', ¬ proper w'' w) v
  end.

Definition table_ok : Prop := sorted v = true ∧ Forall linked v.

Lemma sorted_lex l i j a b : sorted l = true → aget l i = Some a → aget l j = Some b → i < j → key a ≺ key b.
Proof.
  revert i j. induction l as [|w l IH]; intros i j Hs Ha Hb Hij.
  { apply aget_Some_range in Ha. unfold zlen in Ha. cbn in Ha. lia. }
  cbn [sorted] in Hs. apply andb_true_iff in Hs as [Hw Hs]. pose proof (aget_Some_range _ _ _ Ha).
  rewrite aget_cons in Ha, Hb. rewrite (decide_False (P := j = 0)) in Hb by lia. case_decide.
  - injection Ha as <-. rewrite forallb_forall in Hw. apply Hw. apply list_elem_of_In. by eapply aget_elem_of.
  - apply (IH (i - 1) (j - 1)); done || lia.
Qed.

Hypothesis v_ok : table_ok.
Hypothesis v_nonempty : 0 < zlen v < 2 ^ 31.

(** What the first loop knows: entries from [j] on are above the text, entry [i],
    once it was compared, is not, and the lengths that match are known. *)
Definition below (i ci : Z) : Prop := ∃ w, aget v i = Some w ∧ ¬ T ≺ key w ∧ ci = lcp (key w) T.
Definition above (j cj : Z) : Prop :=
  j = zlen v ∧ cj = 0 ∨ ∃ w, aget v j = Some w ∧ T ≺ key w ∧ cj = lcp (key w) T.
Definition found_at (i ci : Z) : Prop :=
  (below i ci ∧ ∀ k w, i < k → aget v k = Some w → T ≺ key w) ∨ i = 0 ∧ ci = 0 ∧ ∀ w, w ∈ v → T ≺ key w.

Lemma above_all j cj k w : above j cj → j ≤ k → aget v k = Some w → T ≺ key w.
Proof.
  intros Hj Hk Hw. pose proof (aget_Some_range _ _ _ Hw). destruct Hj as [[-> _]|(w' & Hw' & Hlt & _)]; [lia|].
  destruct (decide (j = k)) as [->|]; [congruence|]. apply (lex_trans _ _ _ Hlt).
  apply (sorted_lex v j k); [apply v_ok|done..|lia].
Qed.

Lemma common_between wi w wj m :
  ¬ key w ≺ key wi → ¬ key wj ≺ key w → 0 ≤ m ≤ lcp (key wi) T → m ≤ lcp (key wj) T → m ≤ lcp (key w) T.
Proof.
  intros Hi Hj Hmi Hmj. set (p := take (Z.to_nat m) (key wi)).
  assert (zlen p = m) as Hp by (pose proof (lcp_range (key wi) T); unfold p; rewrite zlen_take; lia).
  assert (p `prefix_of` key wi) as Hpi by apply prefix_take.
  assert (p `prefix_of` T) as HpT by (apply (lcp_prefix p (key wi) T Hpi); lia).
  rewrite <- Hp. rewrite lcp_comm. apply lcp_prefix; [done|]. apply (prefix_between p (key wi) _ (key wj)); [done| |done..].
  apply (lcp_prefix p T (key wj) HpT). rewrite lcp_comm. lia.
Qed.

Lemma common_known i j ci cj k w :
  (i = 0 ∧ ci = 0) ∨ below i ci → above j cj → i ≤ k < j → aget v k = Some w →
  0 ≤ (if decide (ci < cj) then ci else cj) ≤ lcp (key w) T.
Proof.
  intros Hi Hj Hk Hw. pose proof (lcp_range (key w) T).
  destruct Hj as [[-> ->]|(wj & Hwj & Hlt & ->)]; destruct Hi as [[-> ->]|(wi & Hwi & Hle & ->)];
    try (pose proof (lcp_range (key wi) T)); try (pose proof (lcp_range (key wj) T)); try (case_decide; lia).
  enough (∀ m, 0 ≤ m ≤ lcp (key wi) T → m ≤ lcp (key wj) T → m ≤ lcp (key w) T) as Hm.
  { case_decide; (split; [lia|apply Hm; lia]). }
  intros m. apply common_between.
  - destruct (decide (i = k)) as [->|]; [assert (w = wi) as -> by congruence; apply lex_irrefl|].
    apply lex_asym, (sorted_lex v i k); [apply v_ok|done..|lia].
  - apply lex_asym, (sorted_lex v k j); [apply v_ok|done..|lia].
Qed.

Lemma find_loop_spec fuel i j ci cj (first : bool) :
  0 ≤ i < j → j ≤ zlen v → (i = 0 ∧ ci = 0) ∨ below i ci → above j cj →
  (j - i = 1 → i = 0) → (first = true → j - i = 1) →
  j - i + (if first then 0 else 1) ≤ Z.of_nat fuel →
  ∃ i' ci', find_loop fuel ahead key v i j ci cj first = Ret (i', ci') ∧ found_at i' ci'.
Proof.
  revert i j ci cj first. induction fuel as [|fuel IH]; intros i j ci cj first Hij Hj Hi Hjj Hone Hfirst Hf.
  { destruct first; lia. }
  cbn [find_loop]. rewrite js_shr_div by lia. change (2 ^ 1) with 2. set (k := i + (j - i) / 2).
  assert (i ≤ k < j ∧ (1 < j - i → i < k)) as [Hk Hk'] by (unfold k; Z.to_euclidean_division_equations; lia).
  destruct (aget_is_Some v k) as [w Hw]; [lia|]. rewrite Hw. cbn [of_option mbind outcome_bind].
  pose proof (common_known i j ci cj k w Hi Hjj Hk Hw) as Hc. set (c := if decide (ci < cj) then ci else cj) in *.
  destruct (compare_key (key w) c Hc) as (d & -> & Hd). cbn [mbind outcome_bind].
  case_decide as Hneg.
  - assert (T ≺ key w) as Hlt by by apply Hd.
    assert (above k (lcp (key w) T)) as Hk2 by (right; by exists w).
    case_decide as Hw1; [|apply IH; try done; destruct first; lia]. case_decide as Hend.
    + do 2 eexists. split; [done|]. destruct Hi as [[-> ->]|Hi].
      * right. split_and!; [done..|]. intros w' [q Hq]%elem_of_aget. pose proof (aget_Some_range _ _ _ Hq).
        apply (above_all k _ q w' Hk2); [lia|done].
      * left. split; [done|]. intros k' w' Hk2'. apply (above_all k _ k' w' Hk2). lia.
    + destruct first; [specialize (Hfirst eq_refl); lia|]. apply IH; try done; lia.
  - assert (below k (lcp (key w) T)) as Hk2 by (exists w; split_and!; [done|by rewrite <- Hd|done]).
    assert (found_at k (lcp (key w) T) ∨ 1 < j - k) as Hfound.
    { destruct (decide (1 < j - k)); [by right|]. left. left. split; [done|]. intros k' w' Hk2'. apply (above_all j cj k' w' Hjj). lia. }
    case_decide as Hw1; [|apply IH; try done; [lia|by right|lia|destruct first; lia..]].
    destruct Hfound; [|lia]. case_decide; [eauto|]. destruct first; [eauto|].
    apply IH; try done; [lia|by right|lia..].
Qed.

(** What the second loop does when no entry has a method: it stops at the longest
    entry that stands in the text. *)
Definition longest (r : option Among) : Prop :=
  match r with
  | Some w => w ∈ v ∧ key w `prefix_of` T ∧ ∀ w', w' ∈ v → key w' `prefix_of` T → s_size w' ≤ s_size w
  | None => ∀ w, w ∈ v → ¬ key w `prefix_of` T
  end.

Definition matched (st : t) (move : Among → Z) (r : option Among) : t * Z :=
  match r with Some w => (set_cursor st (move w), result w) | None => (st, 0) end.

Lemma prefix_shorter a b c : key a `prefix_of` key c → key b `prefix_of` key c → s_size a ≤ s_size b → key a `prefix_of` key b.
Proof.
  intros Ha Hb Hle. rewrite <- !key_size in Hle. destruct (prefix_weak_total _ _ _ Ha Hb) as [?|[k Hk]]; [done|].
  rewrite Hk in Hle. rewrite zlen_app in Hle. destruct k as [|x k]; [by rewrite Hk, app_nil_r|].
  rewrite zlen_cons in Hle. pose proof (zlen_nonneg k). lia.
Qed.

Hypothesis no_method : Forall (λ w, method w = None) v.

Lemma take_loop_spec fuel move call st i ci w :
  aget v i = Some w → (∀ w', w' ∈ v → key w' `prefix_of` T ↔ key w' `prefix_of` key w ∧ s_size w' ≤ ci) →
  i < Z.of_nat fuel →
  ∃ r, take_loop fuel move call v ci st i = Ret (matched st move r) ∧ longest r.
Proof.
  revert i w. induction fuel as [|fuel IH]; intros i w Hw Hm Hf; [pose proof (aget_Some_range _ _ _ Hw); lia|].
  pose proof (aget_elem_of _ _ _ Hw) as Hin. destruct v_ok as [Hsort Hlink]. rewrite Forall_forall in Hlink.
  rewrite Forall_forall in no_method. specialize (Hlink w Hin). cbn [take_loop]. rewrite Hw. cbn [of_option mbind outcome_bind].
  destruct (decide (s_size w ≤ ci)) as [Hsz|Hsz].
  { rewrite (no_method w Hin). cbn [mbind outcome_bind]. exists (Some w). split; [reflexivity|]. split_and!; [done|by apply Hm|].
    intros w' Hw' HT. apply (Hm w' Hw') in HT as [Hp _]. rewrite <- !key_size. apply prefix_length in Hp. unfold zlen. lia. }
  cbn [mbind outcome_bind].
  assert (∀ w', w' ∈ v → key w' `prefix_of` T → proper w' w) as Hprop.
  { intros w' Hw' HT. apply (Hm w' Hw') in HT as [Hp Hs]. split; [done|]. intros Heq. rewrite <- !key_size, Heq in *. lia. }
  unfold linked in Hlink. destruct (aget v (substring_i w)) as [w2|] eqn:Hw2.
  - destruct Hlink as [[Hp2 Hne2] Hall]. rewrite Forall_forall in Hall.
    pose proof (aget_Some_range _ _ _ Hw2). rewrite decide_False by lia. apply (IH _ w2 Hw2).
    + intros w' Hw'. split; [|intros [Hp Hs]; apply Hm; [done|split; [by etrans|done]]].
      intros HT. destruct (Hprop w' Hw' HT) as [Hp _]. split; [|by apply Hm].
      apply (prefix_shorter _ _ w); [done..|]. by apply Hall, Hprop.
    + destruct (decide (substring_i w < i)); [lia|]. exfalso. apply (prefix_lex _ _ Hp2).
      assert (substring_i w ≠ i) by (intros Heq; rewrite Heq in Hw2; congruence). apply (sorted_lex v i (substring_i w)); done || lia.
  - destruct Hlink as [Hneg Hall]. rewrite Forall_forall in Hall. rewrite decide_True by done. exists None. split; [done|].
    intros w' Hw' HT. by apply (Hall w' Hw'), Hprop.
Qed.

Lemma found_matches i ci :
  found_at i ci → ∃ w, aget v i = Some w ∧
    ∀ w', w' ∈ v → key w' `prefix_of` T ↔ key w' `prefix_of` key w ∧ s_size w' ≤ ci.
Proof.
  destruct v_ok as [Hsort _]. intros [[(w & Hw & Hle & ->) Hup]|(-> & -> & Hall)].
  - exists w. split; [done|]. intros w' Hw'. rewrite <- key_size. split; [|intros [Hp Hs]; by apply (lcp_prefix _ _ _ Hp)].
    intros HT. assert (key w' `prefix_of` key w) as Hp; [|split; [done|by apply (lcp_prefix _ _ _ Hp)]].
    apply elem_of_aget in Hw' as [q Hq]. apply (prefix_between _ (key w') _ T); [done|done| |done].
    destruct (Z.lt_total q i) as [?|[->|?]].
    + apply lex_asym. by apply (sorted_lex v q i).
    + assert (w' = w) as -> by congruence. apply lex_irrefl.
    + exfalso. apply (prefix_lex _ _ HT). by apply (Hup q).
  - destruct (aget_is_Some v 0) as [w Hw]; [lia|]. exists w. split; [done|]. intros w' Hw'. split.
    + intros HT. exfalso. apply (prefix_lex _ _ HT). by apply Hall.
    + intros [Hp Hs]. exfalso. rewrite <- key_size in Hs. destruct (key w') as [|x l] eqn:Hk; [|rewrite zlen_cons in Hs; pose proof (zlen_nonneg l); lia].
      pose proof (Hall w' Hw') as Hlt. rewrite Hk in Hlt. by destruct T.
Qed.

(** The two loops together. *)
Lemma find_spec move call st :
  ∃ r, ('(i, common_i) ← find_loop (Z.to_nat (zlen v + 2)) ahead key v 0 (zlen v) 0 0 false;
        take_loop (S (length v)) move call v common_i st i) = Ret (matched st move r) ∧ longest r.
Proof.
  destruct (find_loop_spec (Z.to_nat (zlen v + 2)) 0 (zlen v) 0 0 false) as (i & ci & -> & Hfound); [lia|lia|by left|by left|lia|done|lia|].
  cbn [mbind outcome_bind]. destruct (found_matches i ci Hfound) as (w & Hw & Hm).
  apply (take_loop_spec _ _ _ _ _ _ w); [done..|]. apply aget_Some_range in Hw. unfold zlen in Hw. lia.
Qed.

End search.

(** The positions of a stemmer are inside its string. *)
Definition inside (st : t) : Prop :=
  0 ≤ limit_backward st ≤ cursor st ∧ cursor st ≤ limit st ≤ zlen (current st).

Definition text_ahead (st : t) : jsstr := js_slice (current st) (cursor st) (limit st).
Definition text_behind (st : t) : jsstr := reverse (js_slice (current st) (limit_backward st) (cursor st)).

Definition methodless (v : list Among) : Prop := Forall (λ w, method w = None) v.

Lemma find_among_spec st v :
  inside st → table_ok s v → methodless v → 0 < zlen v < 2 ^ 31 →
  ∃ r, find_among st v (zlen v) = Ret (matched st (λ w, cursor st + s_size w) r) ∧ longest (text_ahead st) s v r.
Proof.
  intros [Hi Hi'] Hv Hm Hn. apply find_spec; try done. intros k. unfold text_ahead. rewrite zlen_slice by lia. intros Hk.
  case_decide as Hc; [rewrite aget_None; [done|rewrite zlen_slice; lia]|].
  rewrite aget_slice by lia. unfold charCodeAt. by destruct (aget_is_Some (current st) (cursor st + k)) as [c ->]; [lia|].
Qed.

Lemma find_among_b_spec st v :
  inside st → table_ok (λ w, reverse (s w)) v → methodless v → 0 < zlen v < 2 ^ 31 →
  ∃ r, find_among_b st v (zlen v) = Ret (matched st (λ w, cursor st - s_size w) r) ∧
    longest (text_behind st) (λ w, reverse (s w)) v r.
Proof.
  intros [Hi Hi'] Hv Hm Hn. apply find_spec; try done; [|intros w; apply zlen_reverse]. intros k. unfold text_behind.
  rewrite zlen_reverse, zlen_slice by lia. intros Hk. rewrite aget_reverse, zlen_slice by lia.
  case_decide as Hc; [by rewrite aget_None by lia|].
  rewrite aget_slice by lia. replace (limit_backward st + (cursor st - limit_backward st - 1 - k)) with (cursor st - 1 - k) by lia.
  unfold charCodeAt. by destruct (aget_is_Some (current st) (cursor st - 1 - k)) as [c ->]; [lia|].
Qed.

(** ** The cache *)

Section cache.
Context (stem : t → outcome (t * bool)) (f : jsstr → jsstr).
(** [stem] returns, turns a word into [f] of it whatever was stemmed before, and
    leaves the cache alone. *)
Hypothesis stem_word : ∀ st w, ∃ st' b, stem (setCurrent st w) = Ret (st', b) ∧ current st' = f w ∧ cache st' = cache st.

Definition cached (st : t) : Prop := ∀ w r, Obj.get (cache st) (jstr "." ++ w) = Some r → r = f w.

Lemma stemWord_spec st w : cached st → ∃ st', stemWord stem st w = Ret (st', f w) ∧ cached st'.
Proof.
  intros Hc. unfold stemWord. destruct (Obj.get (cache st) (jstr "." ++ w)) as [r|] eqn:Hr.
  { rewrite (Hc w r Hr). eauto. }
  destruct (stem_word st w) as (st' & b & -> & Hcur & Hcache). cbn [mbind outcome_bind]. unfold getCurrent. rewrite Hcur.
  eexists. split; [done|]. intros w' r'. cbn [set_cache cache]. rewrite Obj.get_put. case_decide as Heq.
  - apply app_inv_head in Heq as ->. by intros [= <-].
  - rewrite Hcache. apply Hc.
Qed.

Lemma stemWords_spec st ws : cached st → ∃ st', stemWords stem st ws = Ret (st', f <$> ws) ∧ cached st'.
Proof.
  intros Hc. assert (∀ rs, ∃ st', ofold (λ '(st, results) word,
      '(st, result) ← stemWord stem st word; Ret (st, results ++ [result])) (st, rs) ws = Ret (st', rs ++ (f <$> ws)) ∧ cached st') as H.
  { revert st Hc. induction ws as [|w ws IH]; intros st Hc rs; [rewrite app_nil_r; eauto|]. cbn [ofold].
    destruct (stemWord_spec st w Hc) as (st1 & -> & Hc1). cbn [mbind outcome_bind]. rewrite fmap_cons.
    destruct (IH st1 Hc1 (rs ++ [f w])) as (st' & -> & Hc'). rewrite <- app_assoc. eauto. }
  apply (H []).
Qed.
End cache.

#[global] Instance proper_dec key (a b : Among) : Decision (proper key a b).
Proof. unfold proper. apply _. Defined.
#[global] Instance linked_dec key v (w : Among) : Decision (linked key v w).
Proof. unfold linked. destruct (aget v (substring_i w)); apply _. Defined.
#[global] Instance table_ok_dec key (v : list Among) : Decision (table_ok key v).
Proof. unfold table_ok. apply _. Defined.

(** Over a table that is sorted and linked as the generated ones are, the
    binary searches find the longest entry that follows the cursor, for
    [find_among], or that ends at it, for [find_among_b]: they move the cursor
    over it and return its result, or return [0] if there is none. *)
Theorem among_search (st : t) (v vb : list Among) :
  inside st → methodless v → methodless vb → 0 < zlen v < 2 ^ 31 → 0 < zlen vb < 2 ^ 31 →
  table_ok s v → table_ok (λ w, reverse (s w)) vb →
  (∃ r, find_among st v (zlen v) = Ret (matched st (λ w, cursor st + s_size w) r) ∧
     longest (text_ahead st) s v r) ∧
  (∃ r, find_among_b st vb (zlen vb) = Ret (matched st (λ w, cursor st - s_size w) r) ∧
     longest (text_behind st) (λ w, reverse (s w)) vb r).
Proof. intros. split; [by apply find_among_spec|by apply find_among_b_spec]. Qed.

End Stemmer.
Arguments t : clear implicits.
Arguments Among : clear implicits.

(** The endings [a], [b], [ab] and [ba] in a word with the cursor in the middle. *)
Definition sample_table (l : list (string * Z * Z)) : list (Among ()) :=
  (λ '(x, i, r), {| s := jstr x; substring_i := i; result := r; method := None |}) <$> l.

Lemma among_search_witness :
  let st := set_cursor (setCurrent (new ()) (jstr "xabaz")) 3 in
  let v := sample_table [("a", -1, 1); ("ab", 0, 2); ("az", 0, 3); ("b", -1, 4)]%string in
  let vb := sample_table [("a", -1, 1); ("ba", 0, 2); ("b", -1, 3); ("ab", 2, 4)]%string in
  (∃ r, find_among st v (zlen v) = Ret (matched st (λ w, cursor st + s_size w) r) ∧ longest (text_ahead st) s v r) ∧
  (∃ r, find_among_b st vb (zlen vb) = Ret (matched st (λ w, cursor st - s_size w) r) ∧
     longest (text_behind st) (λ w, reverse (s w)) vb r).
Proof.
  apply (among_search (set_cursor (setCurrent (new ()) (jstr "xabaz")) 3)).
  - split; split; vm_compute; congruence.
  - repeat constructor.
  - repeat constructor.
  - split; vm_compute; reflexivity.
  - split; vm_compute; reflexivity.
  - apply (bool_decide_unpack _). vm_compute. exact I.
  - apply (bool_decide_unpack _). vm_compute. exact I.
Defined.

End Stemmer.
