(* ===== verification/Swedish.v ===== *)
(** * The Swedish stemmer

    Model of [src/misc/oktavia/src/stemmer/swedish-stemmer.jsx], one of the
    stemmers that were generated from Snowball scripts.  The generated code moves
    a cursor, limits and a slice over the word; the reference algorithm below
    works on whole words.  The theorems show that the code computes the reference
    algorithm, so that what a stemmer stemmed before does not matter, and that a
    stem is a prefix of its word. *)

From S2P Require Import Prelude JsObject Suffixes BaseStemmer.

Local Open Scope Z_scope.

Module Swedish.
Import Stemmer.

(** ** Model *)

Record fields := { I_x : Z; I_p1 : Z }.

Abbreviation state := (Stemmer.t fields).

Definition among (s : jsstr) (substring_i result : Z) : Among fields :=
  {| s := s; substring_i := substring_i; result := result; method := None |}.

Definition a_0 : list (Among fields) :=
  [among (jstr "a") (-1) 1;
   among (jstr "arna") 0 1;
   among (jstr "erna") 0 1;
   among (jstr "heterna") 2 1;
   among (jstr "orna") 0 1;
   among (jstr "ad") (-1) 1;
   among (jstr "e") (-1) 1;
   among (jstr "ade") 6 1;
   among (jstr "ande") 6 1;
   among (jstr "arne") 6 1;
   among (jstr "are") 6 1;
   among (jstr "aste") 6 1;
   among (jstr "en") (-1) 1;
   among (jstr "anden") 12 1;
   among (jstr "aren") 12 1;
   among (jstr "heten") 12 1;
   among (jstr "ern") (-1) 1;
   among (jstr "ar") (-1) 1;
   among (jstr "er") (-1) 1;
   among (jstr "heter") 18 1;
   among (jstr "or") (-1) 1;
   among (jstr "s") (-1) 2;
   among (jstr "as") 21 1;
   among (jstr "arnas") 22 1;
   among (jstr "ernas") 22 1;
   among (jstr "ornas") 22 1;
   among (jstr "es") 21 1;
   among (jstr "ades") 26 1;
   among (jstr "andes") 26 1;
   among (jstr "ens") 21 1;
   among (jstr "arens") 29 1;
   among (jstr "hetens") 29 1;
   among (jstr "erns") 21 1;
   among (jstr "at") (-1) 1;
   among (jstr "andet") (-1) 1;
   among (jstr "het") (-1) 1;
   among (jstr "ast") (-1) 1].

Definition a_1 : list (Among fields) :=
  [among (jstr "dd") (-1) (-1);
   among (jstr "gd") (-1) (-1);
   among (jstr "nn") (-1) (-1);
   among (jstr "dt") (-1) (-1);
   among (jstr "gt") (-1) (-1);
   among (jstr "kt") (-1) (-1);
   among (jstr "tt") (-1) (-1)].

Definition a_2 : list (Among fields) :=
  [among (jstr "ig") (-1) 1;
   among (jstr "lig") 0 1;
   among (jstr "els") (-1) 1;
   among (jstr "fullt") (-1) 3;
   among [108; 246; 115; 116] (-1) 2].

Definition g_v : list Z := [17; 65; 16; 1; 0; 0; 0; 0; 0; 0; 0; 0; 0; 0; 0; 0; 24; 0; 32].
Definition g_s_ending : list Z := [119; 127; 149].

Definition set_x (st : state) (x : Z) : state := set_own st {| I_x := x; I_p1 := I_p1 (own st) |}.
Definition set_p1 (st : state) (p1 : Z) : state := set_own st {| I_x := I_x (own st); I_p1 := p1 |}.

Definition copy_from (st other : state) : state :=
  Stemmer.copy_from (set_own st {| I_x := I_x (own other); I_p1 := I_p1 (own other) |}) other.

(** [goto]: up to the next character of the group, [false] if there is none. *)
Fixpoint golab0 (fuel : nat) (st : state) : outcome (state * bool) :=
  match fuel with
  | O => NoFuel
  | S fuel =>
    let v_2 := cursor st in
    '(st, b) ← in_grouping st g_v 97 246;
    let st := set_cursor st v_2 in
    if (b : bool) then Ret (st, true)
    else if decide (limit st ≤ cursor st) then Ret (st, false)
    else golab0 fuel (set_cursor st (cursor st + 1))
  end.

(** [gopast]: past the next character outside the group. *)
Fixpoint golab2 (fuel : nat) (st : state) : outcome (state * bool) :=
  match fuel with
  | O => NoFuel
  | S fuel =>
    '(st, b) ← out_grouping st g_v 97 246;
    if (b : bool) then Ret (st, true)
    else if decide (limit st ≤ cursor st) then Ret (st, false)
    else golab2 fuel (set_cursor st (cursor st + 1))
  end.

Definition r_mark_regions (st : state) : outcome (state * bool) :=
  let fuel := S (length (current st)) in
  let st := set_p1 st (limit st) in
  let v_1 := cursor st in
  let c := cursor st + 3 in
  if decide (0 > c ∨ c > limit st) then Ret (st, false)
  else
    let st := set_cursor st c in
    let st := set_x st (cursor st) in
    let st := set_cursor st v_1 in
    '(st, b) ← golab0 fuel st;
    if negb b then Ret (st, false)
    else
      '(st, b) ← golab2 fuel st;
      if negb b then Ret (st, false)
      else
        let st := set_p1 st (cursor st) in
        let st := if decide (I_p1 (own st) < I_x (own st)) then set_p1 st (I_x (own st)) else st in
        Ret (st, true).

Definition r_main_suffix (st : state) : outcome (state * bool) :=
  let v_1 := limit st - cursor st in
  if decide (cursor st < I_p1 (own st)) then Ret (st, false)
  else
    let st := set_cursor st (I_p1 (own st)) in
    let v_2 := limit_backward st in
    let st := set_limit_backward st (cursor st) in
    let st := set_cursor st (limit st - v_1) in
    let st := set_slice st (bra st) (cursor st) in
    '(st, among_var) ← find_among_b st a_0 37;
    if decide (among_var = 0) then Ret (set_limit_backward st v_2, false)
    else
      let st := set_slice st (cursor st) (ket st) in
      let st := set_limit_backward st v_2 in
      if decide (among_var = 1) then
        let '(st, b) := slice_del st in
        if negb b then Ret (st, false) else Ret (st, true)
      else if decide (among_var = 2) then
        '(st, b) ← in_grouping_b st g_s_ending 98 121;
        if negb b then Ret (st, false)
        else
          let '(st, b) := slice_del st in
          if negb b then Ret (st, false) else Ret (st, true)
      else Ret (st, true).

Definition r_consonant_pair (st : state) : outcome (state * bool) :=
  let v_1 := limit st - cursor st in
  if decide (cursor st < I_p1 (own st)) then Ret (st, false)
  else
    let st := set_cursor st (I_p1 (own st)) in
    let v_2 := limit_backward st in
    let st := set_limit_backward st (cursor st) in
    let st := set_cursor st (limit st - v_1) in
    let v_3 := limit st - cursor st in
    '(st, among_var) ← find_among_b st a_1 7;
    if decide (among_var = 0) then Ret (set_limit_backward st v_2, false)
    else
      let st := set_cursor st (limit st - v_3) in
      let st := set_slice st (bra st) (cursor st) in
      if decide (cursor st ≤ limit_backward st) then Ret (set_limit_backward st v_2, false)
      else
        let st := set_cursor st (cursor st - 1) in
        let st := set_slice st (cursor st) (ket st) in
        let '(st, b) := slice_del st in
        if negb b then Ret (st, false) else Ret (set_limit_backward st v_2, true).

Definition r_other_suffix (st : state) : outcome (state * bool) :=
  let v_1 := limit st - cursor st in
  if decide (cursor st < I_p1 (own st)) then Ret (st, false)
  else
    let st := set_cursor st (I_p1 (own st)) in
    let v_2 := limit_backward st in
    let st := set_limit_backward st (cursor st) in
    let st := set_cursor st (limit st - v_1) in
    let st := set_slice st (bra st) (cursor st) in
    '(st, among_var) ← find_among_b st a_2 5;
    if decide (among_var = 0) then Ret (set_limit_backward st v_2, false)
    else
      let st := set_slice st (cursor st) (ket st) in
      let '(st, b) :=
        if decide (among_var = 1) then slice_del st
        else if decide (among_var = 2) then slice_from st [108; 246; 115]
        else if decide (among_var = 3) then slice_from st (jstr "full")
        else (st, true) in
      if negb b then Ret (st, false) else Ret (set_limit_backward st v_2, true).

Definition stem (st : state) : outcome (state * bool) :=
  let v_1 := cursor st in
  '(st, _) ← r_mark_regions st;
  let st := set_cursor st v_1 in
  let st := set_limit_backward st (cursor st) in
  let st := set_cursor st (limit st) in
  let v_2 := limit st - cursor st in
  '(st, _) ← r_main_suffix st;
  let st := set_cursor st (limit st - v_2) in
  let v_3 := limit st - cursor st in
  '(st, _) ← r_consonant_pair st;
  let st := set_cursor st (limit st - v_3) in
  let v_4 := limit st - cursor st in
  '(st, _) ← r_other_suffix st;
  let st := set_cursor st (limit st - v_4) in
  Ret (set_cursor st (limit_backward st), true).

Definition new : state := Stemmer.new {| I_x := 0; I_p1 := 0 |}.

(** ** The reference algorithm *)

(** [aeiouyäåö], and the letters after which a final [s] is an ending. *)
Definition vowel (c : Z) : bool := bool_decide (c ∈ jstr "aeiouy" ++ [228; 229; 246]).
Definition s_ending (c : Z) : bool := bool_decide (c ∈ jstr "bcdfghjklmnoprtvy").

Fixpoint skip (P : Z → bool) (w : jsstr) : jsstr :=
  match w with
  | c :: w' => if P c then skip P w' else w
  | [] => []
  end.

(** Where the region of the endings starts: after the first vowel that a
    consonant follows, and after that consonant, but not before the fourth
    letter; at the end of the word if there is no such place. *)
Definition region (w : jsstr) : Z :=
  if decide (zlen w < 3) then zlen w
  else
    match skip vowel (skip (λ c, negb (vowel c)) w) with
    | [] => zlen w
    | _ :: rest => Z.max 3 (zlen w - zlen rest)
    end.

(** The longest entry of a table that is a suffix of [r]. *)
Fixpoint best (v : list (Among fields)) (r : jsstr) : option (Among fields) :=
  match v with
  | [] => None
  | w :: v =>
    match best v r with
    | Some w' => if decide (s w `suffix_of` r ∧ s_size w' < s_size w) then Some w else Some w'
    | None => if decide (s w `suffix_of` r) then Some w else None
    end
  end.

Definition cut (w : jsstr) (n : Z) : jsstr := take (Z.to_nat (zlen w - n)) w.

(** Whether the last letter lets a following [s] be an ending. *)
Definition before_s (w : jsstr) : bool := match last w with Some c => s_ending c | None => false end.

Definition main_suffix (p1 : Z) (w : jsstr) : jsstr :=
  match best a_0 (drop (Z.to_nat p1) w) with
  | None => w
  | Some e =>
    if decide (result e = 1) then cut w (s_size e)
    else if before_s (cut w (s_size e)) then cut w (s_size e)
    else w
  end.

Definition consonant_pair (p1 : Z) (w : jsstr) : jsstr :=
  match best a_1 (drop (Z.to_nat p1) w) with None => w | Some _ => cut w 1 end.

Definition other_suffix (p1 : Z) (w : jsstr) : jsstr :=
  match best a_2 (drop (Z.to_nat p1) w) with
  | None => w
  | Some e => cut w (if decide (result e = 1) then s_size e else 1)
  end.

Definition stem_of (w : jsstr) : jsstr :=
  let p1 := region w in other_suffix p1 (consonant_pair p1 (main_suffix p1 w)).

(** ** The tables *)

Definition from_end (e : Among fields) : jsstr := reverse (s e).

Lemma a_0_ok : table_ok from_end a_0.
Proof. apply (bool_decide_unpack _). vm_compute. exact I. Qed.

Lemma a_1_ok : table_ok from_end a_1.
Proof. apply (bool_decide_unpack _). vm_compute. exact I. Qed.

Lemma a_2_ok : table_ok from_end a_2.
Proof. apply (bool_decide_unpack _). vm_compute. exact I. Qed.

(** The bit tables are the letters. *)
Definition in_group (g : list Z) (min max c : Z) : bool :=
  negb (bool_decide (max < c ∨ c < min)) && negb (bool_decide (group_bit g (c - min) = 0)).

Lemma group_letters g min max (P : Z → bool) c :
  forallb (λ c, eqb (in_group g min max c) (P c)) (seqZ min (max + 1 - min)) = true →
  (P c = true → min ≤ c ≤ max) → in_group g min max c = P c.
Proof.
  intros Hall HP. destruct (decide (min ≤ c ≤ max)) as [Hc|Hc].
  - rewrite forallb_forall in Hall. apply eqb_prop, Hall. apply list_elem_of_In, elem_of_seqZ. lia.
  - unfold in_group. rewrite bool_decide_eq_true_2 by lia. destruct (P c); [exfalso; auto|done].
Qed.

Lemma letters_range (l : list Z) (min max c : Z) :
  forallb (λ c, bool_decide (min ≤ c ≤ max)) l = true → c ∈ l → min ≤ c ≤ max.
Proof. rewrite forallb_forall. intros Hl Hc. apply (bool_decide_eq_true_1 (min ≤ c ≤ max)). by apply Hl, list_elem_of_In. Qed.

Lemma vowel_group c : in_group g_v 97 246 c = vowel c.
Proof.
  apply group_letters; [vm_compute; done|]. unfold vowel. rewrite bool_decide_eq_true. apply letters_range. done.
Qed.

Lemma s_ending_group c : in_group g_s_ending 98 121 c = s_ending c.
Proof.
  apply group_letters; [vm_compute; done|]. unfold s_ending. rewrite bool_decide_eq_true. apply letters_range. done.
Qed.

(** *** The longest ending *)

Lemma best_longest v r : longest (reverse r) from_end v (best v r).
Proof.
  assert (∀ e, s e `suffix_of` r ↔ from_end e `prefix_of` reverse r) as Hpre by (intros e; apply suffix_prefix_reverse).
  induction v as [|w v IH]; cbn [best]; [intros w Hw; by apply elem_of_nil in Hw|].
  destruct (best v r) as [w'|]; cbn [longest] in *.
  - destruct IH as (Hin & Hp & Hmax). case_decide as Hd; rewrite Hpre in Hd; cbn [longest];
      (split_and!; [set_solver|naive_solver|]); intros w2 [->|Hw2]%elem_of_cons HT.
    + done.
    + specialize (Hmax w2 Hw2 HT). lia.
    + destruct (decide (s_size w' < s_size w)); [naive_solver|lia].
    + by apply Hmax.
  - case_decide as Hd; rewrite Hpre in Hd; cbn [longest].
    + split_and!; [set_solver|done|]. intros w2 [->|Hw2]%elem_of_cons HT; [done|]. by destruct (IH w2 Hw2).
    + intros w2 [->|Hw2]%elem_of_cons; [done|by apply IH].
Qed.

Lemma longest_best v r o : table_ok from_end v → longest (reverse r) from_end v o → o = best v r.
Proof.
  intros [Hsort _] Ho. pose proof (best_longest v r) as Hb. destruct o as [w|], (best v r) as [w'|]; cbn [longest] in *; [|naive_solver..|done].
  destruct Ho as (Hin & Hp & Hmax), Hb as (Hin' & Hp' & Hmax'). f_equal.
  assert (from_end w = from_end w') as Heq.
  { assert (∀ a b : Among fields, from_end a `prefix_of` reverse r → from_end b `prefix_of` reverse r → s_size a ≤ s_size b → from_end a `prefix_of` from_end b) as Hpre.
    { intros a b Ha Hb Hle. destruct (prefix_weak_total _ _ _ Ha Hb) as [?|Hba]; [done|]. apply prefix_length_eq in Hba; [by rewrite Hba|].
      apply prefix_length in Hba. unfold from_end, s_size, zlen in *. rewrite !length_reverse in *. lia. }
    apply (anti_symm prefix); apply Hpre; auto. }
  apply elem_of_aget in Hin as [i Hi], Hin' as [j Hj].
  destruct (Z.lt_total i j) as [Hlt|[->|Hlt]]; [|congruence|];
    [pose proof (sorted_lex from_end v i j w w' Hsort Hi Hj Hlt) as Hlex|pose proof (sorted_lex from_end v j i w' w Hsort Hj Hi Hlt) as Hlex];
    rewrite Heq in Hlex; by apply lex_irrefl in Hlex.
Qed.

(** ** The code computes the reference algorithm *)

(** The word, the region and the cache of a stemmer between two steps. *)
Definition body (st : state) (w : jsstr) (p1 : Z) (m : list (jsstr * jsstr)) : Prop :=
  current st = w ∧ limit st = zlen w ∧ limit_backward st = 0 ∧ I_p1 (own st) = p1 ∧ cache st = m.

Lemma ending_found (st : state) v w p1 :
  current st = w → cursor st = zlen w → limit st = zlen w → limit_backward st = p1 → 0 ≤ p1 ≤ zlen w →
  table_ok from_end v → methodless v → 0 < zlen v < 2 ^ 31 →
  find_among_b st v (zlen v) = Ret (matched st (λ e, zlen w - s_size e) (best v (drop (Z.to_nat p1) w))).
Proof.
  intros Hw Hc Hl Hlb Hp1 Hv Hm Hn. destruct (find_among_b_spec st v) as (r & -> & Hr); [|done..|].
  { split; rewrite ?Hw, ?Hc, ?Hl, ?Hlb; lia. }
  rewrite Hc. do 2 f_equal. apply longest_best; [done|]. unfold text_behind in Hr. rewrite Hw, Hc, Hlb in Hr.
  rewrite slice_range in Hr by lia. rewrite take_ge in Hr; [done|]. rewrite length_drop. unfold zlen. lia.
Qed.

Lemma best_fits v w p1 e :
  0 ≤ p1 ≤ zlen w → best v (drop (Z.to_nat p1) w) = Some e →
  e ∈ v ∧ 0 ≤ s_size e ≤ zlen w - p1 ∧ w = cut w (s_size e) ++ s e.
Proof.
  intros Hp1 He. pose proof (best_longest v (drop (Z.to_nat p1) w)) as Hl. rewrite He in Hl. destruct Hl as (Hin & Hp & _).
  assert (s e `suffix_of` drop (Z.to_nat p1) w) as [k Hk] by by apply suffix_prefix_reverse.
  assert (zlen (drop (Z.to_nat p1) w) = zlen k + s_size e) as Hlen by (rewrite Hk, zlen_app; done).
  rewrite zlen_drop in Hlen. pose proof (zlen_nonneg k). pose proof (zlen_nonneg (s e)). unfold s_size in *.
  split_and!; [done|lia|lia|]. rewrite <- (take_drop (Z.to_nat p1) w) at 1. rewrite Hk, app_assoc. f_equal. unfold cut.
  rewrite <- (take_drop (Z.to_nat p1) w) at 3. rewrite Hk, app_assoc. symmetry. rewrite take_app_le.
  - apply take_ge. rewrite length_app, length_take. unfold zlen in *. lia.
  - rewrite length_app, length_take. unfold zlen in *. lia.
Qed.

Lemma slice_from_end (st : state) w (x : jsstr) b :
  current st = w → limit st = zlen w → bra st = b → ket st = zlen w → 0 ≤ b ≤ zlen w →
  ∃ st', slice_from st x = (st', true) ∧ current st' = take (Z.to_nat b) w ++ x ∧ limit st' = b + zlen x ∧
    limit_backward st' = limit_backward st ∧ own st' = own st ∧ cache st' = cache st.
Proof.
  intros Hw Hl Hb Hk Hr. unfold slice_from, slice_check. rewrite Hw, Hl, Hb, Hk.
  rewrite !bool_decide_eq_false_2 by lia. cbn [orb negb]. eexists. split; [done|]. cbn.
  rewrite Hw, Hl. split_and!; [|lia|done..]. rewrite !slice_range by lia. rewrite Z.sub_diag, Z.sub_0_r. cbn [Z.to_nat drop take].
  by rewrite app_nil_r.
Qed.

Lemma results v (P : Z → bool) e : forallb (λ e : Among fields, P (result e)) v = true → e ∈ v → P (result e) = true.
Proof. rewrite forallb_forall. intros Hv He. by apply Hv, list_elem_of_In. Qed.

Lemma zlen_cut w n : 0 ≤ n ≤ zlen w → zlen (cut w n) = zlen w - n.
Proof. intros Hn. unfold cut. rewrite zlen_take. lia. Qed.

Lemma s_ending_spec (st : state) w n :
  current st = w → cursor st = zlen w - n → limit_backward st = 0 → 0 ≤ n ≤ zlen w →
  ∃ st', in_grouping_b st g_s_ending 98 121 = Ret (st', before_s (cut w n)) ∧
    st' = set_cursor st (cursor st').
Proof.
  intros Hw Hc Hlb Hn. unfold in_grouping_b, before_s. rewrite Hw, Hc, Hlb.
  assert (st = set_cursor st (cursor st)) as Hst by by destruct st. case_decide as Hz.
  - assert (cut w n = []) as ->; [|by eauto]. apply nil_length_inv. pose proof (zlen_cut w n Hn). unfold zlen in *. lia.
  - destruct (aget_is_Some w (zlen w - n - 1)) as [c Hlast]; [lia|]. unfold charCodeAt. rewrite Hlast. cbn [of_option mbind outcome_bind].
    assert (last (cut w n) = Some c) as ->.
    { rewrite last_lookup, <- Hlast, aget_nonneg by lia. unfold cut. rewrite length_take.
      rewrite lookup_take_lt; [f_equal|]; unfold zlen in *; lia. }
    rewrite <- s_ending_group. unfold in_group. destruct (decide (121 < c ∨ c < 98)) as [Hr|Hr].
    + rewrite bool_decide_eq_true_2 by done. eauto.
    + rewrite bool_decide_eq_false_2 by done. destruct (decide (group_bit g_s_ending (c - 98) = 0)).
      * rewrite bool_decide_eq_true_2 by done. eauto.
      * rewrite bool_decide_eq_false_2 by done. by eexists.
Qed.

(** The slice from [zlen w - n] to the end is replaced. *)
Definition sliced (st : state) (w : jsstr) (n p1 : Z) (m : list (jsstr * jsstr)) : Prop :=
  current st = w ∧ limit st = zlen w ∧ I_p1 (own st) = p1 ∧ cache st = m ∧ bra st = zlen w - n ∧ ket st = zlen w.

Lemma replace_end st w (x : jsstr) n p1 m :
  sliced st w n p1 m → 0 ≤ n ≤ zlen w → ∃ st', slice_from st x = (st', true) ∧ limit_backward st' = limit_backward st ∧
    (∀ lb, lb = 0 → body (set_limit_backward st' lb) (cut w n ++ x) p1 m) ∧
    (limit_backward st = 0 → body st' (cut w n ++ x) p1 m).
Proof.
  intros (Hw & Hl & Hp & Hm & Hb & Hk) Hn.
  destruct (slice_from_end st w x (zlen w - n)) as (st' & Hs & Hc' & Hl' & Hlb' & Ho' & Hm'); [done..|lia|].
  exists st'. assert (limit st' = zlen (cut w n ++ x)) as Hz by (rewrite Hl', zlen_app, zlen_cut; lia).
  split_and!; [done..| |]; [intros lb ->|intros H0]; (split_and!; [exact Hc'|exact Hz|cbn; congruence..]).
Qed.

(** The search in the state [st1], where the cursor is at the end of [w] and the
    limit at the region. *)
Ltac search_table st1 v w p1 ok :=
  let H := fresh in
  assert (current st1 = w ∧ cursor st1 = zlen w ∧ limit st1 = zlen w ∧ limit_backward st1 = p1) as H
    by (split_and!; cbn; [done|lia..|done|done]);
  destruct H as (Hst1w & Hst1c & Hst1l & Hst1b);
  rewrite (ending_found st1 v w p1) by (done || exact ok || (repeat constructor) || (vm_compute; done)).

Lemma main_step st w p1 m :
  body st w p1 m → cursor st = zlen w → 0 ≤ p1 ≤ zlen w →
  ∃ st' b, r_main_suffix st = Ret (st', b) ∧ body st' (main_suffix p1 w) p1 m ∧ p1 ≤ zlen (main_suffix p1 w).
Proof.
  intros (Hw & Hl & Hlb & Hp & Hm) Hc Hp1. unfold r_main_suffix. rewrite Hc, Hp, decide_False by lia.
  set (st1 := set_slice _ _ _).
  change 37 with (zlen a_0). search_table st1 a_0 w p1 a_0_ok.
  unfold main_suffix. destruct (best a_0 (drop (Z.to_nat p1) w)) as [e|] eqn:He; cbn [matched mbind outcome_bind].
  2:{ rewrite decide_True by done. do 2 eexists. split; [done|]. split; [|lia]. by split_and!. }
  destruct (best_fits a_0 w p1 e Hp1 He) as (Hin & Hsz & _).
  pose proof (results a_0 (λ r, bool_decide (r = 1 ∨ r = 2)) e ltac:(done) Hin) as Hres. apply bool_decide_eq_true in Hres.
  rewrite decide_False by lia. set (st2 := set_limit_backward _ _).
  assert (sliced st2 w (s_size e) p1 m) as Hs2 by (split_and!; cbn; [done|done|done|done|done|lia]).
  pose proof (zlen_cut w (s_size e) ltac:(lia)) as Hcut.
  destruct (decide (result e = 1)) as [H1|H1].
  - destruct (replace_end st2 w [] (s_size e) p1 m Hs2) as (st' & Hdel & _ & _ & Hb); [lia|]. unfold slice_del. rewrite Hdel.
    cbn [negb]. rewrite app_nil_r in Hb. do 2 eexists. split; [done|]. split; [by apply Hb|lia].
  - rewrite decide_True by lia. destruct (s_ending_spec st2 w (s_size e)) as (st3 & -> & Hst3); [done..|lia|].
    cbn [mbind outcome_bind]. destruct (before_s (cut w (s_size e))); cbn [negb].
    + assert (sliced st3 w (s_size e) p1 m) as Hs3 by (rewrite Hst3; exact Hs2).
      destruct (replace_end st3 w [] (s_size e) p1 m Hs3) as (st' & Hdel & _ & _ & Hb); [lia|]. unfold slice_del. rewrite Hdel.
      cbn [negb]. rewrite app_nil_r in Hb. do 2 eexists. split; [done|]. split; [apply Hb; by rewrite Hst3|lia].
    + do 2 eexists. split; [done|]. split; [|lia]. rewrite Hst3. by split_and!.
Qed.

Lemma pair_step st w p1 m :
  body st w p1 m → cursor st = zlen w → 0 ≤ p1 ≤ zlen w →
  ∃ st' b, r_consonant_pair st = Ret (st', b) ∧ body st' (consonant_pair p1 w) p1 m ∧ p1 ≤ zlen (consonant_pair p1 w).
Proof.
  intros (Hw & Hl & Hlb & Hp & Hm) Hc Hp1. unfold r_consonant_pair. rewrite Hc, Hp, decide_False by lia.
  set (st1 := set_cursor (set_limit_backward _ _) _).
  change 7 with (zlen a_1). search_table st1 a_1 w p1 a_1_ok.
  unfold consonant_pair. destruct (best a_1 (drop (Z.to_nat p1) w)) as [e|] eqn:He; cbn [matched mbind outcome_bind].
  2:{ rewrite decide_True by done. do 2 eexists. split; [done|]. split; [|lia]. by split_and!. }
  destruct (best_fits a_1 w p1 e Hp1 He) as (Hin & Hsz & _).
  pose proof (results a_1 (λ r, bool_decide (r = -1)) e ltac:(done) Hin) as Hres. apply bool_decide_eq_true in Hres.
  assert (s_size e = 2) as Hsz2.
  { apply (bool_decide_eq_true_1 (s_size e = 2)). pose proof (proj1 (forallb_forall (λ e : Among fields, bool_decide (s_size e = 2)) a_1)) as Hall.
    apply Hall; [done|by apply list_elem_of_In]. }
  rewrite decide_False by lia. cbn [limit cursor limit_backward set_slice set_cursor set_current st1 set_limit_backward].
  rewrite decide_False by lia. set (st2 := set_slice _ _ _).
  assert (sliced st2 w 1 p1 m) as Hs2 by (split_and!; cbn; [done|done|done|done|lia..]).
  destruct (replace_end st2 w [] 1 p1 m Hs2) as (st' & Hdel & _ & Hb & _); [lia|]. unfold slice_del. rewrite Hdel.
  cbn [negb]. rewrite app_nil_r in Hb. do 2 eexists. split; [done|]. split; [by apply Hb|]. rewrite zlen_cut; lia.
Qed.

Lemma cut_last (w a x : jsstr) c : w = a ++ x ++ [c] → cut w 1 = a ++ x.
Proof.
  intros ->. unfold cut. rewrite app_assoc. rewrite zlen_app, zlen_cons, zlen_nil.
  replace (Z.to_nat _) with (length (a ++ x)) by (unfold zlen; lia). apply take_app_length.
Qed.

Lemma other_step st w p1 m :
  body st w p1 m → cursor st = zlen w → 0 ≤ p1 ≤ zlen w →
  ∃ st' b, r_other_suffix st = Ret (st', b) ∧ body st' (other_suffix p1 w) p1 m ∧ p1 ≤ zlen (other_suffix p1 w).
Proof.
  intros (Hw & Hl & Hlb & Hp & Hm) Hc Hp1. unfold r_other_suffix. rewrite Hc, Hp, decide_False by lia.
  set (st1 := set_slice _ _ _). change 5 with (zlen a_2). search_table st1 a_2 w p1 a_2_ok.
  unfold other_suffix. destruct (best a_2 (drop (Z.to_nat p1) w)) as [e|] eqn:He; cbn [matched mbind outcome_bind].
  2:{ rewrite decide_True by done. do 2 eexists. split; [done|]. split; [|lia]. by split_and!. }
  destruct (best_fits a_2 w p1 e Hp1 He) as (Hin & Hsz & Heq).
  set (st2 := set_slice _ _ _).
  assert (sliced st2 w (s_size e) p1 m) as Hs2 by (split_and!; cbn; [done|done|done|done|done|lia]).
  enough (∃ x, (if decide (result e = 1) then slice_del st2 else if decide (result e = 2) then slice_from st2 [108; 246; 115]
      else if decide (result e = 3) then slice_from st2 (jstr "full") else (st2, true)) = slice_from st2 x ∧ result e ≠ 0 ∧
      cut w (s_size e) ++ x = cut w (if decide (result e = 1) then s_size e else 1) ∧ 1 ≤ s_size e) as (x & -> & H0 & Hx & H1).
  { rewrite decide_False by done. destruct (replace_end st2 w x (s_size e) p1 m Hs2) as (st' & -> & _ & Hb & _); [lia|].
    cbn [negb]. rewrite Hx in Hb. do 2 eexists. split; [done|]. split; [by apply Hb|]. rewrite zlen_cut; case_decide; lia. }
  unfold a_2 in Hin. repeat (apply elem_of_cons in Hin as [->|Hin]); try by apply elem_of_nil in Hin.
  1-3: exists []; by rewrite app_nil_r.
  - exists (jstr "full"). split_and!; [done..| |done]. symmetry. by apply (cut_last _ _ (jstr "full") 116).
  - exists [108; 246; 115]. split_and!; [done..| |done]. symmetry. by apply (cut_last _ _ [108; 246; 115] 116).
Qed.

(** *** The region *)

(** The cursor stands between [a] and [r]. *)
Definition between (st : state) (a r : jsstr) : Prop :=
  current st = a ++ r ∧ cursor st = zlen a ∧ limit st = zlen (a ++ r).

Lemma grouping_at st a r :
  between st a r →
  in_grouping st g_v 97 246 =
    Ret (match r with c :: _ => if vowel c then (set_cursor st (zlen a + 1), true) else (st, false) | [] => (st, false) end) ∧
  out_grouping st g_v 97 246 =
    Ret (match r with c :: _ => if vowel c then (st, false) else (set_cursor st (zlen a + 1), true) | [] => (st, false) end).
Proof.
  intros (Hcur & Hc & Hl). unfold in_grouping, out_grouping. rewrite Hcur, Hc, Hl, zlen_app. destruct r as [|c r].
  { rewrite !decide_True by (rewrite zlen_nil; lia). done. }
  rewrite zlen_cons. pose proof (zlen_nonneg r). rewrite !(decide_False (P := _ ≤ zlen a)) by lia.
  unfold charCodeAt. rewrite aget_app_r, Z.sub_diag by lia. change (aget (c :: r) 0) with (Some c). cbn [of_option mbind outcome_bind].
  rewrite <- vowel_group. unfold in_group. destruct (decide (246 < c ∨ c < 97)) as [Hr|Hr].
  - rewrite bool_decide_eq_true_2 by done. done.
  - rewrite bool_decide_eq_false_2 by done. destruct (decide (group_bit g_v (c - 97) = 0)) as [Hg|Hg].
    + by rewrite bool_decide_eq_true_2.
    + by rewrite bool_decide_eq_false_2.
Qed.

Lemma between_step st a c r : between st a (c :: r) → between (set_cursor st (zlen a + 1)) (a ++ [c]) r.
Proof.
  intros (Hcur & Hc & Hl). unfold between. rewrite <- app_assoc. split_and!; [done| |done].
  cbn. rewrite zlen_app, zlen_cons, zlen_nil. lia.
Qed.

Lemma set_cursor_twice (st : state) c c' : set_cursor (set_cursor st c) c' = set_cursor st c'.
Proof. done. Qed.

Lemma golab0_spec fuel st a r :
  between st a r → (length r < fuel)%nat →
  let rest := skip (λ c, negb (vowel c)) r in
  golab0 fuel st = Ret (set_cursor st (zlen (a ++ r) - zlen rest), bool_decide (rest ≠ [])).
Proof.
  revert st a r. induction fuel as [|fuel IH]; intros st a r Hb Hf; [lia|]. cbn [golab0].
  rewrite (proj1 (grouping_at st a r Hb)). cbn [mbind outcome_bind]. pose proof Hb as (Hcur & Hc & Hl).
  destruct r as [|c r]; cbn [skip].
  - rewrite app_nil_r in *. cbn [limit set_cursor cursor set_current]. rewrite Hc, Hl, decide_True by lia. do 3 f_equal. rewrite zlen_nil. lia.
  - destruct (vowel c) eqn:Hv; cbn [negb].
    + rewrite set_cursor_twice, Hc. do 3 f_equal. rewrite zlen_app. lia.
    + rewrite set_cursor_twice. cbn [limit set_cursor cursor set_current].
      rewrite Hc, Hl, decide_False by (rewrite zlen_app, zlen_cons; pose proof (zlen_nonneg r); lia).
      change (set_current _ _ _ _) with (set_cursor st (zlen a + 1)). cbn [length] in Hf.
      rewrite (IH _ _ _ (between_step _ _ _ _ Hb)) by lia. rewrite <- app_assoc. done.
Qed.

Lemma golab2_spec fuel st a r :
  between st a r → (length r < fuel)%nat →
  golab2 fuel st =
    match skip vowel r with
    | [] => Ret (set_cursor st (zlen (a ++ r)), false)
    | _ :: rest => Ret (set_cursor st (zlen (a ++ r) - zlen rest), true)
    end.
Proof.
  revert st a r. induction fuel as [|fuel IH]; intros st a r Hb Hf; [lia|]. cbn [golab2].
  rewrite (proj2 (grouping_at st a r Hb)). cbn [mbind outcome_bind]. pose proof Hb as (Hcur & Hc & Hl).
  destruct r as [|c r]; cbn [skip].
  - rewrite app_nil_r in *. rewrite Hc, Hl, decide_True by lia. do 2 f_equal. rewrite <- Hc. by destruct st.
  - destruct (vowel c) eqn:Hv.
    + rewrite Hc, Hl, decide_False by (rewrite zlen_app, zlen_cons; pose proof (zlen_nonneg r); lia). cbn [length] in Hf.
      rewrite (IH _ _ _ (between_step _ _ _ _ Hb)) by lia. rewrite <- app_assoc. done.
    + do 3 f_equal. rewrite zlen_app, zlen_cons. lia.
Qed.

Lemma skip_suffix P w : ∃ a, w = a ++ skip P w.
Proof.
  induction w as [|c w [a IH]]; [by exists []|]. cbn [skip]. destruct (P c); [|by exists []].
  exists (c :: a). cbn. by rewrite <- IH.
Qed.

Lemma mark_step st w :
  current st = w → cursor st = 0 → limit st = zlen w →
  ∃ st' b, r_mark_regions st = Ret (st', b) ∧ current st' = w ∧ limit st' = zlen w ∧
    limit_backward st' = limit_backward st ∧ cache st' = cache st ∧ I_p1 (own st') = region w.
Proof.
  intros Hw Hc Hl. unfold r_mark_regions, region. cbn [set_p1 set_own limit cursor]. rewrite Hc, Hl, Z.add_0_l, Hw.
  destruct (decide (zlen w < 3)); [rewrite decide_True by lia; do 2 eexists; split_and!; done|]. rewrite decide_False by lia.
  set (st1 := set_cursor _ 0). destruct (skip_suffix (λ c, negb (vowel c)) w) as [a Ha].
  assert (between st1 [] w) as Hb1 by (split_and!; done).
  rewrite (golab0_spec _ _ _ _ Hb1) by lia. cbn [mbind outcome_bind app].
  set (r1 := skip (λ c, negb (vowel c)) w) in *. case_bool_decide as Hr1; cbn [negb].
  2:{ rewrite Hr1. cbn [skip]. do 2 eexists. split_and!; done. }
  set (st2 := set_cursor st1 _).
  assert (between st2 a r1) as Hb2.
  { split_and!; [by rewrite <- Ha| |by rewrite <- Ha]. cbn. rewrite Ha at 1. rewrite zlen_app. lia. }
  rewrite (golab2_spec _ _ _ _ Hb2) by (apply (f_equal length) in Ha; rewrite length_app in Ha; lia). rewrite <- Ha.
  destruct (skip vowel r1) as [|c r2]; cbn [mbind outcome_bind negb]; [do 2 eexists; split_and!; done|].
  do 2 eexists. split; [done|]. cbn [set_p1 set_own own I_p1 I_x set_cursor set_current cursor st2 st1 set_x].
  case_decide; split_and!; try done; cbn; lia.
Qed.

Lemma region_bounds w : Z.min 3 (zlen w) ≤ region w ≤ zlen w.
Proof.
  unfold region. pose proof (zlen_nonneg w). case_decide; [lia|]. destruct (skip_suffix (λ c, negb (vowel c)) w) as [a Ha].
  destruct (skip_suffix vowel (skip (λ c, negb (vowel c)) w)) as [a' Ha']. destruct (skip vowel _) as [|c r]; [lia|].
  rewrite Ha' in Ha. apply (f_equal zlen) in Ha. rewrite !zlen_app, zlen_cons in Ha.
  pose proof (zlen_nonneg r). pose proof (zlen_nonneg a). pose proof (zlen_nonneg a'). lia.
Qed.

Lemma body_end st w p1 m c : body st w p1 m → body (set_cursor st c) w p1 m.
Proof. done. Qed.

(** [stem] computes the reference algorithm; what the stemmer held before does
    not matter. *)
Lemma stem_spec (st : state) w :
  (∃ st' b, stem (setCurrent st w) = Ret (st', b) ∧ current st' = stem_of w ∧ cache st' = cache st) ∧
  Z.min 3 (zlen w) ≤ zlen (stem_of w).
Proof.
  unfold stem. destruct (mark_step (setCurrent st w) w) as (st1 & b1 & -> & Hw & Hl & Hlb & Hm & Hp); [done..|].
  cbn [mbind outcome_bind]. set (st2 := set_cursor _ (limit _)).
  pose proof (region_bounds w) as Hr. pose proof (zlen_nonneg w).
  assert (body st2 w (region w) (cache st)) as Hb2 by by split_and!.
  destruct (main_step st2 w (region w) (cache st) Hb2) as (st3 & b3 & -> & Hb3 & Hle3); [done|lia|]. cbn [mbind outcome_bind].
  set (w3 := main_suffix _ _) in *. pose proof Hb3 as (_ & Hl3 & _).
  set (st4 := set_cursor st3 _). assert (cursor st4 = zlen w3) as Hc4 by (cbn; lia).
  destruct (pair_step st4 w3 (region w) (cache st)) as (st5 & b5 & -> & Hb5 & Hle5); [by apply body_end|done|lia|]. cbn [mbind outcome_bind].
  set (w5 := consonant_pair _ _) in *. pose proof Hb5 as (_ & Hl5 & _).
  set (st6 := set_cursor st5 _). assert (cursor st6 = zlen w5) as Hc6 by (cbn; lia).
  destruct (other_step st6 w5 (region w) (cache st)) as (st7 & b7 & -> & (Hw7 & _ & _ & _ & Hm7) & Hle7); [by apply body_end|done|lia|].
  cbn [mbind outcome_bind]. split; [by do 2 eexists|]. change (region w ≤ zlen (stem_of w)) in Hle7. lia.
Qed.

Lemma cut_word_prefix w n : cut w n `prefix_of` w.
Proof. apply prefix_take. Qed.

Lemma stem_of_prefix w : stem_of w `prefix_of` w.
Proof.
  assert (∀ p1 w, main_suffix p1 w `prefix_of` w ∧ consonant_pair p1 w `prefix_of` w ∧ other_suffix p1 w `prefix_of` w) as H.
  { clear w. intros p1 w. unfold main_suffix, consonant_pair, other_suffix.
    split_and!; repeat case_match; try case_decide; try (by apply cut_word_prefix); done. }
  unfold stem_of. etrans; [apply H|]. etrans; apply H.
Qed.

(** C27: One stemmer that stems any words one after the other returns the stems
    that the reference algorithm gives, however the words repeat. *)
Theorem swedish_stems ws w :
  ∃ st st', stemWords stem new ws = Ret (st, stem_of <$> ws) ∧ stemWord stem st w = Ret (st', stem_of w).
Proof.
  pose proof (λ st w, proj1 (stem_spec st w)) as Hstem.
  destruct (stemWords_spec stem stem_of Hstem new ws) as (st & Hws & Hc); [done|].
  destruct (stemWord_spec stem stem_of Hstem st w Hc) as (st' & Hw & _). eauto.
Qed.

(** A Swedish stem is a prefix of its word that has at least three letters,
    unless the word is shorter. *)
Theorem swedish_stem_prefix st w :
  ∃ st' b, stem (setCurrent st w) = Ret (st', b) ∧ current st' `prefix_of` w ∧ Z.min 3 (zlen w) ≤ zlen (current st').
Proof.
  destruct (stem_spec st w) as [(st' & b & Hs & Hcur & _) Hlen]. exists st', b. rewrite Hcur.
  split_and!; [done|apply stem_of_prefix|done].
Qed.

End Swedish.
