(* ===== verification/Snowball.v ===== *)
(** * The statements of the generated stemmers

    The stemmers in [src/misc/oktavia/src/stemmer] were compiled from Snowball
    scripts, and their methods are made of a few forms of statements: labelled
    blocks that run once ([lab: while (lab == true) { lab = false; ... }]), loops
    without a condition, breaks and returns, tests that move the cursor over what
    they match, and assignments to the cursor, to the limits, to the slice and to
    the fields.  Here are these forms, as functions on the state of [BaseStemmer],
    and the rules to reason about them.

    The rules follow two runs at once, from states that differ only in the cache
    and in the fields of the subclass: both return, and in the same way.  So they
    show that a method returns and that it does not depend on what was stemmed
    before. *)

From S2P Require Import Prelude JsObject Suffixes BaseStemmer.

Local Open Scope Z_scope.

(** ** String literals *)

Definition hex_digit (c : Z) : Z := if decide (c < 58) then c - 48 else c - 55.

(** The escapes [\uXXXX] of a literal, with upper case digits. *)
Fixpoint unescape (l : jsstr) : jsstr :=
  match l with
  | 92 :: 117 :: a :: b :: c :: d :: l =>
    (hex_digit a * 4096 + hex_digit b * 256 + hex_digit c * 16 + hex_digit d) :: unescape l
  | c :: l => c :: unescape l
  | [] => []
  end.

Definition lit (s : string) : jsstr := unescape (jstr s).

Declare Scope snow_scope.
Delimit Scope snow_scope with snow.

Module Snow.
Import Stemmer.
Section Snow.
Context {X : Type}.
Abbreviation state := (Stemmer.t X).

(** ** Statements *)

(** How a statement ends: by its end, or by a jump. *)
Inductive flow :=
  | Next
  | Break (l : nat)
  | Continue (l : nat)
  | Return (b : bool).

Definition code : Type := state → outcome (state * flow).
Definition test : Type := state → outcome (state * bool).

Definition seq (a b : code) : code := λ st,
  '(st, f) ← a st;
  match f with Next => b st | _ => Ret (st, f) end.

Definition break_ (l : nat) : code := λ st, Ret (st, Break l).
Definition continue_ (l : nat) : code := λ st, Ret (st, Continue l).
Definition return_ (b : bool) : code := λ st, Ret (st, Return b).

(** A local variable that is assigned once on the way to its uses. *)
Definition local (e : state → Z) (k : Z → code) : code := λ st, k (e st) st.

Definition when (e : state → bool) (c : code) : code := λ st, if e st then c st else Ret (st, Next).

(** [if (!t) c]. *)
Definition unless (t : test) (c : code) : code := λ st,
  '(st, b) ← t st;
  if (b : bool) then Ret (st, Next) else c st.

(** [v = find], where [find] is a search of a table. *)
Definition found (find : state → outcome (state * Z)) (k : Z → code) : code := λ st,
  '(st, r) ← find st;
  k r st.

(** The end of a block [l], from inside it or by its end. *)
Definition leave (l : nat) (f : flow) : flow :=
  match f with Break l' => if Nat.eqb l l' then Next else f | _ => f end.

(** [lab: while (lab == true) { lab = false; c }]. *)
Definition block (l : nat) (c : code) : code := λ st, '(st, f) ← c st; Ret (st, leave l f).

(** [lab: while (true) { c }], with a variable [v] that every [continue] follows
    a [v--]. *)
Fixpoint iterate (fuel : nat) (l : nat) (c : code) (v : Z) : state → outcome (state * (Z * flow)) := λ st,
  match fuel with
  | O => NoFuel
  | S fuel =>
    '(st, f) ← c st;
    match f with
    | Next => iterate fuel l c v st
    | Continue l' => if Nat.eqb l l' then iterate fuel l c (v - 1) st else Ret (st, (v, f))
    | _ => Ret (st, (v, leave l f))
    end
  end.

Definition at_least (v : Z) (l : nat) (c : code) (k : Z → code) : code := λ st,
  '(st, r) ← iterate (S (length (current st))) l c v st;
  match r.2 with Next => k r.1 st | f => Ret (st, f) end.

Definition forever (l : nat) (c : code) : code := at_least 0 l c (λ _ st, Ret (st, Next)).

Fixpoint switch (v : Z) (cases : list (Z * code)) : code :=
  match cases with
  | [] => λ st, Ret (st, Next)
  | (n, c) :: cases => if decide (v = n) then c else switch v cases
  end.

(** The body of a method, whose end no run reaches. *)
Definition method (c : code) : test := λ st,
  '(st, f) ← c st;
  match f with Return b => Ret (st, b) | _ => Undef end.

(** *** Assignments *)

Definition update (f : state → state) : code := λ st, Ret (f st, Next).

Definition from_end (st : state) : Z := limit st - cursor st.
Definition cursor_to (v : Z) : code := update (λ st, set_cursor st v).
Definition cursor_back (v : Z) : code := update (λ st, set_cursor st (limit st - v)).
Definition cursor_limit : code := update (λ st, set_cursor st (limit st)).
Definition cursor_backward : code := update (λ st, set_cursor st (limit_backward st)).
Definition cursor_mark (f : X → Z) : code := update (λ st, set_cursor st (f (own st))).
Definition cursor_next : code := update (λ st, set_cursor st (cursor st + 1)).
Definition cursor_prev : code := update (λ st, set_cursor st (cursor st - 1)).
Definition backward_to (v : Z) : code := update (λ st, set_limit_backward st v).
Definition backward_cursor : code := update (λ st, set_limit_backward st (cursor st)).
Definition bra_cursor : code := update (λ st, set_slice st (cursor st) (ket st)).
Definition ket_cursor : code := update (λ st, set_slice st (bra st) (cursor st)).
Definition insert_here (s : jsstr) : code := update (λ st, insert st (cursor st) (cursor st) s).
(** An assignment to a field. *)
Definition put (e : state → X) : code := update (λ st, set_own st (e st)).

(** *** Tests *)

Definition call (m : test) : test := m.
Definition grouping (s : list Z) (min max : Z) : test := λ st, in_grouping st s min max.
Definition grouping_b (s : list Z) (min max : Z) : test := λ st, in_grouping_b st s min max.
Definition non_grouping (s : list Z) (min max : Z) : test := λ st, out_grouping st s min max.
Definition non_grouping_b (s : list Z) (min max : Z) : test := λ st, out_grouping_b st s min max.
Definition equal (n : Z) (s : jsstr) : test := λ st, Ret (eq_s st n s).
Definition equal_b (n : Z) (s : jsstr) : test := λ st, Ret (eq_s_b st n s).
Definition field_b (f : X → jsstr) : test := λ st, Ret (eq_v_b st (f (own st))).
Definition among (v : list (Among X)) (n : Z) : state → outcome (state * Z) := λ st, find_among st v n.
Definition among_b (v : list (Among X)) (n : Z) : state → outcome (state * Z) := λ st, find_among_b st v n.
(** [find(v, n) == 0] fails. *)
Definition some (find : state → outcome (state * Z)) : test := λ st, '(st, r) ← find st; Ret (st, negb (r =? 0)).
Definition replace (s : jsstr) : test := λ st, Ret (slice_from st s).
Definition delete : test := λ st, Ret (slice_del st).

End Snow.
Arguments code : clear implicits.
Arguments test : clear implicits.

Definition entry {X} (x : jsstr) (i r : Z) : Among X :=
  {| s := x; substring_i := i; result := r; Stemmer.method := None |}.
Definition entry_if {X} (x : jsstr) (i r : Z) (m : test X) : Among X :=
  {| s := x; substring_i := i; result := r; Stemmer.method := Some m |}.
End Snow.

Notation "a ;; b" := (Snow.seq a b) (at level 100, b at level 200, right associativity) : snow_scope.
Notation "'var' v ':=' e ;; k" := (Snow.local e (λ v, k))
  (at level 100, v name, e at level 99, k at level 200, right associativity) : snow_scope.
Notation "'var' v 'in' e ;; k" := (Snow.found e (λ v, k))
  (at level 100, v name, e at level 99, k at level 200, right associativity) : snow_scope.
