(* ===== verification/SnowballRules.v ===== *)
(** * Rules for the statements of the stemmers

    [wp c p x x2 Q] follows the statement [c] from two states that are at the same
    place [p], have the caches [m] and [m2] and the fields [x] and [x2]: both runs
    return at the same place, end in the same way, leave the caches alone, and
    [Q] holds there.  There is a rule for each form of statement, and the tactic
    [snow] applies them.

    The classes [Moves] and [Edits] are what a method promises to its callers: to
    move the cursor only, or to change the text between a limit and the cursor.
    An instance for each method is what the theorems about a stemmer are made of. *)

From S2P Require Import Prelude JsObject Suffixes BaseStemmer Snowball.

Local Open Scope Z_scope.

Module Rules.
Import Stemmer Snow.

(** A place: the text, the cursor, the limits and the slice. *)
Record place := At { text : jsstr; cur : Z; lim : Z; low : Z; left : Z; right : Z }.

Section Rules.
Context {X : Type}.

Definition put_at (p : place) (m : list (jsstr * jsstr)) (x : X) : Stemmer.t X :=
  {| current := text p; cursor := cur p; limit := lim p; limit_backward := low p; bra := left p; ket := right p; cache := m; own := x |}.

Definition move (p : place) (c : Z) : place := At (text p) c (lim p) (low p) (left p) (right p).

(** Every place a stemmer gets to is inside its text. *)
Definition ok (p : place) : Prop := 0 ≤ low p ≤ cur p ∧ cur p ≤ lim p ∧ lim p = zlen (text p).

(** Forwards the cursor does not fall behind, backwards its distance to the end
    does not shrink. *)
Inductive dir := Forward | Backward.

Definition ahead (d : dir) (p p' : place) : Prop :=
  match d with Forward => cur p ≤ cur p' | Backward => lim p - cur p ≤ lim p' - cur p' end.

Definition between (d : dir) (p : place) (c : Z) : Prop :=
  match d with Forward => cur p ≤ c ≤ lim p | Backward => low p ≤ c ≤ cur p end.

(** What is left to go, and bounds the rounds of a loop. *)
Definition to_go (d : dir) (p : place) : Z :=
  match d with Forward => lim p - cur p | Backward => cur p - low p end.

(** Some stemmers mark letters as consonants by writing them in upper case, and undo
    this at the end; these loops end because fewer of the letters are left. *)
Fixpoint weight (L : list Z) (t : jsstr) : Z :=
  match t with [] => 0 | c :: t => (if decide (c ∈ L) then 1 else 0) + weight L t end.

Definition lower_letters : list Z := [105; 117; 121].
Definition upper_letters : list Z := [89].

Lemma weight_app L t t' : weight L (t ++ t') = weight L t + weight L t'.
Proof. induction t as [|c t IH]; cbn [app weight]; lia. Qed.

Lemma weight_range L t : 0 ≤ weight L t ≤ zlen t.
Proof. induction t as [|c t IH]; cbn [weight]; [done|]. rewrite zlen_cons. case_decide; lia. Qed.

Lemma slice_parts {A} (t : list A) b k :
  0 ≤ b ≤ k → k ≤ zlen t → t = js_slice t 0 b ++ js_slice t b k ++ js_slice t k (zlen t).
Proof.
  intros. pose proof (zlen_nonneg t). rewrite !slice_range by lia. change (Z.to_nat 0) with 0%nat. rewrite drop_0, !Z.sub_0_r.
  rewrite (take_ge (drop (Z.to_nat k) t)) by (rewrite length_drop; unfold zlen in *; lia).
  replace (drop (Z.to_nat k) t) with (drop (Z.to_nat (k - b)) (drop (Z.to_nat b) t)); [by rewrite !take_drop|].
  rewrite drop_drop. f_equal. lia.
Qed.

Lemma weight_replaced L t s b k :
  0 ≤ b ≤ k → k ≤ zlen t → weight L (js_slice t 0 b ++ s ++ js_slice t k (zlen t)) = weight L t - weight L (js_slice t b k) + weight L s.
Proof.
  intros Hb Hk. pose proof (f_equal (weight L) (slice_parts t b k Hb Hk)) as H. rewrite !weight_app in *. lia.
Qed.

Abbreviation related := (Z → X → X → Prop).

Section wp.
Context (m m2 : list (jsstr * jsstr)).

Definition post : Type := flow → place → X → X → Prop.

Definition wp (c : code X) (p : place) (x x2 : X) (Q : post) : Prop :=
  ∃ f p' x' x2', c (put_at p m x) = Ret (put_at p' m x', f) ∧ c (put_at p m2 x2) = Ret (put_at p' m2 x2', f) ∧ Q f p' x' x2'.

Definition andthen (c : code X) (Q : post) : post := λ f p x x2,
  match f with Next => wp c p x x2 Q | _ => Q f p x x2 end.

Lemma wp_seq a b p x x2 Q : wp a p x x2 (andthen b Q) → wp (seq a b) p x x2 Q.
Proof.
  intros (f & p' & x' & x2' & H1 & H2 & HQ). unfold wp, seq. rewrite H1, H2. cbn [mbind outcome_bind].
  destruct f; cbn [andthen] in HQ; [exact HQ|by eexists _, _, _, _..].
Qed.

Lemma wp_mono c p x x2 (Q Q' : post) : (∀ f p' x' x2', Q f p' x' x2' → Q' f p' x' x2') → wp c p x x2 Q → wp c p x x2 Q'.
Proof. intros HQ (f & p' & x' & x2' & H1 & H2 & H). exists f, p', x', x2'. auto. Qed.

Lemma wp_break l p x x2 (Q : post) : Q (Break l) p x x2 → wp (break_ l) p x x2 Q.
Proof. intros. by eexists _, _, _, _. Qed.
Lemma wp_continue l p x x2 (Q : post) : Q (Continue l) p x x2 → wp (continue_ l) p x x2 Q.
Proof. intros. by eexists _, _, _, _. Qed.
Lemma wp_return b p x x2 (Q : post) : Q (Return b) p x x2 → wp (return_ b) p x x2 Q.
Proof. intros. by eexists _, _, _, _. Qed.

Lemma wp_local e k p x x2 Q :
  e (put_at p m2 x2) = e (put_at p m x) → (∀ v, v = e (put_at p m x) → wp (k v) p x x2 Q) → wp (local e k) p x x2 Q.
Proof. intros He H. unfold wp, local. rewrite He. by apply H. Qed.

Lemma wp_when e c p x x2 (Q : post) :
  e (put_at p m2 x2) = e (put_at p m x) →
  (e (put_at p m x) = true → wp c p x x2 Q) → (e (put_at p m x) = false → Q Next p x x2) → wp (when e c) p x x2 Q.
Proof.
  intros He Ht Hf. unfold wp, when. rewrite He. destruct (e (put_at p m x)); [by apply Ht|]. eexists _, _, _, _. auto.
Qed.

(** *** Tests and searches *)

Lemma wp_unless_bool t c p x x2 (Q : post) p' x' x2' (b : bool) :
  t (put_at p m x) = Ret (put_at p' m x', b) → t (put_at p m2 x2) = Ret (put_at p' m2 x2', b) →
  (b = true → Q Next p' x' x2') → (b = false → wp c p' x' x2' Q) → wp (unless t c) p x x2 Q.
Proof.
  intros H1 H2 Ht Hf. unfold wp, unless. rewrite H1, H2. cbn [mbind outcome_bind]. destruct b; [|by apply Hf].
  eexists _, _, _, _. auto.
Qed.

Lemma wp_found find k p x x2 Q p' x' x2' r :
  find (put_at p m x) = Ret (put_at p' m x', r) → find (put_at p m2 x2) = Ret (put_at p' m2 x2', r) →
  wp (k r) p' x' x2' Q → wp (found find k) p x x2 Q.
Proof. intros H1 H2 H. unfold wp, found. rewrite H1, H2. exact H. Qed.

Fixpoint other (v : Z) (cases : list (Z * code X)) : Prop :=
  match cases with [] => True | (n, _) :: cases => v ≠ n ∧ other v cases end.

Lemma wp_switch v cases p x x2 (Q : post) :
  Forall (λ '(n, c), v = n → wp c p x x2 Q) cases → (other v cases → Q Next p x x2) → wp (switch v cases) p x x2 Q.
Proof.
  induction cases as [|[n c] cases IH]; intros Hc Hn; cbn [switch].
  { eexists _, _, _, _. split_and!; [done..|]. by apply Hn. }
  apply Forall_cons in Hc as [Hc Hcs]. case_decide; [auto|]. apply IH; [done|]. intros. apply Hn. by split.
Qed.

(** *** Blocks and loops *)

(** With [J] where the ways to the end of the block meet. *)
Definition block_post (l : nat) (J : place → X → X → Prop) (Q : post) : post := λ f p x x2,
  match leave l f with Next => J p x x2 | f => Q f p x x2 end.

Lemma wp_block J l c p x x2 (Q : post) :
  wp c p x x2 (block_post l J Q) → (∀ p' x' x2', J p' x' x2' → Q Next p' x' x2') → wp (block l c) p x x2 Q.
Proof.
  intros (f & p' & x' & x2' & H1 & H2 & HQ) HJ. unfold wp, block. rewrite H1, H2. cbn [mbind outcome_bind].
  eexists _, _, _, _. split_and!; [done..|]. unfold block_post in HQ. destruct (leave l f); auto.
Qed.

Definition through (l : nat) (Q : post) : post := λ f, Q (leave l f).

Lemma wp_block_through l c p x x2 (Q : post) :
  wp c p x x2 (through l Q) → wp (block l c) p x x2 Q.
Proof.
  intros (f & p' & x' & x2' & H1 & H2 & HQ). unfold wp, block. rewrite H1, H2. cbn [mbind outcome_bind]. by eexists _, _, _, _.
Qed.

(** A round of a loop with the invariant [I] ends the loop or gets closer to its end. *)
Definition round_post (l : nat) (μ : place → Z) (I : place → X → X → Prop) (p0 : place) (Q : post) : post := λ f p x x2,
  match f with
  | Next => I p x x2 ∧ μ p < μ p0
  | Continue l' => if Nat.eqb l l' then I p x x2 ∧ μ p < μ p0 else Q f p x x2
  | _ => Q (leave l f) p x x2
  end.

Definition rounds_post (k : Z → code X) (Q : post) : post := λ f p x x2,
  match f with Next => ∀ v, wp (k v) p x x2 Q | _ => Q f p x x2 end.

Lemma iterate_spec l μ I c (Q : post) fuel v p x x2 :
  (∀ p x x2, I p x x2 → 0 ≤ μ p) →
  (∀ p x x2, I p x x2 → wp c p x x2 (round_post l μ I p Q)) →
  I p x x2 → μ p < Z.of_nat fuel →
  ∃ v' f p' x' x2', iterate fuel l c v (put_at p m x) = Ret (put_at p' m x', (v', f)) ∧
    iterate fuel l c v (put_at p m2 x2) = Ret (put_at p' m2 x2', (v', f)) ∧ Q f p' x' x2'.
Proof.
  intros Hok Hc. revert v p x x2. induction fuel as [|fuel IH]; intros v p x x2 HI Hfuel; cbn [iterate].
  { apply Hok in HI. lia. }
  destruct (Hc p x x2 HI) as (f & p' & x' & x2' & -> & -> & HQ). destruct f as [|l'|l'|b]; cbn [mbind outcome_bind round_post] in *.
  - destruct HQ. apply IH; [done|lia].
  - by eexists _, _, _, _, _.
  - destruct (Nat.eqb l l'); [destruct HQ; apply IH; [done|lia]|]. by eexists _, _, _, _, _.
  - by eexists _, _, _, _, _.
Qed.

Lemma wp_at_least μ I v l c k p x x2 (Q : post) :
  (∀ p x x2, I p x x2 → 0 ≤ μ p ≤ zlen (text p)) → I p x x2 →
  (∀ p x x2, I p x x2 → wp c p x x2 (round_post l μ I p (rounds_post k Q))) → wp (at_least v l c k) p x x2 Q.
Proof.
  intros Hok HI Hc. unfold wp, at_least.
  destruct (iterate_spec l μ I c (rounds_post k Q) (S (length (text p))) v p x x2) as (v' & f & p' & x' & x2' & H1 & H2 & HQ).
  { intros ??? ?%Hok. lia. }
  { done. }
  { done. }
  { apply Hok in HI. unfold zlen in HI. lia. }
  cbn [put_at current] in *. rewrite H1, H2. cbn [mbind outcome_bind fst snd]. destruct f; cbn [rounds_post] in HQ.
  - apply HQ.
  - by eexists _, _, _, _.
  - by eexists _, _, _, _.
  - by eexists _, _, _, _.
Qed.

Lemma wp_forever μ I l c p x x2 (Q : post) :
  (∀ p x x2, I p x x2 → 0 ≤ μ p ≤ zlen (text p)) → I p x x2 →
  (∀ p x x2, I p x x2 → wp c p x x2 (round_post l μ I p Q)) → wp (forever l c) p x x2 Q.
Proof.
  intros Hok HI Hc. apply (wp_at_least μ I); [done..|]. intros p1 x1 x21 HI1. eapply wp_mono; [|by apply Hc].
  intros f p2 x' x2' H. assert (∀ f', Q f' p2 x' x2' → rounds_post (λ _ st, Ret (st, Next)) Q f' p2 x' x2') as HQ.
  { intros [| | |] HQ; try done. intros v. by eexists _, _, _, _. }
  destruct f; cbn [round_post] in *; auto.
Qed.

(** *** Assignments *)

Section assignments.
Context (t : jsstr) (c l lb b k : Z) (x x2 : X) (Q : post).

Lemma wp_cursor_to v : Q Next (At t v l lb b k) x x2 → wp (cursor_to v) (At t c l lb b k) x x2 Q.
Proof. intros. by eexists _, (At _ _ _ _ _ _), _, _. Qed.
Lemma wp_cursor_back v : Q Next (At t (l - v) l lb b k) x x2 → wp (cursor_back v) (At t c l lb b k) x x2 Q.
Proof. intros. by eexists _, (At _ _ _ _ _ _), _, _. Qed.
Lemma wp_cursor_limit : Q Next (At t l l lb b k) x x2 → wp cursor_limit (At t c l lb b k) x x2 Q.
Proof. intros. by eexists _, (At _ _ _ _ _ _), _, _. Qed.
Lemma wp_cursor_backward : Q Next (At t lb l lb b k) x x2 → wp cursor_backward (At t c l lb b k) x x2 Q.
Proof. intros. by eexists _, (At _ _ _ _ _ _), _, _. Qed.
Lemma wp_cursor_mark f : f x2 = f x → Q Next (At t (f x) l lb b k) x x2 → wp (cursor_mark f) (At t c l lb b k) x x2 Q.
Proof.
  intros Hf HQ. eexists _, (At t (f x) l lb b k), x, x2. split_and!; [reflexivity| |exact HQ].
  unfold cursor_mark, update. cbn. by rewrite Hf.
Qed.
Lemma wp_cursor_next : Q Next (At t (c + 1) l lb b k) x x2 → wp cursor_next (At t c l lb b k) x x2 Q.
Proof. intros. by eexists _, (At _ _ _ _ _ _), _, _. Qed.
Lemma wp_cursor_prev : Q Next (At t (c - 1) l lb b k) x x2 → wp cursor_prev (At t c l lb b k) x x2 Q.
Proof. intros. by eexists _, (At _ _ _ _ _ _), _, _. Qed.
Lemma wp_backward_to v : Q Next (At t c l v b k) x x2 → wp (backward_to v) (At t c l lb b k) x x2 Q.
Proof. intros. by eexists _, (At _ _ _ _ _ _), _, _. Qed.
Lemma wp_backward_cursor : Q Next (At t c l c b k) x x2 → wp backward_cursor (At t c l lb b k) x x2 Q.
Proof. intros. by eexists _, (At _ _ _ _ _ _), _, _. Qed.
Lemma wp_bra_cursor : Q Next (At t c l lb c k) x x2 → wp bra_cursor (At t c l lb b k) x x2 Q.
Proof. intros. by eexists _, (At _ _ _ _ _ _), _, _. Qed.
Lemma wp_ket_cursor : Q Next (At t c l lb b c) x x2 → wp ket_cursor (At t c l lb b k) x x2 Q.
Proof. intros. by eexists _, (At _ _ _ _ _ _), _, _. Qed.
Lemma wp_put e : Q Next (At t c l lb b k) (e (put_at (At t c l lb b k) m x)) (e (put_at (At t c l lb b k) m2 x2)) →
  wp (put e) (At t c l lb b k) x x2 Q.
Proof. intros. by eexists _, (At _ _ _ _ _ _), _, _. Qed.

(** Text of the length [n] for the slice. *)
Definition cursor_after (n c' : Z) : Prop :=
  k ≤ c ∧ c' = c + (n - (k - b)) ∨ c < k ∧ b < c ∧ c' = b ∨ c ≤ b ∧ c < k ∧ c' = c.

Hypothesis inside : 0 ≤ c ≤ l ∧ l = zlen t.

Lemma replaced (s : jsstr) b' k' :
  0 ≤ b' ≤ k' → k' ≤ l → zlen (js_slice t 0 b' ++ s ++ js_slice t k' (zlen t)) = l + (zlen s - (k' - b')).
Proof. intros. rewrite !zlen_app, !zlen_slice by lia. lia. Qed.

Lemma slice_valid m' x' : 0 ≤ b ≤ k → k ≤ l → slice_check (put_at (At t c l lb b k) m' x') = true.
Proof. intros. unfold slice_check. cbn. rewrite !bool_decide_eq_false_2 by lia. done. Qed.

Lemma wp_replace s d :
  0 ≤ b ≤ k → k ≤ l →
  (∀ t' c', zlen t' = l + (zlen s - (k - b)) → cursor_after (zlen s) c' →
     (∀ L, weight L t' = weight L t - weight L (js_slice t b k) + weight L s) →
     Q Next (At t' c' (l + (zlen s - (k - b))) lb b k) x x2) →
  wp (unless (replace s) d) (At t c l lb b k) x x2 Q.
Proof.
  intros Hb Hk HQ. set (t' := js_slice t 0 b ++ s ++ js_slice t k (zlen t)).
  set (c' := if decide (k ≤ c) then c + (zlen s - (k - b)) else if decide (b < c) then b else c).
  eapply (wp_unless_bool _ _ _ _ _ _ (At t' c' (l + (zlen s - (k - b))) lb b k) x x2 true); [| |intros _|done].
  - unfold replace, slice_from. by rewrite slice_valid by lia.
  - unfold replace, slice_from. by rewrite slice_valid by lia.
  - apply HQ; [by apply replaced| |by intros; apply weight_replaced; lia]. unfold cursor_after, c'. repeat case_decide; lia.
Qed.

Lemma wp_delete d :
  0 ≤ b ≤ k → k ≤ l →
  (∀ t' c', zlen t' = l - (k - b) → cursor_after 0 c' → Q Next (At t' c' (l - (k - b)) lb b k) x x2) →
  wp (unless delete d) (At t c l lb b k) x x2 Q.
Proof.
  intros ?? HQ. apply (wp_replace []); [done..|]. change (zlen (@nil Z)) with 0. replace (l + (0 - (k - b))) with (l - (k - b)) by lia. auto.
Qed.

Lemma wp_insert_here s :
  (∀ t' b' k' n, 0 ≤ n → zlen t' = l + n → Q Next (At t' (c + n) (l + n) lb b' k') x x2) →
  wp (insert_here s) (At t c l lb b k) x x2 Q.
Proof.
  intros HQ. set (t' := js_slice t 0 c ++ s ++ js_slice t c (zlen t)).
  set (b' := if decide (c ≤ b) then b + (zlen s - (c - c)) else b). set (k' := if decide (c ≤ k) then k + (zlen s - (c - c)) else k).
  eexists Next, (At t' (c + zlen s) (l + zlen s) lb b' k'), x, x2.
  split_and!; [| |apply HQ; [apply zlen_nonneg|unfold t'; rewrite replaced; lia]]; unfold insert_here, update, insert, replace_s; cbn;
    rewrite !(decide_True (P := c ≤ c)) by lia; unfold set_slice, set_current, put_at; cbn; do 3 f_equal; lia.
Qed.

End assignments.
End wp.

(** ** Tests *)

(** A test that moves the cursor if and only if it succeeds, and reads no field. *)
Class Steps (d : dir) (t : test X) : Prop :=
  steps : ∀ p, ok p → ∃ c b, (∀ m x, t (put_at p m x) = Ret (put_at (move p c) m x, b)) ∧ between d p c ∧ (b = true ↔ c ≠ cur p).

(** A method that moves the cursor, from fields that are related by [R]. *)
Class Moves (d : dir) (R : related) (t : test X) : Prop :=
  moves : ∀ m m2 p x x2, ok p → R (low p) x x2 → ∃ c b, t (put_at p m x) = Ret (put_at (move p c) m x, b) ∧
    t (put_at p m2 x2) = Ret (put_at (move p c) m2 x2, b) ∧ between d p c.

(** A method that changes the text on its way, and relates the fields by [R']. *)
Definition edited (d : dir) (R : related) (p p' : place) (x x2 : X) : Prop :=
  ok p' ∧ low p' = low p ∧ ahead d p p' ∧ R (low p) x x2.

(** Nothing is known of the fields. *)
Definition any : related := λ _ _ _, True.

(** Nothing was assigned to the fields. *)
Definition same (x x2 : X) : related := λ _ x' x2', x' = x ∧ x2' = x2.

(** Where the ways out of a block meet.  A block that edits the slice it was entered
    with ([outer]) may stop at the end of this slice; after a block that is
    followed by an edit ([keep]) the end of the slice is valid, and not farther to
    the right. *)
Definition joined (outer keep : bool) (R : related) (p p' : place) (x x2 : X) : Prop :=
  ok p' ∧ low p' = low p ∧ (if outer then lim p - right p ≤ lim p' - cur p' else lim p - cur p ≤ lim p' - cur p') ∧ R (low p) x x2 ∧
  (if keep then cur p' ≤ right p' ≤ lim p' ∧ lim p - right p ≤ lim p' - right p' else True).

Class Edits (d : dir) (R R' : related) (t : test X) : Prop :=
  edits : ∀ m m2 p x x2, ok p → R (low p) x x2 → ∃ p' x' x2' b, t (put_at p m x) = Ret (put_at p' m x', b) ∧
    t (put_at p m2 x2) = Ret (put_at p' m2 x2', b) ∧ edited d R' p p' x' x2'.

(** *** Characters *)

Definition char_step (d : dir) (P : Z → bool) (st : Stemmer.t X) : outcome (Stemmer.t X * bool) :=
  match d with
  | Forward =>
    if decide (limit st ≤ cursor st) then Ret (st, false)
    else ch ← of_option (charCodeAt (current st) (cursor st)); Ret (if P ch then (set_cursor st (cursor st + 1), true) else (st, false))
  | Backward =>
    if decide (cursor st ≤ limit_backward st) then Ret (st, false)
    else ch ← of_option (charCodeAt (current st) (cursor st - 1)); Ret (if P ch then (set_cursor st (cursor st - 1), true) else (st, false))
  end.

Lemma move_same p : move p (cur p) = p.
Proof. by destruct p. Qed.

Lemma char_steps d P (t : test X) : (∀ st, t st = char_step d P st) → Steps d t.
Proof.
  intros Ht p (Hlow & Hcur & Hlim).
  assert (∃ c b, (∀ m x, char_step d P (put_at p m x) = Ret (put_at (move p c) m x, b)) ∧ between d p c ∧ (b = true ↔ c ≠ cur p))
    as (c & b & H & ?); [|exists c, b; by setoid_rewrite Ht].
  destruct d; unfold char_step; cbn [put_at current cursor limit limit_backward between].
  - case_decide; [exists (cur p), false; rewrite move_same; naive_solver lia|].
    unfold charCodeAt. destruct (aget_is_Some (text p) (cur p)) as [ch ->]; [lia|]. cbn [of_option mbind outcome_bind].
    destruct (P ch); [exists (cur p + 1), true|exists (cur p), false; rewrite move_same]; naive_solver lia.
  - case_decide; [exists (cur p), false; rewrite move_same; naive_solver lia|].
    unfold charCodeAt. destruct (aget_is_Some (text p) (cur p - 1)) as [ch ->]; [lia|]. cbn [of_option mbind outcome_bind].
    destruct (P ch); [exists (cur p - 1), true|exists (cur p), false; rewrite move_same]; naive_solver lia.
Qed.

Definition in_group (g : list Z) (min max ch : Z) : bool :=
  if decide (max < ch ∨ ch < min) then false else if decide (group_bit g (ch - min) = 0) then false else true.

Ltac char_test :=
  intros st; unfold char_step, in_group; case_decide; [reflexivity|];
  match goal with |- context [charCodeAt ?s ?i] => destruct (charCodeAt s i) end; [|reflexivity]; cbn [of_option mbind outcome_bind];
  match goal with |- context [decide (?P ∨ ?Q)] => destruct (decide (P ∨ Q)) end; [reflexivity|];
  match goal with |- context [decide (?P = 0)] => destruct (decide (P = 0)) end; reflexivity.

#[global] Instance steps_grouping g min max : Steps Forward (grouping g min max).
Proof. apply (char_steps _ (in_group g min max)). unfold grouping, in_grouping. char_test. Qed.
#[global] Instance steps_grouping_b g min max : Steps Backward (grouping_b g min max).
Proof. apply (char_steps _ (in_group g min max)). unfold grouping_b, in_grouping_b. char_test. Qed.
#[global] Instance steps_non_grouping g min max : Steps Forward (non_grouping g min max).
Proof. apply (char_steps _ (λ ch, negb (in_group g min max ch))). unfold non_grouping, out_grouping. char_test. Qed.
#[global] Instance steps_non_grouping_b g min max : Steps Backward (non_grouping_b g min max).
Proof. apply (char_steps _ (λ ch, negb (in_group g min max ch))). unfold non_grouping_b, out_grouping_b. char_test. Qed.

(** *** Strings *)

#[global] Instance steps_equal n s : TCEq (0 <? n) true → Steps Forward (equal n s).
Proof.
  intros Hn%TCEq_eq p (? & ? & ?). unfold equal, eq_s. cbn [put_at current cursor limit limit_backward between].
  repeat case_decide; [exists (cur p), false|exists (cur p), false|exists (cur p + n), true]; rewrite ?move_same; naive_solver lia.
Qed.
#[global] Instance steps_equal_b n s : TCEq (0 <? n) true → Steps Backward (equal_b n s).
Proof.
  intros Hn%TCEq_eq p (? & ? & ?). unfold equal_b, eq_s_b. cbn [put_at current cursor limit limit_backward between].
  repeat case_decide; [exists (cur p), false|exists (cur p), false|exists (cur p - n), true]; rewrite ?move_same; naive_solver lia.
Qed.

Lemma field_moves f (R : related) : (∀ lb x x2, R lb x x2 → f x2 = f x) → Moves Backward R (field_b f).
Proof.
  intros Hf m m2 p x x2 (? & ? & ?) HR%Hf. unfold field_b, eq_v_b, eq_s_b. cbn [put_at current cursor limit limit_backward own between].
  rewrite HR. pose proof (zlen_nonneg (f x)).
  repeat case_decide; [exists (cur p), false|exists (cur p), false|exists (cur p - zlen (f x)), true]; rewrite ?move_same; naive_solver lia.
Qed.

(** *** Tables *)

(** The links of a table lead to earlier entries. *)
Definition table_fits (v : list (Among X)) (n : Z) : bool :=
  (0 <? n) && (n <? 2 ^ 31) && (n =? zlen v) && forallb (λ '(i, w), substring_i w <? Z.of_nat i) (imap pair v).

Definition methodless_b (v : list (Among X)) : bool :=
  forallb (λ w, match Stemmer.method w with None => true | Some _ => false end) v.

Lemma compare_bounded ahead N rest common :
  (∀ k, 0 ≤ k < N → ∃ ch, ahead k = Ret (Some ch)) → ahead N = Ret None → 0 ≤ common ≤ N →
  ∃ d common', compare_rest ahead rest common = Ret (d, common') ∧ 0 ≤ common' ≤ N.
Proof.
  intros Hk HN. revert common. induction rest as [|y rest IH]; intros common Hc; cbn [compare_rest]; [eauto|].
  destruct (decide (common = N)) as [->|]; [rewrite HN; cbn; eauto|].
  destruct (Hk common) as [ch ->]; [lia|]. cbn [mbind outcome_bind]. case_decide; [eauto|]. apply IH. lia.
Qed.

Lemma find_bounded ahead N key (v : list (Among X)) fuel i j ci cj (first : bool) :
  (∀ k, 0 ≤ k < N → ∃ ch, ahead k = Ret (Some ch)) → ahead N = Ret None → zlen v < 2 ^ 31 →
  0 ≤ i < j → j ≤ zlen v → 0 ≤ ci ≤ N → 0 ≤ cj ≤ N → (j - i = 1 → i = 0) → (first = true → j - i = 1) →
  j - i + (if first then 0 else 1) ≤ Z.of_nat fuel →
  ∃ i' ci', find_loop fuel ahead key v i j ci cj first = Ret (i', ci') ∧ 0 ≤ i' < zlen v ∧ 0 ≤ ci' ≤ N.
Proof.
  intros Hahead HN Hv. revert i j ci cj first. induction fuel as [|fuel IH]; intros i j ci cj first Hij Hj Hi Hjj Hone Hfirst Hf.
  { destruct first; lia. }
  cbn [find_loop]. rewrite js_shr_div by lia. change (2 ^ 1) with 2. set (k := i + (j - i) / 2).
  assert (i ≤ k < j ∧ (1 < j - i → i < k)) as [Hk Hk'] by (unfold k; Z.to_euclidean_division_equations; lia).
  destruct (aget_is_Some v k) as [w Hw]; [lia|]. rewrite Hw. cbn [of_option mbind outcome_bind].
  set (c := if decide (ci < cj) then ci else cj). assert (0 ≤ c ≤ N) as Hc by (unfold c; case_decide; lia).
  destruct (compare_bounded ahead N (drop (Z.to_nat c) (key w)) c Hahead HN Hc) as (d & c' & -> & Hc'). cbn [mbind outcome_bind].
  case_decide as Hneg; (case_decide as Hw1; [|apply IH; (done || destruct first; lia)]); (case_decide as Hend; [do 2 eexists; split; [done|lia]|]);
    (destruct first; [do 2 eexists; split; [done|lia]|apply IH; done || lia]).
Qed.


(** The second loop, from an entry [i] on. *)
Lemma take_twins d p (v : list (Among X)) (mv : Among X → Z) call ci m m2 x x2 fuel c0 i :
  forallb (λ '(i, w), substring_i w <? Z.of_nat i) (imap pair v) = true →
  (∀ w, w ∈ v → s_size w ≤ ci → between d p (mv w)) →
  (∀ w f, w ∈ v → Stemmer.method w = Some f → s_size w ≤ ci → ∃ c b, call f (put_at (move p (mv w)) m x) = Ret (put_at (move p c) m x, b) ∧
     call f (put_at (move p (mv w)) m2 x2) = Ret (put_at (move p c) m2 x2, b)) →
  between d p c0 → 0 ≤ i < zlen v → i < Z.of_nat fuel →
  ∃ c r, take_loop fuel mv call v ci (put_at (move p c0) m x) i = Ret (put_at (move p c) m x, r) ∧
    take_loop fuel mv call v ci (put_at (move p c0) m2 x2) i = Ret (put_at (move p c) m2 x2, r) ∧
    between d p c ∧ (r = 0 ∨ ∃ w, w ∈ v ∧ r = result w ∧ c = mv w).
Proof.
  intros Hlinks Hmv Hcall. revert c0 i. induction fuel as [|fuel IH]; intros c0 i Hc0 Hi Hfuel; [lia|]. cbn [take_loop].
  destruct (aget_is_Some v i Hi) as [w Hw]. rewrite Hw. cbn [of_option mbind outcome_bind].
  assert (w ∈ v) as Hin by by eapply aget_elem_of.
  assert (substring_i w < i) as Hlink.
  { rewrite forallb_forall in Hlinks. specialize (Hlinks (Z.to_nat i, w)). cbv iota beta in Hlinks.
    rewrite Z2Nat.id in Hlinks by lia. apply Z.ltb_lt, Hlinks, list_elem_of_In, list_elem_of_lookup. exists (Z.to_nat i). rewrite list_lookup_imap.
    unfold aget in Hw. rewrite decide_False in Hw by lia. by rewrite Hw. }
  assert (∃ c (b : bool), (if decide (s_size w ≤ ci) then
      match Stemmer.method w with
      | None => Ret (put_at (move p (mv w)) m x, true)
      | Some f => '(st, res) ← call f (put_at (move p (mv w)) m x); Ret (set_cursor st (mv w), res)
      end
    else Ret (put_at (move p c0) m x, false)) = Ret (put_at (move p c) m x, b) ∧
    (if decide (s_size w ≤ ci) then
      match Stemmer.method w with
      | None => Ret (put_at (move p (mv w)) m2 x2, true)
      | Some f => '(st, res) ← call f (put_at (move p (mv w)) m2 x2); Ret (set_cursor st (mv w), res)
      end
    else Ret (put_at (move p c0) m2 x2, false)) = Ret (put_at (move p c) m2 x2, b) ∧ between d p c ∧ (b = true → c = mv w))
    as (c & b & H1 & H2 & Hc & Hb).
  { case_decide as Hs; [|by exists c0, false]. destruct (Stemmer.method w) as [f|] eqn:Hf; [|by exists (mv w), true; eauto].
    destruct (Hcall w f Hin Hf Hs) as (c & b & H1 & H2). exists (mv w), b. rewrite H1, H2. eauto 10. }
  change (set_cursor (put_at (move p c0) m x) (mv w)) with (put_at (move p (mv w)) m x).
  change (set_cursor (put_at (move p c0) m2 x2) (mv w)) with (put_at (move p (mv w)) m2 x2).
  rewrite H1, H2. cbn [mbind outcome_bind]. destruct b.
  - exists c, (result w). split_and!; [done..|]. right. eauto.
  - clear H1 H2 Hb. destruct (decide (substring_i w < 0)); [exists c, 0; auto|]. apply IH; [done|lia..].
Qed.

Lemma table_fits_spec (v : list (Among X)) n :
  table_fits v n = true → n = zlen v ∧ 0 < zlen v < 2 ^ 31 ∧ forallb (λ '(i, w), substring_i w <? Z.of_nat i) (imap pair v) = true.
Proof. unfold table_fits. rewrite !andb_true_iff. intros [[[? ?] ?] ?]. split_and!; [lia..|done]. Qed.

Lemma methodless_spec (v : list (Among X)) w f : methodless_b v = true → w ∈ v → Stemmer.method w = Some f → False.
Proof. unfold methodless_b. rewrite forallb_forall. intros Hv Hw%list_elem_of_In Hf. specialize (Hv w Hw). by rewrite Hf in Hv. Qed.

(** The least size of the entries with each result. *)
Definition least (v : list (Among X)) : list (Z * Z) :=
  (λ r, (r, foldr Z.min (2 ^ 31) ((λ w, s_size w) <$> filter (λ w, result w = r) v))) <$> remove_dups (result <$> v).

Fixpoint one_of (l : list (Z * Z)) (r n : Z) : Prop :=
  match l with [] => False | (r', n') :: l => r = r' ∧ n' ≤ n ∨ one_of l r n end.

Lemma one_of_spec l r n n' : (r, n') ∈ l → n' ≤ n → one_of l r n.
Proof. induction l as [|[r1 n1] l IH]; [by intros ?%elem_of_nil|]. intros [[= -> ->]|?]%elem_of_cons ?; cbn; auto. Qed.

Lemma least_spec v w : w ∈ v → one_of (least v) (result w) (s_size w).
Proof.
  intros Hw. eapply one_of_spec.
  - apply list_elem_of_fmap. exists (result w). split; [done|]. apply elem_of_remove_dups, list_elem_of_fmap. eauto.
  - assert (w ∈ filter (λ w', result w' = result w) v) as Hin by by apply list_elem_of_filter.
    induction (filter _ v) as [|w' l IH]; [by apply elem_of_nil in Hin|]. apply elem_of_cons in Hin as [<-|Hin]; cbn; [lia|].
    specialize (IH Hin). lia.
Qed.

Lemma among_twins v n p m m2 x x2 :
  table_fits v n = true → methodless_b v = true → ok p →
  ∃ c r, among v n (put_at p m x) = Ret (put_at (move p c) m x, r) ∧ among v n (put_at p m2 x2) = Ret (put_at (move p c) m2 x2, r) ∧
    between Forward p c ∧ (r = 0 ∨ one_of (least v) r (c - cur p)).
Proof.
  intros (-> & Hn & Hl)%table_fits_spec Hm (Hlow & Hcur & Hlim). unfold among, find_among. cbn [put_at current cursor limit].
  set (nx := λ k, if decide (cur p + k = lim p) then Ret None else ch ← of_option (charCodeAt (text p) (cur p + k)); Ret (Some ch)).
  destruct (find_bounded nx (lim p - cur p) s v (Z.to_nat (zlen v + 2)) 0 (zlen v) 0 0 false) as (i & ci & -> & Hi & Hci); try lia.
  { intros k Hk. unfold nx. rewrite decide_False by lia. unfold charCodeAt.
    destruct (aget_is_Some (text p) (cur p + k)) as [ch ->]; [lia|]. by exists ch. }
  { unfold nx. by rewrite decide_True by lia. }
  cbn [mbind outcome_bind].
  destruct (take_twins Forward p v (λ w, cur p + s_size w) (λ _ _, Undef) ci m m2 x x2 (S (length v)) (cur p) i) as (c & r & H1 & H2 & Hc & Hr).
  - done.
  - intros w _ Hw. cbn [between]. unfold s_size in *. pose proof (zlen_nonneg (s w)). lia.
  - intros w f Hw Hf. by destruct (methodless_spec v w f Hm Hw Hf).
  - cbn [between]. lia.
  - done.
  - unfold zlen in Hi. lia.
  - rewrite move_same in H1, H2. exists c, r. split_and!; [done..|]. destruct Hr as [->|(w & Hw & -> & ->)]; [by left|].
    right. replace (cur p + s_size w - cur p) with (s_size w) by lia. by apply least_spec.
Qed.

(** The methods of the entries move the cursor. *)
Definition methods_move (R : related) (v : list (Among X)) : Prop :=
  Forall (λ w, match Stemmer.method w with None => True | Some f => Moves Backward R f end) v.

Lemma methodless_move R v : methodless_b v = true → methods_move R v.
Proof.
  intros Hv. apply Forall_forall. intros w Hw. destruct (Stemmer.method w) as [f|] eqn:Hf; [|done].
  by destruct (methodless_spec v w f Hv Hw Hf).
Qed.

Lemma among_b_twins R v n p m m2 x x2 :
  table_fits v n = true → methods_move R v → ok p → R (low p) x x2 →
  ∃ c r, among_b v n (put_at p m x) = Ret (put_at (move p c) m x, r) ∧ among_b v n (put_at p m2 x2) = Ret (put_at (move p c) m2 x2, r) ∧
    between Backward p c ∧ (r = 0 ∨ one_of (least v) r (cur p - c)).
Proof.
  intros (-> & Hn & Hl)%table_fits_spec Hm (Hlow & Hcur & Hlim) HR. unfold among_b, find_among_b. cbn [put_at current cursor limit_backward].
  set (nx := λ k, if decide (cur p - k = low p) then Ret None else ch ← of_option (charCodeAt (text p) (cur p - 1 - k)); Ret (Some ch)).
  destruct (find_bounded nx (cur p - low p) (λ w, reverse (s w)) v (Z.to_nat (zlen v + 2)) 0 (zlen v) 0 0 false) as (i & ci & -> & Hi & Hci); try lia.
  { intros k Hk. unfold nx. rewrite decide_False by lia. unfold charCodeAt.
    destruct (aget_is_Some (text p) (cur p - 1 - k)) as [ch ->]; [lia|]. by exists ch. }
  { unfold nx. by rewrite decide_True by lia. }
  cbn [mbind outcome_bind].
  destruct (take_twins Backward p v (λ w, cur p - s_size w) (λ f st, f st) ci m m2 x x2 (S (length v)) (cur p) i) as (c & r & H1 & H2 & Hc & Hr).
  - done.
  - intros w _ Hw. cbn [between]. unfold s_size in *. pose proof (zlen_nonneg (s w)). lia.
  - intros w f Hw Hf Hs. unfold methods_move in Hm. rewrite Forall_forall in Hm. specialize (Hm w Hw). rewrite Hf in Hm.
    destruct (Hm m m2 (move p (cur p - s_size w)) x x2) as (c & b & H1 & H2 & _); [|done|by exists c, b].
    unfold ok, s_size in *. cbn. pose proof (zlen_nonneg (s w)). lia.
  - cbn [between]. lia.
  - done.
  - unfold zlen in Hi. lia.
  - rewrite move_same in H1, H2. exists c, r. split_and!; [done..|]. destruct Hr as [->|(w & Hw & -> & ->)]; [by left|].
    right. replace (cur p - (cur p - s_size w)) with (s_size w) by lia. by apply least_spec.
Qed.


(** ** The rules for calls *)

(** Only the cursor has moved. *)
Definition moved (d : dir) (p : place) (x x2 : X) (p' : place) (x' x2' : X) : Prop :=
  ∃ c, p' = move p c ∧ x' = x ∧ x2' = x2 ∧ between d p c.

Lemma wp_steps m m2 d p x x2 t c (Q : post) :
  ok p → Steps d t → (∀ c', between d p c' → c' ≠ cur p → Q Next (move p c') x x2) → wp m m2 c p x x2 Q → wp m m2 (unless t c) p x x2 Q.
Proof.
  intros inside Ht Hyes Hno. destruct (steps p inside) as (c' & b & H & Hc & Hb).
  eapply wp_unless_bool; [apply H..|intros; naive_solver|]. intros ->. destruct (decide (c' = cur p)) as [->|]; [by rewrite move_same|naive_solver].
Qed.

Section calls.
Context (m m2 : list (jsstr * jsstr)) (d : dir) (R R' : related) (p : place) (x x2 : X).
Hypothesis inside : ok p.

Hypothesis fields : R (low p) x x2.

Lemma wp_moves t c (Q : post) :
  Moves d R t → (∀ c', between d p c' → Q Next (move p c') x x2) → (∀ c', between d p c' → wp m m2 c (move p c') x x2 Q) →
  wp m m2 (unless t c) p x x2 Q.
Proof. intros Ht Hyes Hno. destruct (moves m m2 p x x2 inside fields) as (c' & b & H1 & H2 & Hc). eapply wp_unless_bool; eauto. Qed.

Lemma wp_edits t c (Q : post) :
  Edits d R R' t → (∀ p' x' x2', edited d R' p p' x' x2' → Q Next p' x' x2') →
  (∀ p' x' x2', edited d R' p p' x' x2' → wp m m2 c p' x' x2' Q) → wp m m2 (unless t c) p x x2 Q.
Proof. intros Ht Hyes Hno. destruct (edits m m2 p x x2 inside fields) as (p' & x' & x2' & b & H1 & H2 & Hp). eapply wp_unless_bool; eauto. Qed.

(** [do t]: whether the test succeeds does not matter. *)
Lemma wp_do_edits t l (Q : post) :
  Edits d R R' t → (∀ p' x' x2', edited d R' p p' x' x2' → Q Next p' x' x2') → wp m m2 (block l (unless t (break_ l))) p x x2 Q.
Proof.
  intros Ht H. apply (wp_block _ _ (edited d R' p)); [|done]. apply wp_edits; [done|by intros|].
  intros p' x' x2' Hp. apply wp_break. unfold block_post. cbn [leave]. by rewrite Nat.eqb_refl.
Qed.
Lemma wp_do_moves t l (Q : post) :
  Moves d R t → (∀ c', between d p c' → Q Next (move p c') x x2) → wp m m2 (block l (unless t (break_ l))) p x x2 Q.
Proof.
  intros Ht H. apply (wp_block _ _ (moved d p x x2)); [|intros p' x' x2' (c & -> & -> & -> & Hc); auto].
  apply wp_moves; [done|intros c' Hc; by exists c'|]. intros c' Hc. apply wp_break. unfold block_post. cbn [leave].
  rewrite Nat.eqb_refl. by exists c'.
Qed.

Lemma wp_among v n k (Q : post) :
  table_fits v n = true → methodless_b v = true →
  (∀ c r, between Forward p c → (r = 0 ∨ one_of (least v) r (c - cur p)) → wp m m2 (k r) (move p c) x x2 Q) →
  wp m m2 (found (among v n) k) p x x2 Q.
Proof.
  intros Hv Hm H. destruct (among_twins v n p m m2 x x2 Hv Hm inside) as (c & r & H1 & H2 & Hc & Hr).
  eapply wp_found; [done..|]. by apply H.
Qed.

Lemma wp_among_b v n k (Q : post) :
  table_fits v n = true → methods_move R v →
  (∀ c r, between Backward p c → (r = 0 ∨ one_of (least v) r (cur p - c)) → wp m m2 (k r) (move p c) x x2 Q) →
  wp m m2 (found (among_b v n) k) p x x2 Q.
Proof.
  intros Hv Hm H. destruct (among_b_twins R v n p m m2 x x2 Hv Hm inside fields) as (c & r & H1 & H2 & Hc & Hr).
  eapply wp_found; [done..|]. by apply H.
Qed.

Lemma wp_some v n c (Q : post) :
  table_fits v n = true → methodless_b v = true →
  (∀ c', between Forward p c' → Q Next (move p c') x x2) → (∀ c', between Forward p c' → wp m m2 c (move p c') x x2 Q) →
  wp m m2 (unless (some (among v n)) c) p x x2 Q.
Proof.
  intros Hv Hm Hyes Hno. destruct (among_twins v n p m m2 x x2 Hv Hm inside) as (c' & r & H1 & H2 & Hc & Hr).
  eapply wp_unless_bool; [unfold some; rewrite H1; reflexivity|unfold some; rewrite H2; reflexivity|auto..].
Qed.

Lemma wp_some_b v n c (Q : post) :
  table_fits v n = true → methods_move R v →
  (∀ c', between Backward p c' → Q Next (move p c') x x2) → (∀ c', between Backward p c' → wp m m2 c (move p c') x x2 Q) →
  wp m m2 (unless (some (among_b v n)) c) p x x2 Q.
Proof.
  intros Hv Hm Hyes Hno. destruct (among_b_twins R v n p m m2 x x2 Hv Hm inside fields) as (c' & r & H1 & H2 & Hc & Hr).
  eapply wp_unless_bool; [unfold some; rewrite H1; reflexivity|unfold some; rewrite H2; reflexivity|auto..].
Qed.
End calls.

(** *** Loops that move or edit *)

Lemma wp_loop_moves d m m2 v l c k p x x2 (Q : post) :
  ok p →
  (∀ c', between d p c' → wp m m2 c (move p c') x x2 (round_post l (to_go d) (moved d p x x2) (move p c') (rounds_post m m2 k Q))) →
  wp m m2 (at_least v l c k) p x x2 Q.
Proof.
  intros (? & ? & ?) Hc. apply (wp_at_least m m2 (to_go d) (moved d p x x2)).
  - intros p' x' x2' (c' & -> & -> & -> & Hc'). destruct d; cbn in *; lia.
  - exists (cur p). rewrite move_same. split_and!; [done..|]. destruct d; cbn; lia.
  - intros p' x' x2' (c' & -> & -> & -> & Hc'). auto.
Qed.
Lemma wp_forever_moves d m m2 l c p x x2 (Q : post) :
  ok p → (∀ c', between d p c' → wp m m2 c (move p c') x x2 (round_post l (to_go d) (moved d p x x2) (move p c') Q)) →
  wp m m2 (forever l c) p x x2 Q.
Proof.
  intros (? & ? & ?) Hc. apply (wp_forever m m2 (to_go d) (moved d p x x2)).
  - intros p' x' x2' (c' & -> & -> & -> & Hc'). destruct d; cbn in *; lia.
  - exists (cur p). rewrite move_same. split_and!; [done..|]. destruct d; cbn; lia.
  - intros p' x' x2' (c' & -> & -> & -> & Hc'). auto.
Qed.
Lemma wp_forever_edits d (R : related) m m2 l c p x x2 (Q : post) :
  ok p → R (low p) x x2 →
  (∀ p' x' x2', edited d R p p' x' x2' → wp m m2 c p' x' x2' (round_post l (to_go d) (edited d R p) p' Q)) →
  wp m m2 (forever l c) p x x2 Q.
Proof.
  intros Hok HR Hc. apply (wp_forever m m2 (to_go d) (edited d R p)); [| |done].
  - intros p' x' x2' ((? & ? & ?) & _). destruct d; cbn; lia.
  - split_and!; [done..| |done]. destruct d; cbn; lia.
Qed.

Definition weighed (L : list Z) (R : related) (p p' : place) (x x2 : X) : Prop :=
  edited Forward R p p' x x2 ∧ weight L (text p') ≤ weight L (text p).

Lemma weighed_start L (R : related) p x x2 : ok p → R (low p) x x2 → weighed L R p p x x2.
Proof. intros. split; [|lia]. split_and!; [done..| |done]. cbn. lia. Qed.

Lemma wp_forever_weighed L (R : related) m m2 l c p x x2 (Q : post) :
  ok p → R (low p) x x2 →
  (∀ p' x' x2', weighed L R p p' x' x2' → wp m m2 c p' x' x2' (round_post l (to_go Forward) (weighed L R p) p' Q)) →
  wp m m2 (forever l c) p x x2 Q.
Proof.
  intros Hok HR Hc. apply (wp_forever m m2 (to_go Forward) (weighed L R p)); [|by apply weighed_start|done].
  intros p' x' x2' [((? & ? & ?) & _) _]. cbn. lia.
Qed.

Lemma wp_forever_lighter L (R : related) m m2 l c p x x2 (Q : post) :
  ok p → R (low p) x x2 →
  (∀ p' x' x2', weighed L R p p' x' x2' → wp m m2 c p' x' x2' (round_post l (λ p, weight L (text p)) (weighed L R p) p' Q)) →
  wp m m2 (forever l c) p x x2 Q.
Proof.
  intros Hok HR Hc. apply (wp_forever m m2 (λ p, weight L (text p)) (weighed L R p)); [|by apply weighed_start|done].
  intros. apply weight_range.
Qed.

(** Everything but the text and the fields may change. *)
Definition sliced (d : dir) (p : place) (x x2 : X) (p' : place) (x' x2' : X) : Prop :=
  ∃ c b k, p' = At (text p) c (lim p) (low p) b k ∧ x' = x ∧ x2' = x2 ∧ between d p c.

Lemma wp_forever_slices d m m2 l c p x x2 (Q : post) :
  ok p →
  (∀ c' b k, between d p c' → let p' := At (text p) c' (lim p) (low p) b k in
     wp m m2 c p' x x2 (round_post l (to_go d) (sliced d p x x2) p' Q)) →
  wp m m2 (forever l c) p x x2 Q.
Proof.
  intros (? & ? & ?) Hc. apply (wp_forever m m2 (to_go d) (sliced d p x x2)).
  - intros p' x' x2' (c' & b & k & -> & -> & -> & Hc'). destruct d; cbn in *; lia.
  - exists (cur p), (left p), (right p). split_and!; [by destruct p|done..|]. destruct d; cbn; lia.
  - intros p' x' x2' (c' & b & k & -> & -> & -> & Hc'). by apply Hc.
Qed.

(** *** Methods *)

Definition returns (J : place → X → X → Prop) : post := λ f p x x2, match f with Return _ => J p x x2 | _ => False end.

Lemma method_returns J c m m2 p x x2 :
  wp m m2 c p x x2 (returns J) → ∃ p' x' x2' b, method c (put_at p m x) = Ret (put_at p' m x', b) ∧
    method c (put_at p m2 x2) = Ret (put_at p' m2 x2', b) ∧ J p' x' x2'.
Proof.
  intros ([| | |b] & p' & x' & x2' & H1 & H2 & HJ); try done. exists p', x', x2', b. unfold method. by rewrite H1, H2.
Qed.

Lemma method_moves d (R : related) c :
  (∀ m m2 p x x2, ok p → R (low p) x x2 → wp m m2 c p x x2 (returns (moved d p x x2))) → Moves d R (method c).
Proof.
  intros Hc m m2 p x x2 Hok HR. destruct (method_returns _ c _ _ _ _ _ (Hc m m2 p x x2 Hok HR)) as (p' & x' & x2' & b & H1 & H2 & HJ).
  destruct HJ as (c' & -> & -> & -> & ?). by exists c', b.
Qed.

Lemma method_edits d (R R' : related) c :
  (∀ m m2 p x x2, ok p → R (low p) x x2 → wp m m2 c p x x2 (returns (edited d R' p))) → Edits d R R' (method c).
Proof. intros Hc m m2 p x x2 Hok HR. by apply method_returns, Hc. Qed.

(** A method that moves back whenever it succeeds. *)
Class Consumes (R R' : related) (t : test X) : Prop :=
  consumes : ∀ m m2 p x x2, ok p → R (low p) x x2 → ∃ p' x' x2' b, t (put_at p m x) = Ret (put_at p' m x', b) ∧
    t (put_at p m2 x2) = Ret (put_at p' m2 x2', b) ∧ edited Backward R' p p' x' x2' ∧ (b = true → cur p' < cur p).

Definition consumed (p : place) (J : place → X → X → Prop) : post := λ f p' x x2,
  match f with Return b => J p' x x2 ∧ (b = true → cur p' < cur p) | _ => False end.

Lemma method_consumes (R R' : related) c :
  (∀ m m2 p x x2, ok p → R (low p) x x2 → wp m m2 c p x x2 (consumed p (edited Backward R' p))) → Consumes R R' (method c).
Proof.
  intros Hc m m2 p x x2 Hok HR. destruct (Hc m m2 p x x2 Hok HR) as ([| | |b] & p' & x' & x2' & H1 & H2 & HJ); try done.
  exists p', x', x2', b. unfold method. by rewrite H1, H2.
Qed.

#[global] Instance consumes_edits (R R' : related) t : Consumes R R' t → Edits Backward R R' t.
Proof. intros Ht m m2 p x x2 Hok HR. destruct (consumes m m2 p x x2 Hok HR) as (p' & x' & x2' & b & ? & ? & ? & _). eauto 10. Qed.

(** A recursive method that is given [n] calls, which is more than it has letters. *)
Class Within (n : Z) (R R' : related) (t : test X) : Prop :=
  within : ∀ m m2 p x x2, ok p → R (low p) x x2 → cur p - low p < n → ∃ p' x' x2' b, t (put_at p m x) = Ret (put_at p' m x', b) ∧
    t (put_at p m2 x2) = Ret (put_at p' m2 x2', b) ∧ edited Backward R' p p' x' x2'.

Lemma method_within n (R R' : related) c :
  (∀ m m2 p x x2, ok p → R (low p) x x2 → cur p - low p < n → wp m m2 c p x x2 (returns (edited Backward R' p))) → Within n R R' (method c).
Proof. intros Hc m m2 p x x2 Hok HR Hn. by apply method_returns, Hc. Qed.

Lemma within_edits (R R' : related) (f : nat → test X) :
  (∀ fuel, Within (Z.of_nat fuel) R R' (f fuel)) → Edits Backward R R' (λ st, f (S (length (current st))) st).
Proof.
  intros Hf m m2 p x x2 Hok HR. destruct (Hf (S (length (text p))) m m2 p x x2 Hok HR) as (p' & x' & x2' & b & H); [|by exists p', x', x2', b].
  destruct Hok as (? & ? & Hlim). unfold zlen in Hlim. lia.
Qed.

(** A call of a method that has no specification of its own. *)
Definition inlined m m2 (c : code X) (Q : post) : post := λ f p x x2,
  match f with Return true => Q Next p x x2 | Return false => wp m m2 c p x x2 Q | _ => False end.

Lemma call_inline body c m m2 p x x2 (Q : post) :
  wp m m2 body p x x2 (inlined m m2 c Q) → wp m m2 (unless (call (method body)) c) p x x2 Q.
Proof.
  intros ([| | |[]] & p' & x' & x2' & H1 & H2 & HQ); try done; eapply (wp_unless_bool _ _ _ _ _ _ _ _ p' x' x2'); try done;
    unfold call, method; by rewrite ?H1, ?H2.
Qed.

(** ** Stemmers *)

(** The start of a word, whatever was stemmed before. *)
Definition start (w : jsstr) : place := At w 0 (zlen w) 0 0 (zlen w).

Class Stems (stem : test X) : Prop :=
  stems : ∀ w m m2 x x2, ∃ p' x' x2' b, stem (put_at (start w) m x) = Ret (put_at p' m x', b) ∧
    stem (put_at (start w) m2 x2) = Ret (put_at p' m2 x2', b).

Lemma method_stems c : (∀ w m m2 x x2, wp m m2 c (start w) x x2 (returns (λ _ _ _, True))) → Stems (method c).
Proof.
  intros Hc w m m2 x x2. destruct (method_returns _ c _ _ _ _ _ (Hc w m m2 x x2)) as (p' & x' & x2' & b & H1 & H2 & _).
  by exists p', x', x2', b.
Qed.

(** The stem of a word, for a stemmer with the initial fields [x]. *)
Definition stem_by (stem : test X) (x : X) (w : jsstr) : jsstr :=
  match stem (setCurrent (Stemmer.new x) w) with Ret (st, _) => current st | _ => [] end.

Lemma stem_word_by stem x st w : Stems stem →
  ∃ st' b, stem (setCurrent st w) = Ret (st', b) ∧ current st' = stem_by stem x w ∧ cache st' = cache st.
Proof.
  intros Hs. destruct (stems w (cache st) [] (own st) x) as (p' & x' & x2' & b & H1 & H2).
  exists (put_at p' (cache st) x'), b. split_and!; [exact H1| |done]. unfold stem_by.
  change (setCurrent (Stemmer.new x) w) with (put_at (start w) [] x). by rewrite H2.
Qed.


(** ** What the automation applies *)

Section automation.
Context (m m2 : list (jsstr * jsstr)) (p : place) (x x2 : X) (Q : post).

Lemma do_moves t l d R (Ht : Moves d R t) :
  ok p → R (low p) x x2 → (∀ c', between d p c' → Q Next (move p c') x x2) → wp m m2 (block l (unless (call t) (break_ l))) p x x2 Q.
Proof. intros. by apply (wp_do_moves m m2 d R). Qed.

Lemma do_edits t l d R R' (Ht : Edits d R R' t) :
  ok p → R (low p) x x2 → (∀ p' x' x2', edited d R' p p' x' x2' → Q Next p' x' x2') → wp m m2 (block l (unless (call t) (break_ l))) p x x2 Q.
Proof. intros. by apply (wp_do_edits m m2 d R R'). Qed.

Lemma call_moves t c d R (Ht : Moves d R t) :
  ok p → R (low p) x x2 → (∀ c', between d p c' → Q Next (move p c') x x2) → (∀ c', between d p c' → wp m m2 c (move p c') x x2 Q) →
  wp m m2 (unless (call t) c) p x x2 Q.
Proof. intros. by apply (wp_moves m m2 d R). Qed.

Lemma call_edits t c d R R' (Ht : Edits d R R' t) :
  ok p → R (low p) x x2 → (∀ p' x' x2', edited d R' p p' x' x2' → Q Next p' x' x2') →
  (∀ p' x' x2', edited d R' p p' x' x2' → wp m m2 c p' x' x2' Q) → wp m m2 (unless (call t) c) p x x2 Q.
Proof. intros. by apply (wp_edits m m2 d R R'). Qed.

Lemma call_consumes t c R R' (Ht : Consumes R R' t) :
  ok p → R (low p) x x2 → (∀ p' x' x2', cur p' < cur p → edited Backward R' p p' x' x2' → Q Next p' x' x2') →
  (∀ p' x' x2', edited Backward R' p p' x' x2' → wp m m2 c p' x' x2' Q) → wp m m2 (unless (call t) c) p x x2 Q.
Proof.
  intros Hok HR Hyes Hno. destruct (consumes m m2 p x x2 Hok HR) as (p' & x' & x2' & b & H1 & H2 & Hp & Hc).
  eapply wp_unless_bool; eauto.
Qed.

Lemma call_within t c n R R' (Ht : Within n R R' t) :
  ok p → R (low p) x x2 → cur p - low p < n → (∀ p' x' x2', edited Backward R' p p' x' x2' → Q Next p' x' x2') →
  (∀ p' x' x2', edited Backward R' p p' x' x2' → wp m m2 c p' x' x2' Q) → wp m m2 (unless (call t) c) p x x2 Q.
Proof.
  intros Hok HR Hn Hyes Hno. destruct (within m m2 p x x2 Hok HR Hn) as (p' & x' & x2' & b & H1 & H2 & Hp).
  eapply wp_unless_bool; eauto.
Qed.

Lemma test_steps t c d (Ht : Steps d t) :
  ok p → (∀ c', between d p c' → c' ≠ cur p → Q Next (move p c') x x2) → wp m m2 c p x x2 Q → wp m m2 (unless t c) p x x2 Q.
Proof. intros. by apply (wp_steps m m2 d). Qed.

Lemma test_equal n s c :
  ok p → (0 <? n) = true →
  (∀ c', c' = cur p + n → c' ≤ lim p → (∀ L, weight L (js_slice (text p) (cur p) c') = weight L s) → Q Next (move p c') x x2) →
  wp m m2 c p x x2 Q → wp m m2 (unless (equal n s) c) p x x2 Q.
Proof.
  intros (? & ? & ?) Hn Hyes Hno.
  destruct (decide (cur p + n ≤ lim p ∧ js_slice (text p) (cur p) (cur p + n) = s)) as [[Hlim Hs]|Hs].
  - assert (∀ m x, equal n s (put_at p m x) = Ret (put_at (move p (cur p + n)) m x, true)) as He.
    { intros. unfold equal, eq_s. cbn [put_at current cursor limit]. rewrite decide_False, decide_False by (lia || congruence). done. }
    eapply wp_unless_bool; [apply He..| |done]. intros _. apply Hyes; [done..|by rewrite Hs].
  - assert (∀ m x, equal n s (put_at p m x) = Ret (put_at p m x, false)) as He.
    { intros. unfold equal, eq_s. cbn [put_at current cursor limit]. case_decide; [done|]. rewrite decide_True; [done|].
      intros ?. apply Hs. split; [lia|done]. }
    by eapply wp_unless_bool; [apply He..|done|].
Qed.

Lemma test_field f c :
  ok p → f x2 = f x → (∀ c', between Backward p c' → Q Next (move p c') x x2) → (∀ c', between Backward p c' → wp m m2 c (move p c') x x2 Q) →
  wp m m2 (unless (field_b f) c) p x x2 Q.
Proof. intros. apply (wp_moves m m2 Backward (λ _ x x2, f x2 = f x)); auto. by apply field_moves. Qed.

Lemma find_b v n k :
  ok p → table_fits v n = true → methodless_b v = true →
  (∀ c r, between Backward p c → (r = 0 ∨ one_of (least v) r (cur p - c)) → wp m m2 (k r) (move p c) x x2 Q) →
  wp m m2 (found (among_b v n) k) p x x2 Q.
Proof. intros. apply (wp_among_b m m2 (λ _ _ _, True)); [done..|by apply methodless_move|done]. Qed.

Lemma some_b v n c :
  ok p → table_fits v n = true → methodless_b v = true →
  (∀ c', between Backward p c' → Q Next (move p c') x x2) → (∀ c', between Backward p c' → wp m m2 c (move p c') x x2 Q) →
  wp m m2 (unless (some (among_b v n)) c) p x x2 Q.
Proof. intros. apply (wp_some_b m m2 (λ _ _ _, True)); [done..|by apply methodless_move|done|done]. Qed.

Lemma block_moves d l c :
  wp m m2 c p x x2 (block_post l (moved d p x x2) Q) → (∀ c', between d p c' → Q Next (move p c') x x2) → wp m m2 (block l c) p x x2 Q.
Proof. intros Hc HQ. apply (wp_block m m2 (moved d p x x2)); [done|]. intros p' x' x2' (c' & -> & -> & -> & ?). auto. Qed.

Lemma block_edits d (R : related) l c :
  wp m m2 c p x x2 (block_post l (edited d R p) Q) → (∀ p' x' x2', edited d R p p' x' x2' → Q Next p' x' x2') →
  wp m m2 (block l c) p x x2 Q.
Proof. apply wp_block. Qed.

Lemma block_joined outer keep (R : related) l c :
  wp m m2 c p x x2 (block_post l (joined outer keep R p) Q) → (∀ p' x' x2', joined outer keep R p p' x' x2' → Q Next p' x' x2') →
  wp m m2 (block l c) p x x2 Q.
Proof. apply wp_block. Qed.
End automation.

Lemma slice_to_at t c l lb b k m (x : X) :
  0 ≤ b ≤ k → k ≤ l → l = zlen t → 0 ≤ c ≤ l → slice_to (put_at (At t c l lb b k) m x) = js_slice t b k.
Proof. intros. unfold slice_to. by rewrite slice_valid by lia. Qed.

Lemma slice_nonempty {A} (t : list A) b k : 0 ≤ b < k → k ≤ zlen t → js_slice t b k ≠ [].
Proof. intros ? ? H. apply (f_equal zlen) in H. rewrite zlen_slice in H by lia. unfold zlen in H. cbn in H. lia. Qed.

End Rules.

(** ** Automation *)

Lemma sub_back (a b : Z) : a - (a - b) = b.
Proof. lia. Qed.
Ltac simpl_sub H := rewrite ?sub_back, ?Z.sub_diag in H.

Ltac place_facts H := unfold ok, ahead, between, to_go, cursor_after in H; cbv beta iota delta [text cur lim low left right move] in H.

(** The goal after a rule. *)
Ltac norm :=
  cbn [andthen block_post through round_post rounds_post returns consumed inlined leave Nat.eqb];
  cbv beta iota delta [move text cur lim low left right].

Ltac inside := unfold ok; cbv beta iota delta [text cur lim low left right move]; split_and!; lia.

(** The fields are related as the goal says. *)
Ltac related :=
  lazymatch goal with
  | |- any _ _ _ => exact I
  | |- ?r _ _ _ => try unfold r; cbn; repeat split; first [assumption | lia | congruence | done]
  end.

(** Both runs read the same. *)
Ltac agree := cbn; first [reflexivity | congruence].

Ltac finish_moved := eexists; split_and!; [reflexivity..|unfold between; cbv beta iota delta [text cur lim low left right move]; lia].
Ltac finish_edited :=
  split_and!; [inside|cbn [low]; lia|unfold ahead; cbv beta iota delta [text cur lim low left right move]; lia|cbn [low]; related].
Ltac finish :=
  lazymatch goal with
  | |- True => exact I
  | |- moved _ _ _ _ _ _ _ => finish_moved
  | |- edited _ _ _ _ _ _ => finish_edited
  | |- joined _ _ _ _ _ _ _ =>
    refine (conj _ (conj _ (conj _ (conj _ _)))); [inside|cbn [low]; lia|cbv beta iota delta [text cur lim low left right]; lia
      |cbn [low]; related|cbv beta iota delta [text cur lim low left right]; first [exact I|lia]]
  | |- sliced _ _ _ _ _ _ _ => do 3 eexists; split_and!; [reflexivity..|unfold between; cbv beta iota delta [text cur lim low left right move]; lia]
  | |- weighed _ _ _ _ _ _ => split; [finish_edited|cbv beta iota delta [text]; lia]
  | |- _ ∧ _ => split; [finish|intros; unfold to_go; cbv beta iota delta [text cur lim low left right move]; lia]
  end.

Ltac field_facts Hlow HR :=
  lazymatch type of Hlow with ?a = _ => subst a end;
  lazymatch type of HR with
  | same _ _ _ _ _ => destruct HR as [-> ->]
  | ?r _ _ _ => try unfold r in HR; destruct_and? HR
  end.

Ltac intro_weighed :=
  let p := fresh "p" in let Hok := fresh "Hok" in let Hlow := fresh "Hlow" in let Hah := fresh "Hah" in let HR := fresh "HR" in
  let x := fresh "x" in let x2 := fresh "x" in let Hw := fresh "Hw" in
  intros p x x2 [(Hok & Hlow & Hah & HR) Hw]; destruct p; place_facts Hok; destruct_and? Hok; place_facts Hah; simpl_sub Hah; cbn [low] in Hlow, HR; cbn [text] in Hw; field_facts Hlow HR; norm.

Ltac intro_edited :=
  let p := fresh "p" in let Hok := fresh "Hok" in let Hlow := fresh "Hlow" in let Hah := fresh "Hah" in let HR := fresh "HR" in
  let x := fresh "x" in let x2 := fresh "x" in
  intros p x x2 (Hok & Hlow & Hah & HR); destruct p; place_facts Hok; destruct_and? Hok; place_facts Hah; simpl_sub Hah; cbn [low] in Hlow, HR; field_facts Hlow HR; norm.

Ltac intro_consumed :=
  let p := fresh "p" in let Hok := fresh "Hok" in let Hlow := fresh "Hlow" in let Hah := fresh "Hah" in let HR := fresh "HR" in
  let x := fresh "x" in let x2 := fresh "x" in let Hlt := fresh "Hlt" in
  intros p x x2 Hlt (Hok & Hlow & Hah & HR); destruct p; place_facts Hok; destruct_and? Hok; place_facts Hah; simpl_sub Hah; cbn [low] in Hlow, HR; cbn [cur] in Hlt; field_facts Hlow HR; norm.

Ltac intro_joined :=
  let p := fresh "p" in let Hok := fresh "Hok" in let Hlow := fresh "Hlow" in let Hah := fresh "Hah" in let HR := fresh "HR" in
  let x := fresh "x" in let x2 := fresh "x" in let Hk := fresh "Hk" in
  intros p x x2 (Hok & Hlow & Hah & HR & Hk); destruct p; place_facts Hok; destruct_and? Hok; place_facts Hah; simpl_sub Hah;
  cbn [low] in Hlow, HR; place_facts Hk; destruct_and? Hk; field_facts Hlow HR; norm.

Ltac intro_moved :=
  let c := fresh "c" in let Hc := fresh "Hc" in intros c Hc; place_facts Hc; norm.

Ltac is_backward c :=
  lazymatch c with
  | context [from_end] => idtac
  | context [@cursor_back] => idtac
  | context [@cursor_prev] => idtac
  | context [@grouping_b] => idtac
  | context [@non_grouping_b] => idtac
  | context [@equal_b] => idtac
  | context [@among_b] => idtac
  | context [@limit_backward] => idtac
  | _ =>
    match c with
    | context [call ?m] =>
      first [let H := constr:(_ : Moves Backward _ m) in idtac | let H := constr:(_ : Edits Backward _ _ m) in idtac]
    end
  end.

Ltac edits_text c :=
  lazymatch c with
  | context [@delete] => idtac
  | context [@replace] => idtac
  | context [@insert_here] => idtac
  | context [@put] => idtac
  | _ => match c with context [call ?m] => assert_fails (idtac; let H := constr:(_ : Moves _ _ m) in idtac) end
  end.

Ltac keeps_fields c :=
  lazymatch c with
  | context [@put] => fail
  | _ => assert_fails (idtac; match c with context [call ?m] => assert_fails (idtac; let H := constr:(_ : Moves _ _ m) in idtac) end)
  end.

Ltac sets_slice c :=
  lazymatch c with
  | context [@bra_cursor] => idtac
  | context [@ket_cursor] => idtac
  | context [@backward_to] => idtac
  | context [@backward_cursor] => idtac
  end.

(** A block that only edits a slice it was entered with. *)
Ltac uses_slice c :=
  lazymatch c with context [@delete] => idtac | context [@replace] => idtac end;
  lazymatch c with context [@ket_cursor] => fail | _ => idtac end.

(** Whether the next use of the end of the slice is to read it, as [Return true], or
    to set it; [Next] and [Break] tell how a statement without a use ends. *)
Ltac ket_use c :=
  lazymatch c with
  | seq ?a ?b => let r := ket_use a in lazymatch r with Next => ket_use b | _ => r end
  | local _ ?k => let b := eval cbv beta in (k 0) in ket_use b
  | found _ ?k => let b := eval cbv beta in (k 0) in ket_use b
  | block ?l ?b => let r := ket_use b in lazymatch r with Break l => constr:(Next) | _ => r end
  | break_ ?l => constr:(Break l)
  | unless delete _ => constr:(Return true)
  | unless (replace _) _ => constr:(Return true)
  | ket_cursor => constr:(Return false)
  | switch _ ?cases =>
    lazymatch cases with
    | context [@ket_cursor] => constr:(Return false)
    | context [@delete] => constr:(Return true)
    | context [@replace] => constr:(Return true)
    | _ => constr:(Next)
    end
  | _ => constr:(Next)
  end.

(** The same after a statement that ends as [f] says. *)
Ltac ket_after f Q :=
  lazymatch f with
  | Return _ => f
  | Next =>
    lazymatch Q with
    | andthen _ _ ?k ?Q1 => let r := ket_use k in ket_after r Q1
    | through _ ?Q1 => ket_after f Q1
    | block_post _ (joined _ true _ _) _ => constr:(Return true)
    | _ => constr:(Return false)
    end
  | Break ?l =>
    lazymatch Q with
    | andthen _ _ _ ?Q1 => ket_after f Q1
    | through l ?Q1 => ket_after Next Q1
    | through _ ?Q1 => ket_after f Q1
    | block_post l (joined _ true _ _) _ => constr:(Return true)
    | block_post l _ _ => constr:(Return false)
    | block_post _ _ ?Q1 => ket_after f Q1
    | _ => constr:(Return false)
    end
  end.

Ltac with_dir c k := tryif is_backward c then k Backward else k Forward.
Ltac table := vm_compute; reflexivity.
Ltac table_methods :=
  lazymatch goal with |- methods_move _ ?v => unfold methods_move, v end;
  repeat (apply Forall_cons; split; [cbn; first [exact I|typeclasses eauto]|]); apply Forall_nil; exact I.
Ltac sizes_of H :=
  lazymatch type of H with
  | context [least ?v] => let l := eval vm_compute in (least v) in change (least v) with l in H
  end; cbn [one_of] in H; place_facts H.

(** [rels k] tries [k] with the relations of a stemmer, the strongest first; here
    with those that hold where a block or loop starts. *)
Ltac with_rel rels c p x x2 k :=
  tryif keeps_fields c then k (same x x2)
  else rels ltac:(fun R => assert_succeeds (assert (R (low p) x x2) by (cbn [low]; related)); k R).

(** How much was found matters where a method has to move. *)
Ltac size_facts Q H := lazymatch Q with context [@consumed] => sizes_of H | _ => clear H end.

(** An alternative of an [or]: it ends in a jump, and has at most two ways to the next one. *)
Ltac ends_in_jump c :=
  lazymatch c with
  | seq _ ?b => ends_in_jump b
  | local _ ?k => let b := eval cbv beta in (k 0) in ends_in_jump b
  | found _ ?k => let b := eval cbv beta in (k 0) in ends_in_jump b
  | break_ _ => idtac
  | continue_ _ => idtac
  | return_ _ => idtac
  end.
Ltac alternative l c :=
  ends_in_jump c;
  lazymatch c with
  | context C [@break_ ?X l] =>
    let c' := context C [@continue_ X l] in
    lazymatch c' with
    | context D [break_ l] => let c'' := context D [@continue_ X l] in lazymatch c'' with context [break_ l] => fail | _ => idtac end
    | _ => idtac
    end
  end.

Ltac snow_join rels l c p x x2 Q :=
  tryif alternative l c then apply wp_block_through; norm
  else tryif (tryif is_backward c then uses_slice c else edits_text c) then apply wp_block_through; norm
  else tryif edits_text c then
    lazymatch Q with
    | andthen _ _ (return_ _) (returns (λ _ _ _, True)) => apply (wp_block _ _ (λ _ _ _, True)); [norm|intros ??? _; norm]
    | _ =>
      let o := ket_use c in let o := lazymatch o with Return ?b => b | _ => constr:(false) end in
      let r := ket_after Next Q in let r := lazymatch r with Return ?b => b | _ => constr:(false) end in
      with_rel rels c p x x2 ltac:(fun R => apply (block_joined _ _ _ _ _ _ o r R); [norm|intro_joined])
    end
  else tryif sets_slice c then apply wp_block_through; norm
  else with_dir c ltac:(fun d => apply (block_moves _ _ _ _ _ _ d); [norm|intro_moved]).

Ltac snow_block rels l c p x x2 Q :=
  lazymatch c with
  | unless (call ?t) (break_ l) =>
    first [eapply (do_moves _ _ _ _ _ _ t); [typeclasses eauto|inside|cbn [low]; related|intro_moved]
          |eapply (do_edits _ _ _ _ _ _ t); [typeclasses eauto|inside|cbn [low]; related|intro_edited]
          |snow_join rels l c p x x2 Q]
  | _ => snow_join rels l c p x x2 Q
  end.

Ltac letters c k :=
  lazymatch c with context [replace (lit "y")] => k upper_letters | _ => k lower_letters end.

Ltac snow_loop rels l c p x x2 :=
  tryif edits_text c then
    tryif (tryif is_backward c then fail else lazymatch c with context [@among] => fail | _ => idtac end) then
      with_rel rels c p x x2 ltac:(fun R =>
        letters c ltac:(fun L =>
          lazymatch c with
          | context [@forever] => apply (wp_forever_lighter L R); [inside|cbn [low]; related|intro_weighed]
          | _ => apply (wp_forever_weighed L R); [inside|cbn [low]; related|intro_weighed]
          end))
    else with_rel rels c p x x2 ltac:(fun R => with_dir c ltac:(fun d => apply (wp_forever_edits d R); [inside|cbn [low]; related|intro_edited]))
  else tryif sets_slice c then
    with_dir c ltac:(fun d => apply (wp_forever_slices d); [inside
      |let c := fresh "c" in let Hc := fresh "Hc" in intros c ?b ?k Hc; place_facts Hc; norm])
  else with_dir c ltac:(fun d => apply (wp_forever_moves d); [inside|intro_moved]).

(** The letters matter in the loops that change them. *)
Ltac weight_facts Q s H :=
  lazymatch Q with
  | context [weighed ?L] => specialize (H L); let w := eval vm_compute in (weight L s) in change (weight L s) with w in H
  | _ => clear H
  end.

Ltac snow_test rels tst Q :=
  lazymatch tst with
  | delete => apply wp_delete; [lia..|let Ht := fresh "Ht" in let Hc := fresh "Hc" in intros ?t ?c Ht Hc; place_facts Hc; norm]
  | replace ?s =>
    apply wp_replace; [lia..
      |let z := eval vm_compute in (zlen s) in change (zlen s) with z;
       let Ht := fresh "Ht" in let Hc := fresh "Hc" in let Hw := fresh "Hw" in intros ?t ?c Ht Hc Hw; place_facts Hc; weight_facts Q s Hw; norm]
  | call ?f =>
    first [eapply (call_moves _ _ _ _ _ _ f); [typeclasses eauto|inside|cbn [low]; related|intro_moved..]
          |eapply (call_consumes _ _ _ _ _ _ f); [typeclasses eauto|inside|cbn [low]; related|intro_consumed|intro_edited]
          |eapply (call_edits _ _ _ _ _ _ f); [typeclasses eauto|inside|cbn [low]; related|intro_edited..]
          |eapply (call_within _ _ _ _ _ _ f); [typeclasses eauto|inside|cbn [low]; related|cbn [cur low]; lia|intro_edited..]
          |unfold f; apply call_inline]
  | equal _ ?s =>
    apply test_equal; [inside|reflexivity
      |let Hc := fresh "Hc" in let Hl := fresh "Hl" in let Hw := fresh "Hw" in
       intros ?c Hc Hl Hw; cbv beta iota delta [text cur lim low left right move] in Hc, Hl, Hw; weight_facts Q s Hw; norm|]
  | field_b _ => apply test_field; [inside|agree|intro_moved..]
  | some (among _ _) => apply wp_some; [inside|table..|intro_moved|intro_moved]
  | some (among_b _ _) =>
    first [apply some_b; [inside|table..|intro_moved|intro_moved]
          |rels ltac:(fun R => apply (wp_some_b _ _ R); [inside|cbn [low]; related|table|table_methods|intro_moved|intro_moved])]
  | _ =>
    eapply (test_steps _ _ _ _ _ _ tst); [typeclasses eauto|inside
      |let c := fresh "c" in let Hc := fresh "Hc" in let Hne := fresh "Hne" in intros c Hc Hne; place_facts Hc; cbn [cur] in Hne; norm|]
  end.

Ltac is_var_eq H := lazymatch type of H with _ = ?r => first [is_var r | constr_eq r 0] end.

Ltac snow_step rels :=
  lazymatch goal with
  | |- wp _ _ ?code ?p ?fx ?fx2 ?Q =>
    lazymatch code with
    | seq _ _ => apply wp_seq
    | break_ _ => apply wp_break; norm
    | continue_ _ => apply wp_continue; norm
    | return_ _ => apply wp_return; norm
    | local _ _ => apply wp_local; [agree|let v := fresh "v" in let Hv := fresh "Hv" in intros v Hv; unfold from_end in Hv; cbn in Hv; simpl_sub Hv; try (is_var_eq Hv; subst v)]
    | when _ _ => apply wp_when; [agree|let Hb := fresh "Hb" in intros Hb; cbn in Hb; try (exfalso; apply bool_decide_eq_true_1 in Hb; revert Hb; apply slice_nonempty; lia)|let Hb := fresh "Hb" in intros Hb; cbn in Hb; norm]
    | cursor_to _ => apply wp_cursor_to; norm
    | cursor_back _ => apply wp_cursor_back; norm
    | cursor_limit => apply wp_cursor_limit; norm
    | cursor_backward => apply wp_cursor_backward; norm
    | cursor_mark _ => apply wp_cursor_mark; [agree|norm]
    | cursor_next => apply wp_cursor_next; norm
    | cursor_prev => apply wp_cursor_prev; norm
    | backward_to _ => apply wp_backward_to; norm
    | backward_cursor => apply wp_backward_cursor; norm
    | bra_cursor => apply wp_bra_cursor; norm
    | ket_cursor => apply wp_ket_cursor; norm
    | put _ => apply wp_put; norm; try (rewrite !slice_to_at by lia); cbn [put_at text cur lim low left right current cursor limit limit_backward own]
    | insert_here _ => apply wp_insert_here; [lia|let Ht := fresh "Ht" in intros ?t ?b ?k ?n ? Ht; norm]
    | unless ?t _ => snow_test rels t Q
    | found (among _ _) _ =>
      apply wp_among; [inside|table..|let Hc := fresh "Hc" in let Hr := fresh "Hr" in intros ?c ?r Hc Hr; place_facts Hc; sizes_of Hr; norm]
    | found (among_b _ _) _ =>
      first [apply find_b; [inside|table..|let Hc := fresh "Hc" in let Hr := fresh "Hr" in intros ?c ?r Hc Hr; place_facts Hc; size_facts Q Hr; norm]
            |rels ltac:(fun R => apply (wp_among_b _ _ R); [inside|cbn [low]; related|table|table_methods
              |let Hc := fresh "Hc" in let Hr := fresh "Hr" in intros ?c ?r Hc Hr; place_facts Hc; size_facts Q Hr; norm])]
    | switch _ _ =>
      apply wp_switch; [repeat (apply Forall_cons; split; [let Hr := fresh "Hr" in intros Hr|]); [..|apply Forall_nil; exact I]
        |let Ho := fresh "Ho" in intros Ho; cbn [other] in Ho; try (exfalso; lia); norm]
    | block ?n ?body => snow_block rels n body p fx fx2 Q
    | forever ?n ?body => snow_loop rels n body p fx fx2
    | at_least _ _ ?body _ => with_dir body ltac:(fun d => apply (wp_loop_moves d); [inside|intro_moved])
    end
  | |- ∀ v, wp _ _ _ _ _ _ _ => let v := fresh "v" in intros v
  | |- _ => finish
  end.

Ltac snow rels := repeat snow_step rels.

(** The proof about [stem], from its start on. *)
Ltac snow_stem rels :=
  intros w ?m ?m2 ?x ?x2; unfold start; pose proof (zlen_nonneg w); snow rels.

(** A recursive method, by induction on its fuel. *)
Ltac snow_within rels :=
  apply method_within; intros ?m ?m2 [?t ?c ?l ?lb ?b ?k] ?x ?x2 Hok HR Hn; place_facts Hok; destruct_and? Hok; cbn [low] in HR;
  cbn [cur low] in Hn; lazymatch type of HR with ?r _ _ _ => try unfold r in HR end; destruct_and? HR; snow rels.

(** The start of a proof about a method. *)
Ltac snow_method :=
  let Hok := fresh "Hok" in let HR := fresh "HR" in
  intros ?m ?m2 [?t ?c ?l ?lb ?b ?k] ?x ?x2 Hok HR; place_facts Hok; destruct_and? Hok; cbn [low] in HR;
  lazymatch type of HR with ?r _ _ _ => try unfold r in HR end; destruct_and? HR.

Ltac snow_proof rels :=
  lazymatch goal with
  | |- Moves _ _ _ => apply method_moves; snow_method; snow rels
  | |- Edits _ _ _ _ => apply method_edits; snow_method; snow rels
  | |- Consumes _ _ _ => apply method_consumes; snow_method; snow rels
  | |- Stems _ => apply method_stems; snow_stem rels
  end.
End Rules.
