(* ===== verification/Danish.v ===== *)
(** * The Danish stemmer

    Model of [src/misc/oktavia/src/stemmer/danish-stemmer.jsx], one of the
    stemmers that were generated from Snowball scripts: its tables of endings, its
    groups of letters and its methods, statement by statement.  The instances show
    that every method returns and that the stemmer does not depend on the words it
    stemmed before. *)

From S2P Require Import Prelude JsObject Suffixes BaseStemmer Snowball SnowballRules.

Local Open Scope Z_scope.
Local Open Scope snow_scope.

Module Danish.
Import Stemmer Snow Rules.

(** ** Model *)

Record fields := { I_x : Z; I_p1 : Z; S_ch : jsstr }.

Definition set_I_x (v : Z) (x : fields) : fields :=
  {| I_x := v; I_p1 := I_p1 x; S_ch := S_ch x |}.
Definition set_I_p1 (v : Z) (x : fields) : fields :=
  {| I_x := I_x x; I_p1 := v; S_ch := S_ch x |}.
Definition set_S_ch (v : jsstr) (x : fields) : fields :=
  {| I_x := I_x x; I_p1 := I_p1 x; S_ch := v |}.

Definition a_0 : list (Among fields) :=
  [entry (lit "hed") (-1) 1;
   entry (lit "ethed") 0 1;
   entry (lit "ered") (-1) 1;
   entry (lit "e") (-1) 1;
   entry (lit "erede") 3 1;
   entry (lit "ende") 3 1;
   entry (lit "erende") 5 1;
   entry (lit "ene") 3 1;
   entry (lit "erne") 3 1;
   entry (lit "ere") 3 1;
   entry (lit "en") (-1) 1;
   entry (lit "heden") 10 1;
   entry (lit "eren") 10 1;
   entry (lit "er") (-1) 1;
   entry (lit "heder") 13 1;
   entry (lit "erer") 13 1;
   entry (lit "s") (-1) 2;
   entry (lit "heds") 16 1;
   entry (lit "es") 16 1;
   entry (lit "endes") 18 1;
   entry (lit "erendes") 19 1;
   entry (lit "enes") 18 1;
   entry (lit "ernes") 18 1;
   entry (lit "eres") 18 1;
   entry (lit "ens") 16 1;
   entry (lit "hedens") 24 1;
   entry (lit "erens") 24 1;
   entry (lit "ers") 16 1;
   entry (lit "ets") 16 1;
   entry (lit "erets") 28 1;
   entry (lit "et") (-1) 1;
   entry (lit "eret") 30 1].

Definition a_1 : list (Among fields) :=
  [entry (lit "gd") (-1) (-1);
   entry (lit "dt") (-1) (-1);
   entry (lit "gt") (-1) (-1);
   entry (lit "kt") (-1) (-1)].

Definition a_2 : list (Among fields) :=
  [entry (lit "ig") (-1) 1;
   entry (lit "lig") 0 1;
   entry (lit "elig") 1 1;
   entry (lit "els") (-1) 1;
   entry (lit "l\u00F8st") (-1) 2].

Definition g_v : list Z := [17; 65; 16; 1; 0; 0; 0; 0; 0; 0; 0; 0; 0; 0; 0; 0; 48; 0; 128].
Definition g_s_ending : list Z := [239; 254; 42; 3; 0; 0; 0; 0; 0; 0; 0; 0; 0; 0; 0; 0; 16].

Definition r_mark_regions : test fields := method (
  put (λ st, set_I_p1 (limit st) (own st)) ;;
  var v_1 := cursor ;;
  var c := (λ st, cursor st + 3) ;;
  when (λ st, (c <? 0) || (limit st <? c)) (return_ false) ;;
  cursor_to c ;;
  put (λ st, set_I_x (cursor st) (own st)) ;;
  cursor_to v_1 ;;
  forever 0 (
    var v_2 := cursor ;;
    block 1 (
      unless (grouping g_v 97 248) (break_ 1) ;;
      cursor_to v_2 ;;
      break_ 0) ;;
    cursor_to v_2 ;;
    when (λ st, limit st <=? cursor st) (return_ false) ;;
    cursor_next) ;;
  forever 2 (
    block 3 (
      unless (non_grouping g_v 97 248) (break_ 3) ;;
      break_ 2) ;;
    when (λ st, limit st <=? cursor st) (return_ false) ;;
    cursor_next) ;;
  put (λ st, set_I_p1 (cursor st) (own st)) ;;
  block 4 (
    when (λ st, negb (I_p1 (own st) <? I_x (own st))) (break_ 4) ;;
    put (λ st, set_I_p1 (I_x (own st)) (own st))) ;;
  return_ true).

Definition r_main_suffix : test fields := method (
  var v_1 := from_end ;;
  when (λ st, cursor st <? I_p1 (own st)) (return_ false) ;;
  cursor_mark I_p1 ;;
  var v_2 := limit_backward ;;
  backward_cursor ;;
  cursor_back v_1 ;;
  ket_cursor ;;
  var among_var in among_b a_0 32 ;;
  when (λ st, among_var =? 0) (
    backward_to v_2 ;;
    return_ false) ;;
  bra_cursor ;;
  backward_to v_2 ;;
  switch among_var [
    (0, return_ false);
    (1, unless delete (return_ false));
    (2,
      unless (grouping_b g_s_ending 97 229) (return_ false) ;;
      unless delete (return_ false))] ;;
  return_ true).

Definition r_consonant_pair : test fields := method (
  var v_1 := from_end ;;
  var v_2 := from_end ;;
  when (λ st, cursor st <? I_p1 (own st)) (return_ false) ;;
  cursor_mark I_p1 ;;
  var v_3 := limit_backward ;;
  backward_cursor ;;
  cursor_back v_2 ;;
  ket_cursor ;;
  unless (some (among_b a_1 4)) (
    backward_to v_3 ;;
    return_ false) ;;
  bra_cursor ;;
  backward_to v_3 ;;
  cursor_back v_1 ;;
  when (λ st, cursor st <=? limit_backward st) (return_ false) ;;
  cursor_prev ;;
  bra_cursor ;;
  unless delete (return_ false) ;;
  return_ true).

Definition r_other_suffix : test fields := method (
  var v_1 := from_end ;;
  block 0 (
    ket_cursor ;;
    unless (equal_b 2 (lit "st")) (break_ 0) ;;
    bra_cursor ;;
    unless (equal_b 2 (lit "ig")) (break_ 0) ;;
    unless delete (return_ false)) ;;
  cursor_back v_1 ;;
  var v_2 := from_end ;;
  when (λ st, cursor st <? I_p1 (own st)) (return_ false) ;;
  cursor_mark I_p1 ;;
  var v_3 := limit_backward ;;
  backward_cursor ;;
  cursor_back v_2 ;;
  ket_cursor ;;
  var among_var in among_b a_2 5 ;;
  when (λ st, among_var =? 0) (
    backward_to v_3 ;;
    return_ false) ;;
  bra_cursor ;;
  backward_to v_3 ;;
  switch among_var [
    (0, return_ false);
    (1,
      unless delete (return_ false) ;;
      var v_4 := from_end ;;
      block 1 (unless (call r_consonant_pair) (break_ 1)) ;;
      cursor_back v_4);
    (2, unless (replace (lit "l\u00F8s")) (return_ false))] ;;
  return_ true).

Definition r_undouble : test fields := method (
  var v_1 := from_end ;;
  when (λ st, cursor st <? I_p1 (own st)) (return_ false) ;;
  cursor_mark I_p1 ;;
  var v_2 := limit_backward ;;
  backward_cursor ;;
  cursor_back v_1 ;;
  ket_cursor ;;
  unless (non_grouping_b g_v 97 248) (
    backward_to v_2 ;;
    return_ false) ;;
  bra_cursor ;;
  put (λ st, set_S_ch (slice_to st) (own st)) ;;
  when (λ st, bool_decide (S_ch (own st) = [])) (return_ false) ;;
  backward_to v_2 ;;
  unless (field_b S_ch) (return_ false) ;;
  unless delete (return_ false) ;;
  return_ true).

Definition stem : test fields := method (
  var v_1 := cursor ;;
  block 0 (unless (call r_mark_regions) (break_ 0)) ;;
  cursor_to v_1 ;;
  backward_cursor ;;
  cursor_limit ;;
  var v_2 := from_end ;;
  block 1 (unless (call r_main_suffix) (break_ 1)) ;;
  cursor_back v_2 ;;
  var v_3 := from_end ;;
  block 2 (unless (call r_consonant_pair) (break_ 2)) ;;
  cursor_back v_3 ;;
  var v_4 := from_end ;;
  block 3 (unless (call r_other_suffix) (break_ 3)) ;;
  cursor_back v_4 ;;
  var v_5 := from_end ;;
  block 4 (unless (call r_undouble) (break_ 4)) ;;
  cursor_back v_5 ;;
  cursor_backward ;;
  return_ true).

Definition copy_from (st other : Stemmer.t fields) : Stemmer.t fields :=
  Stemmer.copy_from (set_own st {| I_x := I_x (own other); I_p1 := I_p1 (own other); S_ch := S_ch (own other) |}) other.

Definition new : Stemmer.t fields := Stemmer.new {| I_x := 0; I_p1 := 0; S_ch := [] |}.

(** ** The methods return and do not depend on earlier words *)

(** Two runs agree on [I_p1], where the mark is not below the limit. *)
Definition live (lb : Z) (x x2 : fields) : Prop :=
  I_p1 x2 = I_p1 x ∧ lb ≤ I_p1 x.
Ltac rels k := first [k live | k (@any fields)].

#[global] Typeclasses Opaque r_mark_regions r_main_suffix r_consonant_pair r_other_suffix r_undouble.

#[global] Instance r_mark_regions_ok : Edits Forward any live r_mark_regions.
Proof. snow_proof rels. Qed.
#[global] Instance r_main_suffix_ok : Edits Backward live live r_main_suffix.
Proof. snow_proof rels. Qed.
#[global] Instance r_consonant_pair_ok : Edits Backward live live r_consonant_pair.
Proof. snow_proof rels. Qed.
#[global] Instance r_other_suffix_ok : Edits Backward live live r_other_suffix.
Proof. snow_proof rels. Qed.
#[global] Instance r_undouble_ok : Edits Backward live live r_undouble.
Proof. snow_proof rels. Qed.
#[global] Instance stem_ok : Stems stem.
Proof. snow_proof rels. Qed.

End Danish.
