(* ===== verification/Dutch.v ===== *)
(** * The Dutch stemmer

    Model of [src/misc/oktavia/src/stemmer/dutch-stemmer.jsx], one of the stemmers
    that were generated from Snowball scripts: its tables of endings, its groups
    of letters and its methods, statement by statement.  The instances show that
    every method returns and that the stemmer does not depend on the words it
    stemmed before. *)

From S2P Require Import Prelude JsObject Suffixes BaseStemmer Snowball SnowballRules.

Local Open Scope Z_scope.
Local Open Scope snow_scope.

Module Dutch.
Import Stemmer Snow Rules.

(** ** Model *)

Record fields := { I_p2 : Z; I_p1 : Z; B_e_found : bool }.

Definition set_I_p2 (v : Z) (x : fields) : fields :=
  {| I_p2 := v; I_p1 := I_p1 x; B_e_found := B_e_found x |}.
Definition set_I_p1 (v : Z) (x : fields) : fields :=
  {| I_p2 := I_p2 x; I_p1 := v; B_e_found := B_e_found x |}.
Definition set_B_e_found (v : bool) (x : fields) : fields :=
  {| I_p2 := I_p2 x; I_p1 := I_p1 x; B_e_found := v |}.

Definition a_0 : list (Among fields) :=
  [entry (lit "") (-1) 6;
   entry (lit "\u00E1") 0 1;
   entry (lit "\u00E4") 0 1;
   entry (lit "\u00E9") 0 2;
   entry (lit "\u00EB") 0 2;
   entry (lit "\u00ED") 0 3;
   entry (lit "\u00EF") 0 3;
   entry (lit "\u00F3") 0 4;
   entry (lit "\u00F6") 0 4;
   entry (lit "\u00FA") 0 5;
   entry (lit "\u00FC") 0 5].

Definition a_1 : list (Among fields) :=
  [entry (lit "") (-1) 3;
   entry (lit "I") 0 2;
   entry (lit "Y") 0 1].

Definition a_2 : list (Among fields) :=
  [entry (lit "dd") (-1) (-1);
   entry (lit "kk") (-1) (-1);
   entry (lit "tt") (-1) (-1)].

Definition a_3 : list (Among fields) :=
  [entry (lit "ene") (-1) 2;
   entry (lit "se") (-1) 3;
   entry (lit "en") (-1) 2;
   entry (lit "heden") 2 1;
   entry (lit "s") (-1) 3].

Definition a_4 : list (Among fields) :=
  [entry (lit "end") (-1) 1;
   entry (lit "ig") (-1) 2;
   entry (lit "ing") (-1) 1;
   entry (lit "lijk") (-1) 3;
   entry (lit "baar") (-1) 4;
   entry (lit "bar") (-1) 5].

Definition a_5 : list (Among fields) :=
  [entry (lit "aa") (-1) (-1);
   entry (lit "ee") (-1) (-1);
   entry (lit "oo") (-1) (-1);
   entry (lit "uu") (-1) (-1)].

Definition g_v : list Z := [17; 65; 16; 1; 0; 0; 0; 0; 0; 0; 0; 0; 0; 0; 0; 0; 128].
Definition g_v_I : list Z := [1; 0; 0; 17; 65; 16; 1; 0; 0; 0; 0; 0; 0; 0; 0; 0; 0; 0; 0; 128].
Definition g_v_j : list Z := [17; 67; 16; 1; 0; 0; 0; 0; 0; 0; 0; 0; 0; 0; 0; 0; 128].

Definition r_prelude : test fields := method (
  var v_1 := cursor ;;
  forever 0 (
    var v_2 := cursor ;;
    block 1 (
      bra_cursor ;;
      var among_var in among a_0 11 ;;
      when (λ st, among_var =? 0) (break_ 1) ;;
      ket_cursor ;;
      switch among_var [
        (0, break_ 1);
        (1, unless (replace (lit "a")) (return_ false));
        (2, unless (replace (lit "e")) (return_ false));
        (3, unless (replace (lit "i")) (return_ false));
        (4, unless (replace (lit "o")) (return_ false));
        (5, unless (replace (lit "u")) (return_ false));
        (6,
          when (λ st, limit st <=? cursor st) (break_ 1) ;;
          cursor_next)] ;;
      continue_ 0) ;;
    cursor_to v_2 ;;
    break_ 0) ;;
  cursor_to v_1 ;;
  var v_3 := cursor ;;
  block 2 (
    bra_cursor ;;
    unless (equal 1 (lit "y")) (
      cursor_to v_3 ;;
      break_ 2) ;;
    ket_cursor ;;
    unless (replace (lit "Y")) (return_ false)) ;;
  forever 3 (
    var v_4 := cursor ;;
    block 4 (
      forever 5 (
        var v_5 := cursor ;;
        block 6 (
          unless (grouping g_v 97 232) (break_ 6) ;;
          bra_cursor ;;
          block 7 (
            var v_6 := cursor ;;
            block 8 (
              unless (equal 1 (lit "i")) (break_ 8) ;;
              ket_cursor ;;
              unless (grouping g_v 97 232) (break_ 8) ;;
              unless (replace (lit "I")) (return_ false) ;;
              break_ 7) ;;
            cursor_to v_6 ;;
            unless (equal 1 (lit "y")) (break_ 6) ;;
            ket_cursor ;;
            unless (replace (lit "Y")) (return_ false)) ;;
          cursor_to v_5 ;;
          break_ 5) ;;
        cursor_to v_5 ;;
        when (λ st, limit st <=? cursor st) (break_ 4) ;;
        cursor_next) ;;
      continue_ 3) ;;
    cursor_to v_4 ;;
    break_ 3) ;;
  return_ true).

Definition r_mark_regions : test fields := method (
  put (λ st, set_I_p1 (limit st) (own st)) ;;
  put (λ st, set_I_p2 (limit st) (own st)) ;;
  forever 0 (
    block 1 (
      unless (grouping g_v 97 232) (break_ 1) ;;
      break_ 0) ;;
    when (λ st, limit st <=? cursor st) (return_ false) ;;
    cursor_next) ;;
  forever 2 (
    block 3 (
      unless (non_grouping g_v 97 232) (break_ 3) ;;
      break_ 2) ;;
    when (λ st, limit st <=? cursor st) (return_ false) ;;
    cursor_next) ;;
  put (λ st, set_I_p1 (cursor st) (own st)) ;;
  block 4 (
    when (λ st, negb (I_p1 (own st) <? 3)) (break_ 4) ;;
    put (λ st, set_I_p1 3 (own st))) ;;
  forever 5 (
    block 6 (
      unless (grouping g_v 97 232) (break_ 6) ;;
      break_ 5) ;;
    when (λ st, limit st <=? cursor st) (return_ false) ;;
    cursor_next) ;;
  forever 7 (
    block 8 (
      unless (non_grouping g_v 97 232) (break_ 8) ;;
      break_ 7) ;;
    when (λ st, limit st <=? cursor st) (return_ false) ;;
    cursor_next) ;;
  put (λ st, set_I_p2 (cursor st) (own st)) ;;
  return_ true).

Definition r_postlude : test fields := method (
  forever 0 (
    var v_1 := cursor ;;
    block 1 (
      bra_cursor ;;
      var among_var in among a_1 3 ;;
      when (λ st, among_var =? 0) (break_ 1) ;;
      ket_cursor ;;
      switch among_var [
        (0, break_ 1);
        (1, unless (replace (lit "y")) (return_ false));
        (2, unless (replace (lit "i")) (return_ false));
        (3,
          when (λ st, limit st <=? cursor st) (break_ 1) ;;
          cursor_next)] ;;
      continue_ 0) ;;
    cursor_to v_1 ;;
    break_ 0) ;;
  return_ true).

Definition r_R1 : test fields := method (
  when (λ st, negb (I_p1 (own st) <=? cursor st)) (return_ false) ;;
  return_ true).

Definition r_R2 : test fields := method (
  when (λ st, negb (I_p2 (own st) <=? cursor st)) (return_ false) ;;
  return_ true).

Definition r_undouble : test fields := method (
  var v_1 := from_end ;;
  unless (some (among_b a_2 3)) (return_ false) ;;
  cursor_back v_1 ;;
  ket_cursor ;;
  when (λ st, cursor st <=? limit_backward st) (return_ false) ;;
  cursor_prev ;;
  bra_cursor ;;
  unless delete (return_ false) ;;
  return_ true).

Definition r_e_ending : test fields := method (
  put (λ st, set_B_e_found false (own st)) ;;
  ket_cursor ;;
  unless (equal_b 1 (lit "e")) (return_ false) ;;
  bra_cursor ;;
  unless (call r_R1) (return_ false) ;;
  var v_1 := from_end ;;
  unless (non_grouping_b g_v 97 232) (return_ false) ;;
  cursor_back v_1 ;;
  unless delete (return_ false) ;;
  put (λ st, set_B_e_found true (own st)) ;;
  unless (call r_undouble) (return_ false) ;;
  return_ true).

Definition r_en_ending : test fields := method (
  unless (call r_R1) (return_ false) ;;
  var v_1 := from_end ;;
  unless (non_grouping_b g_v 97 232) (return_ false) ;;
  cursor_back v_1 ;;
  var v_2 := from_end ;;
  block 0 (
    unless (equal_b 3 (lit "gem")) (break_ 0) ;;
    return_ false) ;;
  cursor_back v_2 ;;
  unless delete (return_ false) ;;
  unless (call r_undouble) (return_ false) ;;
  return_ true).

Definition r_standard_suffix : test fields := method (
  var v_1 := from_end ;;
  block 0 (
    ket_cursor ;;
    var among_var in among_b a_3 5 ;;
    when (λ st, among_var =? 0) (break_ 0) ;;
    bra_cursor ;;
    switch among_var [
      (0, break_ 0);
      (1,
        unless (call r_R1) (break_ 0) ;;
        unless (replace (lit "heid")) (return_ false));
      (2, unless (call r_en_ending) (break_ 0));
      (3,
        unless (call r_R1) (break_ 0) ;;
        unless (non_grouping_b g_v_j 97 232) (break_ 0) ;;
        unless delete (return_ false))]) ;;
  cursor_back v_1 ;;
  var v_2 := from_end ;;
  block 1 (unless (call r_e_ending) (break_ 1)) ;;
  cursor_back v_2 ;;
  var v_3 := from_end ;;
  block 2 (
    ket_cursor ;;
    unless (equal_b 4 (lit "heid")) (break_ 2) ;;
    bra_cursor ;;
    unless (call r_R2) (break_ 2) ;;
    var v_4 := from_end ;;
    block 3 (
      unless (equal_b 1 (lit "c")) (break_ 3) ;;
      break_ 2) ;;
    cursor_back v_4 ;;
    unless delete (return_ false) ;;
    ket_cursor ;;
    unless (equal_b 2 (lit "en")) (break_ 2) ;;
    bra_cursor ;;
    unless (call r_en_ending) (break_ 2)) ;;
  cursor_back v_3 ;;
  var v_5 := from_end ;;
  block 4 (
    ket_cursor ;;
    var among_var in among_b a_4 6 ;;
    when (λ st, among_var =? 0) (break_ 4) ;;
    bra_cursor ;;
    switch among_var [
      (0, break_ 4);
      (1,
        unless (call r_R2) (break_ 4) ;;
        unless delete (return_ false) ;;
        block 5 (
          var v_6 := from_end ;;
          block 6 (
            ket_cursor ;;
            unless (equal_b 2 (lit "ig")) (break_ 6) ;;
            bra_cursor ;;
            unless (call r_R2) (break_ 6) ;;
            var v_7 := from_end ;;
            block 7 (
              unless (equal_b 1 (lit "e")) (break_ 7) ;;
              break_ 6) ;;
            cursor_back v_7 ;;
            unless delete (return_ false) ;;
            break_ 5) ;;
          cursor_back v_6 ;;
          unless (call r_undouble) (break_ 4)));
      (2,
        unless (call r_R2) (break_ 4) ;;
        var v_8 := from_end ;;
        block 8 (
          unless (equal_b 1 (lit "e")) (break_ 8) ;;
          break_ 4) ;;
        cursor_back v_8 ;;
        unless delete (return_ false));
      (3,
        unless (call r_R2) (break_ 4) ;;
        unless delete (return_ false) ;;
        unless (call r_e_ending) (break_ 4));
      (4,
        unless (call r_R2) (break_ 4) ;;
        unless delete (return_ false));
      (5,
        unless (call r_R2) (break_ 4) ;;
        when (λ st, negb (B_e_found (own st))) (break_ 4) ;;
        unless delete (return_ false))]) ;;
  cursor_back v_5 ;;
  var v_9 := from_end ;;
  block 9 (
    unless (non_grouping_b g_v_I 73 232) (break_ 9) ;;
    var v_10 := from_end ;;
    unless (some (among_b a_5 4)) (break_ 9) ;;
    unless (non_grouping_b g_v 97 232) (break_ 9) ;;
    cursor_back v_10 ;;
    ket_cursor ;;
    when (λ st, cursor st <=? limit_backward st) (break_ 9) ;;
    cursor_prev ;;
    bra_cursor ;;
    unless delete (return_ false)) ;;
  cursor_back v_9 ;;
  return_ true).

Definition stem : test fields := method (
  var v_1 := cursor ;;
  block 0 (unless (call r_prelude) (break_ 0)) ;;
  cursor_to v_1 ;;
  var v_2 := cursor ;;
  block 1 (unless (call r_mark_regions) (break_ 1)) ;;
  cursor_to v_2 ;;
  backward_cursor ;;
  cursor_limit ;;
  var v_3 := from_end ;;
  block 2 (unless (call r_standard_suffix) (break_ 2)) ;;
  cursor_back v_3 ;;
  cursor_backward ;;
  var v_4 := cursor ;;
  block 3 (unless (call r_postlude) (break_ 3)) ;;
  cursor_to v_4 ;;
  return_ true).

Definition copy_from (st other : Stemmer.t fields) : Stemmer.t fields :=
  Stemmer.copy_from (set_own st {| I_p2 := I_p2 (own other); I_p1 := I_p1 (own other); B_e_found := B_e_found (own other) |}) other.

Definition new : Stemmer.t fields := Stemmer.new {| I_p2 := 0; I_p1 := 0; B_e_found := false |}.

(** ** The methods return and do not depend on earlier words *)

(** Two runs agree on [I_p1] and [I_p2]. *)
Definition live (lb : Z) (x x2 : fields) : Prop :=
  I_p1 x2 = I_p1 x ∧ I_p2 x2 = I_p2 x.
(** Two runs agree on [I_p1], [I_p2] and [B_e_found]. *)
Definition found (lb : Z) (x x2 : fields) : Prop :=
  I_p1 x2 = I_p1 x ∧ I_p2 x2 = I_p2 x ∧ B_e_found x2 = B_e_found x.
Ltac rels k := first [k found | k live | k (@any fields)].

#[global] Typeclasses Opaque r_prelude r_mark_regions r_postlude r_R1 r_R2 r_undouble r_e_ending r_en_ending
  r_standard_suffix.

#[global] Instance r_prelude_ok : Edits Forward any any r_prelude.
Proof. snow_proof rels. Qed.
#[global] Instance r_mark_regions_ok : Edits Forward any live r_mark_regions.
Proof. snow_proof rels. Qed.
#[global] Instance r_postlude_ok : Edits Forward any any r_postlude.
Proof. snow_proof rels. Qed.
#[global] Instance r_R1_ok : Moves Backward live r_R1.
Proof. snow_proof rels. Qed.
#[global] Instance r_R2_ok : Moves Backward live r_R2.
Proof. snow_proof rels. Qed.
#[global] Instance r_undouble_ok : Edits Backward live live r_undouble.
Proof. snow_proof rels. Qed.
#[global] Instance r_undouble_ok2 : Edits Backward found found r_undouble.
Proof. snow_proof rels. Qed.
#[global] Instance r_e_ending_ok : Edits Backward live found r_e_ending.
Proof. snow_proof rels. Qed.
#[global] Instance r_standard_suffix_ok : Edits Backward live live r_standard_suffix.
Proof. snow_proof rels. Qed.
#[global] Instance stem_ok : Stems stem.
Proof. snow_proof rels. Qed.

End Dutch.
