(* ===== verification/English.v ===== *)
(** * The English stemmer

    Model of [src/misc/oktavia/src/stemmer/english-stemmer.jsx], one of the
    stemmers that were generated from Snowball scripts: its tables of endings, its
    groups of letters and its methods, statement by statement.  The instances show
    that every method returns and that the stemmer does not depend on the words it
    stemmed before. *)

From S2P Require Import Prelude JsObject Suffixes BaseStemmer Snowball SnowballRules.

Local Open Scope Z_scope.
Local Open Scope snow_scope.

Module English.
Import Stemmer Snow Rules.

(** ** Model *)

Record fields := { B_Y_found : bool; I_p2 : Z; I_p1 : Z }.

Definition set_B_Y_found (v : bool) (x : fields) : fields :=
  {| B_Y_found := v; I_p2 := I_p2 x; I_p1 := I_p1 x |}.
Definition set_I_p2 (v : Z) (x : fields) : fields :=
  {| B_Y_found := B_Y_found x; I_p2 := v; I_p1 := I_p1 x |}.
Definition set_I_p1 (v : Z) (x : fields) : fields :=
  {| B_Y_found := B_Y_found x; I_p2 := I_p2 x; I_p1 := v |}.

Definition a_0 : list (Among fields) :=
  [entry (lit "arsen") (-1) (-1);
   entry (lit "commun") (-1) (-1);
   entry (lit "gener") (-1) (-1)].

Definition a_1 : list (Among fields) :=
  [entry (lit "'") (-1) 1;
   entry (lit "'s'") 0 1;
   entry (lit "'s") (-1) 1].

Definition a_2 : list (Among fields) :=
  [entry (lit "ied") (-1) 2;
   entry (lit "s") (-1) 3;
   entry (lit "ies") 1 2;
   entry (lit "sses") 1 1;
   entry (lit "ss") 1 (-1);
   entry (lit "us") 1 (-1)].

Definition a_3 : list (Among fields) :=
  [entry (lit "") (-1) 3;
   entry (lit "bb") 0 2;
   entry (lit "dd") 0 2;
   entry (lit "ff") 0 2;
   entry (lit "gg") 0 2;
   entry (lit "bl") 0 1;
   entry (lit "mm") 0 2;
   entry (lit "nn") 0 2;
   entry (lit "pp") 0 2;
   entry (lit "rr") 0 2;
   entry (lit "at") 0 1;
   entry (lit "tt") 0 2;
   entry (lit "iz") 0 1].

Definition a_4 : list (Among fields) :=
  [entry (lit "ed") (-1) 2;
   entry (lit "eed") 0 1;
   entry (lit "ing") (-1) 2;
   entry (lit "edly") (-1) 2;
   entry (lit "eedly") 3 1;
   entry (lit "ingly") (-1) 2].

Definition a_5 : list (Among fields) :=
  [entry (lit "anci") (-1) 3;
   entry (lit "enci") (-1) 2;
   entry (lit "ogi") (-1) 13;
   entry (lit "li") (-1) 16;
   entry (lit "bli") 3 12;
   entry (lit "abli") 4 4;
   entry (lit "alli") 3 8;
   entry (lit "fulli") 3 14;
   entry (lit "lessli") 3 15;
   entry (lit "ousli") 3 10;
   entry (lit "entli") 3 5;
   entry (lit "aliti") (-1) 8;
   entry (lit "biliti") (-1) 12;
   entry (lit "iviti") (-1) 11;
   entry (lit "tional") (-1) 1;
   entry (lit "ational") 14 7;
   entry (lit "alism") (-1) 8;
   entry (lit "ation") (-1) 7;
   entry (lit "ization") 17 6;
   entry (lit "izer") (-1) 6;
   entry (lit "ator") (-1) 7;
   entry (lit "iveness") (-1) 11;
   entry (lit "fulness") (-1) 9;
   entry (lit "ousness") (-1) 10].

Definition a_6 : list (Among fields) :=
  [entry (lit "icate") (-1) 4;
   entry (lit "ative") (-1) 6;
   entry (lit "alize") (-1) 3;
   entry (lit "iciti") (-1) 4;
   entry (lit "ical") (-1) 4;
   entry (lit "tional") (-1) 1;
   entry (lit "ational") 5 2;
   entry (lit "ful") (-1) 5;
   entry (lit "ness") (-1) 5].

Definition a_7 : list (Among fields) :=
  [entry (lit "ic") (-1) 1;
   entry (lit "ance") (-1) 1;
   entry (lit "ence") (-1) 1;
   entry (lit "able") (-1) 1;
   entry (lit "ible") (-1) 1;
   entry (lit "ate") (-1) 1;
   entry (lit "ive") (-1) 1;
   entry (lit "ize") (-1) 1;
   entry (lit "iti") (-1) 1;
   entry (lit "al") (-1) 1;
   entry (lit "ism") (-1) 1;
   entry (lit "ion") (-1) 2;
   entry (lit "er") (-1) 1;
   entry (lit "ous") (-1) 1;
   entry (lit "ant") (-1) 1;
   entry (lit "ent") (-1) 1;
   entry (lit "ment") 15 1;
   entry (lit "ement") 16 1].

Definition a_8 : list (Among fields) :=
  [entry (lit "e") (-1) 1;
   entry (lit "l") (-1) 2].

Definition a_9 : list (Among fields) :=
  [entry (lit "succeed") (-1) (-1);
   entry (lit "proceed") (-1) (-1);
   entry (lit "exceed") (-1) (-1);
   entry (lit "canning") (-1) (-1);
   entry (lit "inning") (-1) (-1);
   entry (lit "earring") (-1) (-1);
   entry (lit "herring") (-1) (-1);
   entry (lit "outing") (-1) (-1)].

Definition a_10 : list (Among fields) :=
  [entry (lit "andes") (-1) (-1);
   entry (lit "atlas") (-1) (-1);
   entry (lit "bias") (-1) (-1);
   entry (lit "cosmos") (-1) (-1);
   entry (lit "dying") (-1) 3;
   entry (lit "early") (-1) 9;
   entry (lit "gently") (-1) 7;
   entry (lit "howe") (-1) (-1);
   entry (lit "idly") (-1) 6;
   entry (lit "lying") (-1) 4;
   entry (lit "news") (-1) (-1);
   entry (lit "only") (-1) 10;
   entry (lit "singly") (-1) 11;
   entry (lit "skies") (-1) 2;
   entry (lit "skis") (-1) 1;
   entry (lit "sky") (-1) (-1);
   entry (lit "tying") (-1) 5;
   entry (lit "ugly") (-1) 8].

Definition g_v : list Z := [17; 65; 16; 1].
Definition g_v_WXY : list Z := [1; 17; 65; 208; 1].
Definition g_valid_LI : list Z := [55; 141; 2].

Definition r_prelude : test fields := method (
  put (λ st, set_B_Y_found false (own st)) ;;
  var v_1 := cursor ;;
  block 0 (
    bra_cursor ;;
    unless (equal 1 (lit "'")) (break_ 0) ;;
    ket_cursor ;;
    unless delete (return_ false)) ;;
  cursor_to v_1 ;;
  var v_2 := cursor ;;
  block 1 (
    bra_cursor ;;
    unless (equal 1 (lit "y")) (break_ 1) ;;
    ket_cursor ;;
    unless (replace (lit "Y")) (return_ false) ;;
    put (λ st, set_B_Y_found true (own st))) ;;
  cursor_to v_2 ;;
  var v_3 := cursor ;;
  block 2 (
    forever 3 (
      var v_4 := cursor ;;
      block 4 (
        forever 5 (
          var v_5 := cursor ;;
          block 6 (
            unless (grouping g_v 97 121) (break_ 6) ;;
            bra_cursor ;;
            unless (equal 1 (lit "y")) (break_ 6) ;;
            ket_cursor ;;
            cursor_to v_5 ;;
            break_ 5) ;;
          cursor_to v_5 ;;
          when (λ st, limit st <=? cursor st) (break_ 4) ;;
          cursor_next) ;;
        unless (replace (lit "Y")) (return_ false) ;;
        put (λ st, set_B_Y_found true (own st)) ;;
        continue_ 3) ;;
      cursor_to v_4 ;;
      break_ 3)) ;;
  cursor_to v_3 ;;
  return_ true).

Definition r_mark_regions : test fields := method (
  put (λ st, set_I_p1 (limit st) (own st)) ;;
  put (λ st, set_I_p2 (limit st) (own st)) ;;
  var v_1 := cursor ;;
  block 0 (
    block 1 (
      var v_2 := cursor ;;
      block 2 (
        unless (some (among a_0 3)) (break_ 2) ;;
        break_ 1) ;;
      cursor_to v_2 ;;
      forever 3 (
        block 4 (
          unless (grouping g_v 97 121) (break_ 4) ;;
          break_ 3) ;;
        when (λ st, limit st <=? cursor st) (break_ 0) ;;
        cursor_next) ;;
      forever 5 (
        block 6 (
          unless (non_grouping g_v 97 121) (break_ 6) ;;
          break_ 5) ;;
        when (λ st, limit st <=? cursor st) (break_ 0) ;;
        cursor_next)) ;;
    put (λ st, set_I_p1 (cursor st) (own st)) ;;
    forever 7 (
      block 8 (
        unless (grouping g_v 97 121) (break_ 8) ;;
        break_ 7) ;;
      when (λ st, limit st <=? cursor st) (break_ 0) ;;
      cursor_next) ;;
    forever 9 (
      block 10 (
        unless (non_grouping g_v 97 121) (break_ 10) ;;
        break_ 9) ;;
      when (λ st, limit st <=? cursor st) (break_ 0) ;;
      cursor_next) ;;
    put (λ st, set_I_p2 (cursor st) (own st))) ;;
  cursor_to v_1 ;;
  return_ true).

Definition r_shortv : test fields := method (
  block 0 (
    var v_1 := from_end ;;
    block 1 (
      unless (non_grouping_b g_v_WXY 89 121) (break_ 1) ;;
      unless (grouping_b g_v 97 121) (break_ 1) ;;
      unless (non_grouping_b g_v 97 121) (break_ 1) ;;
      break_ 0) ;;
    cursor_back v_1 ;;
    unless (non_grouping_b g_v 97 121) (return_ false) ;;
    unless (grouping_b g_v 97 121) (return_ false) ;;
    when (λ st, limit_backward st <? cursor st) (return_ false)) ;;
  return_ true).

Definition r_R1 : test fields := method (
  when (λ st, negb (I_p1 (own st) <=? cursor st)) (return_ false) ;;
  return_ true).

Definition r_R2 : test fields := method (
  when (λ st, negb (I_p2 (own st) <=? cursor st)) (return_ false) ;;
  return_ true).

Definition r_Step_1a : test fields := method (
  var v_1 := from_end ;;
  block 0 (
    ket_cursor ;;
    var among_var in among_b a_1 3 ;;
    when (λ st, among_var =? 0) (
      cursor_back v_1 ;;
      break_ 0) ;;
    bra_cursor ;;
    switch among_var [
      (0,
        cursor_back v_1 ;;
        break_ 0);
      (1, unless delete (return_ false))]) ;;
  ket_cursor ;;
  var among_var in among_b a_2 6 ;;
  when (λ st, among_var =? 0) (return_ false) ;;
  bra_cursor ;;
  switch among_var [
    (0, return_ false);
    (1, unless (replace (lit "ss")) (return_ false));
    (2,
      block 1 (
        var v_2 := from_end ;;
        block 2 (
          var c := (λ st, cursor st - 2) ;;
          when (λ st, (c <? limit_backward st) || (limit st <? c)) (break_ 2) ;;
          cursor_to c ;;
          unless (replace (lit "i")) (return_ false) ;;
          break_ 1) ;;
        cursor_back v_2 ;;
        unless (replace (lit "ie")) (return_ false)));
    (3,
      when (λ st, cursor st <=? limit_backward st) (return_ false) ;;
      cursor_prev ;;
      forever 3 (
        block 4 (
          unless (grouping_b g_v 97 121) (break_ 4) ;;
          break_ 3) ;;
        when (λ st, cursor st <=? limit_backward st) (return_ false) ;;
        cursor_prev) ;;
      unless delete (return_ false))] ;;
  return_ true).

Definition r_Step_1b : test fields := method (
  ket_cursor ;;
  var among_var in among_b a_4 6 ;;
  when (λ st, among_var =? 0) (return_ false) ;;
  bra_cursor ;;
  switch among_var [
    (0, return_ false);
    (1,
      unless (call r_R1) (return_ false) ;;
      unless (replace (lit "ee")) (return_ false));
    (2,
      var v_1 := from_end ;;
      forever 0 (
        block 1 (
          unless (grouping_b g_v 97 121) (break_ 1) ;;
          break_ 0) ;;
        when (λ st, cursor st <=? limit_backward st) (return_ false) ;;
        cursor_prev) ;;
      cursor_back v_1 ;;
      unless delete (return_ false) ;;
      var v_3 := from_end ;;
      var among_var in among_b a_3 13 ;;
      when (λ st, among_var =? 0) (return_ false) ;;
      cursor_back v_3 ;;
      switch among_var [
        (0, return_ false);
        (1,
          var c := (λ st, cursor st) ;;
          insert_here (lit "e") ;;
          cursor_to c);
        (2,
          ket_cursor ;;
          when (λ st, cursor st <=? limit_backward st) (return_ false) ;;
          cursor_prev ;;
          bra_cursor ;;
          unless delete (return_ false));
        (3,
          when (λ st, negb (cursor st =? I_p1 (own st))) (return_ false) ;;
          var v_4 := from_end ;;
          unless (call r_shortv) (return_ false) ;;
          cursor_back v_4 ;;
          var c := (λ st, cursor st) ;;
          insert_here (lit "e") ;;
          cursor_to c)])] ;;
  return_ true).

Definition r_Step_1c : test fields := method (
  ket_cursor ;;
  block 0 (
    var v_1 := from_end ;;
    block 1 (
      unless (equal_b 1 (lit "y")) (break_ 1) ;;
      break_ 0) ;;
    cursor_back v_1 ;;
    unless (equal_b 1 (lit "Y")) (return_ false)) ;;
  bra_cursor ;;
  unless (non_grouping_b g_v 97 121) (return_ false) ;;
  var v_2 := from_end ;;
  block 2 (
    when (λ st, limit_backward st <? cursor st) (break_ 2) ;;
    return_ false) ;;
  cursor_back v_2 ;;
  unless (replace (lit "i")) (return_ false) ;;
  return_ true).

Definition r_Step_2 : test fields := method (
  ket_cursor ;;
  var among_var in among_b a_5 24 ;;
  when (λ st, among_var =? 0) (return_ false) ;;
  bra_cursor ;;
  unless (call r_R1) (return_ false) ;;
  switch among_var [
    (0, return_ false);
    (1, unless (replace (lit "tion")) (return_ false));
    (2, unless (replace (lit "ence")) (return_ false));
    (3, unless (replace (lit "ance")) (return_ false));
    (4, unless (replace (lit "able")) (return_ false));
    (5, unless (replace (lit "ent")) (return_ false));
    (6, unless (replace (lit "ize")) (return_ false));
    (7, unless (replace (lit "ate")) (return_ false));
    (8, unless (replace (lit "al")) (return_ false));
    (9, unless (replace (lit "ful")) (return_ false));
    (10, unless (replace (lit "ous")) (return_ false));
    (11, unless (replace (lit "ive")) (return_ false));
    (12, unless (replace (lit "ble")) (return_ false));
    (13,
      unless (equal_b 1 (lit "l")) (return_ false) ;;
      unless (replace (lit "og")) (return_ false));
    (14, unless (replace (lit "ful")) (return_ false));
    (15, unless (replace (lit "less")) (return_ false));
    (16,
      unless (grouping_b g_valid_LI 99 116) (return_ false) ;;
      unless delete (return_ false))] ;;
  return_ true).

Definition r_Step_3 : test fields := method (
  ket_cursor ;;
  var among_var in among_b a_6 9 ;;
  when (λ st, among_var =? 0) (return_ false) ;;
  bra_cursor ;;
  unless (call r_R1) (return_ false) ;;
  switch among_var [
    (0, return_ false);
    (1, unless (replace (lit "tion")) (return_ false));
    (2, unless (replace (lit "ate")) (return_ false));
    (3, unless (replace (lit "al")) (return_ false));
    (4, unless (replace (lit "ic")) (return_ false));
    (5, unless delete (return_ false));
    (6,
      unless (call r_R2) (return_ false) ;;
      unless delete (return_ false))] ;;
  return_ true).

Definition r_Step_4 : test fields := method (
  ket_cursor ;;
  var among_var in among_b a_7 18 ;;
  when (λ st, among_var =? 0) (return_ false) ;;
  bra_cursor ;;
  unless (call r_R2) (return_ false) ;;
  switch among_var [
    (0, return_ false);
    (1, unless delete (return_ false));
    (2,
      block 0 (
        var v_1 := from_end ;;
        block 1 (
          unless (equal_b 1 (lit "s")) (break_ 1) ;;
          break_ 0) ;;
        cursor_back v_1 ;;
        unless (equal_b 1 (lit "t")) (return_ false)) ;;
      unless delete (return_ false))] ;;
  return_ true).

Definition r_Step_5 : test fields := method (
  ket_cursor ;;
  var among_var in among_b a_8 2 ;;
  when (λ st, among_var =? 0) (return_ false) ;;
  bra_cursor ;;
  switch among_var [
    (0, return_ false);
    (1,
      block 0 (
        var v_1 := from_end ;;
        block 1 (
          unless (call r_R2) (break_ 1) ;;
          break_ 0) ;;
        cursor_back v_1 ;;
        unless (call r_R1) (return_ false) ;;
        var v_2 := from_end ;;
        block 2 (
          unless (call r_shortv) (break_ 2) ;;
          return_ false) ;;
        cursor_back v_2) ;;
      unless delete (return_ false));
    (2,
      unless (call r_R2) (return_ false) ;;
      unless (equal_b 1 (lit "l")) (return_ false) ;;
      unless delete (return_ false))] ;;
  return_ true).

Definition r_exception2 : test fields := method (
  ket_cursor ;;
  unless (some (among_b a_9 8)) (return_ false) ;;
  bra_cursor ;;
  when (λ st, limit_backward st <? cursor st) (return_ false) ;;
  return_ true).

Definition r_exception1 : test fields := method (
  bra_cursor ;;
  var among_var in among a_10 18 ;;
  when (λ st, among_var =? 0) (return_ false) ;;
  ket_cursor ;;
  when (λ st, cursor st <? limit st) (return_ false) ;;
  switch among_var [
    (0, return_ false);
    (1, unless (replace (lit "ski")) (return_ false));
    (2, unless (replace (lit "sky")) (return_ false));
    (3, unless (replace (lit "die")) (return_ false));
    (4, unless (replace (lit "lie")) (return_ false));
    (5, unless (replace (lit "tie")) (return_ false));
    (6, unless (replace (lit "idl")) (return_ false));
    (7, unless (replace (lit "gentl")) (return_ false));
    (8, unless (replace (lit "ugli")) (return_ false));
    (9, unless (replace (lit "earli")) (return_ false));
    (10, unless (replace (lit "onli")) (return_ false));
    (11, unless (replace (lit "singl")) (return_ false))] ;;
  return_ true).

Definition r_postlude : test fields := method (
  when (λ st, negb (B_Y_found (own st))) (return_ false) ;;
  forever 0 (
    var v_1 := cursor ;;
    block 1 (
      forever 2 (
        var v_2 := cursor ;;
        block 3 (
          bra_cursor ;;
          unless (equal 1 (lit "Y")) (break_ 3) ;;
          ket_cursor ;;
          cursor_to v_2 ;;
          break_ 2) ;;
        cursor_to v_2 ;;
        when (λ st, limit st <=? cursor st) (break_ 1) ;;
        cursor_next) ;;
      unless (replace (lit "y")) (return_ false) ;;
      continue_ 0) ;;
    cursor_to v_1 ;;
    break_ 0) ;;
  return_ true).

Definition stem : test fields := method (
  block 0 (
    var v_1 := cursor ;;
    block 1 (
      unless (call r_exception1) (break_ 1) ;;
      break_ 0) ;;
    cursor_to v_1 ;;
    block 2 (
      var v_2 := cursor ;;
      block 3 (
        var c := (λ st, cursor st + 3) ;;
        when (λ st, (c <? 0) || (limit st <? c)) (break_ 3) ;;
        cursor_to c ;;
        break_ 2) ;;
      cursor_to v_2 ;;
      break_ 0) ;;
    cursor_to v_1 ;;
    var v_3 := cursor ;;
    block 4 (unless (call r_prelude) (break_ 4)) ;;
    cursor_to v_3 ;;
    var v_4 := cursor ;;
    block 5 (unless (call r_mark_regions) (break_ 5)) ;;
    cursor_to v_4 ;;
    backward_cursor ;;
    cursor_limit ;;
    var v_5 := from_end ;;
    block 6 (unless (call r_Step_1a) (break_ 6)) ;;
    cursor_back v_5 ;;
    block 7 (
      var v_6 := from_end ;;
      block 8 (
        unless (call r_exception2) (break_ 8) ;;
        break_ 7) ;;
      cursor_back v_6 ;;
      var v_7 := from_end ;;
      block 9 (unless (call r_Step_1b) (break_ 9)) ;;
      cursor_back v_7 ;;
      var v_8 := from_end ;;
      block 10 (unless (call r_Step_1c) (break_ 10)) ;;
      cursor_back v_8 ;;
      var v_9 := from_end ;;
      block 11 (unless (call r_Step_2) (break_ 11)) ;;
      cursor_back v_9 ;;
      var v_10 := from_end ;;
      block 12 (unless (call r_Step_3) (break_ 12)) ;;
      cursor_back v_10 ;;
      var v_11 := from_end ;;
      block 13 (unless (call r_Step_4) (break_ 13)) ;;
      cursor_back v_11 ;;
      var v_12 := from_end ;;
      block 14 (unless (call r_Step_5) (break_ 14)) ;;
      cursor_back v_12) ;;
    cursor_backward ;;
    var v_13 := cursor ;;
    block 15 (unless (call r_postlude) (break_ 15)) ;;
    cursor_to v_13) ;;
  return_ true).

Definition copy_from (st other : Stemmer.t fields) : Stemmer.t fields :=
  Stemmer.copy_from (set_own st {| B_Y_found := B_Y_found (own other); I_p2 := I_p2 (own other); I_p1 := I_p1 (own other) |}) other.

Definition new : Stemmer.t fields := Stemmer.new {| B_Y_found := false; I_p2 := 0; I_p1 := 0 |}.

(** ** The methods return and do not depend on earlier words *)

(** Two runs agree on [B_Y_found]. *)
Definition flag (lb : Z) (x x2 : fields) : Prop :=
  B_Y_found x2 = B_Y_found x.
(** Two runs agree on [B_Y_found], [I_p1] and [I_p2]. *)
Definition live (lb : Z) (x x2 : fields) : Prop :=
  B_Y_found x2 = B_Y_found x ∧ I_p1 x2 = I_p1 x ∧ I_p2 x2 = I_p2 x.
Ltac rels k := first [k live | k flag | k (@any fields)].

#[global] Typeclasses Opaque r_prelude r_mark_regions r_shortv r_R1 r_R2 r_Step_1a r_Step_1b r_Step_1c r_Step_2 r_Step_3
  r_Step_4 r_Step_5 r_exception2 r_exception1 r_postlude.

#[global] Instance r_prelude_ok : Edits Forward any flag r_prelude.
Proof. snow_proof rels. Qed.
#[global] Instance r_mark_regions_ok : Edits Forward flag live r_mark_regions.
Proof. snow_proof rels. Qed.
#[global] Instance r_shortv_ok : Moves Backward any r_shortv.
Proof. snow_proof rels. Qed.
#[global] Instance r_R1_ok : Moves Backward live r_R1.
Proof. snow_proof rels. Qed.
#[global] Instance r_R2_ok : Moves Backward live r_R2.
Proof. snow_proof rels. Qed.
#[global] Instance r_Step_1a_ok : Edits Backward live live r_Step_1a.
Proof. snow_proof rels. Qed.
#[global] Instance r_Step_1b_ok : Edits Backward live live r_Step_1b.
Proof. snow_proof rels. Qed.
#[global] Instance r_Step_1c_ok : Edits Backward live live r_Step_1c.
Proof. snow_proof rels. Qed.
#[global] Instance r_Step_2_ok : Edits Backward live live r_Step_2.
Proof. snow_proof rels. Qed.
#[global] Instance r_Step_3_ok : Edits Backward live live r_Step_3.
Proof. snow_proof rels. Qed.
#[global] Instance r_Step_4_ok : Edits Backward live live r_Step_4.
Proof. snow_proof rels. Qed.
#[global] Instance r_Step_5_ok : Edits Backward live live r_Step_5.
Proof. snow_proof rels. Qed.
#[global] Instance r_exception2_ok : Edits Backward live live r_exception2.
Proof. snow_proof rels. Qed.
#[global] Instance r_exception1_ok : Edits Forward any any r_exception1.
Proof. snow_proof rels. Qed.
#[global] Instance r_postlude_ok : Edits Forward live live r_postlude.
Proof. snow_proof rels. Qed.
#[global] Instance stem_ok : Stems stem.
Proof. snow_proof rels. Qed.

End English.
