(* ===== verification/Finnish.v ===== *)
(** * The Finnish stemmer

    Model of [src/misc/oktavia/src/stemmer/finnish-stemmer.jsx], one of the
    stemmers that were generated from Snowball scripts: its tables of endings, its
    groups of letters and its methods, statement by statement.  The instances show
    that every method returns and that the stemmer does not depend on the words it
    stemmed before. *)

From S2P Require Import Prelude JsObject Suffixes BaseStemmer Snowball SnowballRules.

Local Open Scope Z_scope.
Local Open Scope snow_scope.

Module Finnish.
Import Stemmer Snow Rules.

(** ** Model *)

Record fields := { B_ending_removed : bool; S_x : jsstr; I_p2 : Z; I_p1 : Z }.

Definition set_B_ending_removed (v : bool) (x : fields) : fields :=
  {| B_ending_removed := v; S_x := S_x x; I_p2 := I_p2 x; I_p1 := I_p1 x |}.
Definition set_S_x (v : jsstr) (x : fields) : fields :=
  {| B_ending_removed := B_ending_removed x; S_x := v; I_p2 := I_p2 x; I_p1 := I_p1 x |}.
Definition set_I_p2 (v : Z) (x : fields) : fields :=
  {| B_ending_removed := B_ending_removed x; S_x := S_x x; I_p2 := v; I_p1 := I_p1 x |}.
Definition set_I_p1 (v : Z) (x : fields) : fields :=
  {| B_ending_removed := B_ending_removed x; S_x := S_x x; I_p2 := I_p2 x; I_p1 := v |}.

Definition a_0 : list (Among fields) :=
  [entry (lit "pa") (-1) 1;
   entry (lit "sti") (-1) 2;
   entry (lit "kaan") (-1) 1;
   entry (lit "han") (-1) 1;
   entry (lit "kin") (-1) 1;
   entry (lit "h\u00E4n") (-1) 1;
   entry (lit "k\u00E4\u00E4n") (-1) 1;
   entry (lit "ko") (-1) 1;
   entry (lit "p\u00E4") (-1) 1;
   entry (lit "k\u00F6") (-1) 1].

Definition a_1 : list (Among fields) :=
  [entry (lit "lla") (-1) (-1);
   entry (lit "na") (-1) (-1);
   entry (lit "ssa") (-1) (-1);
   entry (lit "ta") (-1) (-1);
   entry (lit "lta") 3 (-1);
   entry (lit "sta") 3 (-1)].

Definition a_2 : list (Among fields) :=
  [entry (lit "ll\u00E4") (-1) (-1);
   entry (lit "n\u00E4") (-1) (-1);
   entry (lit "ss\u00E4") (-1) (-1);
   entry (lit "t\u00E4") (-1) (-1);
   entry (lit "lt\u00E4") 3 (-1);
   entry (lit "st\u00E4") 3 (-1)].

Definition a_3 : list (Among fields) :=
  [entry (lit "lle") (-1) (-1);
   entry (lit "ine") (-1) (-1)].

Definition a_4 : list (Among fields) :=
  [entry (lit "nsa") (-1) 3;
   entry (lit "mme") (-1) 3;
   entry (lit "nne") (-1) 3;
   entry (lit "ni") (-1) 2;
   entry (lit "si") (-1) 1;
   entry (lit "an") (-1) 4;
   entry (lit "en") (-1) 6;
   entry (lit "\u00E4n") (-1) 5;
   entry (lit "ns\u00E4") (-1) 3].

Definition a_5 : list (Among fields) :=
  [entry (lit "aa") (-1) (-1);
   entry (lit "ee") (-1) (-1);
   entry (lit "ii") (-1) (-1);
   entry (lit "oo") (-1) (-1);
   entry (lit "uu") (-1) (-1);
   entry (lit "\u00E4\u00E4") (-1) (-1);
   entry (lit "\u00F6\u00F6") (-1) (-1)].

Definition a_7 : list (Among fields) :=
  [entry (lit "eja") (-1) (-1);
   entry (lit "mma") (-1) 1;
   entry (lit "imma") 1 (-1);
   entry (lit "mpa") (-1) 1;
   entry (lit "impa") 3 (-1);
   entry (lit "mmi") (-1) 1;
   entry (lit "immi") 5 (-1);
   entry (lit "mpi") (-1) 1;
   entry (lit "impi") 7 (-1);
   entry (lit "ej\u00E4") (-1) (-1);
   entry (lit "mm\u00E4") (-1) 1;
   entry (lit "imm\u00E4") 10 (-1);
   entry (lit "mp\u00E4") (-1) 1;
   entry (lit "imp\u00E4") 12 (-1)].

Definition a_8 : list (Among fields) :=
  [entry (lit "i") (-1) (-1);
   entry (lit "j") (-1) (-1)].

Definition a_9 : list (Among fields) :=
  [entry (lit "mma") (-1) 1;
   entry (lit "imma") 0 (-1)].

Definition g_AEI : list Z := [17; 1; 0; 0; 0; 0; 0; 0; 0; 0; 0; 0; 0; 0; 0; 0; 8].
Definition g_V1 : list Z := [17; 65; 16; 1; 0; 0; 0; 0; 0; 0; 0; 0; 0; 0; 0; 0; 8; 0; 32].
Definition g_V2 : list Z := [17; 65; 16; 0; 0; 0; 0; 0; 0; 0; 0; 0; 0; 0; 0; 0; 8; 0; 32].
Definition g_particle_end : list Z := [17; 97; 24; 1; 0; 0; 0; 0; 0; 0; 0; 0; 0; 0; 0; 0; 8; 0; 32].

Definition r_mark_regions : test fields := method (
  put (λ st, set_I_p1 (limit st) (own st)) ;;
  put (λ st, set_I_p2 (limit st) (own st)) ;;
  forever 0 (
    var v_1 := cursor ;;
    block 1 (
      unless (grouping g_V1 97 246) (break_ 1) ;;
      cursor_to v_1 ;;
      break_ 0) ;;
    cursor_to v_1 ;;
    when (λ st, limit st <=? cursor st) (return_ false) ;;
    cursor_next) ;;
  forever 2 (
    block 3 (
      unless (non_grouping g_V1 97 246) (break_ 3) ;;
      break_ 2) ;;
    when (λ st, limit st <=? cursor st) (return_ false) ;;
    cursor_next) ;;
  put (λ st, set_I_p1 (cursor st) (own st)) ;;
  forever 4 (
    var v_3 := cursor ;;
    block 5 (
      unless (grouping g_V1 97 246) (break_ 5) ;;
      cursor_to v_3 ;;
      break_ 4) ;;
    cursor_to v_3 ;;
    when (λ st, limit st <=? cursor st) (return_ false) ;;
    cursor_next) ;;
  forever 6 (
    block 7 (
      unless (non_grouping g_V1 97 246) (break_ 7) ;;
      break_ 6) ;;
    when (λ st, limit st <=? cursor st) (return_ false) ;;
    cursor_next) ;;
  put (λ st, set_I_p2 (cursor st) (own st)) ;;
  return_ true).

Definition r_R2 : test fields := method (
  when (λ st, negb (I_p2 (own st) <=? cursor st)) (return_ false) ;;
  return_ true).

Definition r_particle_etc : test fields := method (
  var v_1 := from_end ;;
  when (λ st, cursor st <? I_p1 (own st)) (return_ false) ;;
  cursor_mark I_p1 ;;
  var v_2 := limit_backward ;;
  backward_cursor ;;
  cursor_back v_1 ;;
  ket_cursor ;;
  var among_var in among_b a_0 10 ;;
  when (λ st, among_var =? 0) (
    backward_to v_2 ;;
    return_ false) ;;
  bra_cursor ;;
  backward_to v_2 ;;
  switch among_var [
    (0, return_ false);
    (1, unless (grouping_b g_particle_end 97 246) (return_ false));
    (2, unless (call r_R2) (return_ false))] ;;
  unless delete (return_ false) ;;
  return_ true).

Definition r_possessive : test fields := method (
  var v_1 := from_end ;;
  when (λ st, cursor st <? I_p1 (own st)) (return_ false) ;;
  cursor_mark I_p1 ;;
  var v_2 := limit_backward ;;
  backward_cursor ;;
  cursor_back v_1 ;;
  ket_cursor ;;
  var among_var in among_b a_4 9 ;;
  when (λ st, among_var =? 0) (
    backward_to v_2 ;;
    return_ false) ;;
  bra_cursor ;;
  backward_to v_2 ;;
  switch among_var [
    (0, return_ false);
    (1,
      var v_3 := from_end ;;
      block 0 (
        unless (equal_b 1 (lit "k")) (break_ 0) ;;
        return_ false) ;;
      cursor_back v_3 ;;
      unless delete (return_ false));
    (2,
      unless delete (return_ false) ;;
      ket_cursor ;;
      unless (equal_b 3 (lit "kse")) (return_ false) ;;
      bra_cursor ;;
      unless (replace (lit "ksi")) (return_ false));
    (3, unless delete (return_ false));
    (4,
      unless (some (among_b a_1 6)) (return_ false) ;;
      unless delete (return_ false));
    (5,
      unless (some (among_b a_2 6)) (return_ false) ;;
      unless delete (return_ false));
    (6,
      unless (some (among_b a_3 2)) (return_ false) ;;
      unless delete (return_ false))] ;;
  return_ true).

Definition r_LONG : test fields := method (
  unless (some (among_b a_5 7)) (return_ false) ;;
  return_ true).

Definition r_VI : test fields := method (
  unless (equal_b 1 (lit "i")) (return_ false) ;;
  unless (grouping_b g_V2 97 246) (return_ false) ;;
  return_ true).

Definition a_6 : list (Among fields) :=
  [entry (lit "a") (-1) 8;
   entry (lit "lla") 0 (-1);
   entry (lit "na") 0 (-1);
   entry (lit "ssa") 0 (-1);
   entry (lit "ta") 0 (-1);
   entry (lit "lta") 4 (-1);
   entry (lit "sta") 4 (-1);
   entry (lit "tta") 4 9;
   entry (lit "lle") (-1) (-1);
   entry (lit "ine") (-1) (-1);
   entry (lit "ksi") (-1) (-1);
   entry (lit "n") (-1) 7;
   entry (lit "han") 11 1;
   entry_if (lit "den") 11 (-1) r_VI;
   entry_if (lit "seen") 11 (-1) r_LONG;
   entry (lit "hen") 11 2;
   entry_if (lit "tten") 11 (-1) r_VI;
   entry (lit "hin") 11 3;
   entry_if (lit "siin") 11 (-1) r_VI;
   entry (lit "hon") 11 4;
   entry (lit "h\u00E4n") 11 5;
   entry (lit "h\u00F6n") 11 6;
   entry (lit "\u00E4") (-1) 8;
   entry (lit "ll\u00E4") 22 (-1);
   entry (lit "n\u00E4") 22 (-1);
   entry (lit "ss\u00E4") 22 (-1);
   entry (lit "t\u00E4") 22 (-1);
   entry (lit "lt\u00E4") 26 (-1);
   entry (lit "st\u00E4") 26 (-1);
   entry (lit "tt\u00E4") 26 9].

Definition r_case_ending : test fields := method (
  var v_1 := from_end ;;
  when (λ st, cursor st <? I_p1 (own st)) (return_ false) ;;
  cursor_mark I_p1 ;;
  var v_2 := limit_backward ;;
  backward_cursor ;;
  cursor_back v_1 ;;
  ket_cursor ;;
  var among_var in among_b a_6 30 ;;
  when (λ st, among_var =? 0) (
    backward_to v_2 ;;
    return_ false) ;;
  bra_cursor ;;
  backward_to v_2 ;;
  switch among_var [
    (0, return_ false);
    (1, unless (equal_b 1 (lit "a")) (return_ false));
    (2, unless (equal_b 1 (lit "e")) (return_ false));
    (3, unless (equal_b 1 (lit "i")) (return_ false));
    (4, unless (equal_b 1 (lit "o")) (return_ false));
    (5, unless (equal_b 1 (lit "\u00E4")) (return_ false));
    (6, unless (equal_b 1 (lit "\u00F6")) (return_ false));
    (7,
      var v_3 := from_end ;;
      block 0 (
        var v_4 := from_end ;;
        block 1 (
          var v_5 := from_end ;;
          block 2 (
            unless (call r_LONG) (break_ 2) ;;
            break_ 1) ;;
          cursor_back v_5 ;;
          unless (equal_b 2 (lit "ie")) (
            cursor_back v_3 ;;
            break_ 0)) ;;
        cursor_back v_4 ;;
        when (λ st, cursor st <=? limit_backward st) (
          cursor_back v_3 ;;
          break_ 0) ;;
        cursor_prev ;;
        bra_cursor));
    (8,
      unless (grouping_b g_V1 97 246) (return_ false) ;;
      unless (non_grouping_b g_V1 97 246) (return_ false));
    (9, unless (equal_b 1 (lit "e")) (return_ false))] ;;
  unless delete (return_ false) ;;
  put (λ st, set_B_ending_removed true (own st)) ;;
  return_ true).

Definition r_other_endings : test fields := method (
  var v_1 := from_end ;;
  when (λ st, cursor st <? I_p2 (own st)) (return_ false) ;;
  cursor_mark I_p2 ;;
  var v_2 := limit_backward ;;
  backward_cursor ;;
  cursor_back v_1 ;;
  ket_cursor ;;
  var among_var in among_b a_7 14 ;;
  when (λ st, among_var =? 0) (
    backward_to v_2 ;;
    return_ false) ;;
  bra_cursor ;;
  backward_to v_2 ;;
  switch among_var [
    (0, return_ false);
    (1,
      var v_3 := from_end ;;
      block 0 (
        unless (equal_b 2 (lit "po")) (break_ 0) ;;
        return_ false) ;;
      cursor_back v_3)] ;;
  unless delete (return_ false) ;;
  return_ true).

Definition r_i_plural : test fields := method (
  var v_1 := from_end ;;
  when (λ st, cursor st <? I_p1 (own st)) (return_ false) ;;
  cursor_mark I_p1 ;;
  var v_2 := limit_backward ;;
  backward_cursor ;;
  cursor_back v_1 ;;
  ket_cursor ;;
  unless (some (among_b a_8 2)) (
    backward_to v_2 ;;
    return_ false) ;;
  bra_cursor ;;
  backward_to v_2 ;;
  unless delete (return_ false) ;;
  return_ true).

Definition r_t_plural : test fields := method (
  var v_1 := from_end ;;
  when (λ st, cursor st <? I_p1 (own st)) (return_ false) ;;
  cursor_mark I_p1 ;;
  var v_2 := limit_backward ;;
  backward_cursor ;;
  cursor_back v_1 ;;
  ket_cursor ;;
  unless (equal_b 1 (lit "t")) (
    backward_to v_2 ;;
    return_ false) ;;
  bra_cursor ;;
  var v_3 := from_end ;;
  unless (grouping_b g_V1 97 246) (
    backward_to v_2 ;;
    return_ false) ;;
  cursor_back v_3 ;;
  unless delete (return_ false) ;;
  backward_to v_2 ;;
  var v_4 := from_end ;;
  when (λ st, cursor st <? I_p2 (own st)) (return_ false) ;;
  cursor_mark I_p2 ;;
  var v_5 := limit_backward ;;
  backward_cursor ;;
  cursor_back v_4 ;;
  ket_cursor ;;
  var among_var in among_b a_9 2 ;;
  when (λ st, among_var =? 0) (
    backward_to v_5 ;;
    return_ false) ;;
  bra_cursor ;;
  backward_to v_5 ;;
  switch among_var [
    (0, return_ false);
    (1,
      var v_6 := from_end ;;
      block 0 (
        unless (equal_b 2 (lit "po")) (break_ 0) ;;
        return_ false) ;;
      cursor_back v_6)] ;;
  unless delete (return_ false) ;;
  return_ true).

Definition r_tidy : test fields := method (
  var v_1 := from_end ;;
  when (λ st, cursor st <? I_p1 (own st)) (return_ false) ;;
  cursor_mark I_p1 ;;
  var v_2 := limit_backward ;;
  backward_cursor ;;
  cursor_back v_1 ;;
  var v_3 := from_end ;;
  block 0 (
    var v_4 := from_end ;;
    unless (call r_LONG) (break_ 0) ;;
    cursor_back v_4 ;;
    ket_cursor ;;
    when (λ st, cursor st <=? limit_backward st) (break_ 0) ;;
    cursor_prev ;;
    bra_cursor ;;
    unless delete (return_ false)) ;;
  cursor_back v_3 ;;
  var v_5 := from_end ;;
  block 1 (
    ket_cursor ;;
    unless (grouping_b g_AEI 97 228) (break_ 1) ;;
    bra_cursor ;;
    unless (non_grouping_b g_V1 97 246) (break_ 1) ;;
    unless delete (return_ false)) ;;
  cursor_back v_5 ;;
  var v_6 := from_end ;;
  block 2 (
    ket_cursor ;;
    unless (equal_b 1 (lit "j")) (break_ 2) ;;
    bra_cursor ;;
    block 3 (
      var v_7 := from_end ;;
      block 4 (
        unless (equal_b 1 (lit "o")) (break_ 4) ;;
        break_ 3) ;;
      cursor_back v_7 ;;
      unless (equal_b 1 (lit "u")) (break_ 2)) ;;
    unless delete (return_ false)) ;;
  cursor_back v_6 ;;
  var v_8 := from_end ;;
  block 5 (
    ket_cursor ;;
    unless (equal_b 1 (lit "o")) (break_ 5) ;;
    bra_cursor ;;
    unless (equal_b 1 (lit "j")) (break_ 5) ;;
    unless delete (return_ false)) ;;
  cursor_back v_8 ;;
  backward_to v_2 ;;
  forever 6 (
    var v_9 := from_end ;;
    block 7 (
      unless (non_grouping_b g_V1 97 246) (break_ 7) ;;
      cursor_back v_9 ;;
      break_ 6) ;;
    cursor_back v_9 ;;
    when (λ st, cursor st <=? limit_backward st) (return_ false) ;;
    cursor_prev) ;;
  ket_cursor ;;
  when (λ st, cursor st <=? limit_backward st) (return_ false) ;;
  cursor_prev ;;
  bra_cursor ;;
  put (λ st, set_S_x (slice_to st) (own st)) ;;
  when (λ st, bool_decide (S_x (own st) = [])) (return_ false) ;;
  unless (field_b S_x) (return_ false) ;;
  unless delete (return_ false) ;;
  return_ true).

Definition stem : test fields := method (
  var v_1 := cursor ;;
  block 0 (unless (call r_mark_regions) (break_ 0)) ;;
  cursor_to v_1 ;;
  put (λ st, set_B_ending_removed false (own st)) ;;
  backward_cursor ;;
  cursor_limit ;;
  var v_2 := from_end ;;
  block 1 (unless (call r_particle_etc) (break_ 1)) ;;
  cursor_back v_2 ;;
  var v_3 := from_end ;;
  block 2 (unless (call r_possessive) (break_ 2)) ;;
  cursor_back v_3 ;;
  var v_4 := from_end ;;
  block 3 (unless (call r_case_ending) (break_ 3)) ;;
  cursor_back v_4 ;;
  var v_5 := from_end ;;
  block 4 (unless (call r_other_endings) (break_ 4)) ;;
  cursor_back v_5 ;;
  block 5 (
    var v_6 := from_end ;;
    block 6 (
      when (λ st, negb (B_ending_removed (own st))) (break_ 6) ;;
      var v_7 := from_end ;;
      block 7 (unless (call r_i_plural) (break_ 7)) ;;
      cursor_back v_7 ;;
      break_ 5) ;;
    cursor_back v_6 ;;
    var v_8 := from_end ;;
    block 8 (unless (call r_t_plural) (break_ 8)) ;;
    cursor_back v_8) ;;
  var v_9 := from_end ;;
  block 9 (unless (call r_tidy) (break_ 9)) ;;
  cursor_back v_9 ;;
  cursor_backward ;;
  return_ true).

Definition copy_from (st other : Stemmer.t fields) : Stemmer.t fields :=
  Stemmer.copy_from (set_own st {| B_ending_removed := B_ending_removed (own other); S_x := S_x (own other); I_p2 := I_p2 (own other); I_p1 := I_p1 (own other) |}) other.

Definition new : Stemmer.t fields := Stemmer.new {| B_ending_removed := false; S_x := []; I_p2 := 0; I_p1 := 0 |}.

(** ** The methods return and do not depend on earlier words *)

(** Two runs agree on [I_p1] and [I_p2], where the marks are not below the limit. *)
Definition marks (lb : Z) (x x2 : fields) : Prop :=
  I_p1 x2 = I_p1 x ∧ I_p2 x2 = I_p2 x ∧ lb ≤ I_p1 x ∧ lb ≤ I_p2 x.
(** Two runs agree on [I_p1], [I_p2] and [B_ending_removed], where the marks are not
    below the limit. *)
Definition live (lb : Z) (x x2 : fields) : Prop :=
  I_p1 x2 = I_p1 x ∧ I_p2 x2 = I_p2 x ∧ B_ending_removed x2 = B_ending_removed x ∧ lb ≤ I_p1 x ∧ lb ≤ I_p2 x.
Ltac rels k := first [k live | k marks | k (@any fields)].

#[global] Typeclasses Opaque r_mark_regions r_R2 r_particle_etc r_possessive r_LONG r_VI r_case_ending r_other_endings
  r_i_plural r_t_plural r_tidy.

#[global] Instance r_mark_regions_ok : Edits Forward any marks r_mark_regions.
Proof. snow_proof rels. Qed.
#[global] Instance r_R2_ok : Moves Backward live r_R2.
Proof. snow_proof rels. Qed.
#[global] Instance r_particle_etc_ok : Edits Backward live live r_particle_etc.
Proof. snow_proof rels. Qed.
#[global] Instance r_possessive_ok : Edits Backward live live r_possessive.
Proof. snow_proof rels. Qed.
#[global] Instance r_LONG_ok : Moves Backward any r_LONG.
Proof. snow_proof rels. Qed.
#[global] Instance r_VI_ok : Moves Backward any r_VI.
Proof. snow_proof rels. Qed.
#[global] Instance r_case_ending_ok : Edits Backward live live r_case_ending.
Proof. snow_proof rels. Qed.
#[global] Instance r_other_endings_ok : Edits Backward live live r_other_endings.
Proof. snow_proof rels. Qed.
#[global] Instance r_i_plural_ok : Edits Backward live live r_i_plural.
Proof. snow_proof rels. Qed.
#[global] Instance r_t_plural_ok : Edits Backward live live r_t_plural.
Proof. snow_proof rels. Qed.
#[global] Instance r_tidy_ok : Edits Backward live live r_tidy.
Proof. snow_proof rels. Qed.
#[global] Instance stem_ok : Stems stem.
Proof. snow_proof rels. Qed.

End Finnish.
