(* ===== verification/French.v ===== *)
(** * The French stemmer

    Model of [src/misc/oktavia/src/stemmer/french-stemmer.jsx], one of the
    stemmers that were generated from Snowball scripts: its tables of endings, its
    groups of letters and its methods, statement by statement.  The instances show
    that every method returns and that the stemmer does not depend on the words it
    stemmed before. *)

From S2P Require Import Prelude JsObject Suffixes BaseStemmer Snowball SnowballRules.

Local Open Scope Z_scope.
Local Open Scope snow_scope.

Module French.
Import Stemmer Snow Rules.

(** ** Model *)

Record fields := { I_p2 : Z; I_p1 : Z; I_pV : Z }.

Definition set_I_p2 (v : Z) (x : fields) : fields :=
  {| I_p2 := v; I_p1 := I_p1 x; I_pV := I_pV x |}.
Definition set_I_p1 (v : Z) (x : fields) : fields :=
  {| I_p2 := I_p2 x; I_p1 := v; I_pV := I_pV x |}.
Definition set_I_pV (v : Z) (x : fields) : fields :=
  {| I_p2 := I_p2 x; I_p1 := I_p1 x; I_pV := v |}.

Definition a_0 : list (Among fields) :=
  [entry (lit "col") (-1) (-1);
   entry (lit "par") (-1) (-1);
   entry (lit "tap") (-1) (-1)].

Definition a_1 : list (Among fields) :=
  [entry (lit "") (-1) 4;
   entry (lit "I") 0 1;
   entry (lit "U") 0 2;
   entry (lit "Y") 0 3].

Definition a_2 : list (Among fields) :=
  [entry (lit "iqU") (-1) 3;
   entry (lit "abl") (-1) 3;
   entry (lit "I\u00E8r") (-1) 4;
   entry (lit "i\u00E8r") (-1) 4;
   entry (lit "eus") (-1) 2;
   entry (lit "iv") (-1) 1].

Definition a_3 : list (Among fields) :=
  [entry (lit "ic") (-1) 2;
   entry (lit "abil") (-1) 1;
   entry (lit "iv") (-1) 3].

Definition a_4 : list (Among fields) :=
  [entry (lit "iqUe") (-1) 1;
   entry (lit "atrice") (-1) 2;
   entry (lit "ance") (-1) 1;
   entry (lit "ence") (-1) 5;
   entry (lit "logie") (-1) 3;
   entry (lit "able") (-1) 1;
   entry (lit "isme") (-1) 1;
   entry (lit "euse") (-1) 11;
   entry (lit "iste") (-1) 1;
   entry (lit "ive") (-1) 8;
   entry (lit "if") (-1) 8;
   entry (lit "usion") (-1) 4;
   entry (lit "ation") (-1) 2;
   entry (lit "ution") (-1) 4;
   entry (lit "ateur") (-1) 2;
   entry (lit "iqUes") (-1) 1;
   entry (lit "atrices") (-1) 2;
   entry (lit "ances") (-1) 1;
   entry (lit "ences") (-1) 5;
   entry (lit "logies") (-1) 3;
   entry (lit "ables") (-1) 1;
   entry (lit "ismes") (-1) 1;
   entry (lit "euses") (-1) 11;
   entry (lit "istes") (-1) 1;
   entry (lit "ives") (-1) 8;
   entry (lit "ifs") (-1) 8;
   entry (lit "usions") (-1) 4;
   entry (lit "ations") (-1) 2;
   entry (lit "utions") (-1) 4;
   entry (lit "ateurs") (-1) 2;
   entry (lit "ments") (-1) 15;
   entry (lit "ements") 30 6;
   entry (lit "issements") 31 12;
   entry (lit "it\u00E9s") (-1) 7;
   entry (lit "ment") (-1) 15;
   entry (lit "ement") 34 6;
   entry (lit "issement") 35 12;
   entry (lit "amment") 34 13;
   entry (lit "emment") 34 14;
   entry (lit "aux") (-1) 10;
   entry (lit "eaux") 39 9;
   entry (lit "eux") (-1) 1;
   entry (lit "it\u00E9") (-1) 7].

Definition a_5 : list (Among fields) :=
  [entry (lit "ira") (-1) 1;
   entry (lit "ie") (-1) 1;
   entry (lit "isse") (-1) 1;
   entry (lit "issante") (-1) 1;
   entry (lit "i") (-1) 1;
   entry (lit "irai") 4 1;
   entry (lit "ir") (-1) 1;
   entry (lit "iras") (-1) 1;
   entry (lit "ies") (-1) 1;
   entry (lit "\u00EEmes") (-1) 1;
   entry (lit "isses") (-1) 1;
   entry (lit "issantes") (-1) 1;
   entry (lit "\u00EEtes") (-1) 1;
   entry (lit "is") (-1) 1;
   entry (lit "irais") 13 1;
   entry (lit "issais") 13 1;
   entry (lit "irions") (-1) 1;
   entry (lit "issions") (-1) 1;
   entry (lit "irons") (-1) 1;
   entry (lit "issons") (-1) 1;
   entry (lit "issants") (-1) 1;
   entry (lit "it") (-1) 1;
   entry (lit "irait") 21 1;
   entry (lit "issait") 21 1;
   entry (lit "issant") (-1) 1;
   entry (lit "iraIent") (-1) 1;
   entry (lit "issaIent") (-1) 1;
   entry (lit "irent") (-1) 1;
   entry (lit "issent") (-1) 1;
   entry (lit "iront") (-1) 1;
   entry (lit "\u00EEt") (-1) 1;
   entry (lit "iriez") (-1) 1;
   entry (lit "issiez") (-1) 1;
   entry (lit "irez") (-1) 1;
   entry (lit "issez") (-1) 1].

Definition a_6 : list (Among fields) :=
  [entry (lit "a") (-1) 3;
   entry (lit "era") 0 2;
   entry (lit "asse") (-1) 3;
   entry (lit "ante") (-1) 3;
   entry (lit "\u00E9e") (-1) 2;
   entry (lit "ai") (-1) 3;
   entry (lit "erai") 5 2;
   entry (lit "er") (-1) 2;
   entry (lit "as") (-1) 3;
   entry (lit "eras") 8 2;
   entry (lit "\u00E2mes") (-1) 3;
   entry (lit "asses") (-1) 3;
   entry (lit "antes") (-1) 3;
   entry (lit "\u00E2tes") (-1) 3;
   entry (lit "\u00E9es") (-1) 2;
   entry (lit "ais") (-1) 3;
   entry (lit "erais") 15 2;
   entry (lit "ions") (-1) 1;
   entry (lit "erions") 17 2;
   entry (lit "assions") 17 3;
   entry (lit "erons") (-1) 2;
   entry (lit "ants") (-1) 3;
   entry (lit "\u00E9s") (-1) 2;
   entry (lit "ait") (-1) 3;
   entry (lit "erait") 23 2;
   entry (lit "ant") (-1) 3;
   entry (lit "aIent") (-1) 3;
   entry (lit "eraIent") 26 2;
   entry (lit "\u00E8rent") (-1) 2;
   entry (lit "assent") (-1) 3;
   entry (lit "eront") (-1) 2;
   entry (lit "\u00E2t") (-1) 3;
   entry (lit "ez") (-1) 2;
   entry (lit "iez") 32 2;
   entry (lit "eriez") 33 2;
   entry (lit "assiez") 33 3;
   entry (lit "erez") 32 2;
   entry (lit "\u00E9") (-1) 2].

Definition a_7 : list (Among fields) :=
  [entry (lit "e") (-1) 3;
   entry (lit "I\u00E8re") 0 2;
   entry (lit "i\u00E8re") 0 2;
   entry (lit "ion") (-1) 1;
   entry (lit "Ier") (-1) 2;
   entry (lit "ier") (-1) 2;
   entry (lit "\u00EB") (-1) 4].

Definition a_8 : list (Among fields) :=
  [entry (lit "ell") (-1) (-1);
   entry (lit "eill") (-1) (-1);
   entry (lit "enn") (-1) (-1);
   entry (lit "onn") (-1) (-1);
   entry (lit "ett") (-1) (-1)].

Definition g_v : list Z := [17; 65; 16; 1; 0; 0; 0; 0; 0; 0; 0; 0; 0; 0; 0; 128; 130; 103; 8; 5].
Definition g_keep_with_s : list Z := [1; 65; 20; 0; 0; 0; 0; 0; 0; 0; 0; 0; 0; 0; 0; 0; 128].

Definition r_prelude : test fields := method (
  forever 0 (
    var v_1 := cursor ;;
    block 1 (
      forever 2 (
        var v_2 := cursor ;;
        block 3 (
          block 4 (
            var v_3 := cursor ;;
            block 5 (
              unless (grouping g_v 97 251) (break_ 5) ;;
              bra_cursor ;;
              block 6 (
                var v_4 := cursor ;;
                block 7 (
                  unless (equal 1 (lit "u")) (break_ 7) ;;
                  ket_cursor ;;
                  unless (grouping g_v 97 251) (break_ 7) ;;
                  unless (replace (lit "U")) (return_ false) ;;
                  break_ 6) ;;
                cursor_to v_4 ;;
                block 8 (
                  unless (equal 1 (lit "i")) (break_ 8) ;;
                  ket_cursor ;;
                  unless (grouping g_v 97 251) (break_ 8) ;;
                  unless (replace (lit "I")) (return_ false) ;;
                  break_ 6) ;;
                cursor_to v_4 ;;
                unless (equal 1 (lit "y")) (break_ 5) ;;
                ket_cursor ;;
                unless (replace (lit "Y")) (return_ false)) ;;
              break_ 4) ;;
            cursor_to v_3 ;;
            block 9 (
              bra_cursor ;;
              unless (equal 1 (lit "y")) (break_ 9) ;;
              ket_cursor ;;
              unless (grouping g_v 97 251) (break_ 9) ;;
              unless (replace (lit "Y")) (return_ false) ;;
              break_ 4) ;;
            cursor_to v_3 ;;
            unless (equal 1 (lit "q")) (break_ 3) ;;
            bra_cursor ;;
            unless (equal 1 (lit "u")) (break_ 3) ;;
            ket_cursor ;;
            unless (replace (lit "U")) (return_ false)) ;;
          cursor_to v_2 ;;
          break_ 2) ;;
        cursor_to v_2 ;;
        when (λ st, limit st <=? cursor st) (break_ 1) ;;
        cursor_next) ;;
      continue_ 0) ;;
    cursor_to v_1 ;;
    break_ 0) ;;
  return_ true).

Definition r_mark_regions : test fields := method (
  put (λ st, set_I_pV (limit st) (own st)) ;;
  put (λ st, set_I_p1 (limit st) (own st)) ;;
  put (λ st, set_I_p2 (limit st) (own st)) ;;
  var v_1 := cursor ;;
  block 0 (
    block 1 (
      var v_2 := cursor ;;
      block 2 (
        unless (grouping g_v 97 251) (break_ 2) ;;
        unless (grouping g_v 97 251) (break_ 2) ;;
        when (λ st, limit st <=? cursor st) (break_ 2) ;;
        cursor_next ;;
        break_ 1) ;;
      cursor_to v_2 ;;
      block 3 (
        unless (some (among a_0 3)) (break_ 3) ;;
        break_ 1) ;;
      cursor_to v_2 ;;
      when (λ st, limit st <=? cursor st) (break_ 0) ;;
      cursor_next ;;
      forever 4 (
        block 5 (
          unless (grouping g_v 97 251) (break_ 5) ;;
          break_ 4) ;;
        when (λ st, limit st <=? cursor st) (break_ 0) ;;
        cursor_next)) ;;
    put (λ st, set_I_pV (cursor st) (own st))) ;;
  cursor_to v_1 ;;
  var v_4 := cursor ;;
  block 6 (
    forever 7 (
      block 8 (
        unless (grouping g_v 97 251) (break_ 8) ;;
        break_ 7) ;;
      when (λ st, limit st <=? cursor st) (break_ 6) ;;
      cursor_next) ;;
    forever 9 (
      block 10 (
        unless (non_grouping g_v 97 251) (break_ 10) ;;
        break_ 9) ;;
      when (λ st, limit st <=? cursor st) (break_ 6) ;;
      cursor_next) ;;
    put (λ st, set_I_p1 (cursor st) (own st)) ;;
    forever 11 (
      block 12 (
        unless (grouping g_v 97 251) (break_ 12) ;;
        break_ 11) ;;
      when (λ st, limit st <=? cursor st) (break_ 6) ;;
      cursor_next) ;;
    forever 13 (
      block 14 (
        unless (non_grouping g_v 97 251) (break_ 14) ;;
        break_ 13) ;;
      when (λ st, limit st <=? cursor st) (break_ 6) ;;
      cursor_next) ;;
    put (λ st, set_I_p2 (cursor st) (own st))) ;;
  cursor_to v_4 ;;
  return_ true).

Definition r_postlude : test fields := method (
  forever 0 (
    var v_1 := cursor ;;
    block 1 (
      bra_cursor ;;
      var among_var in among a_1 4 ;;
      when (λ st, among_var =? 0) (break_ 1) ;;
      ket_cursor ;;
      switch among_var [
        (0, break_ 1);
        (1, unless (replace (lit "i")) (return_ false));
        (2, unless (replace (lit "u")) (return_ false));
        (3, unless (replace (lit "y")) (return_ false));
        (4,
          when (λ st, limit st <=? cursor st) (break_ 1) ;;
          cursor_next)] ;;
      continue_ 0) ;;
    cursor_to v_1 ;;
    break_ 0) ;;
  return_ true).

Definition r_RV : test fields := method (
  when (λ st, negb (I_pV (own st) <=? cursor st)) (return_ false) ;;
  return_ true).

Definition r_R1 : test fields := method (
  when (λ st, negb (I_p1 (own st) <=? cursor st)) (return_ false) ;;
  return_ true).

Definition r_R2 : test fields := method (
  when (λ st, negb (I_p2 (own st) <=? cursor st)) (return_ false) ;;
  return_ true).

Definition r_standard_suffix : test fields := method (
  ket_cursor ;;
  var among_var in among_b a_4 43 ;;
  when (λ st, among_var =? 0) (return_ false) ;;
  bra_cursor ;;
  switch among_var [
    (0, return_ false);
    (1,
      unless (call r_R2) (return_ false) ;;
      unless delete (return_ false));
    (2,
      unless (call r_R2) (return_ false) ;;
      unless delete (return_ false) ;;
      var v_1 := from_end ;;
      block 0 (
        ket_cursor ;;
        unless (equal_b 2 (lit "ic")) (
          cursor_back v_1 ;;
          break_ 0) ;;
        bra_cursor ;;
        block 1 (
          var v_2 := from_end ;;
          block 2 (
            unless (call r_R2) (break_ 2) ;;
            unless delete (return_ false) ;;
            break_ 1) ;;
          cursor_back v_2 ;;
          unless (replace (lit "iqU")) (return_ false))));
    (3,
      unless (call r_R2) (return_ false) ;;
      unless (replace (lit "log")) (return_ false));
    (4,
      unless (call r_R2) (return_ false) ;;
      unless (replace (lit "u")) (return_ false));
    (5,
      unless (call r_R2) (return_ false) ;;
      unless (replace (lit "ent")) (return_ false));
    (6,
      unless (call r_RV) (return_ false) ;;
      unless delete (return_ false) ;;
      var v_3 := from_end ;;
      block 3 (
        ket_cursor ;;
        var among_var in among_b a_2 6 ;;
        when (λ st, among_var =? 0) (
          cursor_back v_3 ;;
          break_ 3) ;;
        bra_cursor ;;
        switch among_var [
          (0,
            cursor_back v_3 ;;
            break_ 3);
          (1,
            unless (call r_R2) (
              cursor_back v_3 ;;
              break_ 3) ;;
            unless delete (return_ false) ;;
            ket_cursor ;;
            unless (equal_b 2 (lit "at")) (
              cursor_back v_3 ;;
              break_ 3) ;;
            bra_cursor ;;
            unless (call r_R2) (
              cursor_back v_3 ;;
              break_ 3) ;;
            unless delete (return_ false));
          (2,
            block 4 (
              var v_4 := from_end ;;
              block 5 (
                unless (call r_R2) (break_ 5) ;;
                unless delete (return_ false) ;;
                break_ 4) ;;
              cursor_back v_4 ;;
              unless (call r_R1) (
                cursor_back v_3 ;;
                break_ 3) ;;
              unless (replace (lit "eux")) (return_ false)));
          (3,
            unless (call r_R2) (
              cursor_back v_3 ;;
              break_ 3) ;;
            unless delete (return_ false));
          (4,
            unless (call r_RV) (
              cursor_back v_3 ;;
              break_ 3) ;;
            unless (replace (lit "i")) (return_ false))]));
    (7,
      unless (call r_R2) (return_ false) ;;
      unless delete (return_ false) ;;
      var v_5 := from_end ;;
      block 6 (
        ket_cursor ;;
        var among_var in among_b a_3 3 ;;
        when (λ st, among_var =? 0) (
          cursor_back v_5 ;;
          break_ 6) ;;
        bra_cursor ;;
        switch among_var [
          (0,
            cursor_back v_5 ;;
            break_ 6);
          (1,
            block 7 (
              var v_6 := from_end ;;
              block 8 (
                unless (call r_R2) (break_ 8) ;;
                unless delete (return_ false) ;;
                break_ 7) ;;
              cursor_back v_6 ;;
              unless (replace (lit "abl")) (return_ false)));
          (2,
            block 9 (
              var v_7 := from_end ;;
              block 10 (
                unless (call r_R2) (break_ 10) ;;
                unless delete (return_ false) ;;
                break_ 9) ;;
              cursor_back v_7 ;;
              unless (replace (lit "iqU")) (return_ false)));
          (3,
            unless (call r_R2) (
              cursor_back v_5 ;;
              break_ 6) ;;
            unless delete (return_ false))]));
    (8,
      unless (call r_R2) (return_ false) ;;
      unless delete (return_ false) ;;
      var v_8 := from_end ;;
      block 11 (
        ket_cursor ;;
        unless (equal_b 2 (lit "at")) (
          cursor_back v_8 ;;
          break_ 11) ;;
        bra_cursor ;;
        unless (call r_R2) (
          cursor_back v_8 ;;
          break_ 11) ;;
        unless delete (return_ false) ;;
        ket_cursor ;;
        unless (equal_b 2 (lit "ic")) (
          cursor_back v_8 ;;
          break_ 11) ;;
        bra_cursor ;;
        block 12 (
          var v_9 := from_end ;;
          block 13 (
            unless (call r_R2) (break_ 13) ;;
            unless delete (return_ false) ;;
            break_ 12) ;;
          cursor_back v_9 ;;
          unless (replace (lit "iqU")) (return_ false))));
    (9, unless (replace (lit "eau")) (return_ false));
    (10,
      unless (call r_R1) (return_ false) ;;
      unless (replace (lit "al")) (return_ false));
    (11,
      block 14 (
        var v_10 := from_end ;;
        block 15 (
          unless (call r_R2) (break_ 15) ;;
          unless delete (return_ false) ;;
          break_ 14) ;;
        cursor_back v_10 ;;
        unless (call r_R1) (return_ false) ;;
        unless (replace (lit "eux")) (return_ false)));
    (12,
      unless (call r_R1) (return_ false) ;;
      unless (non_grouping_b g_v 97 251) (return_ false) ;;
      unless delete (return_ false));
    (13,
      unless (call r_RV) (return_ false) ;;
      unless (replace (lit "ant")) (return_ false) ;;
      return_ false);
    (14,
      unless (call r_RV) (return_ false) ;;
      unless (replace (lit "ent")) (return_ false) ;;
      return_ false);
    (15,
      var v_11 := from_end ;;
      unless (grouping_b g_v 97 251) (return_ false) ;;
      unless (call r_RV) (return_ false) ;;
      cursor_back v_11 ;;
      unless delete (return_ false) ;;
      return_ false)] ;;
  return_ true).

Definition r_i_verb_suffix : test fields := method (
  var v_1 := from_end ;;
  when (λ st, cursor st <? I_pV (own st)) (return_ false) ;;
  cursor_mark I_pV ;;
  var v_2 := limit_backward ;;
  backward_cursor ;;
  cursor_back v_1 ;;
  ket_cursor ;;
  var among_var in among_b a_5 35 ;;
  when (λ st, among_var =? 0) (
    backward_to v_2 ;;
    return_ false) ;;
  bra_cursor ;;
  switch among_var [
    (0,
      backward_to v_2 ;;
      return_ false);
    (1,
      unless (non_grouping_b g_v 97 251) (
        backward_to v_2 ;;
        return_ false) ;;
      unless delete (return_ false))] ;;
  backward_to v_2 ;;
  return_ true).

Definition r_verb_suffix : test fields := method (
  var v_1 := from_end ;;
  when (λ st, cursor st <? I_pV (own st)) (return_ false) ;;
  cursor_mark I_pV ;;
  var v_2 := limit_backward ;;
  backward_cursor ;;
  cursor_back v_1 ;;
  ket_cursor ;;
  var among_var in among_b a_6 38 ;;
  when (λ st, among_var =? 0) (
    backward_to v_2 ;;
    return_ false) ;;
  bra_cursor ;;
  switch among_var [
    (0,
      backward_to v_2 ;;
      return_ false);
    (1,
      unless (call r_R2) (
        backward_to v_2 ;;
        return_ false) ;;
      unless delete (return_ false));
    (2, unless delete (return_ false));
    (3,
      unless delete (return_ false) ;;
      var v_3 := from_end ;;
      block 0 (
        ket_cursor ;;
        unless (equal_b 1 (lit "e")) (
          cursor_back v_3 ;;
          break_ 0) ;;
        bra_cursor ;;
        unless delete (return_ false)))] ;;
  backward_to v_2 ;;
  return_ true).

Definition r_residual_suffix : test fields := method (
  var v_1 := from_end ;;
  block 0 (
    ket_cursor ;;
    unless (equal_b 1 (lit "s")) (
      cursor_back v_1 ;;
      break_ 0) ;;
    bra_cursor ;;
    var v_2 := from_end ;;
    unless (non_grouping_b g_keep_with_s 97 232) (
      cursor_back v_1 ;;
      break_ 0) ;;
    cursor_back v_2 ;;
    unless delete (return_ false)) ;;
  var v_3 := from_end ;;
  when (λ st, cursor st <? I_pV (own st)) (return_ false) ;;
  cursor_mark I_pV ;;
  var v_4 := limit_backward ;;
  backward_cursor ;;
  cursor_back v_3 ;;
  ket_cursor ;;
  var among_var in among_b a_7 7 ;;
  when (λ st, among_var =? 0) (
    backward_to v_4 ;;
    return_ false) ;;
  bra_cursor ;;
  switch among_var [
    (0,
      backward_to v_4 ;;
      return_ false);
    (1,
      unless (call r_R2) (
        backward_to v_4 ;;
        return_ false) ;;
      block 1 (
        var v_5 := from_end ;;
        block 2 (
          unless (equal_b 1 (lit "s")) (break_ 2) ;;
          break_ 1) ;;
        cursor_back v_5 ;;
        unless (equal_b 1 (lit "t")) (
          backward_to v_4 ;;
          return_ false)) ;;
      unless delete (return_ false));
    (2, unless (replace (lit "i")) (return_ false));
    (3, unless delete (return_ false));
    (4,
      unless (equal_b 2 (lit "gu")) (
        backward_to v_4 ;;
        return_ false) ;;
      unless delete (return_ false))] ;;
  backward_to v_4 ;;
  return_ true).

Definition r_un_double : test fields := method (
  var v_1 := from_end ;;
  unless (some (among_b a_8 5)) (return_ false) ;;
  cursor_back v_1 ;;
  ket_cursor ;;
  when (λ st, cursor st <=? limit_backward st) (return_ false) ;;
  cursor_prev ;;
  bra_cursor ;;
  unless delete (return_ false) ;;
  return_ true).

Definition r_un_accent : test fields := method (
  at_least 1 0 (
    block 1 (
      unless (non_grouping_b g_v 97 251) (break_ 1) ;;
      continue_ 0) ;;
    break_ 0) (λ v_1,
  when (λ st, 0 <? v_1) (return_ false) ;;
  ket_cursor ;;
  block 2 (
    var v_3 := from_end ;;
    block 3 (
      unless (equal_b 1 (lit "\u00E9")) (break_ 3) ;;
      break_ 2) ;;
    cursor_back v_3 ;;
    unless (equal_b 1 (lit "\u00E8")) (return_ false)) ;;
  bra_cursor ;;
  unless (replace (lit "e")) (return_ false) ;;
  return_ true)).

Definition stem : test fields := method (
  var v_1 := cursor ;;
  block 0 (unless (call r_prelude) (break_ 0)) ;;
  cursor_to v_1 ;;
  var v_2 := cursor ;;
  block 1 (unless (call r_mark_regions) (break_ 1)) ;;
  cursor_to v_2 ;;
  backward_cursor ;;
  cursor_limit ;;
  var v_3 := from_end ;;
  block 2 (
    block 3 (
      var v_4 := from_end ;;
      block 4 (
        var v_5 := from_end ;;
        block 5 (
          var v_6 := from_end ;;
          block 6 (
            unless (call r_standard_suffix) (break_ 6) ;;
            break_ 5) ;;
          cursor_back v_6 ;;
          block 7 (
            unless (call r_i_verb_suffix) (break_ 7) ;;
            break_ 5) ;;
          cursor_back v_6 ;;
          unless (call r_verb_suffix) (break_ 4)) ;;
        cursor_back v_5 ;;
        var v_7 := from_end ;;
        block 8 (
          ket_cursor ;;
          block 9 (
            var v_8 := from_end ;;
            block 10 (
              unless (equal_b 1 (lit "Y")) (break_ 10) ;;
              bra_cursor ;;
              unless (replace (lit "i")) (return_ false) ;;
              break_ 9) ;;
            cursor_back v_8 ;;
            unless (equal_b 1 (lit "\u00E7")) (
              cursor_back v_7 ;;
              break_ 8) ;;
            bra_cursor ;;
            unless (replace (lit "c")) (return_ false))) ;;
        break_ 3) ;;
      cursor_back v_4 ;;
      unless (call r_residual_suffix) (break_ 2))) ;;
  cursor_back v_3 ;;
  var v_9 := from_end ;;
  block 11 (unless (call r_un_double) (break_ 11)) ;;
  cursor_back v_9 ;;
  var v_10 := from_end ;;
  block 12 (unless (call r_un_accent) (break_ 12)) ;;
  cursor_back v_10 ;;
  cursor_backward ;;
  var v_11 := cursor ;;
  block 13 (unless (call r_postlude) (break_ 13)) ;;
  cursor_to v_11 ;;
  return_ true).

Definition copy_from (st other : Stemmer.t fields) : Stemmer.t fields :=
  Stemmer.copy_from (set_own st {| I_p2 := I_p2 (own other); I_p1 := I_p1 (own other); I_pV := I_pV (own other) |}) other.

Definition new : Stemmer.t fields := Stemmer.new {| I_p2 := 0; I_p1 := 0; I_pV := 0 |}.

(** ** The methods return and do not depend on earlier words *)

(** Two runs agree on [I_p2], [I_p1] and [I_pV], where the mark is not below the
    limit. *)
Definition live (lb : Z) (x x2 : fields) : Prop :=
  I_p2 x2 = I_p2 x ∧ I_p1 x2 = I_p1 x ∧ I_pV x2 = I_pV x ∧ lb ≤ I_pV x.
Ltac rels k := first [k live | k (@any fields)].

#[global] Typeclasses Opaque r_prelude r_mark_regions r_postlude r_RV r_R1 r_R2 r_standard_suffix r_i_verb_suffix
  r_verb_suffix r_residual_suffix r_un_double r_un_accent.

#[global] Instance r_prelude_ok : Edits Forward any any r_prelude.
Proof. snow_proof rels. Qed.
#[global] Instance r_mark_regions_ok : Edits Forward any live r_mark_regions.
Proof. snow_proof rels. Qed.
#[global] Instance r_postlude_ok : Edits Forward any any r_postlude.
Proof. snow_proof rels. Qed.
#[global] Instance r_RV_ok : Moves Backward live r_RV.
Proof. snow_proof rels. Qed.
#[global] Instance r_R1_ok : Moves Backward live r_R1.
Proof. snow_proof rels. Qed.
#[global] Instance r_R2_ok : Moves Backward live r_R2.
Proof. snow_proof rels. Qed.
#[global] Instance r_standard_suffix_ok : Edits Backward live live r_standard_suffix.
Proof. snow_proof rels. Qed.
#[global] Instance r_i_verb_suffix_ok : Edits Backward live live r_i_verb_suffix.
Proof. snow_proof rels. Qed.
#[global] Instance r_verb_suffix_ok : Edits Backward live live r_verb_suffix.
Proof. snow_proof rels. Qed.
#[global] Instance r_residual_suffix_ok : Edits Backward live live r_residual_suffix.
Proof. snow_proof rels. Qed.
#[global] Instance r_un_double_ok : Edits Backward live live r_un_double.
Proof. snow_proof rels. Qed.
#[global] Instance r_un_accent_ok : Edits Backward live live r_un_accent.
Proof. snow_proof rels. Qed.
#[global] Instance stem_ok : Stems stem.
Proof. snow_proof rels. Qed.

End French.
