(* ===== verification/German.v ===== *)
(** * The German stemmer

    Model of [src/misc/oktavia/src/stemmer/german-stemmer.jsx], one of the
    stemmers that were generated from Snowball scripts: its tables of endings, its
    groups of letters and its methods, statement by statement.  The instances show
    that every method returns and that the stemmer does not depend on the words it
    stemmed before. *)

From S2P Require Import Prelude JsObject Suffixes BaseStemmer Snowball SnowballRules.

Local Open Scope Z_scope.
Local Open Scope snow_scope.

Module German.
Import Stemmer Snow Rules.

(** ** Model *)

Record fields := { I_x : Z; I_p2 : Z; I_p1 : Z }.

Definition set_I_x (v : Z) (x : fields) : fields :=
  {| I_x := v; I_p2 := I_p2 x; I_p1 := I_p1 x |}.
Definition set_I_p2 (v : Z) (x : fields) : fields :=
  {| I_x := I_x x; I_p2 := v; I_p1 := I_p1 x |}.
Definition set_I_p1 (v : Z) (x : fields) : fields :=
  {| I_x := I_x x; I_p2 := I_p2 x; I_p1 := v |}.

Definition a_0 : list (Among fields) :=
  [entry (lit "") (-1) 6;
   entry (lit "U") 0 2;
   entry (lit "Y") 0 1;
   entry (lit "\u00E4") 0 3;
   entry (lit "\u00F6") 0 4;
   entry (lit "\u00FC") 0 5].

Definition a_1 : list (Among fields) :=
  [entry (lit "e") (-1) 2;
   entry (lit "em") (-1) 1;
   entry (lit "en") (-1) 2;
   entry (lit "ern") (-1) 1;
   entry (lit "er") (-1) 1;
   entry (lit "s") (-1) 3;
   entry (lit "es") 5 2].

Definition a_2 : list (Among fields) :=
  [entry (lit "en") (-1) 1;
   entry (lit "er") (-1) 1;
   entry (lit "st") (-1) 2;
   entry (lit "est") 2 1].

Definition a_3 : list (Among fields) :=
  [entry (lit "ig") (-1) 1;
   entry (lit "lich") (-1) 1].

Definition a_4 : list (Among fields) :=
  [entry (lit "end") (-1) 1;
   entry (lit "ig") (-1) 2;
   entry (lit "ung") (-1) 1;
   entry (lit "lich") (-1) 3;
   entry (lit "isch") (-1) 2;
   entry (lit "ik") (-1) 2;
   entry (lit "heit") (-1) 3;
   entry (lit "keit") (-1) 4].

Definition g_v : list Z := [17; 65; 16; 1; 0; 0; 0; 0; 0; 0; 0; 0; 0; 0; 0; 0; 8; 0; 32; 8].
Definition g_s_ending : list Z := [117; 30; 5].
Definition g_st_ending : list Z := [117; 30; 4].

Definition r_prelude : test fields := method (
  var v_1 := cursor ;;
  forever 0 (
    var v_2 := cursor ;;
    block 1 (
      block 2 (
        var v_3 := cursor ;;
        block 3 (
          bra_cursor ;;
          unless (equal 1 (lit "\u00DF")) (break_ 3) ;;
          ket_cursor ;;
          unless (replace (lit "ss")) (return_ false) ;;
          break_ 2) ;;
        cursor_to v_3 ;;
        when (λ st, limit st <=? cursor st) (break_ 1) ;;
        cursor_next) ;;
      continue_ 0) ;;
    cursor_to v_2 ;;
    break_ 0) ;;
  cursor_to v_1 ;;
  forever 4 (
    var v_4 := cursor ;;
    block 5 (
      forever 6 (
        var v_5 := cursor ;;
        block 7 (
          unless (grouping g_v 97 252) (break_ 7) ;;
          bra_cursor ;;
          block 8 (
            var v_6 := cursor ;;
            block 9 (
              unless (equal 1 (lit "u")) (break_ 9) ;;
              ket_cursor ;;
              unless (grouping g_v 97 252) (break_ 9) ;;
              unless (replace (lit "U")) (return_ false) ;;
              break_ 8) ;;
            cursor_to v_6 ;;
            unless (equal 1 (lit "y")) (break_ 7) ;;
            ket_cursor ;;
            unless (grouping g_v 97 252) (break_ 7) ;;
            unless (replace (lit "Y")) (return_ false)) ;;
          cursor_to v_5 ;;
          break_ 6) ;;
        cursor_to v_5 ;;
        when (λ st, limit st <=? cursor st) (break_ 5) ;;
        cursor_next) ;;
      continue_ 4) ;;
    cursor_to v_4 ;;
    break_ 4) ;;
  return_ true).

Definition r_mark_regions : test fields := method (
  put (λ st, set_I_p1 (limit st) (own st)) ;;
  put (λ st, set_I_p2 (limit st) (own st)) ;;
  var v_1 := cursor ;;
  var c := (λ st, cursor st + 3) ;;
  when (λ st, (c <? 0) || (limit st <? c)) (return_ false) ;;
  cursor_to c ;;
  put (λ st, set_I_x (cursor st) (own st)) ;;
  cursor_to v_1 ;;
  forever 0 (
    block 1 (
      unless (grouping g_v 97 252) (break_ 1) ;;
      break_ 0) ;;
    when (λ st, limit st <=? cursor st) (return_ false) ;;
    cursor_next) ;;
  forever 2 (
    block 3 (
      unless (non_grouping g_v 97 252) (break_ 3) ;;
      break_ 2) ;;
    when (λ st, limit st <=? cursor st) (return_ false) ;;
    cursor_next) ;;
  put (λ st, set_I_p1 (cursor st) (own st)) ;;
  block 4 (
    when (λ st, negb (I_p1 (own st) <? I_x (own st))) (break_ 4) ;;
    put (λ st, set_I_p1 (I_x (own st)) (own st))) ;;
  forever 5 (
    block 6 (
      unless (grouping g_v 97 252) (break_ 6) ;;
      break_ 5) ;;
    when (λ st, limit st <=? cursor st) (return_ false) ;;
    cursor_next) ;;
  forever 7 (
    block 8 (
      unless (non_grouping g_v 97 252) (break_ 8) ;;
      break_ 7) ;;
    when (λ st, limit st <=? cursor st) (return_ false) ;;
    cursor_next) ;;
  put (λ st, set_I_p2 (cursor st) (own st)) ;;
  return_ true).

Definition r_postlude : test fields := method (
  forever 0 (
    var v_1 := cursor ;;
    block 1 (
      bra_cursor ;;
      var among_var in among a_0 6 ;;
      when (λ st, among_var =? 0) (break_ 1) ;;
      ket_cursor ;;
      switch among_var [
        (0, break_ 1);
        (1, unless (replace (lit "y")) (return_ false));
        (2, unless (replace (lit "u")) (return_ false));
        (3, unless (replace (lit "a")) (return_ false));
        (4, unless (replace (lit "o")) (return_ false));
        (5, unless (replace (lit "u")) (return_ false));
        (6,
          when (λ st, limit st <=? cursor st) (break_ 1) ;;
          cursor_next)] ;;
      continue_ 0) ;;
    cursor_to v_1 ;;
    break_ 0) ;;
  return_ true).

Definition r_R1 : test fields := method (
  when (λ st, negb (I_p1 (own st) <=? cursor st)) (return_ false) ;;
  return_ true).

Definition r_R2 : test fields := method (
  when (λ st, negb (I_p2 (own st) <=? cursor st)) (return_ false) ;;
  return_ true).

Definition r_standard_suffix : test fields := method (
  var v_1 := from_end ;;
  block 0 (
    ket_cursor ;;
    var among_var in among_b a_1 7 ;;
    when (λ st, among_var =? 0) (break_ 0) ;;
    bra_cursor ;;
    unless (call r_R1) (break_ 0) ;;
    switch among_var [
      (0, break_ 0);
      (1, unless delete (return_ false));
      (2,
        unless delete (return_ false) ;;
        var v_2 := from_end ;;
        block 1 (
          ket_cursor ;;
          unless (equal_b 1 (lit "s")) (
            cursor_back v_2 ;;
            break_ 1) ;;
          bra_cursor ;;
          unless (equal_b 3 (lit "nis")) (
            cursor_back v_2 ;;
            break_ 1) ;;
          unless delete (return_ false)));
      (3,
        unless (grouping_b g_s_ending 98 116) (break_ 0) ;;
        unless delete (return_ false))]) ;;
  cursor_back v_1 ;;
  var v_3 := from_end ;;
  block 2 (
    ket_cursor ;;
    var among_var in among_b a_2 4 ;;
    when (λ st, among_var =? 0) (break_ 2) ;;
    bra_cursor ;;
    unless (call r_R1) (break_ 2) ;;
    switch among_var [
      (0, break_ 2);
      (1, unless delete (return_ false));
      (2,
        unless (grouping_b g_st_ending 98 116) (break_ 2) ;;
        var c := (λ st, cursor st - 3) ;;
        when (λ st, (c <? limit_backward st) || (limit st <? c)) (break_ 2) ;;
        cursor_to c ;;
        unless delete (return_ false))]) ;;
  cursor_back v_3 ;;
  var v_4 := from_end ;;
  block 3 (
    ket_cursor ;;
    var among_var in among_b a_4 8 ;;
    when (λ st, among_var =? 0) (break_ 3) ;;
    bra_cursor ;;
    unless (call r_R2) (break_ 3) ;;
    switch among_var [
      (0, break_ 3);
      (1,
        unless delete (return_ false) ;;
        var v_5 := from_end ;;
        block 4 (
          ket_cursor ;;
          unless (equal_b 2 (lit "ig")) (
            cursor_back v_5 ;;
            break_ 4) ;;
          bra_cursor ;;
          var v_6 := from_end ;;
          block 5 (
            unless (equal_b 1 (lit "e")) (break_ 5) ;;
            cursor_back v_5 ;;
            break_ 4) ;;
          cursor_back v_6 ;;
          unless (call r_R2) (
            cursor_back v_5 ;;
            break_ 4) ;;
          unless delete (return_ false)));
      (2,
        var v_7 := from_end ;;
        block 6 (
          unless (equal_b 1 (lit "e")) (break_ 6) ;;
          break_ 3) ;;
        cursor_back v_7 ;;
        unless delete (return_ false));
      (3,
        unless delete (return_ false) ;;
        var v_8 := from_end ;;
        block 7 (
          ket_cursor ;;
          block 8 (
            var v_9 := from_end ;;
            block 9 (
              unless (equal_b 2 (lit "er")) (break_ 9) ;;
              break_ 8) ;;
            cursor_back v_9 ;;
            unless (equal_b 2 (lit "en")) (
              cursor_back v_8 ;;
              break_ 7)) ;;
          bra_cursor ;;
          unless (call r_R1) (
            cursor_back v_8 ;;
            break_ 7) ;;
          unless delete (return_ false)));
      (4,
        unless delete (return_ false) ;;
        var v_10 := from_end ;;
        block 10 (
          ket_cursor ;;
          var among_var in among_b a_3 2 ;;
          when (λ st, among_var =? 0) (
            cursor_back v_10 ;;
            break_ 10) ;;
          bra_cursor ;;
          unless (call r_R2) (
            cursor_back v_10 ;;
            break_ 10) ;;
          switch among_var [
            (0,
              cursor_back v_10 ;;
              break_ 10);
            (1, unless delete (return_ false))]))]) ;;
  cursor_back v_4 ;;
  return_ true).

Definition stem : test fields := method (
  var v_1 := cursor ;;
  block 0 (unless (call r_prelude) (break_ 0)) ;;
  cursor_to v_1 ;;
  var v_2 := cursor ;;
  block 1 (unless (call r_mark_regions) (break_ 1)) ;;
  cursor_to v_2 ;;
  backward_cursor ;;
  cursor_limit ;;
  var v_3 := from_end ;;
  block 2 (unless (call r_standard_suffix) (break_ 2)) ;;
  cursor_back v_3 ;;
  cursor_backward ;;
  var v_4 := cursor ;;
  block 3 (unless (call r_postlude) (break_ 3)) ;;
  cursor_to v_4 ;;
  return_ true).

Definition copy_from (st other : Stemmer.t fields) : Stemmer.t fields :=
  Stemmer.copy_from (set_own st {| I_x := I_x (own other); I_p2 := I_p2 (own other); I_p1 := I_p1 (own other) |}) other.

Definition new : Stemmer.t fields := Stemmer.new {| I_x := 0; I_p2 := 0; I_p1 := 0 |}.

(** ** The methods return and do not depend on earlier words *)

(** Two runs agree on [I_p2] and [I_p1]. *)
Definition live (lb : Z) (x x2 : fields) : Prop :=
  I_p2 x2 = I_p2 x ∧ I_p1 x2 = I_p1 x.
Ltac rels k := first [k live | k (@any fields)].

#[global] Typeclasses Opaque r_prelude r_mark_regions r_postlude r_R1 r_R2 r_standard_suffix.

#[global] Instance r_prelude_ok : Edits Forward any any r_prelude.
Proof. snow_proof rels. Qed.
#[global] Instance r_mark_regions_ok : Edits Forward any live r_mark_regions.
Proof. snow_proof rels. Qed.
#[global] Instance r_postlude_ok : Edits Forward any any r_postlude.
Proof. snow_proof rels. Qed.
#[global] Instance r_R1_ok : Moves Backward live r_R1.
Proof. snow_proof rels. Qed.
#[global] Instance r_R2_ok : Moves Backward live r_R2.
Proof. snow_proof rels. Qed.
#[global] Instance r_standard_suffix_ok : Edits Backward live live r_standard_suffix.
Proof. snow_proof rels. Qed.
#[global] Instance stem_ok : Stems stem.
Proof. snow_proof rels. Qed.

End German.
