(* ===== verification/Hungarian.v ===== *)
(** * The Hungarian stemmer

    Model of [src/misc/oktavia/src/stemmer/hungarian-stemmer.jsx], one of the
    stemmers that were generated from Snowball scripts: its tables of endings, its
    groups of letters and its methods, statement by statement.  The instances show
    that every method returns and that the stemmer does not depend on the words it
    stemmed before. *)

From S2P Require Import Prelude JsObject Suffixes BaseStemmer Snowball SnowballRules.

Local Open Scope Z_scope.
Local Open Scope snow_scope.

Module Hungarian.
Import Stemmer Snow Rules.

(** ** Model *)

Record fields := { I_p1 : Z }.

Definition set_I_p1 (v : Z) (x : fields) : fields :=
  {| I_p1 := v |}.

Definition a_0 : list (Among fields) :=
  [entry (lit "cs") (-1) (-1);
   entry (lit "dzs") (-1) (-1);
   entry (lit "gy") (-1) (-1);
   entry (lit "ly") (-1) (-1);
   entry (lit "ny") (-1) (-1);
   entry (lit "sz") (-1) (-1);
   entry (lit "ty") (-1) (-1);
   entry (lit "zs") (-1) (-1)].

Definition a_1 : list (Among fields) :=
  [entry (lit "\u00E1") (-1) 1;
   entry (lit "\u00E9") (-1) 2].

Definition a_2 : list (Among fields) :=
  [entry (lit "bb") (-1) (-1);
   entry (lit "cc") (-1) (-1);
   entry (lit "dd") (-1) (-1);
   entry (lit "ff") (-1) (-1);
   entry (lit "gg") (-1) (-1);
   entry (lit "jj") (-1) (-1);
   entry (lit "kk") (-1) (-1);
   entry (lit "ll") (-1) (-1);
   entry (lit "mm") (-1) (-1);
   entry (lit "nn") (-1) (-1);
   entry (lit "pp") (-1) (-1);
   entry (lit "rr") (-1) (-1);
   entry (lit "ccs") (-1) (-1);
   entry (lit "ss") (-1) (-1);
   entry (lit "zzs") (-1) (-1);
   entry (lit "tt") (-1) (-1);
   entry (lit "vv") (-1) (-1);
   entry (lit "ggy") (-1) (-1);
   entry (lit "lly") (-1) (-1);
   entry (lit "nny") (-1) (-1);
   entry (lit "tty") (-1) (-1);
   entry (lit "ssz") (-1) (-1);
   entry (lit "zz") (-1) (-1)].

Definition a_3 : list (Among fields) :=
  [entry (lit "al") (-1) 1;
   entry (lit "el") (-1) 2].

Definition a_4 : list (Among fields) :=
  [entry (lit "ba") (-1) (-1);
   entry (lit "ra") (-1) (-1);
   entry (lit "be") (-1) (-1);
   entry (lit "re") (-1) (-1);
   entry (lit "ig") (-1) (-1);
   entry (lit "nak") (-1) (-1);
   entry (lit "nek") (-1) (-1);
   entry (lit "val") (-1) (-1);
   entry (lit "vel") (-1) (-1);
   entry (lit "ul") (-1) (-1);
   entry (lit "n\u00E1l") (-1) (-1);
   entry (lit "n\u00E9l") (-1) (-1);
   entry (lit "b\u00F3l") (-1) (-1);
   entry (lit "r\u00F3l") (-1) (-1);
   entry (lit "t\u00F3l") (-1) (-1);
   entry (lit "b\u00F5l") (-1) (-1);
   entry (lit "r\u00F5l") (-1) (-1);
   entry (lit "t\u00F5l") (-1) (-1);
   entry (lit "\u00FCl") (-1) (-1);
   entry (lit "n") (-1) (-1);
   entry (lit "an") 19 (-1);
   entry (lit "ban") 20 (-1);
   entry (lit "en") 19 (-1);
   entry (lit "ben") 22 (-1);
   entry (lit "k\u00E9ppen") 22 (-1);
   entry (lit "on") 19 (-1);
   entry (lit "\u00F6n") 19 (-1);
   entry (lit "k\u00E9pp") (-1) (-1);
   entry (lit "kor") (-1) (-1);
   entry (lit "t") (-1) (-1);
   entry (lit "at") 29 (-1);
   entry (lit "et") 29 (-1);
   entry (lit "k\u00E9nt") 29 (-1);
   entry (lit "ank\u00E9nt") 32 (-1);
   entry (lit "enk\u00E9nt") 32 (-1);
   entry (lit "onk\u00E9nt") 32 (-1);
   entry (lit "ot") 29 (-1);
   entry (lit "\u00E9rt") 29 (-1);
   entry (lit "\u00F6t") 29 (-1);
   entry (lit "hez") (-1) (-1);
   entry (lit "hoz") (-1) (-1);
   entry (lit "h\u00F6z") (-1) (-1);
   entry (lit "v\u00E1") (-1) (-1);
   entry (lit "v\u00E9") (-1) (-1)].

Definition a_5 : list (Among fields) :=
  [entry (lit "\u00E1n") (-1) 2;
   entry (lit "\u00E9n") (-1) 1;
   entry (lit "\u00E1nk\u00E9nt") (-1) 3].

Definition a_6 : list (Among fields) :=
  [entry (lit "stul") (-1) 2;
   entry (lit "astul") 0 1;
   entry (lit "\u00E1stul") 0 3;
   entry (lit "st\u00FCl") (-1) 2;
   entry (lit "est\u00FCl") 3 1;
   entry (lit "\u00E9st\u00FCl") 3 4].

Definition a_7 : list (Among fields) :=
  [entry (lit "\u00E1") (-1) 1;
   entry (lit "\u00E9") (-1) 2].

Definition a_8 : list (Among fields) :=
  [entry (lit "k") (-1) 7;
   entry (lit "ak") 0 4;
   entry (lit "ek") 0 6;
   entry (lit "ok") 0 5;
   entry (lit "\u00E1k") 0 1;
   entry (lit "\u00E9k") 0 2;
   entry (lit "\u00F6k") 0 3].

Definition a_9 : list (Among fields) :=
  [entry (lit "\u00E9i") (-1) 7;
   entry (lit "\u00E1\u00E9i") 0 6;
   entry (lit "\u00E9\u00E9i") 0 5;
   entry (lit "\u00E9") (-1) 9;
   entry (lit "k\u00E9") 3 4;
   entry (lit "ak\u00E9") 4 1;
   entry (lit "ek\u00E9") 4 1;
   entry (lit "ok\u00E9") 4 1;
   entry (lit "\u00E1k\u00E9") 4 3;
   entry (lit "\u00E9k\u00E9") 4 2;
   entry (lit "\u00F6k\u00E9") 4 1;
   entry (lit "\u00E9\u00E9") 3 8].

Definition a_10 : list (Among fields) :=
  [entry (lit "a") (-1) 18;
   entry (lit "ja") 0 17;
   entry (lit "d") (-1) 16;
   entry (lit "ad") 2 13;
   entry (lit "ed") 2 13;
   entry (lit "od") 2 13;
   entry (lit "\u00E1d") 2 14;
   entry (lit "\u00E9d") 2 15;
   entry (lit "\u00F6d") 2 13;
   entry (lit "e") (-1) 18;
   entry (lit "je") 9 17;
   entry (lit "nk") (-1) 4;
   entry (lit "unk") 11 1;
   entry (lit "\u00E1nk") 11 2;
   entry (lit "\u00E9nk") 11 3;
   entry (lit "\u00FCnk") 11 1;
   entry (lit "uk") (-1) 8;
   entry (lit "juk") 16 7;
   entry (lit "\u00E1juk") 17 5;
   entry (lit "\u00FCk") (-1) 8;
   entry (lit "j\u00FCk") 19 7;
   entry (lit "\u00E9j\u00FCk") 20 6;
   entry (lit "m") (-1) 12;
   entry (lit "am") 22 9;
   entry (lit "em") 22 9;
   entry (lit "om") 22 9;
   entry (lit "\u00E1m") 22 10;
   entry (lit "\u00E9m") 22 11;
   entry (lit "o") (-1) 18;
   entry (lit "\u00E1") (-1) 19;
   entry (lit "\u00E9") (-1) 20].

Definition a_11 : list (Among fields) :=
  [entry (lit "id") (-1) 10;
   entry (lit "aid") 0 9;
   entry (lit "jaid") 1 6;
   entry (lit "eid") 0 9;
   entry (lit "jeid") 3 6;
   entry (lit "\u00E1id") 0 7;
   entry (lit "\u00E9id") 0 8;
   entry (lit "i") (-1) 15;
   entry (lit "ai") 7 14;
   entry (lit "jai") 8 11;
   entry (lit "ei") 7 14;
   entry (lit "jei") 10 11;
   entry (lit "\u00E1i") 7 12;
   entry (lit "\u00E9i") 7 13;
   entry (lit "itek") (-1) 24;
   entry (lit "eitek") 14 21;
   entry (lit "jeitek") 15 20;
   entry (lit "\u00E9itek") 14 23;
   entry (lit "ik") (-1) 29;
   entry (lit "aik") 18 26;
   entry (lit "jaik") 19 25;
   entry (lit "eik") 18 26;
   entry (lit "jeik") 21 25;
   entry (lit "\u00E1ik") 18 27;
   entry (lit "\u00E9ik") 18 28;
   entry (lit "ink") (-1) 20;
   entry (lit "aink") 25 17;
   entry (lit "jaink") 26 16;
   entry (lit "eink") 25 17;
   entry (lit "jeink") 28 16;
   entry (lit "\u00E1ink") 25 18;
   entry (lit "\u00E9ink") 25 19;
   entry (lit "aitok") (-1) 21;
   entry (lit "jaitok") 32 20;
   entry (lit "\u00E1itok") (-1) 22;
   entry (lit "im") (-1) 5;
   entry (lit "aim") 35 4;
   entry (lit "jaim") 36 1;
   entry (lit "eim") 35 4;
   entry (lit "jeim") 38 1;
   entry (lit "\u00E1im") 35 2;
   entry (lit "\u00E9im") 35 3].

Definition g_v : list Z := [17; 65; 16; 0; 0; 0; 0; 0; 0; 0; 0; 0; 0; 0; 0; 0; 1; 17; 52; 14].

Definition r_mark_regions : test fields := method (
  put (λ st, set_I_p1 (limit st) (own st)) ;;
  block 0 (
    var v_1 := cursor ;;
    block 1 (
      unless (grouping g_v 97 252) (break_ 1) ;;
      forever 2 (
        var v_2 := cursor ;;
        block 3 (
          unless (non_grouping g_v 97 252) (break_ 3) ;;
          cursor_to v_2 ;;
          break_ 2) ;;
        cursor_to v_2 ;;
        when (λ st, limit st <=? cursor st) (break_ 1) ;;
        cursor_next) ;;
      block 4 (
        var v_3 := cursor ;;
        block 5 (
          unless (some (among a_0 8)) (break_ 5) ;;
          break_ 4) ;;
        cursor_to v_3 ;;
        when (λ st, limit st <=? cursor st) (break_ 1) ;;
        cursor_next) ;;
      put (λ st, set_I_p1 (cursor st) (own st)) ;;
      break_ 0) ;;
    cursor_to v_1 ;;
    unless (non_grouping g_v 97 252) (return_ false) ;;
    forever 6 (
      block 7 (
        unless (grouping g_v 97 252) (break_ 7) ;;
        break_ 6) ;;
      when (λ st, limit st <=? cursor st) (return_ false) ;;
      cursor_next) ;;
    put (λ st, set_I_p1 (cursor st) (own st))) ;;
  return_ true).

Definition r_R1 : test fields := method (
  when (λ st, negb (I_p1 (own st) <=? cursor st)) (return_ false) ;;
  return_ true).

Definition r_v_ending : test fields := method (
  ket_cursor ;;
  var among_var in among_b a_1 2 ;;
  when (λ st, among_var =? 0) (return_ false) ;;
  bra_cursor ;;
  unless (call r_R1) (return_ false) ;;
  switch among_var [
    (0, return_ false);
    (1, unless (replace (lit "a")) (return_ false));
    (2, unless (replace (lit "e")) (return_ false))] ;;
  return_ true).

Definition r_double : test fields := method (
  var v_1 := from_end ;;
  unless (some (among_b a_2 23)) (return_ false) ;;
  cursor_back v_1 ;;
  return_ true).

Definition r_undouble : test fields := method (
  when (λ st, cursor st <=? limit_backward st) (return_ false) ;;
  cursor_prev ;;
  ket_cursor ;;
  var c := (λ st, cursor st - 1) ;;
  when (λ st, (c <? limit_backward st) || (limit st <? c)) (return_ false) ;;
  cursor_to c ;;
  bra_cursor ;;
  unless delete (return_ false) ;;
  return_ true).

Definition r_instrum : test fields := method (
  ket_cursor ;;
  var among_var in among_b a_3 2 ;;
  when (λ st, among_var =? 0) (return_ false) ;;
  bra_cursor ;;
  unless (call r_R1) (return_ false) ;;
  switch among_var [
    (0, return_ false);
    (1, unless (call r_double) (return_ false));
    (2, unless (call r_double) (return_ false))] ;;
  unless delete (return_ false) ;;
  unless (call r_undouble) (return_ false) ;;
  return_ true).

Definition r_case : test fields := method (
  ket_cursor ;;
  unless (some (among_b a_4 44)) (return_ false) ;;
  bra_cursor ;;
  unless (call r_R1) (return_ false) ;;
  unless delete (return_ false) ;;
  unless (call r_v_ending) (return_ false) ;;
  return_ true).

Definition r_case_special : test fields := method (
  ket_cursor ;;
  var among_var in among_b a_5 3 ;;
  when (λ st, among_var =? 0) (return_ false) ;;
  bra_cursor ;;
  unless (call r_R1) (return_ false) ;;
  switch among_var [
    (0, return_ false);
    (1, unless (replace (lit "e")) (return_ false));
    (2, unless (replace (lit "a")) (return_ false));
    (3, unless (replace (lit "a")) (return_ false))] ;;
  return_ true).

Definition r_case_other : test fields := method (
  ket_cursor ;;
  var among_var in among_b a_6 6 ;;
  when (λ st, among_var =? 0) (return_ false) ;;
  bra_cursor ;;
  unless (call r_R1) (return_ false) ;;
  switch among_var [
    (0, return_ false);
    (1, unless delete (return_ false));
    (2, unless delete (return_ false));
    (3, unless (replace (lit "a")) (return_ false));
    (4, unless (replace (lit "e")) (return_ false))] ;;
  return_ true).

Definition r_factive : test fields := method (
  ket_cursor ;;
  var among_var in among_b a_7 2 ;;
  when (λ st, among_var =? 0) (return_ false) ;;
  bra_cursor ;;
  unless (call r_R1) (return_ false) ;;
  switch among_var [
    (0, return_ false);
    (1, unless (call r_double) (return_ false));
    (2, unless (call r_double) (return_ false))] ;;
  unless delete (return_ false) ;;
  unless (call r_undouble) (return_ false) ;;
  return_ true).

Definition r_plural : test fields := method (
  ket_cursor ;;
  var among_var in among_b a_8 7 ;;
  when (λ st, among_var =? 0) (return_ false) ;;
  bra_cursor ;;
  unless (call r_R1) (return_ false) ;;
  switch among_var [
    (0, return_ false);
    (1, unless (replace (lit "a")) (return_ false));
    (2, unless (replace (lit "e")) (return_ false));
    (3, unless delete (return_ false));
    (4, unless delete (return_ false));
    (5, unless delete (return_ false));
    (6, unless delete (return_ false));
    (7, unless delete (return_ false))] ;;
  return_ true).

Definition r_owned : test fields := method (
  ket_cursor ;;
  var among_var in among_b a_9 12 ;;
  when (λ st, among_var =? 0) (return_ false) ;;
  bra_cursor ;;
  unless (call r_R1) (return_ false) ;;
  switch among_var [
    (0, return_ false);
    (1, unless delete (return_ false));
    (2, unless (replace (lit "e")) (return_ false));
    (3, unless (replace (lit "a")) (return_ false));
    (4, unless delete (return_ false));
    (5, unless (replace (lit "e")) (return_ false));
    (6, unless (replace (lit "a")) (return_ false));
    (7, unless delete (return_ false));
    (8, unless (replace (lit "e")) (return_ false));
    (9, unless delete (return_ false))] ;;
  return_ true).

Definition r_sing_owner : test fields := method (
  ket_cursor ;;
  var among_var in among_b a_10 31 ;;
  when (λ st, among_var =? 0) (return_ false) ;;
  bra_cursor ;;
  unless (call r_R1) (return_ false) ;;
  switch among_var [
    (0, return_ false);
    (1, unless delete (return_ false));
    (2, unless (replace (lit "a")) (return_ false));
    (3, unless (replace (lit "e")) (return_ false));
    (4, unless delete (return_ false));
    (5, unless (replace (lit "a")) (return_ false));
    (6, unless (replace (lit "e")) (return_ false));
    (7, unless delete (return_ false));
    (8, unless delete (return_ false));
    (9, unless delete (return_ false));
    (10, unless (replace (lit "a")) (return_ false));
    (11, unless (replace (lit "e")) (return_ false));
    (12, unless delete (return_ false));
    (13, unless delete (return_ false));
    (14, unless (replace (lit "a")) (return_ false));
    (15, unless (replace (lit "e")) (return_ false));
    (16, unless delete (return_ false));
    (17, unless delete (return_ false));
    (18, unless delete (return_ false));
    (19, unless (replace (lit "a")) (return_ false));
    (20, unless (replace (lit "e")) (return_ false))] ;;
  return_ true).

Definition r_plur_owner : test fields := method (
  ket_cursor ;;
  var among_var in among_b a_11 42 ;;
  when (λ st, among_var =? 0) (return_ false) ;;
  bra_cursor ;;
  unless (call r_R1) (return_ false) ;;
  switch among_var [
    (0, return_ false);
    (1, unless delete (return_ false));
    (2, unless (replace (lit "a")) (return_ false));
    (3, unless (replace (lit "e")) (return_ false));
    (4, unless delete (return_ false));
    (5, unless delete (return_ false));
    (6, unless delete (return_ false));
    (7, unless (replace (lit "a")) (return_ false));
    (8, unless (replace (lit "e")) (return_ false));
    (9, unless delete (return_ false));
    (10, unless delete (return_ false));
    (11, unless delete (return_ false));
    (12, unless (replace (lit "a")) (return_ false));
    (13, unless (replace (lit "e")) (return_ false));
    (14, unless delete (return_ false));
    (15, unless delete (return_ false));
    (16, unless delete (return_ false));
    (17, unless delete (return_ false));
    (18, unless (replace (lit "a")) (return_ false));
    (19, unless (replace (lit "e")) (return_ false));
    (20, unless delete (return_ false));
    (21, unless delete (return_ false));
    (22, unless (replace (lit "a")) (return_ false));
    (23, unless (replace (lit "e")) (return_ false));
    (24, unless delete (return_ false));
    (25, unless delete (return_ false));
    (26, unless delete (return_ false));
    (27, unless (replace (lit "a")) (return_ false));
    (28, unless (replace (lit "e")) (return_ false));
    (29, unless delete (return_ false))] ;;
  return_ true).

Definition stem : test fields := method (
  var v_1 := cursor ;;
  block 0 (unless (call r_mark_regions) (break_ 0)) ;;
  cursor_to v_1 ;;
  backward_cursor ;;
  cursor_limit ;;
  var v_2 := from_end ;;
  block 1 (unless (call r_instrum) (break_ 1)) ;;
  cursor_back v_2 ;;
  var v_3 := from_end ;;
  block 2 (unless (call r_case) (break_ 2)) ;;
  cursor_back v_3 ;;
  var v_4 := from_end ;;
  block 3 (unless (call r_case_special) (break_ 3)) ;;
  cursor_back v_4 ;;
  var v_5 := from_end ;;
  block 4 (unless (call r_case_other) (break_ 4)) ;;
  cursor_back v_5 ;;
  var v_6 := from_end ;;
  block 5 (unless (call r_factive) (break_ 5)) ;;
  cursor_back v_6 ;;
  var v_7 := from_end ;;
  block 6 (unless (call r_owned) (break_ 6)) ;;
  cursor_back v_7 ;;
  var v_8 := from_end ;;
  block 7 (unless (call r_sing_owner) (break_ 7)) ;;
  cursor_back v_8 ;;
  var v_9 := from_end ;;
  block 8 (unless (call r_plur_owner) (break_ 8)) ;;
  cursor_back v_9 ;;
  var v_10 := from_end ;;
  block 9 (unless (call r_plural) (break_ 9)) ;;
  cursor_back v_10 ;;
  cursor_backward ;;
  return_ true).

Definition copy_from (st other : Stemmer.t fields) : Stemmer.t fields :=
  Stemmer.copy_from (set_own st {| I_p1 := I_p1 (own other) |}) other.

Definition new : Stemmer.t fields := Stemmer.new {| I_p1 := 0 |}.

(** ** The methods return and do not depend on earlier words *)

(** Two runs agree on [I_p1]. *)
Definition live (lb : Z) (x x2 : fields) : Prop :=
  I_p1 x2 = I_p1 x.
Ltac rels k := first [k live | k (@any fields)].

#[global] Typeclasses Opaque r_mark_regions r_R1 r_v_ending r_double r_undouble r_instrum r_case r_case_special
  r_case_other r_factive r_plural r_owned r_sing_owner r_plur_owner.

#[global] Instance r_mark_regions_ok : Edits Forward any live r_mark_regions.
Proof. snow_proof rels. Qed.
#[global] Instance r_R1_ok : Moves Backward live r_R1.
Proof. snow_proof rels. Qed.
#[global] Instance r_v_ending_ok : Edits Backward live live r_v_ending.
Proof. snow_proof rels. Qed.
#[global] Instance r_double_ok : Moves Backward any r_double.
Proof. snow_proof rels. Qed.
#[global] Instance r_undouble_ok : Edits Backward live live r_undouble.
Proof. snow_proof rels. Qed.
#[global] Instance r_instrum_ok : Edits Backward live live r_instrum.
Proof. snow_proof rels. Qed.
#[global] Instance r_case_ok : Edits Backward live live r_case.
Proof. snow_proof rels. Qed.
#[global] Instance r_case_special_ok : Edits Backward live live r_case_special.
Proof. snow_proof rels. Qed.
#[global] Instance r_case_other_ok : Edits Backward live live r_case_other.
Proof. snow_proof rels. Qed.
#[global] Instance r_factive_ok : Edits Backward live live r_factive.
Proof. snow_proof rels. Qed.
#[global] Instance r_plural_ok : Edits Backward live live r_plural.
Proof. snow_proof rels. Qed.
#[global] Instance r_owned_ok : Edits Backward live live r_owned.
Proof. snow_proof rels. Qed.
#[global] Instance r_sing_owner_ok : Edits Backward live live r_sing_owner.
Proof. snow_proof rels. Qed.
#[global] Instance r_plur_owner_ok : Edits Backward live live r_plur_owner.
Proof. snow_proof rels. Qed.
#[global] Instance stem_ok : Stems stem.
Proof. snow_proof rels. Qed.

End Hungarian.
