(* ===== verification/Italian.v ===== *)
(** * The Italian stemmer

    Model of [src/misc/oktavia/src/stemmer/italian-stemmer.jsx], one of the
    stemmers that were generated from Snowball scripts: its tables of endings, its
    groups of letters and its methods, statement by statement.  The instances show
    that every method returns and that the stemmer does not depend on the words it
    stemmed before. *)

From S2P Require Import Prelude JsObject Suffixes BaseStemmer Snowball SnowballRules.

Local Open Scope Z_scope.
Local Open Scope snow_scope.

Module Italian.
Import Stemmer Snow Rules.

(** ** Model *)

Record fields := { I_p2 : Z; I_p1 : Z; I_pV : Z }.

Definition set_I_p2 (v : Z) (x : fields) : fields :=
  {| I_p2 := v; I_p1 := I_p1 x; I_pV := I_pV x |}.
Definition set_I_p1 (v : Z) (x : fields) : fields :=
  {| I_p2 := I_p2 x; I_p1 := v; I_pV := I_pV x |}.
Definition set_I_pV (v : Z) (x : fields) : fields :=
  {| I_p2 := I_p2 x; I_p1 := I_p1 x; I_pV := v |}.

Definition a_0 : list (Among fields) :=
  [entry (lit "") (-1) 7;
   entry (lit "qu") 0 6;
   entry (lit "\u00E1") 0 1;
   entry (lit "\u00E9") 0 2;
   entry (lit "\u00ED") 0 3;
   entry (lit "\u00F3") 0 4;
   entry (lit "\u00FA") 0 5].

Definition a_1 : list (Among fields) :=
  [entry (lit "") (-1) 3;
   entry (lit "I") 0 1;
   entry (lit "U") 0 2].

Definition a_2 : list (Among fields) :=
  [entry (lit "la") (-1) (-1);
   entry (lit "cela") 0 (-1);
   entry (lit "gliela") 0 (-1);
   entry (lit "mela") 0 (-1);
   entry (lit "tela") 0 (-1);
   entry (lit "vela") 0 (-1);
   entry (lit "le") (-1) (-1);
   entry (lit "cele") 6 (-1);
   entry (lit "gliele") 6 (-1);
   entry (lit "mele") 6 (-1);
   entry (lit "tele") 6 (-1);
   entry (lit "vele") 6 (-1);
   entry (lit "ne") (-1) (-1);
   entry (lit "cene") 12 (-1);
   entry (lit "gliene") 12 (-1);
   entry (lit "mene") 12 (-1);
   entry (lit "sene") 12 (-1);
   entry (lit "tene") 12 (-1);
   entry (lit "vene") 12 (-1);
   entry (lit "ci") (-1) (-1);
   entry (lit "li") (-1) (-1);
   entry (lit "celi") 20 (-1);
   entry (lit "glieli") 20 (-1);
   entry (lit "meli") 20 (-1);
   entry (lit "teli") 20 (-1);
   entry (lit "veli") 20 (-1);
   entry (lit "gli") 20 (-1);
   entry (lit "mi") (-1) (-1);
   entry (lit "si") (-1) (-1);
   entry (lit "ti") (-1) (-1);
   entry (lit "vi") (-1) (-1);
   entry (lit "lo") (-1) (-1);
   entry (lit "celo") 31 (-1);
   entry (lit "glielo") 31 (-1);
   entry (lit "melo") 31 (-1);
   entry (lit "telo") 31 (-1);
   entry (lit "velo") 31 (-1)].

Definition a_3 : list (Among fields) :=
  [entry (lit "ando") (-1) 1;
   entry (lit "endo") (-1) 1;
   entry (lit "ar") (-1) 2;
   entry (lit "er") (-1) 2;
   entry (lit "ir") (-1) 2].

Definition a_4 : list (Among fields) :=
  [entry (lit "ic") (-1) (-1);
   entry (lit "abil") (-1) (-1);
   entry (lit "os") (-1) (-1);
   entry (lit "iv") (-1) 1].

Definition a_5 : list (Among fields) :=
  [entry (lit "ic") (-1) 1;
   entry (lit "abil") (-1) 1;
   entry (lit "iv") (-1) 1].

Definition a_6 : list (Among fields) :=
  [entry (lit "ica") (-1) 1;
   entry (lit "logia") (-1) 3;
   entry (lit "osa") (-1) 1;
   entry (lit "ista") (-1) 1;
   entry (lit "iva") (-1) 9;
   entry (lit "anza") (-1) 1;
   entry (lit "enza") (-1) 5;
   entry (lit "ice") (-1) 1;
   entry (lit "atrice") 7 1;
   entry (lit "iche") (-1) 1;
   entry (lit "logie") (-1) 3;
   entry (lit "abile") (-1) 1;
   entry (lit "ibile") (-1) 1;
   entry (lit "usione") (-1) 4;
   entry (lit "azione") (-1) 2;
   entry (lit "uzione") (-1) 4;
   entry (lit "atore") (-1) 2;
   entry (lit "ose") (-1) 1;
   entry (lit "ante") (-1) 1;
   entry (lit "mente") (-1) 1;
   entry (lit "amente") 19 7;
   entry (lit "iste") (-1) 1;
   entry (lit "ive") (-1) 9;
   entry (lit "anze") (-1) 1;
   entry (lit "enze") (-1) 5;
   entry (lit "ici") (-1) 1;
   entry (lit "atrici") 25 1;
   entry (lit "ichi") (-1) 1;
   entry (lit "abili") (-1) 1;
   entry (lit "ibili") (-1) 1;
   entry (lit "ismi") (-1) 1;
   entry (lit "usioni") (-1) 4;
   entry (lit "azioni") (-1) 2;
   entry (lit "uzioni") (-1) 4;
   entry (lit "atori") (-1) 2;
   entry (lit "osi") (-1) 1;
   entry (lit "anti") (-1) 1;
   entry (lit "amenti") (-1) 6;
   entry (lit "imenti") (-1) 6;
   entry (lit "isti") (-1) 1;
   entry (lit "ivi") (-1) 9;
   entry (lit "ico") (-1) 1;
   entry (lit "ismo") (-1) 1;
   entry (lit "oso") (-1) 1;
   entry (lit "amento") (-1) 6;
   entry (lit "imento") (-1) 6;
   entry (lit "ivo") (-1) 9;
   entry (lit "it\u00E0") (-1) 8;
   entry (lit "ist\u00E0") (-1) 1;
   entry (lit "ist\u00E8") (-1) 1;
   entry (lit "ist\u00EC") (-1) 1].

Definition a_7 : list (Among fields) :=
  [entry (lit "isca") (-1) 1;
   entry (lit "enda") (-1) 1;
   entry (lit "ata") (-1) 1;
   entry (lit "ita") (-1) 1;
   entry (lit "uta") (-1) 1;
   entry (lit "ava") (-1) 1;
   entry (lit "eva") (-1) 1;
   entry (lit "iva") (-1) 1;
   entry (lit "erebbe") (-1) 1;
   entry (lit "irebbe") (-1) 1;
   entry (lit "isce") (-1) 1;
   entry (lit "ende") (-1) 1;
   entry (lit "are") (-1) 1;
   entry (lit "ere") (-1) 1;
   entry (lit "ire") (-1) 1;
   entry (lit "asse") (-1) 1;
   entry (lit "ate") (-1) 1;
   entry (lit "avate") 16 1;
   entry (lit "evate") 16 1;
   entry (lit "ivate") 16 1;
   entry (lit "ete") (-1) 1;
   entry (lit "erete") 20 1;
   entry (lit "irete") 20 1;
   entry (lit "ite") (-1) 1;
   entry (lit "ereste") (-1) 1;
   entry (lit "ireste") (-1) 1;
   entry (lit "ute") (-1) 1;
   entry (lit "erai") (-1) 1;
   entry (lit "irai") (-1) 1;
   entry (lit "isci") (-1) 1;
   entry (lit "endi") (-1) 1;
   entry (lit "erei") (-1) 1;
   entry (lit "irei") (-1) 1;
   entry (lit "assi") (-1) 1;
   entry (lit "ati") (-1) 1;
   entry (lit "iti") (-1) 1;
   entry (lit "eresti") (-1) 1;
   entry (lit "iresti") (-1) 1;
   entry (lit "uti") (-1) 1;
   entry (lit "avi") (-1) 1;
   entry (lit "evi") (-1) 1;
   entry (lit "ivi") (-1) 1;
   entry (lit "isco") (-1) 1;
   entry (lit "ando") (-1) 1;
   entry (lit "endo") (-1) 1;
   entry (lit "Yamo") (-1) 1;
   entry (lit "iamo") (-1) 1;
   entry (lit "avamo") (-1) 1;
   entry (lit "evamo") (-1) 1;
   entry (lit "ivamo") (-1) 1;
   entry (lit "eremo") (-1) 1;
   entry (lit "iremo") (-1) 1;
   entry (lit "assimo") (-1) 1;
   entry (lit "ammo") (-1) 1;
   entry (lit "emmo") (-1) 1;
   entry (lit "eremmo") 54 1;
   entry (lit "iremmo") 54 1;
   entry (lit "immo") (-1) 1;
   entry (lit "ano") (-1) 1;
   entry (lit "iscano") 58 1;
   entry (lit "avano") 58 1;
   entry (lit "evano") 58 1;
   entry (lit "ivano") 58 1;
   entry (lit "eranno") (-1) 1;
   entry (lit "iranno") (-1) 1;
   entry (lit "ono") (-1) 1;
   entry (lit "iscono") 65 1;
   entry (lit "arono") 65 1;
   entry (lit "erono") 65 1;
   entry (lit "irono") 65 1;
   entry (lit "erebbero") (-1) 1;
   entry (lit "irebbero") (-1) 1;
   entry (lit "assero") (-1) 1;
   entry (lit "essero") (-1) 1;
   entry (lit "issero") (-1) 1;
   entry (lit "ato") (-1) 1;
   entry (lit "ito") (-1) 1;
   entry (lit "uto") (-1) 1;
   entry (lit "avo") (-1) 1;
   entry (lit "evo") (-1) 1;
   entry (lit "ivo") (-1) 1;
   entry (lit "ar") (-1) 1;
   entry (lit "ir") (-1) 1;
   entry (lit "er\u00E0") (-1) 1;
   entry (lit "ir\u00E0") (-1) 1;
   entry (lit "er\u00F2") (-1) 1;
   entry (lit "ir\u00F2") (-1) 1].

Definition g_v : list Z := [17; 65; 16; 0; 0; 0; 0; 0; 0; 0; 0; 0; 0; 0; 0; 128; 128; 8; 2; 1].
Definition g_AEIO : list Z := [17; 65; 0; 0; 0; 0; 0; 0; 0; 0; 0; 0; 0; 0; 0; 128; 128; 8; 2].
Definition g_CG : list Z := [17].

Definition r_prelude : test fields := method (
  var v_1 := cursor ;;
  forever 0 (
    var v_2 := cursor ;;
    block 1 (
      bra_cursor ;;
      var among_var in among a_0 7 ;;
      when (λ st, among_var =? 0) (break_ 1) ;;
      ket_cursor ;;
      switch among_var [
        (0, break_ 1);
        (1, unless (replace (lit "\u00E0")) (return_ false));
        (2, unless (replace (lit "\u00E8")) (return_ false));
        (3, unless (replace (lit "\u00EC")) (return_ false));
        (4, unless (replace (lit "\u00F2")) (return_ false));
        (5, unless (replace (lit "\u00F9")) (return_ false));
        (6, unless (replace (lit "qU")) (return_ false));
        (7,
          when (λ st, limit st <=? cursor st) (break_ 1) ;;
          cursor_next)] ;;
      continue_ 0) ;;
    cursor_to v_2 ;;
    break_ 0) ;;
  cursor_to v_1 ;;
  forever 2 (
    var v_3 := cursor ;;
    block 3 (
      forever 4 (
        var v_4 := cursor ;;
        block 5 (
          unless (grouping g_v 97 249) (break_ 5) ;;
          bra_cursor ;;
          block 6 (
            var v_5 := cursor ;;
            block 7 (
              unless (equal 1 (lit "u")) (break_ 7) ;;
              ket_cursor ;;
              unless (grouping g_v 97 249) (break_ 7) ;;
              unless (replace (lit "U")) (return_ false) ;;
              break_ 6) ;;
            cursor_to v_5 ;;
            unless (equal 1 (lit "i")) (break_ 5) ;;
            ket_cursor ;;
            unless (grouping g_v 97 249) (break_ 5) ;;
            unless (replace (lit "I")) (return_ false)) ;;
          cursor_to v_4 ;;
          break_ 4) ;;
        cursor_to v_4 ;;
        when (λ st, limit st <=? cursor st) (break_ 3) ;;
        cursor_next) ;;
      continue_ 2) ;;
    cursor_to v_3 ;;
    break_ 2) ;;
  return_ true).

Definition r_mark_regions : test fields := method (
  put (λ st, set_I_pV (limit st) (own st)) ;;
  put (λ st, set_I_p1 (limit st) (own st)) ;;
  put (λ st, set_I_p2 (limit st) (own st)) ;;
  var v_1 := cursor ;;
  block 0 (
    block 1 (
      var v_2 := cursor ;;
      block 2 (
        unless (grouping g_v 97 249) (break_ 2) ;;
        block 3 (
          var v_3 := cursor ;;
          block 4 (
            unless (non_grouping g_v 97 249) (break_ 4) ;;
            forever 5 (
              block 6 (
                unless (grouping g_v 97 249) (break_ 6) ;;
                break_ 5) ;;
              when (λ st, limit st <=? cursor st) (break_ 4) ;;
              cursor_next) ;;
            break_ 3) ;;
          cursor_to v_3 ;;
          unless (grouping g_v 97 249) (break_ 2) ;;
          forever 7 (
            block 8 (
              unless (non_grouping g_v 97 249) (break_ 8) ;;
              break_ 7) ;;
            when (λ st, limit st <=? cursor st) (break_ 2) ;;
            cursor_next)) ;;
        break_ 1) ;;
      cursor_to v_2 ;;
      unless (non_grouping g_v 97 249) (break_ 0) ;;
      block 9 (
        var v_6 := cursor ;;
        block 10 (
          unless (non_grouping g_v 97 249) (break_ 10) ;;
          forever 11 (
            block 12 (
              unless (grouping g_v 97 249) (break_ 12) ;;
              break_ 11) ;;
            when (λ st, limit st <=? cursor st) (break_ 10) ;;
            cursor_next) ;;
          break_ 9) ;;
        cursor_to v_6 ;;
        unless (grouping g_v 97 249) (break_ 0) ;;
        when (λ st, limit st <=? cursor st) (break_ 0) ;;
        cursor_next)) ;;
    put (λ st, set_I_pV (cursor st) (own st))) ;;
  cursor_to v_1 ;;
  var v_8 := cursor ;;
  block 13 (
    forever 14 (
      block 15 (
        unless (grouping g_v 97 249) (break_ 15) ;;
        break_ 14) ;;
      when (λ st, limit st <=? cursor st) (break_ 13) ;;
      cursor_next) ;;
    forever 16 (
      block 17 (
        unless (non_grouping g_v 97 249) (break_ 17) ;;
        break_ 16) ;;
      when (λ st, limit st <=? cursor st) (break_ 13) ;;
      cursor_next) ;;
    put (λ st, set_I_p1 (cursor st) (own st)) ;;
    forever 18 (
      block 19 (
        unless (grouping g_v 97 249) (break_ 19) ;;
        break_ 18) ;;
      when (λ st, limit st <=? cursor st) (break_ 13) ;;
      cursor_next) ;;
    forever 20 (
      block 21 (
        unless (non_grouping g_v 97 249) (break_ 21) ;;
        break_ 20) ;;
      when (λ st, limit st <=? cursor st) (break_ 13) ;;
      cursor_next) ;;
    put (λ st, set_I_p2 (cursor st) (own st))) ;;
  cursor_to v_8 ;;
  return_ true).

Definition r_postlude : test fields := method (
  forever 0 (
    var v_1 := cursor ;;
    block 1 (
      bra_cursor ;;
      var among_var in among a_1 3 ;;
      when (λ st, among_var =? 0) (break_ 1) ;;
      ket_cursor ;;
      switch among_var [
        (0, break_ 1);
        (1, unless (replace (lit "i")) (return_ false));
        (2, unless (replace (lit "u")) (return_ false));
        (3,
          when (λ st, limit st <=? cursor st) (break_ 1) ;;
          cursor_next)] ;;
      continue_ 0) ;;
    cursor_to v_1 ;;
    break_ 0) ;;
  return_ true).

Definition r_RV : test fields := method (
  when (λ st, negb (I_pV (own st) <=? cursor st)) (return_ false) ;;
  return_ true).

Definition r_R1 : test fields := method (
  when (λ st, negb (I_p1 (own st) <=? cursor st)) (return_ false) ;;
  return_ true).

Definition r_R2 : test fields := method (
  when (λ st, negb (I_p2 (own st) <=? cursor st)) (return_ false) ;;
  return_ true).

Definition r_attached_pronoun : test fields := method (
  ket_cursor ;;
  unless (some (among_b a_2 37)) (return_ false) ;;
  bra_cursor ;;
  var among_var in among_b a_3 5 ;;
  when (λ st, among_var =? 0) (return_ false) ;;
  unless (call r_RV) (return_ false) ;;
  switch among_var [
    (0, return_ false);
    (1, unless delete (return_ false));
    (2, unless (replace (lit "e")) (return_ false))] ;;
  return_ true).

Definition r_standard_suffix : test fields := method (
  ket_cursor ;;
  var among_var in among_b a_6 51 ;;
  when (λ st, among_var =? 0) (return_ false) ;;
  bra_cursor ;;
  switch among_var [
    (0, return_ false);
    (1,
      unless (call r_R2) (return_ false) ;;
      unless delete (return_ false));
    (2,
      unless (call r_R2) (return_ false) ;;
      unless delete (return_ false) ;;
      var v_1 := from_end ;;
      block 0 (
        ket_cursor ;;
        unless (equal_b 2 (lit "ic")) (
          cursor_back v_1 ;;
          break_ 0) ;;
        bra_cursor ;;
        unless (call r_R2) (
          cursor_back v_1 ;;
          break_ 0) ;;
        unless delete (return_ false)));
    (3,
      unless (call r_R2) (return_ false) ;;
      unless (replace (lit "log")) (return_ false));
    (4,
      unless (call r_R2) (return_ false) ;;
      unless (replace (lit "u")) (return_ false));
    (5,
      unless (call r_R2) (return_ false) ;;
      unless (replace (lit "ente")) (return_ false));
    (6,
      unless (call r_RV) (return_ false) ;;
      unless delete (return_ false));
    (7,
      unless (call r_R1) (return_ false) ;;
      unless delete (return_ false) ;;
      var v_2 := from_end ;;
      block 1 (
        ket_cursor ;;
        var among_var in among_b a_4 4 ;;
        when (λ st, among_var =? 0) (
          cursor_back v_2 ;;
          break_ 1) ;;
        bra_cursor ;;
        unless (call r_R2) (
          cursor_back v_2 ;;
          break_ 1) ;;
        unless delete (return_ false) ;;
        switch among_var [
          (0,
            cursor_back v_2 ;;
            break_ 1);
          (1,
            ket_cursor ;;
            unless (equal_b 2 (lit "at")) (
              cursor_back v_2 ;;
              break_ 1) ;;
            bra_cursor ;;
            unless (call r_R2) (
              cursor_back v_2 ;;
              break_ 1) ;;
            unless delete (return_ false))]));
    (8,
      unless (call r_R2) (return_ false) ;;
      unless delete (return_ false) ;;
      var v_3 := from_end ;;
      block 2 (
        ket_cursor ;;
        var among_var in among_b a_5 3 ;;
        when (λ st, among_var =? 0) (
          cursor_back v_3 ;;
          break_ 2) ;;
        bra_cursor ;;
        switch among_var [
          (0,
            cursor_back v_3 ;;
            break_ 2);
          (1,
            unless (call r_R2) (
              cursor_back v_3 ;;
              break_ 2) ;;
            unless delete (return_ false))]));
    (9,
      unless (call r_R2) (return_ false) ;;
      unless delete (return_ false) ;;
      var v_4 := from_end ;;
      block 3 (
        ket_cursor ;;
        unless (equal_b 2 (lit "at")) (
          cursor_back v_4 ;;
          break_ 3) ;;
        bra_cursor ;;
        unless (call r_R2) (
          cursor_back v_4 ;;
          break_ 3) ;;
        unless delete (return_ false) ;;
        ket_cursor ;;
        unless (equal_b 2 (lit "ic")) (
          cursor_back v_4 ;;
          break_ 3) ;;
        bra_cursor ;;
        unless (call r_R2) (
          cursor_back v_4 ;;
          break_ 3) ;;
        unless delete (return_ false)))] ;;
  return_ true).

Definition r_verb_suffix : test fields := method (
  var v_1 := from_end ;;
  when (λ st, cursor st <? I_pV (own st)) (return_ false) ;;
  cursor_mark I_pV ;;
  var v_2 := limit_backward ;;
  backward_cursor ;;
  cursor_back v_1 ;;
  ket_cursor ;;
  var among_var in among_b a_7 87 ;;
  when (λ st, among_var =? 0) (
    backward_to v_2 ;;
    return_ false) ;;
  bra_cursor ;;
  switch among_var [
    (0,
      backward_to v_2 ;;
      return_ false);
    (1, unless delete (return_ false))] ;;
  backward_to v_2 ;;
  return_ true).

Definition r_vowel_suffix : test fields := method (
  var v_1 := from_end ;;
  block 0 (
    ket_cursor ;;
    unless (grouping_b g_AEIO 97 242) (
      cursor_back v_1 ;;
      break_ 0) ;;
    bra_cursor ;;
    unless (call r_RV) (
      cursor_back v_1 ;;
      break_ 0) ;;
    unless delete (return_ false) ;;
    ket_cursor ;;
    unless (equal_b 1 (lit "i")) (
      cursor_back v_1 ;;
      break_ 0) ;;
    bra_cursor ;;
    unless (call r_RV) (
      cursor_back v_1 ;;
      break_ 0) ;;
    unless delete (return_ false)) ;;
  var v_2 := from_end ;;
  block 1 (
    ket_cursor ;;
    unless (equal_b 1 (lit "h")) (
      cursor_back v_2 ;;
      break_ 1) ;;
    bra_cursor ;;
    unless (grouping_b g_CG 99 103) (
      cursor_back v_2 ;;
      break_ 1) ;;
    unless (call r_RV) (
      cursor_back v_2 ;;
      break_ 1) ;;
    unless delete (return_ false)) ;;
  return_ true).

Definition stem : test fields := method (
  var v_1 := cursor ;;
  block 0 (unless (call r_prelude) (break_ 0)) ;;
  cursor_to v_1 ;;
  var v_2 := cursor ;;
  block 1 (unless (call r_mark_regions) (break_ 1)) ;;
  cursor_to v_2 ;;
  backward_cursor ;;
  cursor_limit ;;
  var v_3 := from_end ;;
  block 2 (unless (call r_attached_pronoun) (break_ 2)) ;;
  cursor_back v_3 ;;
  var v_4 := from_end ;;
  block 3 (
    block 4 (
      var v_5 := from_end ;;
      block 5 (
        unless (call r_standard_suffix) (break_ 5) ;;
        break_ 4) ;;
      cursor_back v_5 ;;
      unless (call r_verb_suffix) (break_ 3))) ;;
  cursor_back v_4 ;;
  var v_6 := from_end ;;
  block 6 (unless (call r_vowel_suffix) (break_ 6)) ;;
  cursor_back v_6 ;;
  cursor_backward ;;
  var v_7 := cursor ;;
  block 7 (unless (call r_postlude) (break_ 7)) ;;
  cursor_to v_7 ;;
  return_ true).

Definition copy_from (st other : Stemmer.t fields) : Stemmer.t fields :=
  Stemmer.copy_from (set_own st {| I_p2 := I_p2 (own other); I_p1 := I_p1 (own other); I_pV := I_pV (own other) |}) other.

Definition new : Stemmer.t fields := Stemmer.new {| I_p2 := 0; I_p1 := 0; I_pV := 0 |}.

(** ** The methods return and do not depend on earlier words *)

(** Two runs agree on [I_p2], [I_p1] and [I_pV], where the mark is not below the
    limit. *)
Definition live (lb : Z) (x x2 : fields) : Prop :=
  I_p2 x2 = I_p2 x ∧ I_p1 x2 = I_p1 x ∧ I_pV x2 = I_pV x ∧ lb ≤ I_pV x.
Ltac rels k := first [k live | k (@any fields)].

#[global] Typeclasses Opaque r_prelude r_mark_regions r_postlude r_RV r_R1 r_R2 r_attached_pronoun r_standard_suffix
  r_verb_suffix r_vowel_suffix.

#[global] Instance r_prelude_ok : Edits Forward any any r_prelude.
Proof. snow_proof rels. Qed.
#[global] Instance r_mark_regions_ok : Edits Forward any live r_mark_regions.
Proof. snow_proof rels. Qed.
#[global] Instance r_postlude_ok : Edits Forward any any r_postlude.
Proof. snow_proof rels. Qed.
#[global] Instance r_RV_ok : Moves Backward live r_RV.
Proof. snow_proof rels. Qed.
#[global] Instance r_R1_ok : Moves Backward live r_R1.
Proof. snow_proof rels. Qed.
#[global] Instance r_R2_ok : Moves Backward live r_R2.
Proof. snow_proof rels. Qed.
#[global] Instance r_attached_pronoun_ok : Edits Backward live live r_attached_pronoun.
Proof. snow_proof rels. Qed.
#[global] Instance r_standard_suffix_ok : Edits Backward live live r_standard_suffix.
Proof. snow_proof rels. Qed.
#[global] Instance r_verb_suffix_ok : Edits Backward live live r_verb_suffix.
Proof. snow_proof rels. Qed.
#[global] Instance r_vowel_suffix_ok : Edits Backward live live r_vowel_suffix.
Proof. snow_proof rels. Qed.
#[global] Instance stem_ok : Stems stem.
Proof. snow_proof rels. Qed.

End Italian.
