(* ===== verification/Norwegian.v ===== *)
(** * The Norwegian stemmer

    Model of [src/misc/oktavia/src/stemmer/norwegian-stemmer.jsx], one of the
    stemmers that were generated from Snowball scripts: its tables of endings, its
    groups of letters and its methods, statement by statement.  The instances show
    that every method returns and that the stemmer does not depend on the words it
    stemmed before. *)

From S2P Require Import Prelude JsObject Suffixes BaseStemmer Snowball SnowballRules.

Local Open Scope Z_scope.
Local Open Scope snow_scope.

Module Norwegian.
Import Stemmer Snow Rules.

(** ** Model *)

Record fields := { I_x : Z; I_p1 : Z }.

Definition set_I_x (v : Z) (x : fields) : fields :=
  {| I_x := v; I_p1 := I_p1 x |}.
Definition set_I_p1 (v : Z) (x : fields) : fields :=
  {| I_x := I_x x; I_p1 := v |}.

Definition a_0 : list (Among fields) :=
  [entry (lit "a") (-1) 1;
   entry (lit "e") (-1) 1;
   entry (lit "ede") 1 1;
   entry (lit "ande") 1 1;
   entry (lit "ende") 1 1;
   entry (lit "ane") 1 1;
   entry (lit "ene") 1 1;
   entry (lit "hetene") 6 1;
   entry (lit "erte") 1 3;
   entry (lit "en") (-1) 1;
   entry (lit "heten") 9 1;
   entry (lit "ar") (-1) 1;
   entry (lit "er") (-1) 1;
   entry (lit "heter") 12 1;
   entry (lit "s") (-1) 2;
   entry (lit "as") 14 1;
   entry (lit "es") 14 1;
   entry (lit "edes") 16 1;
   entry (lit "endes") 16 1;
   entry (lit "enes") 16 1;
   entry (lit "hetenes") 19 1;
   entry (lit "ens") 14 1;
   entry (lit "hetens") 21 1;
   entry (lit "ers") 14 1;
   entry (lit "ets") 14 1;
   entry (lit "et") (-1) 1;
   entry (lit "het") 25 1;
   entry (lit "ert") (-1) 3;
   entry (lit "ast") (-1) 1].

Definition a_1 : list (Among fields) :=
  [entry (lit "dt") (-1) (-1);
   entry (lit "vt") (-1) (-1)].

Definition a_2 : list (Among fields) :=
  [entry (lit "leg") (-1) 1;
   entry (lit "eleg") 0 1;
   entry (lit "ig") (-1) 1;
   entry (lit "eig") 2 1;
   entry (lit "lig") 2 1;
   entry (lit "elig") 4 1;
   entry (lit "els") (-1) 1;
   entry (lit "lov") (-1) 1;
   entry (lit "elov") 7 1;
   entry (lit "slov") 7 1;
   entry (lit "hetslov") 9 1].

Definition g_v : list Z := [17; 65; 16; 1; 0; 0; 0; 0; 0; 0; 0; 0; 0; 0; 0; 0; 48; 0; 128].
Definition g_s_ending : list Z := [119; 125; 149; 1].

Definition r_mark_regions : test fields := method (
  put (λ st, set_I_p1 (limit st) (own st)) ;;
  var v_1 := cursor ;;
  var c := (λ st, cursor st + 3) ;;
  when (λ st, (c <? 0) || (limit st <? c)) (return_ false) ;;
  cursor_to c ;;
  put (λ st, set_I_x (cursor st) (own st)) ;;
  cursor_to v_1 ;;
  forever 0 (
    var v_2 := cursor ;;
    block 1 (
      unless (grouping g_v 97 248) (break_ 1) ;;
      cursor_to v_2 ;;
      break_ 0) ;;
    cursor_to v_2 ;;
    when (λ st, limit st <=? cursor st) (return_ false) ;;
    cursor_next) ;;
  forever 2 (
    block 3 (
      unless (non_grouping g_v 97 248) (break_ 3) ;;
      break_ 2) ;;
    when (λ st, limit st <=? cursor st) (return_ false) ;;
    cursor_next) ;;
  put (λ st, set_I_p1 (cursor st) (own st)) ;;
  block 4 (
    when (λ st, negb (I_p1 (own st) <? I_x (own st))) (break_ 4) ;;
    put (λ st, set_I_p1 (I_x (own st)) (own st))) ;;
  return_ true).

Definition r_main_suffix : test fields := method (
  var v_1 := from_end ;;
  when (λ st, cursor st <? I_p1 (own st)) (return_ false) ;;
  cursor_mark I_p1 ;;
  var v_2 := limit_backward ;;
  backward_cursor ;;
  cursor_back v_1 ;;
  ket_cursor ;;
  var among_var in among_b a_0 29 ;;
  when (λ st, among_var =? 0) (
    backward_to v_2 ;;
    return_ false) ;;
  bra_cursor ;;
  backward_to v_2 ;;
  switch among_var [
    (0, return_ false);
    (1, unless delete (return_ false));
    (2,
      block 0 (
        var v_3 := from_end ;;
        block 1 (
          unless (grouping_b g_s_ending 98 122) (break_ 1) ;;
          break_ 0) ;;
        cursor_back v_3 ;;
        unless (equal_b 1 (lit "k")) (return_ false) ;;
        unless (non_grouping_b g_v 97 248) (return_ false)) ;;
      unless delete (return_ false));
    (3, unless (replace (lit "er")) (return_ false))] ;;
  return_ true).

Definition r_consonant_pair : test fields := method (
  var v_1 := from_end ;;
  var v_2 := from_end ;;
  when (λ st, cursor st <? I_p1 (own st)) (return_ false) ;;
  cursor_mark I_p1 ;;
  var v_3 := limit_backward ;;
  backward_cursor ;;
  cursor_back v_2 ;;
  ket_cursor ;;
  unless (some (among_b a_1 2)) (
    backward_to v_3 ;;
    return_ false) ;;
  bra_cursor ;;
  backward_to v_3 ;;
  cursor_back v_1 ;;
  when (λ st, cursor st <=? limit_backward st) (return_ false) ;;
  cursor_prev ;;
  bra_cursor ;;
  unless delete (return_ false) ;;
  return_ true).

Definition r_other_suffix : test fields := method (
  var v_1 := from_end ;;
  when (λ st, cursor st <? I_p1 (own st)) (return_ false) ;;
  cursor_mark I_p1 ;;
  var v_2 := limit_backward ;;
  backward_cursor ;;
  cursor_back v_1 ;;
  ket_cursor ;;
  var among_var in among_b a_2 11 ;;
  when (λ st, among_var =? 0) (
    backward_to v_2 ;;
    return_ false) ;;
  bra_cursor ;;
  backward_to v_2 ;;
  switch among_var [
    (0, return_ false);
    (1, unless delete (return_ false))] ;;
  return_ true).

Definition stem : test fields := method (
  var v_1 := cursor ;;
  block 0 (unless (call r_mark_regions) (break_ 0)) ;;
  cursor_to v_1 ;;
  backward_cursor ;;
  cursor_limit ;;
  var v_2 := from_end ;;
  block 1 (unless (call r_main_suffix) (break_ 1)) ;;
  cursor_back v_2 ;;
  var v_3 := from_end ;;
  block 2 (unless (call r_consonant_pair) (break_ 2)) ;;
  cursor_back v_3 ;;
  var v_4 := from_end ;;
  block 3 (unless (call r_other_suffix) (break_ 3)) ;;
  cursor_back v_4 ;;
  cursor_backward ;;
  return_ true).

Definition copy_from (st other : Stemmer.t fields) : Stemmer.t fields :=
  Stemmer.copy_from (set_own st {| I_x := I_x (own other); I_p1 := I_p1 (own other) |}) other.

Definition new : Stemmer.t fields := Stemmer.new {| I_x := 0; I_p1 := 0 |}.

(** ** The methods return and do not depend on earlier words *)

(** Two runs agree on [I_p1], where the mark is not below the limit. *)
Definition live (lb : Z) (x x2 : fields) : Prop :=
  I_p1 x2 = I_p1 x ∧ lb ≤ I_p1 x.
Ltac rels k := first [k live | k (@any fields)].

#[global] Typeclasses Opaque r_mark_regions r_main_suffix r_consonant_pair r_other_suffix.

#[global] Instance r_mark_regions_ok : Edits Forward any live r_mark_regions.
Proof. snow_proof rels. Qed.
#[global] Instance r_main_suffix_ok : Edits Backward live live r_main_suffix.
Proof. snow_proof rels. Qed.
#[global] Instance r_consonant_pair_ok : Edits Backward live live r_consonant_pair.
Proof. snow_proof rels. Qed.
#[global] Instance r_other_suffix_ok : Edits Backward live live r_other_suffix.
Proof. snow_proof rels. Qed.
#[global] Instance stem_ok : Stems stem.
Proof. snow_proof rels. Qed.

End Norwegian.
