(* ===== verification/Porter.v ===== *)
(** * The Porter stemmer

    Model of [src/misc/oktavia/src/stemmer/porter-stemmer.jsx], one of the
    stemmers that were generated from Snowball scripts: its tables of endings, its
    groups of letters and its methods, statement by statement.  The instances show
    that every method returns and that the stemmer does not depend on the words it
    stemmed before. *)

From S2P Require Import Prelude JsObject Suffixes BaseStemmer Snowball SnowballRules.

Local Open Scope Z_scope.
Local Open Scope snow_scope.

Module Porter.
Import Stemmer Snow Rules.

(** ** Model *)

Record fields := { B_Y_found : bool; I_p2 : Z; I_p1 : Z }.

Definition set_B_Y_found (v : bool) (x : fields) : fields :=
  {| B_Y_found := v; I_p2 := I_p2 x; I_p1 := I_p1 x |}.
Definition set_I_p2 (v : Z) (x : fields) : fields :=
  {| B_Y_found := B_Y_found x; I_p2 := v; I_p1 := I_p1 x |}.
Definition set_I_p1 (v : Z) (x : fields) : fields :=
  {| B_Y_found := B_Y_found x; I_p2 := I_p2 x; I_p1 := v |}.

Definition a_0 : list (Among fields) :=
  [entry (lit "s") (-1) 3;
   entry (lit "ies") 0 2;
   entry (lit "sses") 0 1;
   entry (lit "ss") 0 (-1)].

Definition a_1 : list (Among fields) :=
  [entry (lit "") (-1) 3;
   entry (lit "bb") 0 2;
   entry (lit "dd") 0 2;
   entry (lit "ff") 0 2;
   entry (lit "gg") 0 2;
   entry (lit "bl") 0 1;
   entry (lit "mm") 0 2;
   entry (lit "nn") 0 2;
   entry (lit "pp") 0 2;
   entry (lit "rr") 0 2;
   entry (lit "at") 0 1;
   entry (lit "tt") 0 2;
   entry (lit "iz") 0 1].

Definition a_2 : list (Among fields) :=
  [entry (lit "ed") (-1) 2;
   entry (lit "eed") 0 1;
   entry (lit "ing") (-1) 2].

Definition a_3 : list (Among fields) :=
  [entry (lit "anci") (-1) 3;
   entry (lit "enci") (-1) 2;
   entry (lit "abli") (-1) 4;
   entry (lit "eli") (-1) 6;
   entry (lit "alli") (-1) 9;
   entry (lit "ousli") (-1) 12;
   entry (lit "entli") (-1) 5;
   entry (lit "aliti") (-1) 10;
   entry (lit "biliti") (-1) 14;
   entry (lit "iviti") (-1) 13;
   entry (lit "tional") (-1) 1;
   entry (lit "ational") 10 8;
   entry (lit "alism") (-1) 10;
   entry (lit "ation") (-1) 8;
   entry (lit "ization") 13 7;
   entry (lit "izer") (-1) 7;
   entry (lit "ator") (-1) 8;
   entry (lit "iveness") (-1) 13;
   entry (lit "fulness") (-1) 11;
   entry (lit "ousness") (-1) 12].

Definition a_4 : list (Among fields) :=
  [entry (lit "icate") (-1) 2;
   entry (lit "ative") (-1) 3;
   entry (lit "alize") (-1) 1;
   entry (lit "iciti") (-1) 2;
   entry (lit "ical") (-1) 2;
   entry (lit "ful") (-1) 3;
   entry (lit "ness") (-1) 3].

Definition a_5 : list (Among fields) :=
  [entry (lit "ic") (-1) 1;
   entry (lit "ance") (-1) 1;
   entry (lit "ence") (-1) 1;
   entry (lit "able") (-1) 1;
   entry (lit "ible") (-1) 1;
   entry (lit "ate") (-1) 1;
   entry (lit "ive") (-1) 1;
   entry (lit "ize") (-1) 1;
   entry (lit "iti") (-1) 1;
   entry (lit "al") (-1) 1;
   entry (lit "ism") (-1) 1;
   entry (lit "ion") (-1) 2;
   entry (lit "er") (-1) 1;
   entry (lit "ous") (-1) 1;
   entry (lit "ant") (-1) 1;
   entry (lit "ent") (-1) 1;
   entry (lit "ment") 15 1;
   entry (lit "ement") 16 1;
   entry (lit "ou") (-1) 1].

Definition g_v : list Z := [17; 65; 16; 1].
Definition g_v_WXY : list Z := [1; 17; 65; 208; 1].

Definition r_shortv : test fields := method (
  unless (non_grouping_b g_v_WXY 89 121) (return_ false) ;;
  unless (grouping_b g_v 97 121) (return_ false) ;;
  unless (non_grouping_b g_v 97 121) (return_ false) ;;
  return_ true).

Definition r_R1 : test fields := method (
  when (λ st, negb (I_p1 (own st) <=? cursor st)) (return_ false) ;;
  return_ true).

Definition r_R2 : test fields := method (
  when (λ st, negb (I_p2 (own st) <=? cursor st)) (return_ false) ;;
  return_ true).

Definition r_Step_1a : test fields := method (
  ket_cursor ;;
  var among_var in among_b a_0 4 ;;
  when (λ st, among_var =? 0) (return_ false) ;;
  bra_cursor ;;
  switch among_var [
    (0, return_ false);
    (1, unless (replace (lit "ss")) (return_ false));
    (2, unless (replace (lit "i")) (return_ false));
    (3, unless delete (return_ false))] ;;
  return_ true).

Definition r_Step_1b : test fields := method (
  ket_cursor ;;
  var among_var in among_b a_2 3 ;;
  when (λ st, among_var =? 0) (return_ false) ;;
  bra_cursor ;;
  switch among_var [
    (0, return_ false);
    (1,
      unless (call r_R1) (return_ false) ;;
      unless (replace (lit "ee")) (return_ false));
    (2,
      var v_1 := from_end ;;
      forever 0 (
        block 1 (
          unless (grouping_b g_v 97 121) (break_ 1) ;;
          break_ 0) ;;
        when (λ st, cursor st <=? limit_backward st) (return_ false) ;;
        cursor_prev) ;;
      cursor_back v_1 ;;
      unless delete (return_ false) ;;
      var v_3 := from_end ;;
      var among_var in among_b a_1 13 ;;
      when (λ st, among_var =? 0) (return_ false) ;;
      cursor_back v_3 ;;
      switch among_var [
        (0, return_ false);
        (1,
          var c := (λ st, cursor st) ;;
          insert_here (lit "e") ;;
          cursor_to c);
        (2,
          ket_cursor ;;
          when (λ st, cursor st <=? limit_backward st) (return_ false) ;;
          cursor_prev ;;
          bra_cursor ;;
          unless delete (return_ false));
        (3,
          when (λ st, negb (cursor st =? I_p1 (own st))) (return_ false) ;;
          var v_4 := from_end ;;
          unless (call r_shortv) (return_ false) ;;
          cursor_back v_4 ;;
          var c := (λ st, cursor st) ;;
          insert_here (lit "e") ;;
          cursor_to c)])] ;;
  return_ true).

Definition r_Step_1c : test fields := method (
  ket_cursor ;;
  block 0 (
    var v_1 := from_end ;;
    block 1 (
      unless (equal_b 1 (lit "y")) (break_ 1) ;;
      break_ 0) ;;
    cursor_back v_1 ;;
    unless (equal_b 1 (lit "Y")) (return_ false)) ;;
  bra_cursor ;;
  forever 2 (
    block 3 (
      unless (grouping_b g_v 97 121) (break_ 3) ;;
      break_ 2) ;;
    when (λ st, cursor st <=? limit_backward st) (return_ false) ;;
    cursor_prev) ;;
  unless (replace (lit "i")) (return_ false) ;;
  return_ true).

Definition r_Step_2 : test fields := method (
  ket_cursor ;;
  var among_var in among_b a_3 20 ;;
  when (λ st, among_var =? 0) (return_ false) ;;
  bra_cursor ;;
  unless (call r_R1) (return_ false) ;;
  switch among_var [
    (0, return_ false);
    (1, unless (replace (lit "tion")) (return_ false));
    (2, unless (replace (lit "ence")) (return_ false));
    (3, unless (replace (lit "ance")) (return_ false));
    (4, unless (replace (lit "able")) (return_ false));
    (5, unless (replace (lit "ent")) (return_ false));
    (6, unless (replace (lit "e")) (return_ false));
    (7, unless (replace (lit "ize")) (return_ false));
    (8, unless (replace (lit "ate")) (return_ false));
    (9, unless (replace (lit "al")) (return_ false));
    (10, unless (replace (lit "al")) (return_ false));
    (11, unless (replace (lit "ful")) (return_ false));
    (12, unless (replace (lit "ous")) (return_ false));
    (13, unless (replace (lit "ive")) (return_ false));
    (14, unless (replace (lit "ble")) (return_ false))] ;;
  return_ true).

Definition r_Step_3 : test fields := method (
  ket_cursor ;;
  var among_var in among_b a_4 7 ;;
  when (λ st, among_var =? 0) (return_ false) ;;
  bra_cursor ;;
  unless (call r_R1) (return_ false) ;;
  switch among_var [
    (0, return_ false);
    (1, unless (replace (lit "al")) (return_ false));
    (2, unless (replace (lit "ic")) (return_ false));
    (3, unless delete (return_ false))] ;;
  return_ true).

Definition r_Step_4 : test fields := method (
  ket_cursor ;;
  var among_var in among_b a_5 19 ;;
  when (λ st, among_var =? 0) (return_ false) ;;
  bra_cursor ;;
  unless (call r_R2) (return_ false) ;;
  switch among_var [
    (0, return_ false);
    (1, unless delete (return_ false));
    (2,
      block 0 (
        var v_1 := from_end ;;
        block 1 (
          unless (equal_b 1 (lit "s")) (break_ 1) ;;
          break_ 0) ;;
        cursor_back v_1 ;;
        unless (equal_b 1 (lit "t")) (return_ false)) ;;
      unless delete (return_ false))] ;;
  return_ true).

Definition r_Step_5a : test fields := method (
  ket_cursor ;;
  unless (equal_b 1 (lit "e")) (return_ false) ;;
  bra_cursor ;;
  block 0 (
    var v_1 := from_end ;;
    block 1 (
      unless (call r_R2) (break_ 1) ;;
      break_ 0) ;;
    cursor_back v_1 ;;
    unless (call r_R1) (return_ false) ;;
    var v_2 := from_end ;;
    block 2 (
      unless (call r_shortv) (break_ 2) ;;
      return_ false) ;;
    cursor_back v_2) ;;
  unless delete (return_ false) ;;
  return_ true).

Definition r_Step_5b : test fields := method (
  ket_cursor ;;
  unless (equal_b 1 (lit "l")) (return_ false) ;;
  bra_cursor ;;
  unless (call r_R2) (return_ false) ;;
  unless (equal_b 1 (lit "l")) (return_ false) ;;
  unless delete (return_ false) ;;
  return_ true).

Definition stem : test fields := method (
  put (λ st, set_B_Y_found false (own st)) ;;
  var v_1 := cursor ;;
  block 0 (
    bra_cursor ;;
    unless (equal 1 (lit "y")) (break_ 0) ;;
    ket_cursor ;;
    unless (replace (lit "Y")) (return_ false) ;;
    put (λ st, set_B_Y_found true (own st))) ;;
  cursor_to v_1 ;;
  var v_2 := cursor ;;
  block 1 (
    forever 2 (
      var v_3 := cursor ;;
      block 3 (
        forever 4 (
          var v_4 := cursor ;;
          block 5 (
            unless (grouping g_v 97 121) (break_ 5) ;;
            bra_cursor ;;
            unless (equal 1 (lit "y")) (break_ 5) ;;
            ket_cursor ;;
            cursor_to v_4 ;;
            break_ 4) ;;
          cursor_to v_4 ;;
          when (λ st, limit st <=? cursor st) (break_ 3) ;;
          cursor_next) ;;
        unless (replace (lit "Y")) (return_ false) ;;
        put (λ st, set_B_Y_found true (own st)) ;;
        continue_ 2) ;;
      cursor_to v_3 ;;
      break_ 2)) ;;
  cursor_to v_2 ;;
  put (λ st, set_I_p1 (limit st) (own st)) ;;
  put (λ st, set_I_p2 (limit st) (own st)) ;;
  var v_5 := cursor ;;
  block 6 (
    forever 7 (
      block 8 (
        unless (grouping g_v 97 121) (break_ 8) ;;
        break_ 7) ;;
      when (λ st, limit st <=? cursor st) (break_ 6) ;;
      cursor_next) ;;
    forever 9 (
      block 10 (
        unless (non_grouping g_v 97 121) (break_ 10) ;;
        break_ 9) ;;
      when (λ st, limit st <=? cursor st) (break_ 6) ;;
      cursor_next) ;;
    put (λ st, set_I_p1 (cursor st) (own st)) ;;
    forever 11 (
      block 12 (
        unless (grouping g_v 97 121) (break_ 12) ;;
        break_ 11) ;;
      when (λ st, limit st <=? cursor st) (break_ 6) ;;
      cursor_next) ;;
    forever 13 (
      block 14 (
        unless (non_grouping g_v 97 121) (break_ 14) ;;
        break_ 13) ;;
      when (λ st, limit st <=? cursor st) (break_ 6) ;;
      cursor_next) ;;
    put (λ st, set_I_p2 (cursor st) (own st))) ;;
  cursor_to v_5 ;;
  backward_cursor ;;
  cursor_limit ;;
  var v_10 := from_end ;;
  block 15 (unless (call r_Step_1a) (break_ 15)) ;;
  cursor_back v_10 ;;
  var v_11 := from_end ;;
  block 16 (unless (call r_Step_1b) (break_ 16)) ;;
  cursor_back v_11 ;;
  var v_12 := from_end ;;
  block 17 (unless (call r_Step_1c) (break_ 17)) ;;
  cursor_back v_12 ;;
  var v_13 := from_end ;;
  block 18 (unless (call r_Step_2) (break_ 18)) ;;
  cursor_back v_13 ;;
  var v_14 := from_end ;;
  block 19 (unless (call r_Step_3) (break_ 19)) ;;
  cursor_back v_14 ;;
  var v_15 := from_end ;;
  block 20 (unless (call r_Step_4) (break_ 20)) ;;
  cursor_back v_15 ;;
  var v_16 := from_end ;;
  block 21 (unless (call r_Step_5a) (break_ 21)) ;;
  cursor_back v_16 ;;
  var v_17 := from_end ;;
  block 22 (unless (call r_Step_5b) (break_ 22)) ;;
  cursor_back v_17 ;;
  cursor_backward ;;
  var v_18 := cursor ;;
  block 23 (
    when (λ st, negb (B_Y_found (own st))) (break_ 23) ;;
    forever 24 (
      var v_19 := cursor ;;
      block 25 (
        forever 26 (
          var v_20 := cursor ;;
          block 27 (
            bra_cursor ;;
            unless (equal 1 (lit "Y")) (break_ 27) ;;
            ket_cursor ;;
            cursor_to v_20 ;;
            break_ 26) ;;
          cursor_to v_20 ;;
          when (λ st, limit st <=? cursor st) (break_ 25) ;;
          cursor_next) ;;
        unless (replace (lit "y")) (return_ false) ;;
        continue_ 24) ;;
      cursor_to v_19 ;;
      break_ 24)) ;;
  cursor_to v_18 ;;
  return_ true).

Definition copy_from (st other : Stemmer.t fields) : Stemmer.t fields :=
  Stemmer.copy_from (set_own st {| B_Y_found := B_Y_found (own other); I_p2 := I_p2 (own other); I_p1 := I_p1 (own other) |}) other.

Definition new : Stemmer.t fields := Stemmer.new {| B_Y_found := false; I_p2 := 0; I_p1 := 0 |}.

(** ** The methods return and do not depend on earlier words *)

(** Two runs agree on [B_Y_found]. *)
Definition flag (lb : Z) (x x2 : fields) : Prop :=
  B_Y_found x2 = B_Y_found x.
(** Two runs agree on [B_Y_found], [I_p1] and [I_p2]. *)
Definition live (lb : Z) (x x2 : fields) : Prop :=
  B_Y_found x2 = B_Y_found x ∧ I_p1 x2 = I_p1 x ∧ I_p2 x2 = I_p2 x.
Ltac rels k := first [k live | k flag | k (@any fields)].

#[global] Typeclasses Opaque r_shortv r_R1 r_R2 r_Step_1a r_Step_1b r_Step_1c r_Step_2 r_Step_3 r_Step_4 r_Step_5a
  r_Step_5b.

#[global] Instance r_shortv_ok : Moves Backward any r_shortv.
Proof. snow_proof rels. Qed.
#[global] Instance r_R1_ok : Moves Backward live r_R1.
Proof. snow_proof rels. Qed.
#[global] Instance r_R2_ok : Moves Backward live r_R2.
Proof. snow_proof rels. Qed.
#[global] Instance r_Step_1a_ok : Edits Backward live live r_Step_1a.
Proof. snow_proof rels. Qed.
#[global] Instance r_Step_1b_ok : Edits Backward live live r_Step_1b.
Proof. snow_proof rels. Qed.
#[global] Instance r_Step_1c_ok : Edits Backward live live r_Step_1c.
Proof. snow_proof rels. Qed.
#[global] Instance r_Step_2_ok : Edits Backward live live r_Step_2.
Proof. snow_proof rels. Qed.
#[global] Instance r_Step_3_ok : Edits Backward live live r_Step_3.
Proof. snow_proof rels. Qed.
#[global] Instance r_Step_4_ok : Edits Backward live live r_Step_4.
Proof. snow_proof rels. Qed.
#[global] Instance r_Step_5a_ok : Edits Backward live live r_Step_5a.
Proof. snow_proof rels. Qed.
#[global] Instance r_Step_5b_ok : Edits Backward live live r_Step_5b.
Proof. snow_proof rels. Qed.
#[global] Instance stem_ok : Stems stem.
Proof. snow_proof rels. Qed.

End Porter.
