(* ===== verification/Portuguese.v ===== *)
(** * The Portuguese stemmer

    Model of [src/misc/oktavia/src/stemmer/portuguese-stemmer.jsx], one of the
    stemmers that were generated from Snowball scripts: its tables of endings, its
    groups of letters and its methods, statement by statement.  The instances show
    that every method returns and that the stemmer does not depend on the words it
    stemmed before. *)

From S2P Require Import Prelude JsObject Suffixes BaseStemmer Snowball SnowballRules.

Local Open Scope Z_scope.
Local Open Scope snow_scope.

Module Portuguese.
Import Stemmer Snow Rules.

(** ** Model *)

Record fields := { I_p2 : Z; I_p1 : Z; I_pV : Z }.

Definition set_I_p2 (v : Z) (x : fields) : fields :=
  {| I_p2 := v; I_p1 := I_p1 x; I_pV := I_pV x |}.
Definition set_I_p1 (v : Z) (x : fields) : fields :=
  {| I_p2 := I_p2 x; I_p1 := v; I_pV := I_pV x |}.
Definition set_I_pV (v : Z) (x : fields) : fields :=
  {| I_p2 := I_p2 x; I_p1 := I_p1 x; I_pV := v |}.

Definition a_0 : list (Among fields) :=
  [entry (lit "") (-1) 3;
   entry (lit "\u00E3") 0 1;
   entry (lit "\u00F5") 0 2].

Definition a_1 : list (Among fields) :=
  [entry (lit "") (-1) 3;
   entry (lit "a~") 0 1;
   entry (lit "o~") 0 2].

Definition a_2 : list (Among fields) :=
  [entry (lit "ic") (-1) (-1);
   entry (lit "ad") (-1) (-1);
   entry (lit "os") (-1) (-1);
   entry (lit "iv") (-1) 1].

Definition a_3 : list (Among fields) :=
  [entry (lit "ante") (-1) 1;
   entry (lit "avel") (-1) 1;
   entry (lit "\u00EDvel") (-1) 1].

Definition a_4 : list (Among fields) :=
  [entry (lit "ic") (-1) 1;
   entry (lit "abil") (-1) 1;
   entry (lit "iv") (-1) 1].

Definition a_5 : list (Among fields) :=
  [entry (lit "ica") (-1) 1;
   entry (lit "\u00E2ncia") (-1) 1;
   entry (lit "\u00EAncia") (-1) 4;
   entry (lit "ira") (-1) 9;
   entry (lit "adora") (-1) 1;
   entry (lit "osa") (-1) 1;
   entry (lit "ista") (-1) 1;
   entry (lit "iva") (-1) 8;
   entry (lit "eza") (-1) 1;
   entry (lit "log\u00EDa") (-1) 2;
   entry (lit "idade") (-1) 7;
   entry (lit "ante") (-1) 1;
   entry (lit "mente") (-1) 6;
   entry (lit "amente") 12 5;
   entry (lit "\u00E1vel") (-1) 1;
   entry (lit "\u00EDvel") (-1) 1;
   entry (lit "uci\u00F3n") (-1) 3;
   entry (lit "ico") (-1) 1;
   entry (lit "ismo") (-1) 1;
   entry (lit "oso") (-1) 1;
   entry (lit "amento") (-1) 1;
   entry (lit "imento") (-1) 1;
   entry (lit "ivo") (-1) 8;
   entry (lit "a\u00E7a~o") (-1) 1;
   entry (lit "ador") (-1) 1;
   entry (lit "icas") (-1) 1;
   entry (lit "\u00EAncias") (-1) 4;
   entry (lit "iras") (-1) 9;
   entry (lit "adoras") (-1) 1;
   entry (lit "osas") (-1) 1;
   entry (lit "istas") (-1) 1;
   entry (lit "ivas") (-1) 8;
   entry (lit "ezas") (-1) 1;
   entry (lit "log\u00EDas") (-1) 2;
   entry (lit "idades") (-1) 7;
   entry (lit "uciones") (-1) 3;
   entry (lit "adores") (-1) 1;
   entry (lit "antes") (-1) 1;
   entry (lit "a\u00E7o~es") (-1) 1;
   entry (lit "icos") (-1) 1;
   entry (lit "ismos") (-1) 1;
   entry (lit "osos") (-1) 1;
   entry (lit "amentos") (-1) 1;
   entry (lit "imentos") (-1) 1;
   entry (lit "ivos") (-1) 8].

Definition a_6 : list (Among fields) :=
  [entry (lit "ada") (-1) 1;
   entry (lit "ida") (-1) 1;
   entry (lit "ia") (-1) 1;
   entry (lit "aria") 2 1;
   entry (lit "eria") 2 1;
   entry (lit "iria") 2 1;
   entry (lit "ara") (-1) 1;
   entry (lit "era") (-1) 1;
   entry (lit "ira") (-1) 1;
   entry (lit "ava") (-1) 1;
   entry (lit "asse") (-1) 1;
   entry (lit "esse") (-1) 1;
   entry (lit "isse") (-1) 1;
   entry (lit "aste") (-1) 1;
   entry (lit "este") (-1) 1;
   entry (lit "iste") (-1) 1;
   entry (lit "ei") (-1) 1;
   entry (lit "arei") 16 1;
   entry (lit "erei") 16 1;
   entry (lit "irei") 16 1;
   entry (lit "am") (-1) 1;
   entry (lit "iam") 20 1;
   entry (lit "ariam") 21 1;
   entry (lit "eriam") 21 1;
   entry (lit "iriam") 21 1;
   entry (lit "aram") 20 1;
   entry (lit "eram") 20 1;
   entry (lit "iram") 20 1;
   entry (lit "avam") 20 1;
   entry (lit "em") (-1) 1;
   entry (lit "arem") 29 1;
   entry (lit "erem") 29 1;
   entry (lit "irem") 29 1;
   entry (lit "assem") 29 1;
   entry (lit "essem") 29 1;
   entry (lit "issem") 29 1;
   entry (lit "ado") (-1) 1;
   entry (lit "ido") (-1) 1;
   entry (lit "ando") (-1) 1;
   entry (lit "endo") (-1) 1;
   entry (lit "indo") (-1) 1;
   entry (lit "ara~o") (-1) 1;
   entry (lit "era~o") (-1) 1;
   entry (lit "ira~o") (-1) 1;
   entry (lit "ar") (-1) 1;
   entry (lit "er") (-1) 1;
   entry (lit "ir") (-1) 1;
   entry (lit "as") (-1) 1;
   entry (lit "adas") 47 1;
   entry (lit "idas") 47 1;
   entry (lit "ias") 47 1;
   entry (lit "arias") 50 1;
   entry (lit "erias") 50 1;
   entry (lit "irias") 50 1;
   entry (lit "aras") 47 1;
   entry (lit "eras") 47 1;
   entry (lit "iras") 47 1;
   entry (lit "avas") 47 1;
   entry (lit "es") (-1) 1;
   entry (lit "ardes") 58 1;
   entry (lit "erdes") 58 1;
   entry (lit "irdes") 58 1;
   entry (lit "ares") 58 1;
   entry (lit "eres") 58 1;
   entry (lit "ires") 58 1;
   entry (lit "asses") 58 1;
   entry (lit "esses") 58 1;
   entry (lit "isses") 58 1;
   entry (lit "astes") 58 1;
   entry (lit "estes") 58 1;
   entry (lit "istes") 58 1;
   entry (lit "is") (-1) 1;
   entry (lit "ais") 71 1;
   entry (lit "eis") 71 1;
   entry (lit "areis") 73 1;
   entry (lit "ereis") 73 1;
   entry (lit "ireis") 73 1;
   entry (lit "\u00E1reis") 73 1;
   entry (lit "\u00E9reis") 73 1;
   entry (lit "\u00EDreis") 73 1;
   entry (lit "\u00E1sseis") 73 1;
   entry (lit "\u00E9sseis") 73 1;
   entry (lit "\u00EDsseis") 73 1;
   entry (lit "\u00E1veis") 73 1;
   entry (lit "\u00EDeis") 73 1;
   entry (lit "ar\u00EDeis") 84 1;
   entry (lit "er\u00EDeis") 84 1;
   entry (lit "ir\u00EDeis") 84 1;
   entry (lit "ados") (-1) 1;
   entry (lit "idos") (-1) 1;
   entry (lit "amos") (-1) 1;
   entry (lit "\u00E1ramos") 90 1;
   entry (lit "\u00E9ramos") 90 1;
   entry (lit "\u00EDramos") 90 1;
   entry (lit "\u00E1vamos") 90 1;
   entry (lit "\u00EDamos") 90 1;
   entry (lit "ar\u00EDamos") 95 1;
   entry (lit "er\u00EDamos") 95 1;
   entry (lit "ir\u00EDamos") 95 1;
   entry (lit "emos") (-1) 1;
   entry (lit "aremos") 99 1;
   entry (lit "eremos") 99 1;
   entry (lit "iremos") 99 1;
   entry (lit "\u00E1ssemos") 99 1;
   entry (lit "\u00EAssemos") 99 1;
   entry (lit "\u00EDssemos") 99 1;
   entry (lit "imos") (-1) 1;
   entry (lit "armos") (-1) 1;
   entry (lit "ermos") (-1) 1;
   entry (lit "irmos") (-1) 1;
   entry (lit "\u00E1mos") (-1) 1;
   entry (lit "ar\u00E1s") (-1) 1;
   entry (lit "er\u00E1s") (-1) 1;
   entry (lit "ir\u00E1s") (-1) 1;
   entry (lit "eu") (-1) 1;
   entry (lit "iu") (-1) 1;
   entry (lit "ou") (-1) 1;
   entry (lit "ar\u00E1") (-1) 1;
   entry (lit "er\u00E1") (-1) 1;
   entry (lit "ir\u00E1") (-1) 1].

Definition a_7 : list (Among fields) :=
  [entry (lit "a") (-1) 1;
   entry (lit "i") (-1) 1;
   entry (lit "o") (-1) 1;
   entry (lit "os") (-1) 1;
   entry (lit "\u00E1") (-1) 1;
   entry (lit "\u00ED") (-1) 1;
   entry (lit "\u00F3") (-1) 1].

Definition a_8 : list (Among fields) :=
  [entry (lit "e") (-1) 1;
   entry (lit "\u00E7") (-1) 2;
   entry (lit "\u00E9") (-1) 1;
   entry (lit "\u00EA") (-1) 1].

Definition g_v : list Z := [17; 65; 16; 0; 0; 0; 0; 0; 0; 0; 0; 0; 0; 0; 0; 0; 3; 19; 12; 2].

Definition r_prelude : test fields := method (
  forever 0 (
    var v_1 := cursor ;;
    block 1 (
      bra_cursor ;;
      var among_var in among a_0 3 ;;
      when (λ st, among_var =? 0) (break_ 1) ;;
      ket_cursor ;;
      switch among_var [
        (0, break_ 1);
        (1, unless (replace (lit "a~")) (return_ false));
        (2, unless (replace (lit "o~")) (return_ false));
        (3,
          when (λ st, limit st <=? cursor st) (break_ 1) ;;
          cursor_next)] ;;
      continue_ 0) ;;
    cursor_to v_1 ;;
    break_ 0) ;;
  return_ true).

Definition r_mark_regions : test fields := method (
  put (λ st, set_I_pV (limit st) (own st)) ;;
  put (λ st, set_I_p1 (limit st) (own st)) ;;
  put (λ st, set_I_p2 (limit st) (own st)) ;;
  var v_1 := cursor ;;
  block 0 (
    block 1 (
      var v_2 := cursor ;;
      block 2 (
        unless (grouping g_v 97 250) (break_ 2) ;;
        block 3 (
          var v_3 := cursor ;;
          block 4 (
            unless (non_grouping g_v 97 250) (break_ 4) ;;
            forever 5 (
              block 6 (
                unless (grouping g_v 97 250) (break_ 6) ;;
                break_ 5) ;;
              when (λ st, limit st <=? cursor st) (break_ 4) ;;
              cursor_next) ;;
            break_ 3) ;;
          cursor_to v_3 ;;
          unless (grouping g_v 97 250) (break_ 2) ;;
          forever 7 (
            block 8 (
              unless (non_grouping g_v 97 250) (break_ 8) ;;
              break_ 7) ;;
            when (λ st, limit st <=? cursor st) (break_ 2) ;;
            cursor_next)) ;;
        break_ 1) ;;
      cursor_to v_2 ;;
      unless (non_grouping g_v 97 250) (break_ 0) ;;
      block 9 (
        var v_6 := cursor ;;
        block 10 (
          unless (non_grouping g_v 97 250) (break_ 10) ;;
          forever 11 (
            block 12 (
              unless (grouping g_v 97 250) (break_ 12) ;;
              break_ 11) ;;
            when (λ st, limit st <=? cursor st) (break_ 10) ;;
            cursor_next) ;;
          break_ 9) ;;
        cursor_to v_6 ;;
        unless (grouping g_v 97 250) (break_ 0) ;;
        when (λ st, limit st <=? cursor st) (break_ 0) ;;
        cursor_next)) ;;
    put (λ st, set_I_pV (cursor st) (own st))) ;;
  cursor_to v_1 ;;
  var v_8 := cursor ;;
  block 13 (
    forever 14 (
      block 15 (
        unless (grouping g_v 97 250) (break_ 15) ;;
        break_ 14) ;;
      when (λ st, limit st <=? cursor st) (break_ 13) ;;
      cursor_next) ;;
    forever 16 (
      block 17 (
        unless (non_grouping g_v 97 250) (break_ 17) ;;
        break_ 16) ;;
      when (λ st, limit st <=? cursor st) (break_ 13) ;;
      cursor_next) ;;
    put (λ st, set_I_p1 (cursor st) (own st)) ;;
    forever 18 (
      block 19 (
        unless (grouping g_v 97 250) (break_ 19) ;;
        break_ 18) ;;
      when (λ st, limit st <=? cursor st) (break_ 13) ;;
      cursor_next) ;;
    forever 20 (
      block 21 (
        unless (non_grouping g_v 97 250) (break_ 21) ;;
        break_ 20) ;;
      when (λ st, limit st <=? cursor st) (break_ 13) ;;
      cursor_next) ;;
    put (λ st, set_I_p2 (cursor st) (own st))) ;;
  cursor_to v_8 ;;
  return_ true).

Definition r_postlude : test fields := method (
  forever 0 (
    var v_1 := cursor ;;
    block 1 (
      bra_cursor ;;
      var among_var in among a_1 3 ;;
      when (λ st, among_var =? 0) (break_ 1) ;;
      ket_cursor ;;
      switch among_var [
        (0, break_ 1);
        (1, unless (replace (lit "\u00E3")) (return_ false));
        (2, unless (replace (lit "\u00F5")) (return_ false));
        (3,
          when (λ st, limit st <=? cursor st) (break_ 1) ;;
          cursor_next)] ;;
      continue_ 0) ;;
    cursor_to v_1 ;;
    break_ 0) ;;
  return_ true).

Definition r_RV : test fields := method (
  when (λ st, negb (I_pV (own st) <=? cursor st)) (return_ false) ;;
  return_ true).

Definition r_R1 : test fields := method (
  when (λ st, negb (I_p1 (own st) <=? cursor st)) (return_ false) ;;
  return_ true).

Definition r_R2 : test fields := method (
  when (λ st, negb (I_p2 (own st) <=? cursor st)) (return_ false) ;;
  return_ true).

Definition r_standard_suffix : test fields := method (
  ket_cursor ;;
  var among_var in among_b a_5 45 ;;
  when (λ st, among_var =? 0) (return_ false) ;;
  bra_cursor ;;
  switch among_var [
    (0, return_ false);
    (1,
      unless (call r_R2) (return_ false) ;;
      unless delete (return_ false));
    (2,
      unless (call r_R2) (return_ false) ;;
      unless (replace (lit "log")) (return_ false));
    (3,
      unless (call r_R2) (return_ false) ;;
      unless (replace (lit "u")) (return_ false));
    (4,
      unless (call r_R2) (return_ false) ;;
      unless (replace (lit "ente")) (return_ false));
    (5,
      unless (call r_R1) (return_ false) ;;
      unless delete (return_ false) ;;
      var v_1 := from_end ;;
      block 0 (
        ket_cursor ;;
        var among_var in among_b a_2 4 ;;
        when (λ st, among_var =? 0) (
          cursor_back v_1 ;;
          break_ 0) ;;
        bra_cursor ;;
        unless (call r_R2) (
          cursor_back v_1 ;;
          break_ 0) ;;
        unless delete (return_ false) ;;
        switch among_var [
          (0,
            cursor_back v_1 ;;
            break_ 0);
          (1,
            ket_cursor ;;
            unless (equal_b 2 (lit "at")) (
              cursor_back v_1 ;;
              break_ 0) ;;
            bra_cursor ;;
            unless (call r_R2) (
              cursor_back v_1 ;;
              break_ 0) ;;
            unless delete (return_ false))]));
    (6,
      unless (call r_R2) (return_ false) ;;
      unless delete (return_ false) ;;
      var v_2 := from_end ;;
      block 1 (
        ket_cursor ;;
        var among_var in among_b a_3 3 ;;
        when (λ st, among_var =? 0) (
          cursor_back v_2 ;;
          break_ 1) ;;
        bra_cursor ;;
        switch among_var [
          (0,
            cursor_back v_2 ;;
            break_ 1);
          (1,
            unless (call r_R2) (
              cursor_back v_2 ;;
              break_ 1) ;;
            unless delete (return_ false))]));
    (7,
      unless (call r_R2) (return_ false) ;;
      unless delete (return_ false) ;;
      var v_3 := from_end ;;
      block 2 (
        ket_cursor ;;
        var among_var in among_b a_4 3 ;;
        when (λ st, among_var =? 0) (
          cursor_back v_3 ;;
          break_ 2) ;;
        bra_cursor ;;
        switch among_var [
          (0,
            cursor_back v_3 ;;
            break_ 2);
          (1,
            unless (call r_R2) (
              cursor_back v_3 ;;
              break_ 2) ;;
            unless delete (return_ false))]));
    (8,
      unless (call r_R2) (return_ false) ;;
      unless delete (return_ false) ;;
      var v_4 := from_end ;;
      block 3 (
        ket_cursor ;;
        unless (equal_b 2 (lit "at")) (
          cursor_back v_4 ;;
          break_ 3) ;;
        bra_cursor ;;
        unless (call r_R2) (
          cursor_back v_4 ;;
          break_ 3) ;;
        unless delete (return_ false)));
    (9,
      unless (call r_RV) (return_ false) ;;
      unless (equal_b 1 (lit "e")) (return_ false) ;;
      unless (replace (lit "ir")) (return_ false))] ;;
  return_ true).

Definition r_verb_suffix : test fields := method (
  var v_1 := from_end ;;
  when (λ st, cursor st <? I_pV (own st)) (return_ false) ;;
  cursor_mark I_pV ;;
  var v_2 := limit_backward ;;
  backward_cursor ;;
  cursor_back v_1 ;;
  ket_cursor ;;
  var among_var in among_b a_6 120 ;;
  when (λ st, among_var =? 0) (
    backward_to v_2 ;;
    return_ false) ;;
  bra_cursor ;;
  switch among_var [
    (0,
      backward_to v_2 ;;
      return_ false);
    (1, unless delete (return_ false))] ;;
  backward_to v_2 ;;
  return_ true).

Definition r_residual_suffix : test fields := method (
  ket_cursor ;;
  var among_var in among_b a_7 7 ;;
  when (λ st, among_var =? 0) (return_ false) ;;
  bra_cursor ;;
  switch among_var [
    (0, return_ false);
    (1,
      unless (call r_RV) (return_ false) ;;
      unless delete (return_ false))] ;;
  return_ true).

Definition r_residual_form : test fields := method (
  ket_cursor ;;
  var among_var in among_b a_8 4 ;;
  when (λ st, among_var =? 0) (return_ false) ;;
  bra_cursor ;;
  switch among_var [
    (0, return_ false);
    (1,
      unless (call r_RV) (return_ false) ;;
      unless delete (return_ false) ;;
      ket_cursor ;;
      block 0 (
        var v_1 := from_end ;;
        block 1 (
          unless (equal_b 1 (lit "u")) (break_ 1) ;;
          bra_cursor ;;
          var v_2 := from_end ;;
          unless (equal_b 1 (lit "g")) (break_ 1) ;;
          cursor_back v_2 ;;
          break_ 0) ;;
        cursor_back v_1 ;;
        unless (equal_b 1 (lit "i")) (return_ false) ;;
        bra_cursor ;;
        var v_3 := from_end ;;
        unless (equal_b 1 (lit "c")) (return_ false) ;;
        cursor_back v_3) ;;
      unless (call r_RV) (return_ false) ;;
      unless delete (return_ false));
    (2, unless (replace (lit "c")) (return_ false))] ;;
  return_ true).

Definition stem : test fields := method (
  var v_1 := cursor ;;
  block 0 (unless (call r_prelude) (break_ 0)) ;;
  cursor_to v_1 ;;
  var v_2 := cursor ;;
  block 1 (unless (call r_mark_regions) (break_ 1)) ;;
  cursor_to v_2 ;;
  backward_cursor ;;
  cursor_limit ;;
  var v_3 := from_end ;;
  block 2 (
    block 3 (
      var v_4 := from_end ;;
      block 4 (
        var v_5 := from_end ;;
        block 5 (
          var v_6 := from_end ;;
          block 6 (
            unless (call r_standard_suffix) (break_ 6) ;;
            break_ 5) ;;
          cursor_back v_6 ;;
          unless (call r_verb_suffix) (break_ 4)) ;;
        cursor_back v_5 ;;
        var v_7 := from_end ;;
        block 7 (
          ket_cursor ;;
          unless (equal_b 1 (lit "i")) (break_ 7) ;;
          bra_cursor ;;
          var v_8 := from_end ;;
          unless (equal_b 1 (lit "c")) (break_ 7) ;;
          cursor_back v_8 ;;
          unless (call r_RV) (break_ 7) ;;
          unless delete (return_ false)) ;;
        cursor_back v_7 ;;
        break_ 3) ;;
      cursor_back v_4 ;;
      unless (call r_residual_suffix) (break_ 2))) ;;
  cursor_back v_3 ;;
  var v_9 := from_end ;;
  block 8 (unless (call r_residual_form) (break_ 8)) ;;
  cursor_back v_9 ;;
  cursor_backward ;;
  var v_10 := cursor ;;
  block 9 (unless (call r_postlude) (break_ 9)) ;;
  cursor_to v_10 ;;
  return_ true).

Definition copy_from (st other : Stemmer.t fields) : Stemmer.t fields :=
  Stemmer.copy_from (set_own st {| I_p2 := I_p2 (own other); I_p1 := I_p1 (own other); I_pV := I_pV (own other) |}) other.

Definition new : Stemmer.t fields := Stemmer.new {| I_p2 := 0; I_p1 := 0; I_pV := 0 |}.

(** ** The methods return and do not depend on earlier words *)

(** Two runs agree on [I_p2], [I_p1] and [I_pV], where the mark is not below the
    limit. *)
Definition live (lb : Z) (x x2 : fields) : Prop :=
  I_p2 x2 = I_p2 x ∧ I_p1 x2 = I_p1 x ∧ I_pV x2 = I_pV x ∧ lb ≤ I_pV x.
Ltac rels k := first [k live | k (@any fields)].

#[global] Typeclasses Opaque r_prelude r_mark_regions r_postlude r_RV r_R1 r_R2 r_standard_suffix r_verb_suffix
  r_residual_suffix r_residual_form.

#[global] Instance r_prelude_ok : Edits Forward any any r_prelude.
Proof. snow_proof rels. Qed.
#[global] Instance r_mark_regions_ok : Edits Forward any live r_mark_regions.
Proof. snow_proof rels. Qed.
#[global] Instance r_postlude_ok : Edits Forward any any r_postlude.
Proof. snow_proof rels. Qed.
#[global] Instance r_RV_ok : Moves Backward live r_RV.
Proof. snow_proof rels. Qed.
#[global] Instance r_R1_ok : Moves Backward live r_R1.
Proof. snow_proof rels. Qed.
#[global] Instance r_R2_ok : Moves Backward live r_R2.
Proof. snow_proof rels. Qed.
#[global] Instance r_standard_suffix_ok : Edits Backward live live r_standard_suffix.
Proof. snow_proof rels. Qed.
#[global] Instance r_verb_suffix_ok : Edits Backward live live r_verb_suffix.
Proof. snow_proof rels. Qed.
#[global] Instance r_residual_suffix_ok : Edits Backward live live r_residual_suffix.
Proof. snow_proof rels. Qed.
#[global] Instance r_residual_form_ok : Edits Backward live live r_residual_form.
Proof. snow_proof rels. Qed.
#[global] Instance stem_ok : Stems stem.
Proof. snow_proof rels. Qed.

End Portuguese.
