(* ===== verification/Romanian.v ===== *)
(** * The Romanian stemmer

    Model of [src/misc/oktavia/src/stemmer/romanian-stemmer.jsx], one of the
    stemmers that were generated from Snowball scripts: its tables of endings, its
    groups of letters and its methods, statement by statement.  The instances show
    that every method returns and that the stemmer does not depend on the words it
    stemmed before. *)

From S2P Require Import Prelude JsObject Suffixes BaseStemmer Snowball SnowballRules.

Local Open Scope Z_scope.
Local Open Scope snow_scope.

Module Romanian.
Import Stemmer Snow Rules.

(** ** Model *)

Record fields := { B_standard_suffix_removed : bool; I_p2 : Z; I_p1 : Z; I_pV : Z }.

Definition set_B_standard_suffix_removed (v : bool) (x : fields) : fields :=
  {| B_standard_suffix_removed := v; I_p2 := I_p2 x; I_p1 := I_p1 x; I_pV := I_pV x |}.
Definition set_I_p2 (v : Z) (x : fields) : fields :=
  {| B_standard_suffix_removed := B_standard_suffix_removed x; I_p2 := v; I_p1 := I_p1 x; I_pV := I_pV x |}.
Definition set_I_p1 (v : Z) (x : fields) : fields :=
  {| B_standard_suffix_removed := B_standard_suffix_removed x; I_p2 := I_p2 x; I_p1 := v; I_pV := I_pV x |}.
Definition set_I_pV (v : Z) (x : fields) : fields :=
  {| B_standard_suffix_removed := B_standard_suffix_removed x; I_p2 := I_p2 x; I_p1 := I_p1 x; I_pV := v |}.

Definition a_0 : list (Among fields) :=
  [entry (lit "") (-1) 3;
   entry (lit "I") 0 1;
   entry (lit "U") 0 2].

Definition a_1 : list (Among fields) :=
  [entry (lit "ea") (-1) 3;
   entry (lit "a\u0163ia") (-1) 7;
   entry (lit "aua") (-1) 2;
   entry (lit "iua") (-1) 4;
   entry (lit "a\u0163ie") (-1) 7;
   entry (lit "ele") (-1) 3;
   entry (lit "ile") (-1) 5;
   entry (lit "iile") 6 4;
   entry (lit "iei") (-1) 4;
   entry (lit "atei") (-1) 6;
   entry (lit "ii") (-1) 4;
   entry (lit "ului") (-1) 1;
   entry (lit "ul") (-1) 1;
   entry (lit "elor") (-1) 3;
   entry (lit "ilor") (-1) 4;
   entry (lit "iilor") 14 4].

Definition a_2 : list (Among fields) :=
  [entry (lit "icala") (-1) 4;
   entry (lit "iciva") (-1) 4;
   entry (lit "ativa") (-1) 5;
   entry (lit "itiva") (-1) 6;
   entry (lit "icale") (-1) 4;
   entry (lit "a\u0163iune") (-1) 5;
   entry (lit "i\u0163iune") (-1) 6;
   entry (lit "atoare") (-1) 5;
   entry (lit "itoare") (-1) 6;
   entry (lit "\u0103toare") (-1) 5;
   entry (lit "icitate") (-1) 4;
   entry (lit "abilitate") (-1) 1;
   entry (lit "ibilitate") (-1) 2;
   entry (lit "ivitate") (-1) 3;
   entry (lit "icive") (-1) 4;
   entry (lit "ative") (-1) 5;
   entry (lit "itive") (-1) 6;
   entry (lit "icali") (-1) 4;
   entry (lit "atori") (-1) 5;
   entry (lit "icatori") 18 4;
   entry (lit "itori") (-1) 6;
   entry (lit "\u0103tori") (-1) 5;
   entry (lit "icitati") (-1) 4;
   entry (lit "abilitati") (-1) 1;
   entry (lit "ivitati") (-1) 3;
   entry (lit "icivi") (-1) 4;
   entry (lit "ativi") (-1) 5;
   entry (lit "itivi") (-1) 6;
   entry (lit "icit\u0103i") (-1) 4;
   entry (lit "abilit\u0103i") (-1) 1;
   entry (lit "ivit\u0103i") (-1) 3;
   entry (lit "icit\u0103\u0163i") (-1) 4;
   entry (lit "abilit\u0103\u0163i") (-1) 1;
   entry (lit "ivit\u0103\u0163i") (-1) 3;
   entry (lit "ical") (-1) 4;
   entry (lit "ator") (-1) 5;
   entry (lit "icator") 35 4;
   entry (lit "itor") (-1) 6;
   entry (lit "\u0103tor") (-1) 5;
   entry (lit "iciv") (-1) 4;
   entry (lit "ativ") (-1) 5;
   entry (lit "itiv") (-1) 6;
   entry (lit "ical\u0103") (-1) 4;
   entry (lit "iciv\u0103") (-1) 4;
   entry (lit "ativ\u0103") (-1) 5;
   entry (lit "itiv\u0103") (-1) 6].

Definition a_3 : list (Among fields) :=
  [entry (lit "ica") (-1) 1;
   entry (lit "abila") (-1) 1;
   entry (lit "ibila") (-1) 1;
   entry (lit "oasa") (-1) 1;
   entry (lit "ata") (-1) 1;
   entry (lit "ita") (-1) 1;
   entry (lit "anta") (-1) 1;
   entry (lit "ista") (-1) 3;
   entry (lit "uta") (-1) 1;
   entry (lit "iva") (-1) 1;
   entry (lit "ic") (-1) 1;
   entry (lit "ice") (-1) 1;
   entry (lit "abile") (-1) 1;
   entry (lit "ibile") (-1) 1;
   entry (lit "isme") (-1) 3;
   entry (lit "iune") (-1) 2;
   entry (lit "oase") (-1) 1;
   entry (lit "ate") (-1) 1;
   entry (lit "itate") 17 1;
   entry (lit "ite") (-1) 1;
   entry (lit "ante") (-1) 1;
   entry (lit "iste") (-1) 3;
   entry (lit "ute") (-1) 1;
   entry (lit "ive") (-1) 1;
   entry (lit "ici") (-1) 1;
   entry (lit "abili") (-1) 1;
   entry (lit "ibili") (-1) 1;
   entry (lit "iuni") (-1) 2;
   entry (lit "atori") (-1) 1;
   entry (lit "osi") (-1) 1;
   entry (lit "ati") (-1) 1;
   entry (lit "itati") 30 1;
   entry (lit "iti") (-1) 1;
   entry (lit "anti") (-1) 1;
   entry (lit "isti") (-1) 3;
   entry (lit "uti") (-1) 1;
   entry (lit "i\u015Fti") (-1) 3;
   entry (lit "ivi") (-1) 1;
   entry (lit "it\u0103i") (-1) 1;
   entry (lit "o\u015Fi") (-1) 1;
   entry (lit "it\u0103\u0163i") (-1) 1;
   entry (lit "abil") (-1) 1;
   entry (lit "ibil") (-1) 1;
   entry (lit "ism") (-1) 3;
   entry (lit "ator") (-1) 1;
   entry (lit "os") (-1) 1;
   entry (lit "at") (-1) 1;
   entry (lit "it") (-1) 1;
   entry (lit "ant") (-1) 1;
   entry (lit "ist") (-1) 3;
   entry (lit "ut") (-1) 1;
   entry (lit "iv") (-1) 1;
   entry (lit "ic\u0103") (-1) 1;
   entry (lit "abil\u0103") (-1) 1;
   entry (lit "ibil\u0103") (-1) 1;
   entry (lit "oas\u0103") (-1) 1;
   entry (lit "at\u0103") (-1) 1;
   entry (lit "it\u0103") (-1) 1;
   entry (lit "ant\u0103") (-1) 1;
   entry (lit "ist\u0103") (-1) 3;
   entry (lit "ut\u0103") (-1) 1;
   entry (lit "iv\u0103") (-1) 1].

Definition a_4 : list (Among fields) :=
  [entry (lit "ea") (-1) 1;
   entry (lit "ia") (-1) 1;
   entry (lit "esc") (-1) 1;
   entry (lit "\u0103sc") (-1) 1;
   entry (lit "ind") (-1) 1;
   entry (lit "\u00E2nd") (-1) 1;
   entry (lit "are") (-1) 1;
   entry (lit "ere") (-1) 1;
   entry (lit "ire") (-1) 1;
   entry (lit "\u00E2re") (-1) 1;
   entry (lit "se") (-1) 2;
   entry (lit "ase") 10 1;
   entry (lit "sese") 10 2;
   entry (lit "ise") 10 1;
   entry (lit "use") 10 1;
   entry (lit "\u00E2se") 10 1;
   entry (lit "e\u015Fte") (-1) 1;
   entry (lit "\u0103\u015Fte") (-1) 1;
   entry (lit "eze") (-1) 1;
   entry (lit "ai") (-1) 1;
   entry (lit "eai") 19 1;
   entry (lit "iai") 19 1;
   entry (lit "sei") (-1) 2;
   entry (lit "e\u015Fti") (-1) 1;
   entry (lit "\u0103\u015Fti") (-1) 1;
   entry (lit "ui") (-1) 1;
   entry (lit "ezi") (-1) 1;
   entry (lit "\u00E2i") (-1) 1;
   entry (lit "a\u015Fi") (-1) 1;
   entry (lit "se\u015Fi") (-1) 2;
   entry (lit "ase\u015Fi") 29 1;
   entry (lit "sese\u015Fi") 29 2;
   entry (lit "ise\u015Fi") 29 1;
   entry (lit "use\u015Fi") 29 1;
   entry (lit "\u00E2se\u015Fi") 29 1;
   entry (lit "i\u015Fi") (-1) 1;
   entry (lit "u\u015Fi") (-1) 1;
   entry (lit "\u00E2\u015Fi") (-1) 1;
   entry (lit "a\u0163i") (-1) 2;
   entry (lit "ea\u0163i") 38 1;
   entry (lit "ia\u0163i") 38 1;
   entry (lit "e\u0163i") (-1) 2;
   entry (lit "i\u0163i") (-1) 2;
   entry (lit "\u00E2\u0163i") (-1) 2;
   entry (lit "ar\u0103\u0163i") (-1) 1;
   entry (lit "ser\u0103\u0163i") (-1) 2;
   entry (lit "aser\u0103\u0163i") 45 1;
   entry (lit "seser\u0103\u0163i") 45 2;
   entry (lit "iser\u0103\u0163i") 45 1;
   entry (lit "user\u0103\u0163i") 45 1;
   entry (lit "\u00E2ser\u0103\u0163i") 45 1;
   entry (lit "ir\u0103\u0163i") (-1) 1;
   entry (lit "ur\u0103\u0163i") (-1) 1;
   entry (lit "\u00E2r\u0103\u0163i") (-1) 1;
   entry (lit "am") (-1) 1;
   entry (lit "eam") 54 1;
   entry (lit "iam") 54 1;
   entry (lit "em") (-1) 2;
   entry (lit "asem") 57 1;
   entry (lit "sesem") 57 2;
   entry (lit "isem") 57 1;
   entry (lit "usem") 57 1;
   entry (lit "\u00E2sem") 57 1;
   entry (lit "im") (-1) 2;
   entry (lit "\u00E2m") (-1) 2;
   entry (lit "\u0103m") (-1) 2;
   entry (lit "ar\u0103m") 65 1;
   entry (lit "ser\u0103m") 65 2;
   entry (lit "aser\u0103m") 67 1;
   entry (lit "seser\u0103m") 67 2;
   entry (lit "iser\u0103m") 67 1;
   entry (lit "user\u0103m") 67 1;
   entry (lit "\u00E2ser\u0103m") 67 1;
   entry (lit "ir\u0103m") 65 1;
   entry (lit "ur\u0103m") 65 1;
   entry (lit "\u00E2r\u0103m") 65 1;
   entry (lit "au") (-1) 1;
   entry (lit "eau") 76 1;
   entry (lit "iau") 76 1;
   entry (lit "indu") (-1) 1;
   entry (lit "\u00E2ndu") (-1) 1;
   entry (lit "ez") (-1) 1;
   entry (lit "easc\u0103") (-1) 1;
   entry (lit "ar\u0103") (-1) 1;
   entry (lit "ser\u0103") (-1) 2;
   entry (lit "aser\u0103") 84 1;
   entry (lit "seser\u0103") 84 2;
   entry (lit "iser\u0103") 84 1;
   entry (lit "user\u0103") 84 1;
   entry (lit "\u00E2ser\u0103") 84 1;
   entry (lit "ir\u0103") (-1) 1;
   entry (lit "ur\u0103") (-1) 1;
   entry (lit "\u00E2r\u0103") (-1) 1;
   entry (lit "eaz\u0103") (-1) 1].

Definition a_5 : list (Among fields) :=
  [entry (lit "a") (-1) 1;
   entry (lit "e") (-1) 1;
   entry (lit "ie") 1 1;
   entry (lit "i") (-1) 1;
   entry (lit "\u0103") (-1) 1].

Definition g_v : list Z := [17; 65; 16; 0; 0; 0; 0; 0; 0; 0; 0; 0; 0; 0; 0; 0; 2; 32; 0; 0; 4].

Definition r_prelude : test fields := method (
  forever 0 (
    var v_1 := cursor ;;
    block 1 (
      forever 2 (
        var v_2 := cursor ;;
        block 3 (
          unless (grouping g_v 97 259) (break_ 3) ;;
          bra_cursor ;;
          block 4 (
            var v_3 := cursor ;;
            block 5 (
              unless (equal 1 (lit "u")) (break_ 5) ;;
              ket_cursor ;;
              unless (grouping g_v 97 259) (break_ 5) ;;
              unless (replace (lit "U")) (return_ false) ;;
              break_ 4) ;;
            cursor_to v_3 ;;
            unless (equal 1 (lit "i")) (break_ 3) ;;
            ket_cursor ;;
            unless (grouping g_v 97 259) (break_ 3) ;;
            unless (replace (lit "I")) (return_ false)) ;;
          cursor_to v_2 ;;
          break_ 2) ;;
        cursor_to v_2 ;;
        when (λ st, limit st <=? cursor st) (break_ 1) ;;
        cursor_next) ;;
      continue_ 0) ;;
    cursor_to v_1 ;;
    break_ 0) ;;
  return_ true).

Definition r_mark_regions : test fields := method (
  put (λ st, set_I_pV (limit st) (own st)) ;;
  put (λ st, set_I_p1 (limit st) (own st)) ;;
  put (λ st, set_I_p2 (limit st) (own st)) ;;
  var v_1 := cursor ;;
  block 0 (
    block 1 (
      var v_2 := cursor ;;
      block 2 (
        unless (grouping g_v 97 259) (break_ 2) ;;
        block 3 (
          var v_3 := cursor ;;
          block 4 (
            unless (non_grouping g_v 97 259) (break_ 4) ;;
            forever 5 (
              block 6 (
                unless (grouping g_v 97 259) (break_ 6) ;;
                break_ 5) ;;
              when (λ st, limit st <=? cursor st) (break_ 4) ;;
              cursor_next) ;;
            break_ 3) ;;
          cursor_to v_3 ;;
          unless (grouping g_v 97 259) (break_ 2) ;;
          forever 7 (
            block 8 (
              unless (non_grouping g_v 97 259) (break_ 8) ;;
              break_ 7) ;;
            when (λ st, limit st <=? cursor st) (break_ 2) ;;
            cursor_next)) ;;
        break_ 1) ;;
      cursor_to v_2 ;;
      unless (non_grouping g_v 97 259) (break_ 0) ;;
      block 9 (
        var v_6 := cursor ;;
        block 10 (
          unless (non_grouping g_v 97 259) (break_ 10) ;;
          forever 11 (
            block 12 (
              unless (grouping g_v 97 259) (break_ 12) ;;
              break_ 11) ;;
            when (λ st, limit st <=? cursor st) (break_ 10) ;;
            cursor_next) ;;
          break_ 9) ;;
        cursor_to v_6 ;;
        unless (grouping g_v 97 259) (break_ 0) ;;
        when (λ st, limit st <=? cursor st) (break_ 0) ;;
        cursor_next)) ;;
    put (λ st, set_I_pV (cursor st) (own st))) ;;
  cursor_to v_1 ;;
  var v_8 := cursor ;;
  block 13 (
    forever 14 (
      block 15 (
        unless (grouping g_v 97 259) (break_ 15) ;;
        break_ 14) ;;
      when (λ st, limit st <=? cursor st) (break_ 13) ;;
      cursor_next) ;;
    forever 16 (
      block 17 (
        unless (non_grouping g_v 97 259) (break_ 17) ;;
        break_ 16) ;;
      when (λ st, limit st <=? cursor st) (break_ 13) ;;
      cursor_next) ;;
    put (λ st, set_I_p1 (cursor st) (own st)) ;;
    forever 18 (
      block 19 (
        unless (grouping g_v 97 259) (break_ 19) ;;
        break_ 18) ;;
      when (λ st, limit st <=? cursor st) (break_ 13) ;;
      cursor_next) ;;
    forever 20 (
      block 21 (
        unless (non_grouping g_v 97 259) (break_ 21) ;;
        break_ 20) ;;
      when (λ st, limit st <=? cursor st) (break_ 13) ;;
      cursor_next) ;;
    put (λ st, set_I_p2 (cursor st) (own st))) ;;
  cursor_to v_8 ;;
  return_ true).

Definition r_postlude : test fields := method (
  forever 0 (
    var v_1 := cursor ;;
    block 1 (
      bra_cursor ;;
      var among_var in among a_0 3 ;;
      when (λ st, among_var =? 0) (break_ 1) ;;
      ket_cursor ;;
      switch among_var [
        (0, break_ 1);
        (1, unless (replace (lit "i")) (return_ false));
        (2, unless (replace (lit "u")) (return_ false));
        (3,
          when (λ st, limit st <=? cursor st) (break_ 1) ;;
          cursor_next)] ;;
      continue_ 0) ;;
    cursor_to v_1 ;;
    break_ 0) ;;
  return_ true).

Definition r_RV : test fields := method (
  when (λ st, negb (I_pV (own st) <=? cursor st)) (return_ false) ;;
  return_ true).

Definition r_R1 : test fields := method (
  when (λ st, negb (I_p1 (own st) <=? cursor st)) (return_ false) ;;
  return_ true).

Definition r_R2 : test fields := method (
  when (λ st, negb (I_p2 (own st) <=? cursor st)) (return_ false) ;;
  return_ true).

Definition r_step_0 : test fields := method (
  ket_cursor ;;
  var among_var in among_b a_1 16 ;;
  when (λ st, among_var =? 0) (return_ false) ;;
  bra_cursor ;;
  unless (call r_R1) (return_ false) ;;
  switch among_var [
    (0, return_ false);
    (1, unless delete (return_ false));
    (2, unless (replace (lit "a")) (return_ false));
    (3, unless (replace (lit "e")) (return_ false));
    (4, unless (replace (lit "i")) (return_ false));
    (5,
      var v_1 := from_end ;;
      block 0 (
        unless (equal_b 2 (lit "ab")) (break_ 0) ;;
        return_ false) ;;
      cursor_back v_1 ;;
      unless (replace (lit "i")) (return_ false));
    (6, unless (replace (lit "at")) (return_ false));
    (7, unless (replace (lit "a\u0163i")) (return_ false))] ;;
  return_ true).

Definition r_combo_suffix : test fields := method (
  var v_1 := from_end ;;
  ket_cursor ;;
  var among_var in among_b a_2 46 ;;
  when (λ st, among_var =? 0) (return_ false) ;;
  bra_cursor ;;
  unless (call r_R1) (return_ false) ;;
  switch among_var [
    (0, return_ false);
    (1, unless (replace (lit "abil")) (return_ false));
    (2, unless (replace (lit "ibil")) (return_ false));
    (3, unless (replace (lit "iv")) (return_ false));
    (4, unless (replace (lit "ic")) (return_ false));
    (5, unless (replace (lit "at")) (return_ false));
    (6, unless (replace (lit "it")) (return_ false))] ;;
  put (λ st, set_B_standard_suffix_removed true (own st)) ;;
  cursor_back v_1 ;;
  return_ true).

Definition r_standard_suffix : test fields := method (
  put (λ st, set_B_standard_suffix_removed false (own st)) ;;
  forever 0 (
    var v_1 := from_end ;;
    block 1 (
      unless (call r_combo_suffix) (break_ 1) ;;
      continue_ 0) ;;
    cursor_back v_1 ;;
    break_ 0) ;;
  ket_cursor ;;
  var among_var in among_b a_3 62 ;;
  when (λ st, among_var =? 0) (return_ false) ;;
  bra_cursor ;;
  unless (call r_R2) (return_ false) ;;
  switch among_var [
    (0, return_ false);
    (1, unless delete (return_ false));
    (2,
      unless (equal_b 1 (lit "\u0163")) (return_ false) ;;
      bra_cursor ;;
      unless (replace (lit "t")) (return_ false));
    (3, unless (replace (lit "ist")) (return_ false))] ;;
  put (λ st, set_B_standard_suffix_removed true (own st)) ;;
  return_ true).

Definition r_verb_suffix : test fields := method (
  var v_1 := from_end ;;
  when (λ st, cursor st <? I_pV (own st)) (return_ false) ;;
  cursor_mark I_pV ;;
  var v_2 := limit_backward ;;
  backward_cursor ;;
  cursor_back v_1 ;;
  ket_cursor ;;
  var among_var in among_b a_4 94 ;;
  when (λ st, among_var =? 0) (
    backward_to v_2 ;;
    return_ false) ;;
  bra_cursor ;;
  switch among_var [
    (0,
      backward_to v_2 ;;
      return_ false);
    (1,
      block 0 (
        var v_3 := from_end ;;
        block 1 (
          unless (non_grouping_b g_v 97 259) (break_ 1) ;;
          break_ 0) ;;
        cursor_back v_3 ;;
        unless (equal_b 1 (lit "u")) (
          backward_to v_2 ;;
          return_ false)) ;;
      unless delete (return_ false));
    (2, unless delete (return_ false))] ;;
  backward_to v_2 ;;
  return_ true).

Definition r_vowel_suffix : test fields := method (
  ket_cursor ;;
  var among_var in among_b a_5 5 ;;
  when (λ st, among_var =? 0) (return_ false) ;;
  bra_cursor ;;
  unless (call r_RV) (return_ false) ;;
  switch among_var [
    (0, return_ false);
    (1, unless delete (return_ false))] ;;
  return_ true).

Definition stem : test fields := method (
  var v_1 := cursor ;;
  block 0 (unless (call r_prelude) (break_ 0)) ;;
  cursor_to v_1 ;;
  var v_2 := cursor ;;
  block 1 (unless (call r_mark_regions) (break_ 1)) ;;
  cursor_to v_2 ;;
  backward_cursor ;;
  cursor_limit ;;
  var v_3 := from_end ;;
  block 2 (unless (call r_step_0) (break_ 2)) ;;
  cursor_back v_3 ;;
  var v_4 := from_end ;;
  block 3 (unless (call r_standard_suffix) (break_ 3)) ;;
  cursor_back v_4 ;;
  var v_5 := from_end ;;
  block 4 (
    block 5 (
      var v_6 := from_end ;;
      block 6 (
        when (λ st, negb (B_standard_suffix_removed (own st))) (break_ 6) ;;
        break_ 5) ;;
      cursor_back v_6 ;;
      unless (call r_verb_suffix) (break_ 4))) ;;
  cursor_back v_5 ;;
  var v_7 := from_end ;;
  block 7 (unless (call r_vowel_suffix) (break_ 7)) ;;
  cursor_back v_7 ;;
  cursor_backward ;;
  var v_8 := cursor ;;
  block 8 (unless (call r_postlude) (break_ 8)) ;;
  cursor_to v_8 ;;
  return_ true).

Definition copy_from (st other : Stemmer.t fields) : Stemmer.t fields :=
  Stemmer.copy_from (set_own st {| B_standard_suffix_removed := B_standard_suffix_removed (own other); I_p2 := I_p2 (own other); I_p1 := I_p1 (own other); I_pV := I_pV (own other) |}) other.

Definition new : Stemmer.t fields := Stemmer.new {| B_standard_suffix_removed := false; I_p2 := 0; I_p1 := 0; I_pV := 0 |}.

(** ** The methods return and do not depend on earlier words *)

(** Two runs agree on [I_pV], [I_p1] and [I_p2], where the mark is not below the
    limit. *)
Definition live (lb : Z) (x x2 : fields) : Prop :=
  I_pV x2 = I_pV x ∧ I_p1 x2 = I_p1 x ∧ I_p2 x2 = I_p2 x ∧ lb ≤ I_pV x.
(** Two runs agree on [I_pV], [I_p1], [I_p2] and [B_standard_suffix_removed], where
    the mark is not below the limit. *)
Definition found (lb : Z) (x x2 : fields) : Prop :=
  I_pV x2 = I_pV x ∧ I_p1 x2 = I_p1 x ∧ I_p2 x2 = I_p2 x ∧ B_standard_suffix_removed x2 = B_standard_suffix_removed x ∧ lb ≤ I_pV x.
Ltac rels k := first [k found | k live | k (@any fields)].

#[global] Typeclasses Opaque r_prelude r_mark_regions r_postlude r_RV r_R1 r_R2 r_step_0 r_combo_suffix
  r_standard_suffix r_verb_suffix r_vowel_suffix.

#[global] Instance r_prelude_ok : Edits Forward any any r_prelude.
Proof. snow_proof rels. Qed.
#[global] Instance r_mark_regions_ok : Edits Forward any live r_mark_regions.
Proof. snow_proof rels. Qed.
#[global] Instance r_postlude_ok : Edits Forward any any r_postlude.
Proof. snow_proof rels. Qed.
#[global] Instance r_RV_ok : Moves Backward live r_RV.
Proof. snow_proof rels. Qed.
#[global] Instance r_R1_ok : Moves Backward live r_R1.
Proof. snow_proof rels. Qed.
#[global] Instance r_R2_ok : Moves Backward live r_R2.
Proof. snow_proof rels. Qed.
#[global] Instance r_step_0_ok : Edits Backward live live r_step_0.
Proof. snow_proof rels. Qed.
#[global] Instance r_combo_suffix_ok : Consumes found found r_combo_suffix.
Proof. snow_proof rels. Qed.
#[global] Instance r_standard_suffix_ok : Edits Backward live found r_standard_suffix.
Proof. snow_proof rels. Qed.
#[global] Instance r_verb_suffix_ok : Edits Backward live live r_verb_suffix.
Proof. snow_proof rels. Qed.
#[global] Instance r_verb_suffix_ok2 : Edits Backward found found r_verb_suffix.
Proof. snow_proof rels. Qed.
#[global] Instance r_vowel_suffix_ok : Edits Backward live live r_vowel_suffix.
Proof. snow_proof rels. Qed.
#[global] Instance stem_ok : Stems stem.
Proof. snow_proof rels. Qed.

End Romanian.
