(* ===== verification/Russian.v ===== *)
(** * The Russian stemmer

    Model of [src/misc/oktavia/src/stemmer/russian-stemmer.jsx], one of the
    stemmers that were generated from Snowball scripts: its tables of endings, its
    groups of letters and its methods, statement by statement.  The instances show
    that every method returns and that the stemmer does not depend on the words it
    stemmed before. *)

From S2P Require Import Prelude JsObject Suffixes BaseStemmer Snowball SnowballRules.

Local Open Scope Z_scope.
Local Open Scope snow_scope.

Module Russian.
Import Stemmer Snow Rules.

(** ** Model *)

Record fields := { I_p2 : Z; I_pV : Z }.

Definition set_I_p2 (v : Z) (x : fields) : fields :=
  {| I_p2 := v; I_pV := I_pV x |}.
Definition set_I_pV (v : Z) (x : fields) : fields :=
  {| I_p2 := I_p2 x; I_pV := v |}.

Definition a_0 : list (Among fields) :=
  [entry (lit "\u0432") (-1) 1;
   entry (lit "\u0438\u0432") 0 2;
   entry (lit "\u044B\u0432") 0 2;
   entry (lit "\u0432\u0448\u0438") (-1) 1;
   entry (lit "\u0438\u0432\u0448\u0438") 3 2;
   entry (lit "\u044B\u0432\u0448\u0438") 3 2;
   entry (lit "\u0432\u0448\u0438\u0441\u044C") (-1) 1;
   entry (lit "\u0438\u0432\u0448\u0438\u0441\u044C") 6 2;
   entry (lit "\u044B\u0432\u0448\u0438\u0441\u044C") 6 2].

Definition a_1 : list (Among fields) :=
  [entry (lit "\u0435\u0435") (-1) 1;
   entry (lit "\u0438\u0435") (-1) 1;
   entry (lit "\u043E\u0435") (-1) 1;
   entry (lit "\u044B\u0435") (-1) 1;
   entry (lit "\u0438\u043C\u0438") (-1) 1;
   entry (lit "\u044B\u043C\u0438") (-1) 1;
   entry (lit "\u0435\u0439") (-1) 1;
   entry (lit "\u0438\u0439") (-1) 1;
   entry (lit "\u043E\u0439") (-1) 1;
   entry (lit "\u044B\u0439") (-1) 1;
   entry (lit "\u0435\u043C") (-1) 1;
   entry (lit "\u0438\u043C") (-1) 1;
   entry (lit "\u043E\u043C") (-1) 1;
   entry (lit "\u044B\u043C") (-1) 1;
   entry (lit "\u0435\u0433\u043E") (-1) 1;
   entry (lit "\u043E\u0433\u043E") (-1) 1;
   entry (lit "\u0435\u043C\u0443") (-1) 1;
   entry (lit "\u043E\u043C\u0443") (-1) 1;
   entry (lit "\u0438\u0445") (-1) 1;
   entry (lit "\u044B\u0445") (-1) 1;
   entry (lit "\u0435\u044E") (-1) 1;
   entry (lit "\u043E\u044E") (-1) 1;
   entry (lit "\u0443\u044E") (-1) 1;
   entry (lit "\u044E\u044E") (-1) 1;
   entry (lit "\u0430\u044F") (-1) 1;
   entry (lit "\u044F\u044F") (-1) 1].

Definition a_2 : list (Among fields) :=
  [entry (lit "\u0435\u043C") (-1) 1;
   entry (lit "\u043D\u043D") (-1) 1;
   entry (lit "\u0432\u0448") (-1) 1;
   entry (lit "\u0438\u0432\u0448") 2 2;
   entry (lit "\u044B\u0432\u0448") 2 2;
   entry (lit "\u0449") (-1) 1;
   entry (lit "\u044E\u0449") 5 1;
   entry (lit "\u0443\u044E\u0449") 6 2].

Definition a_3 : list (Among fields) :=
  [entry (lit "\u0441\u044C") (-1) 1;
   entry (lit "\u0441\u044F") (-1) 1].

Definition a_4 : list (Among fields) :=
  [entry (lit "\u043B\u0430") (-1) 1;
   entry (lit "\u0438\u043B\u0430") 0 2;
   entry (lit "\u044B\u043B\u0430") 0 2;
   entry (lit "\u043D\u0430") (-1) 1;
   entry (lit "\u0435\u043D\u0430") 3 2;
   entry (lit "\u0435\u0442\u0435") (-1) 1;
   entry (lit "\u0438\u0442\u0435") (-1) 2;
   entry (lit "\u0439\u0442\u0435") (-1) 1;
   entry (lit "\u0435\u0439\u0442\u0435") 7 2;
   entry (lit "\u0443\u0439\u0442\u0435") 7 2;
   entry (lit "\u043B\u0438") (-1) 1;
   entry (lit "\u0438\u043B\u0438") 10 2;
   entry (lit "\u044B\u043B\u0438") 10 2;
   entry (lit "\u0439") (-1) 1;
   entry (lit "\u0435\u0439") 13 2;
   entry (lit "\u0443\u0439") 13 2;
   entry (lit "\u043B") (-1) 1;
   entry (lit "\u0438\u043B") 16 2;
   entry (lit "\u044B\u043B") 16 2;
   entry (lit "\u0435\u043C") (-1) 1;
   entry (lit "\u0438\u043C") (-1) 2;
   entry (lit "\u044B\u043C") (-1) 2;
   entry (lit "\u043D") (-1) 1;
   entry (lit "\u0435\u043D") 22 2;
   entry (lit "\u043B\u043E") (-1) 1;
   entry (lit "\u0438\u043B\u043E") 24 2;
   entry (lit "\u044B\u043B\u043E") 24 2;
   entry (lit "\u043D\u043E") (-1) 1;
   entry (lit "\u0435\u043D\u043E") 27 2;
   entry (lit "\u043D\u043D\u043E") 27 1;
   entry (lit "\u0435\u0442") (-1) 1;
   entry (lit "\u0443\u0435\u0442") 30 2;
   entry (lit "\u0438\u0442") (-1) 2;
   entry (lit "\u044B\u0442") (-1) 2;
   entry (lit "\u044E\u0442") (-1) 1;
   entry (lit "\u0443\u044E\u0442") 34 2;
   entry (lit "\u044F\u0442") (-1) 2;
   entry (lit "\u043D\u044B") (-1) 1;
   entry (lit "\u0435\u043D\u044B") 37 2;
   entry (lit "\u0442\u044C") (-1) 1;
   entry (lit "\u0438\u0442\u044C") 39 2;
   entry (lit "\u044B\u0442\u044C") 39 2;
   entry (lit "\u0435\u0448\u044C") (-1) 1;
   entry (lit "\u0438\u0448\u044C") (-1) 2;
   entry (lit "\u044E") (-1) 2;
   entry (lit "\u0443\u044E") 44 2].

Definition a_5 : list (Among fields) :=
  [entry (lit "\u0430") (-1) 1;
   entry (lit "\u0435\u0432") (-1) 1;
   entry (lit "\u043E\u0432") (-1) 1;
   entry (lit "\u0435") (-1) 1;
   entry (lit "\u0438\u0435") 3 1;
   entry (lit "\u044C\u0435") 3 1;
   entry (lit "\u0438") (-1) 1;
   entry (lit "\u0435\u0438") 6 1;
   entry (lit "\u0438\u0438") 6 1;
   entry (lit "\u0430\u043C\u0438") 6 1;
   entry (lit "\u044F\u043C\u0438") 6 1;
   entry (lit "\u0438\u044F\u043C\u0438") 10 1;
   entry (lit "\u0439") (-1) 1;
   entry (lit "\u0435\u0439") 12 1;
   entry (lit "\u0438\u0435\u0439") 13 1;
   entry (lit "\u0438\u0439") 12 1;
   entry (lit "\u043E\u0439") 12 1;
   entry (lit "\u0430\u043C") (-1) 1;
   entry (lit "\u0435\u043C") (-1) 1;
   entry (lit "\u0438\u0435\u043C") 18 1;
   entry (lit "\u043E\u043C") (-1) 1;
   entry (lit "\u044F\u043C") (-1) 1;
   entry (lit "\u0438\u044F\u043C") 21 1;
   entry (lit "\u043E") (-1) 1;
   entry (lit "\u0443") (-1) 1;
   entry (lit "\u0430\u0445") (-1) 1;
   entry (lit "\u044F\u0445") (-1) 1;
   entry (lit "\u0438\u044F\u0445") 26 1;
   entry (lit "\u044B") (-1) 1;
   entry (lit "\u044C") (-1) 1;
   entry (lit "\u044E") (-1) 1;
   entry (lit "\u0438\u044E") 30 1;
   entry (lit "\u044C\u044E") 30 1;
   entry (lit "\u044F") (-1) 1;
   entry (lit "\u0438\u044F") 33 1;
   entry (lit "\u044C\u044F") 33 1].

Definition a_6 : list (Among fields) :=
  [entry (lit "\u043E\u0441\u0442") (-1) 1;
   entry (lit "\u043E\u0441\u0442\u044C") (-1) 1].

Definition a_7 : list (Among fields) :=
  [entry (lit "\u0435\u0439\u0448\u0435") (-1) 1;
   entry (lit "\u043D") (-1) 2;
   entry (lit "\u0435\u0439\u0448") (-1) 1;
   entry (lit "\u044C") (-1) 3].

Definition g_v : list Z := [33; 65; 8; 232].

Definition r_mark_regions : test fields := method (
  put (λ st, set_I_pV (limit st) (own st)) ;;
  put (λ st, set_I_p2 (limit st) (own st)) ;;
  var v_1 := cursor ;;
  block 0 (
    forever 1 (
      block 2 (
        unless (grouping g_v 1072 1103) (break_ 2) ;;
        break_ 1) ;;
      when (λ st, limit st <=? cursor st) (break_ 0) ;;
      cursor_next) ;;
    put (λ st, set_I_pV (cursor st) (own st)) ;;
    forever 3 (
      block 4 (
        unless (non_grouping g_v 1072 1103) (break_ 4) ;;
        break_ 3) ;;
      when (λ st, limit st <=? cursor st) (break_ 0) ;;
      cursor_next) ;;
    forever 5 (
      block 6 (
        unless (grouping g_v 1072 1103) (break_ 6) ;;
        break_ 5) ;;
      when (λ st, limit st <=? cursor st) (break_ 0) ;;
      cursor_next) ;;
    forever 7 (
      block 8 (
        unless (non_grouping g_v 1072 1103) (break_ 8) ;;
        break_ 7) ;;
      when (λ st, limit st <=? cursor st) (break_ 0) ;;
      cursor_next) ;;
    put (λ st, set_I_p2 (cursor st) (own st))) ;;
  cursor_to v_1 ;;
  return_ true).

Definition r_R2 : test fields := method (
  when (λ st, negb (I_p2 (own st) <=? cursor st)) (return_ false) ;;
  return_ true).

Definition r_perfective_gerund : test fields := method (
  ket_cursor ;;
  var among_var in among_b a_0 9 ;;
  when (λ st, among_var =? 0) (return_ false) ;;
  bra_cursor ;;
  switch among_var [
    (0, return_ false);
    (1,
      block 0 (
        var v_1 := from_end ;;
        block 1 (
          unless (equal_b 1 (lit "\u0430")) (break_ 1) ;;
          break_ 0) ;;
        cursor_back v_1 ;;
        unless (equal_b 1 (lit "\u044F")) (return_ false)) ;;
      unless delete (return_ false));
    (2, unless delete (return_ false))] ;;
  return_ true).

Definition r_adjective : test fields := method (
  ket_cursor ;;
  var among_var in among_b a_1 26 ;;
  when (λ st, among_var =? 0) (return_ false) ;;
  bra_cursor ;;
  switch among_var [
    (0, return_ false);
    (1, unless delete (return_ false))] ;;
  return_ true).

Definition r_adjectival : test fields := method (
  unless (call r_adjective) (return_ false) ;;
  var v_1 := from_end ;;
  block 0 (
    ket_cursor ;;
    var among_var in among_b a_2 8 ;;
    when (λ st, among_var =? 0) (
      cursor_back v_1 ;;
      break_ 0) ;;
    bra_cursor ;;
    switch among_var [
      (0,
        cursor_back v_1 ;;
        break_ 0);
      (1,
        block 1 (
          var v_2 := from_end ;;
          block 2 (
            unless (equal_b 1 (lit "\u0430")) (break_ 2) ;;
            break_ 1) ;;
          cursor_back v_2 ;;
          unless (equal_b 1 (lit "\u044F")) (
            cursor_back v_1 ;;
            break_ 0)) ;;
        unless delete (return_ false));
      (2, unless delete (return_ false))]) ;;
  return_ true).

Definition r_reflexive : test fields := method (
  ket_cursor ;;
  var among_var in among_b a_3 2 ;;
  when (λ st, among_var =? 0) (return_ false) ;;
  bra_cursor ;;
  switch among_var [
    (0, return_ false);
    (1, unless delete (return_ false))] ;;
  return_ true).

Definition r_verb : test fields := method (
  ket_cursor ;;
  var among_var in among_b a_4 46 ;;
  when (λ st, among_var =? 0) (return_ false) ;;
  bra_cursor ;;
  switch among_var [
    (0, return_ false);
    (1,
      block 0 (
        var v_1 := from_end ;;
        block 1 (
          unless (equal_b 1 (lit "\u0430")) (break_ 1) ;;
          break_ 0) ;;
        cursor_back v_1 ;;
        unless (equal_b 1 (lit "\u044F")) (return_ false)) ;;
      unless delete (return_ false));
    (2, unless delete (return_ false))] ;;
  return_ true).

Definition r_noun : test fields := method (
  ket_cursor ;;
  var among_var in among_b a_5 36 ;;
  when (λ st, among_var =? 0) (return_ false) ;;
  bra_cursor ;;
  switch among_var [
    (0, return_ false);
    (1, unless delete (return_ false))] ;;
  return_ true).

Definition r_derivational : test fields := method (
  ket_cursor ;;
  var among_var in among_b a_6 2 ;;
  when (λ st, among_var =? 0) (return_ false) ;;
  bra_cursor ;;
  unless (call r_R2) (return_ false) ;;
  switch among_var [
    (0, return_ false);
    (1, unless delete (return_ false))] ;;
  return_ true).

Definition r_tidy_up : test fields := method (
  ket_cursor ;;
  var among_var in among_b a_7 4 ;;
  when (λ st, among_var =? 0) (return_ false) ;;
  bra_cursor ;;
  switch among_var [
    (0, return_ false);
    (1,
      unless delete (return_ false) ;;
      ket_cursor ;;
      unless (equal_b 1 (lit "\u043D")) (return_ false) ;;
      bra_cursor ;;
      unless (equal_b 1 (lit "\u043D")) (return_ false) ;;
      unless delete (return_ false));
    (2,
      unless (equal_b 1 (lit "\u043D")) (return_ false) ;;
      unless delete (return_ false));
    (3, unless delete (return_ false))] ;;
  return_ true).

Definition stem : test fields := method (
  var v_1 := cursor ;;
  block 0 (unless (call r_mark_regions) (break_ 0)) ;;
  cursor_to v_1 ;;
  backward_cursor ;;
  cursor_limit ;;
  var v_2 := from_end ;;
  when (λ st, cursor st <? I_pV (own st)) (return_ false) ;;
  cursor_mark I_pV ;;
  var v_3 := limit_backward ;;
  backward_cursor ;;
  cursor_back v_2 ;;
  var v_4 := from_end ;;
  block 1 (
    block 2 (
      var v_5 := from_end ;;
      block 3 (
        unless (call r_perfective_gerund) (break_ 3) ;;
        break_ 2) ;;
      cursor_back v_5 ;;
      var v_6 := from_end ;;
      block 4 (
        unless (call r_reflexive) (
          cursor_back v_6 ;;
          break_ 4)) ;;
      block 5 (
        var v_7 := from_end ;;
        block 6 (
          unless (call r_adjectival) (break_ 6) ;;
          break_ 5) ;;
        cursor_back v_7 ;;
        block 7 (
          unless (call r_verb) (break_ 7) ;;
          break_ 5) ;;
        cursor_back v_7 ;;
        unless (call r_noun) (break_ 1)))) ;;
  cursor_back v_4 ;;
  var v_8 := from_end ;;
  block 8 (
    ket_cursor ;;
    unless (equal_b 1 (lit "\u0438")) (
      cursor_back v_8 ;;
      break_ 8) ;;
    bra_cursor ;;
    unless delete (return_ false)) ;;
  var v_9 := from_end ;;
  block 9 (unless (call r_derivational) (break_ 9)) ;;
  cursor_back v_9 ;;
  var v_10 := from_end ;;
  block 10 (unless (call r_tidy_up) (break_ 10)) ;;
  cursor_back v_10 ;;
  backward_to v_3 ;;
  cursor_backward ;;
  return_ true).

Definition copy_from (st other : Stemmer.t fields) : Stemmer.t fields :=
  Stemmer.copy_from (set_own st {| I_p2 := I_p2 (own other); I_pV := I_pV (own other) |}) other.

Definition new : Stemmer.t fields := Stemmer.new {| I_p2 := 0; I_pV := 0 |}.

(** ** The methods return and do not depend on earlier words *)

(** Two runs agree on [I_p2] and [I_pV], where the mark is not below the limit. *)
Definition live (lb : Z) (x x2 : fields) : Prop :=
  I_p2 x2 = I_p2 x ∧ I_pV x2 = I_pV x ∧ lb ≤ I_pV x.
Ltac rels k := first [k live | k (@any fields)].

#[global] Typeclasses Opaque r_mark_regions r_R2 r_perfective_gerund r_adjective r_adjectival r_reflexive r_verb r_noun
  r_derivational r_tidy_up.

#[global] Instance r_mark_regions_ok : Edits Forward any live r_mark_regions.
Proof. snow_proof rels. Qed.
#[global] Instance r_R2_ok : Moves Backward live r_R2.
Proof. snow_proof rels. Qed.
#[global] Instance r_perfective_gerund_ok : Edits Backward live live r_perfective_gerund.
Proof. snow_proof rels. Qed.
#[global] Instance r_adjective_ok : Edits Backward live live r_adjective.
Proof. snow_proof rels. Qed.
#[global] Instance r_adjectival_ok : Edits Backward live live r_adjectival.
Proof. snow_proof rels. Qed.
#[global] Instance r_reflexive_ok : Edits Backward live live r_reflexive.
Proof. snow_proof rels. Qed.
#[global] Instance r_verb_ok : Edits Backward live live r_verb.
Proof. snow_proof rels. Qed.
#[global] Instance r_noun_ok : Edits Backward live live r_noun.
Proof. snow_proof rels. Qed.
#[global] Instance r_derivational_ok : Edits Backward live live r_derivational.
Proof. snow_proof rels. Qed.
#[global] Instance r_tidy_up_ok : Edits Backward live live r_tidy_up.
Proof. snow_proof rels. Qed.
#[global] Instance stem_ok : Stems stem.
Proof. snow_proof rels. Qed.

End Russian.
