(* ===== verification/Spanish.v ===== *)
(** * The Spanish stemmer

    Model of [src/misc/oktavia/src/stemmer/spanish-stemmer.jsx], one of the
    stemmers that were generated from Snowball scripts: its tables of endings, its
    groups of letters and its methods, statement by statement.  The instances show
    that every method returns and that the stemmer does not depend on the words it
    stemmed before. *)

From S2P Require Import Prelude JsObject Suffixes BaseStemmer Snowball SnowballRules.

Local Open Scope Z_scope.
Local Open Scope snow_scope.

Module Spanish.
Import Stemmer Snow Rules.

(** ** Model *)

Record fields := { I_p2 : Z; I_p1 : Z; I_pV : Z }.

Definition set_I_p2 (v : Z) (x : fields) : fields :=
  {| I_p2 := v; I_p1 := I_p1 x; I_pV := I_pV x |}.
Definition set_I_p1 (v : Z) (x : fields) : fields :=
  {| I_p2 := I_p2 x; I_p1 := v; I_pV := I_pV x |}.
Definition set_I_pV (v : Z) (x : fields) : fields :=
  {| I_p2 := I_p2 x; I_p1 := I_p1 x; I_pV := v |}.

Definition a_0 : list (Among fields) :=
  [entry (lit "") (-1) 6;
   entry (lit "\u00E1") 0 1;
   entry (lit "\u00E9") 0 2;
   entry (lit "\u00ED") 0 3;
   entry (lit "\u00F3") 0 4;
   entry (lit "\u00FA") 0 5].

Definition a_1 : list (Among fields) :=
  [entry (lit "la") (-1) (-1);
   entry (lit "sela") 0 (-1);
   entry (lit "le") (-1) (-1);
   entry (lit "me") (-1) (-1);
   entry (lit "se") (-1) (-1);
   entry (lit "lo") (-1) (-1);
   entry (lit "selo") 5 (-1);
   entry (lit "las") (-1) (-1);
   entry (lit "selas") 7 (-1);
   entry (lit "les") (-1) (-1);
   entry (lit "los") (-1) (-1);
   entry (lit "selos") 10 (-1);
   entry (lit "nos") (-1) (-1)].

Definition a_2 : list (Among fields) :=
  [entry (lit "ando") (-1) 6;
   entry (lit "iendo") (-1) 6;
   entry (lit "yendo") (-1) 7;
   entry (lit "\u00E1ndo") (-1) 2;
   entry (lit "i\u00E9ndo") (-1) 1;
   entry (lit "ar") (-1) 6;
   entry (lit "er") (-1) 6;
   entry (lit "ir") (-1) 6;
   entry (lit "\u00E1r") (-1) 3;
   entry (lit "\u00E9r") (-1) 4;
   entry (lit "\u00EDr") (-1) 5].

Definition a_3 : list (Among fields) :=
  [entry (lit "ic") (-1) (-1);
   entry (lit "ad") (-1) (-1);
   entry (lit "os") (-1) (-1);
   entry (lit "iv") (-1) 1].

Definition a_4 : list (Among fields) :=
  [entry (lit "able") (-1) 1;
   entry (lit "ible") (-1) 1;
   entry (lit "ante") (-1) 1].

Definition a_5 : list (Among fields) :=
  [entry (lit "ic") (-1) 1;
   entry (lit "abil") (-1) 1;
   entry (lit "iv") (-1) 1].

Definition a_6 : list (Among fields) :=
  [entry (lit "ica") (-1) 1;
   entry (lit "ancia") (-1) 2;
   entry (lit "encia") (-1) 5;
   entry (lit "adora") (-1) 2;
   entry (lit "osa") (-1) 1;
   entry (lit "ista") (-1) 1;
   entry (lit "iva") (-1) 9;
   entry (lit "anza") (-1) 1;
   entry (lit "log\u00EDa") (-1) 3;
   entry (lit "idad") (-1) 8;
   entry (lit "able") (-1) 1;
   entry (lit "ible") (-1) 1;
   entry (lit "ante") (-1) 2;
   entry (lit "mente") (-1) 7;
   entry (lit "amente") 13 6;
   entry (lit "aci\u00F3n") (-1) 2;
   entry (lit "uci\u00F3n") (-1) 4;
   entry (lit "ico") (-1) 1;
   entry (lit "ismo") (-1) 1;
   entry (lit "oso") (-1) 1;
   entry (lit "amiento") (-1) 1;
   entry (lit "imiento") (-1) 1;
   entry (lit "ivo") (-1) 9;
   entry (lit "ador") (-1) 2;
   entry (lit "icas") (-1) 1;
   entry (lit "ancias") (-1) 2;
   entry (lit "encias") (-1) 5;
   entry (lit "adoras") (-1) 2;
   entry (lit "osas") (-1) 1;
   entry (lit "istas") (-1) 1;
   entry (lit "ivas") (-1) 9;
   entry (lit "anzas") (-1) 1;
   entry (lit "log\u00EDas") (-1) 3;
   entry (lit "idades") (-1) 8;
   entry (lit "ables") (-1) 1;
   entry (lit "ibles") (-1) 1;
   entry (lit "aciones") (-1) 2;
   entry (lit "uciones") (-1) 4;
   entry (lit "adores") (-1) 2;
   entry (lit "antes") (-1) 2;
   entry (lit "icos") (-1) 1;
   entry (lit "ismos") (-1) 1;
   entry (lit "osos") (-1) 1;
   entry (lit "amientos") (-1) 1;
   entry (lit "imientos") (-1) 1;
   entry (lit "ivos") (-1) 9].

Definition a_7 : list (Among fields) :=
  [entry (lit "ya") (-1) 1;
   entry (lit "ye") (-1) 1;
   entry (lit "yan") (-1) 1;
   entry (lit "yen") (-1) 1;
   entry (lit "yeron") (-1) 1;
   entry (lit "yendo") (-1) 1;
   entry (lit "yo") (-1) 1;
   entry (lit "yas") (-1) 1;
   entry (lit "yes") (-1) 1;
   entry (lit "yais") (-1) 1;
   entry (lit "yamos") (-1) 1;
   entry (lit "y\u00F3") (-1) 1].

Definition a_8 : list (Among fields) :=
  [entry (lit "aba") (-1) 2;
   entry (lit "ada") (-1) 2;
   entry (lit "ida") (-1) 2;
   entry (lit "ara") (-1) 2;
   entry (lit "iera") (-1) 2;
   entry (lit "\u00EDa") (-1) 2;
   entry (lit "ar\u00EDa") 5 2;
   entry (lit "er\u00EDa") 5 2;
   entry (lit "ir\u00EDa") 5 2;
   entry (lit "ad") (-1) 2;
   entry (lit "ed") (-1) 2;
   entry (lit "id") (-1) 2;
   entry (lit "ase") (-1) 2;
   entry (lit "iese") (-1) 2;
   entry (lit "aste") (-1) 2;
   entry (lit "iste") (-1) 2;
   entry (lit "an") (-1) 2;
   entry (lit "aban") 16 2;
   entry (lit "aran") 16 2;
   entry (lit "ieran") 16 2;
   entry (lit "\u00EDan") 16 2;
   entry (lit "ar\u00EDan") 20 2;
   entry (lit "er\u00EDan") 20 2;
   entry (lit "ir\u00EDan") 20 2;
   entry (lit "en") (-1) 1;
   entry (lit "asen") 24 2;
   entry (lit "iesen") 24 2;
   entry (lit "aron") (-1) 2;
   entry (lit "ieron") (-1) 2;
   entry (lit "ar\u00E1n") (-1) 2;
   entry (lit "er\u00E1n") (-1) 2;
   entry (lit "ir\u00E1n") (-1) 2;
   entry (lit "ado") (-1) 2;
   entry (lit "ido") (-1) 2;
   entry (lit "ando") (-1) 2;
   entry (lit "iendo") (-1) 2;
   entry (lit "ar") (-1) 2;
   entry (lit "er") (-1) 2;
   entry (lit "ir") (-1) 2;
   entry (lit "as") (-1) 2;
   entry (lit "abas") 39 2;
   entry (lit "adas") 39 2;
   entry (lit "idas") 39 2;
   entry (lit "aras") 39 2;
   entry (lit "ieras") 39 2;
   entry (lit "\u00EDas") 39 2;
   entry (lit "ar\u00EDas") 45 2;
   entry (lit "er\u00EDas") 45 2;
   entry (lit "ir\u00EDas") 45 2;
   entry (lit "es") (-1) 1;
   entry (lit "ases") 49 2;
   entry (lit "ieses") 49 2;
   entry (lit "abais") (-1) 2;
   entry (lit "arais") (-1) 2;
   entry (lit "ierais") (-1) 2;
   entry (lit "\u00EDais") (-1) 2;
   entry (lit "ar\u00EDais") 55 2;
   entry (lit "er\u00EDais") 55 2;
   entry (lit "ir\u00EDais") 55 2;
   entry (lit "aseis") (-1) 2;
   entry (lit "ieseis") (-1) 2;
   entry (lit "asteis") (-1) 2;
   entry (lit "isteis") (-1) 2;
   entry (lit "\u00E1is") (-1) 2;
   entry (lit "\u00E9is") (-1) 1;
   entry (lit "ar\u00E9is") 64 2;
   entry (lit "er\u00E9is") 64 2;
   entry (lit "ir\u00E9is") 64 2;
   entry (lit "ados") (-1) 2;
   entry (lit "idos") (-1) 2;
   entry (lit "amos") (-1) 2;
   entry (lit "\u00E1bamos") 70 2;
   entry (lit "\u00E1ramos") 70 2;
   entry (lit "i\u00E9ramos") 70 2;
   entry (lit "\u00EDamos") 70 2;
   entry (lit "ar\u00EDamos") 74 2;
   entry (lit "er\u00EDamos") 74 2;
   entry (lit "ir\u00EDamos") 74 2;
   entry (lit "emos") (-1) 1;
   entry (lit "aremos") 78 2;
   entry (lit "eremos") 78 2;
   entry (lit "iremos") 78 2;
   entry (lit "\u00E1semos") 78 2;
   entry (lit "i\u00E9semos") 78 2;
   entry (lit "imos") (-1) 2;
   entry (lit "ar\u00E1s") (-1) 2;
   entry (lit "er\u00E1s") (-1) 2;
   entry (lit "ir\u00E1s") (-1) 2;
   entry (lit "\u00EDs") (-1) 2;
   entry (lit "ar\u00E1") (-1) 2;
   entry (lit "er\u00E1") (-1) 2;
   entry (lit "ir\u00E1") (-1) 2;
   entry (lit "ar\u00E9") (-1) 2;
   entry (lit "er\u00E9") (-1) 2;
   entry (lit "ir\u00E9") (-1) 2;
   entry (lit "i\u00F3") (-1) 2].

Definition a_9 : list (Among fields) :=
  [entry (lit "a") (-1) 1;
   entry (lit "e") (-1) 2;
   entry (lit "o") (-1) 1;
   entry (lit "os") (-1) 1;
   entry (lit "\u00E1") (-1) 1;
   entry (lit "\u00E9") (-1) 2;
   entry (lit "\u00ED") (-1) 1;
   entry (lit "\u00F3") (-1) 1].

Definition g_v : list Z := [17; 65; 16; 0; 0; 0; 0; 0; 0; 0; 0; 0; 0; 0; 0; 0; 1; 17; 4; 10].

Definition r_mark_regions : test fields := method (
  put (λ st, set_I_pV (limit st) (own st)) ;;
  put (λ st, set_I_p1 (limit st) (own st)) ;;
  put (λ st, set_I_p2 (limit st) (own st)) ;;
  var v_1 := cursor ;;
  block 0 (
    block 1 (
      var v_2 := cursor ;;
      block 2 (
        unless (grouping g_v 97 252) (break_ 2) ;;
        block 3 (
          var v_3 := cursor ;;
          block 4 (
            unless (non_grouping g_v 97 252) (break_ 4) ;;
            forever 5 (
              block 6 (
                unless (grouping g_v 97 252) (break_ 6) ;;
                break_ 5) ;;
              when (λ st, limit st <=? cursor st) (break_ 4) ;;
              cursor_next) ;;
            break_ 3) ;;
          cursor_to v_3 ;;
          unless (grouping g_v 97 252) (break_ 2) ;;
          forever 7 (
            block 8 (
              unless (non_grouping g_v 97 252) (break_ 8) ;;
              break_ 7) ;;
            when (λ st, limit st <=? cursor st) (break_ 2) ;;
            cursor_next)) ;;
        break_ 1) ;;
      cursor_to v_2 ;;
      unless (non_grouping g_v 97 252) (break_ 0) ;;
      block 9 (
        var v_6 := cursor ;;
        block 10 (
          unless (non_grouping g_v 97 252) (break_ 10) ;;
          forever 11 (
            block 12 (
              unless (grouping g_v 97 252) (break_ 12) ;;
              break_ 11) ;;
            when (λ st, limit st <=? cursor st) (break_ 10) ;;
            cursor_next) ;;
          break_ 9) ;;
        cursor_to v_6 ;;
        unless (grouping g_v 97 252) (break_ 0) ;;
        when (λ st, limit st <=? cursor st) (break_ 0) ;;
        cursor_next)) ;;
    put (λ st, set_I_pV (cursor st) (own st))) ;;
  cursor_to v_1 ;;
  var v_8 := cursor ;;
  block 13 (
    forever 14 (
      block 15 (
        unless (grouping g_v 97 252) (break_ 15) ;;
        break_ 14) ;;
      when (λ st, limit st <=? cursor st) (break_ 13) ;;
      cursor_next) ;;
    forever 16 (
      block 17 (
        unless (non_grouping g_v 97 252) (break_ 17) ;;
        break_ 16) ;;
      when (λ st, limit st <=? cursor st) (break_ 13) ;;
      cursor_next) ;;
    put (λ st, set_I_p1 (cursor st) (own st)) ;;
    forever 18 (
      block 19 (
        unless (grouping g_v 97 252) (break_ 19) ;;
        break_ 18) ;;
      when (λ st, limit st <=? cursor st) (break_ 13) ;;
      cursor_next) ;;
    forever 20 (
      block 21 (
        unless (non_grouping g_v 97 252) (break_ 21) ;;
        break_ 20) ;;
      when (λ st, limit st <=? cursor st) (break_ 13) ;;
      cursor_next) ;;
    put (λ st, set_I_p2 (cursor st) (own st))) ;;
  cursor_to v_8 ;;
  return_ true).

Definition r_postlude : test fields := method (
  forever 0 (
    var v_1 := cursor ;;
    block 1 (
      bra_cursor ;;
      var among_var in among a_0 6 ;;
      when (λ st, among_var =? 0) (break_ 1) ;;
      ket_cursor ;;
      switch among_var [
        (0, break_ 1);
        (1, unless (replace (lit "a")) (return_ false));
        (2, unless (replace (lit "e")) (return_ false));
        (3, unless (replace (lit "i")) (return_ false));
        (4, unless (replace (lit "o")) (return_ false));
        (5, unless (replace (lit "u")) (return_ false));
        (6,
          when (λ st, limit st <=? cursor st) (break_ 1) ;;
          cursor_next)] ;;
      continue_ 0) ;;
    cursor_to v_1 ;;
    break_ 0) ;;
  return_ true).

Definition r_RV : test fields := method (
  when (λ st, negb (I_pV (own st) <=? cursor st)) (return_ false) ;;
  return_ true).

Definition r_R1 : test fields := method (
  when (λ st, negb (I_p1 (own st) <=? cursor st)) (return_ false) ;;
  return_ true).

Definition r_R2 : test fields := method (
  when (λ st, negb (I_p2 (own st) <=? cursor st)) (return_ false) ;;
  return_ true).

Definition r_attached_pronoun : test fields := method (
  ket_cursor ;;
  unless (some (among_b a_1 13)) (return_ false) ;;
  bra_cursor ;;
  var among_var in among_b a_2 11 ;;
  when (λ st, among_var =? 0) (return_ false) ;;
  unless (call r_RV) (return_ false) ;;
  switch among_var [
    (0, return_ false);
    (1,
      bra_cursor ;;
      unless (replace (lit "iendo")) (return_ false));
    (2,
      bra_cursor ;;
      unless (replace (lit "ando")) (return_ false));
    (3,
      bra_cursor ;;
      unless (replace (lit "ar")) (return_ false));
    (4,
      bra_cursor ;;
      unless (replace (lit "er")) (return_ false));
    (5,
      bra_cursor ;;
      unless (replace (lit "ir")) (return_ false));
    (6, unless delete (return_ false));
    (7,
      unless (equal_b 1 (lit "u")) (return_ false) ;;
      unless delete (return_ false))] ;;
  return_ true).

Definition r_standard_suffix : test fields := method (
  ket_cursor ;;
  var among_var in among_b a_6 46 ;;
  when (λ st, among_var =? 0) (return_ false) ;;
  bra_cursor ;;
  switch among_var [
    (0, return_ false);
    (1,
      unless (call r_R2) (return_ false) ;;
      unless delete (return_ false));
    (2,
      unless (call r_R2) (return_ false) ;;
      unless delete (return_ false) ;;
      var v_1 := from_end ;;
      block 0 (
        ket_cursor ;;
        unless (equal_b 2 (lit "ic")) (
          cursor_back v_1 ;;
          break_ 0) ;;
        bra_cursor ;;
        unless (call r_R2) (
          cursor_back v_1 ;;
          break_ 0) ;;
        unless delete (return_ false)));
    (3,
      unless (call r_R2) (return_ false) ;;
      unless (replace (lit "log")) (return_ false));
    (4,
      unless (call r_R2) (return_ false) ;;
      unless (replace (lit "u")) (return_ false));
    (5,
      unless (call r_R2) (return_ false) ;;
      unless (replace (lit "ente")) (return_ false));
    (6,
      unless (call r_R1) (return_ false) ;;
      unless delete (return_ false) ;;
      var v_2 := from_end ;;
      block 1 (
        ket_cursor ;;
        var among_var in among_b a_3 4 ;;
        when (λ st, among_var =? 0) (
          cursor_back v_2 ;;
          break_ 1) ;;
        bra_cursor ;;
        unless (call r_R2) (
          cursor_back v_2 ;;
          break_ 1) ;;
        unless delete (return_ false) ;;
        switch among_var [
          (0,
            cursor_back v_2 ;;
            break_ 1);
          (1,
            ket_cursor ;;
            unless (equal_b 2 (lit "at")) (
              cursor_back v_2 ;;
              break_ 1) ;;
            bra_cursor ;;
            unless (call r_R2) (
              cursor_back v_2 ;;
              break_ 1) ;;
            unless delete (return_ false))]));
    (7,
      unless (call r_R2) (return_ false) ;;
      unless delete (return_ false) ;;
      var v_3 := from_end ;;
      block 2 (
        ket_cursor ;;
        var among_var in among_b a_4 3 ;;
        when (λ st, among_var =? 0) (
          cursor_back v_3 ;;
          break_ 2) ;;
        bra_cursor ;;
        switch among_var [
          (0,
            cursor_back v_3 ;;
            break_ 2);
          (1,
            unless (call r_R2) (
              cursor_back v_3 ;;
              break_ 2) ;;
            unless delete (return_ false))]));
    (8,
      unless (call r_R2) (return_ false) ;;
      unless delete (return_ false) ;;
      var v_4 := from_end ;;
      block 3 (
        ket_cursor ;;
        var among_var in among_b a_5 3 ;;
        when (λ st, among_var =? 0) (
          cursor_back v_4 ;;
          break_ 3) ;;
        bra_cursor ;;
        switch among_var [
          (0,
            cursor_back v_4 ;;
            break_ 3);
          (1,
            unless (call r_R2) (
              cursor_back v_4 ;;
              break_ 3) ;;
            unless delete (return_ false))]));
    (9,
      unless (call r_R2) (return_ false) ;;
      unless delete (return_ false) ;;
      var v_5 := from_end ;;
      block 4 (
        ket_cursor ;;
        unless (equal_b 2 (lit "at")) (
          cursor_back v_5 ;;
          break_ 4) ;;
        bra_cursor ;;
        unless (call r_R2) (
          cursor_back v_5 ;;
          break_ 4) ;;
        unless delete (return_ false)))] ;;
  return_ true).

Definition r_y_verb_suffix : test fields := method (
  var v_1 := from_end ;;
  when (λ st, cursor st <? I_pV (own st)) (return_ false) ;;
  cursor_mark I_pV ;;
  var v_2 := limit_backward ;;
  backward_cursor ;;
  cursor_back v_1 ;;
  ket_cursor ;;
  var among_var in among_b a_7 12 ;;
  when (λ st, among_var =? 0) (
    backward_to v_2 ;;
    return_ false) ;;
  bra_cursor ;;
  backward_to v_2 ;;
  switch among_var [
    (0, return_ false);
    (1,
      unless (equal_b 1 (lit "u")) (return_ false) ;;
      unless delete (return_ false))] ;;
  return_ true).

Definition r_verb_suffix : test fields := method (
  var v_1 := from_end ;;
  when (λ st, cursor st <? I_pV (own st)) (return_ false) ;;
  cursor_mark I_pV ;;
  var v_2 := limit_backward ;;
  backward_cursor ;;
  cursor_back v_1 ;;
  ket_cursor ;;
  var among_var in among_b a_8 96 ;;
  when (λ st, among_var =? 0) (
    backward_to v_2 ;;
    return_ false) ;;
  bra_cursor ;;
  backward_to v_2 ;;
  switch among_var [
    (0, return_ false);
    (1,
      var v_3 := from_end ;;
      block 0 (
        unless (equal_b 1 (lit "u")) (
          cursor_back v_3 ;;
          break_ 0) ;;
        var v_4 := from_end ;;
        unless (equal_b 1 (lit "g")) (
          cursor_back v_3 ;;
          break_ 0) ;;
        cursor_back v_4) ;;
      bra_cursor ;;
      unless delete (return_ false));
    (2, unless delete (return_ false))] ;;
  return_ true).

Definition r_residual_suffix : test fields := method (
  ket_cursor ;;
  var among_var in among_b a_9 8 ;;
  when (λ st, among_var =? 0) (return_ false) ;;
  bra_cursor ;;
  switch among_var [
    (0, return_ false);
    (1,
      unless (call r_RV) (return_ false) ;;
      unless delete (return_ false));
    (2,
      unless (call r_RV) (return_ false) ;;
      unless delete (return_ false) ;;
      var v_1 := from_end ;;
      block 0 (
        ket_cursor ;;
        unless (equal_b 1 (lit "u")) (
          cursor_back v_1 ;;
          break_ 0) ;;
        bra_cursor ;;
        var v_2 := from_end ;;
        unless (equal_b 1 (lit "g")) (
          cursor_back v_1 ;;
          break_ 0) ;;
        cursor_back v_2 ;;
        unless (call r_RV) (
          cursor_back v_1 ;;
          break_ 0) ;;
        unless delete (return_ false)))] ;;
  return_ true).

Definition stem : test fields := method (
  var v_1 := cursor ;;
  block 0 (unless (call r_mark_regions) (break_ 0)) ;;
  cursor_to v_1 ;;
  backward_cursor ;;
  cursor_limit ;;
  var v_2 := from_end ;;
  block 1 (unless (call r_attached_pronoun) (break_ 1)) ;;
  cursor_back v_2 ;;
  var v_3 := from_end ;;
  block 2 (
    block 3 (
      var v_4 := from_end ;;
      block 4 (
        unless (call r_standard_suffix) (break_ 4) ;;
        break_ 3) ;;
      cursor_back v_4 ;;
      block 5 (
        unless (call r_y_verb_suffix) (break_ 5) ;;
        break_ 3) ;;
      cursor_back v_4 ;;
      unless (call r_verb_suffix) (break_ 2))) ;;
  cursor_back v_3 ;;
  var v_5 := from_end ;;
  block 6 (unless (call r_residual_suffix) (break_ 6)) ;;
  cursor_back v_5 ;;
  cursor_backward ;;
  var v_6 := cursor ;;
  block 7 (unless (call r_postlude) (break_ 7)) ;;
  cursor_to v_6 ;;
  return_ true).

Definition copy_from (st other : Stemmer.t fields) : Stemmer.t fields :=
  Stemmer.copy_from (set_own st {| I_p2 := I_p2 (own other); I_p1 := I_p1 (own other); I_pV := I_pV (own other) |}) other.

Definition new : Stemmer.t fields := Stemmer.new {| I_p2 := 0; I_p1 := 0; I_pV := 0 |}.

(** ** The methods return and do not depend on earlier words *)

(** Two runs agree on [I_p2], [I_p1] and [I_pV], where the mark is not below the
    limit. *)
Definition live (lb : Z) (x x2 : fields) : Prop :=
  I_p2 x2 = I_p2 x ∧ I_p1 x2 = I_p1 x ∧ I_pV x2 = I_pV x ∧ lb ≤ I_pV x.
Ltac rels k := first [k live | k (@any fields)].

#[global] Typeclasses Opaque r_mark_regions r_postlude r_RV r_R1 r_R2 r_attached_pronoun r_standard_suffix
  r_y_verb_suffix r_verb_suffix r_residual_suffix.

#[global] Instance r_mark_regions_ok : Edits Forward any live r_mark_regions.
Proof. snow_proof rels. Qed.
#[global] Instance r_postlude_ok : Edits Forward any any r_postlude.
Proof. snow_proof rels. Qed.
#[global] Instance r_RV_ok : Moves Backward live r_RV.
Proof. snow_proof rels. Qed.
#[global] Instance r_R1_ok : Moves Backward live r_R1.
Proof. snow_proof rels. Qed.
#[global] Instance r_R2_ok : Moves Backward live r_R2.
Proof. snow_proof rels. Qed.
#[global] Instance r_attached_pronoun_ok : Edits Backward live live r_attached_pronoun.
Proof. snow_proof rels. Qed.
#[global] Instance r_standard_suffix_ok : Edits Backward live live r_standard_suffix.
Proof. snow_proof rels. Qed.
#[global] Instance r_y_verb_suffix_ok : Edits Backward live live r_y_verb_suffix.
Proof. snow_proof rels. Qed.
#[global] Instance r_verb_suffix_ok : Edits Backward live live r_verb_suffix.
Proof. snow_proof rels. Qed.
#[global] Instance r_residual_suffix_ok : Edits Backward live live r_residual_suffix.
Proof. snow_proof rels. Qed.
#[global] Instance stem_ok : Stems stem.
Proof. snow_proof rels. Qed.

End Spanish.
