(* ===== verification/Turkish.v ===== *)
(** * The Turkish stemmer

    Model of [src/misc/oktavia/src/stemmer/turkish-stemmer.jsx], one of the
    stemmers that were generated from Snowball scripts: its tables of endings, its
    groups of letters and its methods, statement by statement.  The instances show
    that every method returns and that the stemmer does not depend on the words it
    stemmed before. *)

From S2P Require Import Prelude JsObject Suffixes BaseStemmer Snowball SnowballRules.

Local Open Scope Z_scope.
Local Open Scope snow_scope.

Module Turkish.
Import Stemmer Snow Rules.

(** ** Model *)

Record fields := { B_continue_stemming_noun_suffixes : bool; I_strlen : Z }.

Definition set_B_continue_stemming_noun_suffixes (v : bool) (x : fields) : fields :=
  {| B_continue_stemming_noun_suffixes := v; I_strlen := I_strlen x |}.
Definition set_I_strlen (v : Z) (x : fields) : fields :=
  {| B_continue_stemming_noun_suffixes := B_continue_stemming_noun_suffixes x; I_strlen := v |}.

Definition a_0 : list (Among fields) :=
  [entry (lit "m") (-1) (-1);
   entry (lit "n") (-1) (-1);
   entry (lit "miz") (-1) (-1);
   entry (lit "niz") (-1) (-1);
   entry (lit "muz") (-1) (-1);
   entry (lit "nuz") (-1) (-1);
   entry (lit "m\u00FCz") (-1) (-1);
   entry (lit "n\u00FCz") (-1) (-1);
   entry (lit "m\u0131z") (-1) (-1);
   entry (lit "n\u0131z") (-1) (-1)].

Definition a_1 : list (Among fields) :=
  [entry (lit "leri") (-1) (-1);
   entry (lit "lar\u0131") (-1) (-1)].

Definition a_2 : list (Among fields) :=
  [entry (lit "ni") (-1) (-1);
   entry (lit "nu") (-1) (-1);
   entry (lit "n\u00FC") (-1) (-1);
   entry (lit "n\u0131") (-1) (-1)].

Definition a_3 : list (Among fields) :=
  [entry (lit "in") (-1) (-1);
   entry (lit "un") (-1) (-1);
   entry (lit "\u00FCn") (-1) (-1);
   entry (lit "\u0131n") (-1) (-1)].

Definition a_4 : list (Among fields) :=
  [entry (lit "a") (-1) (-1);
   entry (lit "e") (-1) (-1)].

Definition a_5 : list (Among fields) :=
  [entry (lit "na") (-1) (-1);
   entry (lit "ne") (-1) (-1)].

Definition a_6 : list (Among fields) :=
  [entry (lit "da") (-1) (-1);
   entry (lit "ta") (-1) (-1);
   entry (lit "de") (-1) (-1);
   entry (lit "te") (-1) (-1)].

Definition a_7 : list (Among fields) :=
  [entry (lit "nda") (-1) (-1);
   entry (lit "nde") (-1) (-1)].

Definition a_8 : list (Among fields) :=
  [entry (lit "dan") (-1) (-1);
   entry (lit "tan") (-1) (-1);
   entry (lit "den") (-1) (-1);
   entry (lit "ten") (-1) (-1)].

Definition a_9 : list (Among fields) :=
  [entry (lit "ndan") (-1) (-1);
   entry (lit "nden") (-1) (-1)].

Definition a_10 : list (Among fields) :=
  [entry (lit "la") (-1) (-1);
   entry (lit "le") (-1) (-1)].

Definition a_11 : list (Among fields) :=
  [entry (lit "ca") (-1) (-1);
   entry (lit "ce") (-1) (-1)].

Definition a_12 : list (Among fields) :=
  [entry (lit "im") (-1) (-1);
   entry (lit "um") (-1) (-1);
   entry (lit "\u00FCm") (-1) (-1);
   entry (lit "\u0131m") (-1) (-1)].

Definition a_13 : list (Among fields) :=
  [entry (lit "sin") (-1) (-1);
   entry (lit "sun") (-1) (-1);
   entry (lit "s\u00FCn") (-1) (-1);
   entry (lit "s\u0131n") (-1) (-1)].

Definition a_14 : list (Among fields) :=
  [entry (lit "iz") (-1) (-1);
   entry (lit "uz") (-1) (-1);
   entry (lit "\u00FCz") (-1) (-1);
   entry (lit "\u0131z") (-1) (-1)].

Definition a_15 : list (Among fields) :=
  [entry (lit "siniz") (-1) (-1);
   entry (lit "sunuz") (-1) (-1);
   entry (lit "s\u00FCn\u00FCz") (-1) (-1);
   entry (lit "s\u0131n\u0131z") (-1) (-1)].

Definition a_16 : list (Among fields) :=
  [entry (lit "lar") (-1) (-1);
   entry (lit "ler") (-1) (-1)].

Definition a_17 : list (Among fields) :=
  [entry (lit "niz") (-1) (-1);
   entry (lit "nuz") (-1) (-1);
   entry (lit "n\u00FCz") (-1) (-1);
   entry (lit "n\u0131z") (-1) (-1)].

Definition a_18 : list (Among fields) :=
  [entry (lit "dir") (-1) (-1);
   entry (lit "tir") (-1) (-1);
   entry (lit "dur") (-1) (-1);
   entry (lit "tur") (-1) (-1);
   entry (lit "d\u00FCr") (-1) (-1);
   entry (lit "t\u00FCr") (-1) (-1);
   entry (lit "d\u0131r") (-1) (-1);
   entry (lit "t\u0131r") (-1) (-1)].

Definition a_19 : list (Among fields) :=
  [entry (lit "cas\u0131na") (-1) (-1);
   entry (lit "cesine") (-1) (-1)].

Definition a_20 : list (Among fields) :=
  [entry (lit "di") (-1) (-1);
   entry (lit "ti") (-1) (-1);
   entry (lit "dik") (-1) (-1);
   entry (lit "tik") (-1) (-1);
   entry (lit "duk") (-1) (-1);
   entry (lit "tuk") (-1) (-1);
   entry (lit "d\u00FCk") (-1) (-1);
   entry (lit "t\u00FCk") (-1) (-1);
   entry (lit "d\u0131k") (-1) (-1);
   entry (lit "t\u0131k") (-1) (-1);
   entry (lit "dim") (-1) (-1);
   entry (lit "tim") (-1) (-1);
   entry (lit "dum") (-1) (-1);
   entry (lit "tum") (-1) (-1);
   entry (lit "d\u00FCm") (-1) (-1);
   entry (lit "t\u00FCm") (-1) (-1);
   entry (lit "d\u0131m") (-1) (-1);
   entry (lit "t\u0131m") (-1) (-1);
   entry (lit "din") (-1) (-1);
   entry (lit "tin") (-1) (-1);
   entry (lit "dun") (-1) (-1);
   entry (lit "tun") (-1) (-1);
   entry (lit "d\u00FCn") (-1) (-1);
   entry (lit "t\u00FCn") (-1) (-1);
   entry (lit "d\u0131n") (-1) (-1);
   entry (lit "t\u0131n") (-1) (-1);
   entry (lit "du") (-1) (-1);
   entry (lit "tu") (-1) (-1);
   entry (lit "d\u00FC") (-1) (-1);
   entry (lit "t\u00FC") (-1) (-1);
   entry (lit "d\u0131") (-1) (-1);
   entry (lit "t\u0131") (-1) (-1)].

Definition a_21 : list (Among fields) :=
  [entry (lit "sa") (-1) (-1);
   entry (lit "se") (-1) (-1);
   entry (lit "sak") (-1) (-1);
   entry (lit "sek") (-1) (-1);
   entry (lit "sam") (-1) (-1);
   entry (lit "sem") (-1) (-1);
   entry (lit "san") (-1) (-1);
   entry (lit "sen") (-1) (-1)].

Definition a_22 : list (Among fields) :=
  [entry (lit "mi\u015F") (-1) (-1);
   entry (lit "mu\u015F") (-1) (-1);
   entry (lit "m\u00FC\u015F") (-1) (-1);
   entry (lit "m\u0131\u015F") (-1) (-1)].

Definition a_23 : list (Among fields) :=
  [entry (lit "b") (-1) 1;
   entry (lit "c") (-1) 2;
   entry (lit "d") (-1) 3;
   entry (lit "\u011F") (-1) 4].

Definition g_vowel : list Z := [17; 65; 16; 0; 0; 0; 0; 0; 0; 0; 0; 0; 0; 0; 0; 0; 0; 0; 32; 8; 0; 0; 0; 0; 0; 0; 1].
Definition g_U : list Z := [1; 16; 0; 0; 0; 0; 0; 0; 0; 0; 0; 0; 0; 0; 0; 0; 0; 0; 8; 0; 0; 0; 0; 0; 0; 1].
Definition g_vowel1 : list Z := [1; 64; 16; 0; 0; 0; 0; 0; 0; 0; 0; 0; 0; 0; 0; 0; 0; 0; 0; 0; 0; 0; 0; 0; 0; 0; 1].
Definition g_vowel2 : list Z := [17; 0; 0; 0; 0; 0; 0; 0; 0; 0; 0; 0; 0; 0; 0; 0; 0; 0; 130].
Definition g_vowel3 : list Z := [1; 0; 0; 0; 0; 0; 0; 0; 0; 0; 0; 0; 0; 0; 0; 0; 0; 0; 0; 0; 0; 0; 0; 0; 0; 0; 1].
Definition g_vowel4 : list Z := [17].
Definition g_vowel5 : list Z := [65].
Definition g_vowel6 : list Z := [65].

Definition r_check_vowel_harmony : test fields := method (
  var v_1 := from_end ;;
  forever 0 (
    var v_2 := from_end ;;
    block 1 (
      unless (grouping_b g_vowel 97 305) (break_ 1) ;;
      cursor_back v_2 ;;
      break_ 0) ;;
    cursor_back v_2 ;;
    when (λ st, cursor st <=? limit_backward st) (return_ false) ;;
    cursor_prev) ;;
  block 2 (
    var v_3 := from_end ;;
    block 3 (
      unless (equal_b 1 (lit "a")) (break_ 3) ;;
      forever 4 (
        var v_4 := from_end ;;
        block 5 (
          unless (grouping_b g_vowel1 97 305) (break_ 5) ;;
          cursor_back v_4 ;;
          break_ 4) ;;
        cursor_back v_4 ;;
        when (λ st, cursor st <=? limit_backward st) (break_ 3) ;;
        cursor_prev) ;;
      break_ 2) ;;
    cursor_back v_3 ;;
    block 6 (
      unless (equal_b 1 (lit "e")) (break_ 6) ;;
      forever 7 (
        var v_5 := from_end ;;
        block 8 (
          unless (grouping_b g_vowel2 101 252) (break_ 8) ;;
          cursor_back v_5 ;;
          break_ 7) ;;
        cursor_back v_5 ;;
        when (λ st, cursor st <=? limit_backward st) (break_ 6) ;;
        cursor_prev) ;;
      break_ 2) ;;
    cursor_back v_3 ;;
    block 9 (
      unless (equal_b 1 (lit "\u0131")) (break_ 9) ;;
      forever 10 (
        var v_6 := from_end ;;
        block 11 (
          unless (grouping_b g_vowel3 97 305) (break_ 11) ;;
          cursor_back v_6 ;;
          break_ 10) ;;
        cursor_back v_6 ;;
        when (λ st, cursor st <=? limit_backward st) (break_ 9) ;;
        cursor_prev) ;;
      break_ 2) ;;
    cursor_back v_3 ;;
    block 12 (
      unless (equal_b 1 (lit "i")) (break_ 12) ;;
      forever 13 (
        var v_7 := from_end ;;
        block 14 (
          unless (grouping_b g_vowel4 101 105) (break_ 14) ;;
          cursor_back v_7 ;;
          break_ 13) ;;
        cursor_back v_7 ;;
        when (λ st, cursor st <=? limit_backward st) (break_ 12) ;;
        cursor_prev) ;;
      break_ 2) ;;
    cursor_back v_3 ;;
    block 15 (
      unless (equal_b 1 (lit "o")) (break_ 15) ;;
      forever 16 (
        var v_8 := from_end ;;
        block 17 (
          unless (grouping_b g_vowel5 111 117) (break_ 17) ;;
          cursor_back v_8 ;;
          break_ 16) ;;
        cursor_back v_8 ;;
        when (λ st, cursor st <=? limit_backward st) (break_ 15) ;;
        cursor_prev) ;;
      break_ 2) ;;
    cursor_back v_3 ;;
    block 18 (
      unless (equal_b 1 (lit "\u00F6")) (break_ 18) ;;
      forever 19 (
        var v_9 := from_end ;;
        block 20 (
          unless (grouping_b g_vowel6 246 252) (break_ 20) ;;
          cursor_back v_9 ;;
          break_ 19) ;;
        cursor_back v_9 ;;
        when (λ st, cursor st <=? limit_backward st) (break_ 18) ;;
        cursor_prev) ;;
      break_ 2) ;;
    cursor_back v_3 ;;
    block 21 (
      unless (equal_b 1 (lit "u")) (break_ 21) ;;
      forever 22 (
        var v_10 := from_end ;;
        block 23 (
          unless (grouping_b g_vowel5 111 117) (break_ 23) ;;
          cursor_back v_10 ;;
          break_ 22) ;;
        cursor_back v_10 ;;
        when (λ st, cursor st <=? limit_backward st) (break_ 21) ;;
        cursor_prev) ;;
      break_ 2) ;;
    cursor_back v_3 ;;
    unless (equal_b 1 (lit "\u00FC")) (return_ false) ;;
    forever 24 (
      var v_11 := from_end ;;
      block 25 (
        unless (grouping_b g_vowel6 246 252) (break_ 25) ;;
        cursor_back v_11 ;;
        break_ 24) ;;
      cursor_back v_11 ;;
      when (λ st, cursor st <=? limit_backward st) (return_ false) ;;
      cursor_prev)) ;;
  cursor_back v_1 ;;
  return_ true).

Definition r_mark_suffix_with_optional_n_consonant : test fields := method (
  block 0 (
    var v_1 := from_end ;;
    block 1 (
      var v_2 := from_end ;;
      unless (equal_b 1 (lit "n")) (break_ 1) ;;
      cursor_back v_2 ;;
      when (λ st, cursor st <=? limit_backward st) (break_ 1) ;;
      cursor_prev ;;
      var v_3 := from_end ;;
      unless (grouping_b g_vowel 97 305) (break_ 1) ;;
      cursor_back v_3 ;;
      break_ 0) ;;
    cursor_back v_1 ;;
    var v_4 := from_end ;;
    block 2 (
      var v_5 := from_end ;;
      unless (equal_b 1 (lit "n")) (break_ 2) ;;
      cursor_back v_5 ;;
      return_ false) ;;
    cursor_back v_4 ;;
    var v_6 := from_end ;;
    when (λ st, cursor st <=? limit_backward st) (return_ false) ;;
    cursor_prev ;;
    var v_7 := from_end ;;
    unless (grouping_b g_vowel 97 305) (return_ false) ;;
    cursor_back v_7 ;;
    cursor_back v_6) ;;
  return_ true).

Definition r_mark_suffix_with_optional_s_consonant : test fields := method (
  block 0 (
    var v_1 := from_end ;;
    block 1 (
      var v_2 := from_end ;;
      unless (equal_b 1 (lit "s")) (break_ 1) ;;
      cursor_back v_2 ;;
      when (λ st, cursor st <=? limit_backward st) (break_ 1) ;;
      cursor_prev ;;
      var v_3 := from_end ;;
      unless (grouping_b g_vowel 97 305) (break_ 1) ;;
      cursor_back v_3 ;;
      break_ 0) ;;
    cursor_back v_1 ;;
    var v_4 := from_end ;;
    block 2 (
      var v_5 := from_end ;;
      unless (equal_b 1 (lit "s")) (break_ 2) ;;
      cursor_back v_5 ;;
      return_ false) ;;
    cursor_back v_4 ;;
    var v_6 := from_end ;;
    when (λ st, cursor st <=? limit_backward st) (return_ false) ;;
    cursor_prev ;;
    var v_7 := from_end ;;
    unless (grouping_b g_vowel 97 305) (return_ false) ;;
    cursor_back v_7 ;;
    cursor_back v_6) ;;
  return_ true).

Definition r_mark_suffix_with_optional_y_consonant : test fields := method (
  block 0 (
    var v_1 := from_end ;;
    block 1 (
      var v_2 := from_end ;;
      unless (equal_b 1 (lit "y")) (break_ 1) ;;
      cursor_back v_2 ;;
      when (λ st, cursor st <=? limit_backward st) (break_ 1) ;;
      cursor_prev ;;
      var v_3 := from_end ;;
      unless (grouping_b g_vowel 97 305) (break_ 1) ;;
      cursor_back v_3 ;;
      break_ 0) ;;
    cursor_back v_1 ;;
    var v_4 := from_end ;;
    block 2 (
      var v_5 := from_end ;;
      unless (equal_b 1 (lit "y")) (break_ 2) ;;
      cursor_back v_5 ;;
      return_ false) ;;
    cursor_back v_4 ;;
    var v_6 := from_end ;;
    when (λ st, cursor st <=? limit_backward st) (return_ false) ;;
    cursor_prev ;;
    var v_7 := from_end ;;
    unless (grouping_b g_vowel 97 305) (return_ false) ;;
    cursor_back v_7 ;;
    cursor_back v_6) ;;
  return_ true).

Definition r_mark_suffix_with_optional_U_vowel : test fields := method (
  block 0 (
    var v_1 := from_end ;;
    block 1 (
      var v_2 := from_end ;;
      unless (grouping_b g_U 105 305) (break_ 1) ;;
      cursor_back v_2 ;;
      when (λ st, cursor st <=? limit_backward st) (break_ 1) ;;
      cursor_prev ;;
      var v_3 := from_end ;;
      unless (non_grouping_b g_vowel 97 305) (break_ 1) ;;
      cursor_back v_3 ;;
      break_ 0) ;;
    cursor_back v_1 ;;
    var v_4 := from_end ;;
    block 2 (
      var v_5 := from_end ;;
      unless (grouping_b g_U 105 305) (break_ 2) ;;
      cursor_back v_5 ;;
      return_ false) ;;
    cursor_back v_4 ;;
    var v_6 := from_end ;;
    when (λ st, cursor st <=? limit_backward st) (return_ false) ;;
    cursor_prev ;;
    var v_7 := from_end ;;
    unless (non_grouping_b g_vowel 97 305) (return_ false) ;;
    cursor_back v_7 ;;
    cursor_back v_6) ;;
  return_ true).

Definition r_mark_possessives : test fields := method (
  unless (some (among_b a_0 10)) (return_ false) ;;
  unless (call r_mark_suffix_with_optional_U_vowel) (return_ false) ;;
  return_ true).

Definition r_mark_sU : test fields := method (
  unless (call r_check_vowel_harmony) (return_ false) ;;
  unless (grouping_b g_U 105 305) (return_ false) ;;
  unless (call r_mark_suffix_with_optional_s_consonant) (return_ false) ;;
  return_ true).

Definition r_mark_lArI : test fields := method (
  unless (some (among_b a_1 2)) (return_ false) ;;
  return_ true).

Definition r_mark_yU : test fields := method (
  unless (call r_check_vowel_harmony) (return_ false) ;;
  unless (grouping_b g_U 105 305) (return_ false) ;;
  unless (call r_mark_suffix_with_optional_y_consonant) (return_ false) ;;
  return_ true).

Definition r_mark_nU : test fields := method (
  unless (call r_check_vowel_harmony) (return_ false) ;;
  unless (some (among_b a_2 4)) (return_ false) ;;
  return_ true).

Definition r_mark_nUn : test fields := method (
  unless (call r_check_vowel_harmony) (return_ false) ;;
  unless (some (among_b a_3 4)) (return_ false) ;;
  unless (call r_mark_suffix_with_optional_n_consonant) (return_ false) ;;
  return_ true).

Definition r_mark_yA : test fields := method (
  unless (call r_check_vowel_harmony) (return_ false) ;;
  unless (some (among_b a_4 2)) (return_ false) ;;
  unless (call r_mark_suffix_with_optional_y_consonant) (return_ false) ;;
  return_ true).

Definition r_mark_nA : test fields := method (
  unless (call r_check_vowel_harmony) (return_ false) ;;
  unless (some (among_b a_5 2)) (return_ false) ;;
  return_ true).

Definition r_mark_DA : test fields := method (
  unless (call r_check_vowel_harmony) (return_ false) ;;
  unless (some (among_b a_6 4)) (return_ false) ;;
  return_ true).

Definition r_mark_ndA : test fields := method (
  unless (call r_check_vowel_harmony) (return_ false) ;;
  unless (some (among_b a_7 2)) (return_ false) ;;
  return_ true).

Definition r_mark_DAn : test fields := method (
  unless (call r_check_vowel_harmony) (return_ false) ;;
  unless (some (among_b a_8 4)) (return_ false) ;;
  return_ true).

Definition r_mark_ndAn : test fields := method (
  unless (call r_check_vowel_harmony) (return_ false) ;;
  unless (some (among_b a_9 2)) (return_ false) ;;
  return_ true).

Definition r_mark_ylA : test fields := method (
  unless (call r_check_vowel_harmony) (return_ false) ;;
  unless (some (among_b a_10 2)) (return_ false) ;;
  unless (call r_mark_suffix_with_optional_y_consonant) (return_ false) ;;
  return_ true).

Definition r_mark_ki : test fields := method (
  unless (equal_b 2 (lit "ki")) (return_ false) ;;
  return_ true).

Definition r_mark_ncA : test fields := method (
  unless (call r_check_vowel_harmony) (return_ false) ;;
  unless (some (among_b a_11 2)) (return_ false) ;;
  unless (call r_mark_suffix_with_optional_n_consonant) (return_ false) ;;
  return_ true).

Definition r_mark_yUm : test fields := method (
  unless (call r_check_vowel_harmony) (return_ false) ;;
  unless (some (among_b a_12 4)) (return_ false) ;;
  unless (call r_mark_suffix_with_optional_y_consonant) (return_ false) ;;
  return_ true).

Definition r_mark_sUn : test fields := method (
  unless (call r_check_vowel_harmony) (return_ false) ;;
  unless (some (among_b a_13 4)) (return_ false) ;;
  return_ true).

Definition r_mark_yUz : test fields := method (
  unless (call r_check_vowel_harmony) (return_ false) ;;
  unless (some (among_b a_14 4)) (return_ false) ;;
  unless (call r_mark_suffix_with_optional_y_consonant) (return_ false) ;;
  return_ true).

Definition r_mark_sUnUz : test fields := method (
  unless (some (among_b a_15 4)) (return_ false) ;;
  return_ true).

Definition r_mark_lAr : test fields := method (
  unless (call r_check_vowel_harmony) (return_ false) ;;
  unless (some (among_b a_16 2)) (return_ false) ;;
  return_ true).

Definition r_mark_nUz : test fields := method (
  unless (call r_check_vowel_harmony) (return_ false) ;;
  unless (some (among_b a_17 4)) (return_ false) ;;
  return_ true).

Definition r_mark_DUr : test fields := method (
  unless (call r_check_vowel_harmony) (return_ false) ;;
  unless (some (among_b a_18 8)) (return_ false) ;;
  return_ true).

Definition r_mark_cAsInA : test fields := method (
  unless (some (among_b a_19 2)) (return_ false) ;;
  return_ true).

Definition r_mark_yDU : test fields := method (
  unless (call r_check_vowel_harmony) (return_ false) ;;
  unless (some (among_b a_20 32)) (return_ false) ;;
  unless (call r_mark_suffix_with_optional_y_consonant) (return_ false) ;;
  return_ true).

Definition r_mark_ysA : test fields := method (
  unless (some (among_b a_21 8)) (return_ false) ;;
  unless (call r_mark_suffix_with_optional_y_consonant) (return_ false) ;;
  return_ true).

Definition r_mark_ymUs_ : test fields := method (
  unless (call r_check_vowel_harmony) (return_ false) ;;
  unless (some (among_b a_22 4)) (return_ false) ;;
  unless (call r_mark_suffix_with_optional_y_consonant) (return_ false) ;;
  return_ true).

Definition r_mark_yken : test fields := method (
  unless (equal_b 3 (lit "ken")) (return_ false) ;;
  unless (call r_mark_suffix_with_optional_y_consonant) (return_ false) ;;
  return_ true).

Definition r_stem_nominal_verb_suffixes : test fields := method (
  ket_cursor ;;
  put (λ st, set_B_continue_stemming_noun_suffixes true (own st)) ;;
  block 0 (
    var v_1 := from_end ;;
    block 1 (
      block 2 (
        var v_2 := from_end ;;
        block 3 (
          unless (call r_mark_ymUs_) (break_ 3) ;;
          break_ 2) ;;
        cursor_back v_2 ;;
        block 4 (
          unless (call r_mark_yDU) (break_ 4) ;;
          break_ 2) ;;
        cursor_back v_2 ;;
        block 5 (
          unless (call r_mark_ysA) (break_ 5) ;;
          break_ 2) ;;
        cursor_back v_2 ;;
        unless (call r_mark_yken) (break_ 1)) ;;
      break_ 0) ;;
    cursor_back v_1 ;;
    block 6 (
      unless (call r_mark_cAsInA) (break_ 6) ;;
      block 7 (
        var v_3 := from_end ;;
        block 8 (
          unless (call r_mark_sUnUz) (break_ 8) ;;
          break_ 7) ;;
        cursor_back v_3 ;;
        block 9 (
          unless (call r_mark_lAr) (break_ 9) ;;
          break_ 7) ;;
        cursor_back v_3 ;;
        block 10 (
          unless (call r_mark_yUm) (break_ 10) ;;
          break_ 7) ;;
        cursor_back v_3 ;;
        block 11 (
          unless (call r_mark_sUn) (break_ 11) ;;
          break_ 7) ;;
        cursor_back v_3 ;;
        block 12 (
          unless (call r_mark_yUz) (break_ 12) ;;
          break_ 7) ;;
        cursor_back v_3) ;;
      unless (call r_mark_ymUs_) (break_ 6) ;;
      break_ 0) ;;
    cursor_back v_1 ;;
    block 13 (
      unless (call r_mark_lAr) (break_ 13) ;;
      bra_cursor ;;
      unless delete (return_ false) ;;
      var v_4 := from_end ;;
      block 14 (
        ket_cursor ;;
        block 15 (
          var v_5 := from_end ;;
          block 16 (
            unless (call r_mark_DUr) (break_ 16) ;;
            break_ 15) ;;
          cursor_back v_5 ;;
          block 17 (
            unless (call r_mark_yDU) (break_ 17) ;;
            break_ 15) ;;
          cursor_back v_5 ;;
          block 18 (
            unless (call r_mark_ysA) (break_ 18) ;;
            break_ 15) ;;
          cursor_back v_5 ;;
          unless (call r_mark_ymUs_) (
            cursor_back v_4 ;;
            break_ 14))) ;;
      put (λ st, set_B_continue_stemming_noun_suffixes false (own st)) ;;
      break_ 0) ;;
    cursor_back v_1 ;;
    block 19 (
      unless (call r_mark_nUz) (break_ 19) ;;
      block 20 (
        var v_6 := from_end ;;
        block 21 (
          unless (call r_mark_yDU) (break_ 21) ;;
          break_ 20) ;;
        cursor_back v_6 ;;
        unless (call r_mark_ysA) (break_ 19)) ;;
      break_ 0) ;;
    cursor_back v_1 ;;
    block 22 (
      block 23 (
        var v_7 := from_end ;;
        block 24 (
          unless (call r_mark_sUnUz) (break_ 24) ;;
          break_ 23) ;;
        cursor_back v_7 ;;
        block 25 (
          unless (call r_mark_yUz) (break_ 25) ;;
          break_ 23) ;;
        cursor_back v_7 ;;
        block 26 (
          unless (call r_mark_sUn) (break_ 26) ;;
          break_ 23) ;;
        cursor_back v_7 ;;
        unless (call r_mark_yUm) (break_ 22)) ;;
      bra_cursor ;;
      unless delete (return_ false) ;;
      var v_8 := from_end ;;
      block 27 (
        ket_cursor ;;
        unless (call r_mark_ymUs_) (
          cursor_back v_8 ;;
          break_ 27)) ;;
      break_ 0) ;;
    cursor_back v_1 ;;
    unless (call r_mark_DUr) (return_ false) ;;
    bra_cursor ;;
    unless delete (return_ false) ;;
    var v_9 := from_end ;;
    block 28 (
      ket_cursor ;;
      block 29 (
        var v_10 := from_end ;;
        block 30 (
          unless (call r_mark_sUnUz) (break_ 30) ;;
          break_ 29) ;;
        cursor_back v_10 ;;
        block 31 (
          unless (call r_mark_lAr) (break_ 31) ;;
          break_ 29) ;;
        cursor_back v_10 ;;
        block 32 (
          unless (call r_mark_yUm) (break_ 32) ;;
          break_ 29) ;;
        cursor_back v_10 ;;
        block 33 (
          unless (call r_mark_sUn) (break_ 33) ;;
          break_ 29) ;;
        cursor_back v_10 ;;
        block 34 (
          unless (call r_mark_yUz) (break_ 34) ;;
          break_ 29) ;;
        cursor_back v_10) ;;
      unless (call r_mark_ymUs_) (
        cursor_back v_9 ;;
        break_ 28))) ;;
  bra_cursor ;;
  unless delete (return_ false) ;;
  return_ true).

Fixpoint r_stem_suffix_chain_before_ki_rec (fuel : nat) : test fields :=
  match fuel with
  | O => λ _, NoFuel
  | S fuel => method (
    ket_cursor ;;
    unless (call r_mark_ki) (return_ false) ;;
    block 0 (
      var v_1 := from_end ;;
      block 1 (
        unless (call r_mark_DA) (break_ 1) ;;
        bra_cursor ;;
        unless delete (return_ false) ;;
        var v_2 := from_end ;;
        block 2 (
          ket_cursor ;;
          block 3 (
            var v_3 := from_end ;;
            block 4 (
              unless (call r_mark_lAr) (break_ 4) ;;
              bra_cursor ;;
              unless delete (return_ false) ;;
              var v_4 := from_end ;;
              block 5 (
                unless (call (r_stem_suffix_chain_before_ki_rec fuel)) (
                  cursor_back v_4 ;;
                  break_ 5)) ;;
              break_ 3) ;;
            cursor_back v_3 ;;
            unless (call r_mark_possessives) (
              cursor_back v_2 ;;
              break_ 2) ;;
            bra_cursor ;;
            unless delete (return_ false) ;;
            var v_5 := from_end ;;
            block 6 (
              ket_cursor ;;
              unless (call r_mark_lAr) (
                cursor_back v_5 ;;
                break_ 6) ;;
              bra_cursor ;;
              unless delete (return_ false) ;;
              unless (call (r_stem_suffix_chain_before_ki_rec fuel)) (
                cursor_back v_5 ;;
                break_ 6)))) ;;
        break_ 0) ;;
      cursor_back v_1 ;;
      block 7 (
        unless (call r_mark_nUn) (break_ 7) ;;
        bra_cursor ;;
        unless delete (return_ false) ;;
        var v_6 := from_end ;;
        block 8 (
          ket_cursor ;;
          block 9 (
            var v_7 := from_end ;;
            block 10 (
              unless (call r_mark_lArI) (break_ 10) ;;
              bra_cursor ;;
              unless delete (return_ false) ;;
              break_ 9) ;;
            cursor_back v_7 ;;
            block 11 (
              ket_cursor ;;
              block 12 (
                var v_8 := from_end ;;
                block 13 (
                  unless (call r_mark_possessives) (break_ 13) ;;
                  break_ 12) ;;
                cursor_back v_8 ;;
                unless (call r_mark_sU) (break_ 11)) ;;
              bra_cursor ;;
              unless delete (return_ false) ;;
              var v_9 := from_end ;;
              block 14 (
                ket_cursor ;;
                unless (call r_mark_lAr) (
                  cursor_back v_9 ;;
                  break_ 14) ;;
                bra_cursor ;;
                unless delete (return_ false) ;;
                unless (call (r_stem_suffix_chain_before_ki_rec fuel)) (
                  cursor_back v_9 ;;
                  break_ 14)) ;;
              break_ 9) ;;
            cursor_back v_7 ;;
            unless (call (r_stem_suffix_chain_before_ki_rec fuel)) (
              cursor_back v_6 ;;
              break_ 8))) ;;
        break_ 0) ;;
      cursor_back v_1 ;;
      unless (call r_mark_ndA) (return_ false) ;;
      block 15 (
        var v_10 := from_end ;;
        block 16 (
          unless (call r_mark_lArI) (break_ 16) ;;
          bra_cursor ;;
          unless delete (return_ false) ;;
          break_ 15) ;;
        cursor_back v_10 ;;
        block 17 (
          unless (call r_mark_sU) (break_ 17) ;;
          bra_cursor ;;
          unless delete (return_ false) ;;
          var v_11 := from_end ;;
          block 18 (
            ket_cursor ;;
            unless (call r_mark_lAr) (
              cursor_back v_11 ;;
              break_ 18) ;;
            bra_cursor ;;
            unless delete (return_ false) ;;
            unless (call (r_stem_suffix_chain_before_ki_rec fuel)) (
              cursor_back v_11 ;;
              break_ 18)) ;;
          break_ 15) ;;
        cursor_back v_10 ;;
        unless (call (r_stem_suffix_chain_before_ki_rec fuel)) (return_ false))) ;;
    return_ true)
  end.

Definition r_stem_suffix_chain_before_ki : test fields := λ st, r_stem_suffix_chain_before_ki_rec (S (length (current st))) st.

Definition r_stem_noun_suffixes : test fields := method (
  block 0 (
    var v_1 := from_end ;;
    block 1 (
      ket_cursor ;;
      unless (call r_mark_lAr) (break_ 1) ;;
      bra_cursor ;;
      unless delete (return_ false) ;;
      var v_2 := from_end ;;
      block 2 (
        unless (call r_stem_suffix_chain_before_ki) (
          cursor_back v_2 ;;
          break_ 2)) ;;
      break_ 0) ;;
    cursor_back v_1 ;;
    block 3 (
      ket_cursor ;;
      unless (call r_mark_ncA) (break_ 3) ;;
      bra_cursor ;;
      unless delete (return_ false) ;;
      var v_3 := from_end ;;
      block 4 (
        block 5 (
          var v_4 := from_end ;;
          block 6 (
            ket_cursor ;;
            unless (call r_mark_lArI) (break_ 6) ;;
            bra_cursor ;;
            unless delete (return_ false) ;;
            break_ 5) ;;
          cursor_back v_4 ;;
          block 7 (
            ket_cursor ;;
            block 8 (
              var v_5 := from_end ;;
              block 9 (
                unless (call r_mark_possessives) (break_ 9) ;;
                break_ 8) ;;
              cursor_back v_5 ;;
              unless (call r_mark_sU) (break_ 7)) ;;
            bra_cursor ;;
            unless delete (return_ false) ;;
            var v_6 := from_end ;;
            block 10 (
              ket_cursor ;;
              unless (call r_mark_lAr) (
                cursor_back v_6 ;;
                break_ 10) ;;
              bra_cursor ;;
              unless delete (return_ false) ;;
              unless (call r_stem_suffix_chain_before_ki) (
                cursor_back v_6 ;;
                break_ 10)) ;;
            break_ 5) ;;
          cursor_back v_4 ;;
          ket_cursor ;;
          unless (call r_mark_lAr) (
            cursor_back v_3 ;;
            break_ 4) ;;
          bra_cursor ;;
          unless delete (return_ false) ;;
          unless (call r_stem_suffix_chain_before_ki) (
            cursor_back v_3 ;;
            break_ 4))) ;;
      break_ 0) ;;
    cursor_back v_1 ;;
    block 11 (
      ket_cursor ;;
      block 12 (
        var v_7 := from_end ;;
        block 13 (
          unless (call r_mark_ndA) (break_ 13) ;;
          break_ 12) ;;
        cursor_back v_7 ;;
        unless (call r_mark_nA) (break_ 11)) ;;
      block 14 (
        var v_8 := from_end ;;
        block 15 (
          unless (call r_mark_lArI) (break_ 15) ;;
          bra_cursor ;;
          unless delete (return_ false) ;;
          break_ 14) ;;
        cursor_back v_8 ;;
        block 16 (
          unless (call r_mark_sU) (break_ 16) ;;
          bra_cursor ;;
          unless delete (return_ false) ;;
          var v_9 := from_end ;;
          block 17 (
            ket_cursor ;;
            unless (call r_mark_lAr) (
              cursor_back v_9 ;;
              break_ 17) ;;
            bra_cursor ;;
            unless delete (return_ false) ;;
            unless (call r_stem_suffix_chain_before_ki) (
              cursor_back v_9 ;;
              break_ 17)) ;;
          break_ 14) ;;
        cursor_back v_8 ;;
        unless (call r_stem_suffix_chain_before_ki) (break_ 11)) ;;
      break_ 0) ;;
    cursor_back v_1 ;;
    block 18 (
      ket_cursor ;;
      block 19 (
        var v_10 := from_end ;;
        block 20 (
          unless (call r_mark_ndAn) (break_ 20) ;;
          break_ 19) ;;
        cursor_back v_10 ;;
        unless (call r_mark_nU) (break_ 18)) ;;
      block 21 (
        var v_11 := from_end ;;
        block 22 (
          unless (call r_mark_sU) (break_ 22) ;;
          bra_cursor ;;
          unless delete (return_ false) ;;
          var v_12 := from_end ;;
          block 23 (
            ket_cursor ;;
            unless (call r_mark_lAr) (
              cursor_back v_12 ;;
              break_ 23) ;;
            bra_cursor ;;
            unless delete (return_ false) ;;
            unless (call r_stem_suffix_chain_before_ki) (
              cursor_back v_12 ;;
              break_ 23)) ;;
          break_ 21) ;;
        cursor_back v_11 ;;
        unless (call r_mark_lArI) (break_ 18)) ;;
      break_ 0) ;;
    cursor_back v_1 ;;
    block 24 (
      ket_cursor ;;
      unless (call r_mark_DAn) (break_ 24) ;;
      bra_cursor ;;
      unless delete (return_ false) ;;
      var v_13 := from_end ;;
      block 25 (
        ket_cursor ;;
        block 26 (
          var v_14 := from_end ;;
          block 27 (
            unless (call r_mark_possessives) (break_ 27) ;;
            bra_cursor ;;
            unless delete (return_ false) ;;
            var v_15 := from_end ;;
            block 28 (
              ket_cursor ;;
              unless (call r_mark_lAr) (
                cursor_back v_15 ;;
                break_ 28) ;;
              bra_cursor ;;
              unless delete (return_ false) ;;
              unless (call r_stem_suffix_chain_before_ki) (
                cursor_back v_15 ;;
                break_ 28)) ;;
            break_ 26) ;;
          cursor_back v_14 ;;
          block 29 (
            unless (call r_mark_lAr) (break_ 29) ;;
            bra_cursor ;;
            unless delete (return_ false) ;;
            var v_16 := from_end ;;
            block 30 (
              unless (call r_stem_suffix_chain_before_ki) (
                cursor_back v_16 ;;
                break_ 30)) ;;
            break_ 26) ;;
          cursor_back v_14 ;;
          unless (call r_stem_suffix_chain_before_ki) (
            cursor_back v_13 ;;
            break_ 25))) ;;
      break_ 0) ;;
    cursor_back v_1 ;;
    block 31 (
      ket_cursor ;;
      block 32 (
        var v_17 := from_end ;;
        block 33 (
          unless (call r_mark_nUn) (break_ 33) ;;
          break_ 32) ;;
        cursor_back v_17 ;;
        unless (call r_mark_ylA) (break_ 31)) ;;
      bra_cursor ;;
      unless delete (return_ false) ;;
      var v_18 := from_end ;;
      block 34 (
        block 35 (
          var v_19 := from_end ;;
          block 36 (
            ket_cursor ;;
            unless (call r_mark_lAr) (break_ 36) ;;
            bra_cursor ;;
            unless delete (return_ false) ;;
            unless (call r_stem_suffix_chain_before_ki) (break_ 36) ;;
            break_ 35) ;;
          cursor_back v_19 ;;
          block 37 (
            ket_cursor ;;
            block 38 (
              var v_20 := from_end ;;
              block 39 (
                unless (call r_mark_possessives) (break_ 39) ;;
                break_ 38) ;;
              cursor_back v_20 ;;
              unless (call r_mark_sU) (break_ 37)) ;;
            bra_cursor ;;
            unless delete (return_ false) ;;
            var v_21 := from_end ;;
            block 40 (
              ket_cursor ;;
              unless (call r_mark_lAr) (
                cursor_back v_21 ;;
                break_ 40) ;;
              bra_cursor ;;
              unless delete (return_ false) ;;
              unless (call r_stem_suffix_chain_before_ki) (
                cursor_back v_21 ;;
                break_ 40)) ;;
            break_ 35) ;;
          cursor_back v_19 ;;
          unless (call r_stem_suffix_chain_before_ki) (
            cursor_back v_18 ;;
            break_ 34))) ;;
      break_ 0) ;;
    cursor_back v_1 ;;
    block 41 (
      ket_cursor ;;
      unless (call r_mark_lArI) (break_ 41) ;;
      bra_cursor ;;
      unless delete (return_ false) ;;
      break_ 0) ;;
    cursor_back v_1 ;;
    block 42 (
      unless (call r_stem_suffix_chain_before_ki) (break_ 42) ;;
      break_ 0) ;;
    cursor_back v_1 ;;
    block 43 (
      ket_cursor ;;
      block 44 (
        var v_22 := from_end ;;
        block 45 (
          unless (call r_mark_DA) (break_ 45) ;;
          break_ 44) ;;
        cursor_back v_22 ;;
        block 46 (
          unless (call r_mark_yU) (break_ 46) ;;
          break_ 44) ;;
        cursor_back v_22 ;;
        unless (call r_mark_yA) (break_ 43)) ;;
      bra_cursor ;;
      unless delete (return_ false) ;;
      var v_23 := from_end ;;
      block 47 (
        ket_cursor ;;
        block 48 (
          var v_24 := from_end ;;
          block 49 (
            unless (call r_mark_possessives) (break_ 49) ;;
            bra_cursor ;;
            unless delete (return_ false) ;;
            var v_25 := from_end ;;
            block 50 (
              ket_cursor ;;
              unless (call r_mark_lAr) (
                cursor_back v_25 ;;
                break_ 50)) ;;
            break_ 48) ;;
          cursor_back v_24 ;;
          unless (call r_mark_lAr) (
            cursor_back v_23 ;;
            break_ 47)) ;;
        bra_cursor ;;
        unless delete (return_ false) ;;
        ket_cursor ;;
        unless (call r_stem_suffix_chain_before_ki) (
          cursor_back v_23 ;;
          break_ 47)) ;;
      break_ 0) ;;
    cursor_back v_1 ;;
    ket_cursor ;;
    block 51 (
      var v_26 := from_end ;;
      block 52 (
        unless (call r_mark_possessives) (break_ 52) ;;
        break_ 51) ;;
      cursor_back v_26 ;;
      unless (call r_mark_sU) (return_ false)) ;;
    bra_cursor ;;
    unless delete (return_ false) ;;
    var v_27 := from_end ;;
    block 53 (
      ket_cursor ;;
      unless (call r_mark_lAr) (
        cursor_back v_27 ;;
        break_ 53) ;;
      bra_cursor ;;
      unless delete (return_ false) ;;
      unless (call r_stem_suffix_chain_before_ki) (
        cursor_back v_27 ;;
        break_ 53))) ;;
  return_ true).

Definition r_post_process_last_consonants : test fields := method (
  ket_cursor ;;
  var among_var in among_b a_23 4 ;;
  when (λ st, among_var =? 0) (return_ false) ;;
  bra_cursor ;;
  switch among_var [
    (0, return_ false);
    (1, unless (replace (lit "p")) (return_ false));
    (2, unless (replace (lit "\u00E7")) (return_ false));
    (3, unless (replace (lit "t")) (return_ false));
    (4, unless (replace (lit "k")) (return_ false))] ;;
  return_ true).

Definition r_append_U_to_stems_ending_with_d_or_g : test fields := method (
  var v_1 := from_end ;;
  block 0 (
    var v_2 := from_end ;;
    block 1 (
      unless (equal_b 1 (lit "d")) (break_ 1) ;;
      break_ 0) ;;
    cursor_back v_2 ;;
    unless (equal_b 1 (lit "g")) (return_ false)) ;;
  cursor_back v_1 ;;
  block 2 (
    var v_3 := from_end ;;
    block 3 (
      var v_4 := from_end ;;
      forever 4 (
        var v_5 := from_end ;;
        block 5 (
          unless (grouping_b g_vowel 97 305) (break_ 5) ;;
          cursor_back v_5 ;;
          break_ 4) ;;
        cursor_back v_5 ;;
        when (λ st, cursor st <=? limit_backward st) (break_ 3) ;;
        cursor_prev) ;;
      block 6 (
        var v_6 := from_end ;;
        block 7 (
          unless (equal_b 1 (lit "a")) (break_ 7) ;;
          break_ 6) ;;
        cursor_back v_6 ;;
        unless (equal_b 1 (lit "\u0131")) (break_ 3)) ;;
      cursor_back v_4 ;;
      var c := (λ st, cursor st) ;;
      insert_here (lit "\u0131") ;;
      cursor_to c ;;
      break_ 2) ;;
    cursor_back v_3 ;;
    block 8 (
      var v_7 := from_end ;;
      forever 9 (
        var v_8 := from_end ;;
        block 10 (
          unless (grouping_b g_vowel 97 305) (break_ 10) ;;
          cursor_back v_8 ;;
          break_ 9) ;;
        cursor_back v_8 ;;
        when (λ st, cursor st <=? limit_backward st) (break_ 8) ;;
        cursor_prev) ;;
      block 11 (
        var v_9 := from_end ;;
        block 12 (
          unless (equal_b 1 (lit "e")) (break_ 12) ;;
          break_ 11) ;;
        cursor_back v_9 ;;
        unless (equal_b 1 (lit "i")) (break_ 8)) ;;
      cursor_back v_7 ;;
      var c := (λ st, cursor st) ;;
      insert_here (lit "i") ;;
      cursor_to c ;;
      break_ 2) ;;
    cursor_back v_3 ;;
    block 13 (
      var v_10 := from_end ;;
      forever 14 (
        var v_11 := from_end ;;
        block 15 (
          unless (grouping_b g_vowel 97 305) (break_ 15) ;;
          cursor_back v_11 ;;
          break_ 14) ;;
        cursor_back v_11 ;;
        when (λ st, cursor st <=? limit_backward st) (break_ 13) ;;
        cursor_prev) ;;
      block 16 (
        var v_12 := from_end ;;
        block 17 (
          unless (equal_b 1 (lit "o")) (break_ 17) ;;
          break_ 16) ;;
        cursor_back v_12 ;;
        unless (equal_b 1 (lit "u")) (break_ 13)) ;;
      cursor_back v_10 ;;
      var c := (λ st, cursor st) ;;
      insert_here (lit "u") ;;
      cursor_to c ;;
      break_ 2) ;;
    cursor_back v_3 ;;
    var v_13 := from_end ;;
    forever 18 (
      var v_14 := from_end ;;
      block 19 (
        unless (grouping_b g_vowel 97 305) (break_ 19) ;;
        cursor_back v_14 ;;
        break_ 18) ;;
      cursor_back v_14 ;;
      when (λ st, cursor st <=? limit_backward st) (return_ false) ;;
      cursor_prev) ;;
    block 20 (
      var v_15 := from_end ;;
      block 21 (
        unless (equal_b 1 (lit "\u00F6")) (break_ 21) ;;
        break_ 20) ;;
      cursor_back v_15 ;;
      unless (equal_b 1 (lit "\u00FC")) (return_ false)) ;;
    cursor_back v_13 ;;
    var c := (λ st, cursor st) ;;
    insert_here (lit "\u00FC") ;;
    cursor_to c) ;;
  return_ true).

Definition r_more_than_one_syllable_word : test fields := method (
  var v_1 := cursor ;;
  at_least 2 0 (
    var v_3 := cursor ;;
    block 1 (
      forever 2 (
        block 3 (
          unless (grouping g_vowel 97 305) (break_ 3) ;;
          break_ 2) ;;
        when (λ st, limit st <=? cursor st) (break_ 1) ;;
        cursor_next) ;;
      continue_ 0) ;;
    cursor_to v_3 ;;
    break_ 0) (λ v_2,
  when (λ st, 0 <? v_2) (return_ false) ;;
  cursor_to v_1 ;;
  return_ true)).

Definition r_is_reserved_word : test fields := method (
  block 0 (
    var v_1 := cursor ;;
    block 1 (
      var v_2 := cursor ;;
      forever 2 (
        block 3 (
          unless (equal 2 (lit "ad")) (break_ 3) ;;
          break_ 2) ;;
        when (λ st, limit st <=? cursor st) (break_ 1) ;;
        cursor_next) ;;
      put (λ st, set_I_strlen 2 (own st)) ;;
      when (λ st, negb (I_strlen (own st) =? limit st)) (break_ 1) ;;
      cursor_to v_2 ;;
      break_ 0) ;;
    cursor_to v_1 ;;
    var v_4 := cursor ;;
    forever 4 (
      block 5 (
        unless (equal 5 (lit "soyad")) (break_ 5) ;;
        break_ 4) ;;
      when (λ st, limit st <=? cursor st) (return_ false) ;;
      cursor_next) ;;
    put (λ st, set_I_strlen 5 (own st)) ;;
    when (λ st, negb (I_strlen (own st) =? limit st)) (return_ false) ;;
    cursor_to v_4) ;;
  return_ true).

Definition r_postlude : test fields := method (
  var v_1 := cursor ;;
  block 0 (
    unless (call r_is_reserved_word) (break_ 0) ;;
    return_ false) ;;
  cursor_to v_1 ;;
  backward_cursor ;;
  cursor_limit ;;
  var v_2 := from_end ;;
  block 1 (unless (call r_append_U_to_stems_ending_with_d_or_g) (break_ 1)) ;;
  cursor_back v_2 ;;
  var v_3 := from_end ;;
  block 2 (unless (call r_post_process_last_consonants) (break_ 2)) ;;
  cursor_back v_3 ;;
  cursor_backward ;;
  return_ true).

Definition stem : test fields := method (
  unless (call r_more_than_one_syllable_word) (return_ false) ;;
  backward_cursor ;;
  cursor_limit ;;
  var v_1 := from_end ;;
  block 0 (unless (call r_stem_nominal_verb_suffixes) (break_ 0)) ;;
  cursor_back v_1 ;;
  when (λ st, negb (B_continue_stemming_noun_suffixes (own st))) (return_ false) ;;
  var v_2 := from_end ;;
  block 1 (unless (call r_stem_noun_suffixes) (break_ 1)) ;;
  cursor_back v_2 ;;
  cursor_backward ;;
  unless (call r_postlude) (return_ false) ;;
  return_ true).

Definition copy_from (st other : Stemmer.t fields) : Stemmer.t fields :=
  Stemmer.copy_from (set_own st {| B_continue_stemming_noun_suffixes := B_continue_stemming_noun_suffixes (own other); I_strlen := I_strlen (own other) |}) other.

Definition new : Stemmer.t fields := Stemmer.new {| B_continue_stemming_noun_suffixes := false; I_strlen := 0 |}.

(** ** The methods return and do not depend on earlier words *)

(** Two runs agree on [B_continue_stemming_noun_suffixes]. *)
Definition live (lb : Z) (x x2 : fields) : Prop :=
  B_continue_stemming_noun_suffixes x2 = B_continue_stemming_noun_suffixes x.
Ltac rels k := first [k live | k (@any fields)].

#[global] Typeclasses Opaque r_check_vowel_harmony r_mark_suffix_with_optional_n_consonant
  r_mark_suffix_with_optional_s_consonant r_mark_suffix_with_optional_y_consonant r_mark_suffix_with_optional_U_vowel
  r_mark_possessives r_mark_sU r_mark_lArI r_mark_yU r_mark_nU r_mark_nUn r_mark_yA r_mark_nA r_mark_DA r_mark_ndA
  r_mark_DAn r_mark_ndAn r_mark_ylA r_mark_ki r_mark_ncA r_mark_yUm r_mark_sUn r_mark_yUz r_mark_sUnUz r_mark_lAr
  r_mark_nUz r_mark_DUr r_mark_cAsInA r_mark_yDU r_mark_ysA r_mark_ymUs_ r_mark_yken r_stem_nominal_verb_suffixes
  r_stem_suffix_chain_before_ki r_stem_noun_suffixes r_post_process_last_consonants
  r_append_U_to_stems_ending_with_d_or_g r_more_than_one_syllable_word r_is_reserved_word r_postlude
  r_stem_suffix_chain_before_ki_rec.

#[global] Instance r_check_vowel_harmony_ok : Moves Backward any r_check_vowel_harmony.
Proof. snow_proof rels. Qed.
#[global] Instance r_mark_suffix_with_optional_n_consonant_ok : Moves Backward any r_mark_suffix_with_optional_n_consonant.
Proof. snow_proof rels. Qed.
#[global] Instance r_mark_suffix_with_optional_s_consonant_ok : Moves Backward any r_mark_suffix_with_optional_s_consonant.
Proof. snow_proof rels. Qed.
#[global] Instance r_mark_suffix_with_optional_y_consonant_ok : Moves Backward any r_mark_suffix_with_optional_y_consonant.
Proof. snow_proof rels. Qed.
#[global] Instance r_mark_suffix_with_optional_U_vowel_ok : Moves Backward any r_mark_suffix_with_optional_U_vowel.
Proof. snow_proof rels. Qed.
#[global] Instance r_mark_possessives_ok : Moves Backward any r_mark_possessives.
Proof. snow_proof rels. Qed.
#[global] Instance r_mark_sU_ok : Moves Backward any r_mark_sU.
Proof. snow_proof rels. Qed.
#[global] Instance r_mark_lArI_ok : Moves Backward any r_mark_lArI.
Proof. snow_proof rels. Qed.
#[global] Instance r_mark_yU_ok : Moves Backward any r_mark_yU.
Proof. snow_proof rels. Qed.
#[global] Instance r_mark_nU_ok : Moves Backward any r_mark_nU.
Proof. snow_proof rels. Qed.
#[global] Instance r_mark_nUn_ok : Moves Backward any r_mark_nUn.
Proof. snow_proof rels. Qed.
#[global] Instance r_mark_yA_ok : Moves Backward any r_mark_yA.
Proof. snow_proof rels. Qed.
#[global] Instance r_mark_nA_ok : Moves Backward any r_mark_nA.
Proof. snow_proof rels. Qed.
#[global] Instance r_mark_DA_ok : Moves Backward any r_mark_DA.
Proof. snow_proof rels. Qed.
#[global] Instance r_mark_ndA_ok : Moves Backward any r_mark_ndA.
Proof. snow_proof rels. Qed.
#[global] Instance r_mark_DAn_ok : Moves Backward any r_mark_DAn.
Proof. snow_proof rels. Qed.
#[global] Instance r_mark_ndAn_ok : Moves Backward any r_mark_ndAn.
Proof. snow_proof rels. Qed.
#[global] Instance r_mark_ylA_ok : Moves Backward any r_mark_ylA.
Proof. snow_proof rels. Qed.
#[global] Instance r_mark_ncA_ok : Moves Backward any r_mark_ncA.
Proof. snow_proof rels. Qed.
#[global] Instance r_mark_yUm_ok : Moves Backward any r_mark_yUm.
Proof. snow_proof rels. Qed.
#[global] Instance r_mark_sUn_ok : Moves Backward any r_mark_sUn.
Proof. snow_proof rels. Qed.
#[global] Instance r_mark_yUz_ok : Moves Backward any r_mark_yUz.
Proof. snow_proof rels. Qed.
#[global] Instance r_mark_sUnUz_ok : Moves Backward any r_mark_sUnUz.
Proof. snow_proof rels. Qed.
#[global] Instance r_mark_lAr_ok : Moves Backward any r_mark_lAr.
Proof. snow_proof rels. Qed.
#[global] Instance r_mark_nUz_ok : Moves Backward any r_mark_nUz.
Proof. snow_proof rels. Qed.
#[global] Instance r_mark_DUr_ok : Moves Backward any r_mark_DUr.
Proof. snow_proof rels. Qed.
#[global] Instance r_mark_cAsInA_ok : Moves Backward any r_mark_cAsInA.
Proof. snow_proof rels. Qed.
#[global] Instance r_mark_yDU_ok : Moves Backward any r_mark_yDU.
Proof. snow_proof rels. Qed.
#[global] Instance r_mark_ysA_ok : Moves Backward any r_mark_ysA.
Proof. snow_proof rels. Qed.
#[global] Instance r_mark_ymUs__ok : Moves Backward any r_mark_ymUs_.
Proof. snow_proof rels. Qed.
#[global] Instance r_mark_yken_ok : Moves Backward any r_mark_yken.
Proof. snow_proof rels. Qed.
#[global] Instance r_stem_nominal_verb_suffixes_ok : Edits Backward any live r_stem_nominal_verb_suffixes.
Proof. snow_proof rels. Qed.
#[global] Instance r_stem_suffix_chain_before_ki_rec_ok fuel : Within (Z.of_nat fuel) any any (r_stem_suffix_chain_before_ki_rec fuel).
Proof.
  induction fuel as [|fuel IH]; [intros ????? (? & ? & ?) ? ?; lia|]. cbn [r_stem_suffix_chain_before_ki_rec]. snow_within rels.
Qed.
#[global] Instance r_stem_suffix_chain_before_ki_ok : Edits Backward any any r_stem_suffix_chain_before_ki.
Proof. apply within_edits. apply _. Qed.
#[global] Instance r_stem_noun_suffixes_ok : Edits Backward any any r_stem_noun_suffixes.
Proof. snow_proof rels. Qed.
#[global] Instance r_post_process_last_consonants_ok : Edits Backward any any r_post_process_last_consonants.
Proof. snow_proof rels. Qed.
#[global] Instance r_append_U_to_stems_ending_with_d_or_g_ok : Edits Backward any any r_append_U_to_stems_ending_with_d_or_g.
Proof. snow_proof rels. Qed.
#[global] Instance r_more_than_one_syllable_word_ok : Moves Forward any r_more_than_one_syllable_word.
Proof. snow_proof rels. Qed.
#[global] Instance r_is_reserved_word_ok : Edits Forward any any r_is_reserved_word.
Proof. snow_proof rels. Qed.
#[global] Instance stem_ok : Stems stem.
Proof. snow_proof rels. Qed.

End Turkish.
