(* ===== verification/Sha256.v ===== *)
(** * SHA-256

    Model of the function [sha256] of [src/misc/cache-digest.js/cache-digest.js]: a
    minified implementation that encodes the string as UTF-8 while it fills the
    blocks, does four rounds per iteration with the registers in rotated roles,
    reuses the conjunction of two registers from one round to the next, and has
    the first round of the first block precomputed. *)

From S2P Require Import Prelude.

Local Open Scope Z_scope.
Local Open Scope js_scope.

Module Sha256.

(** ** Model *)

Definition js_xor (x y : Z) : Z := Z.lxor (to_int32 x) (to_int32 y).
Notation "x ^' y" := (js_xor x y) (at level 50, left associativity) : js_scope.

Definition r : list Z := [-2147483648; 8388608; 32768; 128].
Definition o : list Z := [24; 16; 8; 0].
Definition a : list Z :=
  [1116352408; 1899447441; 3049323471; 3921009573; 961987163; 1508970993; 2453635748; 2870763221;
   3624381080; 310598401; 607225278; 1426881987; 1925078388; 2162078206; 2614888103; 3248222580;
   3835390401; 4022224774; 264347078; 604807628; 770255983; 1249150122; 1555081692; 1996064986;
   2554220882; 2821834349; 2952996808; 3210313671; 3336571891; 3584528711; 113926993; 338241895;
   666307205; 773529912; 1294757372; 1396182291; 1695183700; 1986661051; 2177026350; 2456956037;
   2730485921; 2820302411; 3259730800; 3345764771; 3516065817; 3600352804; 4094571909; 275423344;
   430227734; 506948616; 659060556; 883997877; 958139571; 1322822218; 1537002063; 1747873779;
   1955562222; 2024104815; 2227730452; 2361852424; 2428436474; 2756734187; 3204031479; 3329325298].

Definition get (s : list Z) (i : Z) : Z := int_of (aget s i).
Definition set (s : list Z) (i x : Z) : list Z := <[Z.to_nat i := x]> s.

(** [s[e >> 2] |= t << o[3 & e++]]. *)
Definition put (se : list Z * Z) (t : Z) : list Z * Z :=
  let '(s, e) := se in (set s (e >>' 2) (get s (e >>' 2) |' (t <<' get o (3 &' e))), e + 1).

(** The loop that encodes characters into the block: the string from [j] on is
    [n]. *)
Fixpoint fill (n : jsstr) (se : list Z * Z) (j : Z) : list Z * Z * Z * jsstr :=
  match n with
  | [] => (se, j, n)
  | t :: n' =>
    if decide (64 > se.2) then
      if decide (128 > t) then fill n' (put se t) (j + 1)
      else if decide (2048 > t) then fill n' (put (put se (192 |' (t >>' 6))) (128 |' (63 &' t))) (j + 1)
      else if decide (55296 > t ∨ 57344 <= t) then
        fill n' (put (put (put se (224 |' (t >>' 12))) (128 |' ((t >>' 6) &' 63))) (128 |' (63 &' t))) (j + 1)
      else
        let t := 65536 + (((1023 &' t) <<' 10) |' (1023 &' match n' with [] => 0 | t' :: _ => t' end)) in
        let se := put (put (put (put se (240 |' (t >>' 18))) (128 |' ((t >>' 12) &' 63))) (128 |' ((t >>' 6) &' 63)))
                      (128 |' (63 &' t)) in
        match n' with [] => (se, j + 2, []) | _ :: n'' => fill n'' se (j + 2) end
    else (se, j, n)
  end.

(** The message schedule. *)
Definition schedule (s : list Z) : list Z :=
  foldl (λ s f,
    let v := get s (f - 15) in
    let h := ((v >>>' 7) |' (v <<' 25)) ^' ((v >>>' 18) |' (v <<' 14)) ^' (v >>>' 3) in
    let v := get s (f - 2) in
    let c := ((v >>>' 17) |' (v <<' 15)) ^' ((v >>>' 19) |' (v <<' 13)) ^' (v >>>' 10) in
    set s f ((get s (f - 16) + h + get s (f - 7) + c) <<' 0)) s (seqZ 16 48).

(** One round: [bc] is the conjunction of [b] and [c] from the round before; the
    result is the new values of [h]'s and [d]'s registers and the conjunction of
    [a] and [b]. *)
Definition round (xa xb xc xd xe xf xg xh bc k w : Z) : Z * Z * Z :=
  let h := ((xa >>>' 2) |' (xa <<' 30)) ^' ((xa >>>' 13) |' (xa <<' 19)) ^' ((xa >>>' 22) |' (xa <<' 10)) in
  let c := ((xe >>>' 6) |' (xe <<' 26)) ^' ((xe >>>' 11) |' (xe <<' 21)) ^' ((xe >>>' 25) |' (xe <<' 7)) in
  let ab := xa &' xb in
  let u := ab ^' (xa &' xc) ^' bc in
  let i := (xe &' xf) ^' (~' xe &' xg) in
  let v := xh + c + i + k + w in
  let d := h + u in
  ((xd + v) <<' 0, (v + d) <<' 0, ab).

Record regs := { H : Z; I : Z; J : Z; K : Z; L : Z; M : Z; N : Z; O : Z; g : Z; first : bool }.

Definition four_rounds (s : list Z) (x : regs) (f : Z) : regs :=
  let '(O', K', l) :=
    if first x then
      let v := get s 0 - 210244248 in ((v - 1521486534) <<' 0, (v + 143694565) <<' 0, 704751109)
    else round (H x) (I x) (J x) (K x) (L x) (M x) (N x) (O x) (g x) (get a f) (get s f) in
  let '(N', J', A) := round K' (H x) (I x) (J x) O' (L x) (M x) (N x) l (get a (f + 1)) (get s (f + 1)) in
  let '(M', I', C) := round J' K' (H x) (I x) N' O' (L x) (M x) A (get a (f + 2)) (get s (f + 2)) in
  let '(L', H', g') := round I' J' K' (H x) M' N' O' (L x) C (get a (f + 3)) (get s (f + 3)) in
  {| H := H'; I := I'; J := J'; K := K'; L := L'; M := M'; N := N'; O := O'; g := g'; first := false |}.

Definition compress (s : list Z) (first : bool) (q : list Z) : list Z :=
  let x0 := {| H := get q 0; I := get q 1; J := get q 2; K := get q 3; L := get q 4; M := get q 5; N := get q 6;
               O := get q 7; g := get q 1 &' get q 2; first := first |} in
  let x := foldl (four_rounds s) x0 ((λ i, 4 * i) <$> seqZ 0 16) in
  [(get q 0 + H x) <<' 0; (get q 1 + I x) <<' 0; (get q 2 + J x) <<' 0; (get q 3 + K x) <<' 0;
   (get q 4 + L x) <<' 0; (get q 5 + M x) <<' 0; (get q 6 + N x) <<' 0; (get q 7 + O x) <<' 0].

(** The loop over the blocks: [n] is the rest of the string, [j] the number of
    characters read, [p] the length of the string, [k] where the next block is
    filled from, [m] the number of bytes so far, [G] the word carried over. *)
Fixpoint blocks (fuel : nat) (n : jsstr) (p j k m G : Z) (w : bool) (q : list Z) : outcome (list Z) :=
  match fuel with
  | 0%nat => NoFuel
  | S fuel =>
    let s := G :: replicate 63 0 in
    let '(s, e, j, n) := fill n (s, k) j in
    let m := m + (e - k) in
    let k := e - 64 in
    let '(s, j) :=
      if decide (j = p) then (set s (e >>' 2) (get s (e >>' 2) |' get r (3 &' e)), j + 1) else (s, j) in
    let G := get s 16 in
    let last := bool_decide (j > p) && bool_decide (56 > e) in
    let s := if last then set s 15 (m <<' 3) else s in
    let q := compress (schedule s) w q in
    if last then Ret q else blocks fuel n p j k m G false q
  end.

Definition sha256 (n : jsstr) : outcome (list Z) :=
  blocks (length n + 3) n (zlen n) 0 0 0 0 true
    [1779033703; 3144134277; 1013904242; 2773480762; 1359893119; 2600822924; 528734635; 1541459225].

(** ** The standard

    FIPS 180-4: the functions on words of 32 bits, the message schedule, the
    rounds and the compression of a block of sixteen words. *)

Definition ROTR (n x : Z) : Z := Z.lor (Z.shiftr x n) (to_uint32 (Z.shiftl x (32 - n))).
Definition Ch (x y z : Z) : Z := Z.lxor (Z.land x y) (Z.land (Z.lnot x) z).
Definition Maj (x y z : Z) : Z := Z.lxor (Z.lxor (Z.land x y) (Z.land x z)) (Z.land y z).
Definition Sigma0 (x : Z) : Z := Z.lxor (Z.lxor (ROTR 2 x) (ROTR 13 x)) (ROTR 22 x).
Definition Sigma1 (x : Z) : Z := Z.lxor (Z.lxor (ROTR 6 x) (ROTR 11 x)) (ROTR 25 x).
Definition sigma0 (x : Z) : Z := Z.lxor (Z.lxor (ROTR 7 x) (ROTR 18 x)) (Z.shiftr x 3).
Definition sigma1 (x : Z) : Z := Z.lxor (Z.lxor (ROTR 17 x) (ROTR 19 x)) (Z.shiftr x 10).

Definition next_word (W : list Z) (t : Z) : Z :=
  to_uint32 (sigma1 (get W (t - 2)) + get W (t - 7) + sigma0 (get W (t - 15)) + get W (t - 16)).
Definition words64 (block : list Z) : list Z := foldl (λ W t, W ++ [next_word W t]) block (seqZ 16 48).

Record vars := { va : Z; vb : Z; vc : Z; vd : Z; ve : Z; vf : Z; vg : Z; vh : Z }.

Definition step (W : list Z) (x : vars) (t : Z) : vars :=
  let T1 := vh x + Sigma1 (ve x) + Ch (ve x) (vf x) (vg x) + get a t + get W t in
  let T2 := Sigma0 (va x) + Maj (va x) (vb x) (vc x) in
  {| va := to_uint32 (T1 + T2); vb := va x; vc := vb x; vd := vc x; ve := to_uint32 (vd x + T1); vf := ve x; vg := vf x;
     vh := vg x |}.

Definition vars_of (q : list Z) : vars :=
  {| va := get q 0; vb := get q 1; vc := get q 2; vd := get q 3; ve := get q 4; vf := get q 5; vg := get q 6; vh := get q 7 |}.

Definition hash_block (q block : list Z) : list Z :=
  let x := foldl (step (words64 block)) (vars_of q) (seqZ 0 64) in
  zip_with (λ u v, to_uint32 (u + v)) q [va x; vb x; vc x; vd x; ve x; vf x; vg x; vh x].

(** ** The code modulo [2 ^ 32] *)

Abbreviation u := to_uint32.

Lemma u_xor x y : u (x ^' y) = Z.lxor (u x) (u y).
Proof.
  apply Z.bits_inj'. intros i Hi. rewrite Z.lxor_spec. destruct (decide (i < 32)).
  - unfold js_xor. by rewrite !testbit_to_uint32, Z.lxor_spec, !testbit_to_int32 by lia.
  - by rewrite !testbit_to_uint32_high by lia.
Qed.

Lemma u_shr x n : 0 ≤ n < 32 → u (x >>>' n) = Z.shiftr (u x) n.
Proof.
  intros Hn. unfold js_shr. rewrite Z.mod_small by lia. apply to_uint32_small.
  pose proof (to_uint32_range x). rewrite Z.shiftr_div_pow2 by lia. split; [apply Z.div_pos; lia|].
  apply Z.div_lt_upper_bound; [lia|]. nia.
Qed.

Lemma u_rotr x n m : 0 < n < 32 → m = 32 - n → u ((x >>>' n) |' (x <<' m)) = ROTR n (u x).
Proof.
  intros Hn ->. apply Z.bits_inj'. intros i Hi. unfold ROTR. rewrite Z.lor_spec, Z.shiftr_spec by lia.
  destruct (decide (i < 32)).
  - rewrite testbit_to_uint32, testbit_js_or, testbit_js_shl by lia.
    unfold js_shr. rewrite Z.mod_small, Z.shiftr_spec by lia. f_equal. rewrite testbit_to_uint32, Z.shiftl_spec by lia.
    case_decide; [by rewrite Z.testbit_neg_r by lia|]. by rewrite testbit_to_uint32 by lia.
  - by rewrite !testbit_to_uint32_high by lia.
Qed.

Lemma u_shl0 x : u (x <<' 0) = u x.
Proof. unfold js_shl. rewrite Z.mod_0_l, Z.shiftl_0_r by lia. by rewrite !to_uint32_to_int32. Qed.

Lemma u_add x y : u (u x + u y) = u (x + y).
Proof. unfold to_uint32. by rewrite <- Z.add_mod. Qed.

Lemma u_ch e f g : u ((e &' f) ^' (~' e &' g)) = Ch (u e) (u f) (u g).
Proof.
  rewrite u_xor, js_and_uint32. unfold Ch. f_equal. apply Z.bits_inj'. intros i Hi. rewrite Z.land_spec, Z.lnot_spec by lia.
  destruct (decide (i < 32)).
  - by rewrite !testbit_to_uint32, testbit_js_and, testbit_js_not by lia.
  - by rewrite !testbit_to_uint32_high, andb_false_r by lia.
Qed.

Lemma u_maj x y z : u ((x &' y) ^' (x &' z) ^' (y &' z)) = Maj (u x) (u y) (u z).
Proof. by rewrite !u_xor, !js_and_uint32. Qed.

Lemma round_step W x t xa xb xc xd xe xf xg xh w d' a' ab :
  x = {| va := u xa; vb := u xb; vc := u xc; vd := u xd; ve := u xe; vf := u xf; vg := u xg; vh := u xh |} →
  get W t = u w → round xa xb xc xd xe xf xg xh (xb &' xc) (get a t) w = (d', a', ab) →
  step W x t = {| va := u a'; vb := u xa; vc := u xb; vd := u xc; ve := u d'; vf := u xe; vg := u xf; vh := u xg |} ∧
  ab = xa &' xb.
Proof.
  intros -> Hw [= <- <- <-]. split; [|done]. unfold step. cbn [va vb vc vd ve vf vg vh]. rewrite Hw.
  rewrite !u_shl0. set (c := _ ^' _ ^' ((xe >>>' 25) |' (xe <<' 7))). set (h := _ ^' _ ^' ((xa >>>' 22) |' (xa <<' 10))).
  assert (Sigma1 (u xe) = u c) as -> by (unfold c, Sigma1; by rewrite !u_xor, !u_rotr by lia).
  assert (Sigma0 (u xa) = u h) as -> by (unfold h, Sigma0; by rewrite !u_xor, !u_rotr by lia).
  rewrite <- u_ch, <- u_maj. set (i := _ ^' (~' xe &' xg)). set (m := _ ^' _ ^' (xb &' xc)).
  f_equal; clearbody c h i m; unfold to_uint32; Z.to_euclidean_division_equations; lia.
Qed.

(** The registers of the code hold the variables of the standard. *)
Definition initial : list Z :=
  [1779033703; 3144134277; 1013904242; 2773480762; 1359893119; 2600822924; 528734635; 1541459225].

Definition holds (x : regs) (y : vars) : Prop :=
  y = {| va := u (H x); vb := u (I x); vc := u (J x); vd := u (K x); ve := u (L x); vf := u (M x); vg := u (N x); vh := u (O x) |} ∧
  g x = I x &' J x ∧
  (first x = true → [H x; I x; J x; K x; L x; M x; N x; O x] = initial).

(** The precomputed first round. *)
Lemma first_round W w :
  get W 0 = u w →
  step W (vars_of initial) 0 =
    {| va := u ((w - 210244248 + 143694565) <<' 0); vb := get initial 0; vc := get initial 1; vd := get initial 2;
       ve := u ((w - 210244248 - 1521486534) <<' 0); vf := get initial 4; vg := get initial 5; vh := get initial 6 |}.
Proof.
  intros Hw. unfold step, vars_of. cbn [va vb vc vd ve vf vg vh]. rewrite Hw, !u_shl0.
  set (T1 := _ + get a 0). assert (T1 = 4084723048) as -> by (vm_compute; reflexivity).
  set (T2 := _ + Maj _ _ _). assert (T2 = 4438661861) as -> by (vm_compute; reflexivity).
  f_equal; unfold to_uint32; change (get initial 3) with 2773480762; Z.to_euclidean_division_equations; lia.
Qed.

Lemma four_rounds_spec s W x y f :
  (∀ t, 0 ≤ t < 64 → get W t = u (get s t)) → 0 ≤ f → f + 3 < 64 → (first x = true → f = 0) → holds x y →
  holds (four_rounds s x f) (foldl (step W) y [f; f + 1; f + 2; f + 3]).
Proof.
  intros HW Hf Hf' H0 (Hy & Hg & Hfirst). unfold four_rounds. cbn [foldl].
  set (r1 := if first x then _ else _). destruct r1 as [[O' K'] l] eqn:Hr1. subst r1.
  assert (step W y f = {| va := u K'; vb := u (H x); vc := u (I x); vd := u (J x); ve := u O'; vf := u (L x); vg := u (M x);
    vh := u (N x) |} ∧ l = H x &' I x) as [-> ->].
  { destruct (first x).
    - rewrite (H0 eq_refl). specialize (Hfirst eq_refl). injection Hfirst as HH HI HJ HK HL HM HN HO.
      injection Hr1 as <- <- <-. rewrite Hy, HH, HI, HJ, HK, HL, HM, HN, HO. split; [|done].
      exact (first_round W (get s 0) (HW 0 ltac:(lia))).
    - rewrite Hg in Hr1. by apply (round_step W y f (H x) (I x) (J x) (K x) (L x) (M x) (N x) (O x) (get s f)); [|apply HW; lia|]. }
  destruct (round K' _ _ _ O' _ _ _ _ _ _) as [[N' J'] A] eqn:Hr2.
  destruct (round_step W _ (f + 1) _ _ _ _ _ _ _ _ _ _ _ _ eq_refl (HW (f + 1) ltac:(lia)) Hr2) as [-> ->].
  destruct (round J' _ _ _ N' _ _ _ _ _ _) as [[M' I'] C] eqn:Hr3.
  destruct (round_step W _ (f + 2) _ _ _ _ _ _ _ _ _ _ _ _ eq_refl (HW (f + 2) ltac:(lia)) Hr3) as [-> ->].
  destruct (round I' _ _ _ M' _ _ _ _ _ _) as [[L' H'] g'] eqn:Hr4.
  destruct (round_step W _ (f + 3) _ _ _ _ _ _ _ _ _ _ _ _ eq_refl (HW (f + 3) ltac:(lia)) Hr4) as [-> ->].
  split_and!; done.
Qed.

Lemma seqZ_1_4 k : seqZ k 1 = [k] ∧ seqZ k 4 = [k; k + 1; k + 2; k + 3].
Proof. unfold seqZ. cbn. split; repeat (apply (f_equal2 cons); [lia|]); done. Qed.

Lemma rounds_spec s W x y (k : nat) :
  (∀ t, 0 ≤ t < 64 → get W t = u (get s t)) → (k ≤ 16)%nat → holds x y →
  holds (foldl (four_rounds s) x ((λ i, 4 * i) <$> seqZ 0 (Z.of_nat k))) (foldl (step W) y (seqZ 0 (4 * Z.of_nat k))) ∧
  (k ≠ 0%nat → first (foldl (four_rounds s) x ((λ i, 4 * i) <$> seqZ 0 (Z.of_nat k))) = false).
Proof.
  intros HW Hk Hxy. induction k as [|k IH]; [done|]. destruct IH as [IH Hf]; [lia|].
  replace (Z.of_nat (S k)) with (Z.of_nat k + 1) by lia. rewrite seqZ_app by lia.
  replace (4 * (Z.of_nat k + 1)) with (4 * Z.of_nat k + 4) by lia. rewrite (seqZ_app 0 (4 * Z.of_nat k)) by lia.
  rewrite fmap_app, !foldl_app. rewrite !Z.add_0_l.
  rewrite (proj1 (seqZ_1_4 (Z.of_nat k))). cbn [fmap list_fmap foldl]. split.
  - rewrite (proj2 (seqZ_1_4 (4 * Z.of_nat k))). apply (four_rounds_spec s W); [done|lia|lia| |done].
    intros Ht. destruct k as [|k]; [done|]. rewrite Hf in Ht; done.
  - intros _. unfold four_rounds. by repeat case_match.
Qed.

Lemma get_set s i x t : 0 ≤ i < zlen s → get (set s i x) t = if decide (t = i) then x else get s t.
Proof.
  intros Hi. unfold get, set. rewrite aget_insert by lia. repeat case_decide; congruence || done.
Qed.

Lemma zlen_set s i x : zlen (set s i x) = zlen s.
Proof. apply zlen_insert. Qed.

Lemma schedule_spec s :
  zlen s = 64 → zlen (schedule s) = 64 ∧
  ∀ t, 0 ≤ t < 64 → get (words64 (u <$> take 16 s)) t = u (get (schedule s) t).
Proof.
  intros Hlen. unfold words64, schedule.
  set (F := λ s f, _). set (G := λ W t, W ++ [next_word W t]).
  enough (∀ n : nat, (n ≤ 48)%nat → let s' := foldl F s (seqZ 16 (Z.of_nat n)) in
      let W := foldl G (u <$> take 16 s) (seqZ 16 (Z.of_nat n)) in
      zlen s' = 64 ∧ zlen W = 16 + Z.of_nat n ∧ ∀ t, 0 ≤ t < 16 + Z.of_nat n → get W t = u (get s' t)) as Hn.
  { destruct (Hn 48%nat) as (? & _ & Ht); [lia|]. split; [done|]. intros t Ht'. apply Ht. lia. }
  induction n as [|n IH]; intros Hn s' W.
  { split_and!; [done|change (zlen (u <$> take 16 s) = 16 + 0); rewrite zlen_fmap, zlen_take; lia|]. intros t Ht.
    change (get (u <$> take 16 s) t = u (get s t)). unfold get. rewrite aget_fmap, aget_take by lia.
    by destruct (aget_is_Some s t) as [x ->]; [lia|]. }
  subst s' W. replace (Z.of_nat (S n)) with (Z.of_nat n + 1) by lia. rewrite seqZ_app by lia. rewrite (proj1 (seqZ_1_4 _)), !foldl_app.
  destruct IH as (Hs & HW & IH); [lia|]. set (s' := foldl F _ _) in *. set (W := foldl G _ _) in *. cbn [foldl].
  set (f := 16 + Z.of_nat n) in *. split_and!; [unfold F; by rewrite zlen_set|unfold G; rewrite zlen_app, zlen_cons, zlen_nil; lia|].
  intros t Ht. unfold F, G. rewrite get_set by lia. case_decide as Htf.
  - subst t. unfold get at 1. rewrite aget_app_r by lia. rewrite HW, Z.sub_diag. cbn [aget]. 
    change (int_of (aget [next_word W f] 0)) with (next_word W f). unfold next_word. rewrite !IH by lia. rewrite u_shl0.
    set (v := get s' (f - 15)). set (v' := get s' (f - 2)).
    assert (sigma0 (u v) = u (((v >>>' 7) |' (v <<' 25)) ^' ((v >>>' 18) |' (v <<' 14)) ^' (v >>>' 3))) as ->
      by (unfold sigma0; by rewrite !u_xor, !u_rotr, u_shr by lia).
    assert (sigma1 (u v') = u (((v' >>>' 17) |' (v' <<' 15)) ^' ((v' >>>' 19) |' (v' <<' 13)) ^' (v' >>>' 10))) as ->
      by (unfold sigma1; by rewrite !u_xor, !u_rotr, u_shr by lia).
    set (c := _ ^' (v' >>>' 10)). set (h := _ ^' (v >>>' 3)). clearbody c h.
    unfold to_uint32. Z.to_euclidean_division_equations. lia.
  - unfold get at 1. rewrite aget_app_l by lia. apply IH. lia.
Qed.

Lemma get_u q i : get (u <$> q) i = u (get q i).
Proof. unfold get. rewrite aget_fmap. by destruct (aget q i). Qed.

(** A block is hashed as the standard prescribes. *)
Lemma compress_spec s w q :
  zlen s = 64 → zlen q = 8 → (w = true → q = initial) →
  u <$> compress (schedule s) w q = hash_block (u <$> q) (u <$> take 16 s) ∧ zlen (compress (schedule s) w q) = 8.
Proof.
  intros Hs Hq Hw. split; [|done]. destruct (schedule_spec s Hs) as [_ HW]. unfold compress, hash_block.
  set (W := words64 _) in *. set (x0 := Build_regs _ _ _ _ _ _ _ _ _ _).
  destruct (rounds_spec (schedule s) W x0 (vars_of (u <$> q)) 16 HW) as [[Hx _] _]; [lia| |].
  { unfold holds, vars_of. rewrite !get_u. split_and!; [done..|]. cbn. intros Hw'. by rewrite (Hw Hw'). }
  change (Z.of_nat 16) with 16 in Hx. change (4 * 16) with 64 in Hx. rewrite Hx. cbn [va vb vc vd ve vf vg vh].
  set (x := foldl (four_rounds _) _ _).
  destruct q as [|q0 [|q1 [|q2 [|q3 [|q4 [|q5 [|q6 [|q7 [|]]]]]]]]]; try (unfold zlen in Hq; cbn in Hq; lia).
  cbn [fmap list_fmap zip_with]. rewrite !u_add, !u_shl0. done.
Qed.

End Sha256.
