(* ===== verification/Sha256Message.v ===== *)
(** * The message of SHA-256

    The string is encoded as UTF-8, padded and cut into blocks.  The loop of
    [Sha256.blocks] does this in one pass: bytes that do not fit into a block are
    carried over in one word.  The theorem shows that the hash of a string is
    the hash of its UTF-8 bytes as FIPS 180-4 defines it. *)

From S2P Require Import Prelude Lang Sha256.

Local Open Scope Z_scope.
Local Open Scope js_scope.

Module Sha256Message.
Import Sha256.

(** ** The standard *)

Definition byte_at (bs : list Z) (i : Z) : Z := int_of (aget bs i).

Definition be_word (bs : list Z) (i : Z) : Z :=
  byte_at bs (4 * i) * 2 ^ 24 + byte_at bs (4 * i + 1) * 2 ^ 16 + byte_at bs (4 * i + 2) * 2 ^ 8 + byte_at bs (4 * i + 3).

(** The [i]-th block of sixteen words. *)
Definition block (bs : list Z) (i : Z) : list Z := be_word bs <$> seqZ (16 * i) 16.

Definition be64 (n : Z) : list Z := (λ i, n / 2 ^ (8 * i) mod 256) <$> [7; 6; 5; 4; 3; 2; 1; 0].

(** A one bit, zeros up to eight bytes before the end of a block, and the number
    of bits. *)
Definition pad (bs : list Z) : list Z :=
  bs ++ [128] ++ replicate (Z.to_nat ((55 - zlen bs) mod 64)) 0 ++ be64 (8 * zlen bs).

Definition hash (bs : list Z) : list Z :=
  foldl (λ q i, hash_block q (block (pad bs) i)) initial (seqZ 0 (zlen (pad bs) / 64)).

(** The example of the standard: [abc]. *)
Example hash_abc :
  hash [97; 98; 99] =
  [0xba7816bf; 0x8f01cfea; 0x414140de; 0x5dae2223; 0xb00361a3; 0x96177a9c; 0xb410ff61; 0xf20015ad].
Proof. vm_compute. reflexivity. Qed.

(** A string as UTF-16: every surrogate is part of a pair. *)
Fixpoint utf16 (n : jsstr) : bool :=
  match n with
  | [] => true
  | c :: n =>
    if Lang.is_high c then match n with d :: n => Lang.is_low d && utf16 n | [] => false end
    else bool_decide (0 ≤ c < 65536) && negb (Lang.is_low c) && utf16 n
  end.

Fixpoint utf8_of (n : jsstr) : list Z :=
  match n with
  | [] => []
  | c :: n =>
    if Lang.is_high c then
      match n with
      | d :: n => Lang.utf8 (0x10000 + (c - 0xd800) * 1024 + (d - 0xdc00)) ++ utf8_of n
      | [] => []
      end
    else Lang.utf8 c ++ utf8_of n
  end.

(** ** Packing bytes into words *)

Lemma u_or x y : u (x |' y) = Z.lor (u x) (u y).
Proof.
  apply Z.bits_inj'. intros i Hi. rewrite Z.lor_spec. destruct (decide (i < 32)).
  - by rewrite !testbit_to_uint32, testbit_js_or by lia.
  - by rewrite !testbit_to_uint32_high by lia.
Qed.

Lemma u_shl x n : 0 ≤ n < 32 → u (x <<' n) = u (x * 2 ^ n).
Proof.
  intros Hn. unfold js_shl. rewrite to_uint32_to_int32, Z.mod_small, Z.shiftl_mul_pow2 by lia.
  unfold to_uint32. rewrite <- (Z.mul_mod_idemp_l x), <- (Z.mul_mod_idemp_l (to_int32 x)) by lia. do 2 f_equal.
  apply to_uint32_to_int32.
Qed.

Lemma lor_add x y k : 0 ≤ k → 0 ≤ y < 2 ^ k → Z.lor (x * 2 ^ k) y = x * 2 ^ k + y.
Proof.
  intros Hk Hy. rewrite <- Z.lxor_lor, <- Z.add_nocarry_lxor; [done|..];
    (apply Z.bits_inj'; intros i Hi; rewrite Z.land_spec, Z.bits_0; destruct (decide (i < k));
     [by rewrite Z.mul_pow2_bits_low by lia|]; rewrite <- (Z.mod_small y (2 ^ k)) by lia;
     rewrite Z.mod_pow2_bits_high by lia; apply andb_false_r).
Qed.

Definition byte (x : Z) : Prop := 0 ≤ x < 256.

Record packed (s : list Z) (bs : list Z) : Prop := {
  packed_length : zlen s = 64;
  packed_fits : zlen bs ≤ 68;
  packed_bytes : Forall byte bs;
  packed_words : ∀ i, 0 ≤ i < 17 → u (get s i) = be_word bs i;
}.

Lemma byte_at_range bs i : Forall byte bs → byte (byte_at bs i).
Proof.
  intros Hb. unfold byte_at. destruct (aget bs i) as [x|] eqn:Hx; [|by split; cbn; lia].
  rewrite Forall_forall in Hb. by apply Hb, (aget_elem_of _ i).
Qed.

Lemma byte_at_snoc bs t i : byte_at (bs ++ [t]) i = if decide (i = zlen bs) then t else byte_at bs i.
Proof.
  unfold byte_at. case_decide as Hi.
  - subst. by rewrite aget_app_r, Z.sub_diag by lia.
  - destruct (decide (i < zlen bs)); [by rewrite aget_app_l|].
    rewrite !aget_None; [done|lia|]. rewrite zlen_app. change (zlen [t]) with 1. lia.
Qed.

Lemma byte_at_end bs i : zlen bs ≤ i → byte_at bs i = 0.
Proof. intros Hi. unfold byte_at. by rewrite aget_None by lia. Qed.

Lemma pack_byte x y t k :
  0 ≤ k ≤ 24 → 0 ≤ t < 256 → y = x * 2 ^ (k + 8) → Z.lor y (u (t <<' k)) = y + t * 2 ^ k.
Proof.
  intros Hk Ht ->. pose proof (Z.pow_pos_nonneg 2 k ltac:(lia) ltac:(lia)). pose proof (Z.pow_le_mono_r 2 k 24 ltac:(lia) ltac:(lia)).
  rewrite u_shl, to_uint32_small by (lia || nia). apply lor_add; [lia|]. rewrite Z.pow_add_r by lia. nia.
Qed.

Lemma put_spec s bs t :
  packed s bs → byte t → zlen bs < 68 →
  ∃ s', put (s, zlen bs) t = (s', zlen bs + 1) ∧ packed s' (bs ++ [t]).
Proof.
  intros [Hs Hfit Hb Hw] Ht Hlen. pose proof (zlen_nonneg bs). unfold put. set (e := zlen bs) in *.
  rewrite js_sar_div by lia. change (2 ^ 2) with 4.
  assert (3 &' e = e mod 4) as ->.
  { unfold js_and. rewrite Z.land_comm. apply (js_and_ones e 2); lia. }
  eexists. split; [done|]. split.
  - by rewrite zlen_set.
  - rewrite zlen_app. change (zlen [t]) with 1. unfold e in *. lia.
  - apply Forall_app. split; [done|by constructor].
  - intros i Hi. rewrite get_set by (Z.to_euclidean_division_equations; lia). case_decide as Hie.
    2:{ rewrite Hw by done. unfold be_word. rewrite !byte_at_snoc. fold e.
        rewrite !decide_False by (Z.to_euclidean_division_equations; lia). done. }
    set (m := e mod 4) in *.
    assert (e = 4 * i + m ∧ (m = 0 ∨ m = 1 ∨ m = 2 ∨ m = 3)) as [He Hm] by (unfold m; Z.to_euclidean_division_equations; lia).
    assert (∀ j, byte (byte_at bs j)) as Hr by (intros j; by apply byte_at_range).
    pose proof (Hr (4 * i)). pose proof (Hr (4 * i + 1)). pose proof (Hr (4 * i + 2)). unfold byte in *.
    rewrite u_or, <- Hie, Hw by done. clearbody m. unfold be_word. rewrite !byte_at_snoc. fold e.
    destruct Hm as [Hm|[Hm|[Hm|Hm]]]; rewrite Hm in *.
    + change (get o 0) with 24. rewrite !(byte_at_end bs) by lia. rewrite decide_True, !decide_False by lia.
      rewrite (pack_byte 0) by lia. lia.
    + change (get o 1) with 16. rewrite !(byte_at_end bs (4 * i + _)) by lia.
      rewrite (decide_True (P := 4 * i + 1 = e)), !decide_False by lia. rewrite (pack_byte (byte_at bs (4 * i))) by lia. lia.
    + change (get o 2) with 8. rewrite (byte_at_end bs (4 * i + 2)), (byte_at_end bs (4 * i + 3)) by lia.
      rewrite (decide_True (P := 4 * i + 2 = e)), !decide_False by lia.
      rewrite (pack_byte (byte_at bs (4 * i) * 2 ^ 8 + byte_at bs (4 * i + 1))) by lia. lia.
    + change (get o 3) with 0. rewrite (byte_at_end bs (4 * i + 3)) by lia.
      rewrite (decide_True (P := 4 * i + 3 = e)), !decide_False by lia.
      rewrite (pack_byte (byte_at bs (4 * i) * 2 ^ 16 + byte_at bs (4 * i + 1) * 2 ^ 8 + byte_at bs (4 * i + 2))) by lia. lia.
Qed.

Lemma puts_spec s bs xs :
  packed s bs → Forall byte xs → zlen bs + zlen xs ≤ 68 →
  ∃ s', foldl put (s, zlen bs) xs = (s', zlen (bs ++ xs)) ∧ packed s' (bs ++ xs).
Proof.
  revert s bs. induction xs as [|x xs IH]; intros s bs Hp Hxs Hlen; [rewrite app_nil_r; eauto|].
  apply Forall_cons in Hxs as [Hx Hxs]. rewrite zlen_cons in Hlen. cbn [foldl]. pose proof (zlen_nonneg xs).
  destruct (put_spec s bs x Hp Hx) as (s1 & -> & Hp1); [lia|].
  replace (zlen bs + 1) with (zlen (bs ++ [x])) by (rewrite zlen_app; done).
  destruct (IH s1 (bs ++ [x]) Hp1 Hxs) as (s' & -> & Hp'); [rewrite zlen_app; change (zlen [x]) with 1; lia|].
  rewrite <- app_assoc in Hp' |- *. eauto.
Qed.

(** ** The encoding *)

Lemma mask_mod m k t : m = 2 ^ k - 1 → 0 ≤ k ≤ 31 → 0 ≤ t → m &' t = t mod 2 ^ k.
Proof. intros -> Hk Ht. unfold js_and. rewrite Z.land_comm. by apply js_and_ones. Qed.

Lemma tag_add c k x t : t = c * 2 ^ k → 0 ≤ k ≤ 8 → 0 ≤ c → t < 256 → 0 ≤ x < 2 ^ k → t |' x = t + x.
Proof.
  intros -> Hk Hc Ht Hx. apply js_or_add; try lia. pose proof (Z.pow_le_mono_r 2 k 8 ltac:(lia) ltac:(lia)). lia.
Qed.

(** The bytes that the code stores for a code point. *)
Lemma utf8_1 c : 0 ≤ c < 128 → Lang.utf8 c = [c].
Proof. intros. unfold Lang.utf8. by rewrite decide_True by lia. Qed.

Lemma cont_byte c k : 0 ≤ c < 2 ^ 31 → 0 ≤ k < 31 → 128 |' ((c >>' k) &' 63) = 0x80 + (c / 2 ^ k) mod 64.
Proof.
  intros Hc Hk. rewrite js_sar_div by lia. pose proof (Z.pow_pos_nonneg 2 k ltac:(lia) ltac:(lia)).
  assert (0 ≤ c / 2 ^ k) by (apply Z.div_pos; lia). rewrite (js_and_ones _ 6) by lia. change (2 ^ 6) with 64.
  pose proof (Z.mod_pos_bound (c / 2 ^ k) 64). apply (tag_add 2 6); lia.
Qed.

Lemma last_byte c : 0 ≤ c < 2 ^ 31 → 128 |' (63 &' c) = 0x80 + c mod 64.
Proof.
  intros Hc. rewrite (mask_mod _ 6) by lia. change (2 ^ 6) with 64. pose proof (Z.mod_pos_bound c 64).
  apply (tag_add 2 6); lia.
Qed.

Lemma utf8_2 c : 128 ≤ c < 2048 → Lang.utf8 c = [192 |' (c >>' 6); 128 |' (63 &' c)].
Proof.
  intros. unfold Lang.utf8. rewrite decide_False, decide_True by lia. rewrite last_byte, js_sar_div by lia.
  rewrite (tag_add 6 5) by (Z.to_euclidean_division_equations; lia). done.
Qed.

Lemma utf8_3 c : 2048 ≤ c < 65536 → Lang.utf8 c = [224 |' (c >>' 12); 128 |' ((c >>' 6) &' 63); 128 |' (63 &' c)].
Proof.
  intros. unfold Lang.utf8. rewrite !decide_False, decide_True by lia. rewrite last_byte, cont_byte, js_sar_div by lia.
  rewrite (tag_add 14 4) by (Z.to_euclidean_division_equations; lia). done.
Qed.

Lemma utf8_4 c :
  65536 ≤ c < 0x110000 →
  Lang.utf8 c = [240 |' (c >>' 18); 128 |' ((c >>' 12) &' 63); 128 |' ((c >>' 6) &' 63); 128 |' (63 &' c)].
Proof.
  intros. unfold Lang.utf8. rewrite !decide_False by lia. rewrite last_byte, !cont_byte, js_sar_div by lia.
  rewrite (tag_add 30 3) by (Z.to_euclidean_division_equations; lia). done.
Qed.

Lemma pair_point c d :
  Lang.is_high c = true → Lang.is_low d = true →
  let t := 65536 + (((1023 &' c) <<' 10) |' (1023 &' d)) in
  t = 0x10000 + (c - 0xd800) * 1024 + (d - 0xdc00) ∧ 65536 ≤ t < 0x110000.
Proof.
  unfold Lang.is_high, Lang.is_low. rewrite !bool_decide_eq_true. intros Hc Hd. cbv zeta.
  rewrite !(mask_mod _ 10) by lia. change (2 ^ 10) with 1024. pose proof (Z.mod_pos_bound c 1024). pose proof (Z.mod_pos_bound d 1024).
  rewrite js_shl_mul by lia. rewrite js_or_add by lia. Z.to_euclidean_division_equations. lia.
Qed.

Lemma fill_char c n se j :
  se.2 < 64 → Lang.is_high c = false → Lang.is_low c = false → 0 ≤ c < 65536 →
  fill (c :: n) se j = fill n (foldl put se (Lang.utf8 c)) (j + 1).
Proof.
  unfold Lang.is_high, Lang.is_low. rewrite !bool_decide_eq_false. intros He Hh Hl Hc. cbn [fill]. rewrite decide_True by lia.
  case_decide; [by rewrite utf8_1 by lia|]. case_decide; [by rewrite utf8_2 by lia|]. rewrite decide_True by lia.
  by rewrite utf8_3 by lia.
Qed.

Lemma fill_pair c d n se j :
  se.2 < 64 → Lang.is_high c = true → Lang.is_low d = true →
  fill (c :: d :: n) se j = fill n (foldl put se (Lang.utf8 (0x10000 + (c - 0xd800) * 1024 + (d - 0xdc00)))) (j + 2).
Proof.
  intros He Hh Hl. destruct (pair_point c d Hh Hl) as [Ht Hr]. unfold Lang.is_high in Hh. apply bool_decide_eq_true in Hh.
  cbn [fill]. rewrite decide_True, !decide_False by lia. rewrite <- Ht, utf8_4 by lia. done.
Qed.

Lemma utf8_length c : 1 ≤ zlen (Lang.utf8 c) ≤ 4.
Proof. unfold Lang.utf8. repeat case_decide; unfold zlen; cbn; lia. Qed.

(** What the filling loop does: it encodes characters until the block is full or
    the string at its end. *)
Lemma fill_string n s bs j :
  utf16 n = true → packed s bs → zlen bs ≤ 67 →
  ∃ s' x n', fill n (s, zlen bs) j = (s', zlen (bs ++ x), j + (zlen n - zlen n'), n') ∧
    packed s' (bs ++ x) ∧ utf8_of n = x ++ utf8_of n' ∧ utf16 n' = true ∧ zlen (bs ++ x) ≤ 67 ∧
    (n' = [] ∨ 64 ≤ zlen (bs ++ x)) ∧ (length n' ≤ length n)%nat ∧ (zlen bs < 64 → n ≠ [] → (length n' < length n)%nat).
Proof.
  remember (length n) as k eqn:Hk. revert n s bs j Hk. induction k as [k IH] using lt_wf_ind. intros n s bs j Hk Hn Hp Hlen.
  destruct (decide (n = [] ∨ 64 ≤ zlen bs)) as [Hstop|Hgo].
  { exists s, [], n. rewrite app_nil_r, Z.sub_diag, Z.add_0_r. split_and!; try done; [|lia|].
    - destruct n; [done|]. cbn [fill snd]. destruct Hstop; [done|]. by rewrite decide_False by lia.
    - intros ? ?. destruct Hstop; [done|lia]. }
  assert (∀ cp (n1 n' : jsstr), Forall byte (Lang.utf8 cp) → n = n1 ++ n' → n1 ≠ [] → utf8_of n = Lang.utf8 cp ++ utf8_of n' → utf16 n' = true →
    fill n (s, zlen bs) j = fill n' (foldl put (s, zlen bs) (Lang.utf8 cp)) (j + zlen n1) →
    ∃ s' x n', fill n (s, zlen bs) j = (s', zlen (bs ++ x), j + (zlen n - zlen n'), n') ∧
    packed s' (bs ++ x) ∧ utf8_of n = x ++ utf8_of n' ∧ utf16 n' = true ∧ zlen (bs ++ x) ≤ 67 ∧
    (n' = [] ∨ 64 ≤ zlen (bs ++ x)) ∧ (length n' ≤ k)%nat ∧ (zlen bs < 64 → n ≠ [] → (length n' < k)%nat)) as Hstep.
  { intros cp n1 n' Hb Hn1 Hne H8 H16 ->. pose proof (utf8_length cp).
    destruct (puts_spec s bs (Lang.utf8 cp) Hp Hb) as (s1 & -> & Hp1); [lia|].
    assert (length n' < k)%nat as Hshort by (rewrite Hk, Hn1, length_app; destruct n1; [done|cbn; lia]).
    destruct (IH (length n') Hshort n' s1 (bs ++ Lang.utf8 cp) (j + zlen n1)) as (s' & x & n2 & -> & Hp' & H8' & ? & ? & ? & ? & _);
      [done..|rewrite zlen_app; lia|].
    exists s', (Lang.utf8 cp ++ x), n2. rewrite !app_assoc. split_and!; try done; try lia.
    - apply (f_equal zlen) in Hn1. rewrite zlen_app in Hn1. do 2 f_equal. lia.
    - by rewrite H8, H8', app_assoc. }
  destruct n as [|c n]; [tauto|]. cbn [utf16] in Hn. destruct (Lang.is_high c) eqn:Hh.
  - destruct n as [|d n]; [done|]. apply andb_true_iff in Hn as [Hl Hn].
    apply (Hstep (0x10000 + (c - 0xd800) * 1024 + (d - 0xdc00)) [c; d] n); try done.
    + apply utf8_bytes. destruct (pair_point c d Hh Hl) as [<- ?]. lia.
    + cbn [utf8_of]. by rewrite Hh.
    + rewrite fill_pair by (done || (cbn; lia)). done.
  - apply andb_true_iff in Hn as [Hn Hn3]. apply andb_true_iff in Hn as [Hr Hl]. apply bool_decide_eq_true in Hr.
    apply negb_true_iff in Hl. apply (Hstep c [c] n); try done.
    + apply utf8_bytes. lia.
    + cbn [utf8_of]. by rewrite Hh.
    + rewrite fill_char by (done || (cbn; lia)). done.
Qed.

(** ** The blocks *)

Lemma byte_at_drop bs n i : 0 ≤ i → byte_at (drop n bs) i = byte_at bs (Z.of_nat n + i).
Proof. intros Hi. unfold byte_at. by rewrite aget_drop. Qed.

Lemma byte_at_app_r bs bs' i : 0 ≤ i → byte_at (bs ++ bs') (zlen bs + i) = byte_at bs' i.
Proof. intros Hi. unfold byte_at. rewrite aget_app_r by lia. do 2 f_equal. lia. Qed.

Lemma byte_at_app_l bs bs' i : i < zlen bs → byte_at (bs ++ bs') i = byte_at bs i.
Proof. intros Hi. unfold byte_at. by rewrite aget_app_l. Qed.

(** The end marker is stored like a byte. *)
Lemma mark_spec s bs :
  packed s bs → zlen bs ≤ 67 →
  packed (set s (zlen bs >>' 2) (get s (zlen bs >>' 2) |' get r (3 &' zlen bs))) (bs ++ [128]).
Proof.
  intros Hp Hlen. pose proof (zlen_nonneg bs). destruct (put_spec s bs 128 Hp) as (s' & Heq & Hp'); [unfold byte; lia|lia|].
  assert (get r (3 &' zlen bs) = 128 <<' get o (3 &' zlen bs)) as ->; [|injection Heq as Heq; by rewrite Heq].
  rewrite (mask_mod _ 2) by lia. change (2 ^ 2) with 4.
  assert (zlen bs mod 4 = 0 ∨ zlen bs mod 4 = 1 ∨ zlen bs mod 4 = 2 ∨ zlen bs mod 4 = 3) as Hm
    by (Z.to_euclidean_division_equations; lia).
  destruct Hm as [Hm|[Hm|[Hm|Hm]]]; by rewrite Hm.
Qed.

Lemma carry_packed s bs : packed s bs → packed (get s 16 :: replicate 63 0) (drop 64 bs).
Proof.
  intros [Hs Hfit Hb Hw]. split.
  - done.
  - rewrite zlen_drop. lia.
  - by apply Forall_drop.
  - intros i Hi. unfold be_word. rewrite !byte_at_drop by lia. unfold get at 1. rewrite aget_cons. case_decide as Hi0.
    + subst i. cbn [int_of default]. etrans; [exact (Hw 16 ltac:(lia))|]. unfold be_word. by f_equal.
    + rewrite !byte_at_end by lia. rewrite aget_replicate by lia. done.
Qed.

Lemma words_block P B s :
  zlen s = 64 → (∀ i, 0 ≤ i < 16 → u (get s i) = be_word P (16 * B + i)) → u <$> take 16 s = block P B.
Proof.
  intros Hs HP. unfold block. apply aget_ext; rewrite zlen_fmap, zlen_take.
  - rewrite zlen_fmap, zlen_seqZ by lia. lia.
  - intros i Hi. rewrite !aget_fmap, aget_take, aget_seqZ by lia. cbn [fmap option_fmap option_map].
    rewrite <- HP by lia. unfold get. by destruct (aget_is_Some s i) as [x ->]; [lia|].
Qed.

(** The words of a block whose bytes are packed. *)
Lemma be_word_shift P B bs i :
  (∀ j, 0 ≤ j < 4 → byte_at P (64 * B + (4 * i + j)) = byte_at bs (4 * i + j)) → be_word P (16 * B + i) = be_word bs i.
Proof.
  intros HP. pose proof (HP 0 ltac:(lia)) as H0. rewrite Z.add_0_r in H0. unfold be_word.
  replace (4 * (16 * B + i)) with (64 * B + 4 * i) by lia. rewrite <- !(Z.add_assoc (64 * B)).
  by rewrite H0, !HP by lia.
Qed.

Lemma take_block P B s bs :
  packed s bs → (∀ i, 0 ≤ i < 64 → byte_at P (64 * B + i) = byte_at bs i) → u <$> take 16 s = block P B.
Proof.
  intros [Hs _ _ Hw] HP. apply words_block; [done|]. intros i Hi. rewrite Hw by lia. symmetry. apply be_word_shift.
  intros j Hj. apply HP. lia.
Qed.

Lemma be64_words n :
  0 ≤ n < 2 ^ 32 → let b i := byte_at (be64 n) i in
  b 0 = 0 ∧ b 1 = 0 ∧ b 2 = 0 ∧ b 3 = 0 ∧ b 4 * 2 ^ 24 + b 5 * 2 ^ 16 + b 6 * 2 ^ 8 + b 7 = n.
Proof.
  intros Hn b.
  change (b 0) with (n / 2 ^ 56 mod 256). change (b 1) with (n / 2 ^ 48 mod 256). change (b 2) with (n / 2 ^ 40 mod 256).
  change (b 3) with (n / 2 ^ 32 mod 256). change (b 4) with (n / 2 ^ 24 mod 256). change (b 5) with (n / 2 ^ 16 mod 256).
  change (b 6) with (n / 2 ^ 8 mod 256). change (b 7) with (n / 2 ^ 0 mod 256).
  rewrite !(Z.div_small n (2 ^ _)) by lia. split_and!; [done..|]. Z.to_euclidean_division_equations. lia.
Qed.

Section message.
Context (Msg : list Z).
Hypothesis Msg_short : 8 * zlen Msg < 2 ^ 32.

Lemma zlen_pad : zlen (pad Msg) = 64 * ((zlen Msg + 72) / 64).
Proof.
  unfold pad. rewrite !zlen_app, zlen_replicate. change (zlen [128]) with 1. change (zlen (be64 _)) with 8.
  pose proof (zlen_nonneg Msg). rewrite Z2Nat.id by (apply Z.mod_pos_bound; lia). Z.to_euclidean_division_equations. lia.
Qed.

Lemma pad_bytes i : 0 ≤ i < zlen (pad Msg) - 8 → byte_at (pad Msg) i = byte_at (Msg ++ [128]) i.
Proof.
  intros Hi. unfold pad in *. rewrite app_assoc in *. set (M := Msg ++ [128]) in *. rewrite app_assoc in *.
  rewrite zlen_app in Hi. change (zlen (be64 _)) with 8 in Hi. rewrite byte_at_app_l by lia.
  destruct (decide (i < zlen M)); [by rewrite byte_at_app_l|]. rewrite (byte_at_end M) by lia.
  rewrite zlen_app, zlen_replicate in Hi. replace i with (zlen M + (i - zlen M)) by lia. rewrite byte_at_app_r by lia.
  unfold byte_at. by rewrite aget_replicate by lia.
Qed.

Lemma pad_length_words B :
  64 * (B + 1) = zlen (pad Msg) → be_word (pad Msg) (16 * B + 14) = 0 ∧ be_word (pad Msg) (16 * B + 15) = 8 * zlen Msg.
Proof.
  intros HB. unfold pad in *. rewrite !app_assoc in *. set (M := (Msg ++ [128]) ++ _) in *.
  rewrite zlen_app in HB. change (zlen (be64 _)) with 8 in HB. pose proof (zlen_nonneg Msg).
  assert (∀ j, 0 ≤ j → byte_at (M ++ be64 (8 * zlen Msg)) (4 * (16 * B + 14) + j) = byte_at (be64 (8 * zlen Msg)) j) as Hj.
  { intros j Hj. replace (4 * (16 * B + 14)) with (zlen M) by lia. by apply byte_at_app_r. }
  destruct (be64_words (8 * zlen Msg)) as (Hb0 & Hb1 & Hb2 & Hb3 & Hn); [lia|]. pose proof (Hj 0 ltac:(lia)) as Hj0. rewrite Z.add_0_r in Hj0.
  unfold be_word. replace (4 * (16 * B + 15)) with (4 * (16 * B + 14) + 4) by lia. rewrite <- !(Z.add_assoc (4 * (16 * B + 14)) 4).
  rewrite Hj0, !Hj by lia. cbn [Z.add Pos.add Pos.succ]. rewrite Hb0, Hb1, Hb2, Hb3. split; [done|exact Hn].
Qed.

(** The hash after [B] blocks. *)
Definition hashed (B : Z) : list Z := foldl (λ q i, hash_block q (block (pad Msg) i)) initial (seqZ 0 B).

Definition good (q : list Z) (w : bool) (B : Z) : Prop :=
  0 ≤ B ∧ zlen q = 8 ∧ u <$> q = hashed B ∧ (w = true → q = initial).

Lemma good_step q w B s :
  good q w B → zlen s = 64 → u <$> take 16 s = block (pad Msg) B → good (compress (schedule s) w q) false (B + 1).
Proof.
  intros (HB & Hq & Hu & Hw) Hs Hb. destruct (compress_spec s w q Hs Hq Hw) as [Hc Hc8]. split_and!; [lia|done| |done].
  rewrite Hc, Hu, Hb. unfold hashed. rewrite seqZ_app by lia. rewrite foldl_app, Z.add_0_l, (proj1 (seqZ_1_4 B)). done.
Qed.

Lemma pad_agrees B i :
  0 ≤ B → 0 ≤ i → 64 * B + i < zlen (pad Msg) - 8 →
  byte_at (pad Msg) (64 * B + i) = byte_at (drop (Z.to_nat (64 * B)) (Msg ++ [128])) i.
Proof. intros HB Hi Hlt. rewrite pad_bytes, byte_at_drop by lia. f_equal. lia. Qed.

Lemma final_words s B :
  packed s (drop (Z.to_nat (64 * B)) (Msg ++ [128])) → 0 ≤ B → 64 * (B + 1) = zlen (pad Msg) →
  zlen Msg + 1 ≤ 64 * B + 56 → u <$> take 16 (set s 15 (zlen Msg <<' 3)) = block (pad Msg) B.
Proof.
  intros [Hs _ _ Hw] HB Hend Hlen. destruct (pad_length_words B Hend) as [H14 H15]. pose proof (zlen_nonneg Msg) as Hm.
  apply words_block; [by rewrite zlen_set|]. intros i Hi. rewrite get_set by lia. case_decide as Hi15.
  - subst i. rewrite H15, u_shl by lia. rewrite to_uint32_small; lia.
  - rewrite Hw by lia. destruct (decide (i = 14)) as [->|].
    + rewrite H14. unfold be_word. rewrite !byte_at_end; [done|..]; rewrite zlen_drop, zlen_app; change (zlen [128]) with 1; lia.
    + symmetry. apply be_word_shift. intros j Hj. apply pad_agrees; lia.
Qed.

Lemma hash_blocks B q w : good q w B → 64 * B = zlen (pad Msg) → u <$> q = hash Msg.
Proof.
  intros (_ & _ & -> & _) HB. unfold hash, hashed. do 2 f_equal. rewrite <- HB. Z.to_euclidean_division_equations. lia.
Qed.

Lemma blocks_last fuel p j k m G w q B :
  good q w B → packed (G :: replicate 63 0) (drop (Z.to_nat (64 * B)) (Msg ++ [128])) → 64 * (B + 1) = zlen (pad Msg) →
  zlen Msg + 1 ≤ 64 * B + 56 → k < 56 → m = zlen Msg → p < j →
  ∃ q', blocks (S fuel) [] p j k m G w q = Ret q' ∧ u <$> q' = hash Msg.
Proof.
  intros Hg Hp Hend Hlen Hk -> Hj. cbn [blocks fill]. rewrite decide_False by lia. rewrite !bool_decide_eq_true_2 by lia. cbn [andb].
  eexists. split; [done|]. eapply hash_blocks; [|exact Hend]. pose proof Hg as (HB & _).
  apply good_step; [done|by rewrite zlen_set|]. rewrite Z.sub_diag, Z.add_0_r. by apply final_words.
Qed.

(** The last characters are in the block: its end marker, and its length or one
    more block. *)
Lemma blocks_mark fuel s bs p m w q B pre :
  good q w B → packed s bs → Msg = pre ++ bs → zlen pre = 64 * B → zlen bs ≤ 67 → m = zlen Msg →
  let e := zlen bs in
  let s' := set s (e >>' 2) (get s (e >>' 2) |' get r (3 &' e)) in
  let last := bool_decide (p + 1 > p) && bool_decide (56 > e) in
  ∃ q', (if last then Ret (compress (schedule (if last then set s' 15 (m <<' 3) else s')) w q)
         else blocks (S fuel) [] p (p + 1) (e - 64) m (get s' 16) false
                (compress (schedule (if last then set s' 15 (m <<' 3) else s')) w q)) = Ret q' ∧ u <$> q' = hash Msg.
Proof.
  intros Hg Hp HM Hpre Hbs -> e s'. pose proof Hg as (HB & _). pose proof (zlen_nonneg bs).
  pose proof (mark_spec s bs Hp Hbs) as Hmark. fold e in Hmark. fold s' in Hmark.
  assert (zlen Msg = 64 * B + e) as Hz by (rewrite HM, zlen_app; unfold e; lia).
  assert (drop (Z.to_nat (64 * B)) (Msg ++ [128]) = bs ++ [128]) as Hdrop.
  { rewrite HM, <- app_assoc. replace (Z.to_nat (64 * B)) with (length pre) by (unfold zlen in Hpre; lia). apply drop_app_length. }
  pose proof (zlen_pad) as Hpad. rewrite (bool_decide_eq_true_2 (p + 1 > p)) by lia. cbn [andb]. cbv zeta.
  destruct (decide (56 > e)) as [He|He].
  - rewrite bool_decide_eq_true_2 by done. eexists. split; [done|].
    assert (64 * (B + 1) = zlen (pad Msg)) as Hend by (rewrite Hpad, Hz; Z.to_euclidean_division_equations; lia).
    eapply hash_blocks; [|exact Hend]. apply good_step; [done|rewrite zlen_set; apply Hmark|].
    apply final_words; [by rewrite Hdrop|lia|done|lia].
  - rewrite bool_decide_eq_false_2 by done.
    assert (64 * (B + 1 + 1) = zlen (pad Msg)) as Hend by (rewrite Hpad, Hz; unfold e in *; Z.to_euclidean_division_equations; lia).
    apply (blocks_last _ _ _ _ _ _ _ _ (B + 1)); [| |done|lia|unfold e in *; lia|done|lia].
    + apply good_step; [done|apply Hmark|]. apply (take_block _ _ _ (bs ++ [128])); [done|].
      intros i Hi. rewrite pad_agrees by lia. by rewrite Hdrop.
    + replace (Z.to_nat (64 * (B + 1))) with (Z.to_nat (64 * B) + 64)%nat by lia. rewrite <- drop_drop, Hdrop. by apply carry_packed.
Qed.

Lemma blocks_run fuel n G k m w q B pre carry :
  good q w B → utf16 n = true → Msg = pre ++ carry ++ utf8_of n → zlen pre = 64 * B → zlen carry = k → k ≤ 3 →
  packed (G :: replicate 63 0) carry → m = 64 * B + k → (length n + 2 < fuel)%nat →
  ∀ p, ∃ q', blocks fuel n p (p - zlen n) k m G w q = Ret q' ∧ u <$> q' = hash Msg.
Proof.
  revert n G k m w q B pre carry. induction fuel as [|fuel IH]; intros n G k m w q B pre carry Hg Hn HM Hpre Hk Hk3 Hp -> Hf p; [lia|].
  subst k. set (k := zlen carry) in *. cbn [blocks]. fold k.
  destruct (fill_string n _ carry (p - zlen n) Hn Hp) as (s & x & n' & Hfill & Hp' & H8 & Hn' & H67 & Hstop & Hle & Hlt); [lia|].
  fold k in Hfill. cbn [replicate] in Hfill |- *. rewrite Hfill. clear Hfill.
  set (bs := carry ++ x) in *. replace (p - zlen n + (zlen n - zlen n')) with (p - zlen n') by lia.
  rewrite H8, (app_assoc carry) in HM. fold bs in HM.
  replace (64 * B + k + (zlen bs - k)) with (64 * B + zlen bs) by lia.
  destruct (decide (n' = [])) as [->|Hne].
  - cbn [utf8_of] in HM. rewrite app_nil_r in HM. change (zlen []) with 0. rewrite Z.sub_0_r, decide_True by done.
    destruct fuel as [|fuel]; [lia|].
    apply (blocks_mark fuel s bs p _ w q B pre); try done. rewrite HM, zlen_app. lia.
  - destruct Hstop as [|H64]; [done|]. pose proof Hg as (HB & _).
    assert (0 < zlen n') by (destruct n'; [done|rewrite zlen_cons; pose proof (zlen_nonneg n'); lia]).
    rewrite decide_False, bool_decide_eq_false_2 by lia. cbn [andb].
    assert (zlen Msg = 64 * B + zlen bs + zlen (utf8_of n')) as Hz by (rewrite HM, !zlen_app; lia).
    pose proof (zlen_nonneg (utf8_of n')). pose proof (zlen_pad) as Hpad.
    apply (IH n' _ _ _ _ _ (B + 1) (pre ++ take 64 bs) (drop 64 bs)); try done.
    + apply good_step; [done|apply Hp'|]. apply (take_block _ _ _ bs); [done|]. intros i Hi.
      rewrite pad_bytes by (rewrite Hpad, Hz; Z.to_euclidean_division_equations; lia).
      rewrite byte_at_app_l by lia. rewrite HM, <- Hpre, byte_at_app_r by lia. by rewrite byte_at_app_l by lia.
    + by rewrite HM, <- app_assoc, (app_assoc (take 64 bs)), take_drop.
    + rewrite zlen_app, zlen_take. lia.
    + rewrite zlen_drop. lia.
    + lia.
    + by apply carry_packed.
    + lia.
    + assert (n ≠ []) by (intros ->; cbn in Hle; destruct n'; [done|cbn in Hle; lia]). specialize (Hlt ltac:(lia) ltac:(done)). lia.
Qed.

End message.

(** The words of the code, modulo [2 ^ 32]. *)
Lemma sha256_words (n : jsstr) :
  utf16 n = true → 8 * zlen (utf8_of n) < 2 ^ 32 →
  ∃ q, sha256 n = Ret q ∧ to_uint32 <$> q = hash (utf8_of n).
Proof.
  intros Hn Hlen. unfold sha256.
  destruct (blocks_run (utf8_of n) Hlen (length n + 3) n 0 0 0 true initial 0 [] []) with (p := zlen n) as (q & Hq & Hh);
    try done; [..|lia|].
  - split; [done|unfold zlen; cbn; lia|done|]. intros i Hi. unfold be_word.
    assert (∀ k, byte_at [] k = 0) as Hnil by (intros k; unfold byte_at, aget; by case_decide). rewrite !Hnil.
    unfold get. change (0 :: replicate 63 0) with (replicate 64 0). by rewrite aget_replicate by lia.
  - rewrite Z.sub_diag in Hq. eauto.
Qed.

(** They are signed words. *)
Lemma blocks_signed fuel n p j k m G w q q' :
  blocks fuel n p j k m G w q = Ret q' → to_int32 <$> (to_uint32 <$> q') = q'.
Proof.
  revert n j k m G w q. induction fuel as [|fuel IH]; intros n j k m G w q; [done|]. cbn [blocks].
  destruct (fill _ _ _) as [[[s e] j1] n1]. destruct (decide (j1 = p)) as [->|];
    (destruct (_ && _); [|apply IH]); intros [= <-]; unfold compress, js_shl; cbn [fmap list_fmap];
    by rewrite !to_int32_to_uint32, !(to_int32_small (to_int32 _)) by apply to_int32_range.
Qed.

(** C18: The hash of a string is the SHA-256 hash of its UTF-8 bytes, as eight
    signed words, for every string of paired surrogates whose number of bits fits
    in 32 bits. *)
Theorem sha256_correct (n : jsstr) :
  utf16 n = true → 8 * zlen (utf8_of n) < 2 ^ 32 → sha256 n = Ret (to_int32 <$> hash (utf8_of n)).
Proof.
  intros Hn Hlen. destruct (sha256_words n Hn Hlen) as (q & Hq & <-). rewrite Hq. f_equal. symmetry.
  by eapply blocks_signed.
Qed.

Lemma sha256_correct_witness :
  sha256 (jstr "hello world") = Ret (to_int32 <$> hash (utf8_of (jstr "hello world"))).
Proof. apply (sha256_correct (jstr "hello world")); vm_compute; reflexivity. Defined.

End Sha256Message.
