(* ===== verification/CacheDigest.v ===== *)
(** * Cache digests

    Model of [src/misc/cache-digest.js/cache-digest.js]: a service worker tells the
    server which pages it has cached by a Golomb coded set of truncated hashes of
    their addresses.  Modelled are the computation of the digest, its encoding,
    and the test for fresh responses; the handlers of the service worker, which
    fetch and cache, are not.

    The theorems: decoding a digest gives back exactly the truncated SHA-256
    hashes of the addresses, and decoding its text gives back the digest. *)

From S2P Require Import Prelude Lang SearchResult Sha256 Sha256Message.

Local Open Scope Z_scope.
Local Open Scope js_scope.

Module CacheDigest.

Abbreviation byte := Sha256Message.byte.

(** ** Model *)

Record BitCoder := { value : list Z; leftBits : Z }.

Definition new : BitCoder := {| value := []; leftBits := 0 |}.

Definition addBit (c : BitCoder) (b : bool) : BitCoder :=
  let c := if decide (leftBits c = 0) then {| value := value c ++ [0]; leftBits := 8 |} else c in
  let left := leftBits c - 1 in
  let last := (length (value c) - 1)%nat in
  {| value := if b then alter (λ v, v |' (1 <<' left)) last (value c) else value c; leftBits := left |}.

(** From the most significant of [nbits] bits on. *)
Definition addBits (c : BitCoder) (v nbits : Z) : BitCoder :=
  foldl (λ c i, addBit c (bool_decide (v &' (1 <<' i) ≠ 0))) c (reverse (seqZ 0 nbits)).

Definition gcs_step (bits_fixed : Z) (cp : BitCoder * Z) (x : Z) : BitCoder * Z :=
  let '(c, prev) := cp in
  if decide (prev = x) then (c, prev)
  else
    let v := x - prev - 1 in
    let c := foldl addBit c (replicate (Z.to_nat (v >>' bits_fixed)) false) in
    let c := addBit c true in
    (addBits c v bits_fixed, x).

Definition gcsEncode (c : BitCoder) (values : list Z) (bits_fixed : Z) : BitCoder :=
  (foldl (gcs_step bits_fixed) (c, -1) (js_sort (λ a b, a - b) values)).1.

Definition TOKENS : jsstr := jstr "ABCDEFGHIJKLMNOPQRSTUVWXYZabcdefghijklmnopqrstuvwxyz0123456789-_".

(** [undefined] counts as [0] in the bitwise operations. *)
Definition quad_at (buf : list Z) (pos : Z) : jsstr :=
  let quad := ((int_of (aget buf pos) <<' 16) |' (int_of (aget buf (pos + 1)) <<' 8)) |' int_of (aget buf (pos + 2)) in
  charAt TOKENS (quad >>' 18) ++ charAt TOKENS ((quad >>' 12) &' 63) ++ charAt TOKENS ((quad >>' 6) &' 63) ++
  charAt TOKENS (quad &' 63).

Fixpoint base64_loop (fuel : nat) (buf : list Z) (pos : Z) (str : jsstr) : outcome (Z * jsstr) :=
  match fuel with
  | O => NoFuel
  | S fuel => if decide (pos < zlen buf) then base64_loop fuel buf (pos + 3) (str ++ quad_at buf pos) else Ret (pos, str)
  end.

Definition base64Encode (buf : list Z) : outcome jsstr :=
  '(pos, str) ← base64_loop (S (length buf)) buf 0 [];
  Ret (Lang.substring str 0 (zlen str - pos + zlen buf)).

Definition sha256Truncated (src : jsstr) (bits : Z) : outcome Z :=
  q ← Sha256.sha256 src;
  x ← of_option (aget q 0);
  Ret (((x >>' 1) &' 0x7fffffff) >>' (31 - bits)).

(** [Math.round(Math.log(n) * 1.4426950408889634)]: the integer next to the binary
    logarithm of [n], that is the largest [k] with [4 ^ k <= 2 * n * n]. *)
Definition round_log2 (n : Z) : Z := Z.log2 (2 * n * n) / 2.

Definition calcDigestValue (urls : list jsstr) (pbits : Z) : outcome (option (list Z)) :=
  let nbits := round_log2 (Z.max (zlen urls) 1) in
  if decide (nbits + pbits > 31) then Ret None
  else
    hashes ← omap_list (λ url, sha256Truncated url (nbits + pbits)) urls;
    Ret (Some (value (gcsEncode (addBits (addBits new nbits 5) pbits 5) hashes pbits))).

Example digest_empty : calcDigestValue [] 7 = Ret (Some [0x01; 0xc0]).
Proof. vm_compute. reflexivity. Qed.

Example digest_two :
  calcDigestValue [jstr "https://example.com/style.css"; jstr "https://example.com/jquery.js"] 7 =
  Ret (Some [0x09; 0xd6; 0x50; 0xe0]).
Proof. vm_compute. reflexivity. Qed.

Example base64_hello : base64Encode (jstr "hello") = Ret (jstr "aGVsbG8").
Proof. vm_compute. reflexivity. Qed.


(** ** The bits of a digest *)

Definition byte_bits (v : Z) : list bool := Z.testbit v <$> [7; 6; 5; 4; 3; 2; 1; 0].
Definition bits_of (bs : list Z) : list bool := bs ≫= byte_bits.

(** The coder holds the bits [l], filled up with zeros. *)
Definition coded (c : BitCoder) (l : list bool) : Prop :=
  0 ≤ leftBits c < 8 ∧ bits_of (value c) = l ++ replicate (Z.to_nat (leftBits c)) false ∧ Forall byte (value c).

Lemma coded_new : coded new [].
Proof. split_and!; cbn; [lia|lia|done|constructor]. Qed.

Lemma byte_or v i : byte v → 0 ≤ i < 8 → byte (v |' (1 <<' i)).
Proof.
  unfold Sha256Message.byte. intros Hv Hi. assert (2 ^ i ≤ 2 ^ 7) by (apply Z.pow_le_mono_r; lia).
  rewrite js_shl_mul by lia. unfold js_or. rewrite !to_int32_small by lia.
  split; [apply Z.lor_nonneg; lia|]. destruct (decide (Z.lor v (1 * 2 ^ i) = 0)) as [->|]; [lia|].
  apply (Z.log2_lt_pow2 _ 8); [assert (0 ≤ Z.lor v (1 * 2 ^ i)) by (apply Z.lor_nonneg; lia); lia|].
  rewrite Z.log2_lor by lia. rewrite Z.mul_1_l, Z.log2_pow2 by lia.
  destruct (decide (v = 0)) as [->|]; [cbn; lia|]. assert (Z.log2 v < 8) by (apply Z.log2_lt_pow2; lia). lia.
Qed.

Lemma testbit_or v i k : byte v → 0 ≤ i < 8 → 0 ≤ k < 8 → Z.testbit (v |' (1 <<' i)) k = Z.testbit v k || (k =? i).
Proof.
  intros Hv Hi Hk. rewrite testbit_js_or by lia. f_equal. rewrite js_shl_mul, Z.mul_1_l, Z.pow2_bits_eqb by
    (pose proof (Z.pow_le_mono_r 2 i 7); lia).
  apply Z.eqb_sym.
Qed.

(** Setting the first of the free bits of the last byte. *)
Lemma byte_bits_set v i (p : list bool) : byte v → 0 ≤ i < 8 →
  byte_bits v = p ++ replicate (Z.to_nat (i + 1)) false →
  byte_bits (v |' (1 <<' i)) = p ++ true :: replicate (Z.to_nat i) false.
Proof.
  intros Hv Hi Hp. unfold byte_bits in *.
  assert ((Z.testbit (v |' (1 <<' i)) <$> [7; 6; 5; 4; 3; 2; 1; 0]) =
    (λ k, Z.testbit v k || (k =? i)) <$> [7; 6; 5; 4; 3; 2; 1; 0]) as ->.
  { apply list_fmap_ext. intros k x Hx. apply testbit_or; [done|done|].
    do 8 (destruct k as [|k]; [injection Hx as <-; lia|]). done. }
  assert (i = 0 ∨ i = 1 ∨ i = 2 ∨ i = 3 ∨ i = 4 ∨ i = 5 ∨ i = 6 ∨ i = 7) as Hc by lia.
  assert (length p = Z.to_nat (7 - i)) as Hl.
  { apply (f_equal length) in Hp. rewrite length_app, length_replicate in Hp. cbn [length fmap list_fmap] in Hp. lia. }
  revert Hp. generalize (Z.testbit v). intros b Hp.
  destruct_or! Hc; subst i; repeat (destruct p as [|? p]; [done|]); destruct p; try done;
    vm_compute in Hp; simplify_eq; cbn; rewrite ?orb_false_r;
    repeat match goal with H : b _ = false |- _ => rewrite H; clear H end; reflexivity.
Qed.

Lemma bits_of_app bs bs' : bits_of (bs ++ bs') = bits_of bs ++ bits_of bs'.
Proof. apply bind_app. Qed.

Lemma bits_of_one v : bits_of [v] = byte_bits v.
Proof. apply app_nil_r. Qed.

(** The free bits are in the last byte. *)
Lemma last_split bs l n : (0 < n ≤ 8)%nat → bits_of bs = l ++ replicate n false →
  ∃ bs' v p, bs = bs' ++ [v] ∧ l = bits_of bs' ++ p ∧ byte_bits v = p ++ replicate n false.
Proof.
  intros Hn H. destruct bs as [|v bs' _] using rev_ind.
  { destruct n; [lia|]. by destruct l. }
  rewrite bits_of_app, bits_of_one in H. exists bs', v. apply app_eq_inv in H as [(k & Hk & Hr)|(k & Hk & Hr)].
  - exists []. assert (k = []) as ->.
    { apply (f_equal length) in Hr. rewrite length_app, length_replicate in Hr.
      apply length_zero_iff_nil. change (length (byte_bits v)) with 8%nat in Hr. lia. }
    rewrite app_nil_r in *. by subst.
  - by exists k.
Qed.

Lemma replicate_pred n : 1 ≤ n → replicate (Z.to_nat n) false = false :: replicate (Z.to_nat (n - 1)) false.
Proof. intros. by replace (Z.to_nat n) with (S (Z.to_nat (n - 1))) by lia. Qed.

Lemma addBit_coded c l b : coded c l → coded (addBit c b) (l ++ [b]).
Proof.
  intros (Hleft & Hbits & Hbytes). unfold addBit.
  set (c1 := if decide (leftBits c = 0) then _ else _).
  assert (1 ≤ leftBits c1 ≤ 8 ∧ bits_of (value c1) = l ++ replicate (Z.to_nat (leftBits c1)) false ∧
    Forall byte (value c1)) as (Hl1 & Hb1 & Hy1).
  { subst c1. case_decide as H0; [|split_and!; done || lia]. cbn [value leftBits].
    rewrite bits_of_app, Hbits, H0, app_nil_r. split_and!; [lia|lia|done|].
    apply Forall_app. split; [done|]. constructor; [|done]. unfold Sha256Message.byte. lia. }
  clearbody c1. clear Hleft Hbits Hbytes. unfold coded. cbn [value leftBits]. split; [lia|].
  destruct b; [|rewrite replicate_pred in Hb1 by lia; rewrite <- app_assoc; done].
  destruct (last_split (value c1) l (Z.to_nat (leftBits c1))) as (bs & v & p & Hv & -> & Hp); [lia|done|].
  rewrite Hv in *. apply Forall_app in Hy1 as [Hbs [Hvb _]%Forall_cons].
  rewrite length_app. cbn [length]. replace (length bs + 1 - 1)%nat with (length bs + 0)%nat by lia.
  rewrite alter_app_r. cbn [alter list_alter]. rewrite bits_of_app, bits_of_one. split.
  - rewrite (byte_bits_set v (leftBits c1 - 1) p); [by rewrite <- !app_assoc|done|lia|].
    rewrite Hp. do 2 f_equal. lia.
  - apply Forall_app. split; [done|]. constructor; [|done]. apply byte_or; [done|lia].
Qed.

Lemma foldl_coded {A} (f : A → bool) c l (xs : list A) :
  coded c l → coded (foldl (λ c x, addBit c (f x)) c xs) (l ++ (f <$> xs)).
Proof.
  revert c l. induction xs as [|x xs IH]; intros c l Hc; cbn [foldl fmap list_fmap]; [by rewrite app_nil_r|].
  rewrite (cons_middle (f x)), app_assoc. by apply IH, addBit_coded.
Qed.

(** The bits of a number, the most significant of [n] first. *)
Fixpoint be_bits (n : nat) (v : Z) : list bool :=
  match n with O => [] | S n => Z.testbit v (Z.of_nat n) :: be_bits n v end.

Lemma addBits_coded c l v n : coded c l → 0 ≤ n < 32 → coded (addBits c v n) (l ++ be_bits (Z.to_nat n) v).
Proof.
  intros Hc Hn. unfold addBits.
  enough (be_bits (Z.to_nat n) v = (λ i, bool_decide (v &' (1 <<' i) ≠ 0)) <$> reverse (seqZ 0 n)) as ->
    by by apply foldl_coded.
  replace n with (Z.of_nat (Z.to_nat n)) in Hn |- * by lia. rewrite Nat2Z.id. clear Hc c l.
  induction (Z.to_nat n) as [|k IH]; [done|]. cbn [be_bits].
  rewrite Nat2Z.inj_succ, <- Z.add_1_r, seqZ_app by lia. change (seqZ (0 + Z.of_nat k) 1) with [0 + Z.of_nat k].
  rewrite reverse_snoc. cbn [fmap list_fmap]. rewrite js_and_bit by lia. f_equal. apply IH. lia.
Qed.

(** ** Reading a digest *)

Definition be_num (l : list bool) : Z := foldl (λ acc (b : bool), 2 * acc + Z.b2z b) 0 l.

Definition read_bits (n : Z) (l : list bool) : option (Z * list bool) :=
  if decide (n ≤ zlen l) then Some (be_num (take (Z.to_nat n) l), drop (Z.to_nat n) l) else None.

Fixpoint read_unary (l : list bool) : option (Z * list bool) :=
  match l with
  | [] => None
  | true :: l => Some (0, l)
  | false :: l => match read_unary l with Some (q, l) => Some (q + 1, l) | None => None end
  end.

(** The elements of a Golomb coded set: the distance to the one before, its
    quotient by [2 ^ p] in unary and its remainder in [p] bits. *)
Fixpoint read_set (fuel : nat) (p prev : Z) (l : list bool) : list Z :=
  match fuel with
  | O => []
  | S fuel =>
    match read_unary l with
    | Some (q, l) =>
      match read_bits p l with
      | Some (v, l) => let x := prev + 1 + (q * 2 ^ p + v) in x :: read_set fuel p x l
      | None => []
      end
    | None => []
    end
  end.

(** The logarithms of the number of elements and of the probability of a false
    positive, and the elements. *)
Definition read_digest (bs : list Z) : option (Z * Z * list Z) :=
  match read_bits 5 (bits_of bs) with
  | Some (n, l) =>
    match read_bits 5 l with
    | Some (p, l) => Some (n, p, read_set (S (length l)) p (-1) l)
    | None => None
    end
  | None => None
  end.

Lemma be_bits_num n v acc :
  foldl (λ acc (b : bool), 2 * acc + Z.b2z b) acc (be_bits n v) = acc * 2 ^ Z.of_nat n + v mod 2 ^ Z.of_nat n.
Proof.
  revert acc. induction n as [|n IH]; intros acc; cbn [be_bits foldl]; [rewrite Z.mod_1_r; lia|].
  rewrite IH, Z.testbit_spec', Nat2Z.inj_succ, Z.pow_succ_r, (Z.mul_comm 2 (2 ^ _)), Z.rem_mul_r by lia. lia.
Qed.

Lemma length_be_bits n v : length (be_bits n v) = n.
Proof. induction n; cbn; congruence. Qed.

Lemma read_bits_be n v l : 0 ≤ n → read_bits n (be_bits (Z.to_nat n) v ++ l) = Some (v mod 2 ^ n, l).
Proof.
  intros Hn. unfold read_bits. pose proof (length_be_bits (Z.to_nat n) v) as Hlen.
  rewrite decide_True by (rewrite zlen_app; unfold zlen; lia).
  rewrite take_app_length', drop_app_length' by done. unfold be_num. rewrite be_bits_num. do 2 f_equal.
  rewrite Z2Nat.id by lia. lia.
Qed.

Lemma read_unary_code q l : read_unary (replicate q false ++ true :: l) = Some (Z.of_nat q, l).
Proof. induction q as [|q IH]; [done|]. cbn [replicate app read_unary]. rewrite IH. do 2 f_equal. lia. Qed.

Lemma read_unary_zeros q : read_unary (replicate q false) = None.
Proof. induction q as [|q IH]; [done|]. cbn [replicate read_unary]. by rewrite IH. Qed.

(** ** The coded set *)

Fixpoint gcs_bits (p prev : Z) (xs : list Z) : list bool :=
  match xs with
  | [] => []
  | x :: xs =>
    if decide (prev = x) then gcs_bits p prev xs
    else
      replicate (Z.to_nat ((x - prev - 1) / 2 ^ p)) false ++ true :: be_bits (Z.to_nat p) (x - prev - 1) ++ gcs_bits p x xs
  end.

Fixpoint uniq (prev : Z) (xs : list Z) : list Z :=
  match xs with
  | [] => []
  | x :: xs => if decide (prev = x) then uniq prev xs else x :: uniq x xs
  end.

(** In ascending order after [prev], and of 31 bits. *)
Definition ascending (prev : Z) (xs : list Z) : Prop :=
  StronglySorted Z.le xs ∧ Forall (λ x, prev ≤ x < 2 ^ 31) xs.

Lemma ascending_cons prev x xs : ascending prev (x :: xs) → prev ≤ x < 2 ^ 31 ∧ ascending x xs.
Proof.
  intros [[Hs Hx]%StronglySorted_inv [Hp Hall]%Forall_cons]. split; [done|]. split; [done|].
  apply Forall_forall. intros y Hy. rewrite Forall_forall in Hx, Hall. specialize (Hx y Hy). specialize (Hall y Hy). lia.
Qed.

Lemma gcs_coded c l p prev xs : coded c l → 0 ≤ p < 32 → -1 ≤ prev → ascending prev xs →
  coded (foldl (gcs_step p) (c, prev) xs).1 (l ++ gcs_bits p prev xs).
Proof.
  intros Hc Hp. revert c l prev Hc. induction xs as [|x xs IH]; intros c l prev Hc Hprev Hxs; cbn [foldl gcs_bits gcs_step].
  { by rewrite app_nil_r. }
  apply ascending_cons in Hxs as [Hx Hxs]. case_decide as Heq; [subst x; by apply IH|].
  rewrite js_sar_div by lia. rewrite cons_middle, !app_assoc. apply IH; [|lia|done].
  apply addBits_coded; [|lia]. apply addBit_coded.
  pose proof (foldl_coded id c l (replicate (Z.to_nat ((x - prev - 1) / 2 ^ p)) false) Hc) as H. by rewrite list_fmap_id in H.
Qed.

Lemma read_set_coded fuel p prev xs k : 0 ≤ p → ascending prev xs → (length (gcs_bits p prev xs) < fuel)%nat →
  read_set fuel p prev (gcs_bits p prev xs ++ replicate k false) = uniq prev xs.
Proof.
  intros Hp. revert fuel prev. induction xs as [|x xs IH]; intros fuel prev Hxs Hfuel; cbn [gcs_bits uniq] in *.
  { destruct fuel; [done|]. cbn [read_set app]. by rewrite read_unary_zeros. }
  apply ascending_cons in Hxs as [Hx Hxs]. case_decide as Heq; [subst x; by apply IH|].
  rewrite length_app, length_cons, length_app in Hfuel. destruct fuel as [|fuel]; [lia|]. cbn [read_set].
  assert (0 < 2 ^ p) by (apply Z.pow_pos_nonneg; lia).
  rewrite <- app_assoc, <- app_comm_cons, read_unary_code, <- app_assoc, read_bits_be by lia. cbn zeta.
  rewrite Z2Nat.id by (apply Z.div_pos; lia).
  replace (prev + 1 + _) with x by (pose proof (Z.div_mod (x - prev - 1) (2 ^ p)); lia).
  f_equal. apply IH; [done|lia].
Qed.

Lemma uniq_spec prev xs : ascending prev xs →
  StronglySorted Z.lt (uniq prev xs) ∧ ∀ x, x ∈ uniq prev xs ↔ x ∈ xs ∧ x ≠ prev.
Proof.
  revert prev. induction xs as [|x xs IH]; intros prev Hxs; cbn [uniq].
  { split; [constructor|]. set_solver. }
  apply ascending_cons in Hxs as [Hx Hxs]. destruct (IH x Hxs) as [Hs Hin].
  assert (∀ y, y ∈ xs → x ≤ y) as Hle by (destruct Hxs as [_ Hall]; rewrite Forall_forall in Hall; naive_solver).
  case_decide as Heq; [subst x; split; [done|]; intros y; rewrite Hin; set_solver|]. split.
  - constructor; [done|]. apply Forall_forall. intros y [Hy Hne]%Hin. specialize (Hle y Hy). lia.
  - intros y. rewrite !elem_of_cons, Hin. split; [|destruct (decide (y = x)); tauto].
    intros [->|[Hy Hne]]; [by split; [left|]|]. specialize (Hle y Hy). split; [by right|lia].
Qed.

(** ** The hashes *)

(** The first [bits] bits of the SHA-256 hash of an address. *)
Definition url_hash (bits : Z) (url : jsstr) : Z :=
  int_of (aget (Sha256Message.hash (Sha256Message.utf8_of url)) 0) / 2 ^ (32 - bits).

(** Paired surrogates, and no more than 512 megabytes. *)
Definition url_ok (url : jsstr) : Prop :=
  Sha256Message.utf16 url = true ∧ 8 * zlen (Sha256Message.utf8_of url) < 2 ^ 32.

Lemma zlen_hash m : zlen (Sha256Message.hash m) = 8.
Proof.
  unfold Sha256Message.hash. assert (zlen Sha256.initial = 8) as H by done. revert H. generalize Sha256.initial.
  induction (seqZ _ _) as [|i ks IH]; intros q Hq; cbn [foldl]; [done|]. apply IH. unfold Sha256.hash_block, zlen in *.
  rewrite length_zip_with. cbn [length]. lia.
Qed.

Lemma top_bits x bits : 0 ≤ bits ≤ 31 → ((x >>' 1) &' 0x7fffffff) >>' (31 - bits) = to_uint32 x / 2 ^ (32 - bits).
Proof.
  intros Hb. rewrite js_and_mask by lia. change 0x7fffffff with (Z.ones 31). rewrite Z.land_ones by lia.
  replace (to_uint32 (x >>' 1) mod 2 ^ 31) with (to_uint32 x / 2).
  - pose proof (to_uint32_range x). rewrite js_sar_div by (Z.to_euclidean_division_equations; lia).
    replace (32 - bits) with (1 + (31 - bits)) by lia.
    rewrite Z.pow_add_r, Z.pow_1_r, Z.div_div by (try apply Z.pow_pos_nonneg; lia). done.
  - rewrite <- (to_uint32_to_int32 x). unfold js_sar. change (1 mod 32) with 1. rewrite Z.shiftr_div_pow2 by lia.
    unfold to_uint32. pose proof (to_int32_range x). Z.to_euclidean_division_equations. lia.
Qed.

Lemma sha256Truncated_spec url bits : url_ok url → 0 ≤ bits ≤ 31 → sha256Truncated url bits = Ret (url_hash bits url).
Proof.
  intros [H16 Hlen] Hb. destruct (Sha256Message.sha256_words url H16 Hlen) as (q & Hq & Hh). unfold sha256Truncated.
  rewrite Hq. cbn [mbind outcome_bind]. pose proof (zlen_hash (Sha256Message.utf8_of url)) as H8.
  unfold url_hash. rewrite <- Hh in *. rewrite zlen_fmap in H8. rewrite aget_fmap.
  destruct (aget_is_Some q 0) as [x ->]; [lia|]. cbn [of_option mbind outcome_bind fmap option_fmap option_map int_of default].
  by rewrite top_bits.
Qed.

Lemma url_hash_range bits url : 0 ≤ bits ≤ 31 → url_ok url → 0 ≤ url_hash bits url < 2 ^ 31.
Proof.
  intros Hb [H16 Hlen]. destruct (Sha256Message.sha256_words url H16 Hlen) as (q & Hq & Hh). unfold url_hash. rewrite <- Hh.
  rewrite aget_fmap. destruct (aget q 0) as [x|]; cbn; [|rewrite Z.div_0_l by lia; lia].
  pose proof (to_uint32_range x). assert (2 ^ 1 ≤ 2 ^ (32 - bits)) by (apply Z.pow_le_mono_r; lia).
  split; [apply Z.div_pos; lia|]. apply Z.div_lt_upper_bound; [lia|]. nia.
Qed.

Lemma round_log2_nonneg n : 0 ≤ round_log2 n.
Proof. apply Z.div_pos; [apply Z.log2_nonneg|lia]. Qed.

Lemma round_log2_le n k : 0 < n ≤ 2 ^ k → 0 ≤ k → round_log2 n ≤ k.
Proof.
  intros Hn Hk. unfold round_log2. assert (2 * n * n ≤ 2 ^ (2 * k + 1)) as Hle.
  { rewrite Z.pow_add_r, Z.mul_comm, Z.pow_mul_r by lia. change (2 ^ 2) with 4. change (2 ^ 1) with 2.
    replace (4 ^ k) with (2 ^ k * 2 ^ k) by (rewrite <- Z.pow_mul_l; done). nia. }
  apply Z.log2_le_mono in Hle. rewrite Z.log2_pow2 in Hle by lia. Z.to_euclidean_division_equations. lia.
Qed.

(** The number is next to the logarithm: [2 ^ (k - 1/2) <= n < 2 ^ (k + 1/2)]. *)
Lemma round_log2_spec n : 0 < n → 4 ^ round_log2 n ≤ 2 * n * n < 4 ^ (round_log2 n + 1).
Proof.
  intros Hn. unfold round_log2. set (m := 2 * n * n). assert (0 < m) as Hm by (subst m; nia).
  pose proof (Z.log2_spec m Hm) as [Hl Hu]. pose proof (Z.log2_nonneg m).
  change 4 with (2 ^ 2). rewrite <- !Z.pow_mul_r by (try apply Z.add_nonneg_nonneg; try apply Z.div_pos; lia). split.
  - etrans; [|apply Hl]. apply Z.pow_le_mono_r; Z.to_euclidean_division_equations; lia.
  - eapply Z.lt_le_trans; [apply Hu|]. apply Z.pow_le_mono_r; Z.to_euclidean_division_equations; lia.
Qed.

(** A digest says which pages are cached: it is made for every list of up to
    [2 ^ (31 - pbits)] addresses, and reading it gives the number of bits of the
    logarithm and of the probability and, in ascending order and each once, the
    first [nbits + pbits] bits of the SHA-256 hashes of the addresses. *)
Lemma digest_correct (urls : list jsstr) (pbits : Z) :
  let nbits := round_log2 (Z.max (zlen urls) 1) in
  Forall url_ok urls → 0 ≤ pbits → nbits + pbits ≤ 31 →
  ∃ bs hs, calcDigestValue urls pbits = Ret (Some bs) ∧ Forall byte bs ∧ read_digest bs = Some (nbits, pbits, hs) ∧
    StronglySorted Z.lt hs ∧ ∀ h, h ∈ hs ↔ ∃ url, url ∈ urls ∧ h = url_hash (nbits + pbits) url.
Proof.
  intros nbits Hurls Hp Hsum. pose proof (round_log2_nonneg (Z.max (zlen urls) 1)) as Hn. fold nbits in Hn.
  set (hashes := url_hash (nbits + pbits) <$> urls). set (xs := js_sort (λ a b, a - b) hashes).
  assert (ascending (-1) xs) as Hxs.
  { split; [by apply (js_sort_sorted _ id)|]. unfold xs. rewrite js_sort_perm. apply Forall_fmap.
    eapply Forall_impl; [exact Hurls|]. intros url Hok. pose proof (url_hash_range (nbits + pbits) url ltac:(lia) Hok). cbn. lia. }
  pose proof (addBits_coded _ _ pbits 5 (addBits_coded _ _ nbits 5 coded_new ltac:(lia)) ltac:(lia)) as Hc.
  apply (gcs_coded _ _ pbits (-1) xs) in Hc as (Hl & Hbits & Hbytes); [|lia|lia|done].
  eexists _, (uniq (-1) xs). unfold calcDigestValue. fold nbits. rewrite decide_False by lia.
  rewrite (omap_list_pure _ (url_hash (nbits + pbits))). 2: { intros url Hu. apply sha256Truncated_spec; [|lia].
    rewrite Forall_forall in Hurls. by apply Hurls. }
  split; [reflexivity|]. split; [exact Hbytes|]. split.
  - unfold read_digest. fold hashes xs. unfold gcsEncode. fold xs. rewrite Hbits, <- !app_assoc. cbn [app].
    rewrite (read_bits_be 5), (read_bits_be 5) by lia. rewrite !Z.mod_small by lia. do 2 f_equal.
    apply read_set_coded; [done|done|]. rewrite length_app. lia.
  - destruct (uniq_spec (-1) xs Hxs) as [Hs Hin]. split; [done|]. intros h. rewrite Hin. unfold xs. rewrite js_sort_perm.
    unfold hashes. rewrite list_elem_of_fmap. split; [intros [(url & -> & Hu) _]; eauto|].
    intros (url & Hu & ->). rewrite Forall_forall in Hurls. pose proof (url_hash_range (nbits + pbits) url ltac:(lia) (Hurls url Hu)).
    split; [eauto|lia].
Qed.

(** ** The order of the addresses *)

Lemma js_sort_unique l l' : l ≡ₚ l' → js_sort (λ a b, a - b) l = js_sort (λ a b, a - b) l'.
Proof.
  intros Hp. apply (StronglySorted_unique Z.le); [by apply (js_sort_sorted _ id)..|]. by rewrite !js_sort_perm.
Qed.

(** The digest does not depend on the order of the addresses. *)
Lemma digest_order (urls urls' : list jsstr) (pbits : Z) :
  Forall url_ok urls → 0 ≤ pbits → urls ≡ₚ urls' → calcDigestValue urls pbits = calcDigestValue urls' pbits.
Proof.
  intros Hok Hp Hperm. unfold calcDigestValue, zlen. rewrite <- (Permutation_length Hperm). case_decide as Hbits; [done|].
  pose proof (round_log2_nonneg (Z.max (Z.of_nat (length urls)) 1)) as Hn. set (nbits := round_log2 _) in *.
  assert (∀ us, Forall url_ok us →
    omap_list (λ url, sha256Truncated url (nbits + pbits)) us = Ret (url_hash (nbits + pbits) <$> us)) as Hmap.
  { intros us Hus. apply omap_list_pure. intros url Hu. apply sha256Truncated_spec; [|lia].
    rewrite Forall_forall in Hus. by apply Hus. }
  rewrite !Hmap; [|by rewrite <- Hperm|done]. cbn [mbind outcome_bind]. unfold gcsEncode.
  by rewrite (js_sort_unique _ (url_hash (nbits + pbits) <$> urls')) by (by rewrite Hperm).
Qed.

(** ** The text of a digest *)

(** Four characters are three bytes, three are two and two are one. *)
Fixpoint read_base64 (s : jsstr) : list Z :=
  let six c := indexOf TOKENS c in
  let quad a b c d := six a * 2 ^ 18 + six b * 2 ^ 12 + c * 2 ^ 6 + d in
  match s with
  | a :: b :: c :: d :: s =>
    let q := quad a b (six c) (six d) in q / 65536 :: q / 256 mod 256 :: q mod 256 :: read_base64 s
  | [a; b; c] => let q := quad a b (six c) 0 in [q / 65536; q / 256 mod 256]
  | [a; b] => [quad a b 0 0 / 65536]
  | _ => []
  end.

Lemma token_at i : 0 ≤ i < 64 → ∃ c, charAt TOKENS i = [c] ∧ indexOf TOKENS c = i.
Proof.
  assert (forallb (λ i, match charAt TOKENS i with [c] => indexOf TOKENS c =? i | _ => false end) (seqZ 0 64) = true) as H
    by (vm_compute; reflexivity).
  intros Hi. rewrite forallb_forall in H. specialize (H i). destruct (charAt TOKENS i) as [|c [|]];
    try (discriminate H; apply list_elem_of_In, elem_of_seqZ; lia).
  exists c. split; [done|]. apply Z.eqb_eq, H, list_elem_of_In, elem_of_seqZ. lia.
Qed.

Definition six_at (buf : list Z) (pos k : Z) : Z :=
  (int_of (aget buf pos) * 65536 + int_of (aget buf (pos + 1)) * 256 + int_of (aget buf (pos + 2))) / 2 ^ k mod 64.

(** The four characters stand for the groups of six bits. *)
Lemma quad_at_spec buf pos : Forall byte buf →
  ∃ a b c d, quad_at buf pos = [a; b; c; d] ∧ indexOf TOKENS a = six_at buf pos 18 ∧ indexOf TOKENS b = six_at buf pos 12 ∧
    indexOf TOKENS c = six_at buf pos 6 ∧ indexOf TOKENS d = six_at buf pos 0.
Proof.
  intros Hbuf. unfold quad_at, six_at.
  assert (∀ i, 0 ≤ int_of (aget buf i) < 256) as Hb by (intros i; apply (Sha256Message.byte_at_range buf i Hbuf)).
  pose proof (Hb pos). pose proof (Hb (pos + 1)). pose proof (Hb (pos + 2)).
  generalize dependent (int_of (aget buf (pos + 2))). generalize dependent (int_of (aget buf (pos + 1))).
  generalize dependent (int_of (aget buf pos)). intros x Hx y Hy z Hz.
  assert ((x <<' 16) |' (y <<' 8) |' z = x * 65536 + y * 256 + z) as ->.
  { rewrite !js_shl_mul by lia. rewrite (js_or_add x (y * 2 ^ 8) 16) by lia.
    replace (x * 2 ^ 16 + y * 2 ^ 8) with ((x * 2 ^ 8 + y) * 2 ^ 8) by lia. rewrite js_or_add by lia. lia. }
  set (q := x * 65536 + y * 256 + z). assert (0 ≤ q < 2 ^ 24) as Hq by lia.
  rewrite !js_sar_div by lia. change 63 with (2 ^ 6 - 1). rewrite !js_and_ones by (try apply Z.div_pos; lia).
  assert (q / 2 ^ 18 < 64) by (apply Z.div_lt_upper_bound; lia).
  destruct (token_at (q / 2 ^ 18)) as (a & -> & Ha); [split; [apply Z.div_pos|]; lia|].
  destruct (token_at ((q / 2 ^ 12) mod 2 ^ 6)) as (b & -> & Hb'); [apply Z.mod_pos_bound; lia|].
  destruct (token_at ((q / 2 ^ 6) mod 2 ^ 6)) as (c & -> & Hc); [apply Z.mod_pos_bound; lia|].
  destruct (token_at (q mod 2 ^ 6)) as (d & -> & Hd); [apply Z.mod_pos_bound; lia|].
  exists a, b, c, d. rewrite Ha, Hb', Hc, Hd, Z.div_1_r. split_and!; try done. symmetry. apply Z.mod_small.
  split; [apply Z.div_pos|]; lia.
Qed.

(** Characters of three bytes, of two and of one. *)
Lemma read_quad x y z a b c d (q := x * 65536 + y * 256 + z) : byte x → byte y → byte z →
  indexOf TOKENS a = q / 2 ^ 18 mod 64 → indexOf TOKENS b = q / 2 ^ 12 mod 64 →
  indexOf TOKENS c = q / 2 ^ 6 mod 64 → indexOf TOKENS d = q / 2 ^ 0 mod 64 →
  (∀ s, read_base64 (a :: b :: c :: d :: s) = x :: y :: z :: read_base64 s) ∧
  (z = 0 → read_base64 [a; b; c] = [x; y]) ∧ (y = 0 → z = 0 → read_base64 [a; b] = [x]).
Proof.
  unfold Sha256Message.byte. intros Hx Hy Hz Ha Hb Hc Hd. unfold read_base64; fold read_base64. rewrite Ha, Hb, Hc, Hd.
  assert (q / 65536 = x ∧ q / 256 mod 256 = y ∧ q mod 256 = z) as (Ex & Ey & Ez)
    by (subst q; split_and!; Z.to_euclidean_division_equations; lia).
  assert (q / 2 ^ 18 mod 64 * 2 ^ 18 + q / 2 ^ 12 mod 64 * 2 ^ 12 + q / 2 ^ 6 mod 64 * 2 ^ 6 + q / 2 ^ 0 mod 64 = q) as E.
  { assert (0 ≤ q < 2 ^ 24) as Hq by lia. clearbody q. change (2 ^ 0) with 1. change (2 ^ 6) with 64.
    change (2 ^ 12) with 4096. change (2 ^ 18) with 262144. Z.to_euclidean_division_equations. lia. }
  assert (z = 0 → q / 2 ^ 0 mod 64 = 0) as E0 by (intros ->; subst q; Z.to_euclidean_division_equations; lia).
  assert (y = 0 → z = 0 → q / 2 ^ 6 mod 64 = 0) as E6 by (intros -> ->; subst q; Z.to_euclidean_division_equations; lia).
  split_and!; [intros s; by rewrite E, Ex, Ey, Ez|intros E1|intros E2 E1].
  - rewrite E0 in E by done. by rewrite E, Ex, Ey.
  - rewrite E0, E6 in E by done. by rewrite E, Ex.
Qed.

(** The characters made of a byte and of what follows it. *)
Lemma quad_cons pre x rest : Forall byte (pre ++ x :: rest) →
  ∃ a b c d, quad_at (pre ++ x :: rest) (zlen pre) = [a; b; c; d] ∧
    (∀ y z rest', rest = y :: z :: rest' → ∀ s, read_base64 (a :: b :: c :: d :: s) = x :: y :: z :: read_base64 s) ∧
    (∀ y, rest = [y] → read_base64 [a; b; c] = [x; y]) ∧ (rest = [] → read_base64 [a; b] = [x]).
Proof.
  intros Hb. destruct (quad_at_spec _ (zlen pre) Hb) as (a & b & c & d & Hq & Ha & Hb' & Hc & Hd). unfold six_at in *.
  assert (∀ i, 0 ≤ i → aget (pre ++ x :: rest) (zlen pre + i) = aget (x :: rest) i) as Hget.
  { intros i Hi. rewrite aget_app_r by lia. f_equal. lia. }
  pose proof (Hget 0 ltac:(lia)) as H0. rewrite Z.add_0_r in H0. rewrite H0, !Hget in * by lia.
  assert (∀ i, byte (int_of (aget (x :: rest) i))) as Hbyte.
  { apply Forall_app in Hb as [_ Hb]. intros i. by apply Sha256Message.byte_at_range. }
  destruct (read_quad _ _ _ a b c d (Hbyte 0) (Hbyte 1) (Hbyte 2) Ha Hb' Hc Hd) as (H4 & H3 & H2).
  exists a, b, c, d. split; [done|]. split_and!; intros; subst rest; [apply H4|by apply H3|by apply H2].
Qed.

Lemma base64_text fuel pre rest str : Forall byte (pre ++ rest) → (length rest < fuel)%nat →
  ∃ k s, base64_loop fuel (pre ++ rest) (zlen pre) str = Ret (zlen pre + 3 * k, str ++ s) ∧
    0 ≤ k ∧ zlen s = 4 * k ∧ read_base64 (take (Z.to_nat (k + zlen rest)) s) = rest.
Proof.
  revert pre rest str. induction fuel as [|fuel IH]; intros pre rest str Hb Hf; [lia|]. cbn [base64_loop].
  destruct rest as [|x rest].
  { exists 0, []. rewrite decide_False by (rewrite app_nil_r; lia). rewrite app_nil_r, Z.add_0_r. done. }
  rewrite decide_True by (rewrite zlen_app, zlen_cons; pose proof (zlen_nonneg rest); lia).
  destruct (quad_cons pre x rest Hb) as (a & b & c & d & -> & H3 & H2 & H1).
  destruct rest as [|y [|z rest]].
  - exists 1, [a; b; c; d]. destruct fuel; [cbn in Hf; lia|]. cbn [base64_loop].
    rewrite decide_False by (rewrite zlen_app; change (zlen [x]) with 1; lia). split_and!; [done|lia|done|]. by apply H1.
  - exists 1, [a; b; c; d]. destruct fuel; [cbn in Hf; lia|]. cbn [base64_loop].
    rewrite decide_False by (rewrite zlen_app; change (zlen [x; y]) with 2; lia). split_and!; [done|lia|done|]. by apply H2.
  - destruct (IH (pre ++ [x; y; z]) rest (str ++ [a; b; c; d])) as (k & s & Hl & Hk & Hs & Hr).
    { by rewrite <- app_assoc. }
    { cbn in Hf. lia. }
    rewrite <- app_assoc, zlen_app in Hl. exists (k + 1), (a :: b :: c :: d :: s).
    change (zlen [x; y; z]) with 3 in Hl. cbn [app] in Hl. rewrite Hl, <- app_assoc, !zlen_cons.
    pose proof (zlen_nonneg rest). split_and!; [do 2 f_equal; lia|lia|lia|].
    replace (Z.to_nat (k + 1 + _)) with (4 + Z.to_nat (k + zlen rest))%nat by lia. cbn [take Nat.add].
    rewrite (H3 y z rest eq_refl), Hr. done.
Qed.

(** The text of a digest is the base64 code of its bytes for addresses, without
    padding: it is made for all bytes and read back as these bytes. *)
Lemma base64url_roundtrip (buf : list Z) :
  Forall byte buf → ∃ s, base64Encode buf = Ret s ∧ read_base64 s = buf.
Proof.
  intros Hb. destruct (base64_text (S (length buf)) [] buf []) as (k & s & Hl & Hk & Hs & Hr); [done|lia|].
  cbn [app] in Hl. change (zlen []) with 0 in Hl. unfold base64Encode. rewrite Hl. cbn [mbind outcome_bind].
  pose proof (zlen_nonneg buf). eexists. split; [reflexivity|]. rewrite Hs, substring_take by lia.
  etrans; [|exact Hr]. do 3 f_equal. lia.
Qed.

End CacheDigest.
