(* ===== verification/ServiceWorker.v ===== *)
(** * The service worker

    Model of the handlers of [src/misc/cache-digest.js/cache-digest.js]: the test
    for fresh responses ([isFresh]), the digest of the cached pages
    ([generateCacheDigests]) and the handler of fetch events.

    The browser's cache and [Date.parse] are not part of the program.  The cache
    is an interface, the class [CacheApi] with the one law the theorems need;
    [Date.parse] is an argument, [None] standing for [NaN].  The handler runs in
    promises, so it is split where it waits for the network, and the theorems
    about the cache hold for every interleaving of requests, answers and
    evictions.  The lookups of the digest run side by side: a [schedule] tells
    when each of them starts, which cache answers it, and in which order they
    resolve. *)

From stdpp Require Import relations.
From S2P Require Import Prelude Lang SearchResult Sha256Message CacheDigest.

Local Open Scope Z_scope.
Local Open Scope js_scope.

Module Worker.
Import CacheDigest.

(** ** Freshness *)

Definition lower (s : jsstr) : jsstr := (λ c, if decide (65 ≤ c ≤ 90) then c + 32 else c) <$> s.

(** [/^name$/i]. *)
Definition name_is (s name : jsstr) : bool := bool_decide (lower s = name).

(** [s.split(/\s*,\s*/)]: [cur] is the piece being read, [sp] the spaces after it,
    and [skip] says that only spaces followed the last comma. *)
Fixpoint split_commas (s cur sp : jsstr) (skip : bool) : list jsstr :=
  match s with
  | [] => [cur ++ sp]
  | c :: s =>
    if decide (c = 44) then cur :: split_commas s [] [] true
    else if Lang.isSpace c then
      if skip then split_commas s [] [] true else split_commas s cur (sp ++ [c]) false
    else split_commas s (cur ++ sp ++ [c]) [] false
  end.

Fixpoint skip_spaces (s : jsstr) : jsstr :=
  match s with c :: s' => if Lang.isSpace c then skip_spaces s' else s | [] => [] end.

Fixpoint skip_prefix (p s : jsstr) : option jsstr :=
  match p, s with
  | [], _ => Some s
  | a :: p, c :: s => if decide (a = c) then skip_prefix p s else None
  | _, [] => None
  end.

Definition is_digit (c : Z) : bool := bool_decide (48 ≤ c ≤ 57).

Fixpoint digits (s : jsstr) : jsstr :=
  match s with c :: s => if is_digit c then c :: digits s else [] | [] => [] end.

Definition number (s : jsstr) : Z := foldl (λ n c, 10 * n + (c - 48)) 0 s.

(** [/^\s*no-(?:cache|store)\s*$/]. *)
Definition no_cache (d : jsstr) : bool :=
  let d := skip_spaces d in
  match skip_prefix (jstr "no-cache") d, skip_prefix (jstr "no-store") d with
  | Some r, _ | None, Some r => forallb Lang.isSpace r
  | None, None => false
  end.

(** [/^\s*max-age\s*=\s*([0-9]+)/], and the number. *)
Definition max_age (d : jsstr) : option Z :=
  match skip_prefix (jstr "max-age") (skip_spaces d) with
  | None => None
  | Some d =>
    match skip_prefix (jstr "=") (skip_spaces d) with
    | None => None
    | Some d => match digits (skip_spaces d) with [] => None | n => Some (number n) end
    end
  end.

(** [Math.min(n, maxAge || Infinity)]. *)
Definition min_or_new (maxAge : option Z) (n : Z) : option Z :=
  match maxAge with
  | Some m => if decide (m = 0) then Some n else Some (Z.min n m)
  | None => Some n
  end.

(** The directives of a header; [None] is the return of [false]. *)
Fixpoint directives (ds : list jsstr) (maxAge : option Z) : option (option Z) :=
  match ds with
  | [] => Some maxAge
  | d :: ds =>
    if no_cache d then None
    else
      match max_age d with
      | Some n => directives ds (min_or_new maxAge n)
      | None => directives ds maxAge
      end
  end.

Section fresh.
Context (Date_parse : jsstr → option Z).

Fixpoint fresh_loop (headers : list (jsstr * jsstr)) (now : Z) (date maxAge : option Z) : bool :=
  match headers with
  | [] =>
    match maxAge with
    | Some m => match date with Some d => bool_decide (d + m * 1000 > now) | None => false end
    | None => false
    end
  | (name, value) :: headers =>
    if name_is name (jstr "expires") then
      match Date_parse value with
      | Some parsed => if decide (parsed ≠ 0 ∧ parsed > now) then true else fresh_loop headers now date maxAge
      | None => fresh_loop headers now date maxAge
      end
    else if name_is name (jstr "cache-control") then
      match directives (split_commas value [] [] false) maxAge with
      | None => false
      | Some maxAge => fresh_loop headers now date maxAge
      end
    else if name_is name (jstr "date") then fresh_loop headers now (Date_parse value) maxAge
    else fresh_loop headers now date maxAge
  end.

Definition isFresh (headers : list (jsstr * jsstr)) (now : Z) : bool := fresh_loop headers now (Some 0) None.

End fresh.

(** ** The browser's side *)

Record Request := mkRequest { method : jsstr; url : jsstr; mode : jsstr }.
Record Response := mkResponse { status : Z; headers : list (jsstr * jsstr); body : jsstr }.

(** A cache answers [match] with the response of an earlier [put], or with nothing. *)
Class CacheApi (C : Type) := {
  cache_empty : C;
  cache_keys : C → list Request;
  cache_match : C → Request → option Response;
  cache_put : C → Request → Response → C;
  match_empty req : cache_match cache_empty req = None;
  match_put c req res req' res' :
    cache_match (cache_put c req res) req' = Some res' → res' = res ∨ cache_match c req' = Some res';
}.

(** [/\/cache-digests?\.js(?:\?|$)/]. *)
Definition script_here (s : jsstr) : bool :=
  match skip_prefix (jstr "/cache-digest") s with
  | None => false
  | Some s =>
    let s := match s with c :: s' => if decide (c = 115) then s' else s | [] => [] end in
    match skip_prefix (jstr ".js") s with
    | Some [] => true
    | Some (c :: _) => bool_decide (c = 63)
    | None => false
    end
  end.

Fixpoint script_url (s : jsstr) : bool :=
  script_here s || match s with _ :: s => script_url s | [] => false end.

(** ** The handlers *)

(** What the handler of a fetch event does before it waits for the network. *)
Inductive reaction :=
  | Skip
  | Hit (res : Response)
  | Ask (digests : option jsstr).

Section worker.
Context {C : Type} `{!CacheApi C} (Date_parse : jsstr → option Z).

(** The lookups of [Promise.all]: the time at which the one of a number starts, the
    cache that answers it, and the numbers in the order in which they resolve. *)
Record schedule := mkSchedule { now_of : nat → Z; view_of : nat → C; resolved : list nat }.

(** [cache.match(req).then(...)]: the address that it pushes, if any. *)
Definition pushed (sched : schedule) (reqs : list Request) (i : nat) : option jsstr :=
  match reqs !! i with
  | Some req =>
    match cache_match (view_of sched i) req with
    | Some resp => if isFresh Date_parse (headers resp) (now_of sched i) then Some (url req) else None
    | None => None
    end
  | None => None
  end.

(** [urls]: a lookup for each of the keys, pushed as they resolve. *)
Definition fresh_urls (cache : C) (sched : schedule) : list jsstr := omap (pushed sched (cache_keys cache)) (resolved sched).

Definition generateCacheDigests (cache : C) (sched : schedule) : outcome (option jsstr) :=
  dv ← calcDigestValue (fresh_urls cache sched) 7;
  match dv with
  | Some dv => s ← base64Encode dv; Ret (Some (s ++ jstr "; complete"))
  | None => Ret None
  end.

(** [Promise.all] goes on when every lookup has resolved, each once. *)
Definition complete (cache : C) (sched : schedule) : Prop := resolved sched ≡ₚ seq 0 (length (cache_keys cache)).

(** [appends] tells whether the header can be added to the request.  If not, the
    handler logs the variable [e] outside of the scope of its [catch]. *)
Definition on_fetch (cache : C) (req : Request) (now : Z) (sched : schedule) (appends : bool) : outcome reaction :=
  if bool_decide (method req ≠ jstr "GET") || script_url (url req) then Ret Skip
  else
    let ask :=
      digests ← (if decide (mode req = jstr "navigate") then generateCacheDigests cache sched else Ret None);
      match digests with
      | Some _ => if appends then Ret (Ask digests) else Throw "ReferenceError"
      | None => Ret (Ask digests)
      end in
    match cache_match cache req with
    | Some res => if isFresh Date_parse (headers res) now then Ret (Hit res) else ask
    | None => ask
    end.

(** When the response of the network arrives. *)
Definition on_response (cache : C) (req : Request) (res : Response) (now : Z) : C :=
  if bool_decide (status res = 200) && isFresh Date_parse (headers res) now then cache_put cache req res else cache.

(** ** Runs

    The time, the cache, and the requests sent to the network.  Requests come in,
    responses arrive in any order, and the browser may evict entries. *)
Record state := { time : Z; cache : C; pending : list Request }.

Inductive step : state → state → Prop :=
  | step_wait s t : time s ≤ t → step s {| time := t; cache := cache s; pending := pending s |}
  | step_fetch s req sched appends r :
    on_fetch (cache s) req (time s) sched appends = Ret r →
    step s {| time := time s; cache := cache s; pending := match r with Ask _ => req :: pending s | _ => pending s end |}
  | step_response s l req l' res :
    pending s = l ++ req :: l' →
    step s {| time := time s; cache := on_response (cache s) req res (time s); pending := l ++ l' |}
  | step_evict s c :
    (∀ req res, cache_match c req = Some res → cache_match (cache s) req = Some res) →
    step s {| time := time s; cache := c; pending := pending s |}.

Definition start (t : Z) : state := {| time := t; cache := cache_empty; pending := [] |}.

End worker.

(** An association list by address is such a cache. *)
Fixpoint find_url (c : list (Request * Response)) (u : jsstr) : option Response :=
  match c with
  | [] => None
  | (req, res) :: c => if decide (url req = u) then Some res else find_url c u
  end.

Lemma find_url_filter c u u' res : find_url (filter (λ p, url p.1 ≠ u) c) u' = Some res → find_url c u' = Some res.
Proof.
  induction c as [|[req x] c IH]; [done|]. rewrite filter_cons. cbn [find_url fst]. case_decide as Hu.
  - cbn [find_url]. case_decide; [done|apply IH].
  - case_decide as Hu'; [|apply IH]. subst u u'. clear IH.
    induction c as [|[req' x'] c IH]; [done|]. rewrite filter_cons. cbn [fst]. case_decide as H; [|done].
    cbn [find_url]. by rewrite decide_False.
Qed.

#[export] Program Instance list_cache : CacheApi (list (Request * Response)) := {|
  cache_empty := [];
  cache_keys c := c.*1;
  cache_match c req := find_url c (url req);
  cache_put c req res := (req, res) :: filter (λ p, url p.1 ≠ url req) c;
|}.
Next Obligation. done. Qed.
Next Obligation.
  intros c req res req' res'. cbn [find_url]. case_decide; [intros [= <-]; by left|].
  intros Hf. right. by eapply find_url_filter.
Qed.

(** ** What counts as fresh *)

Definition cache_directives (hs : list (jsstr * jsstr)) : list jsstr :=
  hs ≫= λ '(n, v), if name_is n (jstr "cache-control") then split_commas v [] [] false else [].

Definition ages (hs : list (jsstr * jsstr)) : list Z := omap max_age (cache_directives hs).

(** The smallest, none for no age. *)
Definition smallest (l : list Z) : option Z :=
  match l with [] => None | a :: l => Some (foldl Z.min a l) end.

Section fresh_facts.
Context (Date_parse : jsstr → option Z).

Definition last_date (hs : list (jsstr * jsstr)) (d : option Z) : option Z :=
  foldl (λ d '(n, v), if name_is n (jstr "date") then Date_parse v else d) d hs.

(** An [Expires] in the future. *)
Definition expires_later (hs : list (jsstr * jsstr)) (now : Z) : Prop :=
  ∃ n v p, (n, v) ∈ hs ∧ name_is n (jstr "expires") = true ∧ Date_parse v = Some p ∧ p ≠ 0 ∧ now < p.

Lemma directives_spec ds m :
  directives ds m = if forallb (negb ∘ no_cache) ds then Some (foldl min_or_new m (omap max_age ds)) else None.
Proof.
  revert m. induction ds as [|d ds IH]; intros m; [done|]. cbn [directives forallb omap list_omap compose].
  destruct (no_cache d); [done|]. cbn [negb andb]. destruct (max_age d); cbn [foldl]; apply IH.
Qed.

Lemma name_is_other n a b : name_is n a = true → a ≠ b → name_is n b = false.
Proof. unfold name_is. rewrite bool_decide_eq_true, bool_decide_eq_false. congruence. Qed.

Definition aged (hs : list (jsstr * jsstr)) (now : Z) (date m : option Z) : Prop :=
  ∃ a d, foldl min_or_new m (ages hs) = Some a ∧ last_date hs date = Some d ∧ now < d + a * 1000.

Lemma ages_cons n v hs :
  ages ((n, v) :: hs) =
  (if name_is n (jstr "cache-control") then omap max_age (split_commas v [] [] false) else []) ++ ages hs.
Proof.
  unfold ages, cache_directives. cbn [mbind list_bind]. rewrite omap_app. f_equal. by destruct (name_is n _).
Qed.

Lemma expires_cons n v hs now :
  expires_later ((n, v) :: hs) now ↔
  (name_is n (jstr "expires") = true ∧ ∃ p, Date_parse v = Some p ∧ p ≠ 0 ∧ now < p) ∨ expires_later hs now.
Proof. unfold expires_later. setoid_rewrite elem_of_cons. naive_solver. Qed.

(** Headers that hold no [Cache-Control]. *)
Lemma fresh_post hs now date m : Forall (λ h, name_is h.1 (jstr "cache-control") = false) hs →
  fresh_loop Date_parse hs now date m = true ↔ expires_later hs now ∨ aged hs now date m.
Proof.
  unfold aged. intros Hcc. revert date m. induction Hcc as [|[n v] hs Hn _ IH]; intros date m; cbn [fresh_loop].
  { split.
    - destruct m as [a|], date as [d|]; try done. rewrite bool_decide_eq_true. intros. right. exists a, d. split_and!; lia || done.
    - intros [(n & v & p & []%not_elem_of_nil & _)|(a & d & Ha & Hd & Hlt)]. cbn in Ha, Hd. subst. rewrite bool_decide_eq_true. lia. }
  cbn [fst] in Hn. rewrite Hn, ages_cons, Hn, expires_cons. unfold last_date. cbn [app foldl].
  destruct (name_is n (jstr "expires")) eqn:He.
  - rewrite (name_is_other n _ (jstr "date") He) by done. destruct (Date_parse v) as [p|]; [case_decide as Hp|]; rewrite ?IH.
    + split; [|done]. intros _. left. left. split; [done|]. exists p. split_and!; [done|tauto|lia].
    + split; [tauto|]. intros [[(_ & q & [= <-] & Hq & Hlt)|]|]; [|tauto..]. destruct Hp. split; [done|lia].
    + split; [tauto|]. intros [[(_ & q & [=] & _)|]|]; tauto.
  - destruct (name_is n (jstr "date")); rewrite IH; (split; [intros [He1|Ha]; [by left; right|by right]|intros [[[[=] _]|He1]|Ha]; [by left|by right]]).
Qed.

(** Headers that hold no [Expires] before. *)
Lemma fresh_pre pre hs now date m : Forall (λ h, name_is h.1 (jstr "expires") = false) pre →
  fresh_loop Date_parse (pre ++ hs) now date m =
  if forallb (negb ∘ no_cache) (cache_directives pre)
  then fresh_loop Date_parse hs now (last_date pre date) (foldl min_or_new m (ages pre)) else false.
Proof.
  intros He. revert date m. induction He as [|[n v] pre Hn _ IH]; intros date m; [done|]. cbn [fst] in Hn. cbn [app fresh_loop].
  rewrite Hn, ages_cons. unfold cache_directives. cbn [mbind list_bind]. fold (cache_directives pre).
  destruct (name_is n (jstr "cache-control")) eqn:Hc.
  - rewrite directives_spec, forallb_app. destruct (forallb _ (split_commas v [] [] false)); cbn [andb]; [|done].
    rewrite IH, foldl_app. unfold last_date at 2. cbn [foldl]. by rewrite (name_is_other n _ (jstr "date") Hc).
  - cbn [app forallb andb]. unfold last_date at 1. cbn [foldl]. destruct (name_is n (jstr "date")); apply IH.
Qed.

(** An age of zero is only kept when it is the last one. *)
Lemma smallest_fold m l : 0 < m → Forall (Z.lt 0) (removelast l) → foldl min_or_new (Some m) l = Some (foldl Z.min m l).
Proof.
  revert m. induction l as [|a [|b l] IH]; intros m Hm Hl; [done|..]; cbn [foldl min_or_new]; rewrite decide_False by lia.
  - cbn. by rewrite Z.min_comm.
  - cbn [removelast] in Hl. apply Forall_cons in Hl as [Ha Hl]. rewrite (Z.min_comm m a). apply IH; [lia|done].
Qed.

Lemma smallest_spec l : Forall (Z.lt 0) (removelast l) → foldl min_or_new None l = smallest l.
Proof.
  destruct l as [|a [|b l]]; [done|done|]. intros [Ha Hl]%Forall_cons. cbn [foldl min_or_new smallest].
  exact (smallest_fold a (b :: l) Ha Hl).
Qed.

Lemma directives_app hs hs' : cache_directives (hs ++ hs') = cache_directives hs ++ cache_directives hs'.
Proof. apply bind_app. Qed.

Lemma no_directives hs : Forall (λ h, name_is h.1 (jstr "cache-control") = false) hs → cache_directives hs = [].
Proof.
  induction 1 as [|[n v] hs Hn _ IH]; [done|]. unfold cache_directives. cbn [mbind list_bind]. cbn [fst] in Hn.
  by rewrite Hn.
Qed.

Lemma expires_app hs hs' now : expires_later (hs ++ hs') now ↔ expires_later hs now ∨ expires_later hs' now.
Proof. unfold expires_later. setoid_rewrite elem_of_app. naive_solver. Qed.

Lemma no_expires hs now : Forall (λ h, name_is h.1 (jstr "expires") = false) hs → ¬ expires_later hs now.
Proof. intros Hn (n & v & p & Hin & He & _). rewrite Forall_forall in Hn. apply Hn in Hin. cbn [fst] in Hin. congruence. Qed.

(** C38: A response is fresh exactly if no directive of its [Cache-Control] headers
    forbids to cache or store it and it expires later or its date and its smallest
    age reach past the present, for headers in the order of a browser, which lists
    them by name, so that [Cache-Control] comes before [Expires]; of several ages
    only the last may be zero. *)
Theorem fresh_responses (pre post : list (jsstr * jsstr)) (now : Z) (hs := pre ++ post) :
  Forall (λ h, name_is h.1 (jstr "expires") = false) pre →
  Forall (λ h, name_is h.1 (jstr "cache-control") = false) post →
  Forall (Z.lt 0) (removelast (ages hs)) →
  isFresh Date_parse hs now = true ↔
    Forall (λ d, no_cache d = false) (cache_directives hs) ∧
    (expires_later hs now ∨ ∃ a d, smallest (ages hs) = Some a ∧ last_date hs (Some 0) = Some d ∧ now < d + a * 1000).
Proof.
  intros Hpre Hpost Hages. unfold isFresh, hs in *. rewrite fresh_pre by done.
  assert (ages (pre ++ post) = ages pre) as Heq.
  { unfold ages. by rewrite directives_app, (no_directives post), app_nil_r. }
  assert (∀ l, forallb (negb ∘ no_cache) l = true ↔ Forall (λ d, no_cache d = false) l) as Hall.
  { induction l as [|d l IH]; [done|]. rewrite Forall_cons, <- IH. cbn [forallb compose].
    destruct (no_cache d); cbn [negb andb]; naive_solver. }
  rewrite directives_app, (no_directives post), app_nil_r, <- Hall by done.
  destruct (forallb _ _); [|split; [done|intros [[=] _]]].
  rewrite fresh_post by done. unfold aged. rewrite expires_app. pose proof (no_expires pre now Hpre).
  assert (ages post = []) as -> by (unfold ages; by rewrite no_directives).
  rewrite Heq in *. cbn [foldl]. rewrite smallest_spec by done. unfold last_date. rewrite foldl_app. tauto.
Qed.
End fresh_facts.

(** ** The digest of the cache *)

Section digests.
Context {C : Type} `{!CacheApi C} (Date_parse : jsstr → option Z).

Definition fresh_in (cache : C) (req : Request) (now : Z) : Prop :=
  ∃ resp, cache_match cache req = Some resp ∧ isFresh Date_parse (headers resp) now = true.

Lemma elem_of_fresh_urls cache sched u :
  complete cache sched →
  u ∈ fresh_urls Date_parse cache sched ↔
  ∃ i req, cache_keys cache !! i = Some req ∧ fresh_in (view_of sched i) req (now_of sched i) ∧ u = url req.
Proof.
  unfold fresh_urls, complete, fresh_in, pushed. intros Hc. rewrite list_elem_of_omap. setoid_rewrite Hc. split.
  - intros (i & _ & Heq). destruct (cache_keys cache !! i) as [req|] eqn:Hk; [|done].
    destruct (cache_match _ req) as [resp|] eqn:Hm; [|done]. destruct (isFresh _ _ _) eqn:Hf; [|done]. injection Heq as <-. eauto 10.
  - intros (i & req & Hk & (resp & Hm & Hf) & ->). exists i. rewrite Hk, Hm, Hf. split; [|done].
    apply elem_of_seq. apply lookup_lt_Some in Hk. lia.
Qed.

(** C17: On a navigation the worker tells the server exactly which pages it has fresh:
    for up to [2 ^ 24] fresh pages the header is made, and its text, read as base64
    and as a Golomb coded set, holds the first [nbits + 7] bits of the SHA-256
    hashes of the addresses of those keys of the cache whose lookup gave a fresh
    response, and nothing else, in whatever order the lookups resolve. *)
Theorem digests_complete (cache : C) (sched : schedule)
    (nbits := round_log2 (Z.max (zlen (fresh_urls Date_parse cache sched)) 1)) :
  complete cache sched →
  Forall url_ok (fresh_urls Date_parse cache sched) → zlen (fresh_urls Date_parse cache sched) ≤ 2 ^ 24 →
  ∃ t hs, generateCacheDigests Date_parse cache sched = Ret (Some (t ++ jstr "; complete")) ∧
    read_digest (read_base64 t) = Some (nbits, 7, hs) ∧ StronglySorted Z.lt hs ∧
    ∀ h, h ∈ hs ↔ ∃ i req, cache_keys cache !! i = Some req ∧ fresh_in (view_of sched i) req (now_of sched i) ∧
      h = url_hash (nbits + 7) (url req).
Proof.
  intros Hc Hok Hlen. pose proof (zlen_nonneg (fresh_urls Date_parse cache sched)) as Hpos.
  assert (nbits ≤ 24) as Hn by (apply round_log2_le; lia).
  destruct (digest_correct (fresh_urls Date_parse cache sched) 7 Hok ltac:(lia)) as (bs & hs & Hbs & Hbytes & Hr & Hs & Hh);
    [fold nbits; lia|].
  destruct (base64url_roundtrip bs Hbytes) as (t & Ht & Hrt). exists t, hs. unfold generateCacheDigests.
  rewrite Hbs. cbn [mbind outcome_bind]. rewrite Ht. split_and!; [done|by rewrite Hrt|done|].
  intros h. rewrite Hh. setoid_rewrite (elem_of_fresh_urls cache sched _ Hc). fold nbits. split.
  - intros (u & (i & req & Hi & Hf & ->) & ->). by exists i, req.
  - intros (i & req & Hi & Hf & ->). exists (url req). split; [by exists i, req|done].
Qed.

(** The lookups of the cached pages may resolve in any order: the header is the
    same. *)
Theorem digests_any_order (cache : C) nows views (order order' : list nat) :
  Forall url_ok (fresh_urls Date_parse cache (mkSchedule nows views order)) → order ≡ₚ order' →
  generateCacheDigests Date_parse cache (mkSchedule nows views order) =
  generateCacheDigests Date_parse cache (mkSchedule nows views order').
Proof.
  intros Hok Hperm. unfold generateCacheDigests.
  rewrite (digest_order _ (fresh_urls Date_parse cache (mkSchedule nows views order')) 7 Hok); [done|lia|].
  unfold fresh_urls. cbn [resolved]. change (pushed Date_parse (mkSchedule nows views order')) with (pushed Date_parse (mkSchedule nows views order)).
  generalize (pushed Date_parse (mkSchedule nows views order) (cache_keys cache)). intros f. by rewrite Hperm.
Qed.

(** ** Every run of the worker *)

Definition sound (t : Z) (s : state) : Prop :=
  t ≤ time s ∧
  ∀ req res, cache_match (cache s) req = Some res →
    status res = 200 ∧ ∃ t0, t ≤ t0 ≤ time s ∧ isFresh Date_parse (headers res) t0 = true.

Lemma step_sound t s s' : step Date_parse s s' → sound t s → sound t s'.
Proof.
  unfold sound. intros [s0 t' Ht|s0 req sched appends r Hr|s0 l req l' res Hp|s0 c Hc] [Htime Hs]; cbn [time cache] in *.
  - split; [lia|]. intros req res (Hst & t0 & Ht0 & Hf)%Hs. split; [done|]. exists t0. split; [lia|done].
  - done.
  - split; [done|]. intros req' res'. unfold on_response. destruct (bool_decide _ && _) eqn:Hok; [|apply Hs].
    apply andb_true_iff in Hok as [Hst%bool_decide_eq_true Hf]. intros [->|Hm]%match_put; [|by eapply Hs].
    split; [done|]. exists (time s0). split; [lia|done].
  - split; [done|]. intros req res Hm%Hc. by eapply Hs.
Qed.

(** C19: Whatever requests come in, in whatever order the network answers and
    whatever the browser evicts, the cache only holds responses with status 200
    that were fresh when they arrived, and a page that is answered from the cache
    is still fresh then. *)
Theorem worker_sound (t : Z) (s : state) (req : Request) :
  rtc (step Date_parse) (start t) s →
  (∀ res, cache_match (cache s) req = Some res →
     status res = 200 ∧ ∃ t0, t ≤ t0 ≤ time s ∧ isFresh Date_parse (headers res) t0 = true) ∧
  (∀ sched appends res, on_fetch Date_parse (cache s) req (time s) sched appends = Ret (Hit res) →
     status res = 200 ∧ isFresh Date_parse (headers res) (time s) = true).
Proof.
  intros Hrun. assert (sound t s) as [_ Hs].
  { assert (sound t (start t)) as H0 by (split; [done|]; intros req' res; cbn; by rewrite match_empty).
    revert H0. induction Hrun as [|s1 s2 s3 Hstep _ IH]; [done|]. intros H0. by eapply IH, step_sound. }
  split; [apply Hs|]. intros sched appends res. unfold on_fetch. destruct (_ || _); [done|].
  destruct (cache_match (cache s) req) as [res'|] eqn:Hm; [destruct (isFresh _ _ _) eqn:Hf|]; cbv zeta.
  - intros [= <-]. split; [by eapply Hs|done].
  - intros ([d|] & _ & Heq)%bind_Ret; [destruct appends|]; discriminate Heq.
  - intros ([d|] & _ & Heq)%bind_Ret; [destruct appends|]; discriminate Heq.
Qed.

(** If the browser does not let the header be added, the page is not asked for
    at all: the handler, about to log the failure, throws a [ReferenceError]. *)
Theorem refused_header_throws (c : C) (req : Request) (now : Z) (sched : schedule) (d : jsstr) :
  method req = jstr "GET" → script_url (url req) = false → mode req = jstr "navigate" → ¬ fresh_in c req now →
  generateCacheDigests Date_parse c sched = Ret (Some d) →
  on_fetch Date_parse c req now sched true = Ret (Ask (Some d)) ∧
  on_fetch Date_parse c req now sched false = Throw "ReferenceError".
Proof.
  intros Hm Hu Hmode Hf Hd. unfold on_fetch. rewrite bool_decide_eq_false_2, Hu by naive_solver. cbn [orb].
  rewrite decide_True, Hd by done. destruct (cache_match c req) as [res|] eqn:Hc; [|done].
  destruct (isFresh _ _ _) eqn:Hfresh; [|done]. destruct Hf. by exists res.
Qed.

End digests.

(** ** A run

    A page is fetched, stored and answered from the cache; [Date.parse] is a table
    of one entry. *)

Definition parse (s : jsstr) : option Z := if decide (s = jstr "Mon, 27 Jun 2016 02:12:35 GMT") then Some 1466993555000 else None.

Definition page : Request := mkRequest (jstr "GET") (jstr "https://example.com/style.css") (jstr "navigate").
Definition answer : Response :=
  mkResponse 200 [(jstr "cache-control", jstr "must-revalidate, max-age=600"); (jstr "date", jstr "Mon, 27 Jun 2016 02:12:35 GMT")]
    (jstr "body").

Example fresh_examples :
  isFresh parse [(jstr "Expires", jstr "Mon, 27 Jun 2016 02:12:35 GMT")] 1466993520000 = true ∧
  isFresh parse [(jstr "Expires", jstr "Mon, 27 Jun 2016 02:12:35 GMT")] 1466993580000 = false ∧
  isFresh parse [(jstr "Cache-Control", jstr "must-revalidate, max-age=600")] 1466993520000 = false ∧
  isFresh parse (headers answer) 1466994120000 = true ∧ isFresh parse (headers answer) 1466994180000 = false.
Proof. vm_compute. done. Qed.

(** A zero is forgotten when another age follows. *)
Example zero_age_lost :
  isFresh parse [(jstr "cache-control", jstr "max-age=0, max-age=600"); (jstr "date", jstr "Mon, 27 Jun 2016 02:12:35 GMT")]
    1466993560000 = true.
Proof. vm_compute. done. Qed.

Lemma fresh_responses_witness :
  isFresh parse (headers answer) 1466994120000 = true ↔
    Forall (λ d, no_cache d = false) (cache_directives (headers answer)) ∧
    (expires_later parse (headers answer) 1466994120000 ∨
     ∃ a d, smallest (ages (headers answer)) = Some a ∧ last_date parse (headers answer) (Some 0) = Some d ∧
       1466994120000 < d + a * 1000).
Proof.
  apply (fresh_responses parse (headers answer) [] 1466994120000);
    [repeat constructor; vm_compute; reflexivity|constructor|vm_compute; constructor].
Defined.

Definition nothing : list (Request * Response) := [].
Definition stored : list (Request * Response) := [(page, answer)].

(** A cache that stays as it is, and lookups one second apart. *)
Definition calm (c : list (Request * Response)) (order : list nat) : schedule :=
  mkSchedule (λ i, 1466993560000 + 1000 * Z.of_nat i) (λ _, c) order.

Lemma digests_complete_witness :
  ∃ t hs, generateCacheDigests parse stored (calm stored [0%nat]) = Ret (Some (t ++ jstr "; complete")) ∧
    read_digest (read_base64 t) = Some (0, 7, hs) ∧ url_hash 7 (url page) ∈ hs.
Proof.
  destruct (digests_complete parse stored (calm stored [0%nat])) as (t & hs & Ht & Hr & _ & Hh);
    [unfold complete; reflexivity|repeat constructor; vm_compute; reflexivity|vm_compute; discriminate|].
  exists t, hs. split; [exact Ht|]. split; [exact Hr|]. apply Hh. exists 0%nat, page. split; [reflexivity|]. split; [|reflexivity].
  exists answer. split; [reflexivity|]. vm_compute. reflexivity.
Defined.

Definition second : Request := mkRequest (jstr "GET") (jstr "https://example.com/script.js") (jstr "no-cors").
Definition both : list (Request * Response) := [(page, answer); (second, answer)].

Lemma digests_any_order_witness :
  generateCacheDigests parse both (calm both [0%nat; 1%nat]) = generateCacheDigests parse both (calm both [1%nat; 0%nat]).
Proof.
  apply (digests_any_order parse both); [repeat constructor; vm_compute; reflexivity|apply Permutation_swap].
Defined.

Lemma worker_sound_witness :
  ∃ s : state (C := list (Request * Response)), rtc (step parse) (start 1466993555000) s ∧ cache s = stored ∧
    ∀ res, cache_match (cache s) page = Some res → status res = 200.
Proof.
  set (s1 := {| time := 1466993555000; cache := nothing; pending := [page] |} : state).
  set (s2 := {| time := 1466993555000; cache := stored; pending := [] |} : state).
  assert (rtc (step parse) (start 1466993555000) s2) as Hrun.
  { apply (rtc_l _ _ s1); [exact (step_fetch parse (start 1466993555000) page (calm nothing []) true (Ask _) eq_refl)|].
    apply (rtc_l _ _ s2); [exact (step_response parse s1 [] page [] answer eq_refl)|apply rtc_refl]. }
  exists s2. split; [exact Hrun|]. split; [reflexivity|]. intros res Hres.
  exact (proj1 (proj1 (worker_sound parse 1466993555000 s2 page Hrun) res Hres)).
Defined.

Lemma refused_header_throws_witness :
  ∃ d, on_fetch parse nothing page 0 (calm nothing []) true = Ret (Ask (Some d)) ∧ on_fetch parse nothing page 0 (calm nothing []) false = Throw "ReferenceError".
Proof.
  exists (jstr "AcA; complete"). apply (refused_header_throws parse nothing page 0 (calm nothing []) (jstr "AcA; complete"));
    [reflexivity..| |vm_compute; reflexivity]. intros (resp & Hm & _). discriminate Hm.
Defined.

End Worker.
