(* ===== verification/Sax.v ===== *)
(** * The SAX parser

    Model of [src/misc/oktavia/src/sax.jsx]: a tokenizer for HTML that calls a
    handler for the tags, texts and comments it finds.  The parser never looks at
    its handler, so the calls are recorded as a list of events; a handler is a
    function over them.

    The mapping of letters outside of ASCII to lower and upper case is an argument
    ([CaseMap]), and so are the digits of numbers that a double does not hold
    exactly and the text of the functions an object inherits. *)

From stdpp Require Import functions.
From S2P Require Import Prelude JsObject Lang.

Local Open Scope Z_scope.
Local Open Scope js_scope.

(** [toLowerCase] and [toUpperCase], known on ASCII. *)
Definition ascii_lower (c : Z) : Z := if decide (65 ≤ c ≤ 90) then c + 32 else c.
Definition ascii_upper (c : Z) : Z := if decide (97 ≤ c ≤ 122) then c - 32 else c.

Class CaseMap := {
  toLowerCase : jsstr → jsstr;
  toUpperCase : jsstr → jsstr;
  lower_ascii s : Forall (λ c, 0 ≤ c < 128) s → toLowerCase s = ascii_lower <$> s;
  upper_ascii s : Forall (λ c, 0 ≤ c < 128) s → toUpperCase s = ascii_upper <$> s;
}.

(** What the language does beyond the model: the text of an inherited method, and
    for a string of digits of [2 ^ 53] or more in a base the text and the low 16
    bits of the nearest double. *)
Class Runtime := {
  native_text : jsstr → jsstr;
  double_text : Z → jsstr → jsstr;
  double_code : Z → jsstr → Z;
}.

Module Sax.

Inductive State :=
  | BEGIN | TEXT | TEXT_ENTITY | OPEN_WAKA | SGML_DECL | SGML_DECL_QUOTED | DOCTYPE | DOCTYPE_QUOTED | DOCTYPE_DTD
  | DOCTYPE_DTD_QUOTED | COMMENT | COMMENT_ENDING | COMMENT_ENDED | CDATA | CDATA_ENDING | CDATA_ENDING_2
  | PROC_INST | PROC_INST_BODY | PROC_INST_ENDING | OPEN_TAG | OPEN_TAG_SLASH | ATTRIB | ATTRIB_NAME
  | ATTRIB_NAME_SAW_WHITE | ATTRIB_VALUE | ATTRIB_VALUE_QUOTED | ATTRIB_VALUE_UNQUOTED | ATTRIB_VALUE_ENTITY_Q
  | ATTRIB_VALUE_ENTITY_U | CLOSE_TAG | CLOSE_TAG_SAW_WHITE | SCRIPT | SCRIPT_ENDING.

Record Tag := mkTag { name : jsstr; attributes : list (jsstr * jsstr); isSelfClosing : bool }.

(** The calls of the handler. *)
Inductive event :=
  | onready | onend | onopencdata | onclosecdata
  | onerror (message : jsstr) | ontext (text : jsstr) | ondoctype (doctype : jsstr)
  | onprocessinginstruction (name body : jsstr) | onsgmldeclaration (decl : jsstr)
  | onopentag (name : jsstr) (attributes : list (jsstr * jsstr)) | onclosetag (name : jsstr)
  | onattribute (name value : jsstr) | oncomment (comment : jsstr) | oncdata (cdata : jsstr) | onscript (script : jsstr).

(** The strings being read. *)
Inductive buffer :=
  | comment | sgmlDecl | textNode | tagName | doctype | procInstName | procInstBody | entity | attribName | attribValue
  | cdata | script.

#[export] Instance State_eq : EqDecision State.
Proof. solve_decision. Defined.
#[export] Instance buffer_eq : EqDecision buffer.
Proof. solve_decision. Defined.

Record t := mk {
  buf : buffer → jsstr;
  state : State;
  q : option Z;
  tags : list Tag;
  tag : option Tag;
  closed : bool;
  closedRoot : bool;
  sawRoot : bool;
  error : option jsstr;
  strict : bool;
  noscript : bool;
  position : Z;
  startTagPosition : Z;
  preTags : Z;
  chr : jsstr;
  line : Z;
  column : Z;
  events : list event;
}.

(** ** Assignments *)

Definition set_buf (b : buffer) (x : jsstr) (s : t) : t :=
  {| buf := <[b := x]> (buf s); state := state s; q := q s; tags := tags s; tag := tag s; closed := closed s;
     closedRoot := closedRoot s; sawRoot := sawRoot s; error := error s; strict := strict s; noscript := noscript s;
     position := position s; startTagPosition := startTagPosition s; preTags := preTags s; chr := chr s; line := line s;
     column := column s; events := events s |}.
Definition add_buf (b : buffer) (x : jsstr) (s : t) : t := set_buf b (buf s b ++ x) s.
Definition set_state (x : State) (s : t) : t :=
  {| buf := buf s; state := x; q := q s; tags := tags s; tag := tag s; closed := closed s;
     closedRoot := closedRoot s; sawRoot := sawRoot s; error := error s; strict := strict s; noscript := noscript s;
     position := position s; startTagPosition := startTagPosition s; preTags := preTags s; chr := chr s; line := line s;
     column := column s; events := events s |}.
Definition set_q (x : option Z) (s : t) : t :=
  {| buf := buf s; state := state s; q := x; tags := tags s; tag := tag s; closed := closed s;
     closedRoot := closedRoot s; sawRoot := sawRoot s; error := error s; strict := strict s; noscript := noscript s;
     position := position s; startTagPosition := startTagPosition s; preTags := preTags s; chr := chr s; line := line s;
     column := column s; events := events s |}.
Definition set_tags (x : list Tag) (s : t) : t :=
  {| buf := buf s; state := state s; q := q s; tags := x; tag := tag s; closed := closed s;
     closedRoot := closedRoot s; sawRoot := sawRoot s; error := error s; strict := strict s; noscript := noscript s;
     position := position s; startTagPosition := startTagPosition s; preTags := preTags s; chr := chr s; line := line s;
     column := column s; events := events s |}.
Definition set_tag (x : option Tag) (s : t) : t :=
  {| buf := buf s; state := state s; q := q s; tags := tags s; tag := x; closed := closed s;
     closedRoot := closedRoot s; sawRoot := sawRoot s; error := error s; strict := strict s; noscript := noscript s;
     position := position s; startTagPosition := startTagPosition s; preTags := preTags s; chr := chr s; line := line s;
     column := column s; events := events s |}.
Definition set_roots (saw closed_root : bool) (s : t) : t :=
  {| buf := buf s; state := state s; q := q s; tags := tags s; tag := tag s; closed := closed s;
     closedRoot := closed_root; sawRoot := saw; error := error s; strict := strict s; noscript := noscript s;
     position := position s; startTagPosition := startTagPosition s; preTags := preTags s; chr := chr s; line := line s;
     column := column s; events := events s |}.
Definition set_error (x : option jsstr) (s : t) : t :=
  {| buf := buf s; state := state s; q := q s; tags := tags s; tag := tag s; closed := closed s;
     closedRoot := closedRoot s; sawRoot := sawRoot s; error := x; strict := strict s; noscript := noscript s;
     position := position s; startTagPosition := startTagPosition s; preTags := preTags s; chr := chr s; line := line s;
     column := column s; events := events s |}.
Definition set_preTags (x : Z) (s : t) : t :=
  {| buf := buf s; state := state s; q := q s; tags := tags s; tag := tag s; closed := closed s;
     closedRoot := closedRoot s; sawRoot := sawRoot s; error := error s; strict := strict s; noscript := noscript s;
     position := position s; startTagPosition := startTagPosition s; preTags := x; chr := chr s; line := line s;
     column := column s; events := events s |}.
Definition set_start (x : Z) (s : t) : t :=
  {| buf := buf s; state := state s; q := q s; tags := tags s; tag := tag s; closed := closed s;
     closedRoot := closedRoot s; sawRoot := sawRoot s; error := error s; strict := strict s; noscript := noscript s;
     position := position s; startTagPosition := x; preTags := preTags s; chr := chr s; line := line s;
     column := column s; events := events s |}.
Definition set_place (pos l col : Z) (s : t) : t :=
  {| buf := buf s; state := state s; q := q s; tags := tags s; tag := tag s; closed := closed s;
     closedRoot := closedRoot s; sawRoot := sawRoot s; error := error s; strict := strict s; noscript := noscript s;
     position := pos; startTagPosition := startTagPosition s; preTags := preTags s; chr := chr s; line := l;
     column := col; events := events s |}.
Definition set_chr (x : jsstr) (s : t) : t :=
  {| buf := buf s; state := state s; q := q s; tags := tags s; tag := tag s; closed := closed s;
     closedRoot := closedRoot s; sawRoot := sawRoot s; error := error s; strict := strict s; noscript := noscript s;
     position := position s; startTagPosition := startTagPosition s; preTags := preTags s; chr := x; line := line s;
     column := column s; events := events s |}.
Definition set_closed (x : bool) (s : t) : t :=
  {| buf := buf s; state := state s; q := q s; tags := tags s; tag := tag s; closed := x;
     closedRoot := closedRoot s; sawRoot := sawRoot s; error := error s; strict := strict s; noscript := noscript s;
     position := position s; startTagPosition := startTagPosition s; preTags := preTags s; chr := chr s; line := line s;
     column := column s; events := events s |}.
Definition set_noscript (x : bool) (s : t) : t :=
  {| buf := buf s; state := state s; q := q s; tags := tags s; tag := tag s; closed := closed s;
     closedRoot := closedRoot s; sawRoot := sawRoot s; error := error s; strict := strict s; noscript := x;
     position := position s; startTagPosition := startTagPosition s; preTags := preTags s; chr := chr s; line := line s;
     column := column s; events := events s |}.
Definition emit (e : event) (s : t) : t :=
  {| buf := buf s; state := state s; q := q s; tags := tags s; tag := tag s; closed := closed s;
     closedRoot := closedRoot s; sawRoot := sawRoot s; error := error s; strict := strict s; noscript := noscript s;
     position := position s; startTagPosition := startTagPosition s; preTags := preTags s; chr := chr s; line := line s;
     column := column s; events := events s ++ [e] |}.

(** ** Characters *)

Definition whitespace (c : Z) : bool := bool_decide (c ∈ [13; 10; 9; 32]).
Definition number (c : Z) : bool := bool_decide (48 ≤ c ≤ 57).
Definition letter (c : Z) : bool := bool_decide (97 ≤ c ≤ 122) || bool_decide (65 ≤ c ≤ 90).
Definition quote (c : Z) : bool := bool_decide (c ∈ [39; 34]).
Definition entity_char (c : Z) : bool := number c || letter c || bool_decide (c = 35).
Definition attribEnd (c : Z) : bool := whitespace c || bool_decide (c = 62).

Definition in_ranges (l : list (Z * Z)) (c : Z) : bool := existsb (λ r, bool_decide (r.1 ≤ c ≤ r.2)) l.

Definition name_ranges : list (Z * Z) :=
  [(58, 58); (95, 95); (65, 90); (97, 122); (0xc0, 0xd6); (0xd8, 0xf6); (0xf8, 0x2ff); (0x370, 0x37d); (0x37f, 0x1fff);
   (0x200c, 0x200d); (0x2070, 0x218f); (0x2c00, 0x2fef); (0x3001, 0xd7ff); (0xf900, 0xfdcf); (0xfdf0, 0xfffd)].
Definition nameStart (c : Z) : bool := in_ranges name_ranges c.
Definition nameBody (c : Z) : bool :=
  in_ranges (name_ranges ++ [(0xb7, 0xb7); (0x300, 0x36f); (0x203f, 0x2040); (46, 46); (48, 57); (45, 45)]) c.

Definition CDATA_open : jsstr := jstr "[CDATA[".
Definition DOCTYPE_word : jsstr := jstr "DOCTYPE".

(** ** Texts *)

(** [text.replace(/\s\s+/g, ' ')]: [run] is the run of spaces before [s]. *)
Fixpoint squeeze (s run : jsstr) : jsstr :=
  let spaces := match run with [] | [_] => run | _ => [32] end in
  match s with
  | [] => spaces
  | c :: s => if Lang.isSpace c then squeeze s (run ++ [c]) else spaces ++ c :: squeeze s []
  end.

Definition textopts (text : jsstr) : jsstr :=
  squeeze ((λ c, if decide (c = 10 ∨ c = 9) then 32 else c) <$> text) [].

Fixpoint trim_start (s : jsstr) : jsstr :=
  match s with c :: s' => if Lang.isSpace c then trim_start s' else s | [] => [] end.
Definition trim (s : jsstr) : jsstr := reverse (trim_start (reverse (trim_start s))).

Definition closetext (s : t) : t :=
  let s :=
    if decide (preTags s = 0) then
      let text := textopts (buf s textNode) in if decide (text = []) then s else emit (ontext text) s
    else if decide (buf s textNode = []) then s else emit (ontext (buf s textNode)) s in
  set_buf textNode [] s.

Definition closetext_if_exist (s : t) : t := if decide (buf s textNode = []) then s else closetext s.

(** The numbers of the line and the column in the message are never changed. *)
Definition emiterror (er : jsstr) (s : t) : t :=
  let s := closetext s in
  let er := er ++ [10] ++ jstr "Line: 0" ++ [10] ++ jstr "Column: 0" ++ [10] ++ jstr "Char: " ++ chr s in
  emit (onerror er) (set_error (Some er) s).

Definition strictFail (message : jsstr) (s : t) : t := if strict s then emiterror message s else s.

Definition clearBuffers (s : t) : t :=
  foldl (λ s b, set_buf b [] s) s
    [comment; sgmlDecl; textNode; tagName; doctype; procInstName; procInstBody; entity; attribName; attribValue; cdata; script].

Definition new (strict : bool) : t :=
  emit onready
    {| buf := λ _, []; state := BEGIN; q := None; tags := []; tag := None; closed := false; closedRoot := false;
       sawRoot := false; error := None; strict := strict; noscript := false; position := 0; startTagPosition := 0;
       preTags := 0; chr := []; line := 0; column := 0; events := [] |}.

Definition resume (s : t) : t := set_error None s.

Definition finish (s : t) : t :=
  let s := if closedRoot s then s else strictFail (jstr "Unclosed root tag") s in
  let s := if decide (state s = TEXT) then s else emiterror (jstr "Unexpected end") s in
  let s := closetext s in
  emit onend (set_closed true (set_chr [] s)).

(** A character is read: the position of the parser, the place of the handler. *)
Definition tick (c : Z) (s : t) : t :=
  if decide (c = 10) then set_place (position s + 1) (line s + 1) 0 s
  else set_place (position s + 1) (line s) (column s + 1) s.

(** ** Entities *)

Fixpoint leading_digits (base : Z) (s : jsstr) : jsstr :=
  match s with
  | [] => []
  | c :: s =>
    let d := if number c then c - 48 else if decide (97 ≤ c ≤ 122) then c - 87 else base in
    if decide (d < base) then c :: leading_digits base s else []
  end.

Definition digit_value (c : Z) : Z := if number c then c - 48 else c - 87.
Definition digits_number (base : Z) (s : jsstr) : Z := foldl (λ n c, base * n + digit_value c) 0 s.

Fixpoint strip_zeros (s : jsstr) : jsstr :=
  match s with c :: s' => if decide (c = 48) then strip_zeros s' else s | [] => [] end.

(** [Number.parseInt(s, base)] of lower case letters and digits, as the string it is
    converted to and the character it stands for. *)
Definition parse_number `{Runtime} (base : Z) (s : jsstr) : jsstr * Z :=
  let s :=
    match s with
    | 48 :: 120 :: s' => if decide (base = 16) then s' else s
    | _ => s
    end in
  let ds := leading_digits base s in
  if decide (ds = []) then (jstr "nan", 0)
  else
    let n := digits_number base ds in
    if decide (n < 2 ^ 53) then (if decide (n = 0) then [48] else strip_zeros ds, to_uint16 n)
    else (double_text base ds, double_code base ds).

Definition _entities : list (string * Z) :=
  [("amp", 38); ("gt", 62); ("lt", 60); ("quot", 34); ("apos", 39); ("AElig", 198); ("Aacute", 193); ("Acirc", 194);
   ("Agrave", 192); ("Aring", 197); ("Atilde", 195); ("Auml", 196); ("Ccedil", 199); ("ETH", 208); ("Eacute", 201);
   ("Ecirc", 202); ("Egrave", 200); ("Euml", 203); ("Iacute", 205); ("Icirc", 206); ("Igrave", 204); ("Iuml", 207);
   ("Ntilde", 209); ("Oacute", 211); ("Ocirc", 212); ("Ograve", 210); ("Oslash", 216); ("Otilde", 213); ("Ouml", 214);
   ("THORN", 222); ("Uacute", 218); ("Ucirc", 219); ("Ugrave", 217); ("Uuml", 220); ("Yacute", 221); ("aacute", 225);
   ("acirc", 226); ("aelig", 230); ("agrave", 224); ("aring", 229); ("atilde", 227); ("auml", 228); ("ccedil", 231);
   ("eacute", 233); ("ecirc", 234); ("egrave", 232); ("eth", 240); ("euml", 235); ("iacute", 237); ("icirc", 238);
   ("igrave", 236); ("iuml", 239); ("ntilde", 241); ("oacute", 243); ("ocirc", 244); ("ograve", 242); ("oslash", 248);
   ("otilde", 245); ("ouml", 246); ("szlig", 223); ("thorn", 254); ("uacute", 250); ("ucirc", 251); ("ugrave", 249);
   ("uuml", 252); ("yacute", 253); ("yuml", 255); ("copy", 169); ("reg", 174); ("nbsp", 160); ("iexcl", 161);
   ("cent", 162); ("pound", 163); ("curren", 164); ("yen", 165); ("brvbar", 166); ("sect", 167); ("uml", 168);
   ("ordf", 170); ("laquo", 171); ("not", 172); ("shy", 173); ("macr", 175); ("deg", 176); ("plusmn", 177);
   ("sup1", 185); ("sup2", 178); ("sup3", 179); ("acute", 180); ("micro", 181); ("para", 182); ("middot", 183);
   ("cedil", 184); ("ordm", 186); ("raquo", 187); ("frac14", 188); ("frac12", 189); ("frac34", 190); ("iquest", 191);
   ("times", 215); ("divide", 247); ("OElig", 338); ("oelig", 339); ("Scaron", 352); ("scaron", 353); ("Yuml", 376);
   ("fnof", 402); ("circ", 710); ("tilde", 732); ("Alpha", 913); ("Beta", 914); ("Gamma", 915); ("Delta", 916);
   ("Epsilon", 917); ("Zeta", 918); ("Eta", 919); ("Theta", 920); ("Iota", 921); ("Kappa", 922); ("Lambda", 923);
   ("Mu", 924); ("Nu", 925); ("Xi", 926); ("Omicron", 927); ("Pi", 928); ("Rho", 929); ("Sigma", 931); ("Tau", 932);
   ("Upsilon", 933); ("Phi", 934); ("Chi", 935); ("Psi", 936); ("Omega", 937); ("alpha", 945); ("beta", 946);
   ("gamma", 947); ("delta", 948); ("epsilon", 949); ("zeta", 950); ("eta", 951); ("theta", 952); ("iota", 953);
   ("kappa", 954); ("lambda", 955); ("mu", 956); ("nu", 957); ("xi", 958); ("omicron", 959); ("pi", 960);
   ("rho", 961); ("sigmaf", 962); ("sigma", 963); ("tau", 964); ("upsilon", 965); ("phi", 966); ("chi", 967);
   ("psi", 968); ("omega", 969); ("thetasym", 977); ("upsih", 978); ("piv", 982); ("ensp", 8194); ("emsp", 8195);
   ("thinsp", 8201); ("zwnj", 8204); ("zwj", 8205); ("lrm", 8206); ("rlm", 8207); ("ndash", 8211); ("mdash", 8212);
   ("lsquo", 8216); ("rsquo", 8217); ("sbquo", 8218); ("ldquo", 8220); ("rdquo", 8221); ("bdquo", 8222);
   ("dagger", 8224); ("Dagger", 8225); ("bull", 8226); ("hellip", 8230); ("permil", 8240); ("prime", 8242);
   ("Prime", 8243); ("lsaquo", 8249); ("rsaquo", 8250); ("oline", 8254); ("frasl", 8260); ("euro", 8364);
   ("image", 8465); ("weierp", 8472); ("real", 8476); ("trade", 8482); ("alefsym", 8501); ("larr", 8592);
   ("uarr", 8593); ("rarr", 8594); ("darr", 8595); ("harr", 8596); ("crarr", 8629); ("lArr", 8656); ("uArr", 8657);
   ("rArr", 8658); ("dArr", 8659); ("hArr", 8660); ("forall", 8704); ("part", 8706); ("exist", 8707); ("empty", 8709);
   ("nabla", 8711); ("isin", 8712); ("notin", 8713); ("ni", 8715); ("prod", 8719); ("sum", 8721); ("minus", 8722);
   ("lowast", 8727); ("radic", 8730); ("prop", 8733); ("infin", 8734); ("ang", 8736); ("and", 8743); ("or", 8744);
   ("cap", 8745); ("cup", 8746); ("int", 8747); ("there4", 8756); ("sim", 8764); ("cong", 8773); ("asymp", 8776);
   ("ne", 8800); ("equiv", 8801); ("le", 8804); ("ge", 8805); ("sub", 8834); ("sup", 8835); ("nsub", 8836);
   ("sube", 8838); ("supe", 8839); ("oplus", 8853); ("otimes", 8855); ("perp", 8869); ("sdot", 8901); ("lceil", 8968);
   ("rceil", 8969); ("lfloor", 8970); ("rfloor", 8971); ("lang", 9001); ("rang", 9002); ("loz", 9674);
   ("spades", 9824); ("clubs", 9827); ("hearts", 9829); ("diams", 9830)]%string.

Definition entity_list : list (jsstr * jsstr) := (λ '(k, v), (jstr k, fromCharCode v)) <$> _entities.

(** [if (this.ENTITIES[k]) return this.ENTITIES[k]]: the lookup sees the methods that
    objects inherit, which are converted to a string. *)
Definition lookup_entity `{Runtime} (k : jsstr) : option jsstr :=
  match Obj.read entity_list k with
  | Obj.Own v => Some v
  | Obj.Inherited _ => Some (native_text k)
  | Obj.Absent => None
  end.

Definition parseEntity `{CaseMap, Runtime} (s : t) : t * jsstr :=
  let e := buf s entity in
  let entityLC := toLowerCase e in
  match lookup_entity e, lookup_entity entityLC with
  | Some v, _ | None, Some v => (s, v)
  | None, None =>
    let '(ent, numStr, num) :=
      match entityLC with
      | 35 :: 120 :: rest => let '(numStr, num) := parse_number 16 rest in (rest, numStr, num)
      | 35 :: rest => let '(numStr, num) := parse_number 10 rest in (rest, numStr, num)
      | _ => (entityLC, [], 0)
      end in
    if decide (numStr ≠ strip_zeros ent) then (strictFail (jstr "Invalid character entity") s, jstr "&" ++ e ++ jstr ";")
    else (s, fromCharCode num)
  end.

(** ** Tags *)

Section parser.
Context `{CaseMap, Runtime}.

Definition newTag (s : t) : t :=
  let s := if strict s then s else set_buf tagName (toLowerCase (buf s tagName)) s in
  set_tag (Some (mkTag (buf s tagName) [] false)) s.

(** [this.tag.attributes[name] = value]; a string that is set as the prototype is
    ignored. *)
Definition put_attribute (name value : jsstr) (s : t) : outcome t :=
  match tag s with
  | None => Throw "TypeError"
  | Some tg =>
    let attrs := if decide (name = jstr "__proto__") then attributes tg else Obj.put (attributes tg) name value in
    Ret (set_tag (Some (mkTag (Sax.name tg) attrs (isSelfClosing tg))) s)
  end.

Definition attrib (s : t) : outcome t :=
  let s := if strict s then s else set_buf attribName (toLowerCase (buf s attribName)) s in
  match tag s with
  | None => Throw "TypeError"
  | Some tg =>
    match Obj.get (attributes tg) (buf s attribName) with
    | Some _ => Ret (set_buf attribName [] (set_buf attribValue [] s))
    | None =>
      s ← put_attribute (buf s attribName) (buf s attribValue) s;
      let s := closetext_if_exist s in
      let s := emit (onattribute (buf s attribName) (buf s attribValue)) s in
      Ret (set_buf attribName [] (set_buf attribValue [] s))
    end
  end.

Definition openTag (selfClosing : bool) (s : t) : outcome t :=
  match tag s with
  | None => Throw "TypeError"
  | Some tg =>
    let tg := mkTag (name tg) (attributes tg) selfClosing in
    let s := set_tag (Some tg) s in
    let s := set_roots true (closedRoot s) s in
    let s := set_tags (tags s ++ [tg]) s in
    let s := closetext_if_exist s in
    let s := emit (onopentag (name tg) (attributes tg)) s in
    let s := if decide (name tg = jstr "pre") then set_preTags (preTags s + 1) s else s in
    let s :=
      if selfClosing then s
      else
        let s :=
          if negb (noscript s) && bool_decide (toLowerCase (buf s tagName) = jstr "script") then set_state SCRIPT s
          else set_state TEXT s in
        set_buf tagName [] (set_tag None s) in
    Ret (set_buf attribName [] (set_buf attribValue [] s))
  end.

(** The loop that looks for the tag to close from the last open one on; [t] is
    counted down. *)
Fixpoint find_open (t : nat) (closeTo : jsstr) (s : Sax.t) : option nat * Sax.t :=
  match t with
  | O => (None, s)
  | S t =>
    match tags s !! t with
    | Some close => if decide (name close ≠ closeTo) then find_open t closeTo (strictFail (jstr "Unexpected close tag") s) else (Some t, s)
    | None => (None, s)
    end
  end.

(** The tags from the last one down to number [t] are closed. *)
Fixpoint close_to (n t : nat) (s : Sax.t) : Sax.t :=
  match n with
  | O => s
  | S n =>
    if decide (n < t)%nat then s
    else
      match last (tags s) with
      | None => s
      | Some tg =>
        let s := set_tags (take (length (tags s) - 1) (tags s)) s in
        let s := set_tag (Some tg) s in
        let s := set_buf tagName (name tg) s in
        let s := closetext_if_exist s in
        let s := emit (onclosetag (buf s tagName)) s in
        let s := if decide (buf s tagName = jstr "pre") then set_preTags (preTags s - 1) s else s in
        close_to n t s
      end
  end.

Definition close_found (s : t) : t :=
  let tagName' := if strict s then buf s tagName else toLowerCase (buf s tagName) in
  match find_open (length (tags s)) tagName' s with
  | (None, s) =>
    let s := strictFail (jstr "Unmatched closing tag: " ++ buf s tagName) s in
    set_state TEXT (add_buf textNode (jstr "</" ++ buf s tagName ++ jstr ">") s)
  | (Some t, s) =>
    let s := set_buf tagName tagName' s in
    let s := close_to (length (tags s)) t s in
    let s := if decide (t = 0%nat) then set_roots (sawRoot s) true s else s in
    set_state TEXT (set_buf attribName [] (set_buf attribValue [] (set_buf tagName [] s)))
  end.

Definition closeTag (s : t) : t :=
  if decide (buf s tagName = []) then
    let s := strictFail (jstr "Weird empty close tag.") s in
    set_state TEXT (add_buf textNode (jstr "</>") s)
  else if decide (buf s script = []) then close_found s
  else if decide (buf s tagName ≠ jstr "script") then
    set_state SCRIPT (set_buf tagName [] (add_buf script (jstr "</" ++ buf s tagName ++ jstr ">") s))
  else
    let s := closetext_if_exist s in
    let s := emit (onscript (buf s script)) s in
    close_found (set_buf script [] s).

(** ** The loop

    The [case]s of the loop for the character [c]; [i] is the index of the next
    character, which two of them change. *)

(** The loop inside of a text: [l] is what follows [c]. *)
Fixpoint text_loop (l : jsstr) (c : option Z) (i : Z) (s : t) : option Z * Z * t :=
  match c with
  | None => (None, i, s)
  | Some ch =>
    if decide (ch = 60 ∨ ch = 38) then (c, i, s)
    else
      match l with
      | [] => (None, i + 1, s)
      | x :: l => text_loop l (Some x) (i + 1) (tick x s)
      end
  end.

Definition case_text (chunk : jsstr) (c : Z) (i : Z) (s : t) : Z * t :=
  let '(c, i, s) :=
    if sawRoot s && negb (closedRoot s) then
      let '(c, i', s) := text_loop (drop (Z.to_nat i) chunk) (Some c) i s in
      (c, i', add_buf textNode (Lang.substring chunk (i - 1) (i' - 1)) s)
    else (Some c, i, s) in
  if decide (c = Some 60) then (i, set_start (position s) (set_state OPEN_WAKA s))
  else
    let space := match c with Some c => whitespace c | None => false end in
    let s :=
      if negb space && (negb (sawRoot s) || closedRoot s) then strictFail (jstr "Text data outside of root node.") s else s in
    if decide (c = Some 38) then (i, set_state TEXT_ENTITY s)
    else (i, match c with Some c => add_buf textNode [c] s | None => s end).

(** The loop over the spaces to put back counts with the index of the parser. *)
Definition case_open_waka (c : Z) (i : Z) (s : t) : Z * t :=
  if decide (c = 33) then (i, set_buf sgmlDecl [] (set_state SGML_DECL s))
  else if whitespace c then (i, s)
  else if nameStart c then (i, set_buf tagName [c] (set_state OPEN_TAG s))
  else if decide (c = 47) then (i, set_buf tagName [] (set_state CLOSE_TAG s))
  else if decide (c = 63) then (i, set_buf procInstName [] (set_buf procInstBody [] (set_state PROC_INST s)))
  else
    let s := strictFail (jstr "Unencoded <") s in
    let pad := if decide (startTagPosition s + 1 < position s) then position s - startTagPosition s else 0 in
    let i := if decide (startTagPosition s + 1 < position s) then pad else i in
    (i, set_state TEXT (add_buf textNode ([60] ++ replicate (Z.to_nat pad) 32 ++ [c]) s)).

Definition case_sgml_decl (c : Z) (s : t) : t :=
  let decl := buf s sgmlDecl ++ [c] in
  if decide (toUpperCase decl = CDATA_open) then
    let s := emit onopencdata (closetext_if_exist s) in
    set_buf cdata [] (set_buf sgmlDecl [] (set_state CDATA s))
  else if decide (decl = jstr "--") then set_buf sgmlDecl [] (set_buf comment [] (set_state COMMENT s))
  else if decide (toUpperCase decl = DOCTYPE_word) then
    let s := set_state DOCTYPE s in
    let s :=
      if negb (bool_decide (buf s doctype = [])) || sawRoot s
      then strictFail (jstr "Inappropriately located doctype declaration") s else s in
    set_buf sgmlDecl [] (set_buf doctype [] s)
  else if decide (c = 62) then
    let s := closetext_if_exist s in
    let s := emit (onsgmldeclaration (buf s sgmlDecl)) s in
    set_state TEXT (set_buf sgmlDecl [] s)
  else if quote c then add_buf sgmlDecl [c] (set_state SGML_DECL_QUOTED s)
  else add_buf sgmlDecl [c] s.

Definition case_doctype (c : Z) (s : t) : t :=
  if decide (c = 62) then
    let s := closetext_if_exist (set_state TEXT s) in
    emit (ondoctype (trim (buf s doctype))) s
  else
    let s := add_buf doctype [c] s in
    if decide (c = 91) then set_state DOCTYPE_DTD s
    else if quote c then set_q (Some c) (set_state DOCTYPE_QUOTED s)
    else s.

(** The quoted parts of the declarations: [outer] is the state around them. *)
Definition case_quoted (b : buffer) (outer : State) (c : Z) (s : t) : t :=
  let s := add_buf b [c] s in
  if decide (q s = Some c) then set_q None (set_state outer s) else s.

Definition case_doctype_dtd (c : Z) (s : t) : t :=
  let s := add_buf doctype [c] s in
  if decide (c = 93) then set_state DOCTYPE s
  else if quote c then set_q (Some c) (set_state DOCTYPE_DTD_QUOTED s)
  else s.

Definition case_comment_ending (c : Z) (s : t) : t :=
  if decide (c = 45) then
    let s := set_state COMMENT_ENDED s in
    let s := set_buf comment (textopts (buf s comment)) s in
    let s :=
      if decide (buf s comment = []) then s
      else let s := closetext_if_exist s in emit (oncomment (trim (buf s comment))) s in
    set_buf comment [] s
  else set_state COMMENT (add_buf comment [45; c] s).

Definition case_comment_ended (c : Z) (s : t) : t :=
  if decide (c ≠ 62) then
    let s := strictFail (jstr "Malformed comment") s in
    set_state COMMENT (add_buf comment [45; 45; c] s)
  else set_state TEXT s.

Definition case_cdata_ending_2 (c : Z) (s : t) : t :=
  if decide (c = 62) then
    let s := if decide (buf s cdata = []) then s else closetext_if_exist s in
    let s := emit onclosecdata (emit (oncdata (buf s cdata)) s) in
    set_state TEXT (set_buf cdata [] s)
  else if decide (c = 93) then add_buf cdata [93] s
  else set_state CDATA (add_buf cdata [93; 93; c] s).

Definition case_proc_inst_body (c : Z) (s : t) : t :=
  if bool_decide (buf s procInstBody = []) && whitespace c then s
  else if decide (c = 63) then set_state PROC_INST_ENDING s
  else add_buf procInstBody [c] s.

Definition case_proc_inst_ending (c : Z) (s : t) : t :=
  if decide (c = 62) then
    let s := closetext_if_exist s in
    let s := emit (onprocessinginstruction (buf s procInstName) (buf s procInstBody)) s in
    set_state TEXT (set_buf procInstName [] (set_buf procInstBody [] s))
  else set_state PROC_INST_BODY (add_buf procInstBody [63; c] s).

Definition case_open_tag (c : Z) (s : t) : outcome t :=
  if nameBody c then Ret (add_buf tagName [c] s)
  else
    let s := newTag s in
    if decide (c = 62) then openTag false s
    else if decide (c = 47) then Ret (set_state OPEN_TAG_SLASH s)
    else
      let s := if negb (whitespace c) then strictFail (jstr "Invalid character in tag name") s else s in
      Ret (set_state ATTRIB s).

Definition case_open_tag_slash (c : Z) (s : t) : outcome t :=
  if decide (c = 62) then s ← openTag true s; Ret (closeTag s)
  else
    let s := strictFail (jstr "Forward-slash in opening tag not followed by >") s in
    Ret (set_state ATTRIB s).

Definition case_attrib (c : Z) (s : t) : outcome t :=
  if whitespace c then Ret s
  else if decide (c = 62) then openTag false s
  else if decide (c = 47) then Ret (set_state OPEN_TAG_SLASH s)
  else if nameStart c then Ret (set_state ATTRIB_NAME (set_buf attribValue [] (set_buf attribName [c] s)))
  else Ret (strictFail (jstr "Invalid attribute name") s).

Definition case_attrib_name (c : Z) (s : t) : outcome t :=
  if decide (c = 61) then Ret (set_state ATTRIB_VALUE s)
  else if decide (c = 62) then
    let s := strictFail (jstr "Attribute without value") s in
    let s := set_buf attribValue (buf s attribName) s in
    s ← attrib s; openTag false s
  else if whitespace c then Ret (set_state ATTRIB_NAME_SAW_WHITE s)
  else if nameBody c then Ret (add_buf attribName [c] s)
  else Ret (strictFail (jstr "Invalid attribute name") s).

Definition case_attrib_name_saw_white (c : Z) (s : t) : outcome t :=
  if decide (c = 61) then Ret (set_state ATTRIB_VALUE s)
  else if whitespace c then Ret s
  else
    let s := strictFail (jstr "Attribute without value") s in
    s ← put_attribute (buf s attribName) [] s;
    let s := closetext_if_exist (set_buf attribValue [] s) in
    let s := emit (onattribute (buf s attribName) []) s in
    let s := set_buf attribName [] s in
    if decide (c = 62) then openTag false s
    else if nameStart c then Ret (set_state ATTRIB_NAME (set_buf attribName [c] s))
    else
      let s := strictFail (jstr "Invalid attribute name") s in
      Ret (set_state ATTRIB s).

Definition case_attrib_value (c : Z) (s : t) : t :=
  if whitespace c then s
  else if quote c then set_state ATTRIB_VALUE_QUOTED (set_q (Some c) s)
  else
    let s := strictFail (jstr "Unquoted attribute value") s in
    set_buf attribValue [c] (set_state ATTRIB_VALUE_UNQUOTED s).

Definition case_attrib_value_quoted (c : Z) (s : t) : outcome t :=
  if decide (q s ≠ Some c) then
    if decide (c = 38) then Ret (set_state ATTRIB_VALUE_ENTITY_Q s) else Ret (add_buf attribValue [c] s)
  else s ← attrib s; Ret (set_state ATTRIB (set_q None s)).

Definition case_attrib_value_unquoted (c : Z) (s : t) : outcome t :=
  if negb (attribEnd c) then
    if decide (c = 38) then Ret (set_state ATTRIB_VALUE_ENTITY_U s) else Ret (add_buf attribValue [c] s)
  else
    s ← attrib s;
    if decide (c = 62) then openTag false s else Ret (set_state ATTRIB s).

Definition case_close_tag (c : Z) (s : t) : t :=
  if decide (buf s tagName = []) then
    if whitespace c then s
    else if negb (nameStart c) then
      if decide (buf s script = []) then strictFail (jstr "Invalid tagname in closing tag.") s
      else set_state SCRIPT (add_buf script [60; 47; c] s)
    else set_buf tagName [c] s
  else if decide (c = 62) then closeTag s
  else if nameBody c then add_buf tagName [c] s
  else if decide (buf s script = []) then
    let s := if negb (whitespace c) then strictFail (jstr "Invalid tagname in closing tag") s else s in
    set_state CLOSE_TAG_SAW_WHITE s
  else set_state SCRIPT (set_buf tagName [] (add_buf script ([60; 47] ++ buf s tagName) s)).

(** An entity in the buffer [b], left for the state [outer]. *)
Definition case_entity (b : buffer) (outer : State) (c : Z) (s : t) : t :=
  if decide (c = 59) then
    let '(s, v) := parseEntity s in
    set_state outer (set_buf entity [] (add_buf b v s))
  else if entity_char c then add_buf entity [c] s
  else
    let s := strictFail (jstr "Invalid character entity") s in
    set_state outer (set_buf entity [] (add_buf b ([38] ++ buf s entity ++ [c]) s)).

Definition step (chunk : jsstr) (c : Z) (i : Z) (s : t) : outcome (Z * t) :=
  let here (m : outcome t) := s ← m; Ret (i, s) in
  match state s with
  | BEGIN =>
    if decide (c = 60) then Ret (i, set_start (position s) (set_state OPEN_WAKA s))
    else if negb (whitespace c) then
      let s := strictFail (jstr "Non-whitespace before first tag.") s in
      Ret (i, set_state TEXT (set_buf textNode [c] s))
    else Ret (i, s)
  | TEXT => Ret (case_text chunk c i s)
  | SCRIPT => Ret (i, if decide (c = 60) then set_state SCRIPT_ENDING s else add_buf script [c] s)
  | SCRIPT_ENDING =>
    Ret (i, if decide (c = 47) then set_state CLOSE_TAG s else set_state SCRIPT (add_buf script [60; c] s))
  | OPEN_WAKA => Ret (case_open_waka c i s)
  | SGML_DECL => Ret (i, case_sgml_decl c s)
  | SGML_DECL_QUOTED => Ret (i, case_quoted sgmlDecl SGML_DECL c s)
  | DOCTYPE => Ret (i, case_doctype c s)
  | DOCTYPE_QUOTED => Ret (i, case_quoted doctype DOCTYPE c s)
  | DOCTYPE_DTD => Ret (i, case_doctype_dtd c s)
  | DOCTYPE_DTD_QUOTED => Ret (i, case_quoted doctype DOCTYPE_DTD c s)
  | COMMENT => Ret (i, if decide (c = 45) then set_state COMMENT_ENDING s else add_buf comment [c] s)
  | COMMENT_ENDING => Ret (i, case_comment_ending c s)
  | COMMENT_ENDED => Ret (i, case_comment_ended c s)
  | CDATA => Ret (i, if decide (c = 93) then set_state CDATA_ENDING s else add_buf cdata [c] s)
  | CDATA_ENDING => Ret (i, if decide (c = 93) then set_state CDATA_ENDING_2 s else set_state CDATA (add_buf cdata [93; c] s))
  | CDATA_ENDING_2 => Ret (i, case_cdata_ending_2 c s)
  | PROC_INST =>
    Ret (i, if decide (c = 63) then set_state PROC_INST_ENDING s
            else if whitespace c then set_state PROC_INST_BODY s else add_buf procInstName [c] s)
  | PROC_INST_BODY => Ret (i, case_proc_inst_body c s)
  | PROC_INST_ENDING => Ret (i, case_proc_inst_ending c s)
  | OPEN_TAG => here (case_open_tag c s)
  | OPEN_TAG_SLASH => here (case_open_tag_slash c s)
  | ATTRIB => here (case_attrib c s)
  | ATTRIB_NAME => here (case_attrib_name c s)
  | ATTRIB_NAME_SAW_WHITE => here (case_attrib_name_saw_white c s)
  | ATTRIB_VALUE => Ret (i, case_attrib_value c s)
  | ATTRIB_VALUE_QUOTED => here (case_attrib_value_quoted c s)
  | ATTRIB_VALUE_UNQUOTED => here (case_attrib_value_unquoted c s)
  | CLOSE_TAG => Ret (i, case_close_tag c s)
  | CLOSE_TAG_SAW_WHITE =>
    Ret (i, if whitespace c then s
            else if decide (c = 62) then closeTag s else strictFail (jstr "Invalid characters in closing tag") s)
  | TEXT_ENTITY => Ret (i, case_entity textNode TEXT c s)
  | ATTRIB_VALUE_ENTITY_Q => Ret (i, case_entity attribValue ATTRIB_VALUE_QUOTED c s)
  | ATTRIB_VALUE_ENTITY_U => Ret (i, case_entity attribValue ATTRIB_VALUE_UNQUOTED c s)
  end.

Fixpoint loop (fuel : nat) (chunk : jsstr) (i : Z) (s : t) : outcome t :=
  match fuel with
  | O => NoFuel
  | S fuel =>
    match aget chunk i with
    | None => Ret (finish (set_chr [] s))
    | Some c =>
      '(i, s) ← step chunk c (i + 1) (tick c (set_chr [c] s));
      loop fuel chunk i s
    end
  end.

(** A parser that has met an error throws it, and one that was closed only reports
    that it was. *)
Definition parse (fuel : nat) (chunk : jsstr) (s : t) : outcome t :=
  match error s with
  | Some e => Throw "Error"
  | None =>
    if closed s then Ret (emiterror (jstr "Cannot write after close. Assign an onready handler.") s)
    else loop fuel chunk 0 s
  end.

Definition close (s : t) : outcome t := parse 1 [] s.

(** More fuel does not change a result. *)
Lemma loop_more fuel fuel' chunk i s s' : loop fuel chunk i s = Ret s' → (fuel ≤ fuel')%nat → loop fuel' chunk i s = Ret s'.
Proof.
  revert fuel' i s. induction fuel as [|fuel IH]; intros fuel' i s; [done|]. destruct fuel' as [|fuel']; [lia|]. cbn [loop].
  destruct (aget chunk i); [|done]. intros ([i1 s1] & -> & Hl)%bind_Ret Hle. cbn [mbind outcome_bind]. apply IH; [done|lia].
Qed.

Lemma parse_more fuel fuel' chunk s s' : parse fuel chunk s = Ret s' → (fuel ≤ fuel')%nat → parse fuel' chunk s = Ret s'.
Proof. unfold parse. destruct (error s); [done|]. destruct (closed s); [done|]. apply loop_more. Qed.

End parser.

End Sax.
