(* ===== verification/SaxNesting.v ===== *)
(** * What the SAX parser guarantees on any input

    Whatever it reads, well-formed or not, the parser of [Sax.v] calls
    [onclosetag] only for the last tag that is still open, never fails on a
    missing tag object, and starts with [onready] and ends with [onend].  It ends
    for every text in which no space follows a [<], and it does not for a lone
    [<] between spaces. *)

From stdpp Require Import functions.
From S2P Require Import Prelude JsObject Lang Sax.

Local Open Scope Z_scope.
Local Open Scope js_scope.

Import Sax.

(** ** Instances for examples *)

#[export] Program Instance ascii_case : CaseMap := {| toLowerCase s := ascii_lower <$> s; toUpperCase s := ascii_upper <$> s |}.
Next Obligation. done. Qed.
Next Obligation. done. Qed.

#[export] Instance plain_runtime : Runtime :=
  {| native_text k := jstr "function " ++ k ++ jstr "() { [native code] }"; double_text _ ds := strip_zeros ds;
     double_code base ds := to_uint16 (digits_number base ds) |}.

Definition events_of (chunk : string) : outcome (list event) :=
  s ← parse (S (String.length chunk)) (jstr chunk) (new false); Ret (events s).

Example parse_empty : events_of "" = Ret [onready; onerror (jstr "Unexpected end" ++ [10] ++ jstr "Line: 0" ++ [10] ++ jstr "Column: 0" ++ [10] ++ jstr "Char: "); onend].
Proof. vm_compute. reflexivity. Qed.

Example parse_doctype : events_of "<!DOCTYPE html>" = Ret [onready; ondoctype (jstr "html"); onend].
Proof. vm_compute. reflexivity. Qed.

Example parse_tag : events_of "<html/>" = Ret [onready; onopentag (jstr "html") []; onclosetag (jstr "html"); onend].
Proof. vm_compute. reflexivity. Qed.

Example parse_body :
  events_of "<html LANG='ja'><body>hello &amp; world<!-- comment --></body></html>" =
  Ret [onready; onattribute (jstr "lang") (jstr "ja"); onopentag (jstr "html") [(jstr "lang", jstr "ja")];
       onopentag (jstr "body") []; ontext (jstr "hello & world"); oncomment (jstr "comment"); onclosetag (jstr "body");
       onclosetag (jstr "html"); onend].
Proof. vm_compute. reflexivity. Qed.

(** ** Nesting *)

(** How far a handler is: not started, inside of open tags, the last one first, or
    at the end. *)
Inductive progress := Start | In (open : list jsstr) | Done (open : list jsstr) | Bad.

Definition nest (p : progress) (e : event) : progress :=
  match p with
  | Start => match e with onready => In [] | _ => Bad end
  | In l =>
    match e with
    | onready => Bad
    | onend => Done l
    | onopentag n _ => In (n :: l)
    | onclosetag n => match l with n' :: l => if decide (n = n') then In l else Bad | [] => Bad end
    | _ => In l
    end
  | _ => Bad
  end.

Definition nesting (es : list event) : progress := foldl nest Start es.

Definition plain (e : event) : bool :=
  match e with onready | onend | onopentag _ _ | onclosetag _ => false | _ => true end.

Lemma nesting_emit es e : nesting (es ++ [e]) = nest (nesting es) e.
Proof. unfold nesting. by rewrite foldl_app. Qed.

(** The states inside of a tag. *)
Definition in_tag (x : State) : bool :=
  match x with
  | OPEN_TAG_SLASH | ATTRIB | ATTRIB_NAME | ATTRIB_NAME_SAW_WHITE | ATTRIB_VALUE | ATTRIB_VALUE_QUOTED
  | ATTRIB_VALUE_UNQUOTED | ATTRIB_VALUE_ENTITY_Q | ATTRIB_VALUE_ENTITY_U => true
  | _ => false
  end.

(** The open tags are those the handler has seen, and inside of a tag there is a
    tag object. *)
Definition nested (s : t) : Prop := nesting (events s) = In (reverse (name <$> tags s)).
Definition ok (s : t) : Prop := nested s ∧ (in_tag (state s) = true → is_Some (tag s)).

(** ** Moves between tags

    From [s] to [s'] no tag is opened or closed; [s'] is in state [x]. *)
Record moves (x : State) (s s' : t) : Prop := {
  moves_tags : tags s' = tags s;
  moves_tag : tag s' = tag s;
  moves_state : state s' = x;
  moves_events l : nesting (events s) = In l → nesting (events s') = In l;
}.

Lemma moves_refl s : moves (state s) s s.
Proof. by split. Qed.

Lemma moves_same x s a a' : tags a' = tags a → tag a' = tag a → state a' = state a → events a' = events a →
  moves x s a → moves x s a'.
Proof. intros ? ? ? He [? ? ? Hl]. split; [congruence..|]. intros l Hs. rewrite He. by apply Hl. Qed.

Lemma moves_set_state x y s a : moves x s a → moves y s (set_state y a).
Proof. intros [? ? ? Hl]. by split. Qed.

Lemma moves_emit x s a e : plain e = true → moves x s a → moves x s (emit e a).
Proof.
  intros He [? ? ? Hl]. split; [done..|]. intros l Hs. cbn [events emit]. rewrite nesting_emit, (Hl l Hs). by destruct e.
Qed.

Create HintDb sax.
#[export] Hint Resolve moves_refl moves_set_state : sax.
#[export] Hint Extern 1 (moves _ _ (_ ?a)) => (apply (moves_same _ _ a); [reflexivity..|]) : sax.
#[export] Hint Extern 1 (moves _ _ (emit _ _)) => (apply moves_emit; [reflexivity|]) : sax.
#[export] Hint Extern 2 (moves _ _ (if ?b then _ else _)) => destruct b : sax.
#[export] Hint Extern 2 (moves _ _ (match ?b with _ => _ end)) => destruct b : sax.

Lemma moves_closetext x s a : moves x s a → moves x s (closetext a).
Proof. intros Hs. unfold closetext. cbv zeta. auto 10 with sax. Qed.
#[export] Hint Resolve moves_closetext : sax.

Lemma moves_closetext_if_exist x s a : moves x s a → moves x s (closetext_if_exist a).
Proof. unfold closetext_if_exist. auto with sax. Qed.

Lemma moves_emiterror x s a er : moves x s a → moves x s (emiterror er a).
Proof. unfold emiterror. auto 10 with sax. Qed.
#[export] Hint Resolve moves_closetext_if_exist moves_emiterror : sax.

Lemma moves_strictFail x s a m : moves x s a → moves x s (strictFail m a).
Proof. unfold strictFail. auto with sax. Qed.

Lemma moves_tick x s a c : moves x s a → moves x s (tick c a).
Proof. unfold tick. auto with sax. Qed.
#[export] Hint Resolve moves_strictFail moves_tick : sax.

Lemma moves_nested x s s' : moves x s s' → nested s → nested s'.
Proof. unfold nested. intros [Htags _ _ Hl] Hn. rewrite Htags. by apply Hl. Qed.

Lemma moves_ok x s s' : moves x s s' → ok s → (in_tag x = true → is_Some (tag s)) → ok s'.
Proof. intros Hm [Hn _] Hx. split; [by eapply moves_nested|]. destruct Hm as [_ -> -> _]. done. Qed.

Lemma nested_same s s' : events s' = events s → tags s' = tags s → nested s → nested s'.
Proof. unfold nested. by intros -> ->. Qed.

(** Of the buffers only the text is emptied. *)
Lemma buf_set b x b' s : buf (set_buf b x s) b' = if decide (b = b') then x else buf s b'.
Proof. cbn. unfold insert, fn_insert. done. Qed.

Lemma buf_closetext b s : b ≠ textNode → buf (closetext s) b = buf s b.
Proof.
  intros Hb. unfold closetext. cbv zeta. rewrite buf_set, decide_False by done.
  destruct (decide (preTags s = 0)); by case_decide.
Qed.

Lemma buf_closetext_if_exist b s : b ≠ textNode → buf (closetext_if_exist s) b = buf s b.
Proof. intros Hb. unfold closetext_if_exist. case_decide; [done|by apply buf_closetext]. Qed.

Lemma buf_strictFail b m s : b ≠ textNode → buf (strictFail m s) b = buf s b.
Proof. intros Hb. unfold strictFail, emiterror. destruct (strict s); [|done]. by apply buf_closetext. Qed.

(** Every branch of a definition. *)
Ltac branches := repeat match goal with
  | |- context [if ?b then _ else _] => destruct b
  | |- context [match ?b with _ => _ end] => destruct b
  end.

(** ** Opening and closing *)

Section tags.
Context `{CaseMap, Runtime}.

Lemma openTag_spec b s : nested s → is_Some (tag s) →
  ∃ s', openTag b s = Ret s' ∧ nested s' ∧ (b = false → in_tag (state s') = false).
Proof.
  intros Hn [tg Htg]. unfold openTag. rewrite Htg. eexists. split; [reflexivity|]. cbv zeta.
  set (tg' := mkTag _ _ _). set (a := set_tags _ _).
  assert (moves (state a) a (closetext_if_exist a)) as [Ht _ _ Hl] by auto with sax.
  set (o := emit (onopentag _ _) _). assert (nested o) as Ho.
  { unfold nested. subst o. cbn [events emit tags]. rewrite nesting_emit, (Hl (reverse (name <$> tags s))) by exact Hn.
    rewrite Ht. subst a. cbn [set_tags tags]. rewrite fmap_app, reverse_app. done. }
  clearbody o. split.
  - eapply (nested_same o); [..|exact Ho]; destruct (decide _), b; try destruct (negb _ && _); reflexivity.
  - intros ->. by destruct (decide _), (negb _ && _).
Qed.

Lemma find_open_spec n closeTo s : ∃ r a, find_open n closeTo s = (r, a) ∧ moves (state s) s a ∧
  match r with Some k => (k < n)%nat | None => True end.
Proof.
  enough (∀ a, moves (state s) s a → ∃ r a', find_open n closeTo a = (r, a') ∧ moves (state s) s a' ∧
    match r with Some k => (k < n)%nat | None => True end) as Hgen by (apply Hgen; auto with sax).
  induction n as [|n IH]; intros a Ha; cbn [find_open]; [by eauto|]. destruct (tags a !! n) as [tg|]; [|by eauto].
  case_decide; [|exists (Some n), a; split_and!; [done..|lia]].
  destruct (IH (strictFail (jstr "Unexpected close tag") a)) as (r & a' & Hf & Hm & Hr); [auto with sax|].
  exists r, a'. split_and!; [done..|]. destruct r; [lia|done].
Qed.

Lemma close_to_nested n k s : nested s → length (tags s) = n → nested (close_to n k s).
Proof.
  revert s. induction n as [|n IH]; intros s Hn Hlen; cbn [close_to]; [done|]. case_decide; [done|].
  destruct (tags s) as [|tg l _] eqn:Htags using rev_ind; [done|].
  rewrite last_snoc. cbv zeta. rewrite length_app in Hlen |- *. cbn [length] in Hlen |- *.
  rewrite (take_app_length' l) by lia. set (a := set_buf tagName _ _).
  assert (moves (state a) a (closetext_if_exist a)) as [Ht _ _ Hl] by auto with sax.
  set (o := emit _ _). assert (nested o ∧ tags o = l) as [Ho Hol].
  { unfold nested. subst o. cbn [events emit tags]. rewrite nesting_emit. split; [|by rewrite Ht].
    rewrite (Hl (reverse (name <$> tags s))) by exact Hn. rewrite Ht, Htags, fmap_app, reverse_app. cbn [nest reverse rev_append fmap list_fmap app].
    rewrite buf_closetext_if_exist by done. subst a. by rewrite buf_set, !decide_True. }
  clearbody o. subst l. apply IH; destruct (decide _); try exact Ho; cbn [set_preTags tags]; lia.
Qed.

Lemma close_found_spec s : nested s → nested (close_found s) ∧ state (close_found s) = TEXT.
Proof.
  intros Hn. unfold close_found. cbv zeta. set (name' := if strict s then _ else _).
  destruct (find_open_spec (length (tags s)) name' s) as (r & a & -> & Hm & Hr). destruct r as [k|]; split; try done.
  - eapply (nested_same (close_to (length (tags a)) k (set_buf tagName name' a))); [by destruct (decide _)..|].
    apply close_to_nested; [|done]. eapply nested_same; [..|by eapply moves_nested]; done.
  - eapply moves_nested; [|by eapply moves_nested]. eauto 10 with sax.
Qed.

Lemma closeTag_spec s : nested s → nested (closeTag s) ∧ in_tag (state (closeTag s)) = false.
Proof.
  intros Hn. unfold closeTag. cbv zeta. repeat case_decide.
  - split; [|done]. eapply moves_nested; [|exact Hn]. eauto 10 with sax.
  - destruct (close_found_spec s Hn) as [? ->]. done.
  - split; [|done]. eapply moves_nested; [|exact Hn]. eauto 10 with sax.
  - set (a := set_buf script _ _). destruct (close_found_spec a) as [? ->]; [|done].
    eapply moves_nested; [|exact Hn]. subst a. eauto 10 with sax.
Qed.


Lemma attrib_spec s : nested s → is_Some (tag s) →
  ∃ s', attrib s = Ret s' ∧ nested s' ∧ is_Some (tag s') ∧ state s' = state s.
Proof.
  intros Hn Ht. unfold attrib. cbv zeta. set (a := if strict s then s else _).
  assert (moves (state s) s a) as Ha by (subst a; auto with sax). clearbody a.
  pose proof (moves_nested _ _ _ Ha Hn) as Hna. destruct Ha as [_ Htag Hst _]. rewrite <- Htag in Ht.
  destruct Ht as [tg Htg]. rewrite Htg. destruct (Obj.get _ _).
  { eexists. split; [reflexivity|]. split_and!; [by eapply nested_same; [..|exact Hna]|by eexists|done]. }
  unfold put_attribute. rewrite Htg. cbn [mbind outcome_bind]. set (b := set_tag _ a). eexists. split; [reflexivity|].
  assert (nested b) as Hnb by exact Hna. set (e := set_buf attribName _ _).
  assert (moves (state b) b e) as He by (subst e; eauto 10 with sax). split; [by eapply moves_nested|].
  destruct He as [_ -> -> _]. split; [by eexists|done].
Qed.

Lemma parseEntity_moves s : moves (state s) s (parseEntity s).1.
Proof.
  unfold parseEntity. cbv zeta. destruct (lookup_entity _); [auto with sax|]. destruct (lookup_entity _); [auto with sax|].
  destruct (match toLowerCase (buf s entity) with [] => _ | _ => _ end) as [[ent numStr] num].
  case_decide; cbn [fst]; auto with sax.
Qed.

(** In a state outside of tags. *)
Lemma moves_out x s s' : moves x s s' → ok s → in_tag x = false → ok s'.
Proof. intros Hm Hs Hx. eapply moves_ok; [done..|]. by rewrite Hx. Qed.

(** In a state inside of the same tag. *)
Lemma moves_in x s s' : moves x s s' → ok s → in_tag (state s) = true → ok s'.
Proof. intros Hm Hs Hx. eapply moves_ok; [done..|]. intros _. by apply Hs. Qed.

(** The cases that neither open nor close a tag. *)
Ltac quiet_case :=
  cbv zeta; branches; cbn [fst snd];
  lazymatch goal with
  | Hs : ok ?s, Hst : state ?s = _ |- ok _ =>
    first [eapply (moves_out _ s); [solve [eauto 20 with sax]|exact Hs|by rewrite ?Hst]
          |eapply (moves_in _ s); [solve [eauto 20 with sax]|exact Hs|by rewrite Hst]]
  end.

Lemma case_text_ok chunk c i s : ok s → state s = TEXT → ok (case_text chunk c i s).2.
Proof.
  intros Hs Hst. unfold case_text. set (r := if sawRoot s && _ then _ else _).
  assert (moves TEXT s r.2) as Hr.
  { subst r. destruct (sawRoot s && _); [|cbn; rewrite <- Hst; auto with sax].
    enough (∀ l c i a, moves TEXT s a → moves TEXT s (text_loop l c i a).2) as Hloop.
    { specialize (Hloop (drop (Z.to_nat i) chunk) (Some c) i s). destruct (text_loop _ _ _ _) as [[c' i'] a].
      cbn [snd] in *. apply (moves_same _ _ a); [reflexivity..|]. apply Hloop. rewrite <- Hst. auto with sax. }
    induction l as [|x l IH]; intros [ch|] i0 a Ha; cbn [text_loop]; try case_decide; try done. apply IH. auto with sax. }
  destruct r as [[c' i'] a]. cbn [snd] in Hr.
  repeat case_decide; cbn [snd]; (eapply moves_out; [|exact Hs|]);
    [eauto 20 with sax|done|eauto 20 with sax|done|destruct c'; eauto 20 with sax|done].
Qed.

Lemma case_open_waka_ok c i s : ok s → state s = OPEN_WAKA → ok (case_open_waka c i s).2.
Proof. intros Hs Hst. unfold case_open_waka. quiet_case. Qed.

Lemma case_sgml_decl_ok c s : ok s → state s = SGML_DECL → ok (case_sgml_decl c s).
Proof. intros Hs Hst. unfold case_sgml_decl. quiet_case. Qed.

Lemma case_quoted_ok b outer c s x : ok s → state s = x → in_tag x = false → in_tag outer = false → ok (case_quoted b outer c s).
Proof.
  intros Hs Hst Hx Ho. unfold case_quoted. cbv zeta.
  case_decide; (eapply (moves_out _ s); [eauto 20 with sax|done|by rewrite ?Hst]).
Qed.

Lemma case_entity_ok b outer c s : ok s → in_tag outer = in_tag (state s) → ok (case_entity b outer c s).
Proof.
  intros Hs Ho. unfold case_entity. cbv zeta. pose proof (parseEntity_moves s) as Hp. destruct (parseEntity s) as [a v]. cbn [fst] in Hp.
  assert (∀ x s', moves x s s' → in_tag x = in_tag (state s) → ok s') as Hok.
  { intros x s' Hm Hx. eapply moves_ok; [done..|]. rewrite Hx. apply Hs. }
  case_decide; [eapply Hok; [eauto 20 with sax|done]|]. destruct (entity_char c); (eapply Hok; [eauto 20 with sax|done]).
Qed.

(** A result that is a state as it should be. *)
Definition fine (m : outcome t) : Prop := ∃ s, m = Ret s ∧ ok s.

Lemma fine_ret s : ok s → fine (Ret s).
Proof. intros Hs. by exists s. Qed.

Lemma fine_open s : nested s → is_Some (tag s) → fine (openTag false s).
Proof.
  intros Hn Ht. destruct (openTag_spec false s Hn Ht) as (s' & -> & Hn' & Hst). apply fine_ret. split; [done|].
  by rewrite Hst.
Qed.

Lemma fine_attrib s (k : t → outcome t) : ok s → is_Some (tag s) →
  (∀ s', nested s' → is_Some (tag s') → fine (k s')) → fine (s' ← attrib s; k s').
Proof. intros Hs Ht Hk. destruct (attrib_spec s (proj1 Hs) Ht) as (s' & -> & Hn & Ht' & _). by apply Hk. Qed.

Lemma case_open_tag_fine c s : ok s → state s = OPEN_TAG → fine (case_open_tag c s).
Proof.
  intros Hs Hst. unfold case_open_tag. cbv zeta. destruct (nameBody c); [apply fine_ret; quiet_case|].
  assert (nested (newTag s) ∧ is_Some (tag (newTag s))) as [Hn Ht].
  { unfold newTag. split; [|by eexists]. eapply (nested_same s); [..|apply Hs]; by destruct (strict s). }
  case_decide; [by apply fine_open|]. assert (ok (newTag s)) as Hok by done.
  case_decide; apply fine_ret; (eapply (moves_ok _ (newTag s)); [eauto 20 with sax|done|done]).
Qed.

Lemma case_open_tag_slash_fine c s : ok s → state s = OPEN_TAG_SLASH → fine (case_open_tag_slash c s).
Proof.
  intros Hs Hst. unfold case_open_tag_slash. cbv zeta. case_decide; [|apply fine_ret; quiet_case].
  destruct (openTag_spec true s) as (s' & -> & Hn & _); [apply Hs|apply Hs; by rewrite Hst|].
  apply fine_ret. destruct (closeTag_spec s' Hn) as [Hn' Hst']. split; [done|]. by rewrite Hst'.
Qed.

Section in_tag.
Context (c : Z) (s : t) (Hs : ok s).

Lemma case_attrib_fine : state s = ATTRIB → fine (case_attrib c s).
Proof.
  intros Hst. unfold case_attrib. destruct (whitespace c); [by apply fine_ret|].
  case_decide; [apply fine_open; [apply Hs|apply Hs; by rewrite Hst]|].
  case_decide; [apply fine_ret; quiet_case|]. destruct (nameStart c); apply fine_ret; quiet_case.
Qed.

Lemma case_attrib_name_fine : state s = ATTRIB_NAME → fine (case_attrib_name c s).
Proof.
  intros Hst. unfold case_attrib_name. cbv zeta. case_decide; [apply fine_ret; quiet_case|].
  case_decide.
  - set (a := set_buf attribValue _ _). assert (moves (state s) s a) as Ha by (subst a; auto 10 with sax).
    apply fine_attrib; [eapply moves_in; [exact Ha|done|by rewrite Hst]| |by apply fine_open].
    rewrite (moves_tag _ _ _ Ha). apply Hs. by rewrite Hst.
  - destruct (whitespace c); [apply fine_ret; quiet_case|]. destruct (nameBody c); apply fine_ret; quiet_case.
Qed.

Lemma case_attrib_name_saw_white_fine : state s = ATTRIB_NAME_SAW_WHITE → fine (case_attrib_name_saw_white c s).
Proof.
  intros Hst. unfold case_attrib_name_saw_white. cbv zeta. case_decide; [apply fine_ret; quiet_case|].
  destruct (whitespace c); [by apply fine_ret|]. set (a := strictFail _ s).
  assert (moves (state s) s a) as Ha by (subst a; auto 10 with sax). clearbody a.
  assert (is_Some (tag a)) as [tg Htg] by (rewrite (moves_tag _ _ _ Ha); apply Hs; by rewrite Hst).
  pose proof (moves_nested _ _ _ Ha (proj1 Hs)) as Hn. unfold put_attribute. rewrite Htg. cbn [mbind outcome_bind].
  set (b := set_tag _ a). assert (nested b ∧ is_Some (tag b)) as [Hb Htb] by (split; [exact Hn|by eexists]). clearbody b.
  set (e := set_buf attribName [] _). assert (moves (state b) b e) as He by (subst e; eauto 20 with sax). clearbody e.
  pose proof (moves_nested _ _ _ He Hb) as Hne. rewrite <- (moves_tag _ _ _ He) in Htb.
  case_decide; [by apply fine_open|].
  assert (∀ x s', moves x e s' → ok s') as Hok.
  { intros x s' Hm. split; [by eapply moves_nested|]. by rewrite (moves_tag _ _ _ Hm). }
  destruct (nameStart c); apply fine_ret; (eapply Hok; eauto 20 with sax).
Qed.

Lemma case_attrib_value_quoted_fine : state s = ATTRIB_VALUE_QUOTED → fine (case_attrib_value_quoted c s).
Proof.
  intros Hst. unfold case_attrib_value_quoted. case_decide.
  - case_decide; apply fine_ret; quiet_case.
  - apply fine_attrib; [done|apply Hs; by rewrite Hst|]. intros s' Hn Ht. apply fine_ret. by split.
Qed.

Lemma case_attrib_value_unquoted_fine : state s = ATTRIB_VALUE_UNQUOTED → fine (case_attrib_value_unquoted c s).
Proof.
  intros Hst. unfold case_attrib_value_unquoted. destruct (negb (attribEnd c)).
  - case_decide; apply fine_ret; quiet_case.
  - apply fine_attrib; [done|apply Hs; by rewrite Hst|]. intros s' Hn Ht.
    case_decide; [by apply fine_open|]. apply fine_ret. by split.
Qed.

Lemma case_close_tag_ok : state s = CLOSE_TAG → ok (case_close_tag c s).
Proof.
  intros Hst. unfold case_close_tag. case_decide; [quiet_case|]. case_decide; [|quiet_case].
  destruct (closeTag_spec s (proj1 Hs)) as [Hn Hi]. split; [done|]. by rewrite Hi.
Qed.

End in_tag.

Lemma step_ok chunk c i s : ok s → ∃ i' s', step chunk c i s = Ret (i', s') ∧ ok s'.
Proof.
  intros Hs. assert (∀ m, fine m → ∃ i' s', (a ← m; Ret (i, a)) = Ret (i', s') ∧ ok s') as Hfine.
  { intros m (s' & -> & Hok). by exists i, s'. }
  unfold step. cbv zeta. destruct (state s) eqn:Hst;
    lazymatch goal with
    | |- context [mbind _ _] => apply Hfine
    | |- _ => idtac
    end.
  all: try (eexists _, _; split; [reflexivity|]).
  all: first [solve [quiet_case]|idtac].
  all: try solve [apply case_sgml_decl_ok; done
                 |eapply case_quoted_ok; done
                 |apply case_entity_ok; [done|by rewrite Hst]
                 |apply case_open_tag_fine; done|apply case_open_tag_slash_fine; done|apply case_attrib_fine; done
                 |apply case_attrib_name_fine; done|apply case_attrib_name_saw_white_fine; done
                 |apply case_attrib_value_quoted_fine; done|apply case_attrib_value_unquoted_fine; done
                 |apply case_close_tag_ok; done].
  all: try solve [unfold case_doctype, case_doctype_dtd, case_comment_ending, case_comment_ended, case_cdata_ending_2,
                    case_proc_inst_body, case_proc_inst_ending, case_attrib_value; quiet_case].
  - case_decide; [|destruct (negb (whitespace c))]; eexists _, _; (split; [reflexivity|]); quiet_case.
  - pose proof (case_text_ok chunk c i s Hs Hst). destruct (case_text chunk c i s). by eexists _, _.
  - pose proof (case_open_waka_ok c i s Hs Hst). destruct (case_open_waka c i s). by eexists _, _.
  - destruct (whitespace c); [done|]. case_decide; [|quiet_case].
    destruct (closeTag_spec s (proj1 Hs)) as [Hn Hi]. split; [done|]. by rewrite Hi.
Qed.

Lemma finish_nested s : nested s → ∃ l, nesting (events (finish s)) = Done l.
Proof.
  intros Hn. unfold finish. cbv zeta. set (a := closetext _). assert (∃ x, moves x s a) as [x Ha].
  { subst a. destruct (closedRoot s); case_decide; eauto 10 with sax. }
  cbn [events emit set_closed set_chr]. rewrite nesting_emit, (moves_events _ _ _ Ha _ Hn). by eexists.
Qed.

Lemma read_ok c s : ok s → ok (tick c (set_chr [c] s)).
Proof. intros [Hn Ht]. unfold tick. case_decide; (split; [exact Hn|exact Ht]). Qed.

Lemma loop_nested fuel chunk i s s' : ok s → loop fuel chunk i s = Ret s' → ∃ l, nesting (events s') = Done l.
Proof.
  revert i s. induction fuel as [|fuel IH]; intros i s Hs; cbn [loop]; [done|]. destruct (aget chunk i) as [c|].
  - destruct (step_ok chunk c (i + 1) _ (read_ok c s Hs)) as (i' & a' & -> & Ha'). by apply IH.
  - intros [= <-]. apply finish_nested. exact (proj1 Hs).
Qed.

Lemma loop_safe fuel chunk i s e : ok s → loop fuel chunk i s ≠ Throw e ∧ loop fuel chunk i s ≠ Undef.
Proof.
  revert i s. induction fuel as [|fuel IH]; intros i s Hs; cbn [loop]; [done|]. destruct (aget chunk i) as [c|]; [|done].
  destruct (step_ok chunk c (i + 1) _ (read_ok c s Hs)) as (i' & a' & -> & Ha'). by apply IH.
Qed.

Lemma new_ok b : ok (new b).
Proof. by split. Qed.

(** C21: Whatever it is given, the parser never throws; and when it returns, the
    handler was called with [onready] first and [onend] last, and every
    [onclosetag] named the last tag that was still open. *)
Theorem sax_nested (b : bool) (fuel : nat) (chunk : jsstr) :
  (∀ e, parse fuel chunk (new b) ≠ Throw e) ∧
  ∀ s, parse fuel chunk (new b) = Ret s → ∃ open, nesting (events s) = Done open.
Proof.
  split; [intros e; apply loop_safe, new_ok|]. intros s. apply loop_nested, new_ok.
Qed.

(** ** A [<] between spaces *)

(** What an error leaves as it is. *)
Lemma strictFail_place m s :
  position (strictFail m s) = position s ∧ startTagPosition (strictFail m s) = startTagPosition s ∧
  sawRoot (strictFail m s) = sawRoot s ∧ closedRoot (strictFail m s) = closedRoot s ∧ state (strictFail m s) = state s.
Proof.
  unfold strictFail, emiterror, closetext. cbv zeta. destruct (strict s); [|done].
  destruct (decide (preTags s = 0)); case_decide; done.
Qed.

Lemma tick_place c s :
  position (tick c s) = position s + 1 ∧ startTagPosition (tick c s) = startTagPosition s ∧
  sawRoot (tick c s) = sawRoot s ∧ closedRoot (tick c s) = closedRoot s ∧ state (tick c s) = state s.
Proof. unfold tick. by case_decide. Qed.

Section lone.
Context (pre ws rest : jsstr) (x : Z).
Context (Hpre : Forall (λ c, c ≠ 60 ∧ c ≠ 38) pre) (Hws : Forall (λ c, whitespace c = true) ws) (Hlen : 0 < zlen ws < zlen pre).
Context (Hx : whitespace x = false ∧ nameStart x = false ∧ x ∉ [33; 47; 63]).

Let chunk := pre ++ [60] ++ ws ++ x :: rest.

(** Before the [<], or in the spaces after it. *)
Definition stuck (i : Z) (s : t) : Prop :=
  sawRoot s = false ∧
  ((0 ≤ i ≤ zlen pre ∧ (state s = TEXT ∨ state s = BEGIN)) ∨
   ∃ k, 0 ≤ k ≤ zlen ws ∧ i = zlen pre + 1 + k ∧ state s = OPEN_WAKA ∧ position s = startTagPosition s + k).

Lemma chunk_at i : 0 ≤ i ≤ zlen pre + 1 + zlen ws →
  ∃ c, aget chunk i = Some c ∧ (i < zlen pre → c ≠ 60 ∧ c ≠ 38) ∧ (i = zlen pre → c = 60) ∧
    (zlen pre < i ≤ zlen pre + zlen ws → whitespace c = true) ∧ (i = zlen pre + 1 + zlen ws → c = x).
Proof.
  intros Hi. pose proof (zlen_nonneg pre). pose proof (zlen_nonneg ws). pose proof (zlen_nonneg rest). unfold chunk.
  destruct (aget_is_Some (pre ++ [60] ++ ws ++ x :: rest) i) as [c Hc].
  { rewrite !zlen_app, (zlen_cons x). change (zlen [60]) with 1. lia. }
  exists c. split; [done|]. split_and!; intros Hj.
  - rewrite aget_app_l in Hc by lia. rewrite Forall_forall in Hpre. by apply Hpre, (aget_elem_of _ i).
  - rewrite aget_app_r, Hj, Z.sub_diag in Hc by lia. by injection Hc.
  - rewrite aget_app_r in Hc by lia. rewrite aget_app_r in Hc by (change (zlen [60]) with 1; lia).
    rewrite aget_app_l in Hc by (change (zlen [60]) with 1; lia).
    rewrite Forall_forall in Hws. by eapply Hws, aget_elem_of.
  - rewrite !aget_app_r in Hc by (change (zlen [60]) with 1; lia). change (zlen [60]) with 1 in Hc.
    replace (i - zlen pre - 1 - zlen ws) with 0 in Hc by lia. by injection Hc.
Qed.

Lemma stuck_text i s : sawRoot s = false → 0 ≤ i ≤ zlen pre → state s = TEXT ∨ state s = BEGIN → stuck i s.
Proof. intros. split; [done|]. by left. Qed.

Lemma stuck_waka i k s : sawRoot s = false → 0 ≤ k ≤ zlen ws → i = zlen pre + 1 + k → state s = OPEN_WAKA →
  position s = startTagPosition s + k → stuck i s.
Proof. intros. split; [done|]. right. by exists k. Qed.

(** A character of the text. *)
Lemma stuck_char i c s : sawRoot s = false → 0 ≤ i ≤ zlen pre → state s = TEXT ∨ state s = BEGIN → c ≠ 60 → c ≠ 38 →
  ∃ s', step chunk c i s = Ret (i, s') ∧ stuck i s'.
Proof.
  intros Hsaw Hi [Hst|Hst] H60 H38; unfold step; rewrite Hst.
  - unfold case_text. rewrite Hsaw. cbn [andb]. rewrite !decide_False by naive_solver. eexists. split; [reflexivity|].
    destruct (strictFail_place (jstr "Text data outside of root node.") s) as (_ & _ & H1 & _ & H2).
    apply stuck_text; [|done|left]; cbn [add_buf set_buf sawRoot state]; destruct (_ && _); congruence.
  - rewrite decide_False by done. destruct (negb _).
    + eexists. split; [reflexivity|]. destruct (strictFail_place (jstr "Non-whitespace before first tag.") s) as (_ & _ & H1 & _).
      apply stuck_text; [|done|by left]. cbn [set_state set_buf sawRoot]. congruence.
    + eexists. split; [reflexivity|]. apply stuck_text; auto.
Qed.

Lemma stuck_step i s : stuck i s →
  ∃ c i' s', aget chunk i = Some c ∧ step chunk c (i + 1) (tick c (set_chr [c] s)) = Ret (i', s') ∧ stuck i' s'.
Proof.
  pose proof (zlen_nonneg pre). pose proof (zlen_nonneg ws). intros [Hroot Hs].
  assert (0 ≤ i ≤ zlen pre + 1 + zlen ws) as Hi by (destruct Hs as [[? _]|(k & ? & -> & _)]; lia).
  destruct (chunk_at i Hi) as (c & Hc & Hc1 & Hc2 & Hc3 & Hc4). exists c.
  set (a := tick c (set_chr [c] s)). destruct (tick_place c (set_chr [c] s)) as (Hpos & Hstart & Hsaw & _ & Hst).
  fold a in Hpos, Hstart, Hsaw, Hst. cbn [set_chr position startTagPosition sawRoot state] in Hpos, Hstart, Hsaw, Hst.
  rewrite Hroot in Hsaw. clearbody a. destruct Hs as [[Hi' Hcase]|(k & Hk & -> & Hcase & Hp)].
  - destruct (decide (i = zlen pre)) as [Heq|Hne].
    + specialize (Hc2 Heq). subst c. unfold step. rewrite Hst.
      destruct Hcase as [-> | ->]; [unfold case_text; rewrite Hsaw; cbn [andb decide]|];
        (eexists _, _; split; [done|]; split; [reflexivity|]; by apply (stuck_waka _ 0); cbn; lia || done).
    + destruct (Hc1 ltac:(lia)) as [H60 H38].
      destruct (stuck_char (i + 1) c a Hsaw ltac:(lia) ltac:(rewrite Hst; done) H60 H38) as (s' & Hs' & Hok). eauto.
  - unfold step. rewrite Hst, Hcase. unfold case_open_waka.
    destruct (decide (k = zlen ws)) as [->|Hne].
    + pose proof (Hc4 eq_refl) as ->. destruct Hx as (Hw & Hns & Hnot). rewrite Hw, Hns.
      assert (x ≠ 33 ∧ x ≠ 47 ∧ x ≠ 63) as (? & ? & ?) by set_solver. do 3 rewrite decide_False by done. cbv zeta.
      destruct (strictFail_place (jstr "Unencoded <") a) as (-> & -> & Hsf & _). rewrite decide_True by lia.
      eexists _, _. split; [done|]. split; [reflexivity|]. apply stuck_text; [|case_decide; lia|by left].
      cbn [set_state add_buf set_buf sawRoot]. congruence.
    + rewrite Hc3 by lia. rewrite decide_False by (intros ->; specialize (Hc3 ltac:(lia)); by vm_compute in Hc3).
      eexists _, _. split; [done|]. split; [reflexivity|]. apply (stuck_waka _ (k + 1)); lia || congruence.
Qed.

Lemma stuck_loops fuel i s : stuck i s → loop fuel chunk i s = NoFuel.
Proof.
  revert i s. induction fuel as [|fuel IH]; intros i s Hs; [done|]. cbn [loop].
  destruct (stuck_step i s Hs) as (c & i' & s' & -> & -> & Hs'). by apply IH.
Qed.
End lone.

(** C39: A text with a lone [<], one that is followed by spaces and by what cannot
    start a tag, is never parsed to its end if there are more characters before
    the [<] than spaces after it, and no other [<] or [&] among them: the loop that puts the spaces back counts with
    the index of the parser and makes it read the same text again and again. *)
Theorem lone_lt_loops (b : bool) (pre ws rest : jsstr) (x : Z) :
  Forall (λ c, c ≠ 60 ∧ c ≠ 38) pre → Forall (λ c, whitespace c = true) ws → 0 < zlen ws < zlen pre →
  whitespace x = false ∧ nameStart x = false ∧ x ∉ [33; 47; 63] →
  ∀ fuel, parse fuel (pre ++ [60] ++ ws ++ x :: rest) (new b) = NoFuel.
Proof.
  intros Hpre Hws Hlen Hx fuel. apply (stuck_loops pre ws rest x Hpre Hws Hlen Hx). apply stuck_text; [done| |by right].
  pose proof (zlen_nonneg pre). lia.
Qed.

End tags.

Lemma lone_lt_loops_witness : ∃ chunk, ∀ fuel, parse fuel chunk (new false) = NoFuel.
Proof.
  exists (jstr "if (a < 1)"). apply (lone_lt_loops false (jstr "if (a ") (jstr " ") (jstr ")") 49);
    [repeat constructor; done|repeat constructor|done|]. split_and!; [reflexivity..|]. set_solver.
Defined.
