(* ===== verification/SaxReturns.v ===== *)
(** * The SAX parser returns

    The parser of [Sax.v] reads every text to its end in which no space follows a
    [<]; without this condition it may not, see [lone_lt_loops]. *)

From stdpp Require Import functions.
From S2P Require Import Prelude JsObject Lang Sax SaxNesting.

Local Open Scope Z_scope.
Local Open Scope js_scope.

Import Sax.

Section returns.
Context `{CaseMap, Runtime}.

(** ** The states that are reached *)

Lemma state_closetext_if_exist s : state (closetext_if_exist s) = state s.
Proof. apply (moves_state _ s). auto with sax. Qed.

Lemma openTag_state b s s' : openTag b s = Ret s' →
  state s' = TEXT ∨ state s' = SCRIPT ∨ (b = true ∧ state s' = state s).
Proof.
  unfold openTag. destruct (tag s) as [tg|]; [|done]. cbv zeta. intros [= <-].
  destruct b; cbn [set_buf state].
  - right. right. split; [done|]. destruct (decide _); cbn [set_preTags emit state]; by rewrite state_closetext_if_exist.
  - destruct (_ && _); auto.
Qed.

Lemma attrib_state s s' : attrib s = Ret s' → state s' = state s.
Proof.
  unfold attrib. cbv zeta. set (a := if strict s then s else _). assert (state a = state s) as <- by (subst a; by destruct (strict s)).
  clearbody a. destruct (tag a) as [tg|] eqn:Ht; [|done]. destruct (Obj.get _ _); [by intros [= <-]|].
  unfold put_attribute. rewrite Ht. intros [= <-]. cbn [set_buf emit state]. by rewrite state_closetext_if_exist.
Qed.

Lemma closeTag_state s : state (closeTag s) = TEXT ∨ state (closeTag s) = SCRIPT.
Proof.
  assert (∀ s, state (close_found s) = TEXT) as Hc.
  { intros a. unfold close_found. cbv zeta. by destruct (find_open _ _ _) as [[]]. }
  unfold closeTag. cbv zeta. repeat case_decide; rewrite ?Hc; auto.
Qed.

(** The states in which no [<] was just read. *)
Definition elsewhere (m : outcome t) : Prop := ∀ s, m = Ret s → state s ≠ OPEN_WAKA.

Lemma elsewhere_ret s : state s ≠ OPEN_WAKA → elsewhere (Ret s).
Proof. by intros Hs a [= <-]. Qed.

Lemma elsewhere_open s : elsewhere (openTag false s).
Proof. intros a [Ha|[Ha|[Ha _]]]%openTag_state; congruence. Qed.

Lemma elsewhere_bind m (k : t → outcome t) : (∀ s, m = Ret s → elsewhere (k s)) → elsewhere (s ← m; k s).
Proof. intros Hk a (s & Hm & Ha)%bind_Ret. by eapply Hk. Qed.

Ltac elsewhere :=
  cbv zeta; branches; cbn [fst snd];
  lazymatch goal with
  | Hst : state ?s = _ |- state ?s' ≠ OPEN_WAKA =>
    first [rewrite Hst; discriminate
          |erewrite (moves_state _ s s') by solve [eauto 20 with sax]; first [discriminate|rewrite Hst; discriminate]]
  end.

Lemma put_attribute_state n v s s' : put_attribute n v s = Ret s' → state s' = state s.
Proof. unfold put_attribute. destruct (tag s); [|done]. by intros [= <-]. Qed.

Lemma tag_cases_elsewhere c s :
  (state s = OPEN_TAG → elsewhere (case_open_tag c s)) ∧
  (state s = OPEN_TAG_SLASH → elsewhere (case_open_tag_slash c s)) ∧
  (state s = ATTRIB → elsewhere (case_attrib c s)) ∧
  (state s = ATTRIB_NAME → elsewhere (case_attrib_name c s)) ∧
  (state s = ATTRIB_NAME_SAW_WHITE → elsewhere (case_attrib_name_saw_white c s)) ∧
  (state s = ATTRIB_VALUE_QUOTED → elsewhere (case_attrib_value_quoted c s)) ∧
  (state s = ATTRIB_VALUE_UNQUOTED → elsewhere (case_attrib_value_unquoted c s)).
Proof.
  split_and!; intros Hst.
  - unfold case_open_tag. cbv zeta. destruct (nameBody c); [apply elsewhere_ret; elsewhere|].
    case_decide; [apply elsewhere_open|]. by case_decide; apply elsewhere_ret.
  - unfold case_open_tag_slash. cbv zeta. case_decide; [|by apply elsewhere_ret]. apply elsewhere_bind. intros a _.
    apply elsewhere_ret. destruct (closeTag_state a) as [-> | ->]; done.
  - unfold case_attrib. destruct (whitespace c); [apply elsewhere_ret; by rewrite Hst|].
    case_decide; [apply elsewhere_open|]. case_decide; [by apply elsewhere_ret|].
    destruct (nameStart c); apply elsewhere_ret; elsewhere.
  - unfold case_attrib_name. cbv zeta. case_decide; [by apply elsewhere_ret|]. case_decide.
    + apply elsewhere_bind. intros a _. apply elsewhere_open.
    + destruct (whitespace c); [by apply elsewhere_ret|]. destruct (nameBody c); apply elsewhere_ret; elsewhere.
  - unfold case_attrib_name_saw_white. cbv zeta. case_decide; [by apply elsewhere_ret|].
    destruct (whitespace c); [apply elsewhere_ret; by rewrite Hst|]. apply elsewhere_bind. intros a _.
    case_decide; [apply elsewhere_open|]. by destruct (nameStart c); apply elsewhere_ret.
  - unfold case_attrib_value_quoted. case_decide; [|apply elsewhere_bind; intros a _; by apply elsewhere_ret].
    case_decide; apply elsewhere_ret; elsewhere.
  - unfold case_attrib_value_unquoted. destruct (negb _); [case_decide; apply elsewhere_ret; elsewhere|].
    apply elsewhere_bind. intros a _. case_decide; [apply elsewhere_open|by apply elsewhere_ret].
Qed.

(** ** The index moves on *)

Lemma text_loop_state l c i s : state (text_loop l c i s).2 = state s.
Proof.
  revert c i s. induction l as [|x l IH]; intros [ch|] i s; cbn [text_loop]; try case_decide; try done.
  rewrite IH. apply tick_place.
Qed.

(** Just after a [<]: the character before the next one is the [<]. *)
Definition after_lt (chunk : jsstr) (i : Z) (s : t) : Prop :=
  state s = OPEN_WAKA → position s = startTagPosition s ∧ aget chunk (i - 1) = Some 60.

Definition forward (chunk : jsstr) (i : Z) (r : Z * t) : Prop := i ≤ r.1 ∧ after_lt chunk r.1 r.2.

Lemma forward_elsewhere chunk i s : state s ≠ OPEN_WAKA → forward chunk i (i, s).
Proof. intros Hs. split; [done|]. intros Hw. by destruct Hs. Qed.

Lemma text_loop_spec chunk l c i s : l = drop (Z.to_nat i) chunk → 0 < i → (∀ ch, c = Some ch → aget chunk (i - 1) = Some ch) →
  let '(c', i', _) := text_loop l c i s in i ≤ i' ∧ ∀ ch, c' = Some ch → aget chunk (i' - 1) = Some ch.
Proof.
  revert c i s. induction l as [|x l IH]; intros [ch|] i s Hl Hi Hc; cbn [text_loop]; try done.
  - case_decide; [split; [lia|done]|]. split; [lia|done].
  - case_decide; [split; [lia|done]|].
    assert (aget chunk i = Some x) as Hx.
    { pose proof (lookup_drop chunk (Z.to_nat i) 0) as Hd. rewrite <- Hl, Nat.add_0_r in Hd.
      rewrite aget_nonneg by lia. by rewrite <- Hd. }
    specialize (IH (Some x) (i + 1) (tick x s)). destruct (text_loop l (Some x) (i + 1) (tick x s)) as [[c' i'] a].
    destruct IH as [Hle Hc']; [|lia|intros ? [= <-]; by replace (i + 1 - 1) with i by lia|split; [lia|done]].
    replace (Z.to_nat (i + 1)) with (Z.to_nat i + 1)%nat by lia. rewrite <- drop_drop, <- Hl. done.
Qed.

Lemma case_text_forward chunk c i s : state s = TEXT → 0 ≤ i → aget chunk i = Some c →
  forward chunk (i + 1) (case_text chunk c (i + 1) s).
Proof.
  intros Hst Hi Hc. unfold case_text. set (r := if sawRoot s && _ then _ else _).
  assert (state r.2 = TEXT ∧ i + 1 ≤ r.1.2 ∧ ∀ ch, r.1.1 = Some ch → aget chunk (r.1.2 - 1) = Some ch) as (Hr & Hle & Hch).
  { subst r. destruct (sawRoot s && _); [|cbn; split_and!; [done|lia|intros ? [= <-]; by replace (i + 1 - 1) with i by lia]].
    pose proof (text_loop_spec chunk (drop (Z.to_nat (i + 1)) chunk) (Some c) (i + 1) s) as Hl.
    pose proof (text_loop_state (drop (Z.to_nat (i + 1)) chunk) (Some c) (i + 1) s) as Hs.
    destruct (text_loop _ _ _ _) as [[c' i'] a]. cbn [fst snd] in *.
    destruct Hl as [Hle Hch]; [done|lia|intros ? [= <-]; by replace (i + 1 - 1) with i by lia|].
    split_and!; [by rewrite <- Hst, <- Hs|done|done]. }
  destruct r as [[c' i'] a]. cbn [fst snd] in *. case_decide as H60.
  - split; [done|]. intros _. split; [done|]. by apply Hch.
  - case_decide; (split; [done|]; intros Hw; exfalso; revert Hw); [done|]. cbn [snd].
    match goal with |- state ?s' = _ → _ => assert (moves TEXT a s') as Hm end.
    { rewrite <- Hr. destruct c'; eauto 20 with sax. }
    rewrite (moves_state _ _ _ Hm). done.
Qed.

Lemma case_entity_elsewhere b outer c s : outer ≠ OPEN_WAKA → state s ≠ OPEN_WAKA → state (case_entity b outer c s) ≠ OPEN_WAKA.
Proof.
  intros Ho Hs. unfold case_entity. cbv zeta. destruct (parseEntity s). case_decide; [done|]. by destruct (entity_char c).
Qed.

Definition no_gap (chunk : jsstr) : Prop :=
  ∀ i c, aget chunk i = Some 60 → aget chunk (i + 1) = Some c → whitespace c = false.

Lemma step_forward chunk c i s r : no_gap chunk → 0 ≤ i → aget chunk i = Some c → after_lt chunk i s →
  step chunk c (i + 1) (tick c (set_chr [c] s)) = Ret r → forward chunk (i + 1) r.
Proof.
  intros Hgap Hi Hc Hlt. set (a := tick c (set_chr [c] s)). destruct (tick_place c (set_chr [c] s)) as (Hpos & Hstart & _ & _ & Hst).
  fold a in Hpos, Hstart, Hst. cbn [set_chr position startTagPosition state] in Hpos, Hstart, Hst.
  unfold after_lt in Hlt. rewrite <- Hst in Hlt. clearbody a. clear Hst.
  assert (∀ m, elsewhere m → (b ← m; Ret (i + 1, b)) = Ret r → forward chunk (i + 1) r) as Hbind.
  { intros m Hm (b & Hb & [= <-])%bind_Ret. by apply forward_elsewhere, Hm. }
  destruct (tag_cases_elsewhere c a) as (E1 & E2 & E3 & E4 & E5 & E6 & E7).
  unfold step. cbv zeta. destruct (state a) eqn:Hst.
  all: try (apply Hbind; by auto).
  all: try (intros [= <-]; first [by apply case_text_forward|apply forward_elsewhere]).
  all: try solve [elsewhere|apply case_entity_elsewhere; congruence].
  all: try solve [unfold case_sgml_decl, case_quoted, case_doctype, case_doctype_dtd, case_comment_ending, case_comment_ended,
                    case_cdata_ending_2, case_proc_inst_body, case_proc_inst_ending, case_attrib_value; elsewhere].
  - case_decide as H60; [|destruct (negb _)]; intros [= <-]; [|by apply forward_elsewhere..|apply forward_elsewhere; by rewrite Hst].
    split; [cbn; lia|]. intros _. cbn. split; [done|]. replace (i + 1 - 1) with i by lia. by subst c.
  - intros [= <-]. destruct (Hlt eq_refl) as [Hp Hprev]. pose proof (Hgap (i - 1) c Hprev) as Hw.
    unfold case_open_waka. rewrite Hw by (by replace (i - 1 + 1) with i by lia).
    destruct (strictFail_place (jstr "Unencoded <") a) as (Hp' & Hs' & _). cbv zeta. rewrite Hp', Hs'.
    rewrite (decide_False (P := startTagPosition a + 1 < position a)) by lia.
    branches; by apply forward_elsewhere.
  - unfold case_close_tag. case_decide; [elsewhere|]. case_decide; [|elsewhere].
    destruct (closeTag_state a) as [-> | ->]; done.
  - destruct (whitespace c); [by rewrite Hst|]. case_decide; [|elsewhere].
    destruct (closeTag_state a) as [-> | ->]; done.
Qed.

Lemma loop_returns fuel chunk i s : no_gap chunk → 0 ≤ i → ok s → after_lt chunk i s → zlen chunk - i < Z.of_nat fuel →
  0 < Z.of_nat fuel → ∃ s', loop fuel chunk i s = Ret s'.
Proof.
  intros Hgap. revert i s. induction fuel as [|fuel IH]; intros i s Hi Hs Hlt Hf Hpos; [lia|]. cbn [loop].
  destruct (aget chunk i) as [c|] eqn:Hc; [|by eexists].
  destruct (step_ok chunk c (i + 1) _ (read_ok c s Hs)) as (i' & a & Hstep & Ha). rewrite Hstep. cbn [mbind outcome_bind].
  destruct (step_forward chunk c i s _ Hgap Hi Hc Hlt Hstep) as [Hle Hlt']. cbn [fst snd] in *.
  apply aget_Some_range in Hc. apply IH; [lia|done|done|lia|lia].
Qed.

(** C33: The parser reads every text to its end in which no space follows a [<],
    well-formed or not, in at most one round of its loop for each character. *)
Theorem sax_returns (b : bool) (chunk : jsstr) :
  no_gap chunk → ∃ s, parse (S (length chunk)) chunk (new b) = Ret s.
Proof.
  intros Hgap. apply loop_returns; [done|lia|apply new_ok|done|unfold zlen; lia|lia].
Qed.

End returns.

Lemma sax_returns_witness : ∃ s, parse 8 (jstr "<p>a<b>") (new false) = Ret s.
Proof.
  apply (sax_returns false (jstr "<p>a<b>")). intros i c Hi Hc. pose proof (aget_Some_range _ _ _ Hi) as [H0 H1].
  change (zlen (jstr "<p>a<b>")) with 7 in H1.
  assert (i = 0 ∨ i = 1 ∨ i = 2 ∨ i = 3 ∨ i = 4 ∨ i = 5 ∨ i = 6) as Hcase by lia.
  destruct_or! Hcase; subst i; try discriminate Hi; injection Hc as <-; reflexivity.
Defined.
