(* ===== verification/SaxRoundtrip.v ===== *)
(** * The SAX parser reads documents back

    A document is printed with its special characters as entities; the parser of
    [Sax.v] calls the handler with exactly the tags, attributes and texts of the
    document. *)

From stdpp Require Import functions.
From S2P Require Import Prelude JsObject Lang Sax SaxNesting.

Local Open Scope Z_scope.
Local Open Scope js_scope.

Import Sax.

(** ** Documents *)

Inductive node :=
  | Elem (n : jsstr) (attrs : list (jsstr * jsstr)) (kids : list node)
  | Text (w : jsstr).

Lemma node_nested_ind (P : node → Prop) :
  (∀ n attrs kids, Forall P kids → P (Elem n attrs kids)) → (∀ w, P (Text w)) → ∀ x, P x.
Proof.
  intros He Ht. fix IH 1. intros [n attrs kids|w]; [|apply Ht]. apply He. induction kids; constructor; [apply IH|done].
Qed.

(** A quote is an entity in the values of attributes. *)
Definition escape (quotes : bool) (c : Z) : jsstr :=
  if decide (c = 38) then jstr "&amp;" else if decide (c = 60) then jstr "&lt;"
  else if decide (quotes = true ∧ c = 34) then jstr "&quot;" else [c].

Definition escaped (quotes : bool) (w : jsstr) : jsstr := w ≫= escape quotes.

Definition print_attribute (a : jsstr * jsstr) : jsstr := [32] ++ a.1 ++ [61; 34] ++ escaped true a.2 ++ [34].

Fixpoint print (x : node) : jsstr :=
  match x with
  | Elem n attrs kids =>
    [60] ++ n ++ (attrs ≫= print_attribute) ++ [62] ++ concat (print <$> kids) ++ [60; 47] ++ n ++ [62]
  | Text w => escaped false w
  end.

(** The calls for a document inside of [pre] elements in which spaces are kept. *)
Fixpoint calls (pre : Z) (x : node) : list event :=
  match x with
  | Elem n attrs kids =>
    ((λ a, onattribute a.1 a.2) <$> attrs) ++ [onopentag n attrs] ++
    concat (calls (if decide (n = jstr "pre") then pre + 1 else pre) <$> kids) ++ [onclosetag n]
  | Text w => [ontext (if decide (pre = 0) then textopts w else w)]
  end.

(** Names in lower case. *)
Definition name_ok (n : jsstr) : Prop :=
  match n with
  | [] => False
  | c :: _ => nameStart c = true ∧ Forall (λ c, 0 ≤ c < 128 ∧ nameBody c = true ∧ ascii_lower c = c) n
  end.

Definition attr_ok (n : jsstr) : Prop := name_ok n ∧ n ≠ jstr "__proto__".

Definition is_text (x : option node) : Prop := match x with Some (Text _) => True | _ => False end.

Fixpoint doc_ok (x : node) : Prop :=
  match x with
  | Elem n attrs kids =>
    name_ok n ∧ n ≠ jstr "script" ∧ NoDup attrs.*1 ∧ Forall (λ a, attr_ok a.1) attrs ∧
    Forall id (doc_ok <$> kids) ∧
    ∀ i, is_text (kids !! i) → ¬ is_text (kids !! S i)
  | Text w => w ≠ []
  end.

(** Checks a given document. *)
Ltac given_document := repeat first [done | set_solver | split | constructor | intros [|[|?]]].

(** ** Reading

    The parser gets from index [i] to [i'] in at most one round per character. *)
Section reading.
Context `{CaseMap, Runtime} (chunk : jsstr).

Definition reads (i : Z) (s : t) (i' : Z) (s' : t) : Prop :=
  ∃ k, Z.of_nat k ≤ i' - i ∧ ∀ fuel, loop (k + fuel) chunk i s = loop fuel chunk i' s'.

Lemma reads_refl i s : reads i s i s.
Proof. exists 0%nat. split; [lia|done]. Qed.

Lemma reads_trans i s i1 s1 i2 s2 : reads i s i1 s1 → reads i1 s1 i2 s2 → reads i s i2 s2.
Proof.
  intros (k & Hk & H1) (k' & Hk' & H2). exists (k + k')%nat. split; [lia|]. intros fuel. by rewrite <- Nat.add_assoc, H1, H2.
Qed.

Lemma reads_step i s c i' s' : aget chunk i = Some c → step chunk c (i + 1) (tick c (set_chr [c] s)) = Ret (i', s') →
  i < i' → reads i s i' s'.
Proof.
  intros Hc Hs Hi. exists 1%nat. split; [lia|]. intros fuel. cbn [loop Nat.add]. by rewrite Hc, Hs.
Qed.

(** What matters of a state while a document is read. *)
Record sits (x : State) (quo : option Z) (tgs : list Tag) (tg : option Tag) (saw cl : bool) (pre : Z) (es : list event)
    (B : buffer → jsstr) (s : t) : Prop := {
  sits_state : state s = x;
  sits_q : q s = quo;
  sits_tags : tags s = tgs;
  sits_tag : tag s = tg;
  sits_saw : sawRoot s = saw;
  sits_closed : closedRoot s = cl;
  sits_strict : strict s = false;
  sits_noscript : noscript s = false;
  sits_pre : preTags s = pre;
  sits_events : events s = es;
  sits_buf b : buf s b = B b;
}.

Arguments sits_state {_ _ _ _ _ _ _ _ _ _} _.
Arguments sits_q {_ _ _ _ _ _ _ _ _ _} _.
Arguments sits_tags {_ _ _ _ _ _ _ _ _ _} _.
Arguments sits_tag {_ _ _ _ _ _ _ _ _ _} _.
Arguments sits_saw {_ _ _ _ _ _ _ _ _ _} _.
Arguments sits_closed {_ _ _ _ _ _ _ _ _ _} _.
Arguments sits_strict {_ _ _ _ _ _ _ _ _ _} _.
Arguments sits_noscript {_ _ _ _ _ _ _ _ _ _} _.
Arguments sits_pre {_ _ _ _ _ _ _ _ _ _} _.
Arguments sits_events {_ _ _ _ _ _ _ _ _ _} _.
Arguments sits_buf {_ _ _ _ _ _ _ _ _ _} _ _.

Lemma sits_read {c} x quo tgs tg saw cl pre es B s : sits x quo tgs tg saw cl pre es B s → sits x quo tgs tg saw cl pre es B (tick c (set_chr [c] s)).
Proof. intros []. unfold tick. case_decide; by constructor. Qed.

Lemma sits_ext x quo tgs tg saw cl pre es B B' s :
  (∀ b, B b = B' b) → sits x quo tgs tg saw cl pre es B s → sits x quo tgs tg saw cl pre es B' s.
Proof. intros HB []. constructor; try done. intros b. by rewrite <- HB. Qed.

Lemma sits_state_to y x quo tgs tg saw cl pre es B s : sits x quo tgs tg saw cl pre es B s → sits y quo tgs tg saw cl pre es B (set_state y s).
Proof. intros []. by constructor. Qed.

Lemma sits_set b w x quo tgs tg saw cl pre es B s :
  sits x quo tgs tg saw cl pre es B s → sits x quo tgs tg saw cl pre es (<[b := w]> B) (set_buf b w s).
Proof.
  intros []. constructor; try done. intros b'. rewrite buf_set. case_decide as Hb; [subst; by rewrite fn_lookup_insert|].
  by rewrite fn_lookup_insert_ne.
Qed.

Lemma sits_add b w x quo tgs tg saw cl pre es B s :
  sits x quo tgs tg saw cl pre es B s → sits x quo tgs tg saw cl pre es (<[b := B b ++ w]> B) (add_buf b w s).
Proof. intros Hs. unfold add_buf. rewrite (sits_buf Hs). by apply sits_set. Qed.

(** ** Texts *)

Lemma text_loop_plain p d r l c i x quo tgs tg saw cl pre es B s :
  c :: l = p ++ d :: r → Forall (λ c, c ≠ 60 ∧ c ≠ 38) p → d = 60 ∨ d = 38 → sits x quo tgs tg saw cl pre es B s →
  ∃ s', text_loop l (Some c) i s = (Some d, i + zlen p, s') ∧ sits x quo tgs tg saw cl pre es B s'.
Proof.
  intros Heq Hp Hd Hs. revert l c i s Heq Hs. induction Hp as [|y p [H60 H38] _ IH]; intros l c i s Heq Hs.
  { injection Heq as -> ->. exists s. rewrite zlen_nil, Z.add_0_r. destruct r; cbn [text_loop]; by rewrite decide_True. }
  injection Heq as -> ->. destruct (p ++ d :: r) as [|z l2] eqn:Hl; [by destruct p|]. cbn [text_loop].
  rewrite decide_False by tauto. destruct (IH l2 z (i + 1) (tick z s)) as (s' & -> & Hs'); [done|..].
  { destruct Hs. unfold tick. case_decide; by constructor. }
  exists s'. split; [|done]. rewrite zlen_cons. do 2 f_equal. lia.
Qed.

Lemma sits_start z x quo tgs tg saw cl pre es B s : sits x quo tgs tg saw cl pre es B s → sits x quo tgs tg saw cl pre es B (set_start z s).
Proof. intros []. by constructor. Qed.

(** One character. *)
Lemma read1 {x quo tgs tg saw cl pre es B s} i c i' (Q : t → Prop) :
  sits x quo tgs tg saw cl pre es B s → aget chunk i = Some c → i < i' →
  (∀ a, sits x quo tgs tg saw cl pre es B a → ∃ s', step chunk c (i + 1) a = Ret (i', s') ∧ Q s') →
  ∃ s', reads i s i' s' ∧ Q s'.
Proof.
  intros Hs Hc Hi Hstep. destruct (Hstep (tick c (set_chr [c] s))) as (s' & Hs' & HQ); [by apply sits_read|].
  exists s'. split; [|done]. by eapply reads_step.
Qed.

Lemma read_plain p d i quo tgs tg pre es B s :
  sits TEXT quo tgs tg true false pre es B s → has_at chunk i (p ++ [d]) → Forall (λ c, c ≠ 60 ∧ c ≠ 38) p → d = 60 ∨ d = 38 →
  ∃ s', reads i s (i + zlen p + 1) s' ∧
    sits (if decide (d = 60) then OPEN_WAKA else TEXT_ENTITY) quo tgs tg true false pre es (<[textNode := B textNode ++ p]> B) s'.
Proof.
  intros Hs Hat Hp Hd. pose proof (zlen_nonneg p) as Hz. pose proof (has_at_nonneg _ _ _ Hat) as Hi.
  pose proof (has_at_length _ _ _ Hat ltac:(by destruct p)) as Hlen. rewrite zlen_app in Hlen. change (zlen [d]) with 1 in Hlen.
  assert (∃ c l r, drop (Z.to_nat i) chunk = c :: l ∧ c :: l = p ++ d :: r) as (c & l & r & Hdrop & Hcl).
  { destruct Hat as [_ Hat]. rewrite <- (take_drop (length (p ++ [d])) (drop (Z.to_nat i) chunk)), Hat.
    destruct (p ++ [d]) as [|c l0] eqn:E; [by destruct p|]. eexists c, _, _. split; [reflexivity|].
    rewrite app_comm_cons, <- E, <- app_assoc. reflexivity. }
  assert (drop (Z.to_nat (i + 1)) chunk = l) as Hl.
  { replace (Z.to_nat (i + 1)) with (Z.to_nat i + 1)%nat by lia. by rewrite <- drop_drop, Hdrop. }
  assert (Lang.substring chunk (i + 1 - 1) (i + 1 + zlen p - 1) = p) as Hsub.
  { apply has_at_app in Hat as [Hat _]. apply has_at_slice in Hat. unfold Lang.substring. cbv zeta. etrans; [|exact Hat]. f_equal; lia. }
  apply (read1 i c _ _ Hs); [|lia|].
  { pose proof (lookup_drop chunk (Z.to_nat i) 0) as Hlk. rewrite Hdrop, Nat.add_0_r in Hlk. by rewrite aget_nonneg by lia. }
  intros a Ha. destruct (text_loop_plain p d r l c (i + 1) _ _ _ _ _ _ _ _ _ a Hcl Hp Hd Ha) as (b & Hloop & Hb).
  unfold step. rewrite (sits_state Ha). unfold case_text. rewrite (sits_saw Ha), (sits_closed Ha). cbn [andb negb].
  rewrite Hl, Hloop, Hsub. replace (i + 1 + zlen p) with (i + zlen p + 1) by lia.
  apply (sits_add textNode p) in Hb. set (e := add_buf textNode p b) in *.
  destruct Hd as [-> | ->]; cbn [decide decide_rel]; eexists; (split; [reflexivity|]).
  - apply sits_start. by eapply sits_state_to.
  - rewrite (sits_saw Hb), (sits_closed Hb). cbn. by eapply sits_state_to.
Qed.

(** A run of characters that are added to a buffer. *)
Lemma read_run {x quo tgs tg saw cl pre es B s} b (P : (buffer → jsstr) → Prop) w i :
  sits x quo tgs tg saw cl pre es B s → has_at chunk i w → P B →
  (∀ c j a B', P B' → c ∈ w → sits x quo tgs tg saw cl pre es B' a →
     step chunk c j a = Ret (j, add_buf b [c] a) ∧ P (<[b := B' b ++ [c]]> B')) →
  ∃ s', reads i s (i + zlen w) s' ∧ sits x quo tgs tg saw cl pre es (<[b := B b ++ w]> B) s'.
Proof.
  revert i B s. induction w as [|c w IH]; intros i B s Hs Hat HP Hstep.
  { exists s. rewrite zlen_nil, Z.add_0_r, app_nil_r. split; [apply reads_refl|]. eapply sits_ext; [|done].
    intros b'. destruct (decide (b' = b)) as [->|]; [by rewrite fn_lookup_insert|by rewrite fn_lookup_insert_ne]. }
  apply has_at_cons in Hat as [Hat Hrest].
  destruct (read1 i c (i + 1) (sits x quo tgs tg saw cl pre es (<[b := B b ++ [c]]> B)) Hs Hat) as (s1 & H1 & Hs1); [lia|..].
  { intros a Ha. destruct (Hstep c (i + 1) a B HP ltac:(set_solver) Ha) as [-> _]. eexists. split; [reflexivity|]. by apply sits_add. }
  destruct (IH (i + 1) _ s1 Hs1 Hrest) as (s2 & H2 & Hs2).
  { destruct (Hstep c (i + 1) (tick c (set_chr [c] s)) B HP ltac:(set_solver)) as [_ HP']; [by apply sits_read|done]. }
  { intros c' j a B' HB' Hc'. apply Hstep; set_solver. }
  exists s2. split.
  - rewrite zlen_cons, Z.add_assoc. by eapply reads_trans.
  - eapply sits_ext; [|exact Hs2]. intros b'. rewrite fn_lookup_insert, <- app_assoc.
    destruct (decide (b' = b)) as [->|]; [by rewrite !fn_lookup_insert|by rewrite !fn_lookup_insert_ne].
Qed.

(** ** Entities *)

Definition entity_of (x : State) (b : buffer) (outer : State) : Prop :=
  (x = TEXT_ENTITY ∧ b = textNode ∧ outer = TEXT) ∨
  (x = ATTRIB_VALUE_ENTITY_Q ∧ b = attribValue ∧ outer = ATTRIB_VALUE_QUOTED).

Lemma entity_step x b outer c i s : entity_of x b outer → state s = x → step chunk c i s = Ret (i, case_entity b outer c s).
Proof. intros [(-> & -> & ->)|(-> & -> & ->)] Hs; unfold step; by rewrite Hs. Qed.

Lemma read_entity_name x b outer w i quo tgs tg saw cl pre es B s :
  entity_of x b outer → sits x quo tgs tg saw cl pre es B s → has_at chunk i w → Forall (λ c, entity_char c = true ∧ c ≠ 59) w →
  ∃ s', reads i s (i + zlen w) s' ∧ sits x quo tgs tg saw cl pre es (<[entity := B entity ++ w]> B) s'.
Proof.
  intros Hx Hs Hat Hw. apply (read_run entity (λ _, True)); [done|done|done|].
  rewrite Forall_forall in Hw. intros c j a B' _ Hc Ha. destruct (Hw c Hc) as [Hec Hne]. split; [|done].
  rewrite (entity_step x b outer) by (done || apply (sits_state Ha)). unfold case_entity. by rewrite decide_False, Hec.
Qed.

Lemma entity_value s name c : (name, c) ∈ [(jstr "amp", 38); (jstr "lt", 60); (jstr "quot", 34)] →
  buf s entity = name → parseEntity s = (s, [c]).
Proof.
  intros Hin Hn. unfold parseEntity. cbv zeta. rewrite Hn.
  assert (lookup_entity name = Some [c]) as ->; [|done].
  apply elem_of_cons in Hin as [[= -> ->]|Hin]; [reflexivity|]. apply elem_of_cons in Hin as [[= -> ->]|Hin]; [reflexivity|].
  apply list_elem_of_singleton in Hin as [= -> ->]. reflexivity.
Qed.

(** An entity of the printer, after its [&]. *)
Lemma read_entity x b outer name c i quo tgs tg saw cl pre es B s :
  entity_of x b outer → (name, c) ∈ [(jstr "amp", 38); (jstr "lt", 60); (jstr "quot", 34)] →
  sits x quo tgs tg saw cl pre es B s → B entity = [] → has_at chunk i (name ++ [59]) →
  ∃ s', reads i s (i + zlen name + 1) s' ∧ sits outer quo tgs tg saw cl pre es (<[b := B b ++ [c]]> B) s'.
Proof.
  intros Hx Hin Hs HB Hat. apply has_at_app in Hat as [Hat H59]. apply has_at_cons in H59 as [H59 _].
  assert (Forall (λ c, entity_char c = true ∧ c ≠ 59) name) as Hname.
  { apply elem_of_cons in Hin as [[= -> ->]|Hin]; [repeat constructor; done|].
    apply elem_of_cons in Hin as [[= -> ->]|Hin]; [repeat constructor; done|].
    apply list_elem_of_singleton in Hin as [= -> ->]. repeat constructor; done. }
  destruct (read_entity_name x b outer name i quo tgs tg saw cl pre es B s Hx Hs Hat Hname) as (s1 & H1 & Hs1). rewrite HB in Hs1.
  destruct (read1 (i + zlen name) 59 (i + zlen name + 1) (sits outer quo tgs tg saw cl pre es (<[b := B b ++ [c]]> B)) Hs1 H59)
    as (s2 & H2 & Hs2); [lia| |exists s2; split; [by eapply reads_trans|done]].
  intros a Ha. rewrite (entity_step x b outer) by (done || apply (sits_state Ha)). eexists. split; [reflexivity|].
  unfold case_entity. rewrite decide_True by done. rewrite (entity_value a name c Hin) by (rewrite (sits_buf Ha); by rewrite fn_lookup_insert).
  eapply sits_state_to, sits_ext; [|by apply sits_set, sits_add].
  assert (b ≠ entity) by (destruct Hx as [(_ & -> & _)|(_ & -> & _)]; done).
  intros b'. destruct (decide (b' = entity)) as [->|]; [rewrite fn_lookup_insert, fn_lookup_insert_ne by done; done|].
  rewrite fn_lookup_insert_ne by done. rewrite (fn_lookup_insert_ne B entity b) by done.
  destruct (decide (b' = b)) as [->|]; [by rewrite !fn_lookup_insert|by rewrite !fn_lookup_insert_ne].
Qed.

(** ** Escaped strings *)

Definition special (q : bool) (c : Z) : Prop := c = 38 ∨ c = 60 ∨ (q = true ∧ c = 34).

#[global] Instance special_dec q c : Decision (special q c).
Proof. unfold special. apply _. Defined.

Lemma escape_special q c : special q c →
  ∃ name, escape q c = [38] ++ name ++ [59] ∧ (name, c) ∈ [(jstr "amp", 38); (jstr "lt", 60); (jstr "quot", 34)].
Proof.
  intros [-> |[-> | [-> ->]]]; [exists (jstr "amp")|exists (jstr "lt")|exists (jstr "quot")]; (split; [reflexivity|]); set_solver.
Qed.

Lemma escape_plain q c : ¬ special q c → escape q c = [c].
Proof. unfold special, escape. intros Hc. rewrite !decide_False by tauto. done. Qed.

Lemma escaped_cons q c w : escaped q (c :: w) = escape q c ++ escaped q w.
Proof. done. Qed.

Lemma escaped_plain q p w : Forall (λ c, ¬ special q c) p → escaped q (p ++ w) = p ++ escaped q w.
Proof.
  induction 1 as [|c p Hc _ IH]; [done|]. cbn [app]. rewrite escaped_cons, escape_plain, IH by done. done.
Qed.

Lemma split_special q w : ∃ p w', w = p ++ w' ∧ Forall (λ c, ¬ special q c) p ∧ match w' with [] => True | d :: _ => special q d end.
Proof.
  induction w as [|c w (p & w' & -> & Hp & Hw)]; [by exists [], []|].
  destruct (decide (special q c)) as [Hc|Hc].
  - by exists [], (c :: p ++ w').
  - exists (c :: p), w'. by split_and!; [|constructor|].
Qed.

Lemma read_text w i quo tgs tg pre es B s :
  sits TEXT quo tgs tg true false pre es B s → B entity = [] → has_at chunk i (escaped false w ++ [60]) →
  ∃ s', reads i s (i + zlen (escaped false w) + 1) s' ∧
    sits OPEN_WAKA quo tgs tg true false pre es (<[textNode := B textNode ++ w]> B) s'.
Proof.
  remember (length w) as n eqn:Hn. revert w Hn i B s. induction (lt_wf n) as [n _ IH]. intros w -> i B s Hs HB Hat.
  destruct (split_special false w) as (p & w' & -> & Hp & Hw). rewrite escaped_plain in * by done.
  assert (Forall (λ c, c ≠ 60 ∧ c ≠ 38) p) as Hp' by (eapply Forall_impl; [exact Hp|]; unfold special; cbn; lia).
  destruct w' as [|d w'].
  - change (escaped false []) with (@nil Z) in *. rewrite app_nil_r in *.
    destruct (read_plain p 60 i quo tgs tg pre es B s Hs Hat Hp' ltac:(by left)) as (s' & H1 & Hs'). by exists s'.
  - rewrite escaped_cons in *. destruct (escape_special false d Hw) as (name & Hd & Hin). rewrite Hd in *.
    rewrite <- !app_assoc in Hat. pose proof Hat as Hat0. rewrite app_assoc in Hat. apply has_at_app in Hat as [Hat1 Hat2].
    rewrite zlen_app in Hat2. change (zlen [38]) with 1 in Hat2.
    destruct (read_plain p 38 i quo tgs tg pre es B s Hs Hat1 Hp' ltac:(by right)) as (s1 & H1 & Hs1).
    rewrite app_assoc in Hat2. apply has_at_app in Hat2 as [Hat2 Hat3].
    destruct (read_entity TEXT_ENTITY textNode TEXT name d (i + zlen p + 1) _ _ _ _ _ _ _ _ s1 ltac:(by left) Hin Hs1) as (s2 & H2 & Hs2).
    { by rewrite fn_lookup_insert_ne. }
    { by rewrite Z.add_assoc in Hat2. }
    rewrite zlen_app in Hat3. change (zlen [59]) with 1 in Hat3.
    destruct (IH (length w') ltac:(rewrite length_app; cbn; lia) w' eq_refl (i + zlen p + 1 + zlen name + 1) _ s2 Hs2) as (s3 & H3 & Hs3).
    { by rewrite !fn_lookup_insert_ne. }
    { by replace (i + zlen p + 1 + zlen name + 1) with (i + (zlen p + 1) + (zlen name + 1)) by lia. }
    exists s3. split.
    + rewrite !zlen_app. change (zlen [38]) with 1. change (zlen [59]) with 1.
      eapply reads_trans; [exact H1|]. eapply reads_trans; [exact H2|].
      match goal with |- reads _ _ ?n _ => replace n with (i + zlen p + 1 + zlen name + 1 + zlen (escaped false w') + 1) by lia end. exact H3.
    + eapply sits_ext; [|exact Hs3]. intros b'. destruct (decide (b' = textNode)) as [->|]; rewrite ?fn_lookup_insert.
      * by rewrite <- !app_assoc.
      * by rewrite !fn_lookup_insert_ne.
Qed.

(** ** Names *)

(** The buffers that are in use inside of a document. *)
Definition bufs (text n an av : jsstr) : buffer → jsstr :=
  λ b, match b with textNode => text | tagName => n | attribName => an | attribValue => av | _ => [] end.

Lemma whitespace_inv c : whitespace c = true → c = 13 ∨ c = 10 ∨ c = 9 ∨ c = 32.
Proof. unfold whitespace. rewrite bool_decide_eq_true. set_solver. Qed.

Lemma nameBody_not c : nameBody c = true → whitespace c = false ∧ c ≠ 61 ∧ c ≠ 62.
Proof.
  intros Hc. split; [|by split; intros ->].
  destruct (whitespace c) eqn:Hw; [|done]. apply whitespace_inv in Hw. destruct_or! Hw; by subst c.
Qed.

Lemma nameStart_not c : nameStart c = true → whitespace c = false ∧ c ≠ 33 ∧ c ≠ 62 ∧ c ≠ 47.
Proof.
  intros Hc. split; [|by split_and!; intros ->].
  destruct (whitespace c) eqn:Hw; [|done]. apply whitespace_inv in Hw. destruct_or! Hw; by subst c.
Qed.

Lemma name_chars n : name_ok n → ∃ c r, n = c :: r ∧ nameStart c = true ∧ Forall (λ c, nameBody c = true) r ∧ toLowerCase n = n.
Proof.
  destruct n as [|c r]; [done|]. intros [Hc Hn]. exists c, r. split_and!; [done|done|..].
  - apply Forall_cons in Hn as [_ Hn]. eapply Forall_impl; [exact Hn|]. naive_solver.
  - rewrite lower_ascii by (eapply Forall_impl; [exact Hn|]; naive_solver).
    rewrite <- (list_fmap_id (c :: r)) at 2. apply list_fmap_ext. intros i x Hx. rewrite Forall_lookup in Hn. by eapply Hn.
Qed.

Section at_state.
Context {quo : option Z} {tgs : list Tag} {tg : option Tag} {saw cl : bool} {pre : Z} {es : list event}.

Abbreviation at_ x B := (sits x quo tgs tg saw cl pre es B).

(** The name of an opening tag, after its [<]. *)
Lemma read_open_name n i text m s : name_ok n → at_ OPEN_WAKA (bufs text m [] []) s → has_at chunk i n →
  ∃ s', reads i s (i + zlen n) s' ∧ at_ OPEN_TAG (bufs text n [] []) s'.
Proof.
  intros (c & r & -> & Hc & Hr & _)%name_chars Hs [Hat Hrest]%has_at_cons.
  destruct (nameStart_not c Hc) as (Hw & H33 & _).
  destruct (read1 i c (i + 1) (at_ OPEN_TAG (bufs text [c] [] [])) Hs Hat) as (s1 & H1 & Hs1); [lia|..].
  { intros a Ha. unfold step. rewrite (sits_state Ha). unfold case_open_waka. rewrite decide_False, Hw, Hc by done.
    eexists. split; [reflexivity|]. eapply sits_ext; [|eapply sits_set, sits_state_to, Ha]. by intros []. }
  destruct (read_run tagName (λ _, True) r (i + 1) Hs1 Hrest) as (s2 & H2 & Hs2); [done|..].
  { intros d j a B' _ Hd Ha. split; [|done]. rewrite Forall_forall in Hr. unfold step. rewrite (sits_state Ha).
    unfold case_open_tag. by rewrite Hr. }
  exists s2. split; [rewrite zlen_cons, Z.add_assoc; by eapply reads_trans|]. eapply sits_ext; [|exact Hs2]. by intros [].
Qed.

(** The name of a closing tag, after its [</]. *)
Lemma read_close_name n i text s : name_ok n → at_ CLOSE_TAG (bufs text [] [] []) s → has_at chunk i n →
  ∃ s', reads i s (i + zlen n) s' ∧ at_ CLOSE_TAG (bufs text n [] []) s'.
Proof.
  intros (c & r & -> & Hc & Hr & _)%name_chars Hs [Hat Hrest]%has_at_cons.
  destruct (nameStart_not c Hc) as (Hw & _).
  destruct (read1 i c (i + 1) (at_ CLOSE_TAG (bufs text [c] [] [])) Hs Hat) as (s1 & H1 & Hs1); [lia|..].
  { intros a Ha. unfold step. rewrite (sits_state Ha). unfold case_close_tag. rewrite (sits_buf Ha), decide_True, Hw, Hc by done.
    eexists. split; [reflexivity|]. eapply sits_ext; [|eapply sits_set, Ha]. by intros []. }
  destruct (read_run tagName (λ B, B tagName ≠ []) r (i + 1) Hs1 Hrest) as (s2 & H2 & Hs2); [done|..].
  { intros d j a B' HB Hd Ha. split; [|rewrite fn_lookup_insert; by destruct (B' tagName)].
    rewrite Forall_forall in Hr. destruct (nameBody_not d (Hr d Hd)) as (_ & _ & H62).
    unfold step. rewrite (sits_state Ha). unfold case_close_tag. rewrite (sits_buf Ha). do 2 rewrite decide_False by done. by rewrite Hr. }
  exists s2. split; [rewrite zlen_cons, Z.add_assoc; by eapply reads_trans|]. eapply sits_ext; [|exact Hs2]. by intros [].
Qed.

(** The name of an attribute, up to its [=]. *)
Lemma read_attribute_name n i text m an av s : name_ok n → at_ ATTRIB (bufs text m an av) s → has_at chunk i (n ++ [61]) →
  ∃ s', reads i s (i + zlen n + 1) s' ∧ at_ ATTRIB_VALUE (bufs text m n []) s'.
Proof.
  intros (c & r & -> & Hc & Hr & _)%name_chars Hs [[Hat Hrest]%has_at_cons [H61 _]%has_at_cons]%has_at_app.
  destruct (nameStart_not c Hc) as (Hw & _ & H62 & H47).
  destruct (read1 i c (i + 1) (at_ ATTRIB_NAME (bufs text m [c] [])) Hs Hat) as (s1 & H1 & Hs1); [lia|..].
  { intros a Ha. unfold step. rewrite (sits_state Ha). unfold case_attrib. rewrite Hw, !decide_False, Hc by done.
    eexists. split; [reflexivity|]. eapply sits_ext; [|eapply sits_state_to, sits_set, sits_set, Ha]. by intros []. }
  destruct (read_run attribName (λ _, True) r (i + 1) Hs1 Hrest) as (s2 & H2 & Hs2); [done|..].
  { intros d j a B' _ Hd Ha. split; [|done]. rewrite Forall_forall in Hr. destruct (nameBody_not d (Hr d Hd)) as (Hw' & H61' & H62').
    unfold step. rewrite (sits_state Ha). unfold case_attrib_name. by rewrite !decide_False, Hw', Hr. }
  rewrite zlen_cons in H61 |- *. rewrite Z.add_assoc in H61 |- *.
  destruct (read1 (i + 1 + zlen r) 61 (i + 1 + zlen r + 1) (at_ ATTRIB_VALUE (bufs text m (c :: r) [])) Hs2 H61) as (s3 & H3 & Hs3); [lia|..].
  { intros a Ha. unfold step. rewrite (sits_state Ha). unfold case_attrib_name. rewrite decide_True by done.
    eexists. split; [reflexivity|]. eapply sits_ext; [|eapply sits_state_to, Ha]. by intros []. }
  exists s3. split; [|done]. eapply reads_trans; [exact H1|]. by eapply reads_trans.
Qed.

End at_state.

(** ** Pending text *)

(** The calls after a pending text was handed over. *)
Definition flush (pre : Z) (text : jsstr) (es : list event) : list event :=
  if decide (text = []) then es else es ++ [ontext (if decide (pre = 0) then textopts text else text)].

Lemma squeeze_nonempty s run : run ++ s ≠ [] → squeeze s run ≠ [].
Proof.
  revert run. induction s as [|c s IH]; intros run Hs; cbn [squeeze].
  - rewrite app_nil_r in Hs. by destruct run as [|? []].
  - destruct (Lang.isSpace c); [apply IH; by destruct run|]. by destruct run as [|? []].
Qed.

Lemma textopts_nonempty w : w ≠ [] → textopts w ≠ [].
Proof. intros Hw. apply squeeze_nonempty. by destruct w. Qed.

Lemma sits_emit e x quo tgs tg saw cl pre es B s :
  sits x quo tgs tg saw cl pre es B s → sits x quo tgs tg saw cl pre (es ++ [e]) B (emit e s).
Proof. intros []. constructor; try done. cbn. congruence. Qed.

Lemma sits_closetext x quo tgs tg saw cl pre es B s :
  sits x quo tgs tg saw cl pre es B s →
  sits x quo tgs tg saw cl pre (flush pre (B textNode) es) (<[textNode := []]> B) (closetext_if_exist s).
Proof.
  intros Hs. unfold closetext_if_exist, flush. rewrite (sits_buf Hs). case_decide as Ht.
  { eapply sits_ext; [|exact Hs]. intros b. destruct (decide (b = textNode)) as [->|]; [by rewrite fn_lookup_insert|].
    by rewrite fn_lookup_insert_ne. }
  unfold closetext. cbv zeta. rewrite (sits_pre Hs), (sits_buf Hs).
  destruct (decide (pre = 0)); [rewrite decide_False by (by apply textopts_nonempty)|rewrite decide_False by done];
    apply sits_set; by apply sits_emit.
Qed.

(** ** Attributes *)

Lemma sits_q_to y x quo tgs tg saw cl pre es B s :
  sits x quo tgs tg saw cl pre es B s → sits x y tgs tg saw cl pre es B (set_q y s).
Proof. intros []. by constructor. Qed.

Lemma sits_tag_to y x quo tgs tg saw cl pre es B s :
  sits x quo tgs tg saw cl pre es B s → sits x quo tgs y saw cl pre es B (set_tag y s).
Proof. intros []. by constructor. Qed.

Lemma read_value v i tgs tg saw cl pre es text m n av s :
  sits ATTRIB_VALUE_QUOTED (Some 34) tgs tg saw cl pre es (bufs text m n av) s → has_at chunk i (escaped true v) →
  ∃ s', reads i s (i + zlen (escaped true v)) s' ∧
    sits ATTRIB_VALUE_QUOTED (Some 34) tgs tg saw cl pre es (bufs text m n (av ++ v)) s'.
Proof.
  revert i av s. induction v as [|c v IH]; intros i av s Hs Hat.
  { exists s. change (escaped true []) with (@nil Z). rewrite zlen_nil, Z.add_0_r, app_nil_r. split; [apply reads_refl|done]. }
  rewrite escaped_cons in *. apply has_at_app in Hat as [Hat Hrest].
  assert (∃ s', reads i s (i + zlen (escape true c)) s' ∧
    sits ATTRIB_VALUE_QUOTED (Some 34) tgs tg saw cl pre es (bufs text m n (av ++ [c])) s') as (s1 & H1 & Hs1).
  { destruct (decide (special true c)) as [Hc|Hc].
    - destruct (escape_special true c Hc) as (name & Heq & Hin). rewrite Heq in *. apply has_at_cons in Hat as [H38 Hname].
      destruct (read1 i 38 (i + 1) (sits ATTRIB_VALUE_ENTITY_Q (Some 34) tgs tg saw cl pre es (bufs text m n av)) Hs H38)
        as (s1 & H1 & Hs1); [lia|..].
      { intros a Ha. unfold step. rewrite (sits_state Ha). unfold case_attrib_value_quoted. rewrite (sits_q Ha), !decide_True by done.
        eexists. split; [reflexivity|]. eapply sits_state_to, Ha. }
      destruct (read_entity ATTRIB_VALUE_ENTITY_Q attribValue ATTRIB_VALUE_QUOTED name c (i + 1) _ _ _ _ _ _ _ _ s1
        ltac:(by right) Hin Hs1 eq_refl Hname) as (s2 & H2 & Hs2).
      exists s2. split; [|eapply sits_ext; [|exact Hs2]; by intros []]. rewrite !zlen_app.
      change (zlen [38]) with 1. change (zlen [59]) with 1.
      replace (i + (1 + (zlen name + 1))) with (i + 1 + zlen name + 1) by lia. by eapply reads_trans.
    - rewrite escape_plain in * by done. apply has_at_cons in Hat as [Hat _].
      apply (read1 i c (i + 1) _ Hs Hat); [lia|]. intros a Ha. unfold step. rewrite (sits_state Ha).
      unfold case_attrib_value_quoted. unfold special in Hc. rewrite (sits_q Ha), decide_True, decide_False by naive_solver.
      eexists. split; [reflexivity|]. eapply sits_ext; [|eapply sits_add, Ha]. by intros []. }
  destruct (IH _ _ s1 Hs1 Hrest) as (s2 & H2 & Hs2). exists s2. rewrite zlen_app, Z.add_assoc, (cons_middle c), app_assoc.
  split; [by eapply reads_trans|done].
Qed.

(** A name is no array index, so that a new attribute comes last. *)
Lemma put_attribute_last (attrs : list (jsstr * jsstr)) n v : name_ok n → n ∉ attrs.*1 → Obj.put attrs n v = attrs ++ [(n, v)].
Proof.
  intros Hn Hin. assert (Obj.index_key n = None) as Hk.
  { destruct n as [|c r]; [done|]. destruct Hn as [Hc _]. unfold Obj.index_key. cbn [forallb].
    assert (Obj.is_digit c = false) as ->; [|done]. unfold Obj.is_digit. apply bool_decide_eq_false. intros Hd.
    assert (c = 48 ∨ c = 49 ∨ c = 50 ∨ c = 51 ∨ c = 52 ∨ c = 53 ∨ c = 54 ∨ c = 55 ∨ c = 56 ∨ c = 57) as Hcase by lia.
    destruct_or! Hcase; by subst c. }
  unfold Obj.put. rewrite Obj.get_not_key by done.
  clear Hin. induction attrs as [|[k w] attrs IH]; [done|]. cbn [Obj.add app]. unfold Obj.before. by rewrite Hk, IH.
Qed.

Lemma sits_attrib x quo tgs nm attrs b saw cl pre es text m n v s :
  sits x quo tgs (Some (mkTag nm attrs b)) saw cl pre es (bufs text m n v) s → attr_ok n → n ∉ attrs.*1 →
  ∃ s', attrib s = Ret s' ∧
    sits x quo tgs (Some (mkTag nm (attrs ++ [(n, v)]) b)) saw cl pre (flush pre text es ++ [onattribute n v]) (bufs [] m [] []) s'.
Proof.
  intros Hs [Hn Hproto] Hin. destruct (name_chars n Hn) as (_ & _ & _ & _ & _ & Hlow). unfold attrib.
  rewrite (sits_strict Hs), (sits_buf Hs). cbn [bufs]. rewrite Hlow. cbv zeta.
  pose proof (sits_set attribName n _ _ _ _ _ _ _ _ _ _ Hs) as Hs1. set (a := set_buf attribName n s) in *.
  rewrite (sits_tag Hs1), (sits_buf Hs1), fn_lookup_insert. cbn [attributes].
  rewrite Obj.get_not_key by done.
  unfold put_attribute. rewrite (sits_tag Hs1). cbn [mbind outcome_bind attributes name isSelfClosing].
  rewrite decide_False, put_attribute_last by done. eexists. split; [reflexivity|]. rewrite (sits_buf Hs1).
  set (e := set_tag _ a). assert (sits x quo tgs (Some (mkTag nm (attrs ++ [(n, v)]) b)) saw cl pre es (bufs text m n v) e) as He.
  { eapply sits_ext; [|eapply sits_tag_to, Hs1]. by intros []. }
  clearbody e. apply sits_closetext in He. rewrite !(sits_buf He).
  eapply sits_ext; [|eapply sits_set, sits_set, sits_emit, He]. by intros [].
Qed.

(** An attribute after its space. *)
Lemma read_attribute n v i tgs nm attrs b saw cl pre es text m an av s :
  sits ATTRIB None tgs (Some (mkTag nm attrs b)) saw cl pre es (bufs text m an av) s → attr_ok n → n ∉ attrs.*1 →
  has_at chunk i (n ++ [61; 34] ++ escaped true v ++ [34]) →
  ∃ s', reads i s (i + zlen (n ++ [61; 34] ++ escaped true v ++ [34])) s' ∧
    sits ATTRIB None tgs (Some (mkTag nm (attrs ++ [(n, v)]) b)) saw cl pre (flush pre text es ++ [onattribute n v])
      (bufs [] m [] []) s'.
Proof.
  intros Hs Hn Hin Hat. change (n ++ [61; 34] ++ escaped true v ++ [34]) with (n ++ [61] ++ [34] ++ escaped true v ++ [34]) in *.
  rewrite app_assoc in Hat. apply has_at_app in Hat as [Hat1 Hat2]. apply has_at_cons in Hat2 as [Hat2 Hat3].
  apply has_at_app in Hat3 as [Hat3 Hat4]. apply has_at_cons in Hat4 as [Hat4 _].
  rewrite zlen_app in Hat2, Hat3, Hat4. change (zlen [61]) with 1 in *. rewrite Z.add_assoc in Hat2, Hat3, Hat4.
  destruct (read_attribute_name n i text m an av s (proj1 Hn) Hs Hat1) as (s1 & H1 & Hs1).
  destruct (read1 _ 34 (i + zlen n + 1 + 1)
    (sits ATTRIB_VALUE_QUOTED (Some 34) tgs (Some (mkTag nm attrs b)) saw cl pre es (bufs text m n [])) Hs1 Hat2) as (s2 & H2 & Hs2); [lia|..].
  { intros a Ha. unfold step. rewrite (sits_state Ha). unfold case_attrib_value. eexists. split; [reflexivity|].
    eapply sits_state_to, sits_q_to, Ha. }
  destruct (read_value v _ _ _ _ _ _ _ _ _ _ _ s2 Hs2 Hat3) as (s3 & H3 & Hs3). cbn [app] in Hs3.
  destruct (read1 _ 34 (i + zlen n + 1 + 1 + zlen (escaped true v) + 1)
    (sits ATTRIB None tgs (Some (mkTag nm (attrs ++ [(n, v)]) b)) saw cl pre (flush pre text es ++ [onattribute n v]) (bufs [] m [] []))
    Hs3 Hat4) as (s4 & H4 & Hs4); [lia|..].
  { intros a Ha. unfold step. rewrite (sits_state Ha). unfold case_attrib_value_quoted. rewrite (sits_q Ha), decide_False by naive_solver.
    destruct (sits_attrib _ _ _ _ _ _ _ _ _ _ _ _ _ _ a Ha Hn Hin) as (e & -> & He). eexists. split; [reflexivity|].
    eapply sits_state_to, sits_q_to, He. }
  exists s4. split; [|done]. rewrite !zlen_app. change (zlen [61]) with 1. change (zlen [34]) with 1.
  replace (i + _) with (i + zlen n + 1 + 1 + zlen (escaped true v) + 1) by lia.
  eapply reads_trans; [exact H1|]. eapply reads_trans; [exact H2|]. by eapply reads_trans.
Qed.

(** The other attributes of a tag. *)
Lemma read_attributes attrs' i tgs nm attrs saw cl pre es m s :
  sits ATTRIB None tgs (Some (mkTag nm attrs false)) saw cl pre es (bufs [] m [] []) s → Forall (λ a, attr_ok a.1) attrs' →
  NoDup (attrs ++ attrs').*1 → has_at chunk i (attrs' ≫= print_attribute) →
  ∃ s', reads i s (i + zlen (attrs' ≫= print_attribute)) s' ∧
    sits ATTRIB None tgs (Some (mkTag nm (attrs ++ attrs') false)) saw cl pre (es ++ ((λ a, onattribute a.1 a.2) <$> attrs'))
      (bufs [] m [] []) s'.
Proof.
  revert i attrs es s. induction attrs' as [|[n v] attrs' IH]; intros i attrs es s Hs Hok Hnd Hat.
  { exists s. rewrite !app_nil_r. change (zlen _) with 0. rewrite Z.add_0_r. split; [apply reads_refl|done]. }
  apply Forall_cons in Hok as [Hn Hok]. change ((_ :: attrs') ≫= _) with (([32] ++ n ++ [61; 34] ++ escaped true v ++ [34]) ++ (attrs' ≫= print_attribute)) in *.
  rewrite <- app_assoc in *. apply has_at_cons in Hat as [H32 Hat]. apply has_at_app in Hat as [Hat1 Hat2].
  destruct (read1 i 32 (i + 1) (sits ATTRIB None tgs (Some (mkTag nm attrs false)) saw cl pre es (bufs [] m [] [])) Hs H32)
    as (s1 & H1 & Hs1); [lia|..].
  { intros a Ha. exists a. unfold step. by rewrite (sits_state Ha). }
  destruct (read_attribute n v (i + 1) _ _ _ _ _ _ _ _ _ _ _ _ s1 Hs1 Hn) as (s2 & H2 & Hs2); [|exact Hat1|].
  { rewrite fmap_app, NoDup_app in Hnd. set_solver. }
  destruct (IH (i + 1 + zlen (n ++ [61; 34] ++ escaped true v ++ [34])) _ _ s2 Hs2 Hok) as (s3 & H3 & Hs3); [by rewrite <- app_assoc|exact Hat2|].
  exists s3. rewrite <- app_assoc in Hs3. split; [|rewrite <- app_assoc in Hs3; exact Hs3].
  rewrite zlen_app, (zlen_app _ (attrs' ≫= print_attribute)), !Z.add_assoc. change (zlen [32]) with 1.
  eapply reads_trans; [exact H1|]. by eapply reads_trans.
Qed.

(** ** Tags *)

Definition pre_inside (n : jsstr) (pre : Z) : Z := if decide (n = jstr "pre") then pre + 1 else pre.

Lemma sits_openTag x quo tgs n attrs b tg saw cl pre es text an av s :
  tg = Some (mkTag n attrs b) → sits x quo tgs tg saw cl pre es (bufs text n an av) s → name_ok n → n ≠ jstr "script" →
  ∃ s', openTag false s = Ret s' ∧
    sits TEXT quo (tgs ++ [mkTag n attrs false]) None true cl (pre_inside n pre) (flush pre text es ++ [onopentag n attrs])
      (bufs [] [] [] []) s'.
Proof.
  intros -> Hs Hn Hsc. unfold openTag. rewrite (sits_tag Hs). cbv zeta. cbn [name attributes].
  eexists. split; [reflexivity|]. set (e := set_tags _ _).
  assert (sits x quo (tgs ++ [mkTag n attrs false]) (Some (mkTag n attrs false)) true cl pre es (bufs text n an av) e) as He.
  { destruct Hs as [? ? Ht]. constructor; try done. cbn. by rewrite Ht. }
  clearbody e. apply sits_closetext, (sits_emit (onopentag n attrs)) in He. change (bufs text n an av textNode) with text in He.
  set (e1 := emit _ _) in *. clearbody e1.
  assert (sits x quo (tgs ++ [mkTag n attrs false]) (Some (mkTag n attrs false)) true cl (pre_inside n pre)
    (flush pre text es ++ [onopentag n attrs]) (<[textNode := []]> (bufs text n an av))
    (if decide (n = jstr "pre") then set_preTags (preTags e1 + 1) e1 else e1)) as He1.
  { unfold pre_inside. case_decide; [|done]. destruct He. constructor; try done. cbn. congruence. }
  set (e2 := if decide (n = _) then _ else _) in *. clearbody e2.
  rewrite (sits_noscript He1), (sits_buf He1). change ((<[textNode := []]> _) tagName) with n.
  destruct (name_chars n Hn) as (_ & _ & _ & _ & _ & ->). rewrite bool_decide_eq_false_2 by done. cbn [negb andb].
  eapply sits_ext; [|eapply sits_set, sits_set, sits_set, sits_tag_to, sits_state_to, He1]. by intros [].
Qed.

Lemma sits_newTag x quo tgs tg saw cl pre es text n an av s :
  sits x quo tgs tg saw cl pre es (bufs text n an av) s → name_ok n →
  sits x quo tgs (Some (mkTag n [] false)) saw cl pre es (bufs text n an av) (newTag s).
Proof.
  intros Hs Hn. unfold newTag. rewrite (sits_strict Hs), (sits_buf Hs). cbv zeta. rewrite buf_set, decide_True by done.
  destruct (name_chars n Hn) as (_ & _ & _ & _ & _ & Hl). cbn [bufs]. rewrite Hl.
  eapply sits_tag_to, sits_ext; [|eapply sits_set, Hs]. by intros [].
Qed.

(** The start of an element, after its [<]. *)
Lemma read_open n attrs i tgs tg saw cl pre es text m s :
  sits OPEN_WAKA None tgs tg saw cl pre es (bufs text m [] []) s → name_ok n → n ≠ jstr "script" →
  NoDup attrs.*1 → Forall (λ a, attr_ok a.1) attrs → has_at chunk i (n ++ (attrs ≫= print_attribute) ++ [62]) →
  ∃ s', reads i s (i + zlen (n ++ (attrs ≫= print_attribute) ++ [62])) s' ∧
    sits TEXT None (tgs ++ [mkTag n attrs false]) None true cl (pre_inside n pre)
      (flush pre text es ++ ((λ a, onattribute a.1 a.2) <$> attrs) ++ [onopentag n attrs]) (bufs [] [] [] []) s'.
Proof.
  intros Hs Hn Hsc Hnd Hok [Hat1 Hat]%has_at_app.
  destruct (read_open_name n i text m s Hn Hs Hat1) as (s1 & H1 & Hs1). rewrite zlen_app, Z.add_assoc.
  destruct attrs as [|[a v] attrs].
  - apply has_at_cons in Hat as [H62 _].
    destruct (read1 (i + zlen n) 62 (i + zlen n + 1)
      (sits TEXT None (tgs ++ [mkTag n [] false]) None true cl (pre_inside n pre) (flush pre text es ++ [onopentag n []]) (bufs [] [] [] []))
      Hs1 H62) as (s2 & H2 & Hs2); [lia|..].
    { intros x Hx. unfold step. rewrite (sits_state Hx). unfold case_open_tag. change (nameBody 62) with false. cbv iota.
      destruct (sits_openTag OPEN_TAG None tgs n [] false _ saw cl pre es text [] [] (newTag x) eq_refl) as (y & Hy & Hsy); [by apply sits_newTag with (tg := tg)|done..|].
      cbv zeta. rewrite decide_True by done. rewrite Hy. by exists y. }
    exists s2. split; [|done]. by eapply reads_trans.
  - change ((_ :: attrs) ≫= _) with (([32] ++ a ++ [61; 34] ++ escaped true v ++ [34]) ++ (attrs ≫= print_attribute)) in *.
    set (A := a ++ [61; 34] ++ escaped true v ++ [34]) in *. apply Forall_cons in Hok as [Ha Hok].
    apply has_at_app in Hat as [[[H32 HA]%has_at_cons HB]%has_at_app [H62 _]%has_at_cons].
    change (zlen ([32] ++ A)) with (zlen (32 :: A)) in *. rewrite !zlen_app, !zlen_cons, zlen_nil in *.
    destruct (read1 (i + zlen n) 32 (i + zlen n + 1)
      (sits ATTRIB None tgs (Some (mkTag n [] false)) saw cl pre es (bufs text n [] [])) Hs1 H32) as (s2 & H2 & Hs2); [lia|..].
    { intros x Hx. unfold step. rewrite (sits_state Hx). eexists. split; [reflexivity|].
      eapply sits_state_to, sits_newTag, Hn. exact Hx. }
    destruct (read_attribute a v (i + zlen n + 1) _ _ _ _ _ _ _ _ _ _ _ _ s2 Hs2 Ha) as (s3 & H3 & Hs3); [set_solver|exact HA|].
    fold A in H3. rewrite Z.add_assoc in HB.
    destruct (read_attributes attrs (i + zlen n + 1 + zlen A) _ _ _ _ _ _ _ _ s3 Hs3 Hok Hnd HB) as (s4 & H4 & Hs4).
    set (k := i + zlen n + 1 + zlen A + zlen (attrs ≫= print_attribute)) in *. replace (i + zlen n + _) with k in H62 by lia.
    destruct (read1 k 62 (k + 1)
      (sits TEXT None (tgs ++ [mkTag n ((a, v) :: attrs) false]) None true cl (pre_inside n pre)
        (flush pre text es ++ ((λ a, onattribute a.1 a.2) <$> (a, v) :: attrs) ++ [onopentag n ((a, v) :: attrs)]) (bufs [] [] [] []))
      Hs4 H62) as (s5 & H5 & Hs5); [lia|..].
    { intros x Hx. unfold step. rewrite (sits_state Hx). unfold case_attrib. change (whitespace 62) with false. cbv iota.
      rewrite decide_True by done. destruct (sits_openTag _ _ _ _ _ _ _ _ _ _ _ _ _ _ x eq_refl Hx Hn Hsc) as (y & -> & Hy).
      exists y. split; [done|]. change (flush pre [] ?l) with l in Hy. rewrite <- !app_assoc in Hy. exact Hy. }
    exists s5. split; [|done]. replace (i + zlen n + _) with (k + 1) by lia.
    eapply reads_trans; [exact H1|]. eapply reads_trans; [exact H2|]. eapply reads_trans; [exact H3|]. by eapply reads_trans.
Qed.

(** The end of an element closes the tag that was opened last. *)
Lemma sits_close_to x quo tgs n attrs b tg saw cl pre es text m an av s :
  sits x quo (tgs ++ [mkTag n attrs b]) tg saw cl (pre_inside n pre) es (bufs text m an av) s →
  sits x quo tgs (Some (mkTag n attrs b)) saw cl pre (flush (pre_inside n pre) text es ++ [onclosetag n]) (bufs [] n an av)
    (close_to (S (length tgs)) (length tgs) s).
Proof.
  intros Hs. cbn [close_to]. rewrite decide_False by lia. rewrite (sits_tags Hs), last_snoc, length_app, Nat.add_sub, take_app_length.
  cbv zeta. cbn [name]. set (e := set_tag _ _).
  assert (sits x quo tgs (Some (mkTag n attrs b)) saw cl (pre_inside n pre) es (bufs text m an av) e) as He by (destruct Hs; by constructor).
  clearbody e. apply (sits_set tagName n), sits_closetext in He. set (e1 := closetext_if_exist _) in *. clearbody e1.
  rewrite (sits_buf He). change ((<[textNode := []]> _) tagName) with n.
  apply (sits_emit (onclosetag n)) in He. set (e2 := emit _ _) in *. clearbody e2. rewrite (sits_buf He).
  change ((<[textNode := []]> _) tagName) with n.
  assert (sits x quo tgs (Some (mkTag n attrs b)) saw cl pre (flush (pre_inside n pre) text es ++ [onclosetag n]) (bufs [] n an av)
    (if decide (n = jstr "pre") then set_preTags (preTags e2 - 1) e2 else e2)) as Hgoal.
  { apply sits_ext with (B' := bufs [] n an av) in He; [|by intros []].
    unfold pre_inside in *. case_decide; [|exact He]. destruct He as [? ? ? ? ? ? ? ? Hp]. constructor; try done. cbn. lia. }
  destruct (length tgs) as [|k]; [done|]. cbn [close_to]. by rewrite decide_True by lia.
Qed.

Lemma sits_closeTag x quo tgs n attrs b tg saw cl pre es text an av s :
  sits x quo (tgs ++ [mkTag n attrs b]) tg saw cl (pre_inside n pre) es (bufs text n an av) s → name_ok n →
  sits TEXT quo tgs (Some (mkTag n attrs b)) saw (cl || bool_decide (tgs = [])) pre (flush (pre_inside n pre) text es ++ [onclosetag n])
    (bufs [] [] [] []) (closeTag s).
Proof.
  intros Hs Hn. destruct (name_chars n Hn) as (c & r & Hnc & _ & _ & Hl).
  unfold closeTag. rewrite !(sits_buf Hs). cbn [bufs]. rewrite decide_False by (by rewrite Hnc). rewrite decide_True by done.
  unfold close_found. rewrite (sits_strict Hs), (sits_buf Hs), (sits_tags Hs). cbn [bufs]. cbv zeta. rewrite Hl.
  rewrite length_app, Nat.add_1_r. cbn [find_open]. rewrite (sits_tags Hs), list_lookup_middle by done. cbn [name].
  rewrite decide_False by auto.
  apply (sits_set tagName n) in Hs. set (e := set_buf tagName n s) in *. clearbody e. rewrite (sits_tags Hs), length_app, Nat.add_1_r.
  apply sits_ext with (B' := bufs text n an av) in Hs; [|by intros []].
  apply sits_close_to in Hs. set (e1 := close_to _ _ _) in *. clearbody e1.
  eapply sits_state_to, sits_ext; [|eapply sits_set, sits_set, sits_set]; [|case_decide as Ht].
  - instantiate (1 := bufs [] n an av). by intros [].
  - apply nil_length_inv in Ht as ->. rewrite bool_decide_eq_true_2, orb_true_r by done. destruct Hs. by constructor.
  - rewrite bool_decide_eq_false_2, orb_false_r by (by intros ->). done.
Qed.

Lemma read_close n attrs b i tgs tg saw cl pre es text m s :
  sits OPEN_WAKA None (tgs ++ [mkTag n attrs b]) tg saw cl (pre_inside n pre) es (bufs text m [] []) s → name_ok n →
  has_at chunk i ([47] ++ n ++ [62]) →
  ∃ s', reads i s (i + zlen ([47] ++ n ++ [62])) s' ∧
    sits TEXT None tgs (Some (mkTag n attrs b)) saw (cl || bool_decide (tgs = [])) pre
      (flush (pre_inside n pre) text es ++ [onclosetag n]) (bufs [] [] [] []) s'.
Proof.
  intros Hs Hn [H47 [Hat [H62 _]%has_at_cons]%has_at_app]%has_at_cons.
  destruct (read1 i 47 (i + 1)
    (sits CLOSE_TAG None (tgs ++ [mkTag n attrs b]) tg saw cl (pre_inside n pre) es (bufs text [] [] [])) Hs H47) as (s1 & H1 & Hs1); [lia|..].
  { intros a Ha. unfold step. rewrite (sits_state Ha). eexists. split; [reflexivity|].
    eapply sits_ext; [|eapply sits_set, sits_state_to, Ha]. by intros []. }
  destruct (read_close_name n (i + 1) text s1 Hn Hs1 Hat) as (s2 & H2 & Hs2).
  destruct (read1 (i + 1 + zlen n) 62 (i + 1 + zlen n + 1) _ Hs2 H62 ltac:(lia)
    (λ a Ha, ltac:(eexists; split; [|exact (sits_closeTag _ _ _ _ _ _ _ _ _ _ _ _ _ _ a Ha Hn)]; unfold step, case_close_tag;
      rewrite (sits_state Ha), (sits_buf Ha), decide_False by (by destruct n); reflexivity))) as (s3 & H3 & Hs3).
  exists s3. split; [|done]. rewrite !zlen_app. change (zlen [47]) with 1. change (zlen [62]) with 1.
  replace (i + _) with (i + 1 + zlen n + 1) by lia. eapply reads_trans; [exact H1|]. by eapply reads_trans.
Qed.

(** ** Documents *)

(** An element is read from behind its [<]. *)
Definition reads_back (x : node) : Prop :=
  match x with
  | Text _ => True
  | Elem _ _ _ => ∀ i tgs tg saw pre es text m s,
    sits OPEN_WAKA None tgs tg saw false pre es (bufs text m [] []) s → has_at chunk i (tail (print x)) →
    ∃ s' tg', reads i s (i + zlen (tail (print x))) s' ∧
      sits TEXT None tgs tg' true (bool_decide (tgs = [])) pre (flush pre text es ++ calls pre x) (bufs [] [] [] []) s'
  end.

Lemma read_kids kids w i tgs tg pre es s :
  Forall (λ x, doc_ok x ∧ reads_back x) kids → (∀ i, is_text (kids !! i) → ¬ is_text (kids !! S i)) →
  (w ≠ [] → ¬ is_text (kids !! 0%nat)) → tgs ≠ [] →
  sits TEXT None tgs tg true false pre es (bufs [] [] [] []) s → has_at chunk i (escaped false w ++ concat (print <$> kids) ++ [60]) →
  ∃ s' tg' es' text, reads i s (i + zlen (escaped false w ++ concat (print <$> kids) ++ [60])) s' ∧
    sits OPEN_WAKA None tgs tg' true false pre es' (bufs text [] [] []) s' ∧
    flush pre text es' = flush pre w es ++ concat (calls pre <$> kids).
Proof.
  revert w i tg es s. induction kids as [|x kids IH]; intros w i tg es s Hkids Hsep Hw Htgs Hs Hat.
  { destruct (read_text w i _ _ _ _ _ _ s Hs eq_refl Hat) as (s' & H1 & Hs'). cbn [fmap list_fmap concat app] in *.
    exists s', tg, es, w. rewrite zlen_app, Z.add_assoc, app_nil_r. split_and!; [done| |done].
    eapply sits_ext; [|exact Hs']. by intros []. }
  apply Forall_cons in Hkids as [[Hx Hback] Hkids]. assert (∀ i, is_text (kids !! i) → ¬ is_text (kids !! S i)) as Hsep'.
  { intros k. exact (Hsep (S k)). }
  rewrite !fmap_cons in *. cbn [concat] in *. rewrite <- app_assoc in *. destruct x as [n attrs kids'|w'].
  - change (print (Elem n attrs kids')) with ([60] ++ tail (print (Elem n attrs kids'))) in *.
    set (body := tail (print (Elem n attrs kids'))) in *. rewrite <- app_assoc in *. rewrite app_assoc in Hat |- *.
    apply has_at_app in Hat as [Hat1 [Hat2 Hat3]%has_at_app]. rewrite !zlen_app in *. change (zlen [60]) with 1 in *.
    destruct (read_text w i _ _ _ _ _ _ s Hs eq_refl Hat1) as (s1 & H1 & Hs1).
    apply sits_ext with (B' := bufs w [] [] []) in Hs1; [|by intros []]. rewrite Z.add_assoc in Hat2, Hat3.
    destruct (Hback _ _ _ _ _ _ _ _ s1 Hs1 Hat2) as (s2 & tg2 & H2 & Hs2). fold body in H2. rewrite bool_decide_eq_false_2 in Hs2 by done.
    destruct (IH [] _ _ _ s2 Hkids Hsep' ltac:(done) Htgs Hs2 Hat3) as (s3 & tg3 & es3 & t3 & H3 & Hs3 & He).
    exists s3, tg3, es3, t3. split_and!; [|done|by rewrite app_assoc].
    eapply reads_trans; [exact H1|]. eapply reads_trans; [exact H2|].
    cbn [app] in H3. change (escaped false []) with (@nil Z) in H3. cbn [app] in H3. rewrite zlen_app in H3. change (zlen [60]) with 1 in H3.
    by rewrite !Z.add_assoc in *.
  - destruct w; [|destruct (Hw ltac:(done)); done].
    change (escaped false []) with (@nil Z) in *. cbn [app] in *. change (print (Text w')) with (escaped false w') in *.
    destruct (IH w' i tg es s Hkids Hsep' ltac:(intros _; apply (Hsep 0%nat); done) Htgs Hs Hat) as (s3 & tg3 & es3 & t3 & H3 & Hs3 & He).
    exists s3, tg3, es3, t3. split_and!; [done|done|]. rewrite He. unfold flush at 1. rewrite decide_False by done.
    cbn [calls]. by rewrite <- app_assoc.
Qed.

Lemma doc_reads_back x : doc_ok x → reads_back x.
Proof.
  induction x as [n attrs kids IH|w] using node_nested_ind; [|done].
  intros (Hn & Hsc & Hnd & Hok & Hkids & Hsep). assert (Forall (λ x, doc_ok x ∧ reads_back x) kids) as Hkids'.
  { rewrite Forall_fmap in Hkids. rewrite Forall_forall in *. intros x Hx. split; [by apply Hkids|by apply IH, Hkids]. }
  intros i tgs tg saw pre es text m s Hs.
  assert (tail (print (Elem n attrs kids)) =
    (n ++ (attrs ≫= print_attribute) ++ [62]) ++ (escaped false [] ++ concat (print <$> kids) ++ [60]) ++ [47] ++ n ++ [62]) as ->.
  { cbn [print app tail]. change (escaped false []) with (@nil Z). by rewrite <- !app_assoc. }
  intros [Hat1 [Hat2 Hat3]%has_at_app]%has_at_app.
  destruct (read_open n attrs i _ _ _ _ _ _ _ _ s Hs Hn Hsc Hnd Hok Hat1) as (s1 & H1 & Hs1).
  assert (tgs ++ [mkTag n attrs false] ≠ []) as Htgs by (by destruct tgs).
  destruct (read_kids kids [] _ _ _ _ _ s1 Hkids' Hsep ltac:(done) Htgs Hs1 Hat2) as (s2 & tg2 & es2 & t2 & H2 & Hs2 & He).
  destruct (read_close n attrs false _ tgs tg2 _ _ _ _ _ _ s2 Hs2 Hn Hat3) as (s3 & H3 & Hs3).
  exists s3, (Some (mkTag n attrs false)). split.
  - rewrite (zlen_app (n ++ _)), (zlen_app (escaped false [] ++ _)), !Z.add_assoc.
    eapply reads_trans; [exact H1|]. by eapply reads_trans.
  - rewrite He in Hs3. cbn [calls]. change (flush _ [] ?l) with l in Hs3. rewrite <- !app_assoc in Hs3. exact Hs3.
Qed.

(** ** Around a document *)

Definition text_call (w : jsstr) : list event := if decide (w = []) then [] else [ontext (textopts w)].

(** Text outside of the document element, without [<] and [&]. *)
Definition outside_ok (w : jsstr) : Prop := Forall (λ c, c ≠ 60 ∧ c ≠ 38) w.

Lemma sits_finish quo tgs tg saw es text s :
  sits TEXT quo tgs tg saw true 0 es (bufs text [] [] []) s → events (finish (set_chr [] s)) = es ++ text_call text ++ [onend].
Proof.
  intros Hs. assert (sits TEXT quo tgs tg saw true 0 es (bufs text [] [] []) (set_chr [] s)) as He by (destruct Hs; by constructor).
  set (e := set_chr [] s) in *. clearbody e. unfold finish. cbv zeta. rewrite (sits_closed He). cbv iota.
  rewrite (sits_state He), decide_True by done. unfold closetext. cbv zeta. rewrite (sits_pre He), decide_True by done.
  rewrite (sits_buf He). cbn [bufs]. unfold text_call. destruct (decide (text = [])) as [->|Hne].
  - change (textopts []) with (@nil Z). rewrite decide_True by done. cbn. by rewrite (sits_events He).
  - rewrite decide_False by (by apply textopts_nonempty). cbn. by rewrite (sits_events He), <- app_assoc.
Qed.

Lemma outside_step saw cl tgs tg es B c j a : saw && negb cl = false → c ≠ 60 → c ≠ 38 → sits TEXT None tgs tg saw cl 0 es B a →
  step chunk c j a = Ret (j, add_buf textNode [c] a).
Proof.
  intros Hb H60 H38 Ha. unfold step. rewrite (sits_state Ha). unfold case_text. rewrite (sits_saw Ha), (sits_closed Ha), Hb.
  rewrite !decide_False by congruence. unfold strictFail. rewrite (sits_strict Ha). by case_match.
Qed.

Lemma outside_read w i tgs tg saw cl es text s : saw && negb cl = false → outside_ok w →
  sits TEXT None tgs tg saw cl 0 es (bufs text [] [] []) s → has_at chunk i w →
  ∃ s', reads i s (i + zlen w) s' ∧ sits TEXT None tgs tg saw cl 0 es (bufs (text ++ w) [] [] []) s'.
Proof.
  intros Hb Hw Hs Hat. destruct (read_run textNode (λ _, True) w i Hs Hat) as (s' & Hr & Hs'); [done|..].
  - intros c j a B' _ Hc Ha. split; [|done]. unfold outside_ok in Hw. rewrite Forall_forall in Hw. destruct (Hw c Hc). by eapply outside_step.
  - exists s'. split; [done|]. eapply sits_ext; [|exact Hs']. by intros [].
Qed.

(** The text before the document, and the [<] after it. *)
Lemma before_read w : (w = [] ∨ ∃ c, head w = Some c ∧ whitespace c = false) → outside_ok w → has_at chunk 0 (w ++ [60]) →
  ∃ s, reads 0 (new false) (zlen w + 1) s ∧ sits OPEN_WAKA None [] None false false 0 [onready] (bufs w [] [] []) s.
Proof.
  intros Hhd Hw [Hat [H60 _]%has_at_cons]%has_at_app. rewrite Z.add_0_l in H60.
  assert (sits BEGIN None [] None false false 0 [onready] (bufs [] [] [] []) (new false)) as Hs by (constructor; [done..|by intros []]).
  destruct w as [|c w].
  - apply (read1 0 60 1 _ Hs H60); [lia|]. intros a Ha. unfold step. rewrite (sits_state Ha). eexists. split; [reflexivity|].
    by eapply sits_start, sits_state_to.
  - apply Forall_cons in Hw as [[Hc60 Hc38] Hw]. destruct Hhd as [?|(c' & [= <-] & Hsp)]; [done|]. apply has_at_cons in Hat as [Hc Hat].
    destruct (read1 0 c 1 (sits TEXT None [] None false false 0 [onready] (bufs [c] [] [] [])) Hs Hc) as (s1 & H1 & Hs1); [lia|..].
    { intros a Ha. unfold step. rewrite (sits_state Ha), decide_False, Hsp by done. unfold strictFail. rewrite (sits_strict Ha). cbn [negb].
      eexists. split; [reflexivity|]. eapply sits_ext; [|eapply sits_state_to, sits_set, Ha]. by intros []. }
    destruct (outside_read w 1 _ _ false false _ _ s1 eq_refl Hw Hs1 Hat) as (s2 & H2 & Hs2). rewrite zlen_cons in *.
    destruct (read1 (1 + zlen w) 60 (1 + zlen w + 1) (sits OPEN_WAKA None [] None false false 0 [onready] (bufs (c :: w) [] [] [])) Hs2 H60) as (s3 & H3 & Hs3); [lia|..].
    { intros a Ha. unfold step. rewrite (sits_state Ha). unfold case_text. rewrite (sits_saw Ha). cbn [andb]. rewrite decide_True by done.
      eexists. split; [reflexivity|]. by eapply sits_start, sits_state_to. }
    exists s3. split; [|done]. eapply reads_trans; [exact H1|]. eapply reads_trans; [exact H2|]. exact H3.
Qed.

(** A document with text around it. *)
Lemma read_around n attrs kids before after : let x := Elem n attrs kids in
  doc_ok x → (before = [] ∨ ∃ c, head before = Some c ∧ whitespace c = false) → outside_ok before → outside_ok after →
  chunk = before ++ print x ++ after →
  ∃ s, parse (S (length chunk)) chunk (new false) = Ret s ∧
    events s = onready :: text_call before ++ calls 0 x ++ text_call after ++ [onend].
Proof.
  intros x Hx Hhd Hb Ha Hc. set (body := tail (print x)). assert (chunk = (before ++ [60]) ++ body ++ after) as Hp.
  { rewrite Hc. change (print x) with ([60] ++ body). by rewrite <- !app_assoc. }
  assert (has_at chunk 0 ((before ++ [60]) ++ body ++ after)) as [Hat1 [Hat2 Hat3]%has_at_app]%has_at_app
    by (rewrite <- Hp, <- (app_nil_r chunk) at 1; apply has_at_self).
  destruct (before_read before Hhd Hb Hat1) as (s1 & H1 & Hs1). rewrite zlen_app, Z.add_0_l in Hat2, Hat3. change (zlen [60]) with 1 in Hat2, Hat3.
  destruct (doc_reads_back x Hx _ _ _ _ _ _ _ _ s1 Hs1 Hat2) as (s2 & tg & H2 & Hs2). fold body in H2.
  destruct (outside_read after _ _ _ true true _ _ s2 eq_refl Ha Hs2 Hat3) as (s3 & H3 & Hs3).
  destruct (reads_trans _ _ _ _ _ _ (reads_trans _ _ _ _ _ _ H1 H2) H3) as (k & Hk & Hloop).
  exists (finish (set_chr [] s3)). split.
  - unfold parse. cbn [error new emit closed]. assert (S (length chunk) = k + S (length chunk - k))%nat as ->.
    { rewrite Hp, !length_app. unfold zlen in Hk. cbn [length]. lia. }
    rewrite Hloop. cbn [loop]. rewrite aget_None; [done|]. right. rewrite Hp, !zlen_app. change (zlen [60]) with 1. lia.
  - rewrite (sits_finish _ _ _ _ _ _ s3 Hs3). cbn [app]. unfold flush, text_call. rewrite (decide_True (P := 0 = 0)) by done.
    repeat case_decide; cbn [app]; rewrite <- ?app_assoc; done.
Qed.

Lemma read_document n attrs kids : let x := Elem n attrs kids in
  doc_ok x → chunk = print x →
  ∃ s, parse (S (length chunk)) chunk (new false) = Ret s ∧ events s = onready :: calls 0 x ++ [onend].
Proof.
  intros x Hx Hc. apply (read_around n attrs kids [] []); [done|by left|constructor..|by rewrite app_nil_r].
Qed.

End reading.


Definition sample : node :=
  Elem (jstr "p") [(jstr "class", jstr "a<b")] [Text (jstr "x  & y"); Elem (jstr "pre") [] [Text (jstr " <z>  ")]].

