(* ===== verification/Style.v ===== *)
(** * Result styles

    Model of [src/misc/oktavia/src/style.jsx]: marked up text is shown with escape
    codes of a terminal, as HTML, or without its marks.  The source is read by the
    SAX parser; the handler replaces the tags by strings of a table. *)

From S2P Require Import Prelude JsObject Lang Sax SaxNesting SaxRoundtrip.

Local Open Scope Z_scope.
Local Open Scope js_scope.

Module Style.
Import Sax.

(** ** The handler *)

(** [str.replace(/c/g, w)]. *)
Definition replace_all (c : Z) (w : jsstr) (str : jsstr) : jsstr := str ≫= λ x, if decide (x = c) then w else [x].

Definition escapeHTML (str : jsstr) : jsstr :=
  replace_all 62 (jstr "&gt;") (replace_all 60 (jstr "&lt;") (replace_all 34 (jstr "&quot;")
    (replace_all 38 (jstr "&amp;") (replace_all 10 (jstr "<br/>") str)))).

Abbreviation table := (list (jsstr * (jsstr * jsstr))).

Record Style := mkStyle { styles : table; escape : bool }.

(** [styles[tagname][i]] for both strings: of an inherited method there are none. *)
Definition marks (st : table) (tagname : jsstr) : outcome (option jsstr * option jsstr) :=
  match Obj.read st tagname with
  | Obj.Own m => Ret (Some m.1, Some m.2)
  | Obj.Inherited _ => Ret (None, None)
  | Obj.Absent => Throw "TypeError"
  end.

Definition handle (y : Style) (text : list (option jsstr)) (e : event) : outcome (list (option jsstr)) :=
  match e with
  | onopentag tagname _ => m ← marks (styles y) tagname; Ret (text ++ [m.1])
  | onclosetag tagname => m ← marks (styles y) tagname; Ret (text ++ [m.2])
  | ontext w => Ret (text ++ [Some (if escape y then escapeHTML w else w)])
  | _ => Ret text
  end.

(** [join('')], in which [undefined] is empty. *)
Definition result (text : list (option jsstr)) : jsstr := concat (default [] <$> text).

(** ** Styles *)

Definition entry (n o c : jsstr) : jsstr * (jsstr * jsstr) := (n, (o, c)).
Definition esc (w : string) : jsstr := [27] ++ jstr w.

Definition console : table :=
  [entry (jstr "title") (esc "[32m" ++ esc "[4m") (esc "[39m" ++ esc "[0m");
   entry (jstr "url") (esc "[34m") (esc "[39m");
   entry (jstr "hit") (esc "[4m") (esc "[0m");
   entry (jstr "del") (esc "[9m") (esc "[0m");
   entry (jstr "summary") (esc "[90m") (esc "[39m")].

Definition span (c : string) : jsstr := jstr "<span class=" ++ [34] ++ jstr c ++ [34] ++ jstr ">".

Definition html : table :=
  [entry (jstr "title") (span "title") (jstr "</span>");
   entry (jstr "url") (span "url") (jstr "</span>");
   entry (jstr "hit") (span "hit") (jstr "</span>");
   entry (jstr "del") (jstr "<del>") (jstr "</del>");
   entry (jstr "summary") (span "reuslt") (jstr "</span>")].

Definition ignore : table :=
  [entry (jstr "tilte") [] []; entry (jstr "url") [] []; entry (jstr "hit") [] []; entry (jstr "del") [] [];
   entry (jstr "summary") [] []].

Definition new (mode : jsstr) : Style :=
  mkStyle
    (if decide (mode = jstr "console") then console else if decide (mode = jstr "html") then html else ignore)
    (bool_decide (mode = jstr "html")).

(** The parser does not look at its handler: the handler takes the calls in order,
    and the first that throws ends the conversion. *)
Definition convert `{CaseMap, Runtime} (fuel : nat) (y : Style) (source : jsstr) : outcome jsstr :=
  s ← parse fuel source (Sax.new false);
  text ← ofold (handle y) [] (events s);
  Ret (result text).

(** ** Documents *)

Definition shown (y : Style) (w : jsstr) : jsstr := if escape y then escapeHTML (textopts w) else textopts w.

(** What a document looks like. *)
Fixpoint render (y : Style) (x : node) : jsstr :=
  match x with
  | Elem n _ kids =>
    match Obj.get (styles y) n with Some m => m.1 ++ concat (render y <$> kids) ++ m.2 | None => [] end
  | Text w => shown y w
  end.

(** All tags of a document are in the table. *)
Fixpoint known (st : table) (x : node) : Prop :=
  match x with
  | Elem n _ kids => n ∈ Obj.keys st ∧ Forall id (known st <$> kids)
  | Text _ => True
  end.

Lemma result_app t1 t2 : result (t1 ++ t2) = result t1 ++ result t2.
Proof. unfold result. by rewrite fmap_app, concat_app. Qed.

Lemma handle_attributes y text (attrs : list (jsstr * jsstr)) :
  ofold (handle y) text ((λ a, onattribute a.1 a.2) <$> attrs) = Ret text.
Proof. by induction attrs. Qed.

(** The calls [es] add a text that reads [w]. *)
Definition adds (y : Style) (es : list event) (w : jsstr) : Prop :=
  ∀ text, ∃ text', ofold (handle y) text es = Ret (text ++ text') ∧ result text' = w.

Lemma adds_app y es1 es2 w1 w2 : adds y es1 w1 → adds y es2 w2 → adds y (es1 ++ es2) (w1 ++ w2).
Proof.
  intros H1 H2 text. destruct (H1 text) as (t1 & Ht1 & <-). destruct (H2 (text ++ t1)) as (t2 & Ht2 & <-).
  exists (t1 ++ t2). rewrite ofold_app, Ht1. cbn [mbind outcome_bind]. by rewrite Ht2, app_assoc, result_app.
Qed.

Lemma adds_tag y n attrs m : Obj.get (styles y) n = Some m →
  adds y [onopentag n attrs] m.1 ∧ adds y [onclosetag n] m.2.
Proof.
  intros Hm. split; intros text; [exists [Some m.1]|exists [Some m.2]]; cbn [ofold handle]; unfold marks, Obj.read; rewrite Hm;
    (split; [done|]); unfold result; cbn; by rewrite app_nil_r.
Qed.

Lemma adds_calls y x : known (styles y) x → jstr "pre" ∉ Obj.keys (styles y) → adds y (calls 0 x) (render y x).
Proof.
  intros Hx Hpre. induction x as [n attrs kids IH|w] using node_nested_ind.
  - destruct Hx as [Hn Hkids]. cbn [calls render]. destruct (Obj.get_key _ _ Hn) as (m & Hm). rewrite Hm.
    rewrite decide_False by (by intros ->). destruct (adds_tag y n attrs m Hm) as [Ho Hc].
    apply (adds_app _ _ _ []); [intros text; exists []; by rewrite handle_attributes, app_nil_r|].
    apply adds_app; [done|]. apply adds_app; [|done]. clear Ho Hc.
    induction IH as [|x kids Hkid _ IH]; [intros text; exists []; by rewrite app_nil_r|].
    apply Forall_cons in Hkids as [Hk Hkids]. rewrite !fmap_cons. apply adds_app; [by apply Hkid|by apply IH].
  - intros text. exists [Some (if escape y then escapeHTML (textopts w) else textopts w)]. split; [done|].
    unfold result. cbn. by rewrite app_nil_r.
Qed.

Lemma pre_unstyled mode : jstr "pre" ∉ Obj.keys (styles (new mode)).
Proof. unfold new. cbn [styles]. repeat case_decide; vm_compute; set_solver. Qed.

Lemma convert_document `{CaseMap, Runtime} fuel mode n attrs kids :
  let x := Elem n attrs kids in
  doc_ok x → known (styles (new mode)) x → (length (print x) < fuel)%nat →
  convert fuel (new mode) (print x) = Ret (render (new mode) x).
Proof.
  intros x Hx Hk Hfuel. unfold convert.
  destruct (read_document (print x) n attrs kids Hx eq_refl) as (s & Hs & He).
  rewrite (parse_more _ fuel _ _ _ Hs) by lia. cbn [mbind outcome_bind].
  assert (adds (new mode) (events s) (render (new mode) x)) as Ha.
  { rewrite He, <- (app_nil_r (render _ x)). 
    apply (adds_app _ [onready] _ []); [intros text; exists []; by rewrite app_nil_r|].
    apply adds_app; [apply adds_calls; [done|apply pre_unstyled]|]. intros text. exists []. by rewrite app_nil_r. }
  destruct (Ha []) as (text & -> & Ht). cbn [mbind outcome_bind app]. by rewrite Ht.
Qed.

(** C24: a document whose tags are all in the table of a style is converted into its
    texts between the strings of their tags; in the style for HTML the characters
    of the texts that have a meaning there are escaped. *)
Theorem style_renders `{CaseMap, Runtime} fuel mode n attrs kids :
  let x := Elem n attrs kids in
  doc_ok x → known (styles (new mode)) x → (length (print x) < fuel)%nat →
  convert fuel (new mode) (print x) = Ret (render (new mode) x).
Proof. apply convert_document. Qed.

Definition sample : node := Elem (jstr "url") [] [Text (jstr "a <b> & "); Elem (jstr "hit") [] [Text (jstr "c")]].

Lemma style_renders_witness :
  @convert ascii_case plain_runtime (S (length (print sample))) (new (jstr "html")) (print sample) =
  Ret (jstr "<span class=" ++ [34] ++ jstr "url" ++ [34] ++ jstr ">a &lt;b&gt; &amp; <span class=" ++ [34] ++ jstr "hit" ++ [34] ++
       jstr ">c</span></span>").
Proof.
  apply (style_renders _ (jstr "html") (jstr "url") []); [..|apply Nat.lt_succ_diag_r]; given_document.
Defined.

(** ** What is shown as HTML *)

Inductive piece := Open (n : jsstr) | Close (n : jsstr) | Chars (w : jsstr).

Definition looks (p : piece) : jsstr :=
  match p with
  | Open n => match Obj.get html n with Some m => m.1 | None => [] end
  | Close n => match Obj.get html n with Some m => m.2 | None => [] end
  | Chars w => w
  end.

(** No character of a text starts or ends a tag or a value. *)
Definition harmless (p : piece) : Prop :=
  match p with Chars w => Forall (λ c, c ≠ 60 ∧ c ≠ 62 ∧ c ≠ 34) w | _ => True end.

(** The tags that are open after some pieces, the last one first. *)
Definition opened (open : option (list jsstr)) (p : piece) : option (list jsstr) :=
  match p with
  | Open n => cons n <$> open
  | Close n => match open with Some (n' :: l) => if decide (n = n') then Some l else None | _ => None end
  | Chars _ => open
  end.

Definition piece_of (e : event) : option piece :=
  match e with
  | onopentag n _ => Some (Open n)
  | onclosetag n => Some (Close n)
  | ontext w => Some (Chars (escapeHTML w))
  | _ => None
  end.

Lemma replace_all_Forall (P : Z → Prop) c w str :
  Forall P w → Forall (λ x, x ≠ c → P x) str → Forall P (replace_all c w str).
Proof.
  intros Hw Hs. unfold replace_all. apply Forall_bind. eapply Forall_impl; [exact Hs|]. cbn. intros x Hx.
  case_decide; [done|]. constructor; [by apply Hx|done].
Qed.

Lemma escapeHTML_harmless w : harmless (Chars (escapeHTML w)).
Proof.
  unfold escapeHTML. cbn [harmless]. repeat (apply replace_all_Forall; [repeat constructor; done|]).
  apply Forall_true. intros x. cbn. tauto.
Qed.

Lemma handle_pieces es text text' :
  ofold (handle (new (jstr "html"))) text es = Ret text' →
  result text' = result text ++ concat (looks <$> omap piece_of es).
Proof.
  revert text. induction es as [|e es IH]; intros text Hes; [injection Hes as <-; by rewrite app_nil_r|].
  cbn [ofold] in Hes. cbn [omap list_omap].
  destruct (handle (new (jstr "html")) text e) as [t1|m| |] eqn:He; try done. rewrite (IH _ Hes). clear IH Hes.
  assert (∀ n m, marks html n = Ret m → default [] m.1 = looks (Open n) ∧ default [] m.2 = looks (Close n)) as Hmarks.
  { intros n m. unfold marks, Obj.read, looks. destruct (Obj.get html n); [by intros [= <-]|].
    destruct (list_find _ _) as [[? [? ?]]|]; [by intros [= <-]|done]. }
  destruct e; cbn [handle] in He; try (injection He as <-; done).
  all: try (change (styles (new (jstr "html"))) with html in He; destruct (marks html _) as [m| | |] eqn:Hm; try done;
    destruct (Hmarks _ _ Hm) as [Ho Hc]).
  all: injection He as <-; cbn [piece_of]; rewrite fmap_cons; cbn [concat]; rewrite result_app, <- app_assoc; f_equal;
    unfold result; cbn [fmap list_fmap concat default]; rewrite ?app_nil_r, ?Ho, ?Hc; reflexivity.
Qed.

Lemma opened_nesting es p l : p = Start ∧ l = [] ∨ p = In l →
  ∀ open, foldl nest p es = Done open → foldl opened (Some l) (omap piece_of es) = Some open.
Proof.
  revert p l. induction es as [|e es IH]; intros p l Hp open; [by destruct Hp as [[-> _]| ->]|].
  assert (∀ es, foldl nest Bad es = Bad) as Hbad by (intros es'; by induction es').
  cbn [foldl omap list_omap]. destruct Hp as [[-> ->]| ->].
  - destruct e; cbn [nest]; try (rewrite Hbad; done). apply IH. by right.
  - destruct e; cbn [nest piece_of foldl opened]; try (rewrite Hbad; done); try (apply IH; by right).
    + destruct es as [|e' es']; [by intros [= ->]|]. cbn [foldl nest]. by rewrite Hbad.
    + destruct l as [|n' l]; [by rewrite Hbad|]. case_decide; [|by rewrite Hbad]. apply IH. by right.
Qed.

(** C23: Whatever text is converted for a page, what comes out is made of the
    opening and closing strings of the table, with every closing string for the
    last tag still open, and of texts in which no character starts or ends a tag
    or an attribute. *)
Theorem html_harmless `{CaseMap, Runtime} fuel source out :
  convert fuel (new (jstr "html")) source = Ret out →
  ∃ ps open, out = concat (looks <$> ps) ∧ Forall harmless ps ∧ foldl opened (Some []) ps = Some open.
Proof.
  unfold convert. destruct (parse _ _ _) as [s|m| |] eqn:Hs; try done. cbn [mbind outcome_bind].
  destruct (loop_nested _ _ _ _ _ (new_ok false) Hs) as [open Hopen].
  destruct (ofold _ _ _) as [text|m| |] eqn:Ht; try done. intros [= <-].
  exists (omap piece_of (events s)), open. split_and!.
  - by apply handle_pieces in Ht.
  - apply Forall_forall. intros p. rewrite list_elem_of_omap. intros (e & _ & He).
    destruct e; try done; injection He as <-; try done. apply escapeHTML_harmless.
  - apply opened_nesting with Start; [by left|done].
Qed.

(** A search text with a tag of its own. *)
Definition typed : jsstr := jstr "<hit>" ++ jstr "<url>a>b" ++ jstr "</hit>".

Lemma html_harmless_witness : ∃ out,
  @convert ascii_case plain_runtime (S (length typed)) (new (jstr "html")) typed = Ret out ∧
  ∃ ps open, out = concat (looks <$> ps) ∧ Forall harmless ps ∧ foldl opened (Some []) ps = Some open.
Proof.
  eexists. split; [vm_compute; reflexivity|]. eapply (@html_harmless ascii_case plain_runtime (S (length typed)) typed). vm_compute. reflexivity.
Defined.

(** Tags outside of the table throw; line breaks are escaped after they were made
    into tags; the table that shows no marks misses the title. *)
Example unknown_tag :
  @convert ascii_case plain_runtime 40 (new (jstr "html")) (jstr "<hit>a<b>c</hit>") = Throw "TypeError".
Proof. vm_compute. reflexivity. Qed.

Example line_break : escapeHTML [97; 10; 98] = jstr "a&lt;br/&gt;b".
Proof. vm_compute. reflexivity. Qed.

Example title_ignored :
  @convert ascii_case plain_runtime 40 (new (jstr "ignore")) (jstr "<title>a</title>") = Throw "TypeError".
Proof. vm_compute. reflexivity. Qed.

End Style.
