(* ===== verification/CodeUnits.v ===== *)
(** * The file of an index is a string

    What [dump] writes are UTF-16 code units, so that the base64 coding that the
    pages get the file in is read back ([Binary.base64_roundtrip]). *)

From S2P Require Import Prelude JsObject Binary BitVector WaveletMatrix FMIndex Text Metadata Sections Splitters Tables Blocks.
From S2P Require Import Oktavia OktaviaFile.

Local Open Scope Z_scope.

Abbreviation units := (Forall Bin.code_unit).

Create HintDb units.

Lemma fromCharCode_units c : units (fromCharCode c).
Proof. constructor; [apply to_uint16_range|constructor]. Qed.

Lemma units_app s1 s2 : units s1 → units s2 → units (s1 ++ s2).
Proof. by apply Forall_app_2. Qed.

Lemma units_nil : units [].
Proof. constructor. Qed.

Lemma units_concat (l : list jsstr) : Forall units l → units (concat l).
Proof. intros Hl. by apply Forall_concat. Qed.

#[export] Hint Resolve fromCharCode_units units_app units_nil : units.

Lemma Ret_inj {A} (a b : A) : Ret a = Ret b → a = b.
Proof. by intros [= ->]. Qed.

Lemma Ret_fst {A B} (a a' : A) (b b' : B) : Ret (a, b) = Ret (a', b') → a = a'.
Proof. by intros [= ->]. Qed.

Lemma dump16_units n : units (Bin.dump16bitNumber n).
Proof. apply fromCharCode_units. Qed.

Lemma dump32_units n : units (Bin.dump32bitNumber n).
Proof. unfold Bin.dump32bitNumber. auto with units. Qed.

#[export] Hint Resolve dump16_units dump32_units : units.

(** ** Strings *)

Lemma pack_units l : units (Bin.pack_bytes l).
Proof.
  remember (length l) as n eqn:Hn. revert l Hn. induction (lt_wf n) as [n _ IH]. intros [|a [|b l]] ->; cbn [Bin.pack_bytes]; auto with units.
  apply units_app; [auto with units|]. apply (IH (length l)); [cbn; lia|done].
Qed.

Lemma dumpString_units s r : units s → units (fst (Bin.dumpString s r)).
Proof.
  intros Hs. unfold Bin.dumpString. cbv zeta. destruct (Bin.scan_bytes _ _) as [[] codes]; cbn [fst]; apply units_app; auto using pack_units with units.
  case_decide; [|done]. unfold js_slice. by apply Forall_take, Forall_drop.
Qed.

Lemma dumpStringList_units l r : Bin.strings_ok l → units (fst (Bin.dumpStringList l r)).
Proof.
  intros [Hl _]. unfold Bin.dumpStringList. assert (units (fst (Bin.dumpStrings l r))) as Hd.
  { revert r. induction Hl as [|s l [Hs _] _ IH]; intros r; cbn [Bin.dumpStrings]; [constructor|].
    pose proof (dumpString_units s r Hs) as H1. destruct (Bin.dumpString s r) as [d r1]. specialize (IH r1).
    destruct (Bin.dumpStrings l r1) as [ds r2]. by apply units_app. }
  destruct (Bin.dumpStrings l r) as [ds r1]. cbn [fst] in *. auto with units.
Qed.

Lemma dumpMap_units m r : Bin.map_ok m → units (fst (Bin.dumpStringListMap m r)).
Proof.
  intros (_ & Hm & _). unfold Bin.dumpStringListMap. assert (units (fst (Bin.dumpEntries m r))) as Hd.
  { revert r. induction Hm as [|[k v] m [[Hk _] Hv] _ IH]; intros r; cbn [Bin.dumpEntries]; [constructor|].
    pose proof (dumpString_units k r Hk) as H1. destruct (Bin.dumpString k r) as [d r1].
    pose proof (dumpStringList_units v r1 Hv) as H2. destruct (Bin.dumpStringList v r1) as [dv r2]. specialize (IH r2).
    destruct (Bin.dumpEntries m r2) as [ds r3]. cbn [fst] in *. auto with units. }
  destruct (Bin.dumpEntries m r) as [ds r1]. cbn [fst] in *. auto with units.
Qed.

(** ** Numbers *)

Lemma zeroBlock_units fuel n s : Bin.zeroBlock_loop fuel n = Ret s → units s.
Proof.
  revert n s. induction fuel as [|fuel IH]; intros n s; cbn [Bin.zeroBlock_loop]; [done|].
  case_decide; [|by intros [= <-]; constructor].
  case_decide; intros (rest & Hr & <-%Ret_inj)%bind_Ret; apply units_app; auto with units; by eapply IH.
Qed.

Lemma nonZeroBlock_units fuel a off n s : Bin.nonZeroBlock_loop fuel a off n = Ret s → units s.
Proof.
  revert off n s. induction fuel as [|fuel IH]; intros off n s; cbn [Bin.nonZeroBlock_loop]; [done|].
  case_decide; [|by intros [= <-]; constructor]. destruct (if decide _ then _ else _) as [bl n'].
  intros (elems & He & (rest & Hr & <-%Ret_inj)%bind_Ret)%bind_Ret. apply units_app; [auto with units|]. apply units_app; [|by eapply IH].
  apply units_concat. clear -He. revert elems He. induction (seqZ off bl) as [|i l IHl]; intros elems; [by intros [= <-]; constructor|].
  cbn [omap_list]. intros (x & (y & _ & [= <-])%bind_Ret & (xs & Hxs & [= <-])%bind_Ret)%bind_Ret. constructor; auto with units.
Qed.

Lemma zebra_units l k code : units (snd (Bin.zebra_loop l k code)).
Proof.
  revert k code. induction l as [|x l IH]; intros k code; cbn [Bin.zebra_loop]; [constructor|]. case_decide; [|apply IH].
  specialize (IH (k + 1) (code + js_shl 1 k)). destruct (Bin.zebra_loop l (k + 1) _). cbn [snd] in *. auto with units.
Qed.

Lemma dump_numbers_units fuel a i s : Bin.dump_numbers fuel a i = Ret s → units s.
Proof.
  revert i s. induction fuel as [|fuel IH]; intros i s; cbn [Bin.dump_numbers]; [done|].
  case_decide; [|by intros [= <-]; constructor]. intros (x & _ & Hs)%bind_Ret. revert Hs. case_decide.
  - intros (b & Hb & (rest & Hr & <-%Ret_inj)%bind_Ret)%bind_Ret. apply units_app; [by eapply zeroBlock_units|by eapply IH].
  - destruct (Bin._shouldZebraCode a i).
    + intros (rest & Hr & <-%Ret_inj)%bind_Ret. apply units_app; [|by eapply IH]. unfold Bin._createZebraCode. cbv zeta.
      pose proof (zebra_units (take (Z.to_nat (Z.min (i + 15) (zlen a) - i)) (drop (Z.to_nat i) a)) 0 0x8000) as Hz.
      destruct (Bin.zebra_loop _ _ _). cbn [snd] in Hz. auto with units.
    + intros (b & Hb & Hs)%bind_Ret. revert Hs. case_decide; [done|]. intros (rest & Hr & <-%Ret_inj)%bind_Ret.
      apply units_app; [by eapply nonZeroBlock_units|by eapply IH].
Qed.

Lemma bits_units bv r s r' : BV.dump bv r = Ret (s, r') → units s.
Proof.
  unfold BV.dump, Bin.dump32bitNumberList. cbv zeta. intros ([s1 r1] & (b & Hb & <-%Ret_fst)%bind_Ret & <-%Ret_fst)%bind_Ret.
  apply dump_numbers_units in Hb. auto with units.
Qed.

(** ** The index *)

Lemma wavelet_units wm r s r' : WM.dump wm r = Ret (s, r') → units s.
Proof.
  unfold WM.dump. cbv zeta. intros ([s1 r1] & H1 & ([s2 r2] & H2 & Hs)%bind_Ret)%bind_Ret.
  assert (∀ l s0 r0, units s0 → ofold (WM.dump_vector wm) (s0, r0) l = Ret (s1, r1) → units s1) as Hv.
  { induction l as [|i l IH]; intros s0 r0 Hs0; [by intros <-%Ret_fst|]. cbn [ofold].
    intros ([s3 r3] & (bv & _ & ([s4 r4] & Hb%bits_units & [= <- <-])%bind_Ret)%bind_Ret & Hrest)%bind_Ret.
    eapply IH; [|exact Hrest]. auto with units. }
  assert (∀ l s0 r0, units s0 → ofold (WM.dump_sep wm) (s0, r0) l = Ret (s2, r2) → units s2) as Hp.
  { induction l as [|i l IH]; intros s0 r0 Hs0; [by intros <-%Ret_fst|]. cbn [ofold].
    intros ([s3 r3] & (sep & _ & [= <- <-])%bind_Ret & Hrest)%bind_Ret. eapply IH; [|exact Hrest]. auto with units. }
  assert (∀ l s0 c0 r0, units s0 → units (fst (fst (foldl (λ '(range_contents, counter, report) '(key, value),
      (range_contents ++ Bin.dump32bitNumber key ++ Bin.dump32bitNumber value, counter + 1, Bin.report_opt report 4 4)) (s0, c0, r0) l))))
    as Hr.
  { induction l as [|[k v] l IH]; intros s0 c0 r0 Hs0; [done|]. cbn [foldl]. apply IH. auto with units. }
  specialize (Hr (WM._range wm) [] 0 r2 units_nil). fold (WM.dump_range (WM._range wm) r2) in Hr.
  destruct (WM.dump_range (WM._range wm) r2) as [[s5 c5] r5]. apply Ret_fst in Hs as <-.
  apply units_app; [|auto with units]. eapply Hp; [|exact H2]. eapply Hv; [|exact H1]. auto with units.
Qed.

Lemma numbers_units l : units (concat (Bin.dump32bitNumber <$> l)).
Proof. apply units_concat, Forall_fmap, Forall_true. intros x. apply dump32_units. Qed.

Lemma index_units fm s : FM.dump fm = Ret s → units s.
Proof.
  unfold FM.dump. cbv zeta. intros ([s1 r1] & H1%wavelet_units & <-%Ret_inj)%bind_Ret. auto 10 using numbers_units with units.
Qed.

Lemma metadata_units m r s r' : OktFile.saveable m → Meta._dump m r = Ret (s, r') → units s.
Proof.
  destruct m as [x|x|x|x]; cbn [OktFile.saveable].
  - intros [_ Hn]. cbn [Meta._dump Okt.metadata_any Sec.section_metadata]. unfold Sec.dump, Meta.base_dump. pose proof (dumpStringList_units _ (Bin.report_opt r 1 1) Hn) as H1.
    destruct (Bin.dumpStringList _ _) as [ns r1]. intros ([b r2] & Hb%bits_units & <-%Ret_fst)%bind_Ret. auto with units.
  - intros _. cbn [Meta._dump Okt.metadata_any Spl.splitter_metadata]. unfold Spl.dump, Meta.base_dump. intros ([b r2] & Hb%bits_units & <-%Ret_fst)%bind_Ret. auto with units.
  - intros (_ & _ & Hn). cbn [Meta._dump Okt.metadata_any Tab.table_metadata]. unfold Tab.dump, Meta.base_dump. pose proof (dumpStringList_units _ (Bin.report_opt r 1 1) Hn) as H1.
    destruct (Bin.dumpStringList _ _) as [ns r1].
    intros ([b r2] & Hb%bits_units & ([b2 r3] & Hb2%bits_units & <-%Ret_fst)%bind_Ret)%bind_Ret. auto with units.
  - intros [_ Hn]. cbn [Meta._dump Okt.metadata_any Blk.block_metadata]. unfold Blk.dump, Meta.base_dump. pose proof (dumpStringList_units _ (Bin.report_opt r 1 1) Hn) as H1.
    destruct (Bin.dumpStringList _ _) as [ns r1]. intros ([b r2] & Hb%bits_units & <-%Ret_fst)%bind_Ret. auto with units.
Qed.

Lemma dump_units o chars T s : OktFile.storable o chars T → Okt.dump o = Ret s → units s.
Proof.
  intros [(M & ddic & Hx) _ Hst Hl _]. unfold Okt.dump. intros (fm & Hfm%index_units & Hs)%bind_Ret. revert Hs. cbv zeta.
  pose proof (dumpMap_units _ (Some Bin.report_new) Hst) as Hm. destruct (Bin.dumpStringListMap _ _) as [stems r].
  intros (ms & Hms & <-%Ret_inj)%bind_Ret.
  assert (units ms) as Hms'.
  { revert ms Hms. induction Hl as [|name l [[Hname _] (m & Hget & Hsv)] _ IH]; intros ms; cbn [Okt.dump_metadata]; [by intros [= <-]; constructor|].
    rewrite Hget. cbn [of_option mbind outcome_bind]. intros ([data r1] & Hd%metadata_units & Hs)%bind_Ret; [|done].
    pose proof (dumpString_units name r1 Hname) as Hn. destruct (Bin.dumpString name r1) as [lab r2].
    apply bind_Ret in Hs as (rest & Hrest%IH & <-%Ret_inj). auto with units. }
  assert (units (concat (drop 3 (Text._compressCode2utf16 (Okt.text o))))) as Hcodes.
  { pose proof (Text.indexed_coded _ _ _ _ _ Hx) as Hk. rewrite (Text.coded_from _ _ _ Hk). cbn [drop app].
    apply units_concat, Forall_fmap. eapply Forall_impl; [apply (Text.coded_chars _ _ _ Hk)|]. cbn. intros c Hc.
    constructor; [|constructor]. unfold Bin.code_unit. lia. }
  assert (units Okt.header) as Hh by (apply Forall_forall; intros c Hc; vm_compute in Hc; unfold Bin.code_unit; set_solver by lia).
  auto 10 with units.
Qed.
