(* ===== verification/WebSearch.v ===== *)
(** * The search page

    Model of [src/misc/oktavia/tool/web/oktavia-search.jsx]: the object a page of
    the documentation searches with.  It loads an index, runs the queries of the
    search box, sorts what they find and shows it in pages.

    The units a search found live in a store of the page.  The callback of a search
    is the list of its calls. *)

From stdpp Require Import pretty.
From S2P Require Import Prelude JsObject Binary Query QueryStringParser SearchResult Text Lang Metadata Oktavia Sax Style.

Local Open Scope Z_scope.
Local Open Scope js_scope.

(** ** Strings *)

(** [s.indexOf(w)] and [s.split(c)] for one character. *)
Fixpoint find_sub (i : Z) (s w : jsstr) : Z :=
  if decide (take (length w) s = w) then i
  else match s with [] => -1 | _ :: s => find_sub (i + 1) s w end.

Definition str_indexOf (s w : jsstr) : Z := find_sub 0 s w.

Fixpoint split_char (c : Z) (cur s : jsstr) : list jsstr :=
  match s with
  | [] => [cur]
  | x :: s => if decide (x = c) then cur :: split_char c [] s else split_char c (cur ++ [x]) s
  end.

(** The dollar signs of a replacement: [$$], [$&], [$`] and [$']. *)
Fixpoint expand (found before after rep : jsstr) : jsstr :=
  match rep with
  | 36 :: (c :: rep') as rest =>
    if decide (c = 36) then 36 :: expand found before after rep'
    else if decide (c = 38) then found ++ expand found before after rep'
    else if decide (c = 96) then before ++ expand found before after rep'
    else if decide (c = 39) then after ++ expand found before after rep'
    else 36 :: expand found before after rest
  | c :: rep => c :: expand found before after rep
  | [] => []
  end.

(** [s.replace(w, rep)] for strings: the first occurrence. *)
Definition replace_first (s w rep : jsstr) : jsstr :=
  let i := str_indexOf s w in
  if decide (i < 0) then s
  else
    let before := js_slice s 0 i in
    let after := js_slice s (i + zlen w) (zlen s) in
    before ++ expand w before after rep ++ after.

Definition br : jsstr := jstr "<br/>".

Fixpoint skip_breaks (fuel : nat) (s : jsstr) : jsstr :=
  match fuel with
  | O => s
  | S fuel => if decide (take 5 s = br) then skip_breaks fuel (drop 5 s) else s
  end.

(** [s.replace(/(<br\/>)(<br\/>)+/, '<br/><br/>')]. *)
Definition join_breaks (s : jsstr) : jsstr :=
  let i := str_indexOf s (br ++ br) in
  if decide (i < 0) then s
  else js_slice s 0 i ++ br ++ br ++ skip_breaks (length s) (js_slice s i (zlen s)).

Definition decimal (n : Z) : jsstr := jstr (pretty n).

(** ** The page *)

Module Web.

Record Result := mkResult { title : jsstr; url : option jsstr; content : jsstr; score : Z }.
Record Proposal := mkProposal { options : jsstr; label : jsstr; count : Z }.

(** [_oktavia] is tested for [null], and what only a search sets is [null] at first. *)
Record t := mk {
  _oktavia : option Okt.t;
  _queryString : option jsstr;
  _queries : option (list Query.t);
  _highlight : jsstr;
  _entriesPerPage : Z;
  _currentPage : Z;
  _result : option (list nat);
  _proposals : option (list SR.Proposal);
  units : SR.store;
}.

(** The static variables; [_instance] is the page made last. *)
Record statics := mkStatics { _stemmer : option (jsstr → jsstr); _instance : option t }.

Definition new (w : statics) (entriesPerPage : Z) : statics :=
  mkStatics (_stemmer w) (Some (mk (Some Okt.new) None None [] entriesPerPage 1 None None [])).

Definition with_oktavia (p : t) (o : Okt.t) : t :=
  mk (Some o) (_queryString p) (_queries p) (_highlight p) (_entriesPerPage p) (_currentPage p) (_result p) (_proposals p) (units p).

(** A value that is [null] cannot be used. *)
Definition object {A} (x : option A) : outcome A := match x with Some x => Ret x | None => Throw "TypeError" end.

Definition setStemmer (w : statics) (stemmer : jsstr → jsstr) : outcome statics :=
  match _instance w with
  | Some p => o ← object (_oktavia p); Ret (mkStatics (_stemmer w) (Some (with_oktavia p (Okt.setStemmer o stemmer))))
  | None => Ret (mkStatics (Some stemmer) None)
  end.

(** *** Numbers of pages *)

Definition resultSize (p : t) : outcome Z := r ← object (_result p); Ret (zlen r).

(** [Math.ceil] of a quotient of two 32-bit integers, which a double tells apart
    from the integers; by zero it is no number, which becomes 0. *)
Definition totalPages (p : t) : outcome Z :=
  n ← resultSize p;
  Ret (if decide (_entriesPerPage p = 0) then 0 else - ((- n) / _entriesPerPage p)).

Definition currentPage (p : t) : Z := _currentPage p.

Definition setCurrentPage (p : t) (page : Z) : t :=
  mk (_oktavia p) (_queryString p) (_queries p) (_highlight p) (_entriesPerPage p) page (_result p) (_proposals p) (units p).

Definition hasPrevPage (p : t) : bool := bool_decide (_currentPage p ≠ 1).
Definition hasNextPage (p : t) : outcome bool := n ← totalPages p; Ret (bool_decide (_currentPage p ≠ n)).

(** The numbers from [a] to [b]. *)
Definition pages (a b : Z) : list jsstr := decimal <$> seqZ a (b - a + 1).
Definition dots : jsstr := jstr "...".

Definition pageIndexes (p : t) : outcome (list jsstr) :=
  total ← totalPages p;
  Ret (if decide (total < 10) then pages 1 total
       else if decide (_currentPage p ≤ 5) then pages 1 7 ++ [dots; decimal total]
       else if decide (total - 5 ≤ _currentPage p) then [decimal 1; dots] ++ pages (total - 8) total
       else [decimal 1; dots] ++ pages (_currentPage p - 3) (_currentPage p + 3) ++ [dots; decimal total]).

Definition getHighlight (p : t) : jsstr := _highlight p.

(** *** Searching *)

Section search.
Context `{CaseMap, Runtime}.

Definition position_score (o : Okt.t) (score : Z) (position : SR.Position) : outcome Z :=
  kind ← Okt.wordPositionType o (SR.position position);
  let score := if decide (kind ≠ 0) then score + 10 else score + 1 in
  Ret (if SR.stemmed position then score else score + 2).

(** The score of one unit, written to the unit. *)
Definition score_unit (o : Okt.t) (h : SR.store) (ref : nat) : outcome SR.store :=
  unit ← of_option (h !! ref);
  score ← ofold (position_score o) 0 (SR.positions unit).*2;
  Ret (<[ref := SR.mkUnit (SR.positions unit) (SR.id unit) (SR._size unit) (to_int32 score) (SR.startPosition unit)]> h).

Definition _sortResult (o : Okt.t) (h : SR.store) (summary : SR.SearchSummary) : outcome (SR.store * list nat) :=
  result ← object (SR.result summary);
  h ← ofold (score_unit o) h (SR.units result);
  sorted ← SR.getSortedResult h summary;
  Ret (h, sorted).

(** The state and the calls of the callback. *)
Definition search (p : t) (queryString : jsstr) : outcome (t * list (Z * Z)) :=
  match _oktavia p with
  | None =>
    Ret (mk None (Some queryString) (_queries p) (_highlight p) (_entriesPerPage p) (_currentPage p) (_result p) (_proposals p)
           (units p), [])
  | Some o =>
    let '(queryParser, queries) := QueryStringParser.parse QueryStringParser.new queryString in
    highlight ← QueryStringParser.highlight queryParser;
    '(h, summary) ← Okt.search toLowerCase (units p) o queries;
    n ← SR.summary_size summary;
    '(h, result, proposals) ←
      (if decide (n > 0) then '(h, result) ← _sortResult o h summary; Ret (h, result, [])
       else if decide (zlen queries > 1) then '(h, proposals) ← SR.getProposal h summary; Ret (h, [], proposals)
       else Ret (h, [], []));
    let p := mk (Some o) (_queryString p) (Some queries) highlight (_entriesPerPage p) 1 (Some result) (Some proposals) h in
    n ← resultSize p;
    total ← totalPages p;
    Ret (p, [(n, total)])
  end.

Definition loadIndex (w : statics) (p : t) (index : jsstr) : outcome (t * list (Z * Z)) :=
  o ← object (_oktavia p);
  let o := match _stemmer w with Some stemmer => Okt.setStemmer o stemmer | None => o end in
  data ← Bin.base64decode index;
  o ← Okt.load o data;
  let p := with_oktavia p o in
  match _queryString p with
  | Some (c :: q) =>
    '(p, calls) ← search p (c :: q);
    Ret (mk (_oktavia p) None (_queries p) (_highlight p) (_entriesPerPage p) (_currentPage p) (_result p) (_proposals p) (units p),
         calls)
  | _ => Ret (p, [])
  end.

(** *** Results *)

(** What is shown of a document, at most 250 characters or two halves of them. *)
Definition num : Z := 250.
Definition half : Z := num / 2.

(** One hit in the content, from which [start] characters were cut. *)
Definition mark_hit (fuel : nat) (style : Style.Style) (start end_ : Z) (content : jsstr) (pos : SR.Position) : outcome jsstr :=
  let a := SR.position pos - start in
  let b := SR.position pos + zlen (SR.word pos) - start in
  if decide (SR.position pos + zlen (SR.word pos) < end_) then
    hit ← Style.convert fuel style (jstr "<hit>*</hit>");
    Ret (js_slice content 0 a ++ replace_first hit (jstr "*") (js_slice content a b) ++ js_slice content b (zlen content))
  else Ret content.

Definition snippet (fuel : nat) (style : Style.Style) (name content : jsstr) (positions : list SR.Position) : outcome jsstr :=
  let '(content, start) :=
    if decide (str_indexOf content name = 1) then (js_slice content (zlen name + 2) (zlen content), zlen name + 2) else (content, 0) in
  first ← object (head positions);
  let split := bool_decide (SR.position first > start + num - zlen (SR.word first)) in
  let end_ := if split then SR.position first + half else start + num in
  content ← ofold (mark_hit fuel style start end_) content (reverse positions);
  let text :=
    if split then Lang.join br [js_slice content 0 half ++ jstr " ..."; js_slice content (- half) (end_ - start)]
    else js_slice content 0 (end_ - start) ++ jstr " ...<br/>" in
  Ret (join_breaks (replace_first text Text.eob [32])).

Definition result_entry (fuel : nat) (p : t) (o : Okt.t) (style : Style.Style) (result : list nat) (results : list Result) (i : Z)
    : outcome (list Result) :=
  ref ← object (aget result i);
  unit ← of_option (units p !! ref);
  metadata ← Okt.getPrimaryMetadata o;
  name ← Meta.getInformation metadata (SR.id unit);
  let info := split_char 1 [] name in
  content ← Meta.getContent (Okt.text o) (Meta._bitVector metadata) (SR.id unit);
  text ← snippet fuel style (default [] (info !! 0%nat)) content (SR.getPositions unit);
  Ret (results ++ [mkResult (default [] (info !! 0%nat)) (info !! 1%nat) text (SR.score unit)]).

Definition getResult (fuel : nat) (p : t) : outcome (list Result) :=
  let style := Style.new (jstr "html") in
  let start := (_currentPage p - 1) * _entriesPerPage p in
  n ← resultSize p;
  let last := Z.min (_currentPage p * _entriesPerPage p) n in
  o ← object (_oktavia p);
  result ← object (_result p);
  ofold (result_entry fuel p o style result) [] (seqZ start (last - start)).

(** *** Proposals *)

Definition proposal_entry (fuel : nat) (style : Style.Style) (queries : list Query.t) (results : list Proposal)
    (proposal : SR.Proposal) : outcome (list Proposal) :=
  if decide (SR.expect proposal > 0) then
    '(label, option) ← ofold (λ '(label, option) j,
      q ← of_option (aget queries j);
      if decide (j ≠ SR.omit proposal) then
        l ← Style.convert fuel style (jstr "<hit>" ++ Query.toString q ++ jstr "</hit>");
        Ret (label ++ [l], option ++ [Query.toString q])
      else
        l ← Style.convert fuel style (jstr "<del>" ++ Query.toString q ++ jstr "</del>");
        Ret (label ++ [l], option)) ([], []) (seqZ 0 (zlen queries));
    Ret (results ++ [mkProposal (Lang.join [32] option) (Lang.join (jstr "&nbsp;") label) (SR.expect proposal)])
  else Ret results.

Definition getProposals (fuel : nat) (p : t) : outcome (list Proposal) :=
  let style := Style.new (jstr "html") in
  queries ← object (_queries p);
  if decide (zlen queries > 1) then
    proposals ← object (_proposals p);
    ofold (proposal_entry fuel style queries) [] proposals
  else Ret [].

End search.
End Web.
