(* ===== verification/WebResults.v ===== *)
(** * What the search page finds and shows

    Documents that were indexed and saved are searched by the page of
    [WebSearch.v]: the queries of the search box return, and all that they find is
    listed on its pages. *)

From S2P Require Import Prelude JsObject Binary BitVector FMIndex Lang Query QueryStringParser Text SearchResult Metadata Sections.
From S2P Require Import Oktavia OktaviaSearch OktaviaFile CodeUnits Sax SaxNesting SaxRoundtrip Style WebSearch.

Local Open Scope Z_scope.
Local Open Scope js_scope.

Import Meta Okt OktSearch.

(** ** Units of a search

    The units of a search are numbered by documents, hold at least one position,
    and only positions inside of the text. *)

Definition fits (docs : list (jsstr * jsstr)) (u : SR.SearchUnit) : Prop :=
  SR.unit_wf u ∧ (∃ d, aget docs (SR.id u) = Some d) ∧ (∃ q o, SR.unit_get u q = Some o) ∧
  ∀ q o, SR.unit_get u q = Some o → 0 ≤ q < zlen (concat docs.*2).

Lemma fits_merge docs u v : fits docs u → fits docs v → fits docs (SR.unit_merge u v).
Proof.
  intros (Hu & Hd & (q0 & o0 & Hq0) & Hru) (Hv & _ & _ & Hrv). destruct (SR.unit_merge_spec u v Hu Hv) as (Hw & Hid & Hget).
  split_and!; [done|by rewrite Hid|..].
  - destruct (SR.unit_get v q0) as [o|] eqn:Hq; exists q0; rewrite Hget, Hq0, Hq; by eexists.
  - intros q o. rewrite Hget. destruct (SR.unit_get u q) as [a|] eqn:Ha; [intros _; by eapply Hru|].
    intros Hq. by apply (Hrv q o).
Qed.

(** Merging results keeps what is closed under merging units. *)
Section merged.
Context (P : SR.SearchUnit → Prop) (P_merge : ∀ u v, P u → P v → P (SR.unit_merge u v)).

Lemma or_steps_keep rhs l h res h' res' :
  ofold (SR.or_step rhs) (h, res) l = Ret (h', res') → Forall P h → Forall P h'.
Proof.
  revert h res. induction l as [|i l IH]; intros h res; [by intros [= -> _]|]. cbn [ofold].
  intros ([h1 res1] & Hstep & Hrest)%bind_Ret Hh. apply (IH _ _ Hrest). clear IH Hrest. revert Hstep. unfold SR.or_step.
  intros (id & _ & (rref & _ & Hstep)%bind_Ret)%bind_Ret. case_decide; [|by injection Hstep as <- <-].
  apply bind_Ret in Hstep as (lref & _ & (h2 & Hm & [= <- <-])%bind_Ret). unfold SR.merge_refs in Hm.
  apply bind_Ret in Hm as (lu & Hlu & (ru & Hru & [= <-])%bind_Ret). apply Forall_insert; [done|].
  rewrite Forall_lookup in Hh. destruct (h !! lref) as [x|] eqn:Hx; [|done]. destruct (h !! rref) as [y|] eqn:Hy; [|done].
  injection Hlu as <-. injection Hru as <-. by apply P_merge; eapply Hh.
Qed.

Lemma merge_keeps h l r h' res : SR.merge h l r = Ret (h', res) → Forall P h → Forall P h'.
Proof.
  unfold SR.merge. destruct (SR.or r); [apply or_steps_keep|].
  destruct (SR.not r); by intros (x & _ & [= -> _])%bind_Ret.
Qed.

Lemma mergeResult_keeps h rs h' r : SR.mergeResult h rs = Ret (h', r) → Forall P h → Forall P h'.
Proof.
  destruct rs as [|first rs]; [by intros [= -> _]|]. cbn [SR.mergeResult]. intros ([h1 r1] & Hf & [= -> _])%bind_Ret.
  revert h first Hf. induction rs as [|x rs IH]; intros h first; [by intros [= -> _]|]. cbn [ofold].
  intros ([h2 r2] & Hm & Hrest)%bind_Ret Hh. apply (IH _ _ Hrest). by eapply merge_keeps.
Qed.

Lemma getProposal_keeps h s h' ps : SR.getProposal h s = Ret (h', ps) → Forall P h → Forall P h'.
Proof.
  unfold SR.getProposal. intros ([h1 ps1] & Hf & [= -> _])%bind_Ret. revert h Hf. generalize (@nil SR.Proposal).
  induction (seqZ 0 _) as [|i l IH]; intros ps0 h; [by intros [= -> _]|]. cbn [ofold].
  intros ([h2 ps2] & Hm & Hrest)%bind_Ret Hh. apply (IH _ _ Hrest). clear IH Hrest. revert Hm. unfold SR.proposal_step.
  intros ([h3 r3] & Hm & (n & _ & [= <- _])%bind_Ret)%bind_Ret. by eapply mergeResult_keeps.
Qed.
End merged.

(** A query makes its units behind those of the queries before it. *)
Section fresh.
Context (bv : BV.t) (getIndex : Z → outcome Z) (word : jsstr) (stemmed : bool) (n : nat).

Lemma group_fresh ps h r h' r' :
  ofold (group_step bv getIndex word stemmed) (h, r) ps = Ret (h', r') →
  (n ≤ length h)%nat → SR.units r = seq n (length h - n) →
  (n ≤ length h')%nat ∧ SR.units r' = seq n (length h' - n) ∧ take n h' = take n h.
Proof.
  revert h r. induction ps as [|p ps IH]; intros h r; [by intros [= -> ->]|]. cbn [ofold].
  intros ([h1 r1] & Hstep & Hrest)%bind_Ret Hn Hu.
  assert ((n ≤ length h1)%nat ∧ SR.units r1 = seq n (length h1 - n) ∧ take n h1 = take n h) as (Hn1 & Hu1 & Ht1).
  { clear IH Hrest. revert Hstep. unfold group_step. intros (index & _ & ([[h2 r2] ref] & Hget & Hrest)%bind_Ret)%bind_Ret.
    apply bind_Ret in Hrest as (u & _ & (u' & _ & [= <- <-])%bind_Ret). rewrite length_insert.
    unfold SR.getSearchUnit in Hget. case_decide.
    - injection Hget as <- <- <-. cbn [SR.units]. rewrite length_app. cbn [length]. split_and!; [lia| |].
      + rewrite Hu. replace (length h + 1 - n)%nat with (S (length h - n)) by lia. rewrite seq_S. by replace (n + (length h - n))%nat with (length h) by lia.
      + rewrite take_insert_ge by lia. by rewrite take_app_le.
    - apply bind_Ret in Hget as (ref' & Href & [= <- <- <-]). split_and!; [done|done|].
      destruct (aget (SR.units r) _) as [x|] eqn:Hx; [|done]. injection Href as ->. apply aget_elem_of in Hx. rewrite Hu in Hx.
      apply elem_of_seq in Hx. by rewrite take_insert_ge by lia. }
  destruct (IH _ _ Hrest Hn1 Hu1) as (Hn' & Hu' & Ht'). split_and!; [done..|congruence].
Qed.
End fresh.

(** ** Searching an engine that is ready *)

Lemma substring_returns p chars T M ddic pos len :
  Text.indexed p chars T M ddic → 0 ≤ pos ≤ zlen T → 0 ≤ len → ∃ w, FM.getSubstring (Text._fmindex p) pos len = Ret w.
Proof.
  intros [_ _ _ _ (sa & Hr)] Hpos Hlen.
  assert (0 ≤ pos < zlen ((Text.code chars <$> T) ++ [0])) as Hp by (rewrite zlen_app, zlen_fmap; change (zlen [0]) with 1; lia).
  destruct (decide (FM.checkpoint (Text._fmindex p) (Z.min (pos + len) (zlen ((Text.code chars <$> T) ++ [0]))) <
    zlen ((Text.code chars <$> T) ++ [0]))).
  - eexists. by apply (FM.getSubstring_near _ _ _ _ Hr).
  - eexists. apply (FM.getSubstring_far _ _ _ _ Hr); [done..|lia].
Qed.

Section ready.
Context (toLowerCase : jsstr → jsstr) (o : Okt.t) (key : jsstr) (docs : list (jsstr * jsstr)) (chars : list Z) (M ddic : Z).
Context (R : ready o key docs chars M ddic).

Lemma query_fits h q h' r :
  searchable chars M (Query.word q) → _searchQuery toLowerCase h o q = Ret (h', r) → Forall (fits docs) h → Forall (fits docs) h'.
Proof.
  intros Hq Hrun Hh. destruct (query_answers toLowerCase o key docs chars M ddic R h q Hq) as (h1 & r1 & Hrun1 & Hwf & _ & (_ & _ & Hids & _) & Hus).
  rewrite Hrun in Hrun1. injection Hrun1 as <- <-.
  assert ((length h ≤ length h')%nat ∧ SR.units r = seq (length h) (length h' - length h) ∧ take (length h) h' = take (length h) h)
    as (Hn & Hu & Ht).
  { unfold _searchQuery in Hrun. apply bind_Ret in Hrun as (ps & _ & Hrun). destruct (ready_section _ _ _ _ _ _ R) as (s & Hms & _).
    rewrite (primary_section o key s (ready_labels _ _ _ _ _ _ R) Hms) in Hrun. cbn [mbind outcome_bind] in Hrun.
    eapply group_fresh; [exact Hrun|done|by rewrite Nat.sub_diag]. }
  apply Forall_lookup. intros ref u Hu'. destruct (decide (ref < length h)%nat) as [Hlt|Hge].
  { rewrite Forall_lookup in Hh. apply (Hh ref). rewrite <- (lookup_take_lt h' (length h)), Ht, lookup_take_lt in Hu' by done. done. }
  pose proof (lookup_lt_Some _ _ _ Hu') as Hlen.
  assert (SR.units r !! (ref - length h)%nat = Some ref) as Href.
  { rewrite Hu. apply lookup_seq. lia. }
  destruct (Forall2_lookup_l _ _ _ _ _ (SR.rw_units _ _ Hwf) Href) as (k & Hk & u' & Hu2 & Hid & Huwf).
  rewrite Hu' in Hu2. injection Hu2 as <-.
  assert (SR.lists r ref k) as Hl.
  { unfold SR.lists. apply list_elem_of_lookup. exists (ref - length h)%nat. by apply lookup_zip_Some. }
  pose proof (λ off pos, Hus ref k u off pos Hl Hu') as Hget. destruct Hq as (Hne & _). apply list_elem_of_lookup_2, Hids in Hk as (off & Hocc).
  destruct (proj2 (starts_matches docs _ k off Hne) Hocc) as (d & Hd & _).
  split_and!; [done|by exists d; rewrite Hid|..].
  - eexists off, _. by apply Hget.
  - intros q' o' (_ & Hm)%Hget. apply starts_matches in Hm as (d' & Hd' & Hoff & Hst); [|done]. apply (stands_range docs _ _ Hne) in Hst.
    pose proof (zlen_nonneg (concat (take (Z.to_nat k) docs.*2))). unfold doc_start in Hst. lia.
Qed.

Lemma search_fits qs h h' s :
  Forall (λ q, searchable chars M (Query.word q)) qs → search toLowerCase h o qs = Ret (h', s) →
  Forall (fits docs) h → Forall (fits docs) h'.
Proof.
  intros Hqs Hrun Hh. unfold search in Hrun. apply bind_Ret in Hrun as ([h1 s1] & Hloop & Hm).
  unfold SR.summary_merge in Hm. apply bind_Ret in Hm as ([h2 r] & Hm & [= -> _]).
  eapply (mergeResult_keeps _ (fits_merge docs)); [exact Hm|]. clear Hm.
  revert h Hh Hloop. generalize SR.summary_new. induction Hqs as [|q qs Hq _ IH]; intros s0 h Hh Hloop; [by injection Hloop as <- _|].
  cbn [ofold] in Hloop. apply bind_Ret in Hloop as ([h3 s3] & Hq1 & Hrest). apply bind_Ret in Hq1 as ([h4 r4] & Hq1 & [= <- _]).
  eapply IH; [|exact Hrest]. by eapply query_fits.
Qed.

(** ** Scores

    A hit counts 10 at the start of a word, as the engine sees it, and 1 inside of
    one, and 2 more if it was not found by its stem. *)

Definition worth (pos : SR.Position) : Z :=
  match Okt.wordPositionType o (SR.position pos) with Ret 0 => 1 | _ => 10 end + (if SR.stemmed pos then 0 else 2).

(** The score of a unit, a 32-bit number, and the unit with its score. *)
Definition relevance (u : SR.SearchUnit) : Z := to_int32 (foldr Z.add 0 (worth <$> (SR.positions u).*2)).

Definition rescored (u : SR.SearchUnit) : SR.SearchUnit :=
  SR.mkUnit (SR.positions u) (SR.id u) (SR._size u) (relevance u) (SR.startPosition u).

Lemma score_returns u score : fits docs u →
  ofold (Web.position_score o) score (SR.positions u).*2 = Ret (score + foldr Z.add 0 (worth <$> (SR.positions u).*2)).
Proof.
  intros (Hu & _ & _ & Hr). assert (Forall (λ e, 0 ≤ SR.position e.2 < zlen (concat docs.*2)) (SR.positions u)) as Hp.
  { apply Forall_forall. intros [q pos] Hin. apply IMap.get_elem_of in Hin; [|apply Hu]. cbn [snd].
    rewrite (SR.uw_own _ Hu _ _ Hin). by eapply Hr. }
  revert score. induction Hp as [|[q pos] l Hq _ IH]; intros score; [cbn; by rewrite Z.add_0_r|]. cbn [fmap list_fmap ofold snd foldr] in *.
  assert (∃ k, Okt.wordPositionType o (SR.position pos) = Ret k) as [k Hk].
  { unfold Okt.wordPositionType, Text.wordPositionType. case_decide; [by eexists|].
    destruct (substring_returns _ _ _ _ _ (SR.position pos - 1) 1 (ready_text _ _ _ _ _ _ R)) as [w ->]; [lia..|]. by eexists. }
  assert (Web.position_score o score pos = Ret (score + worth pos)) as ->.
  { unfold Web.position_score, worth. rewrite Hk. cbn [mbind outcome_bind]. f_equal. destruct k; case_decide; destruct (SR.stemmed pos); lia. }
  cbn [mbind outcome_bind]. rewrite IH. f_equal. lia.
Qed.

Lemma fits_rescored u : fits docs u → fits docs (rescored u).
Proof. intros (Hw & Hd & Hq & Hr). split_and!; [|done..]. destruct Hw. by split. Qed.

Lemma score_unit_returns h ref u : Forall (fits docs) h → h !! ref = Some u →
  Web.score_unit o h ref = Ret (<[ref := rescored u]> h).
Proof.
  intros Hh Hu. assert (fits docs u) as Hf by (rewrite Forall_lookup in Hh; by eapply Hh).
  unfold Web.score_unit. rewrite Hu. cbn [of_option mbind outcome_bind]. by rewrite (score_returns u 0 Hf).
Qed.

Lemma score_units_return refs h : Forall (fits docs) h → Forall (λ ref, (ref < length h)%nat) refs →
  ∃ h', ofold (Web.score_unit o) h refs = Ret h' ∧ Forall (fits docs) h' ∧
    ∀ ref, h' !! ref = (if decide (ref ∈ refs) then rescored else id) <$> h !! ref.
Proof.
  intros Hh Hrefs. revert h Hh Hrefs. induction refs as [|ref refs IH]; intros h Hh Hrefs.
  { exists h. split_and!; [done..|]. intros ref. rewrite decide_False by apply not_elem_of_nil. by destruct (h !! ref). }
  apply Forall_cons in Hrefs as [Href Hrefs]. destruct (lookup_lt_is_Some_2 h ref Href) as [u Hu]. cbn [ofold].
  rewrite (score_unit_returns h ref u Hh Hu). cbn [mbind outcome_bind].
  destruct (IH (<[ref := rescored u]> h)) as (h' & Hrun & Hf & Hget).
  { apply Forall_insert; [done|]. apply fits_rescored. rewrite Forall_lookup in Hh. by eapply Hh. }
  { by rewrite length_insert. }
  exists h'. split_and!; [done..|]. intros x. rewrite Hget. destruct (decide (ref = x)) as [<-|Hx].
  - rewrite list_lookup_insert_eq, Hu by done. rewrite (decide_True (P := ref ∈ ref :: refs)) by left. by case_decide.
  - rewrite list_lookup_insert_ne by done. rewrite (decide_ext (x ∈ ref :: refs) (x ∈ refs)); [done|].
    split; [intros [Heq|Hin]%elem_of_cons; [by destruct Hx|exact Hin]|by right].
Qed.
End ready.

(** Sorting by score. *)
Lemma sorted_returns h rs r : Forall (λ ref, (ref < length h)%nat) (SR.units r) →
  ∃ refs us, SR.getSortedResult h (SR.mkSummary rs (Some r)) = Ret refs ∧ refs ≡ₚ SR.units r ∧
    omap (λ ref, h !! ref) refs = us ∧ length us = length refs ∧ StronglySorted (λ a b, SR.score b ≤ SR.score a) us.
Proof.
  intros Hr. assert (∃ us, omap_list (λ ref, u ← of_option (h !! ref); Ret (ref, u)) (SR.units r) = Ret us ∧
    us.*1 = SR.units r ∧ Forall (λ e, h !! e.1 = Some e.2) us) as (us & Hus & Hu1 & Hu2).
  { induction Hr as [|ref refs Hlt _ IH]; [by exists []|]. destruct IH as (us & Hus & Hu1 & Hu2).
    destruct (lookup_lt_is_Some_2 h ref Hlt) as [u Hu]. exists ((ref, u) :: us). cbn [omap_list]. rewrite Hu, Hus. cbn. rewrite Hu1.
    split_and!; [done..|]. by constructor. }
  unfold SR.getSortedResult. cbn [SR.result]. rewrite Hus. cbn [mbind outcome_bind].
  set (srt := js_sort _ us). assert (srt ≡ₚ us) as Hp by apply js_sort_perm.
  exists srt.*1, srt.*2. assert (omap (λ ref, h !! ref) srt.*1 = srt.*2) as Ho.
  { assert (Forall (λ e, h !! e.1 = Some e.2) srt) as Hs by (by rewrite Hp). clear -Hs.
    induction Hs as [|[ref u] l Hu _ IH]; [done|]. cbn [fmap list_fmap fst snd] in *. cbn [omap list_omap]. rewrite Hu. f_equal. exact IH. }
  split_and!; [done|by rewrite Hp, Hu1|done|by rewrite !length_fmap|].
  pose proof (js_sort_sorted (λ a b, SR.score b.2 - SR.score a.2) (λ e, - SR.score e.2) ltac:(cbn; lia) us) as Hs.
  fold srt in Hs. clear -Hs. induction Hs as [|e l _ IH Hall]; [constructor|]. constructor; [exact IH|].
  apply Forall_fmap. eapply Forall_impl; [exact Hall|]. cbn. lia.
Qed.

(** ** Searching on a page *)

(** The units of the result, in order. *)
Definition found (p : Web.t) : list SR.SearchUnit := omap (λ ref, Web.units p !! ref) (default [] (Web._result p)).

(** A page that holds the index of the documents. *)
Record serves (key : jsstr) (docs : list (jsstr * jsstr)) (chars : list Z) (M ddic : Z) (p : Web.t) : Prop := {
  serves_engine : ∃ o, Web._oktavia p = Some o ∧ ready o key docs chars M ddic;
  serves_units : Forall (fits docs) (Web.units p);
  serves_pages : 0 < Web._entriesPerPage p;
}.

(** The units of a result, and the result in the order of the scores. *)
Definition units_of (h : SR.store) (r : SR.SingleResult) : list SR.SearchUnit := omap (λ ref, h !! ref) (SR.units r).

Definition ranked (o : Okt.t) (h : SR.store) (r : SR.SingleResult) (us : list SR.SearchUnit) : Prop :=
  us ≡ₚ rescored o <$> units_of h r ∧ StronglySorted (λ a b, SR.score b ≤ SR.score a) us.

(** The documents a page has found for some queries: each query finds those with a
    match of its word, and the flags of the queries combine them.  The page holds
    the units that the engine returns for the queries, each with its score, the
    best score first.  If nothing is found for several words, the page knows how
    many documents are found without each of them. *)
Definition has_found `{CaseMap} (docs : list (jsstr * jsstr)) (qs : list Query.t) (p : Web.t) : Prop :=
  ∃ o h0 h rs r ps, Web._oktavia p = Some o ∧ Okt.search toLowerCase h0 o qs = Ret (h, SR.mkSummary rs (Some r)) ∧
    Forall2 (answers docs) qs rs ∧ SR.id <$> found p ≡ₚ SR.merged_ids rs ∧ ranked o h r (found p) ∧
    (∃ refs, Web._result p = Some refs ∧ length refs = length (found p)) ∧ Web._proposals p = Some ps ∧
    ps ≡ₚ if decide (SR.merged_ids rs = [] ∧ 2 ≤ zlen qs) then SR.proposal_of rs <$> seqZ 0 (zlen qs) else [].

Lemma omap_ids (h : SR.store) (refs : list nat) : SR.id <$> omap (λ ref, h !! ref) refs = omap (λ ref, (SR.id <$> h) !! ref) refs.
Proof.
  induction refs as [|ref refs IH]; [done|]. cbn [omap list_omap]. rewrite list_lookup_fmap.
  destruct (h !! ref); cbn [fmap option_fmap option_map]; [rewrite fmap_cons; by f_equal|done].
Qed.

Lemma listed_ids h r : SR.result_wf h r → omap (λ ref, (SR.id <$> h) !! ref) (SR.units r) = SR.unitIds r.
Proof.
  intros [_ Hu]. induction Hu as [|ref k refs ks (u & Hu & Hid & _) _ IH]; [done|].
  cbn [omap list_omap]. rewrite list_lookup_fmap, Hu. cbn. by rewrite Hid, IH.
Qed.

Lemma listed_bound h r : SR.result_wf h r → Forall (λ ref, (ref < length h)%nat) (SR.units r).
Proof.
  intros [_ Hu]. induction Hu as [|ref k refs ks (u & Hu & _) _ IH]; constructor; [by eapply lookup_lt_Some|done].
Qed.

Lemma ranked_ids o h r us : SR.result_wf h r → ranked o h r us → SR.id <$> us ≡ₚ SR.unitIds r.
Proof.
  intros Hr [Hp _]. rewrite Hp, <- list_fmap_compose. change (SR.id ∘ rescored o) with SR.id. unfold units_of. by rewrite omap_ids, (listed_ids h r Hr).
Qed.

Section page.
Context `{CaseMap, Runtime} (key : jsstr) (docs : list (jsstr * jsstr)) (chars : list Z) (M ddic : Z).

Lemma pages_bounds p n : 0 < Web._entriesPerPage p → Web.resultSize p = Ret n →
  ∃ m, Web.totalPages p = Ret m ∧ (m - 1) * Web._entriesPerPage p < n ≤ m * Web._entriesPerPage p.
Proof.
  intros He Hn. unfold Web.totalPages. rewrite Hn. cbn [mbind outcome_bind]. rewrite decide_False by lia.
  eexists. split; [reflexivity|]. Z.to_euclidean_division_equations; nia.
Qed.

(** The units in the order of their scores. *)
Lemma sort_found o h rs r :
  ready o key docs chars M ddic → Forall (fits docs) h → SR.result_wf h r →
  ∃ h' refs, Web._sortResult o h (SR.mkSummary rs (Some r)) = Ret (h', refs) ∧
    Forall (fits docs) h' ∧ ranked o h r (omap (λ ref, h' !! ref) refs) ∧ length refs = length (omap (λ ref, h' !! ref) refs).
Proof.
  intros R Hh Hr. unfold Web._sortResult. cbn [SR.result Web.object mbind outcome_bind]. pose proof (listed_bound h r Hr) as Hb.
  destruct (score_units_return o key docs chars M ddic R (SR.units r) h Hh Hb) as (h1 & -> & Hh1 & Hget).
  cbn [mbind outcome_bind]. destruct (sorted_returns h1 rs r) as (refs & us & -> & Hp & Hus & Hlu & Hsrt).
  { eapply Forall_impl; [exact Hb|]. intros ref [u Hu]%lookup_lt_is_Some_2. apply lookup_lt_is_Some_1. rewrite Hget, Hu. by eexists. }
  cbn [mbind outcome_bind]. exists h1, refs. rewrite Hus. split_and!; [done|done| |done]. split; [|done].
  rewrite <- Hus, Hp. unfold units_of. assert (∀ ref, ref ∈ SR.units r → h1 !! ref = rescored o <$> h !! ref) as Hall.
  { intros ref Hin. by rewrite Hget, decide_True. }
  clear -Hall. induction (SR.units r) as [|ref l IH]; [done|]. cbn [omap list_omap]. rewrite Hall by left.
  destruct (h !! ref); cbn [fmap option_fmap option_map list_fmap]; [f_equiv|]; apply IH; intros x Hx; apply Hall; by right.
Qed.

(** What a search stores. *)
Lemma sort_or_propose o h rs r qs :
  ready o key docs chars M ddic → Forall (fits docs) h → SR.result_wf h r → Forall (SR.result_wf h) rs → SR.unitIds r = SR.merged_ids rs →
  Forall2 (answers docs) qs rs →
  ∃ h' refs ps,
    (if decide (SR.size r > 0) then '(h, result) ← Web._sortResult o h (SR.mkSummary rs (Some r)); Ret (h, result, [])
     else if decide (zlen qs > 1) then '(h, proposals) ← SR.getProposal h (SR.mkSummary rs (Some r)); Ret (h, [], proposals)
     else Ret (h, [], [])) = Ret (h', refs, ps) ∧
    Forall (fits docs) h' ∧ ranked o h r (omap (λ ref, h' !! ref) refs) ∧
    length refs = length (omap (λ ref, h' !! ref) refs) ∧
    ps ≡ₚ if decide (SR.merged_ids rs = [] ∧ 2 ≤ zlen qs) then SR.proposal_of rs <$> seqZ 0 (zlen qs) else [].
Proof.
  intros R Hh Hr Hrs Hids Hall. pose proof (SR.wf_size h r Hr) as Hsize. rewrite Hids in Hsize.
  assert (zlen rs = zlen qs) as Hlen by (unfold zlen; by rewrite (Forall2_length _ _ _ Hall)).
  destruct (decide (SR.size r > 0)) as [Hpos|Hzero].
  - destruct (sort_found o h rs r R Hh Hr) as (h1 & refs & Hs & Hh1 & Hrk & Hl). rewrite Hs. cbn [mbind outcome_bind].
    exists h1, refs, []. split_and!; try done.
    rewrite decide_False; [done|]. intros [Hnil _]. rewrite Hnil in Hsize. rewrite zlen_nil in Hsize. lia.
  - assert (SR.merged_ids rs = []) as Hnil.
    { destruct (SR.merged_ids rs) as [|x l]; [done|]. rewrite zlen_cons in Hsize. pose proof (zlen_nonneg l). lia. }
    assert (ranked o h r []) as Hrk.
    { split; [|constructor]. pose proof (listed_ids h r Hr) as Hl. rewrite Hids, Hnil, <- omap_ids in Hl. fold (units_of h r) in Hl.
      by destruct (units_of h r). }
    rewrite Hnil. destruct (decide (zlen qs > 1)).
    + destruct (SR.getProposal_spec h (SR.mkSummary rs (Some r))) as (h1 & ps & Hrun & _ & Hps & _); [cbn; lia|done|].
      exists h1, [], ps. cbn [omap list_omap fmap list_fmap length]. split_and!; try done.
      * by rewrite Hrun.
      * by eapply (getProposal_keeps _ (fits_merge docs)).
      * cbn [SR.sourceResults] in Hps. rewrite Hlen in Hps. rewrite decide_True by (split; [done|lia]). done.
    + exists h, [], []. cbn [omap list_omap fmap list_fmap length]. split_and!; try done.
      rewrite decide_False; [done|]. lia.
Qed.

Lemma page_searches p qs hl :
  serves key docs chars M ddic p → qs ≠ [] → Forall printable qs → Forall (λ q, searchable chars M (Query.word q)) qs →
  highlight_words qs = Ret hl →
  ∃ p' n m, Web.search p (Lang.join [32] (Query.toString <$> qs)) = Ret (p', [(n, m)]) ∧
    serves key docs chars M ddic p' ∧ has_found docs qs p' ∧ Web._currentPage p' = 1 ∧ Web._highlight p' = hl ∧
    Web._entriesPerPage p' = Web._entriesPerPage p ∧ Web.totalPages p' = Ret m ∧
    n = zlen (found p') ∧ (m - 1) * Web._entriesPerPage p < n ≤ m * Web._entriesPerPage p.
Proof.
  intros [(o & Ho & R) Hu He] Hne Hpr Hqs Hhl. unfold Web.search. rewrite Ho, parse_query_string by done.
  unfold QueryStringParser.highlight. cbn [QueryStringParser.queries]. rewrite Hhl. cbn [mbind outcome_bind].
  destruct (search_ready toLowerCase o key docs chars M ddic R (Web.units p) qs Hne Hqs) as (h & rs & r & Hrun & Hr & Hids & Hall & Hrs).
  pose proof (search_fits toLowerCase o key docs chars M ddic R qs _ _ _ Hqs Hrun Hu) as Hh.
  rewrite Hrun. cbn [mbind outcome_bind SR.summary_size SR.result SR.size_of_result].
  destruct (sort_or_propose o h rs r qs R Hh Hr Hrs Hids Hall) as (h' & refs & ps & Hsp & Hh' & Hrk & Hlen & Hps).
  unfold SR.summary_size. cbn [SR.result SR.size_of_result mbind outcome_bind]. rewrite Hsp. cbn [mbind outcome_bind].
  set (p' := Web.mk _ _ _ _ _ _ _ _ _).
  assert (Web.resultSize p' = Ret (zlen refs)) as Hn by done. rewrite Hn. cbn [mbind outcome_bind].
  destruct (pages_bounds p' (zlen refs)) as (m & Hm & Hb); [exact He|done|]. rewrite Hm. cbn [mbind outcome_bind].
  exists p', (zlen refs), m. split_and!; try done; try apply Hb.
  - split; [by exists o|exact Hh'|exact He].
  - exists o, (Web.units p), h, rs, r, ps. split_and!; try done; [|by exists refs].
    rewrite <- Hids. by apply (ranked_ids o h r _ Hr).
  - unfold zlen. by rewrite Hlen.
Qed.
End page.

(** ** The pages *)

(** The title and the address that a document was named with. *)
Definition heading (docs : list (jsstr * jsstr)) (u : SR.SearchUnit) : jsstr * option jsstr :=
  let info := split_char 1 [] (default [] (fst <$> aget docs (SR.id u))) in
  (default [] (info !! 0%nat), info !! 1%nat).

Lemma omap_full {A B} (f : A → option B) (l : list A) :
  length l = length (omap f l) → Forall2 (λ x y, f x = Some y) l (omap f l).
Proof.
  assert (∀ l : list A, (length (omap f l) ≤ length l)%nat) as Hle.
  { clear l. induction l as [|x l IH]; [done|]. cbn [omap list_omap]. destruct (f x); cbn [length]; lia. }
  induction l as [|x l IH]; intros Hl; [constructor|]. cbn [omap list_omap] in *. specialize (Hle l).
  destruct (f x) as [y|] eqn:Hx; cbn [length] in Hl; [|lia]. constructor; [done|]. apply IH. lia.
Qed.

Section results.
Context `{CaseMap, Runtime} (key : jsstr) (docs : list (jsstr * jsstr)) (chars : list Z) (M ddic : Z).

Lemma hit_converts fuel : (12 < fuel)%nat →
  Style.convert fuel (Style.new (jstr "html")) (jstr "<hit>*</hit>") = Ret (Style.span "hit" ++ jstr "*" ++ jstr "</span>").
Proof.
  intros Hfuel. apply (Style.convert_document fuel (jstr "html") (jstr "hit") [] [SaxRoundtrip.Text (jstr "*")]); [..|done];
    SaxRoundtrip.given_document.
Qed.

Lemma positions_nonempty u : fits docs u → SR.getPositions u ≠ [].
Proof.
  intros (_ & _ & (q & pos & Hq) & _) Hnil. pose proof (js_sort_perm (λ a b, SR.position a - SR.position b) (SR.positions u).*2) as Hp.
  fold (SR.getPositions u) in Hp. rewrite Hnil in Hp. apply Permutation_nil_l in Hp. unfold SR.unit_get in Hq.
  by destruct (SR.positions u).
Qed.

Lemma snippet_returns fuel name content u : fits docs u → (12 < fuel)%nat →
  ∃ text, Web.snippet fuel (Style.new (jstr "html")) name content (SR.getPositions u) = Ret text.
Proof.
  intros Hne%positions_nonempty Hfuel. unfold Web.snippet. destruct (if decide _ then _ else _) as [c start].
  destruct (SR.getPositions u) as [|first rest] eqn:Hps; [done|]. cbn [head Web.object mbind outcome_bind].
  set (e := if bool_decide _ then _ else _). generalize (reverse (first :: rest)). intros l.
  assert (∃ c', ofold (Web.mark_hit fuel (Style.new (jstr "html")) start e) c l = Ret c') as [c' ->]; [|by eexists].
  revert c. induction l as [|x l IH]; intros c; [by eexists|]. cbn [ofold].
  assert (∃ c1, Web.mark_hit fuel (Style.new (jstr "html")) start e c x = Ret c1) as [c1 ->]; [|cbn [mbind outcome_bind]; apply IH].
  unfold Web.mark_hit. case_decide; [|by eexists].
  rewrite hit_converts by done. by eexists.
Qed.

(** The name and the text of a document can be read. *)
Lemma document_read o k d : ready o key docs chars M ddic → aget docs k = Some d →
  ∃ m, Okt.getPrimaryMetadata o = Ret m ∧ getInformation m k = Ret d.1 ∧ ∃ content, Meta.getContent (Okt.text o) (Meta._bitVector m) k = Ret content.
Proof.
  intros R Hd. destruct (ready_section _ _ _ _ _ _ R) as (s & Hs & Hm & Hbt & Hn).
  eexists. split; [exact (primary_section o key s (ready_labels _ _ _ _ _ _ R) Hs)|].
  cbn [getInformation metadata_any Sec.section_metadata _bitVector]. pose proof (aget_Some_range _ _ _ Hd). split.
  { unfold Sec.getName, Sec.size. rewrite Hn, zlen_fmap, decide_False by lia. by rewrite aget_fmap, Hd. }
  destruct (doc_part docs k d Hd) as [He Hps]. rewrite (content_substring _ _ Hm Hbt _ _ _ He). unfold Text._getSubstring.
  destruct (document_text docs k d Hd) as (rest & _ & Hle). pose proof (zlen_nonneg rest). pose proof (zlen_nonneg d.2). assert (0 ≤ doc_start docs k) by apply zlen_nonneg.
  destruct (substring_returns (text o) chars _ M ddic (part_start (ends 0 docs.*2) k)
    (doc_start docs k + zlen d.2 - 1 + 1 - part_start (ends 0 docs.*2) k) (ready_text _ _ _ _ _ _ R)) as [w ->]; [rewrite Hps; lia..|].
  eexists. reflexivity.
Qed.

Lemma result_entry_returns fuel p o refs results i ref u :
  Web._oktavia p = Some o → ready o key docs chars M ddic → (12 < fuel)%nat →
  aget refs i = Some ref → Web.units p !! ref = Some u → fits docs u →
  ∃ e, Web.result_entry fuel p o (Style.new (jstr "html")) refs results i = Ret (results ++ [e]) ∧
    (Web.title e, Web.url e) = heading docs u ∧ Web.score e = SR.score u.
Proof.
  intros Ho R Hfuel Hi Hu Hf. pose proof Hf as (_ & (d & Hd) & _). destruct (document_read o _ d R Hd) as (m & Hm & Hi' & content & Hc).
  unfold Web.result_entry. rewrite Hi. cbn [Web.object mbind outcome_bind]. rewrite Hu. cbn [of_option mbind outcome_bind].
  rewrite Hm. cbn [mbind outcome_bind]. rewrite Hi'. cbn [mbind outcome_bind]. rewrite Hc. cbn [mbind outcome_bind]. set (name := default [] _).
  destruct (snippet_returns fuel name content u Hf Hfuel) as [text Ht]. rewrite Ht. cbn [mbind outcome_bind].
  eexists. split; [reflexivity|]. unfold heading. by rewrite Hd.
Qed.

(** A page lists its part of the result. *)
Lemma page_listed fuel p refs k :
  serves key docs chars M ddic p → (12 < fuel)%nat → Web._result p = Some refs → length refs = length (found p) →
  1 ≤ k → (k - 1) * Web._entriesPerPage p ≤ zlen refs →
  ∃ results, Web.getResult fuel (Web.setCurrentPage p k) = Ret results ∧
    (λ e, (Web.title e, Web.url e, Web.score e)) <$> results =
    (λ u, (heading docs u, SR.score u)) <$>
      take (Z.to_nat (Web._entriesPerPage p)) (drop (Z.to_nat ((k - 1) * Web._entriesPerPage p)) (found p)).
Proof.
  intros [(o & Ho & R) Hu He] Hfuel Hres Hlen Hk Hle. set (per := Web._entriesPerPage p) in *.
  assert (Forall2 (λ ref u, Web.units p !! ref = Some u) refs (found p)) as Hall.
  { unfold found in *. rewrite Hres in *. by apply omap_full. }
  unfold Web.getResult, Web.resultSize. cbn [Web.setCurrentPage Web._currentPage Web._entriesPerPage Web._result Web._oktavia].
  fold per. rewrite Hres, Ho. cbn [Web.object mbind outcome_bind].
  set (start := (k - 1) * per) in *. set (last := Z.min (k * per) (zlen refs)).
  assert (0 ≤ start) by (unfold start; nia). assert (0 ≤ last - start ≤ per) by (unfold last, start in *; nia).
  assert (take (Z.to_nat per) (drop (Z.to_nat start) (found p)) = take (Z.to_nat (last - start)) (drop (Z.to_nat start) (found p))) as ->.
  { destruct (decide (k * per ≤ zlen refs)); [f_equal; unfold last, start; nia|].
    rewrite !take_ge; [done|..]; rewrite length_drop, <- Hlen; unfold last, start, zlen in *; nia. }
  loop (λ (j : nat) (rs : list Web.Result), (λ e, (Web.title e, Web.url e, Web.score e)) <$> rs =
    (λ u, (heading docs u, SR.score u)) <$> take j (drop (Z.to_nat start) (found p))) as (rs & -> & Hrs).
  - done.
  - intros j x rs Hx Hrs. apply lookup_seqZ in Hx as [-> Hj].
    destruct (lookup_lt_is_Some_2 refs (Z.to_nat start + j)) as [ref Href]; [unfold last, zlen in *; lia|].
    destruct (Forall2_lookup_l _ _ _ _ _ Hall Href) as (u & Hfu & Hru).
    destruct (result_entry_returns fuel (Web.setCurrentPage p k) o refs rs (start + Z.of_nat j) ref u) as (e & Hrun & Hhd & Hsc);
      try done; [|by rewrite Forall_lookup in Hu; eapply Hu|].
    { rewrite aget_nonneg by lia. by replace (Z.to_nat (start + Z.of_nat j)) with (Z.to_nat start + j)%nat by lia. }
    eexists. split; [exact Hrun|]. rewrite fmap_app, Hrs. rewrite (take_S_r _ _ u) by (by rewrite lookup_drop).
    rewrite fmap_app. cbn [fmap list_fmap]. by rewrite Hhd, Hsc.
  - exists rs. split; [done|]. by rewrite length_seqZ in Hrs.
Qed.
End results.

(** ** From documents to pages *)

(** What is typed for some queries. *)
Definition typed (qs : list Query.t) : jsstr := Lang.join [32] (Query.toString <$> qs).

(** Queries for words that the documents' characters can spell; their words can be
    written in an address. *)
Definition askable (docs : list (jsstr * jsstr)) (qs : list Query.t) : Prop :=
  let chars := alphabet (concat docs.*2) in
  qs ≠ [] ∧ Forall printable qs ∧ Forall (λ q, searchable chars (3 + zlen chars) (Query.word q)) qs ∧
  ∃ hl, highlight_words qs = Ret hl.

(** A page is made, loads a file and runs the searches that were typed, one after the
    other. *)
Definition visit `{CaseMap, Runtime} (file : jsstr) (w : Web.statics) (per : Z) (earlier : list (list Query.t)) (qs : list Query.t)
    : outcome (Web.t * list (Z * Z)) :=
  p ← Web.object (Web._instance (Web.new w per));
  '(p, _) ← Web.loadIndex w p (Bin.base64encode file);
  p ← ofold (λ p text, '(p, _) ← Web.search p text; Ret p) p (typed <$> earlier);
  Web.search p (typed qs).

(** Documents are indexed, and the file is put in a page. *)
Definition browse `{CaseMap, Runtime} (key : jsstr) (docs : list (jsstr * jsstr)) (density : Text.number) (w : Web.statics) (per : Z)
    (earlier : list (list Query.t)) (qs : list Query.t) : outcome (Web.t * list (Z * Z)) :=
  o ← index_documents key docs density;
  file ← dump o;
  visit file w per earlier qs.

Section browsing.
Context `{CaseMap, Runtime} (key : jsstr) (docs : list (jsstr * jsstr)) (ddic : Z) (w : Web.statics) (per : Z).
Context (Hw : Web._stemmer w = None) (Hper : 0 < per).

Abbreviation chars := (alphabet (concat docs.*2)).

Lemma page_loaded o :
  ready o key docs chars (3 + zlen chars) ddic → OktFile.storable o chars (concat docs.*2) →
  ∃ file p0 p1 M, dump o = Ret file ∧ Web._instance (Web.new w per) = Some p0 ∧
    Web.loadIndex w p0 (Bin.base64encode file) = Ret (p1, []) ∧ 3 + zlen chars ≤ M ∧
    serves key docs chars M ddic p1 ∧ Web._entriesPerPage p1 = per.
Proof.
  intros R Hst. destruct (OktFile.load_ready _ _ _ _ _ _ R Hst) as (s & o' & M' & Hd & Hl & HM & R').
  eexists s, _, _, M'. split; [exact Hd|]. split; [reflexivity|]. split.
  { unfold Web.loadIndex. cbn [Web._oktavia Web.object mbind outcome_bind]. rewrite Hw.
    rewrite Bin.base64_roundtrip by exact (dump_units o _ _ s Hst Hd). cbn [mbind outcome_bind]. rewrite Hl. reflexivity. }
  split; [exact HM|]. split; [|done]. split; [by exists o'|constructor|exact Hper].
Qed.

Lemma searches_serve M earlier p :
  3 + zlen chars ≤ M → Forall (askable docs) earlier → serves key docs chars M ddic p → Web._entriesPerPage p = per →
  ∃ p', ofold (λ p text, '(p, _) ← Web.search p text; Ret p) p (typed <$> earlier) = Ret p' ∧
    serves key docs chars M ddic p' ∧ Web._entriesPerPage p' = per.
Proof.
  intros HM Hall. revert p. induction Hall as [|qs earlier (Hne & Hp & Hs & hl & Hhl) _ IH]; intros p Hserves He; [by exists p|].
  cbn [fmap list_fmap ofold].
  destruct (page_searches key docs _ M _ p qs hl Hserves Hne Hp) as (p1 & n & m & Hrun & Hs1 & _ & _ & _ & He1 & _); [|done|].
  - by apply OktFile.searchable_loaded.
  - fold (typed qs) in Hrun. rewrite Hrun. cbn [mbind outcome_bind]. apply IH; [done|congruence].
Qed.

(** What a page finds. *)
Lemma visit_found o earlier qs :
  ready o key docs chars (3 + zlen chars) ddic → OktFile.storable o chars (concat docs.*2) →
  Forall (askable docs) earlier → askable docs qs →
  ∃ file p n m M, dump o = Ret file ∧ visit file w per earlier qs = Ret (p, [(n, m)]) ∧
    serves key docs chars M ddic p ∧ has_found docs qs p ∧
    Web._currentPage p = 1 ∧ Web._entriesPerPage p = per ∧ n = zlen (found p) ∧ (m - 1) * per < n ≤ m * per.
Proof.
  intros R Hst He (Hne & Hp & Hs & hl & Hhl). destruct (page_loaded o R Hst) as (file & p0 & p1 & M & Hd & Hi & Hl & HM & Hserves & Hper1).
  destruct (searches_serve M earlier p1 HM He Hserves Hper1) as (p2 & Hrun2 & Hserves2 & Hper2).
  destruct (page_searches key docs _ M _ p2 qs hl Hserves2 Hne Hp (OktFile.searchable_loaded _ M _ HM Hs) Hhl)
    as (p3 & n & m & Hrun3 & Hserves3 & Hf & Hc & _ & Hper3 & _ & Hn & Hm).
  exists file, p3, n, m, M. rewrite Hper2 in *. split; [exact Hd|]. split_and!; try done; [|lia..].
  unfold visit. rewrite Hi. cbn [Web.object mbind outcome_bind]. rewrite Hl. cbn [mbind outcome_bind].
  rewrite Hrun2. cbn [mbind outcome_bind]. exact Hrun3.
Qed.

(** The pages that show it. *)
Lemma visit_listed fuel M qs p n m k :
  (12 < fuel)%nat → serves key docs chars M ddic p → has_found docs qs p → Web._entriesPerPage p = per →
  n = zlen (found p) → (m - 1) * per < n ≤ m * per → 1 ≤ k ≤ m →
  ∃ results, Web.getResult fuel (Web.setCurrentPage p k) = Ret results ∧
    (λ e, (Web.title e, Web.url e, Web.score e)) <$> results =
    (λ u, (heading docs u, SR.score u)) <$> take (Z.to_nat per) (drop (Z.to_nat ((k - 1) * per)) (found p)).
Proof.
  intros Hfuel Hs (o & h0 & h & rs & r & ps & _ & _ & _ & _ & _ & (refs & Hrefs & Hlen) & _) Hp Hn Hm Hk.
  rewrite <- Hp. apply (page_listed key docs _ M _ fuel p refs k Hs Hfuel Hrefs Hlen); [lia|].
  rewrite Hp. unfold zlen in *. rewrite Hlen. nia.
Qed.
End browsing.

Lemma browse_visit `{CaseMap, Runtime} key docs density w per earlier qs :
  indexable docs → OktFile.names_ok key docs → ∃ o,
  ready o key docs (alphabet (concat docs.*2)) (3 + zlen (alphabet (concat docs.*2))) (Text.cacheRange density) ∧
  OktFile.storable o (alphabet (concat docs.*2)) (concat docs.*2) ∧
  ∀ file r, dump o = Ret file → visit file w per earlier qs = r → browse key docs density w per earlier qs = r.
Proof.
  intros Hx (Hkey & Hnames & Hc). destruct (index_engine key docs density Hx) as (o & Ho & R & Hlab & Hse). exists o. split; [exact R|].
  split; [by eapply OktFile.ready_storable|]. intros file r Hd Hv. unfold browse. rewrite Ho. cbn [mbind outcome_bind]. rewrite Hd. exact Hv.
Qed.

(** C2: documents that were indexed and saved without a stemmer are searched by a page.
    Loading the file and any searches before return; then the queries typed in the
    search box, for words of characters of the documents that do not end in the
    last of them, find exactly the documents with a match of what they ask for, the
    best score first, and the callback is told their number and the number of pages
    that hold them.  A match may run over the end of its document, but only if the
    word has the last character of the document. *)
Theorem page_search `{CaseMap, Runtime} key docs density w per earlier qs
  (Hx : indexable docs) (Hok : OktFile.names_ok key docs) (Hw : Web._stemmer w = None) (Hper : 0 < per)
  (He : Forall (askable docs) earlier) (Hqs : askable docs qs) :
  ∃ p n m, browse key docs density w per earlier qs = Ret (p, [(n, m)]) ∧ has_found docs qs p ∧
    Web.currentPage p = 1 ∧ n = zlen (found p) ∧ (m - 1) * per < n ≤ m * per.
Proof.
  destruct (browse_visit key docs density w per earlier qs Hx Hok) as (o & R & Hst & Hb).
  destruct (visit_found key docs _ w per Hw Hper o earlier qs R Hst He Hqs) as (file & p & n & m & M & Hd & Hv & _ & Hf & Hc & _ & Hn & Hm).
  exists p, n, m. split; [exact (Hb _ _ Hd Hv)|]. split; [exact Hf|]. split; [exact Hc|]. split; [exact Hn|exact Hm].
Qed.

(** C22: every page of a result can be shown.  Page [k] lists the titles, addresses
    and scores of its part of the found documents, as many as fit on it, in order:
    the pages together list all of them. *)
Theorem page_results `{CaseMap, Runtime} key docs density w per earlier qs fuel
  (Hx : indexable docs) (Hok : OktFile.names_ok key docs) (Hw : Web._stemmer w = None) (Hper : 0 < per)
  (He : Forall (askable docs) earlier) (Hqs : askable docs qs) (Hfuel : (12 < fuel)%nat) :
  ∃ p n m, browse key docs density w per earlier qs = Ret (p, [(n, m)]) ∧
    ∀ k, 1 ≤ k ≤ m → ∃ results, Web.getResult fuel (Web.setCurrentPage p k) = Ret results ∧
      (λ e, (Web.title e, Web.url e, Web.score e)) <$> results =
      (λ u, (heading docs u, SR.score u)) <$> take (Z.to_nat per) (drop (Z.to_nat ((k - 1) * per)) (found p)).
Proof.
  destruct (browse_visit key docs density w per earlier qs Hx Hok) as (o & R & Hst & Hb).
  destruct (visit_found key docs _ w per Hw Hper o earlier qs R Hst He Hqs) as (file & p & n & m & M & Hd & Hv & Hs & Hf & _ & Hp & Hn & Hm).
  exists p, n, m. split; [exact (Hb _ _ Hd Hv)|]. intros k Hk. by eapply visit_listed.
Qed.

(** ** The numbers of the pages *)

Lemma elem_of_pages k a b : a ≤ k ≤ b → decimal k ∈ Web.pages a b.
Proof. intros Hk. unfold Web.pages. apply list_elem_of_fmap. exists k. split; [done|]. apply elem_of_seqZ. lia. Qed.

Lemma length_pages a b : zlen (Web.pages a b) = Z.max 0 (b - a + 1).
Proof. unfold Web.pages, zlen. rewrite length_fmap, length_seqZ. lia. Qed.

(** C34: on every page of a result there are links to the first page, the last page
    and the page itself, and at most eleven links and dots. *)
Theorem page_links p total (Ht : Web.totalPages p = Ret total) (Hp : 1 ≤ Web._currentPage p ≤ total) :
  ∃ l, Web.pageIndexes p = Ret l ∧ zlen l ≤ 11 ∧
    decimal 1 ∈ l ∧ decimal (Web._currentPage p) ∈ l ∧ decimal total ∈ l.
Proof.
  unfold Web.pageIndexes. rewrite Ht. cbn [mbind outcome_bind]. eexists. split; [reflexivity|].
  repeat case_decide; rewrite ?zlen_app, ?zlen_cons, ?zlen_nil, ?length_pages; (split; [lia|]);
    rewrite ?elem_of_app, ?elem_of_cons; split_and!; try (by auto using elem_of_pages with lia).
  all: try (left; apply elem_of_pages; lia).
  all: try (right; apply elem_of_pages; lia).
  all: try (right; left; apply elem_of_pages; lia).
  all: tauto.
Qed.

(** ** Examples *)

Definition empty_page : Web.t := Web.mk (Some Okt.new) None None [] 10 1 None None [].

(** A search before the index is there is not kept for later. *)
Example early_search : @Web.search ascii_case empty_page (jstr "word") = Throw "TypeError".
Proof. vm_compute. reflexivity. Qed.

(** So does a search without words. *)
Example empty_search : @Web.search ascii_case empty_page [] = Throw "TypeError".
Proof. vm_compute. reflexivity. Qed.

(** A hit inside of the title, which is cut off, is marked elsewhere. *)
Example title_hit :
  @Web.snippet ascii_case plain_runtime 20 (Style.new (jstr "html")) (jstr "Title") ([1] ++ jstr "Title" ++ [1] ++ jstr "this is the text")
    [SR.mkPosition (jstr "Title") 1 false] =
  Ret (jstr "this is th<span class=" ++ [34] ++ jstr "hit" ++ [34] ++ jstr ">e tex</span>t ...<br/>").
Proof. vm_compute. reflexivity. Qed.

(** Dollar signs of a hit are taken for references. *)
Example dollar_hit :
  @Web.snippet ascii_case plain_runtime 20 (Style.new (jstr "html")) (jstr "Title") (jstr "it costs $$ 5") [SR.mkPosition (jstr "$$") 9 false] =
  Ret (jstr "it costs <span class=" ++ [34] ++ jstr "hit" ++ [34] ++ jstr ">$</span> 5 ...<br/>").
Proof. vm_compute. reflexivity. Qed.

(** ** Instances *)

Definition two_words : list Query.t := [Query.mk (jstr "world") false false false; Query.mk (jstr "hello") true false true].

Lemma two_words_askable : askable sample_docs two_words.
Proof.
  split; [done|]. split_and!.
  - repeat (apply Forall_cons; split); [unfold printable; cbn [Query.raw Query.word]; decided..|done].
  - repeat (apply Forall_cons; split); [unfold searchable; decided..|done].
  - eexists. vm_compute. reflexivity.
Qed.

Lemma page_search_witness : ∃ p n m,
  @browse ascii_case plain_runtime (jstr "document") sample_docs (Text.percent 5) (Web.mkStatics None None) 10 [two_words] two_words = Ret (p, [(n, m)]) ∧
  has_found sample_docs two_words p.
Proof.
  destruct (@page_search ascii_case plain_runtime (jstr "document") sample_docs (Text.percent 5) (Web.mkStatics None None) 10 [two_words] two_words
    sample_docs_ok OktFile.sample_names_ok eq_refl ltac:(lia) ltac:(apply Forall_singleton, two_words_askable) two_words_askable)
    as (p & n & m & Hrun & Hf & _).
  exists p, n, m. split; [exact Hrun|exact Hf].
Defined.

Lemma page_results_witness : ∃ p n m,
  @browse ascii_case plain_runtime (jstr "document") sample_docs (Text.percent 5) (Web.mkStatics None None) 1 [] two_words = Ret (p, [(n, m)]) ∧
  ∀ k, 1 ≤ k ≤ m → ∃ results, @Web.getResult ascii_case plain_runtime 13 (Web.setCurrentPage p k) = Ret results.
Proof.
  destruct (@page_results ascii_case plain_runtime (jstr "document") sample_docs (Text.percent 5) (Web.mkStatics None None) 1 [] two_words 13
    sample_docs_ok OktFile.sample_names_ok eq_refl ltac:(lia) ltac:(constructor) two_words_askable ltac:(lia)) as (p & n & m & Hrun & Hk).
  exists p, n, m. split; [exact Hrun|]. intros k Hk'. destruct (Hk k Hk') as (results & Hres & _). exists results. exact Hres.
Defined.

Lemma page_links_witness : ∃ l,
  Web.pageIndexes (Web.mk None None None [] 10 7 (Some (replicate 150 0%nat)) None []) = Ret l ∧ decimal 7 ∈ l.
Proof.
  destruct (page_links (Web.mk None None None [] 10 7 (Some (replicate 150 0%nat)) None []) 15 ltac:(vm_compute; reflexivity)) as (l & Hl & _ & _ & Hc & _).
  - cbn. lia.
  - exists l. split; [exact Hl|exact Hc].
Defined.
