(* ===== verification/HtmlParser.v ===== *)
(** * Reading HTML files

    Model of [src/misc/oktavia/src/htmlparser.jsx]: the handler that puts the texts
    of an HTML file in the engine, with a section for each heading, and the filter
    that chooses the elements to read.  The file system is left out: a file is its
    path and its contents. *)

From S2P Require Import Prelude JsObject Lang Text Metadata Sections Blocks Oktavia Sax.

Local Open Scope Z_scope.
Local Open Scope js_scope.

Module Html.
Import Sax Okt.

(** ** The filter *)

Record TagFilter := mkFilter { tags : list jsstr; ids : list jsstr; classes : list jsstr; tagAndClasses : list jsstr }.

Definition add_filter (f : TagFilter) (filter : jsstr) : TagFilter :=
  match head filter with
  | Some 35 => mkFilter (tags f) (ids f ++ [drop 1 filter]) (classes f) (tagAndClasses f)
  | Some 46 => mkFilter (tags f) (ids f) (classes f ++ [drop 1 filter]) (tagAndClasses f)
  | _ =>
    if decide (46 ∈ filter) then mkFilter (tags f ++ [filter]) (ids f) (classes f) (tagAndClasses f)
    else mkFilter (tags f) (ids f) (classes f) (tagAndClasses f ++ [filter])
  end.

Definition filter_new (filters : list jsstr) : TagFilter := foldl add_filter (mkFilter [] [] [] []) filters.

(** The value of an attribute that is there and not empty. *)
Definition given (attributes : list (jsstr * jsstr)) (n : jsstr) : option jsstr :=
  match Obj.get attributes n with Some (c :: v) => Some (c :: v) | _ => None end.

Definition match_tag (f : TagFilter) (tagname : jsstr) (attributes : list (jsstr * jsstr)) : bool :=
  if decide (tagname ∈ tags f) then true
  else if match given attributes (jstr "id") with Some i => bool_decide (i ∈ ids f) | None => false end then true
  else
    match given attributes (jstr "class") with
    | Some c => bool_decide (c ∈ classes f ∨ tagname ++ [46] ++ c ∈ tagAndClasses f)
    | None => false
    end.

(** ** The handler *)

Record env := mkEnv { filter : TagFilter; filepath : jsstr; unit : Z }.

Record handler := mk {
  startParse : bool;
  startTag : jsstr;
  stack : list jsstr;
  currentLink : jsstr;
  currentTitle : jsstr;
  lastId : jsstr;
  waitTitle : bool;
  inCode : bool;
  addText : bool;
}.

Definition new : handler := mk false [] [] [] [] [] false false false.

Definition push_tag (tagname : jsstr) (h : handler) : handler :=
  mk (startParse h) (startTag h) (stack h ++ [tagname]) (currentLink h) (currentTitle h) (lastId h) (waitTitle h) (inCode h) (addText h).
Definition start_at (tagname : jsstr) (h : handler) : handler :=
  mk true tagname (stack h ++ [tagname]) (currentLink h) (currentTitle h) (lastId h) (waitTitle h) (inCode h) (addText h).
Definition stop (h : handler) : handler :=
  mk false (startTag h) (stack h) (currentLink h) (currentTitle h) (lastId h) (waitTitle h) (inCode h) (addText h).
Definition set_link (link : jsstr) (h : handler) : handler :=
  mk (startParse h) (startTag h) (stack h) link (currentTitle h) (lastId h) (waitTitle h) (inCode h) (addText h).
Definition set_id (id : jsstr) (h : handler) : handler :=
  mk (startParse h) (startTag h) (stack h) (currentLink h) (currentTitle h) id (waitTitle h) (inCode h) (addText h).
Definition set_title (title : jsstr) (wait : bool) (h : handler) : handler :=
  mk (startParse h) (startTag h) (stack h) (currentLink h) title (lastId h) wait (inCode h) (addText h).
Definition set_code (code : bool) (h : handler) : handler :=
  mk (startParse h) (startTag h) (stack h) (currentLink h) (currentTitle h) (lastId h) (waitTitle h) code (addText h).
Definition set_added (added : bool) (h : handler) : handler :=
  mk (startParse h) (startTag h) (stack h) (currentLink h) (currentTitle h) (lastId h) (waitTitle h) (inCode h) added.

Definition section : jsstr := jstr "section".
Definition block : jsstr := jstr "tag".

Definition headingId : list jsstr := [jstr "h1"; jstr "h2"; jstr "h3"; jstr "h4"; jstr "h5"; jstr "h6"].
Definition breaking : list jsstr := [jstr "p"; jstr "div"; jstr "blockquote"].

Definition set_tail (h : handler) (o : Okt.t) : outcome Okt.t :=
  section_setTail o section (currentTitle h ++ Text.eob ++ currentLink h).

Definition onready (e : env) (h : handler) : handler := set_code false (set_link (filepath e) h).

(** A heading starts a section if its level is below [unit]. *)
Definition open_heading (e : env) (tagname : jsstr) (h : handler) (o : Okt.t) : outcome (handler * Okt.t) :=
  '(h, o) ←
    (if decide (indexOf headingId tagname < unit e) then
       o ← (if decide (contentSize o > 0) then set_tail h o else Ret o);
       Ret (set_title [] true (set_link (filepath e ++ [35] ++ lastId h) h), o)
     else Ret (h, o));
  o ← addEndOfBlock o;
  o ← block_startBlock o block tagname;
  Ret (h, o).

Definition open_inside (e : env) (tagname : jsstr) (attributes : list (jsstr * jsstr)) (h : handler) (o : Okt.t)
    : outcome (handler * Okt.t) :=
  let h := push_tag tagname h in
  let h := match Obj.get attributes (jstr "id") with Some i => set_id i h | None => h end in
  if decide (tagname ∈ headingId) then open_heading e tagname h o
  else if decide (tagname = jstr "pre") then
    o ← block_startBlock o block (jstr "pre");
    o ← addEndOfBlock o;
    Ret (set_code true h, o)
  else if decide (tagname ∈ breaking) then o ← addEndOfBlock o; Ret (h, o)
  else Ret (h, o).

Definition onopentag (e : env) (tagname : jsstr) (attributes : list (jsstr * jsstr)) (h : handler) (o : Okt.t)
    : outcome (handler * Okt.t) :=
  '(h, o) ←
    (if startParse h then open_inside e tagname attributes h o
     else Ret (if match_tag (filter e) tagname attributes then start_at tagname h else h, o));
  Ret (if decide (tagname = jstr "title") then set_title [] true h else h, o).

(** A line break after a text. *)
Definition end_line (h : handler) (o : Okt.t) : outcome (handler * Okt.t) :=
  if addText h then o ← addWord o [10]; Ret (set_added false h, o) else Ret (h, o).

Definition close_inside (tagname : jsstr) (h : handler) (o : Okt.t) : outcome (handler * Okt.t) :=
  if decide (tagname ∈ headingId) then
    o ← block_endBlock o block;
    '(h, o) ← end_line h o;
    Ret (set_title (currentTitle h) false h, o)
  else if decide (tagname = jstr "pre") then
    o ← block_endBlock o block;
    end_line (set_code false h) o
  else if decide (tagname ∈ breaking) then end_line h o
  else Ret (h, o).

Definition onclosetag (tagname : jsstr) (h : handler) (o : Okt.t) : outcome (handler * Okt.t) :=
  '(h, o) ←
    (if startParse h then
       '(h, o) ← close_inside tagname h o;
       Ret (if decide (stack h = []) then stop h else h, o)
     else Ret (h, o));
  Ret (if decide (tagname = jstr "title") then set_title (currentTitle h) false h else h, o).

Section handler.
Context `{CaseMap, Runtime}.

Definition ontext (text : jsstr) (h : handler) (o : Okt.t) : outcome (handler * Okt.t) :=
  '(h, o) ←
    (if startParse h then
       o ← addWord_stemming toLowerCase o text (negb (inCode h));
       Ret (set_added true h, o)
     else Ret (h, o));
  Ret (if waitTitle h then set_title (currentTitle h ++ text) true h else h, o).

Definition handle (e : env) (st : handler * Okt.t) (ev : event) : outcome (handler * Okt.t) :=
  let '(h, o) := st in
  match ev with
  | Sax.onready => Ret (onready e h, o)
  | Sax.onopentag tagname attributes => onopentag e tagname attributes h o
  | Sax.onclosetag tagname => onclosetag tagname h o
  | Sax.ontext text => ontext text h o
  | Sax.onend => o ← set_tail h o; Ret (h, o)
  | _ => Ret (h, o)
  end.

(** ** The parser *)

Record t := mkParser { oktavia : Okt.t; p_unit : Z; prefix : jsstr; p_filter : TagFilter }.

Definition parser_new (unit : Z) (prefix : jsstr) (filter : list jsstr) (stemmer : option (jsstr → jsstr)) : outcome t :=
  o ← addSection Okt.new section;
  o ← addBlock o block;
  let o := match stemmer with Some s => setStemmer o s | None => o end in
  Ret (mkParser o unit prefix (filter_new filter)).

(** [relative] is the path of the file below the root, [lines] its contents; the
    handler takes the calls of the SAX parser in order. *)
Definition parse (fuel : nat) (p : t) (relative lines : jsstr) : outcome t :=
  let e := mkEnv (p_filter p) (prefix p ++ relative) (p_unit p) in
  s ← Sax.parse fuel lines (Sax.new false);
  '(_, o) ← ofold (handle e) (new, oktavia p) (events s);
  Ret (mkParser o (p_unit p) (prefix p) (p_filter p)).

Definition dump (p : t) (cacheDensity : Text.number) : outcome jsstr :=
  o ← Okt.build (oktavia p) cacheDensity;
  Okt.dump o.

End handler.
End Html.
