(* ===== verification/HtmlIndex.v ===== *)
(** * What the HTML reader puts in the engine

    The handler of [HtmlParser.v] is described by a function on lists: the sections
    that are finished, and the text after the last of them.  Where that function has
    a result, the handler returns and the engine holds these sections; so they are
    found by the search page. *)

From S2P Require Import Prelude JsObject Binary BitVector FMIndex Lang Text SearchResult Metadata Sections Blocks Query.
From S2P Require Import Oktavia OktaviaSearch OktaviaFile Sax SaxNesting SaxRoundtrip WebSearch WebResults HtmlParser.

Local Open Scope Z_scope.
Local Open Scope js_scope.

Import Meta Okt OktSearch.

(** ** Transcripts *)

Record draft := mkDraft { finished : list (jsstr * jsstr); current : jsstr; inside : bool }.

Definition written (d : draft) : list Z := concat (finished d).*2 ++ current d.

Definition start_draft : draft := mkDraft [] [] false.

(** A text that still fits in the index. *)
Definition write (w : jsstr) (d : draft) : option draft :=
  if decide (zlen (written d) + zlen w < 2 ^ 31 - 2) then Some (mkDraft (finished d) (current d ++ w) (inside d)) else None.

(** A section must not be empty. *)
Definition finish_section (name : jsstr) (d : draft) : option draft :=
  if decide (current d = []) then None else Some (mkDraft (finished d ++ [(name, current d)]) [] (inside d)).

(** Blocks do not nest, and none starts before the first character. *)
Definition start_block (d : draft) : option draft :=
  if decide (inside d = true ∨ written d = []) then None else Some (mkDraft (finished d) (current d) true).
Definition end_block (d : draft) : option draft :=
  if inside d then Some (mkDraft (finished d) (current d) false) else None.

Section transcript.
Context `{CaseMap, Runtime}.

(** A word with its first letter in lower case. *)
Definition small (w : jsstr) : jsstr := toLowerCase (js_slice w 0 1) ++ js_slice w 1 (zlen w).

Definition inherited_name (k : jsstr) : bool := bool_decide (k ∈ (λ e, jstr e.1) <$> Obj.inherited).

(** A word that the table of words can take: it is in lower case, or its entry is
    not named like a method of objects. *)
Definition word_ok (w : jsstr) : bool :=
  bool_decide (w = small w) || bool_decide (small w = []) ||
  (negb (inherited_name (small w)) && bool_decide (Bin.string_ok (small w)) && bool_decide (zlen w ≤ 32767)).

Definition write_text (w : jsstr) (d : draft) : option draft :=
  if decide (w ≠ [] ∧ Forall Text.plain w ∧ forallb word_ok (Lang.split_spaces w [] false) = true) then write w d else None.

Import Html.

Definition t_tail (h : handler) (d : draft) : option draft := finish_section (currentTitle h ++ Text.eob ++ currentLink h) d.

Definition t_open_heading (e : env) (tagname : jsstr) (h : handler) (d : draft) : option (handler * draft) :=
  '(h, d) ←
    (if decide (indexOf headingId tagname < unit e) then
       d ← (if decide (written d ≠ []) then t_tail h d else Some d);
       Some (set_title [] true (set_link (filepath e ++ [35] ++ lastId h) h), d)
     else Some (h, d));
  d ← write [1] d;
  d ← start_block d;
  Some (h, d).

Definition t_open_inside (e : env) (tagname : jsstr) (attributes : list (jsstr * jsstr)) (h : handler) (d : draft)
    : option (handler * draft) :=
  let h := push_tag tagname h in
  let h := match Obj.get attributes (jstr "id") with Some i => set_id i h | None => h end in
  if decide (tagname ∈ headingId) then t_open_heading e tagname h d
  else if decide (tagname = jstr "pre") then
    d ← start_block d;
    d ← write [1] d;
    Some (set_code true h, d)
  else if decide (tagname ∈ breaking) then d ← write [1] d; Some (h, d)
  else Some (h, d).

Definition t_open (e : env) (tagname : jsstr) (attributes : list (jsstr * jsstr)) (h : handler) (d : draft) : option (handler * draft) :=
  '(h, d) ←
    (if startParse h then t_open_inside e tagname attributes h d
     else Some (if match_tag (filter e) tagname attributes then start_at tagname h else h, d));
  Some (if decide (tagname = jstr "title") then set_title [] true h else h, d).

Definition t_end_line (h : handler) (d : draft) : option (handler * draft) :=
  if addText h then d ← write [10] d; Some (set_added false h, d) else Some (h, d).

Definition t_close_inside (tagname : jsstr) (h : handler) (d : draft) : option (handler * draft) :=
  if decide (tagname ∈ headingId) then
    d ← end_block d;
    '(h, d) ← t_end_line h d;
    Some (set_title (currentTitle h) false h, d)
  else if decide (tagname = jstr "pre") then
    d ← end_block d;
    t_end_line (set_code false h) d
  else if decide (tagname ∈ breaking) then t_end_line h d
  else Some (h, d).

Definition t_close (tagname : jsstr) (h : handler) (d : draft) : option (handler * draft) :=
  '(h, d) ←
    (if startParse h then
       '(h, d) ← t_close_inside tagname h d;
       Some (if decide (stack h = []) then stop h else h, d)
     else Some (h, d));
  Some (if decide (tagname = jstr "title") then set_title (currentTitle h) false h else h, d).

Definition t_text (text : jsstr) (h : handler) (d : draft) : option (handler * draft) :=
  '(h, d) ←
    (if startParse h then d ← write_text text d; Some (set_added true h, d) else Some (h, d));
  Some (if waitTitle h then set_title (currentTitle h ++ text) true h else h, d).

Definition transcribe (e : env) (st : handler * draft) (ev : Sax.event) : option (handler * draft) :=
  let '(h, d) := st in
  match ev with
  | Sax.onready => Some (onready e h, d)
  | Sax.onopentag tagname attributes => t_open e tagname attributes h d
  | Sax.onclosetag tagname => t_close tagname h d
  | Sax.ontext text => t_text text h d
  | Sax.onend => d ← t_tail h d; Some (h, d)
  | _ => Some (h, d)
  end.

End transcript.

(** ** The engine while a file is read *)

(** The table of words, with at most [n] entries of at most [n] words. *)
Definition stems_ok (table : list (jsstr * list jsstr)) (n : Z) : Prop :=
  Obj.wf table ∧ Forall (λ e, Bin.string_ok e.1 ∧ Forall Bin.string_ok e.2 ∧ zlen e.2 ≤ n) table ∧ zlen table ≤ n.

(** The engine holds a draft; there are at most [k] blocks more than characters. *)
Record drafted (k : Z) (o : Okt.t) (d : draft) : Prop := {
  drafted_text : Text.holds (text o) (alphabet (written d)) (written d);
  drafted_length : zlen (written d) < 2 ^ 31 - 2;
  drafted_labels : _metadataLabels o = [Html.section; Html.block];
  drafted_section : ∃ s, Obj.get (_metadatas o) Html.section = Some (MSection s) ∧ marks (Sec.bv s) (ends 0 (finished d).*2) ∧
    BV._r (Sec.bv s) = [] ∧ Sec._names s = (finished d).*1;
  drafted_block : ∃ b, Obj.get (_metadatas o) Html.block = Some (MBlock b) ∧ BV.wf (Blk.bv b) ∧ BV._r (Blk.bv b) = [] ∧
    Blk._start b = inside d ∧ Forall Bin.string_ok (Blk._names b) ∧ zlen (Blk._names b) ≤ zlen (written d) + k;
  drafted_stemmer : _stemmer o = None;
  drafted_stems : stems_ok (_stemmingResult o) (2 * zlen (written d));
  drafted_inside : inside d = true → written d ≠ [];
}.

Lemma drafted_weaken k k' o d : drafted k o d → k ≤ k' → drafted k' o d.
Proof. intros [? ? ? ? (b & ? & ? & ? & ? & ? & ?) ? ? ?] Hk. split; try done. exists b. split_and!; try done. lia. Qed.

Lemma stems_ok_weaken table n n' : stems_ok table n → n ≤ n' → stems_ok table n'.
Proof.
  intros (Hwf & Hall & Hlen) Hn. split_and!; [done| |lia]. eapply Forall_impl; [exact Hall|]. cbn. intros e (? & ? & ?). split_and!; [done..|lia].
Qed.

Lemma content_positive k o d : drafted k o d → contentSize o > 0 ↔ written d ≠ [].
Proof.
  intros [Ht _ _ _ _ _ _ _]. unfold contentSize. rewrite (Text.contentSize_holds _ _ _ Ht). split.
  - intros Hp Hnil. rewrite Hnil, zlen_nil in Hp. lia.
  - intros Hne. destruct (written d); [done|]. rewrite zlen_cons. pose proof (zlen_nonneg l). lia.
Qed.

Lemma write_written w d d' : write w d = Some d' →
  written d' = written d ++ w ∧ finished d' = finished d ∧ inside d' = inside d ∧ zlen (written d') < 2 ^ 31 - 2.
Proof.
  unfold write. case_decide as Hl; [|done]. intros [= <-]. unfold written. cbn [finished current inside].
  split_and!; [by rewrite app_assoc|done|done|]. unfold written in Hl. rewrite !zlen_app in *. lia.
Qed.

Lemma addWord_drafted k o d w d' :
  drafted k o d → Forall Text.plain w → w ≠ [] → write w d = Some d' → ∃ o', addWord o w = Ret o' ∧ drafted k o' d'.
Proof.
  intros [Ht Hl Hlab Hsec (b & Hb & Hbw & Hbr & Hbs & Hbn & Hbl) Hst Hse Hin] Hp Hne Hw.
  destruct (write_written w d d' Hw) as (Hwr & Hf & Hi & Hlen).
  destruct (Text.addWord_holds _ _ _ w Ht Hp Hne) as (p & Hadd & Hh). unfold addWord. rewrite Hadd. cbn [mbind outcome_bind].
  assert (zlen (written d) ≤ zlen (written d')) as Hge by (rewrite Hwr, zlen_app; pose proof (zlen_nonneg w); lia).
  eexists. split; [reflexivity|]. split; cbn [with_text text _metadataLabels _metadatas _stemmer _stemmingResult]; try done.
  - rewrite Hwr, alphabet_app by done. exact Hh.
  - by rewrite Hf.
  - exists b. split_and!; try done; [congruence|lia].
  - eapply stems_ok_weaken; [exact Hse|lia].
  - rewrite Hwr. intros _ Hnil. by apply app_nil in Hnil as [_ ?].
Qed.

Lemma addEndOfBlock_drafted k o d d' :
  drafted k o d → write [1] d = Some d' → ∃ o', addEndOfBlock o = Ret o' ∧ drafted (k - 1) o' d'.
Proof.
  intros [Ht Hl Hlab Hsec (b & Hb & Hbw & Hbr & Hbs & Hbn & Hbl) Hst Hse Hin] Hw.
  destruct (write_written _ d d' Hw) as (Hwr & Hf & Hi & Hlen).
  destruct (Text.addEndOfBlock_holds _ _ _ Ht) as (p & Hadd & Hh). unfold addEndOfBlock. rewrite Hadd. cbn [mbind outcome_bind].
  assert (zlen (written d') = zlen (written d) + 1) as Hge by (rewrite Hwr, zlen_app; done).
  eexists. split; [reflexivity|]. split; cbn [with_text text _metadataLabels _metadatas _stemmer _stemmingResult]; try done.
  - rewrite Hwr, alphabet_mark. exact Hh.
  - by rewrite Hf.
  - exists b. split_and!; try done; [congruence|lia].
  - eapply stems_ok_weaken; [exact Hse|lia].
  - rewrite Hwr. intros _ Hnil. by apply app_nil in Hnil as [_ ?].
Qed.

Lemma setTail_drafted k o d name d' :
  drafted k o d → finish_section name d = Some d' → ∃ o', section_setTail o Html.section name = Ret o' ∧ drafted k o' d'.
Proof.
  intros [Ht Hl Hlab (s & Hs & Hm & Hr & Hn) (b & Hb & Hbw & Hbr & Hbs & Hbn & Hbl) Hst Hse Hin]. unfold finish_section.
  case_decide as Hne; [done|]. intros [= <-].
  assert (written (mkDraft (finished d ++ [(name, current d)]) [] (inside d)) = written d) as Hwr.
  { unfold written. cbn [finished current]. rewrite fmap_app, concat_app. cbn. by rewrite !app_nil_r. }
  unfold section_setTail. rewrite (section_of o Html.section s) by (done || (rewrite Hlab; left)). cbn [mbind outcome_bind].
  eexists. split; [reflexivity|].
  assert (contentSize o = zlen (concat ((finished d).*2 ++ [current d]))) as ->.
  { unfold contentSize. rewrite (Text.contentSize_holds _ _ _ Ht). unfold written. rewrite concat_app. cbn [concat]. by rewrite app_nil_r. }
  split; cbn [with_metadata text _metadataLabels _metadatas _stemmer _stemmingResult finished inside]; rewrite ?Hwr; try done.
  - eexists. rewrite Obj.get_put, decide_True by done. split; [reflexivity|]. rewrite !fmap_app. cbn [fmap list_fmap fst snd].
    split_and!; cbn [Sec.setTail Sec.bv Sec._names]; [|done|by rewrite Hn].
    apply set_end; [done..|]. unfold written in Hl. rewrite concat_app. cbn [concat]. rewrite app_nil_r. lia.
  - exists b. rewrite Obj.get_put, decide_False by done. done.
Qed.

Lemma block_of o key b : key ∈ _metadataLabels o → Obj.get (_metadatas o) key = Some (MBlock b) → object (getBlock o key) = Ret b.
Proof.
  intros Hl Hm. unfold object, getBlock, getMetadata. rewrite Hm. pose proof (indexOf_range _ _ Hl). by rewrite decide_False by lia.
Qed.

(** A mark for a block. *)
Lemma mark_drafted k k' o d b names start :
  drafted k o d → written d ≠ [] → Obj.get (_metadatas o) Html.block = Some (MBlock b) →
  Forall Bin.string_ok names → zlen names ≤ zlen (written d) + k' →
  drafted k' (with_metadata o Html.block (MBlock (Blk.mk (BV.set (Blk.bv b) (contentSize o - 1) true) names start)))
    (mkDraft (finished d) (current d) start).
Proof.
  intros Hd Hne Hb Hn Hl. pose proof (content_positive _ _ _ Hd) as [_ Hc]. specialize (Hc Hne).
  destruct Hd as [Ht Hlen Hlab (s & Hs & Hsec) (b' & Hb' & Hbw & Hbr & _) Hst Hse _]. rewrite Hb in Hb'. injection Hb' as <-.
  split; cbn [with_metadata text _metadataLabels _metadatas _stemmer _stemmingResult finished inside]; try done.
  - exists s. rewrite Obj.get_put, decide_False by done. done.
  - eexists. rewrite Obj.get_put, decide_True by done. split; [reflexivity|]. cbn [Blk.bv Blk._start Blk._names].
    split_and!; try done. apply BV.set_wf; [done|]. unfold contentSize in *. rewrite (Text.contentSize_holds _ _ _ Ht) in *. lia.
Qed.

Lemma startBlock_drafted k o d name d' :
  drafted k o d → Bin.string_ok name → start_block d = Some d' →
  ∃ o', block_startBlock o Html.block name = Ret o' ∧ drafted (k + 1) o' d'.
Proof.
  intros Hd Hname. pose proof (drafted_block _ _ _ Hd) as (b & Hb & _ & _ & Hbs & Hbn & Hbl). unfold start_block.
  case_decide as Hne; [done|]. intros [= <-]. unfold block_startBlock.
  rewrite (block_of o Html.block b); [|rewrite (drafted_labels _ _ _ Hd); right; left|done]. cbn [mbind outcome_bind].
  unfold Blk.startBlock. destruct (Blk._start b) eqn:Hst; [destruct Hne; left; congruence|]. cbn [mbind outcome_bind].
  eexists. split; [reflexivity|]. apply mark_drafted with k; try done; [tauto|..].
  - apply Forall_app. split; [done|by apply Forall_singleton].
  - rewrite zlen_app. change (zlen [name]) with 1. lia.
Qed.

Lemma endBlock_drafted k o d d' :
  drafted k o d → end_block d = Some d' → ∃ o', block_endBlock o Html.block = Ret o' ∧ drafted k o' d'.
Proof.
  intros Hd. pose proof (drafted_block _ _ _ Hd) as (b & Hb & _ & _ & Hbs & Hbn & Hbl). unfold end_block.
  destruct (inside d) eqn:Hi; [|done]. pose proof (drafted_inside _ _ _ Hd Hi) as Hne. intros [= <-]. unfold block_endBlock.
  rewrite (block_of o Html.block b); [|rewrite (drafted_labels _ _ _ Hd); right; left|done]. cbn [mbind outcome_bind].
  unfold Blk.endBlock. rewrite Hbs. cbn [negb mbind outcome_bind].
  eexists. split; [reflexivity|]. by apply mark_drafted with k.
Qed.

(** *** Words *)

Lemma split_count s cur gap : (length (Lang.split_spaces s cur gap) ≤ S (length s))%nat.
Proof.
  revert cur gap. induction s as [|c s IH]; intros cur gap; cbn [Lang.split_spaces length]; [lia|].
  destruct (Lang.isSpace c); [destruct gap|]; cbn [length]; [specialize (IH cur true)|specialize (IH [] true)|specialize (IH (cur ++ [c]) false)]; lia.
Qed.

Lemma split_Forall (P : Z → Prop) s cur gap : Forall P s → Forall P cur → Forall (Forall P) (Lang.split_spaces s cur gap).
Proof.
  intros Hs. revert cur gap. induction Hs as [|c s Hc _ IH]; intros cur gap Hcur; cbn [Lang.split_spaces]; [by apply Forall_singleton|].
  destruct (Lang.isSpace c); [destruct gap; [by apply IH|constructor; [done|by apply IH]]|].
  apply IH, Forall_app. split; [done|by apply Forall_singleton].
Qed.

Lemma stems_put table n k l :
  stems_ok table n → Bin.string_ok k → Forall Bin.string_ok l → zlen l ≤ n + 1 → stems_ok (Obj.put table k l) (n + 1).
Proof.
  intros (Hwf & Hall & Hlen) Hk Hl Hn. split_and!; [by apply Obj.wf_put|..].
  - apply Obj.Forall_put; [|by split_and!]. eapply Forall_impl; [exact Hall|]. cbn. intros e (? & ? & ?). split_and!; [done..|lia].
  - pose proof (Obj.length_put table k l). unfold zlen in *. lia.
Qed.

Section reading.
Context `{CaseMap, Runtime}.

(** The code of a word that the format can hold. *)
Lemma code_word_ok p chars w :
  Text.coded (Text._utf162compressCode p) (Text._compressCode2utf16 p) chars → chars ≠ [] → Forall Text.plain w → zlen w ≤ 32767 →
  Bin.string_ok (Text._convertToCompressionCode p w).
Proof.
  intros Hk Hne Hw Hlen. rewrite (Text.convert_codes _ _ _ Hk Hne Hw). split; [|by rewrite !zlen_fmap].
  apply Forall_fmap, Forall_fmap, Forall_true. intros c. cbn. unfold Bin.code_unit.
  pose proof (Text.char_code_range chars (Text.seen_as chars c) (or_intror (Text.seen_as_in chars c Hne))).
  pose proof (Text.chars_bound _ (Text.coded_chars _ _ _ Hk) (Text.coded_nodup _ _ _ Hk)). lia.
Qed.

Lemma stem_word_ok o stemming table w n chars :
  _stemmer o = None → Text.coded (Text._utf162compressCode (text o)) (Text._compressCode2utf16 (text o)) chars → chars ≠ [] →
  stems_ok table n → word_ok w = true → Forall Text.plain w →
  ∃ table', stem_word toLowerCase o stemming table w = Ret table' ∧ stems_ok table' (n + 1).
Proof.
  intros Hst Hk Hne Hs Hw Hp. assert (stems_ok table (n + 1)) as Hs1 by (eapply stems_ok_weaken; [exact Hs|lia]).
  unfold stem_word. assert (registerWord toLowerCase o w stemming = if decide (w = small w) then None else Some (small w)) as ->.
  { unfold registerWord. rewrite Hst. by destruct stemming. }
  unfold word_ok in Hw. destruct (decide (w = small w)) as [|Hsm]; [by exists table|]. rewrite bool_decide_eq_false_2 in Hw by done.
  cbn [orb] in Hw. destruct (decide (small w = [])) as [->|Hnil]; [by exists table|]. rewrite bool_decide_eq_false_2 in Hw by done. cbn [orb] in Hw.
  apply andb_true_iff in Hw as [[Hin Hok%bool_decide_eq_true]%andb_true_iff Hlen%bool_decide_eq_true].
  pose proof (code_word_ok _ _ _ Hk Hne Hp Hlen) as Hcode.
  destruct (small w) as [|c s] eqn:Hsw; [done|]. rewrite <- Hsw in *.
  unfold Obj.read. destruct (Obj.get table (small w)) as [l|] eqn:Hget.
  - apply Obj.get_in in Hget. destruct Hs as (Hwf & Hall & Hl). rewrite Forall_forall in Hall. destruct (Hall _ Hget) as (_ & Hl1 & Hl2).
    case_decide; [|by exists table]. eexists. split; [reflexivity|]. apply stems_put; [split_and!; [done|by apply Forall_forall|done]|done|..].
    + apply Forall_app. split; [done|by apply Forall_singleton].
    + rewrite zlen_app. change (zlen [_]) with 1. cbn [snd] in Hl2. lia.
  - destruct (list_find _ _) as [[i [a b]]|] eqn:Hf.
    { apply list_find_Some in Hf as (Hf & Heq & _). apply negb_true_iff, bool_decide_eq_false in Hin. destruct Hin.
      apply list_elem_of_fmap. exists (a, b). split; [done|]. by eapply list_elem_of_lookup_2. }
    eexists. split; [reflexivity|]. apply stems_put; [done|done|by apply Forall_singleton|]. change (zlen [_]) with 1.
    destruct Hs as (_ & _ & Hl). pose proof (zlen_nonneg table). lia.
Qed.
(** A text, with the table of its words. *)
Lemma addText_drafted k o d w stemming d' :
  drafted k o d → write_text w d = Some d' → ∃ o', addWord_stemming toLowerCase o w stemming = Ret o' ∧ drafted k o' d'.
Proof.
  intros Hd. unfold write_text. case_decide as Hok; [|done]. destruct Hok as (Hne & Hp & Hwords). intros Hw.
  destruct (write_written w d d' Hw) as (Hwr & _). destruct (addWord_drafted k o d w d' Hd Hp Hne Hw) as (o1 & Hadd & Hd1).
  unfold addWord_stemming. rewrite Hadd. cbn [mbind outcome_bind].
  assert (_stemmingResult o1 = _stemmingResult o) as Hse.
  { unfold addWord in Hadd. apply bind_Ret in Hadd as (p & _ & [= <-]). done. }
  assert (alphabet (written d') ≠ []) as Hch.
  { rewrite Hwr, alphabet_app by done. destruct w as [|c w]; [done|]. intros Hnil. apply (not_elem_of_nil c).
    rewrite <- Hnil. apply Text.extend_elem. right. left. }
  pose proof (drafted_stems _ _ _ Hd) as Hs. rewrite <- Hse in Hs.
  loop (λ (j : nat) table, stems_ok table (2 * zlen (written d) + Z.of_nat j)) as (table & -> & Ht).
  - by rewrite Z.add_0_r.
  - intros j x table Hx Ht. destruct (stem_word_ok o1 stemming table x _ _ (drafted_stemmer _ _ _ Hd1)
      (Text.holds_coded _ _ _ (drafted_text _ _ _ Hd1)) Hch Ht) as (table' & Hrun & Ht').
    + apply Is_true_true, forallb_True in Hwords. rewrite Forall_lookup in Hwords. by apply Is_true_true, (Hwords j).
    + pose proof (split_Forall Text.plain w [] false Hp ltac:(constructor)) as Hall. rewrite Forall_lookup in Hall. by apply (Hall j).
    + exists table'. split; [done|]. eapply stems_ok_weaken; [exact Ht'|lia].
  - cbn [mbind outcome_bind]. eexists. split; [reflexivity|]. destruct Hd1. split; try done. cbn [_stemmingResult].
    eapply stems_ok_weaken; [exact Ht|]. rewrite Hwr, zlen_app. pose proof (split_count w [] false).
    destruct w; [done|]. unfold zlen. cbn [length] in *. lia.
Qed.

(** *** The handler *)

Import Html.

(** An operation of the engine does what one on drafts describes. *)
Definition refines {A} (run : outcome (A * Okt.t)) (t_run : option (A * draft)) : Prop :=
  ∀ h' d', t_run = Some (h', d') → ∃ o', run = Ret (h', o') ∧ drafted 0 o' d'.

Lemma refines_ret {A} (h : A) o d : drafted 0 o d → refines (Ret (h, o)) (Some (h, d)).
Proof. intros Hd h' d' [= <- <-]. by exists o. Qed.

Lemma refines_bind {A B} (run : outcome (A * Okt.t)) t_run (k : A → Okt.t → outcome (B * Okt.t)) t_k :
  refines run t_run → (∀ h o d, drafted 0 o d → refines (k h o) (t_k h d)) →
  refines ('(h, o) ← run; k h o) ('(h, d) ← t_run; t_k h d).
Proof.
  intros Hr Hk h' d' ([h d] & Hrun & Hrest)%bind_Some. destruct (Hr _ _ Hrun) as (o & -> & Hd). cbn [mbind outcome_bind]. by apply Hk with d.
Qed.

(** The handler's part in it. *)
Lemma refines_step {B} k (run : outcome Okt.t) t_run (cont : Okt.t → outcome (B * Okt.t)) t_cont :
  (∀ d, t_run = Some d → ∃ o, run = Ret o ∧ drafted k o d) →
  (∀ o d, drafted k o d → refines (cont o) (t_cont d)) → refines (o ← run; cont o) (d ← t_run; t_cont d).
Proof.
  intros Hr Hk h' d' (d & Hrun & Hrest)%bind_Some. destruct (Hr _ Hrun) as (o & -> & Hd). cbn [mbind outcome_bind]. by apply Hk with d.
Qed.

Lemma tail_refines k h o d : drafted k o d → ∀ d', t_tail h d = Some d' → ∃ o', set_tail h o = Ret o' ∧ drafted k o' d'.
Proof. intros Hd d' Ht. by apply (setTail_drafted k o d _ d' Hd). Qed.

Lemma heading_name (tagname : jsstr) : tagname ∈ headingId → Bin.string_ok tagname.
Proof. intros Hin. repeat (apply elem_of_cons in Hin as [->|Hin]; [split; [repeat constructor; cbn; lia|done]|]). by apply elem_of_nil in Hin. Qed.

Lemma open_heading_refines e tagname h o d :
  drafted 0 o d → tagname ∈ headingId → refines (open_heading e tagname h o) (t_open_heading e tagname h d).
Proof.
  intros Hd Hin. unfold open_heading, t_open_heading. apply refines_bind.
  - case_decide; [|by apply refines_ret]. apply (refines_step 0); [|intros; by apply refines_ret].
    pose proof (content_positive _ _ _ Hd). case_decide; case_decide; [by apply tail_refines|tauto|tauto|].
    intros ? [= <-]. by exists o.
  - clear o d h Hd. intros h o d Hd. apply (refines_step (-1)); [intros d'; apply (addEndOfBlock_drafted 0 o d d' Hd)|].
    clear o d Hd. intros o d Hd. apply (refines_step 0); [|intros; by apply refines_ret].
    intros d'. apply (startBlock_drafted (-1) o d tagname d' Hd). by apply heading_name.
Qed.

Lemma open_refines e tagname attributes h o d :
  drafted 0 o d → refines (onopentag e tagname attributes h o) (t_open e tagname attributes h d).
Proof.
  intros Hd. unfold onopentag, t_open. apply refines_bind; [|intros; by apply refines_ret].
  destruct (startParse h); [|by apply refines_ret]. unfold open_inside, t_open_inside. generalize (push_tag tagname h). clear h. intros h.
  generalize (match Obj.get attributes (jstr "id") with Some i => set_id i h | None => h end). clear h. intros h.
  case_decide; [by apply open_heading_refines|]. case_decide.
  - apply (refines_step 1); [intros d'; apply (startBlock_drafted 0 o d (jstr "pre") d' Hd); split; [repeat constructor; cbn; lia|done]|].
    clear o d Hd. intros o d Hd. apply (refines_step 0); [intros d'; apply (addEndOfBlock_drafted 1 o d d' Hd)|intros; by apply refines_ret].
  - case_decide; [|by apply refines_ret]. apply (refines_step (-1)); [intros d'; apply (addEndOfBlock_drafted 0 o d d' Hd)|].
    intros o' d' Hd'. apply refines_ret. eapply drafted_weaken; [exact Hd'|lia].
Qed.

Lemma end_line_refines h o d : drafted 0 o d → refines (end_line h o) (t_end_line h d).
Proof.
  intros Hd. unfold end_line, t_end_line. destruct (addText h); [|by apply refines_ret].
  apply (refines_step 0); [|intros; by apply refines_ret]. intros d'. apply (addWord_drafted 0 o d [10] d' Hd); [|done].
  apply Forall_singleton. unfold Text.plain. lia.
Qed.

Lemma close_refines tagname h o d : drafted 0 o d → refines (onclosetag tagname h o) (t_close tagname h d).
Proof.
  intros Hd. unfold onclosetag, t_close. apply refines_bind; [|intros; by apply refines_ret].
  destruct (startParse h); [|by apply refines_ret]. apply refines_bind; [|intros; by apply refines_ret].
  assert (∀ d', end_block d = Some d' → ∃ o', block_endBlock o block = Ret o' ∧ drafted 0 o' d') as He
    by (intros d'; by apply (endBlock_drafted 0)).
  unfold close_inside, t_close_inside. repeat case_decide; [..|by apply refines_ret].
  - apply (refines_step 0); [exact He|]. intros o' d' Hd'. apply refines_bind; [by apply end_line_refines|]. intros; by apply refines_ret.
  - apply (refines_step 0); [exact He|]. intros o' d' Hd'. by apply end_line_refines.
  - by apply end_line_refines.
Qed.

(** Where the description of a call has a result, the call returns, and the engine
    holds the draft. *)
Lemma handle_refines e h o d ev : drafted 0 o d → refines (handle e (h, o) ev) (transcribe e (h, d) ev).
Proof.
  intros Hd. destruct ev; cbn [handle transcribe]; try (by apply refines_ret).
  - apply (refines_step 0); [by apply tail_refines|]. intros; by apply refines_ret.
  - unfold ontext, t_text. apply refines_bind; [|intros; by apply refines_ret]. destruct (startParse h); [|by apply refines_ret].
    apply (refines_step 0); [intros d'; by apply (addText_drafted 0 o d)|]. intros; by apply refines_ret.
  - by apply open_refines.
  - by apply close_refines.
Qed.

(** *** Files *)

Fixpoint transcript (e : env) (evs : list Sax.event) (st : handler * draft) : option (handler * draft) :=
  match evs with
  | [] => Some st
  | ev :: evs => st ← transcribe e st ev; transcript e evs st
  end.

Lemma transcript_app e es1 es2 st : transcript e (es1 ++ es2) st = (st ← transcript e es1 st; transcript e es2 st).
Proof.
  revert st. induction es1 as [|ev es1 IH]; intros st; [done|]. cbn [app transcript].
  destruct (transcribe e st ev); cbn [mbind option_bind]; [apply IH|done].
Qed.

Lemma events_refine e evs h o d : drafted 0 o d → refines (ofold (handle e) (h, o) evs) (transcript e evs (h, d)).
Proof.
  revert h o d. induction evs as [|ev evs IH]; intros h o d Hd; [by apply refines_ret|].
  cbn [ofold transcript]. intros h' d' ([h1 d1] & H1 & H2)%bind_Some.
  destruct (handle_refines e h o d ev Hd h1 d1 H1) as (o1 & -> & Hd1). cbn [mbind outcome_bind]. by apply (IH h1 o1 d1).
Qed.

(** The draft after some files, each with its path and the calls of the SAX parser. *)
Fixpoint transcripts (unit : Z) (prefix : jsstr) (f : TagFilter) (files : list (jsstr * list Sax.event)) (d : draft) : option draft :=
  match files with
  | [] => Some d
  | (relative, evs) :: files =>
    '(_, d) ← transcript (mkEnv f (prefix ++ relative) unit) evs (new, d);
    transcripts unit prefix f files d
  end.

Definition parse_file (fuel : nat) (p : Html.t) (file : jsstr * jsstr) : outcome Html.t := parse fuel p file.1 file.2.

Definition reads_as (fuel : nat) (file : jsstr * jsstr) (evs : jsstr * list Sax.event) : Prop :=
  evs.1 = file.1 ∧ ∃ s, Sax.parse fuel file.2 (Sax.new false) = Ret s ∧ Sax.events s = evs.2.

Lemma files_refine fuel files evs p d d' :
  Forall2 (reads_as fuel) files evs → drafted 0 (oktavia p) d → transcripts (p_unit p) (prefix p) (p_filter p) evs d = Some d' →
  ∃ o', ofold (parse_file fuel) p files = Ret (mkParser o' (p_unit p) (prefix p) (p_filter p)) ∧ drafted 0 o' d'.
Proof.
  intros Hall. revert p d. induction Hall as [|[path text] [path' es] files evs [Hp (s & Hs & He)] _ IH]; intros p d Hd Ht.
  { injection Ht as <-. exists (oktavia p). by destruct p. }
  cbn [fst snd] in *. subst path' es. cbn [transcripts] in Ht. apply bind_Some in Ht as ([h1 d1] & H1 & H2).
  destruct (events_refine _ _ _ _ _ Hd h1 d1 H1) as (o1 & Hrun & Hd1). cbn [ofold].
  assert (parse_file fuel p (path, text) = Ret (mkParser o1 (p_unit p) (prefix p) (p_filter p))) as ->.
  { unfold parse_file, parse. cbn [fst snd]. rewrite Hs. cbn [mbind outcome_bind]. by rewrite Hrun. }
  cbn [mbind outcome_bind]. by apply (IH (mkParser o1 (p_unit p) (prefix p) (p_filter p)) d1).
Qed.

Lemma new_drafted unit prefix filter :
  ∃ p, parser_new unit prefix filter None = Ret p ∧ drafted 0 (oktavia p) start_draft ∧
    p_unit p = unit ∧ Html.prefix p = prefix ∧ p_filter p = filter_new filter.
Proof.
  eexists. split; [reflexivity|]. split; [|done]. split; [apply Text.new_holds|done|done|..|done| |done].
  - exists Sec.new. split_and!; [done|apply new_marks|done|done].
  - exists Blk.new. split_and!; try done. apply new_marks.
  - split_and!; [split; constructor|constructor|done].
Qed.

(** An engine that holds finished sections can be indexed and saved. *)
Lemma built_ready o d density :
  drafted 0 o d → finished d ≠ [] → current d = [] → Forall (λ s, s.2 ≠ []) (finished d) →
  OktFile.names_ok section (finished d) →
  ∃ o', build o density = Ret o' ∧
    let chars := alphabet (concat (finished d).*2) in
    ready o' section (finished d) chars (3 + zlen chars) (Text.cacheRange density) ∧
    OktFile.storable o' chars (concat (finished d).*2).
Proof.
  intros [Ht Hl Hlab (s & Hs & Hm & Hr & Hn) (b & Hb & Hbw & Hbr & _ & Hbn & Hbl) Hst (Hw1 & Hw2 & Hw3) _] Hf Hc Hne (Hkey & Hnames & Hch).
  unfold written in *. rewrite Hc, app_nil_r in *. set (docs := finished d) in *. set (T := concat docs.*2) in *.
  assert (T ≠ []) as HT.
  { unfold T. destruct docs as [|[n x] docs']; [done|]. apply Forall_cons in Hne as [Hx _]. cbn in *. by destruct x. }
  unfold build. destruct (Text.build_indexed _ _ _ density Ht HT Hl) as (p & -> & Hi & _). cbn [mbind outcome_bind].
  destruct (build_marks _ _ Hm Hr) as [Hm' Hbt]. destruct (BV.build_spec _ Hbw Hbr) as (Hbw' & _).
  eexists. split; [reflexivity|]. cbn zeta. split; split; cbn [text _metadataLabels _metadatas _stemmer _stemmingResult]; try done.
  - by rewrite Hlab.
  - eexists. rewrite Obj.get_fmap, Hs. split_and!; [reflexivity|done..].
  - by eexists _, _.
  - split_and!; [done| |lia]. eapply Forall_impl; [exact Hw2|]. cbn. intros e (? & ? & ?). split; [done|]. split; [done|lia].
  - rewrite Hlab. repeat constructor; try done; rewrite Obj.get_fmap.
    + rewrite Hs. eexists. split; [reflexivity|]. split; [apply Hm'|]. cbn. by rewrite Hn.
    + rewrite Hb. eexists. split; [reflexivity|]. split; [done|]. cbn. split; [done|lia].
  - by rewrite Hlab.
Qed.

End reading.
