(* ===== verification/HtmlSite.v ===== *)
(** * Pages of headings and paragraphs

    The sections that the HTML reader makes of pages with a title, headings,
    paragraphs and preformatted text: each heading above the chosen level starts a
    section, named by the heading and its address. *)

From S2P Require Import Prelude JsObject Binary Lang Text Metadata Oktavia OktaviaSearch OktaviaFile.
From S2P Require Import Sax SaxNesting SaxRoundtrip HtmlParser HtmlIndex.

Local Open Scope Z_scope.
Local Open Scope js_scope.

Import OktSearch Html.

(** ** Pages *)

Inductive item :=
  | Heading (level : nat) (id w : jsstr)
  | Para (w : jsstr)
  | Code (w : jsstr).

Record page := mkPage { title : jsstr; intro : jsstr; items : list item }.

Definition level_tag (level : nat) : jsstr := default [] (headingId !! level).

Definition item_node (x : item) : node :=
  match x with
  | Heading level id w => Elem (level_tag level) [(jstr "id", id)] [SaxRoundtrip.Text w]
  | Para w => Elem (jstr "p") [] [SaxRoundtrip.Text w]
  | Code w => Elem (jstr "pre") [] [SaxRoundtrip.Text w]
  end.

Definition page_kids (g : page) : list node :=
  [Elem (jstr "head") [] [Elem (jstr "title") [] [SaxRoundtrip.Text (title g)]];
   Elem (jstr "div") [(jstr "id", jstr "content")] (item_node <$> Para (intro g) :: items g)].

Definition page_node (g : page) : node := Elem (jstr "html") [] (page_kids g).

(** ** Their sections *)

(** Spaces are joined, but not in preformatted text. *)
Definition item_words (x : item) : jsstr :=
  match x with Heading _ _ w | Para w => Sax.textopts w | Code w => w end.

Definition item_text (x : item) : jsstr := [1] ++ item_words x ++ [10].

Fixpoint sections (unit : Z) (path name text : jsstr) (items : list item) : list (jsstr * jsstr) :=
  match items with
  | [] => [(name, text)]
  | x :: items =>
    match x with
    | Heading level id w =>
      if decide (Z.of_nat level < unit) then (name, text) :: sections unit path (Sax.textopts w ++ [1] ++ path ++ [35] ++ id) (item_text x) items
      else sections unit path name (text ++ item_text x) items
    | _ => sections unit path name (text ++ item_text x) items
    end
  end.

Definition page_sections (unit : Z) (path : jsstr) (g : page) : list (jsstr * jsstr) :=
  sections unit path (Sax.textopts (title g) ++ [1] ++ path) (item_text (Para (intro g))) (items g).

(** Every section ends in a line break. *)
Lemma sections_end unit path name text items :
  list.last text = Some 10 → Forall (λ d, list.last d.2 = Some 10) (sections unit path name text items).
Proof.
  assert (∀ t x, list.last (t ++ item_text x) = Some 10) as Hlast by (intros t x; unfold item_text; by rewrite !app_assoc, last_snoc).
  revert name text. induction items as [|x items IH]; intros name text Ht; cbn [sections]; [by apply Forall_singleton|].
  destruct x as [level id w|w|w]; [case_decide|..]; [constructor; [done|]|..]; apply IH; [apply (Hlast [])|apply Hlast..].
Qed.

Lemma sections_text unit path name text items :
  concat (sections unit path name text items).*2 = text ++ concat (item_text <$> items).
Proof.
  revert name text. induction items as [|x items IH]; intros name text; cbn [sections]; [done|].
  destruct x; [case_decide|..]; cbn [fmap list_fmap concat snd]; rewrite IH; by rewrite ?app_assoc.
Qed.

Lemma sections_some unit path name text items : sections unit path name text items ≠ [].
Proof. revert name text. induction items as [|[] items IH]; intros; cbn [sections]; try case_decide; done || apply IH. Qed.

Section site.
Context `{CaseMap, Runtime}.

(** Texts that the table of words can take. *)
Definition text_ok (w : jsstr) : Prop :=
  w ≠ [] ∧ Forall Text.plain w ∧ forallb word_ok (Lang.split_spaces w [] false) = true.

Definition item_ok (x : item) : Prop :=
  text_ok (item_words x) ∧ match x with Heading level _ _ => (level < 6)%nat | _ => True end.

Definition page_ok (g : page) : Prop := title g ≠ [] ∧ Forall item_ok (Para (intro g) :: items g).

(** ** Reading an item *)

(** The handler between two items. *)
Record reading (h : handler) (title link : jsstr) : Prop := {
  reading_start : startParse h = true;
  reading_stack : stack h ≠ [];
  reading_wait : waitTitle h = false;
  reading_code : inCode h = false;
  reading_added : addText h = false;
  reading_title : currentTitle h = title;
  reading_link : currentLink h = link;
}.

Lemma write_ok (F : list (jsstr * jsstr)) (C w : jsstr) b : zlen (concat F.*2) + zlen C + zlen w < 2 ^ 31 - 2 →
  write w (mkDraft F C b) = Some (mkDraft F (C ++ w) b).
Proof.
  intros Hl. unfold write. change (written (mkDraft F C b)) with (concat F.*2 ++ C). rewrite zlen_app. by rewrite decide_True by lia.
Qed.

Lemma write_text_ok (F : list (jsstr * jsstr)) (C w : jsstr) b : text_ok w → zlen (concat F.*2) + zlen C + zlen w < 2 ^ 31 - 2 →
  write_text w (mkDraft F C b) = Some (mkDraft F (C ++ w) b).
Proof. intros Hw Hl. unfold write_text. rewrite decide_True by exact Hw. by apply write_ok. Qed.

Lemma start_block_ok (F : list (jsstr * jsstr)) (C : jsstr) : C ≠ [] → start_block (mkDraft F C false) = Some (mkDraft F C true).
Proof.
  intros HC. unfold start_block. change (written (mkDraft F C false)) with (concat F.*2 ++ C). rewrite decide_False; [done|].
  intros [?|Hnil]; [done|]. by apply app_nil in Hnil as [_ ?].
Qed.

Lemma level_tag_facts level : (level < 6)%nat →
  level_tag level ∈ headingId ∧ indexOf headingId (level_tag level) = Z.of_nat level ∧
  level_tag level ≠ jstr "title" ∧ level_tag level ≠ jstr "pre" ∧ name_ok (level_tag level) ∧ level_tag level ≠ jstr "script".
Proof.
  intros Hl. do 6 (destruct level as [|level]; [split_and!; try done; [repeat constructor|repeat first [done|constructor]]|]). lia.
Qed.

Lemma open_level e level id h d : (level < 6)%nat → startParse h = true →
  t_open e (level_tag level) [(jstr "id", id)] h d = t_open_heading e (level_tag level) (set_id id (push_tag (level_tag level) h)) d.
Proof.
  intros Hl Hs. destruct (level_tag_facts level Hl) as (Hin & _ & Ht & Hp & _). unfold t_open. rewrite Hs. unfold t_open_inside.
  rewrite get_single, (decide_True (P := level_tag level ∈ headingId)) by done.
  destruct (t_open_heading _ _ _ _) as [[h1 d1]|]; cbn [mbind option_bind]; [|done]. by rewrite decide_False.
Qed.

Lemma close_level level (h : handler) (F : list (jsstr * jsstr)) (C : jsstr) : (level < 6)%nat → startParse h = true → addText h = true → stack h ≠ [] →
  zlen (concat F.*2) + zlen C + 1 < 2 ^ 31 - 2 →
  t_close (level_tag level) h (mkDraft F C true) = Some (set_title (currentTitle h) false (set_added false h), mkDraft F (C ++ [10]) false).
Proof.
  intros Hl Hs Ha Hst Hlen. destruct (level_tag_facts level Hl) as (Hin & _ & Ht & Hp & _). unfold t_close. rewrite Hs.
  unfold t_close_inside. rewrite decide_True by done. unfold end_block. cbn [inside finished current mbind option_bind].
  unfold t_end_line. rewrite Ha, write_ok by exact Hlen. cbn [mbind option_bind]. rewrite (decide_False (P := stack _ = [])) by done.
  by rewrite decide_False.
Qed.

Lemma text_read e w h (F : list (jsstr * jsstr)) (C : jsstr) b : startParse h = true → text_ok w →
  zlen (concat F.*2) + zlen C + zlen w < 2 ^ 31 - 2 →
  transcribe e (h, mkDraft F C b) (Sax.ontext w) =
    Some (if waitTitle h then set_title (currentTitle h ++ w) true (set_added true h) else set_added true h, mkDraft F (C ++ w) b).
Proof. intros Hs Hw Hlen. cbn [transcribe]. unfold t_text. by rewrite Hs, write_text_ok by done. Qed.

(** The text of a heading, up to its end. *)
Lemma heading_rest e level w h (F : list (jsstr * jsstr)) (C : jsstr) :
  (level < 6)%nat → text_ok w → startParse h = true → stack h ≠ [] →
  zlen (concat F.*2) + zlen C + (1 + (zlen w + 1)) < 2 ^ 31 - 2 →
  (st ← (d ← write [1] (mkDraft F C false); d ← start_block d; Some (h, d));
   st ← transcribe e st (Sax.ontext w); st ← transcribe e st (Sax.onclosetag (level_tag level)); Some st) =
  Some (set_title (if waitTitle h then currentTitle h ++ w else currentTitle h) false (set_added false h), mkDraft F (C ++ [1] ++ w ++ [10]) false).
Proof.
  intros Hl Hw Hs Hst Hlen. rewrite write_ok by (change (zlen [1]) with 1; pose proof (zlen_nonneg w); lia). cbn [mbind option_bind].
  rewrite start_block_ok by (by destruct C). cbn [mbind option_bind].
  rewrite text_read; [|done..|rewrite zlen_app; change (zlen [1]) with 1; lia]. cbn [mbind option_bind transcribe].
  rewrite close_level; [by destruct (waitTitle h); cbn [mbind option_bind]; rewrite <- !app_assoc|done|by destruct (waitTitle h)..|].
  rewrite !zlen_app. change (zlen [1]) with 1. lia.
Qed.

Lemma heading_read e level id w h (F : list (jsstr * jsstr)) (C : jsstr) t l :
  reading h t l → C ≠ [] → item_ok (Heading level id w) →
  zlen (concat F.*2) + zlen C + zlen (item_text (Heading level id w)) < 2 ^ 31 - 2 →
  ∃ h', transcript e (calls 0 (item_node (Heading level id w))) (h, mkDraft F C false) =
      Some (h', if decide (Z.of_nat level < unit e) then mkDraft (F ++ [(t ++ [1] ++ l, C)]) (item_text (Heading level id w)) false
                else mkDraft F (C ++ item_text (Heading level id w)) false) ∧
    if decide (Z.of_nat level < unit e) then reading h' (Sax.textopts w) (filepath e ++ [35] ++ id) else reading h' t l.
Proof.
  intros [Hs Hst Hw Hc Ha <- <-] HC [Hok Hl] Hlen. destruct (level_tag_facts level Hl) as (Hin & Hidx & _ & Hp & _).
  unfold item_text in *. cbn [item_words] in *. rewrite !zlen_app in Hlen. change (zlen [1]) with 1 in Hlen. change (zlen [10]) with 1 in Hlen.
  cbn [item_node calls fmap list_fmap concat fst snd]. rewrite (decide_False (P := level_tag level = jstr "pre")) by done.
  rewrite (decide_True (P := 0 = 0)) by done. cbn [transcript transcribe mbind option_bind app].
  rewrite open_level by done. unfold t_open_heading. rewrite Hidx.
  assert (stack h ++ [level_tag level] ≠ []) as Hne by (by destruct (stack h)).
  case_decide as Hu.
  - rewrite decide_True; [|intros Hnil; by apply app_nil in Hnil as [_ ?]]. unfold t_tail, finish_section. rewrite decide_False by done.
    cbn [mbind option_bind]. eexists. split.
    + apply (heading_rest e level (Sax.textopts w) _ _ []); try done. cbn [finished].
      rewrite fmap_app, concat_app, zlen_app. cbn [fmap list_fmap concat snd]. rewrite app_nil_r, zlen_nil. cbn [current]. lia.
    + by split.
  - cbn [mbind option_bind]. eexists. split; [by apply heading_rest|]. split; try done. cbn [waitTitle set_id push_tag set_title currentTitle]. by rewrite Hw.
Qed.

Lemma para_read e w h (F : list (jsstr * jsstr)) (C : jsstr) t l :
  reading h t l → item_ok (Para w) → zlen (concat F.*2) + zlen C + zlen (item_text (Para w)) < 2 ^ 31 - 2 →
  ∃ h', transcript e (calls 0 (item_node (Para w))) (h, mkDraft F C false) = Some (h', mkDraft F (C ++ item_text (Para w)) false) ∧
    reading h' t l.
Proof.
  intros [Hs Hst Hw Hc Ha <- <-] [Hok _] Hlen. unfold item_text in *. cbn [item_words] in *. rewrite !zlen_app in Hlen.
  change (zlen [1]) with 1 in Hlen. change (zlen [10]) with 1 in Hlen. pose proof (zlen_nonneg (Sax.textopts w)).
  cbn [item_node calls fmap list_fmap concat fst snd]. rewrite (decide_False (P := jstr "p" = jstr "pre")) by done.
  rewrite (decide_True (P := 0 = 0)) by done. cbn [transcript transcribe app].
  assert (stack h ++ [jstr "p"] ≠ []) as Hne by (by destruct (stack h)).
  assert (t_open e (jstr "p") [] h (mkDraft F C false) = Some (push_tag (jstr "p") h, mkDraft F (C ++ [1]) false)) as ->.
  { unfold t_open. rewrite Hs. unfold t_open_inside. rewrite (decide_False (P := jstr "p" ∈ headingId)) by decided.
    rewrite (decide_False (P := jstr "p" = jstr "pre")), (decide_True (P := jstr "p" ∈ breaking)) by decided.
    rewrite write_ok by (change (zlen [1]) with 1; lia). cbn [mbind option_bind]. by rewrite decide_False. }
  cbn [mbind option_bind]. rewrite text_read; [|done..|rewrite zlen_app; change (zlen [1]) with 1; lia].
  cbn [waitTitle push_tag]. rewrite Hw. cbn [mbind option_bind transcribe]. unfold t_close. cbn [startParse set_added push_tag]. rewrite Hs.
  unfold t_close_inside. rewrite (decide_False (P := jstr "p" ∈ headingId)) by decided.
  rewrite (decide_False (P := jstr "p" = jstr "pre")), (decide_True (P := jstr "p" ∈ breaking)) by decided.
  unfold t_end_line. cbn [addText set_added]. rewrite write_ok by (rewrite !zlen_app; change (zlen [1]) with 1; change (zlen [10]) with 1; lia).
  cbn [mbind option_bind]. rewrite (decide_False (P := stack _ = [])) by done. rewrite decide_False by done. eexists.
  split; [by rewrite <- !app_assoc|]. by split.
Qed.

Lemma code_read e w h (F : list (jsstr * jsstr)) (C : jsstr) t l :
  reading h t l → C ≠ [] → item_ok (Code w) → zlen (concat F.*2) + zlen C + zlen (item_text (Code w)) < 2 ^ 31 - 2 →
  ∃ h', transcript e (calls 0 (item_node (Code w))) (h, mkDraft F C false) = Some (h', mkDraft F (C ++ item_text (Code w)) false) ∧
    reading h' t l.
Proof.
  intros [Hs Hst Hw Hc Ha <- <-] HC [Hok _] Hlen. unfold item_text in *. cbn [item_words] in *. rewrite !zlen_app in Hlen.
  change (zlen [1]) with 1 in Hlen. change (zlen [10]) with 1 in Hlen. pose proof (zlen_nonneg w).
  cbn [item_node calls fmap list_fmap concat fst snd]. rewrite (decide_True (P := jstr "pre" = jstr "pre")) by done.
  rewrite (decide_False (P := 0 + 1 = 0)) by done. cbn [transcript transcribe app].
  assert (stack h ++ [jstr "pre"] ≠ []) as Hne by (by destruct (stack h)).
  assert (t_open e (jstr "pre") [] h (mkDraft F C false) = Some (set_code true (push_tag (jstr "pre") h), mkDraft F (C ++ [1]) true)) as ->.
  { unfold t_open. rewrite Hs. unfold t_open_inside. rewrite (decide_False (P := jstr "pre" ∈ headingId)) by decided.
    rewrite (decide_True (P := jstr "pre" = jstr "pre")) by done. rewrite start_block_ok by done. cbn [mbind option_bind].
    rewrite write_ok by (change (zlen [1]) with 1; lia). cbn [mbind option_bind]. by rewrite decide_False. }
  cbn [mbind option_bind]. rewrite text_read; [|done..|rewrite zlen_app; change (zlen [1]) with 1; lia].
  cbn [waitTitle push_tag set_code]. rewrite Hw. cbn [mbind option_bind transcribe]. unfold t_close.
  cbn [startParse set_added set_code push_tag]. rewrite Hs. unfold t_close_inside.
  rewrite (decide_False (P := jstr "pre" ∈ headingId)) by decided. rewrite (decide_True (P := jstr "pre" = jstr "pre")) by done.
  unfold end_block, t_end_line. cbn [inside finished current mbind option_bind addText set_added set_code].
  rewrite write_ok by (rewrite !zlen_app; change (zlen [1]) with 1; change (zlen [10]) with 1; lia).
  cbn [mbind option_bind]. rewrite (decide_False (P := stack _ = [])) by done. rewrite decide_False by done. eexists.
  split; [by rewrite <- !app_assoc|]. by split.
Qed.

(** ** Reading a page *)

Lemma items_read e its h (F : list (jsstr * jsstr)) (C : jsstr) t l :
  reading h t l → C ≠ [] → Forall item_ok its → zlen (concat F.*2) + zlen (C ++ concat (item_text <$> its)) < 2 ^ 31 - 2 →
  ∃ h' F' C' t' l', transcript e (concat (calls 0 <$> (item_node <$> its))) (h, mkDraft F C false) = Some (h', mkDraft F' C' false) ∧
    reading h' t' l' ∧ C' ≠ [] ∧ F' ++ [(t' ++ [1] ++ l', C')] = F ++ sections (unit e) (filepath e) (t ++ [1] ++ l) C its.
Proof.
  intros Hr HC Hok. revert h F C t l Hr HC. induction Hok as [|x its Hx _ IH]; intros h F C t l Hr HC Hlen; [by exists h, F, C, t, l|].
  cbn [fmap list_fmap concat] in *. rewrite !zlen_app in Hlen. pose proof (zlen_nonneg (concat (item_text <$> its))).
  assert (∀ y, x = y → zlen (concat F.*2) + zlen C + zlen (item_text y) < 2 ^ 31 - 2) as Hx' by (intros y <-; lia).
  assert (∀ h', transcript e (calls 0 (item_node x)) (h, mkDraft F C false) = Some (h', mkDraft F (C ++ item_text x) false) → reading h' t l →
    ∃ h' F' C' t' l', transcript e (calls 0 (item_node x) ++ concat (calls 0 <$> (item_node <$> its))) (h, mkDraft F C false) = Some (h', mkDraft F' C' false) ∧
      reading h' t' l' ∧ C' ≠ [] ∧ F' ++ [(t' ++ [1] ++ l', C')] = F ++ sections (unit e) (filepath e) (t ++ [1] ++ l) (C ++ item_text x) its) as Hsame.
  { intros h' Hrun Hr'. rewrite transcript_app, Hrun. cbn [mbind option_bind]. apply IH; [done|by destruct C|]. rewrite !zlen_app. lia. }
  destruct x as [level id w|w|w]; cbn [sections].
  - destruct (heading_read e level id w h F C t l Hr HC Hx (Hx' _ eq_refl)) as (h' & Hrun & Hr'). case_decide; [|by apply (Hsame h')].
    rewrite transcript_app, Hrun. cbn [mbind option_bind].
    destruct (IH h' (F ++ [(t ++ [1] ++ l, C)]) (item_text (Heading level id w)) _ _ Hr') as (h'' & F' & C' & t' & l' & Hrun' & Hr'' & HC' & Heq); [done| |].
    { rewrite fmap_app, concat_app, !zlen_app. cbn [fmap list_fmap concat snd]. rewrite app_nil_r. lia. }
    exists h'', F', C', t', l'. split_and!; [exact Hrun'|done|done|]. rewrite Heq, <- app_assoc. done.
  - destruct (para_read e w h F C t l Hr Hx (Hx' _ eq_refl)) as (h' & Hrun & Hr'). by apply (Hsame h').
  - destruct (code_read e w h F C t l Hr HC Hx (Hx' _ eq_refl)) as (h' & Hrun & Hr'). by apply (Hsame h').
Qed.

(** The filter picks the element with the contents, and none before it. *)
Definition selects (f : TagFilter) : Prop :=
  match_tag f (jstr "html") [] = false ∧ match_tag f (jstr "head") [] = false ∧ match_tag f (jstr "title") [] = false ∧
  match_tag f (jstr "div") [(jstr "id", jstr "content")] = true.

(** What comes before the contents. *)
Definition head_calls (g : page) : list Sax.event :=
  [Sax.onready; Sax.onopentag (jstr "html") []; Sax.onopentag (jstr "head") []; Sax.onopentag (jstr "title") [];
   Sax.ontext (Sax.textopts (title g)); Sax.onclosetag (jstr "title"); Sax.onclosetag (jstr "head");
   Sax.onattribute (jstr "id") (jstr "content"); Sax.onopentag (jstr "div") [(jstr "id", jstr "content")]].

Lemma page_calls g : Sax.onready :: calls 0 (page_node g) ++ [Sax.onend] =
  head_calls g ++ calls 0 (item_node (Para (intro g))) ++ concat (calls 0 <$> (item_node <$> items g)) ++
  [Sax.onclosetag (jstr "div"); Sax.onclosetag (jstr "html"); Sax.onend].
Proof. unfold page_node, page_kids, head_calls. cbn. by rewrite <- !app_assoc. Qed.

Lemma open_outside e n attrs h d : startParse h = false → match_tag (filter e) n attrs = false →
  t_open e n attrs h d = Some (if decide (n = jstr "title") then set_title [] true h else h, d).
Proof. intros Hs Hm. unfold t_open. by rewrite Hs, Hm. Qed.

Lemma close_outside n h d : startParse h = false →
  t_close n h d = Some (if decide (n = jstr "title") then set_title (currentTitle h) false h else h, d).
Proof. intros Hs. unfold t_close. by rewrite Hs. Qed.

Lemma head_read e g d : selects (filter e) →
  ∃ h, transcript e (head_calls g) (new, d) = Some (h, d) ∧ reading h (Sax.textopts (title g)) (filepath e).
Proof.
  intros (H1 & H2 & H3 & H4). unfold head_calls.
  set (h0 := onready e new). cbn [transcript transcribe mbind option_bind]. fold h0. rewrite open_outside, decide_False by done.
  cbn [mbind option_bind transcribe]. rewrite open_outside, decide_False by done. cbn [mbind option_bind transcribe].
  rewrite open_outside, decide_True by done. cbn [mbind option_bind transcribe]. unfold t_text. cbn [startParse waitTitle set_title h0 onready set_code set_link new mbind option_bind transcribe].
  rewrite close_outside, decide_True by done. cbn [mbind option_bind transcribe]. rewrite close_outside, decide_False by done. cbn [mbind option_bind transcribe].
  unfold t_open. cbn [startParse set_title]. rewrite H4. cbn [mbind option_bind transcribe].
  eexists. split; [reflexivity|]. by split.
Qed.

Lemma foot_read e h d t l : reading h t l → inside d = false → current d ≠ [] →
  ∃ h', transcript e [Sax.onclosetag (jstr "div"); Sax.onclosetag (jstr "html"); Sax.onend] (h, d) =
    Some (h', mkDraft (finished d ++ [(t ++ [1] ++ l, current d)]) [] false).
Proof.
  intros [Hs Hst _ _ Ha <- <-] Hi HC. exists h. cbn [transcript transcribe]. unfold t_close at 1. rewrite Hs. unfold t_close_inside.
  rewrite (decide_False (P := jstr "div" ∈ headingId)) by decided. rewrite (decide_False (P := jstr "div" = jstr "pre")) by done.
  rewrite (decide_True (P := jstr "div" ∈ breaking)) by decided. unfold t_end_line. rewrite Ha. cbn [mbind option_bind].
  rewrite (decide_False (P := stack h = [])) by done. rewrite (decide_False (P := jstr "div" = jstr "title")) by done.
  cbn [transcribe]. unfold t_close. rewrite Hs. unfold t_close_inside. rewrite (decide_False (P := jstr "html" ∈ headingId)) by decided.
  rewrite (decide_False (P := jstr "html" = jstr "pre")) by done. rewrite (decide_False (P := jstr "html" ∈ breaking)) by decided.
  cbn [mbind option_bind]. rewrite (decide_False (P := stack h = [])) by done. rewrite (decide_False (P := jstr "html" = jstr "title")) by done.
  cbn [transcribe]. unfold t_tail, finish_section. rewrite decide_False by done. cbn [mbind option_bind]. by rewrite Hi.
Qed.

Lemma page_read e g (F : list (jsstr * jsstr)) :
  selects (filter e) → page_ok g → zlen (concat (F ++ page_sections (unit e) (filepath e) g).*2) < 2 ^ 31 - 2 →
  ∃ h, transcript e (Sax.onready :: calls 0 (page_node g) ++ [Sax.onend]) (new, mkDraft F [] false) =
    Some (h, mkDraft (F ++ page_sections (unit e) (filepath e) g) [] false).
Proof.
  intros Hf [_ [Hi Hits]%Forall_cons] Hlen. rewrite fmap_app, concat_app, zlen_app in Hlen. unfold page_sections in *.
  rewrite sections_text in Hlen. pose proof Hlen as Hlen1. rewrite zlen_app in Hlen1. pose proof (zlen_nonneg (concat (item_text <$> items g))).
  rewrite page_calls, transcript_app. destruct (head_read e g (mkDraft F [] false) Hf) as (h1 & -> & Hr1). cbn [mbind option_bind].
  rewrite transcript_app. destruct (para_read e (intro g) h1 F [] _ _ Hr1 Hi) as (h2 & -> & Hr2); [rewrite zlen_nil; lia|]. cbn [mbind option_bind app].
  rewrite transcript_app. destruct (items_read e (items g) h2 F (item_text (Para (intro g))) _ _ Hr2) as (h3 & F' & C' & t' & l' & -> & Hr3 & HC & Heq); [done..|].
  cbn [mbind option_bind]. destruct (foot_read e h3 (mkDraft F' C' false) t' l' Hr3) as (h4 & ->); [done..|]. cbn [finished current]. rewrite Heq. by exists h4.
Qed.

Lemma textopts_some w : Sax.textopts w ≠ [] → w ≠ [].
Proof. by intros ? ->. Qed.

Lemma item_doc_ok x : item_ok x → doc_ok (item_node x).
Proof.
  intros [[Hne _] Hl]. destruct x as [level id w|w|w]; cbn [item_words] in Hne; [apply textopts_some in Hne|apply textopts_some in Hne|].
  - destruct (level_tag_facts level Hl) as (_ & _ & _ & _ & Hn & Hs). cbn [item_node doc_ok fmap list_fmap].
    split_and!; [done|done|apply NoDup_singleton|apply Forall_singleton; repeat first [done|constructor]|by repeat constructor|].
    intros [|[|i]]; [intros _ []|intros []|intros []].
  - given_document.
  - given_document.
Qed.

Lemma page_doc_ok g : page_ok g → doc_ok (page_node g).
Proof.
  intros [Ht Hits]. unfold page_node, page_kids. cbn [doc_ok].
  assert (doc_ok (Elem (jstr "div") [(jstr "id", jstr "content")] (item_node <$> Para (intro g) :: items g))) as Hd.
  { cbn [doc_ok]. split_and!; [repeat first [done|constructor]|done|apply NoDup_singleton|apply Forall_singleton; repeat first [done|constructor]|..].
    - apply Forall_fmap, Forall_fmap. eapply Forall_impl; [exact Hits|]. apply item_doc_ok.
    - intros i Hi. exfalso. rewrite list_lookup_fmap in Hi. by destruct ((Para (intro g) :: items g) !! i) as [[]|]. }
  split_and!; [repeat first [done|constructor]|done|constructor|constructor| |by intros [|[|i]]].
  cbn [fmap list_fmap]. constructor; [given_document|]. apply Forall_singleton. exact Hd.
Qed.

(** ** Reading a site *)

Definition site_sections (unit : Z) (prefix : jsstr) (site : list (jsstr * page)) : list (jsstr * jsstr) :=
  site ≫= λ x, page_sections unit (prefix ++ x.1) x.2.

Definition page_file (x : jsstr * page) : jsstr * jsstr := (x.1, print (page_node x.2)).

Definition page_events (x : jsstr * page) : jsstr * list Sax.event := (x.1, Sax.onready :: calls 0 (page_node x.2) ++ [Sax.onend]).

Lemma pages_read_as fuel site : Forall (λ x, page_ok x.2 ∧ (length (print (page_node x.2)) < fuel)%nat) site →
  Forall2 (reads_as fuel) (page_file <$> site) (page_events <$> site).
Proof.
  induction 1 as [|[path g] site [Hg Hf] _ IH]; cbn [fmap list_fmap]; constructor; [|done]. split; [done|]. cbn [page_file page_events fst snd] in *.
  destruct (read_document (print (page_node g)) (jstr "html") [] (page_kids g) (page_doc_ok g Hg) eq_refl) as (s & Hs & He).
  exists s. split; [|done]. by apply (Sax.parse_more _ fuel _ _ _ Hs).
Qed.

Lemma site_transcript unit prefix f site (F : list (jsstr * jsstr)) :
  selects f → Forall (λ x, page_ok x.2) site → zlen (concat (F ++ site_sections unit prefix site).*2) < 2 ^ 31 - 2 →
  transcripts unit prefix f (page_events <$> site) (mkDraft F [] false) = Some (mkDraft (F ++ site_sections unit prefix site) [] false).
Proof.
  intros Hf Hall. revert F. induction Hall as [|[path g] site Hg _ IH]; intros F Hlen; [by rewrite app_nil_r|].
  unfold site_sections in Hlen |- *. cbn [fmap list_fmap mbind list_bind page_events fst snd transcripts] in *. rewrite app_assoc in *.
  destruct (page_read (mkEnv f (prefix ++ path) unit) g F Hf Hg) as (h & Hrun).
  { cbn [Html.unit filepath]. rewrite fmap_app, concat_app, zlen_app in Hlen.
    match type of Hlen with _ + zlen ?x < _ => pose proof (zlen_nonneg x) end. lia. }
  cbn [Html.unit filepath] in Hrun. rewrite Hrun. cbn [mbind option_bind]. by apply IH.
Qed.

(** The sections of a site fit in an index. *)
Definition site_ok (docs : list (jsstr * jsstr)) : Prop :=
  docs ≠ [] ∧ zlen (concat docs.*2) < 2 ^ 31 - 2 ∧ OktFile.names_ok section docs.

Lemma sections_body unit path name text its : text ≠ [] → Forall (λ s, s.2 ≠ []) (sections unit path name text its).
Proof.
  revert name text. induction its as [|x its IH]; intros name text Ht; cbn [sections]; [by apply Forall_singleton|].
  destruct x; [case_decide; [constructor; [done|]|]|..]; apply IH; (done || by destruct text).
Qed.

(** A site is read, indexed and saved. *)
Lemma site_dump unit prefix filters site density fuel :
  let docs := site_sections unit prefix site in
  selects (filter_new filters) → site_ok docs →
  Forall (λ x, page_ok x.2 ∧ (length (print (page_node x.2)) < fuel)%nat) site →
  ∃ p p' o, parser_new unit prefix filters None = Ret p ∧ ofold (parse_file fuel) p (page_file <$> site) = Ret p' ∧
    Okt.build (oktavia p') density = Ret o ∧
    let chars := alphabet (concat docs.*2) in
    ready o section docs chars (3 + zlen chars) (Text.cacheRange density) ∧ OktFile.storable o chars (concat docs.*2).
Proof.
  intros docs Hf (Hne & Hlen & Hnames) Hall. destruct (new_drafted unit prefix filters) as (p & Hp & Hd & Hu & Hpre & Hpf).
  assert (Forall (λ x, page_ok x.2) site) as Hpages by (eapply Forall_impl; [exact Hall|]; by intros x []).
  pose proof (site_transcript unit prefix (filter_new filters) site [] Hf Hpages Hlen) as Ht. rewrite <- Hu, <- Hpre, <- Hpf in Ht.
  destruct (files_refine fuel _ _ p start_draft _ (pages_read_as fuel site Hall) Hd Ht) as (o1 & Hrun & Hd1).
  rewrite Hu, Hpre in Hd1. destruct (built_ready o1 _ density Hd1) as (o & Hb & R & Hst); cbn [finished current app]; try done.
  { unfold site_sections. clear. induction site as [|x site IH]; [constructor|]. cbn [mbind list_bind]. apply Forall_app. split; [|exact IH].
    by apply sections_body. }
  eexists p, _, o. split; [exact Hp|]. split; [exact Hrun|]. split; [exact Hb|]. by split.
Qed.

End site.

(** ** The end of the contents *)

Section stops.
Context `{CaseMap, Runtime}.

(** While the handler reads, the stack of tags is not empty: nothing is taken off. *)
Definition going (h : handler) : Prop := startParse h = true → stack h ≠ [].

(** What a call may do to it. *)
Definition goes (h h' : handler) : Prop := startParse h' = startParse h ∧ (stack h ≠ [] → stack h' ≠ []).

Lemma goes_going h h' : goes h h' → going h → going h' ∧ (startParse h = true → startParse h' = true).
Proof. unfold goes, going. intros [-> Hs]. tauto. Qed.

Lemma open_inside_goes e n attrs h o h' o' : open_inside e n attrs h o = Ret (h', o') → goes h h'.
Proof.
  unfold open_inside. set (h1 := match Obj.get _ _ with Some i => _ | None => _ end).
  assert (goes h h1) as Hg by (unfold h1; destruct (Obj.get _ _); (split; [done|]); intros _ [_ ?]%app_nil; done).
  clearbody h1. intros Hrun. assert (∀ x, goes h1 x → goes h x) as Htr by (unfold goes; intros x [-> ?]; destruct Hg; tauto). apply Htr. clear Htr Hg.
  case_decide; [|case_decide; [|case_decide]].
  - unfold open_heading in Hrun. apply bind_Ret in Hrun as ([h2 o2] & H2 & (? & _ & (? & _ & [= <- <-])%bind_Ret)%bind_Ret).
    case_decide; [apply bind_Ret in H2 as (? & _ & [= <- <-])|injection H2 as <- <-]; done.
  - by apply bind_Ret in Hrun as (? & _ & (? & _ & [= <- <-])%bind_Ret).
  - by apply bind_Ret in Hrun as (? & _ & [= <- <-]).
  - by injection Hrun as <- <-.
Qed.

Lemma end_line_goes h o h' o' : end_line h o = Ret (h', o') → goes h h'.
Proof. unfold end_line. destruct (addText h); [intros (? & _ & [= <- <-])%bind_Ret|intros [= <- <-]]; done. Qed.

Lemma close_inside_goes n h o h' o' : close_inside n h o = Ret (h', o') → goes h h'.
Proof.
  unfold close_inside. repeat case_decide.
  - intros (? & _ & ([h1 o1] & Hl%end_line_goes & [= <- <-])%bind_Ret)%bind_Ret. exact Hl.
  - intros (? & _ & Hl%end_line_goes)%bind_Ret. exact Hl.
  - apply end_line_goes.
  - by intros [= <- <-].
Qed.

Lemma handle_going e ev h o h' o' : handle e (h, o) ev = Ret (h', o') → going h → going h' ∧ (startParse h = true → startParse h' = true).
Proof.
  intros Hrun Hg. destruct ev as [| | | | |w| | | |n attrs|n| | | |]; cbn [handle] in Hrun; try (by injection Hrun as <- <-).
  - by apply bind_Ret in Hrun as (? & _ & [= <- <-]).
  - unfold ontext in Hrun. destruct (startParse h) eqn:Hs; [|injection Hrun as <- <-; unfold going; by case_match].
    apply bind_Ret in Hrun as ([h1 o1] & (? & _ & [= <- <-])%bind_Ret & [= <- <-]). unfold going in *. by case_match.
  - unfold onopentag in Hrun. apply bind_Ret in Hrun as ([h1 o1] & H1 & [= <- <-]). destruct (startParse h) eqn:Hs.
    + destruct (goes_going _ _ (open_inside_goes _ _ _ _ _ _ _ H1) Hg) as [Hg1 Hs1]. rewrite Hs in Hs1. by case_decide.
    + injection H1 as <- <-. unfold going. destruct (match_tag _ _ _); case_decide; cbn; try done; by destruct (stack h).
  - unfold onclosetag in Hrun. apply bind_Ret in Hrun as ([h1 o1] & H1 & [= <- <-]). destruct (startParse h) eqn:Hs; [|injection H1 as <- <-; by case_decide].
    apply bind_Ret in H1 as ([h2 o2] & H2 & [= <- <-]). destruct (goes_going _ _ (close_inside_goes _ _ _ _ _ H2) Hg) as [Hg2 Hs2].
    rewrite Hs in Hs2. rewrite (decide_False (P := stack h2 = [])) by auto. by case_decide.
Qed.

Lemma handles_going e evs h o h' o' : ofold (handle e) (h, o) evs = Ret (h', o') → going h → going h' ∧ (startParse h = true → startParse h' = true).
Proof.
  revert h o. induction evs as [|ev evs IH]; intros h o; cbn [ofold]; [by intros [= <- <-]|].
  intros ([h1 o1] & H1 & H2)%bind_Ret Hg. destruct (handle_going _ _ _ _ _ _ H1 Hg) as [Hg1 Hs1]. destruct (IH _ _ H2 Hg1). tauto.
Qed.

(** once the filter has picked an element, the handler indexes everything to the
    end of the file, also what follows the element. *)
Theorem html_never_stops e o es1 n attrs es2 h o'
  (Hm : match_tag (filter e) n attrs = true)
  (Hrun : ofold (handle e) (new, o) (es1 ++ Sax.onopentag n attrs :: es2) = Ret (h, o')) : startParse h = true.
Proof.
  rewrite ofold_app in Hrun. apply bind_Ret in Hrun as ([h1 o1] & H1 & Hrun). cbn [ofold] in Hrun. apply bind_Ret in Hrun as ([h2 o2] & H2 & H3).
  destruct (handles_going _ _ _ _ _ _ H1) as [Hg1 _]; [done|]. destruct (handle_going _ _ _ _ _ _ H2 Hg1) as [Hg2 Hs2].
  apply (handles_going _ _ _ _ _ _ H3 Hg2). destruct (startParse h1) eqn:Hs; [by apply Hs2|]. cbn [handle] in H2. unfold onopentag in H2.
  rewrite Hs, Hm in H2. injection H2 as <- <-. by case_decide.
Qed.
End stops.

Lemma html_never_stops_witness : ∃ h o,
  ofold (@handle ascii_case (mkEnv (filter_new [jstr "#main"]) [] 0)) (new, Okt.new)
    [Sax.onready; Sax.onopentag (jstr "b") [(jstr "id", jstr "main")]; Sax.onclosetag (jstr "b")] = Ret (h, o) ∧ startParse h = true.
Proof.
  eexists _, _. split; [reflexivity|].
  apply (@html_never_stops ascii_case (mkEnv (filter_new [jstr "#main"]) [] 0) Okt.new [Sax.onready] (jstr "b") [(jstr "id", jstr "main")]
    [Sax.onclosetag (jstr "b")] _ Okt.new); reflexivity.
Defined.
