(* ===== verification/Stemmers.v ===== *)
(** * The stemmers by name

    Model of [_createStemmer] of [src/misc/oktavia/tool/oktavia-mkindex.jsx] and of
    the interface [src/misc/oktavia/src/stemmer/stemmer.jsx].  The class [Reliable] is
    what the search engine relies on, and what it calls a stemmer: the stemmer
    returns, whatever the word, and the stem depends on the word only.  All
    stemmers are instances; the engine and its tools see [stem_of]. *)

From S2P Require Import Prelude JsObject Suffixes BaseStemmer Snowball SnowballRules Sax SaxNesting.
From S2P Require Import Danish Dutch English Finnish French German Hungarian Italian Norwegian Porter Portuguese Romanian Russian Spanish Swedish Turkish.

Local Open Scope Z_scope.

Module Stemmers.
Import Stemmer.

(** An object that implements [Stemmer]: its fields, its method [stem], its state
    when it is new, and the tables it searches forwards and backwards. *)
Record stemmer := mk {
  fields : Type;
  stem : Stemmer.t fields → outcome (Stemmer.t fields * bool);
  new : Stemmer.t fields;
  ahead : list (list (Among fields));
  behind : list (list (Among fields))
}.

Definition danish : stemmer :=
  mk Danish.fields Danish.stem Danish.new [] [Danish.a_0; Danish.a_1; Danish.a_2].
Definition dutch : stemmer :=
  mk Dutch.fields Dutch.stem Dutch.new [Dutch.a_0; Dutch.a_1] [Dutch.a_2; Dutch.a_3; Dutch.a_4; Dutch.a_5].
Definition english : stemmer :=
  mk English.fields English.stem English.new [English.a_0; English.a_10] [English.a_1; English.a_2;
    English.a_3; English.a_4; English.a_5; English.a_6; English.a_7; English.a_8; English.a_9].
Definition finnish : stemmer :=
  mk Finnish.fields Finnish.stem Finnish.new [] [Finnish.a_0; Finnish.a_1; Finnish.a_2; Finnish.a_3;
    Finnish.a_4; Finnish.a_5; Finnish.a_6; Finnish.a_7; Finnish.a_8; Finnish.a_9].
Definition french : stemmer :=
  mk French.fields French.stem French.new [French.a_0; French.a_1] [French.a_2; French.a_3; French.a_4;
    French.a_5; French.a_6; French.a_7; French.a_8].
Definition german : stemmer :=
  mk German.fields German.stem German.new [German.a_0] [German.a_1; German.a_2; German.a_3; German.a_4].
Definition hungarian : stemmer :=
  mk Hungarian.fields Hungarian.stem Hungarian.new [Hungarian.a_0] [Hungarian.a_1; Hungarian.a_2;
    Hungarian.a_3; Hungarian.a_4; Hungarian.a_5; Hungarian.a_6; Hungarian.a_7; Hungarian.a_8; Hungarian.a_9;
    Hungarian.a_10; Hungarian.a_11].
Definition italian : stemmer :=
  mk Italian.fields Italian.stem Italian.new [Italian.a_0; Italian.a_1] [Italian.a_2; Italian.a_3;
    Italian.a_4; Italian.a_5; Italian.a_6; Italian.a_7].
Definition norwegian : stemmer :=
  mk Norwegian.fields Norwegian.stem Norwegian.new [] [Norwegian.a_0; Norwegian.a_1; Norwegian.a_2].
Definition porter : stemmer :=
  mk Porter.fields Porter.stem Porter.new [] [Porter.a_0; Porter.a_1; Porter.a_2; Porter.a_3; Porter.a_4;
    Porter.a_5].
Definition portuguese : stemmer :=
  mk Portuguese.fields Portuguese.stem Portuguese.new [Portuguese.a_0; Portuguese.a_1] [Portuguese.a_2;
    Portuguese.a_3; Portuguese.a_4; Portuguese.a_5; Portuguese.a_6; Portuguese.a_7; Portuguese.a_8].
Definition romanian : stemmer :=
  mk Romanian.fields Romanian.stem Romanian.new [Romanian.a_0] [Romanian.a_1; Romanian.a_2; Romanian.a_3;
    Romanian.a_4; Romanian.a_5].
Definition russian : stemmer :=
  mk Russian.fields Russian.stem Russian.new [] [Russian.a_0; Russian.a_1; Russian.a_2; Russian.a_3;
    Russian.a_4; Russian.a_5; Russian.a_6; Russian.a_7].
Definition spanish : stemmer :=
  mk Spanish.fields Spanish.stem Spanish.new [Spanish.a_0] [Spanish.a_1; Spanish.a_2; Spanish.a_3;
    Spanish.a_4; Spanish.a_5; Spanish.a_6; Spanish.a_7; Spanish.a_8; Spanish.a_9].
Definition swedish : stemmer :=
  mk Swedish.fields Swedish.stem Swedish.new [] [Swedish.a_0; Swedish.a_1; Swedish.a_2].
Definition turkish : stemmer :=
  mk Turkish.fields Turkish.stem Turkish.new [] [Turkish.a_0; Turkish.a_1; Turkish.a_2; Turkish.a_3;
    Turkish.a_4; Turkish.a_5; Turkish.a_6; Turkish.a_7; Turkish.a_8; Turkish.a_9; Turkish.a_10; Turkish.a_11;
    Turkish.a_12; Turkish.a_13; Turkish.a_14; Turkish.a_15; Turkish.a_16; Turkish.a_17; Turkish.a_18;
    Turkish.a_19; Turkish.a_20; Turkish.a_21; Turkish.a_22; Turkish.a_23].

Definition _createStemmer `{CaseMap} (algorithm : jsstr) : stemmer :=
  let name := toLowerCase algorithm in
  if decide (name = jstr "danish") then danish
  else if decide (name = jstr "dutch") then dutch
  else if decide (name = jstr "english") then english
  else if decide (name = jstr "finnish") then finnish
  else if decide (name = jstr "french") then french
  else if decide (name = jstr "german") then german
  else if decide (name = jstr "hungarian") then hungarian
  else if decide (name = jstr "italian") then italian
  else if decide (name = jstr "norwegian") then norwegian
  else if decide (name = jstr "porter") then porter
  else if decide (name = jstr "portuguese") then portuguese
  else if decide (name = jstr "romanian") then romanian
  else if decide (name = jstr "russian") then russian
  else if decide (name = jstr "spanish") then spanish
  else if decide (name = jstr "swedish") then swedish
  else if decide (name = jstr "turkish") then turkish
  else english.

Definition stemWord (o : stemmer) := Stemmer.stemWord (stem o).
Definition stemWords (o : stemmer) := Stemmer.stemWords (stem o).

(** The stem of a word by a new object. *)
Definition stem_of (o : stemmer) (w : jsstr) : jsstr :=
  match stem o (setCurrent (new o) w) with Ret (st, _) => current st | _ => [] end.

(** ** Every stemmer is reliable *)

Class Reliable (o : stemmer) : Prop :=
  reliable : cache (new o) = [] ∧
    ∀ st w, ∃ st' b, stem o (setCurrent st w) = Ret (st', b) ∧ current st' = stem_of o w ∧ cache st' = cache st.

Lemma stems_reliable {X} (f : Snow.test X) x a b : Rules.Stems f → Reliable (mk X f (Stemmer.new x) a b).
Proof. intros Hf. split; [done|]. intros st w. exact (Rules.stem_word_by f x st w Hf). Qed.

#[global] Instance swedish_reliable : Reliable swedish.
Proof.
  split; [done|]. intros st w. destruct (Swedish.stem_spec st w) as [(st' & b & H1 & H2 & H3) _]. exists st', b.
  split_and!; [done| |done]. destruct (Swedish.stem_spec Swedish.new w) as [(st2 & b2 & H4 & H5 & _) _].
  change (stem_of swedish w) with (match Swedish.stem (setCurrent Swedish.new w) with Ret (st, _) => current st | _ => [] end).
  rewrite H4. etrans; [exact H2|]. symmetry. exact H5.
Qed.

Ltac by_instance := apply stems_reliable; typeclasses eauto.
#[global] Instance danish_reliable : Reliable danish.
Proof. by_instance. Qed.
#[global] Instance dutch_reliable : Reliable dutch.
Proof. by_instance. Qed.
#[global] Instance english_reliable : Reliable english.
Proof. by_instance. Qed.
#[global] Instance finnish_reliable : Reliable finnish.
Proof. by_instance. Qed.
#[global] Instance french_reliable : Reliable french.
Proof. by_instance. Qed.
#[global] Instance german_reliable : Reliable german.
Proof. by_instance. Qed.
#[global] Instance hungarian_reliable : Reliable hungarian.
Proof. by_instance. Qed.
#[global] Instance italian_reliable : Reliable italian.
Proof. by_instance. Qed.
#[global] Instance norwegian_reliable : Reliable norwegian.
Proof. by_instance. Qed.
#[global] Instance porter_reliable : Reliable porter.
Proof. by_instance. Qed.
#[global] Instance portuguese_reliable : Reliable portuguese.
Proof. by_instance. Qed.
#[global] Instance romanian_reliable : Reliable romanian.
Proof. by_instance. Qed.
#[global] Instance russian_reliable : Reliable russian.
Proof. by_instance. Qed.
#[global] Instance spanish_reliable : Reliable spanish.
Proof. by_instance. Qed.
#[global] Instance turkish_reliable : Reliable turkish.
Proof. by_instance. Qed.

Lemma created_reliable `{CaseMap} algorithm : Reliable (_createStemmer algorithm).
Proof. unfold _createStemmer. repeat (case_decide; [apply _|]). apply _. Qed.

(** C11: Every stemmer of the repository returns on every list of words, without an
    exception, an undefined value or an endless loop, and the stem of a word depends
    neither on the words that were stemmed before it nor on the cache. *)
Theorem every_stemmer `{CaseMap} algorithm words w :
  let o := _createStemmer algorithm in
  ∃ st st', stemWords o (new o) words = Ret (st, stem_of o <$> words) ∧ stemWord o st w = Ret (st', stem_of o w).
Proof.
  cbv zeta. destruct (created_reliable algorithm) as [Hnew Ho]. set (o := _createStemmer algorithm) in *.
  destruct (stemWords_spec (stem o) (stem_of o) Ho (new o) words) as (st & Hws & Hc).
  { intros w' r. by rewrite Hnew. }
  destruct (stemWord_spec (stem o) (stem_of o) Ho st w Hc) as (st' & Hw & _). by exists st, st'.
Qed.

Lemma every_stemmer_witness :
  let o := @_createStemmer ascii_case (jstr "Porter") in
  stem_of o (jstr "relational") = jstr "relat" ∧
  ∃ st st', stemWords o (new o) [jstr "caresses"; jstr "happy"] = Ret (st, [jstr "caress"; jstr "happi"]) ∧
    stemWord o st (jstr "relational") = Ret (st', jstr "relat").
Proof.
  split; [vm_compute; reflexivity|].
  destruct (@every_stemmer ascii_case (jstr "Porter") [jstr "caresses"; jstr "happy"] (jstr "relational")) as (st & st' & H1 & H2).
  exists st, st'. split; [rewrite H1|rewrite H2]; vm_compute; reflexivity.
Defined.

(** ** The tables *)

Definition from_end {X} (e : Among X) : jsstr := reverse (s e).

(** The tables of a stemmer are sorted and linked as the binary searches need it. *)
Definition tables_ok (o : stemmer) : bool :=
  forallb (λ v, bool_decide (table_ok s v ∧ 0 < zlen v < 2 ^ 31)) (ahead o) &&
  forallb (λ v, bool_decide (table_ok from_end v ∧ 0 < zlen v < 2 ^ 31)) (behind o).

Lemma created_tables `{CaseMap} algorithm : tables_ok (_createStemmer algorithm) = true.
Proof. unfold _createStemmer. repeat (case_decide; [vm_compute; reflexivity|]). vm_compute. reflexivity. Qed.

(** C26: In the tables of every stemmer the searches find the longest entry that
    follows the cursor, or ends at it, whatever the text and the cursor; the tables
    with conditions on their entries are those of the Finnish cases. *)
Theorem tables_searched `{CaseMap} algorithm (st : Stemmer.t (fields (_createStemmer algorithm))) v :
  inside st → methodless v →
  (v ∈ ahead (_createStemmer algorithm) →
     ∃ r, find_among st v (zlen v) = Ret (matched st (λ w, cursor st + s_size w) r) ∧ longest (text_ahead st) s v r) ∧
  (v ∈ behind (_createStemmer algorithm) →
     ∃ r, find_among_b st v (zlen v) = Ret (matched st (λ w, cursor st - s_size w) r) ∧ longest (text_behind st) from_end v r).
Proof.
  intros Hst Hm. pose proof (created_tables algorithm) as Ht. unfold tables_ok in Ht. rewrite andb_true_iff, !forallb_forall in Ht.
  split; intros Hv%list_elem_of_In.
  - destruct Ht as [Ht _]. specialize (Ht v Hv). apply bool_decide_eq_true_1 in Ht as [Ht Hn]. by apply find_among_spec.
  - destruct Ht as [_ Ht]. specialize (Ht v Hv). apply bool_decide_eq_true_1 in Ht as [Ht Hn]. by apply find_among_b_spec.
Qed.

Definition sample_state : Stemmer.t English.fields := setCurrent English.new (jstr "generally").

Lemma tables_searched_witness :
  (inside sample_state ∧ methodless English.a_10 ∧ methodless English.a_0) ∧
  ∃ r, find_among sample_state English.a_0 (zlen English.a_0) = Ret (matched sample_state (λ w, cursor sample_state + s_size w) r) ∧
       longest (text_ahead sample_state) s English.a_0 r.
Proof.
  assert (inside sample_state ∧ methodless English.a_10 ∧ methodless English.a_0) as Hyp.
  { split_and!; [|repeat constructor..]. unfold inside. split; split; vm_compute; discriminate. }
  split; [exact Hyp|]. destruct Hyp as (Hi & _ & Hm).
  apply (@tables_searched ascii_case (jstr "english") sample_state English.a_0 Hi Hm). apply list_elem_of_here.
Defined.

End Stemmers.
