(* ===== verification/MkIndex.v ===== *)
(** * The index generator

    Model of [src/misc/oktavia/tool/oktavia-mkindex.jsx], with the readers of CSV
    and text files ([csvparser.jsx] and [textparser.jsx] in [src/misc/oktavia/src]),
    which index nothing.  The file system is an argument: what the paths stand for,
    and their names, are asked of it; the directories and the file that a run makes
    are its result.  Messages on the standard output are left out. *)

From Stdlib Require QArith_base.
From S2P Require Import Prelude JsObject Binary Lang Text Oktavia Sax HtmlParser Getopt WebSearch Stemmers.

Local Open Scope Z_scope.
Local Open Scope js_scope.

(** What the tool asks of Node's [path] module. *)
Class NodePath := {
  cwd : jsstr;
  resolve : list jsstr → jsstr;
  relative : jsstr → jsstr → jsstr;
  dirname : jsstr → jsstr;
}.

Module MkIndex.
Import Getopt.

Inductive kind := IsFile | IsDirectory | IsOther.

Record fs := mkFs { stat : jsstr → option kind; readdirSync : jsstr → list jsstr; readFileSync : jsstr → jsstr }.

Definition existsSync (f : fs) (path : jsstr) : bool := match stat f path with Some _ => true | None => false end.

(** ** Options *)

(** A [null] is kept as the string that it is printed as, where it is only printed. *)
Record options := mkOptions {
  inputs : list (option jsstr);
  root : jsstr;
  prefix : jsstr;
  output : jsstr;
  showhelp : bool;
  notrun : bool;
  unit : jsstr;
  type : jsstr;
  mode : jsstr;
  verbose : bool;
  filter : list jsstr;
  algorithm : option jsstr;
  cacheDensity : Text.number;
  name : option jsstr;
  errors : list jsstr;
}.

Definition validModes : list jsstr := [jstr "html"; jstr "csv"; jstr "text"].
Definition validUnitsForHTML : list jsstr := [jstr "file"; jstr "h1"; jstr "h2"; jstr "h3"; jstr "h4"; jstr "h5"; jstr "h6"].
Definition validUnitsForText : list jsstr := [jstr "file"; jstr "block"; jstr "line"].
Definition validStemmers : list jsstr :=
  jstr <$> ["danish"; "dutch"; "english"; "finnish"; "french"; "german"; "hungarian"; "italian"; "norwegian"; "porter";
            "portuguese"; "romanian"; "russian"; "spanish"; "swedish"; "turkish"]%string.
Definition validTypes : list jsstr := [jstr "index"; jstr "base64"; jstr "cmd"; jstr "js"; jstr "commonjs"].

Definition declarations : jsstr :=
  jstr "n:(name)q(quiet)m:(mode)i:(input)r:(root)p:(prefix)o:(output)h(help)u:(unit)f:(filter)s:(stemmer)w:(word-splitter)t:(type)c:(cache-density)".

(** The first decimal number in a string: digits, with a point and more digits
    after them perhaps. *)
Fixpoint digits (s : jsstr) : jsstr * jsstr :=
  match s with
  | c :: s' => if decide (48 ≤ c ≤ 57) then let '(a, b) := digits s' in (c :: a, b) else ([], s)
  | [] => ([], [])
  end.

Definition numeral (s : jsstr) : Z := foldl (λ n c, 10 * n + (c - 48)) 0 s.

Definition decimal_at (s : jsstr) : option Text.number :=
  match digits s with
  | ([], _) => None
  | (whole, 46 :: rest) =>
    let fraction := (digits rest).1 in
    Some (QArith_base.Qmake (numeral (whole ++ fraction)) (Z.to_pos (10 ^ zlen fraction)))
  | (whole, _) => Some (QArith_base.Qmake (numeral whole) 1)
  end.

Fixpoint find_decimal (s : jsstr) : option Text.number :=
  match decimal_at s, s with
  | Some n, _ => Some n
  | None, _ :: s => find_decimal s
  | None, [] => None
  end.

(** [0.1 <= n && n <= 100] *)
Definition density_ok (n : Text.number) : bool :=
  let d := Z.pos (QArith_base.Qden n) in bool_decide (d ≤ 10 * QArith_base.Qnum n ∧ QArith_base.Qnum n ≤ 100 * d).

Section tool.
Context `{CaseMap, Runtime, NodePath}.

Definition defaults : options :=
  mkOptions [] cwd (jstr "/") (jstr "search") false false (jstr "file") (jstr "js") [] true [] None (Text.percent 5) None [].

Definition report (msg : jsstr) (o : options) : options :=
  mkOptions (inputs o) (root o) (prefix o) (output o) (showhelp o) (notrun o) (unit o) (type o) (mode o) (verbose o) (filter o) (algorithm o)
    (cacheDensity o) (name o) (errors o ++ [msg]).
Definition stop (o : options) : options :=
  mkOptions (inputs o) (root o) (prefix o) (output o) (showhelp o) true (unit o) (type o) (mode o) (verbose o) (filter o) (algorithm o)
    (cacheDensity o) (name o) (errors o).
Definition fail (msg : string) (o : options) : options := stop (report (jstr msg) o).
Definition set_mode (v : jsstr) (o : options) : options :=
  mkOptions (inputs o) (root o) (prefix o) (output o) (showhelp o) (notrun o) (unit o) (type o) v (verbose o) (filter o) (algorithm o)
    (cacheDensity o) (name o) (errors o).
Definition add_input (v : option jsstr) (o : options) : options :=
  mkOptions (inputs o ++ [v]) (root o) (prefix o) (output o) (showhelp o) (notrun o) (unit o) (type o) (mode o) (verbose o) (filter o)
    (algorithm o) (cacheDensity o) (name o) (errors o).
Definition set_root (v : jsstr) (o : options) : options :=
  mkOptions (inputs o) v (prefix o) (output o) (showhelp o) (notrun o) (unit o) (type o) (mode o) (verbose o) (filter o) (algorithm o)
    (cacheDensity o) (name o) (errors o).
Definition set_prefix (v : jsstr) (o : options) : options :=
  mkOptions (inputs o) (root o) v (output o) (showhelp o) (notrun o) (unit o) (type o) (mode o) (verbose o) (filter o) (algorithm o)
    (cacheDensity o) (name o) (errors o).
Definition set_name (v : option jsstr) (o : options) : options :=
  mkOptions (inputs o) (root o) (prefix o) (output o) (showhelp o) (notrun o) (unit o) (type o) (mode o) (verbose o) (filter o) (algorithm o)
    (cacheDensity o) v (errors o).
Definition set_output (v : jsstr) (o : options) : options :=
  mkOptions (inputs o) (root o) (prefix o) v (showhelp o) (notrun o) (unit o) (type o) (mode o) (verbose o) (filter o) (algorithm o)
    (cacheDensity o) (name o) (errors o).
Definition set_help (o : options) : options :=
  mkOptions (inputs o) (root o) (prefix o) (output o) true (notrun o) (unit o) (type o) (mode o) (verbose o) (filter o) (algorithm o)
    (cacheDensity o) (name o) (errors o).
Definition set_quiet (o : options) : options :=
  mkOptions (inputs o) (root o) (prefix o) (output o) (showhelp o) (notrun o) (unit o) (type o) (mode o) false (filter o) (algorithm o)
    (cacheDensity o) (name o) (errors o).
Definition set_unit (v : jsstr) (o : options) : options :=
  mkOptions (inputs o) (root o) (prefix o) (output o) (showhelp o) (notrun o) v (type o) (mode o) (verbose o) (filter o) (algorithm o)
    (cacheDensity o) (name o) (errors o).
Definition add_filters (v : list jsstr) (o : options) : options :=
  mkOptions (inputs o) (root o) (prefix o) (output o) (showhelp o) (notrun o) (unit o) (type o) (mode o) (verbose o) (filter o ++ v)
    (algorithm o) (cacheDensity o) (name o) (errors o).
Definition set_type (v : jsstr) (o : options) : options :=
  mkOptions (inputs o) (root o) (prefix o) (output o) (showhelp o) (notrun o) (unit o) v (mode o) (verbose o) (filter o) (algorithm o)
    (cacheDensity o) (name o) (errors o).
Definition set_algorithm (v : jsstr) (o : options) : options :=
  mkOptions (inputs o) (root o) (prefix o) (output o) (showhelp o) (notrun o) (unit o) (type o) (mode o) (verbose o) (filter o) (Some v)
    (cacheDensity o) (name o) (errors o).
Definition set_density (v : Text.number) (o : options) : options :=
  mkOptions (inputs o) (root o) (prefix o) (output o) (showhelp o) (notrun o) (unit o) (type o) (mode o) (verbose o) (filter o) (algorithm o)
    v (name o) (errors o).

Definition null : jsstr := jstr "null".

(** [list.indexOf(arg) == -1] *)
Definition invalid (list : list jsstr) (arg : option jsstr) : bool :=
  match arg with Some v => bool_decide (indexOf list v = -1) | None => true end.

(** The body of the loop.  A word that is no option is an option without argument
    here, also if it is the letter of one that needs an argument. *)
Definition option_step (o : options) (opt : CommandOption) : outcome options :=
  let arg := optarg opt in
  match option_ opt with
  | Str [109] =>
    let o := if invalid validModes arg then fail "Option m/mode should be 'html', 'csv', 'text'." o else o in
    Ret (set_mode (default [] arg) o)
  | Str [105] => Ret (add_input arg o)
  | Str [114] => match arg with Some v => Ret (set_root (resolve [v]) o) | None => Throw "TypeError" end
  | Str [112] => Ret (set_prefix (default null arg) o)
  | Str [110] => Ret (set_name arg o)
  | Str [111] =>
    match arg with
    | Some v => Ret (set_output (if decide (js_slice v 0 1 = jstr "/") then js_slice v 1 (zlen v) else v) o)
    | None => Throw "TypeError"
    end
  | Str [104] => Ret (set_help o)
  | Str [113] => Ret (set_quiet o)
  | Str [117] => Ret (set_unit (default null arg) o)
  | Str [102] => match arg with Some v => Ret (add_filters (split_char 44 [] v) o) | None => Throw "TypeError" end
  | Str [116] => Ret (match arg with Some v => if invalid validTypes arg then fail "Option -t/--type is invalid." o else set_type v o
                      | None => fail "Option -t/--type is invalid." o end)
  | Str [115] => Ret (match arg with Some v => if invalid validStemmers arg then fail "Option -s/--stemmer is invalid." o else set_algorithm v o
                      | None => fail "Option -s/--stemmer is invalid." o end)
  | Str [99] =>
    match find_decimal (default null arg) with
    | Some n =>
      if density_ok n then Ret (set_density n o) else Ret (fail "Option -c/--cache-density should be in 0.1 - 100." o)
    | None => Ret (fail "Option -c/--cache-density is invalid." o)
    end
  | Str [63] => Ret (stop o)
  | _ => Ret o
  end.

Fixpoint read_options (fuel : nat) (p : Getopt.t) (o : options) : outcome (Getopt.t * options) :=
  match fuel with
  | O => NoFuel
  | S fuel =>
    '(p, opt) ← getopt p;
    match opt with
    | None => Ret (p, o)
    | Some opt => o ← option_step o opt; read_options fuel p o
    end
  end.

(** ** Files *)

Record files := mkFiles { texts : list jsstr; HTMLs : list jsstr; CSVs : list jsstr }.

(** The last [.] of a line. *)
Fixpoint last_dot (s : jsstr) : option (jsstr * jsstr) :=
  match s with
  | [] => None
  | c :: s =>
    match last_dot s with
    | Some (a, b) => Some (c :: a, b)
    | None => if decide (c = 46) then Some ([], s) else None
    end
  end.

Fixpoint split_lines (s cur : jsstr) : list jsstr :=
  match s with
  | [] => [cur]
  | c :: s => if decide (c ∈ [10; 13; 8232; 8233]) then cur :: split_lines s [] else split_lines s (cur ++ [c])
  end.

(** What is before and after the last [.] of the first line that has one. *)
Definition match_dot (path : jsstr) : option (jsstr * jsstr) := head (omap last_dot (split_lines path [])).

Definition _checkFileType (path : jsstr) (l : files) : files :=
  match match_dot path with
  | Some (_ :: _, ext) =>
    let ext := toLowerCase ext in
    if decide (ext = jstr "html" ∨ ext = jstr "htm") then mkFiles (texts l) (HTMLs l ++ [path]) (CSVs l)
    else if decide (ext = jstr "csv") then mkFiles (texts l) (HTMLs l) (CSVs l ++ [path])
    else mkFiles (texts l ++ [path]) (HTMLs l) (CSVs l)
  | _ => l
  end.

Fixpoint _checkDirectory (fuel : nat) (f : fs) (path : jsstr) (l : files) : outcome files :=
  match fuel with
  | O => NoFuel
  | S fuel =>
    ofold (λ l file,
      let filepath := resolve [path; file] in
      match stat f filepath with
      | None => Throw "ENOENT"
      | Some IsFile => Ret (_checkFileType filepath l)
      | Some IsDirectory => _checkDirectory fuel f filepath l
      | Some IsOther => Ret l
      end) l (readdirSync f path)
  end.

Definition check_input (fuel : nat) (f : fs) (st : options * files) (input : option jsstr) : outcome (options * files) :=
  let '(o, l) := st in
  match input with
  | None => Ret (fail "Following input folder/file doesn't exist: null" o, l)
  | Some path =>
    match stat f path with
    | None => Ret (stop (report (jstr "Following input folder/file doesn't exist: " ++ path) o), l)
    | Some IsFile => Ret (o, _checkFileType (resolve [path]) l)
    | Some IsDirectory => l ← _checkDirectory fuel f path l; Ret (o, l)
    | Some IsOther => Ret (stop (report (jstr "Following input is not folder or file: " ++ path) o), l)
    end
  end.

(** The directories that are made, the outer ones first. *)
Fixpoint _mkdirP (fuel : nat) (f : fs) (path : jsstr) : outcome (list jsstr) :=
  match fuel with
  | O => NoFuel
  | S fuel => if existsSync f path then Ret [] else made ← _mkdirP fuel f (dirname path); Ret (made ++ [path])
  end.

(** ** The run *)

Definition parse_html (fuel : nat) (f : fs) (o : options) (p : Html.t) (filepath : jsstr) : outcome Html.t :=
  Html.parse fuel p (relative (root o) filepath) (readFileSync f filepath).

Definition index_html (fuel : nat) (f : fs) (o : options) (unitIndex : Z) (HTMLs : list jsstr) : outcome jsstr :=
  p ← Html.parser_new unitIndex (prefix o) (filter o) ((λ name, Stemmers.stem_of (Stemmers._createStemmer name)) <$> algorithm o);
  p ← ofold (parse_html fuel f o) p HTMLs;
  Html.dump p (cacheDensity o).

(** The files of the other modes are read and dropped. *)
Definition generate (fuel : nat) (f : fs) (o : options) (l : files) : outcome (options * option jsstr) :=
  if decide (mode o = jstr "html") then
    let unitIndex := indexOf validUnitsForHTML (unit o) in
    if decide (unitIndex = -1) then
      Ret (report (jstr "Option -u/--unit should be file, h1, h2, h3, h4, h5, h6. But " ++ unit o) o, None)
    else dump ← index_html fuel f o unitIndex (HTMLs l); Ret (o, Some dump)
  else if decide (mode o = jstr "text") then
    if decide (indexOf validUnitsForText (unit o) = -1) then
      Ret (report (jstr "Option u/unit should be file, block, line. But " ++ unit o) o, None)
    else Ret (o, None)
  else Ret (o, None).

(** The file that is written: its path, its contents and how they are encoded. *)
Definition source (declare : string) (o : options) (dump : jsstr) : jsstr :=
  Lang.join [10] [jstr "// Oktavia Search Index";
    jstr declare ++ default (jstr "searchIndex") (name o) ++ jstr " = " ++ [34] ++ Bin.base64encode dump ++ [34; 59]; []].

Definition index_file (o : options) (dump : jsstr) : option (jsstr * jsstr * string) :=
  let at_root file := resolve [root o; output o; jstr file] in
  if decide (type o = jstr "index") then Some (at_root "searchindex.okt", dump, "utf16le"%string)
  else if decide (type o = jstr "base64") then Some (at_root "searchindex.okt.b64", Bin.base64encode dump, "utf8"%string)
  else if decide (type o = jstr "js") then Some (at_root "searchindex.js", source "var " o dump, "utf8"%string)
  else if decide (type o = jstr "commonjs") then Some (at_root "searchindex.js", source "exports." o dump, "utf8"%string)
  else None.

(** What a run leaves: the messages of the option parser and then those of the tool,
    whether the usage was shown, and the directories and the file it made. *)
Record run := mkRun { reported : list jsstr; usage : bool; made : list jsstr; wrote : option (jsstr * jsstr * string) }.

Definition write_index (fuel : nat) (f : fs) (o : options) (p : Getopt.t) (dump : jsstr) : outcome run :=
  match index_file o dump with
  | Some (path, data, encoding) =>
    made ← _mkdirP fuel f (dirname path);
    Ret (mkRun (stderr p ++ errors o) false made (Some (path, data, encoding)))
  | None => Ret (mkRun (stderr p ++ errors o) false [] None)
  end.

Definition main (fuel : nat) (f : fs) (args : list jsstr) : outcome run :=
  p ← Getopt.new declarations args;
  '(p, o) ← read_options fuel p defaults;
  let o := if decide (filter o = []) then add_filters [jstr "article"; jstr "#content"; jstr "#main"; jstr "div.body"] o else o in
  '(o, l) ← ofold (check_input fuel f) (o, mkFiles [] [] []) (inputs o);
  if showhelp o || bool_decide (texts l = [] ∧ HTMLs l = [] ∧ CSVs l = []) || bool_decide (mode o = []) then
    Ret (mkRun (stderr p ++ errors o) true [] None)
  else if notrun o then Ret (mkRun (stderr p ++ errors o) false [] None)
  else
    '(o, dump) ← generate fuel f o l;
    match dump with
    | Some (c :: dump) => write_index fuel f o p (c :: dump)
    | _ => Ret (mkRun (stderr p ++ errors o) false [] None)
    end.

End tool.
End MkIndex.
