(* ===== verification/MkSite.v ===== *)
(** * From a command line to the search page

    The index generator of [MkIndex.v] is run on a site of HTML pages, and its file is
    loaded by the search page of [WebSearch.v]: the sections of the pages are found. *)

From S2P Require Import Prelude JsObject Binary Lang Text Metadata Query Oktavia OktaviaSearch OktaviaFile CodeUnits Sax SaxNesting SaxRoundtrip Style.
From S2P Require Import WebSearch WebResults HtmlParser HtmlIndex HtmlSite Getopt MkIndex.

Local Open Scope Z_scope.
Local Open Scope js_scope.

Import OktSearch MkIndex.

(** ** The command line *)

Definition takes_value (c : string) (n : string) : Getopt.decl := {| Getopt.letter := default 0 (head (jstr c)); Getopt.takes := true; Getopt.names := [jstr n] |}.
Definition is_flag (c : string) (n : string) : Getopt.decl := {| Getopt.letter := default 0 (head (jstr c)); Getopt.takes := false; Getopt.names := [jstr n] |}.

Definition declared : list Getopt.decl :=
  [takes_value "n" "name"; is_flag "q" "quiet"; takes_value "m" "mode"; takes_value "i" "input"; takes_value "r" "root";
   takes_value "p" "prefix"; takes_value "o" "output"; is_flag "h" "help"; takes_value "u" "unit"; takes_value "f" "filter";
   takes_value "s" "stemmer"; takes_value "w" "word-splitter"; takes_value "t" "type"; takes_value "c" "cache-density"].

Lemma declared_print : Getopt.optstring false declared = declarations.
Proof. reflexivity. Qed.

Lemma declared_ok : Forall Getopt.decl_ok declared ∧ NoDup (Getopt.letter <$> declared) ∧ NoDup (concat (Getopt.names <$> declared)).
Proof. split_and!; decided. Qed.

Section site.
Context `{CaseMap, Runtime, NodePath}.

Lemma read_options_reads p os q p' o o' fuel :
  Getopt.reads p os q → Getopt.getopt q = Ret (p', None) → ofold option_step o os = Ret o' → (length os < fuel)%nat →
  read_options fuel p o = Ret (p', o').
Proof.
  intros Hr Hq. revert o fuel. induction Hr as [p|p x p1 os q Hx _ IH]; intros o fuel Ho Hf; (destruct fuel as [|fuel]; [cbn in Hf; lia|]); cbn [read_options].
  - rewrite Hq. cbn [mbind outcome_bind]. by injection Ho as <-.
  - rewrite Hx. cbn [mbind outcome_bind ofold length] in *. apply bind_Ret in Ho as (o1 & -> & Ho). cbn [mbind outcome_bind]. apply IH; [done..|lia].
Qed.

Lemma line_options xs o fuel :
  Forall (Getopt.item_ok declared) xs → ofold option_step defaults (concat (Getopt.meaning <$> xs)) = Ret o →
  (length (concat (Getopt.meaning <$> xs)) < fuel)%nat →
  ∃ p p', Getopt.new declarations (concat (Getopt.words <$> xs)) = Ret p ∧ read_options fuel p defaults = Ret (p', o) ∧ Getopt.stderr p' = [].
Proof.
  intros Hxs Ho Hf. destruct declared_ok as (Hd & Hl & Hn).
  destruct (Getopt.line_reads false declared xs Getopt.Done Hd Hl Hn Hxs I) as (p & p' & q & Hp & Hr & Hq & _ & He).
  cbn [Getopt.tail_words Getopt.tail_meaning] in *. rewrite !app_nil_r in *. rewrite declared_print in Hp. exists p, p'.
  split_and!; [done| |done]. by eapply read_options_reads.
Qed.

(** ** The run *)

(** The filter of the tool. *)
Definition with_filter (o : options) : options :=
  if decide (filter o = []) then add_filters [jstr "article"; jstr "#content"; jstr "#main"; jstr "div.body"] o else o.

(** The level of headings that start sections. *)
Definition level (o : options) : Z := indexOf validUnitsForHTML (unit o).

(** The pages with the paths that they are published under. *)
Definition published (o : options) (site : list (jsstr * page)) : list (jsstr * page) := prod_map (relative (root o)) id <$> site.

Definition site_docs (o : options) (site : list (jsstr * page)) : list (jsstr * jsstr) :=
  site_sections (level o) (prefix o) (published o site).

(** The options of a command line that ask for a JavaScript file with the index of
    the HTML files below the inputs. *)
Record asks (fuel : nat) (f : fs) (o : options) (site : list (jsstr * page)) : Prop := {
  asks_mode : mode o = jstr "html";
  asks_unit : unit o ∈ validUnitsForHTML;
  asks_type : type o = jstr "js";
  asks_plain : algorithm o = None;
  asks_run : showhelp o = false ∧ notrun o = false ∧ errors o = [];
  asks_filter : selects (Html.filter_new (filter (with_filter o)));
  asks_inputs : ∃ l, ofold (check_input fuel f) (with_filter o, mkFiles [] [] []) (inputs o) = Ret (with_filter o, l) ∧ HTMLs l = site.*1;
}.

(** The files of a site. *)
Definition holds_site (fuel : nat) (f : fs) (site : list (jsstr * page)) : Prop :=
  Forall (λ x, readFileSync f x.1 = print (page_node x.2) ∧ page_ok x.2 ∧ (length (print (page_node x.2)) < fuel)%nat) site.

Lemma with_filter_same o : prefix (with_filter o) = prefix o ∧ root (with_filter o) = root o ∧ unit (with_filter o) = unit o ∧
  mode (with_filter o) = mode o ∧ type (with_filter o) = type o ∧ algorithm (with_filter o) = algorithm o ∧ inputs (with_filter o) = inputs o ∧
  showhelp (with_filter o) = showhelp o ∧ notrun (with_filter o) = notrun o ∧ errors (with_filter o) = errors o ∧
  name (with_filter o) = name o ∧ output (with_filter o) = output o ∧ cacheDensity (with_filter o) = cacheDensity o.
Proof. unfold with_filter. by case_decide. Qed.

Lemma files_parsed fuel f o site p : holds_site fuel f site →
  ofold (parse_html fuel f o) p site.*1 = ofold (parse_file fuel) p (page_file <$> published o site).
Proof.
  intros Hs. revert p. induction Hs as [|[path g] site [Hr _] _ IH]; intros p; [done|]. cbn [fmap list_fmap fst snd ofold published] in *.
  assert (parse_html fuel f o p path = parse_file fuel p (page_file (relative (root o) path, g))) as -> by (unfold parse_html; by rewrite Hr).
  change (prod_map (relative (root o)) id (path, g)) with (relative (root o) path, g).
  destruct (parse_file fuel p _); cbn [mbind outcome_bind]; [apply IH|done..].
Qed.

Lemma dump_some e s : Okt.dump e = Ret s → s ≠ [].
Proof.
  unfold Okt.dump. intros (fm & _ & Hd)%bind_Ret ->. destruct (Bin.dumpStringListMap _ _) as [stems r].
  apply bind_Ret in Hd as (ms & _ & Hd%Ret_inj).
  apply (f_equal zlen) in Hd. rewrite zlen_app, OktFile.header_length in Hd.
  match type of Hd with 5 + zlen ?x = _ => pose proof (zlen_nonneg x) end. rewrite zlen_nil in Hd. lia.
Qed.

(** A run that finds nothing to report. *)
Lemma main_writes fuel f xs o site made dump :
  Forall (Getopt.item_ok declared) xs → ofold option_step defaults (concat (Getopt.meaning <$> xs)) = Ret o →
  (length (concat (Getopt.meaning <$> xs)) < fuel)%nat → asks fuel f o site → site ≠ [] →
  index_html fuel f (with_filter o) (level o) site.*1 = Ret dump → dump ≠ [] →
  _mkdirP fuel f (dirname (resolve [root o; output o; jstr "searchindex.js"])) = Ret made →
  main fuel f (concat (Getopt.words <$> xs)) =
    Ret (mkRun [] false made (Some (resolve [root o; output o; jstr "searchindex.js"], source "var " o dump, "utf8"%string))).
Proof.
  intros Hxs Ho Hfuel [Hmode Hunit Htype Hplain (Hhelp & Hrun & Herr) Hf (l & Hin & HL)] Hne Hidx Hd Hmade.
  destruct (line_options xs o fuel Hxs Ho Hfuel) as (p0 & p1 & Hp0 & Hp1 & Hstd).
  destruct (with_filter_same o) as (Epre & Eroot & Eunit & Emode & Etype & Ealg & Einp & Ehelp & Erun & Eerr & Ename & Eout & Eden).
  unfold main. rewrite Hp0. cbn [mbind outcome_bind]. rewrite Hp1. cbn [mbind outcome_bind]. cbv zeta. fold (with_filter o).
  rewrite Einp, Hin. cbn [mbind outcome_bind]. rewrite Ehelp, Hhelp, Emode, Hmode, HL.
  rewrite bool_decide_eq_false_2 by (intros (_ & Hnil & _); destruct site; [exact (Hne eq_refl)|discriminate Hnil]). cbn [orb].
  rewrite bool_decide_eq_false_2 by discriminate. rewrite Erun, Hrun. unfold generate. rewrite Emode, Hmode, decide_True by reflexivity.
  rewrite Eunit. fold (level o). cbv zeta. pose proof (indexOf_range _ _ Hunit). rewrite decide_False by (unfold level; lia).
  rewrite HL, Hidx. cbn [mbind outcome_bind]. clear Hin Ho Hidx Hp0 Hp1. destruct dump as [|c dump]; [destruct (Hd eq_refl)|].
  unfold write_index, index_file. rewrite Etype, Htype. rewrite (decide_False (P := jstr "js" = jstr "index")) by discriminate.
  rewrite (decide_False (P := jstr "js" = jstr "base64")) by discriminate. rewrite decide_True by reflexivity.
  rewrite Eroot, Eout, Hmade. cbn [mbind outcome_bind]. rewrite Hstd, Eerr, Herr. unfold source. rewrite Ename. reflexivity.
Qed.

(** No match runs over the end of a section, unless the word has a line break. *)
Lemma site_apart o site word : 10 ∉ word → apart (site_docs o site) word.
Proof.
  intros Hw. unfold apart, site_docs, site_sections. apply Forall_forall. intros d Hd. exists 10. split; [|done].
  apply list_elem_of_bind in Hd as ([path g] & Hd & _).
  assert (Forall (λ d, list.last d.2 = Some 10) (page_sections (level o) (prefix o ++ path) g)) as Hend.
  { apply sections_end. unfold item_text. by rewrite app_assoc, last_snoc. }
  rewrite Forall_forall in Hend. by apply Hend.
Qed.



(** ** Errors *)

(** The option parser reports a message only with an option that is wrong. *)
Definition reports (p : Getopt.t) (m : outcome (Getopt.t * Getopt.CommandOption)) : Prop :=
  ∀ p' x, m = Ret (p', x) → Getopt.stderr p' = Getopt.stderr p ∨ ∃ chr, x = Getopt.failed chr.

Lemma argument_reports p q chr : Getopt.stderr q = Getopt.stderr p → reports p (Getopt._getoptArgument q chr).
Proof.
  intros Hq p' x. unfold Getopt._getoptArgument, Getopt._errMissingArg. case_decide.
  - destruct (Getopt._silent q); intros [= <- <-]; [by left|right; by eexists].
  - intros (arg & _ & [= <- <-])%bind_Ret. by left.
Qed.

Lemma short_reports p q : Getopt.stderr q = Getopt.stderr p → reports p (Getopt._getoptShort q).
Proof.
  intros Hq p' x. unfold Getopt._getoptShort. intros (arg & _ & Hx)%bind_Ret. revert Hx. cbv zeta. set (q' := if decide _ then _ else _).
  assert (Getopt.stderr q' = Getopt.stderr p) as Hq' by (unfold q'; by case_decide).
  destruct (Obj.get _ _) as [[]|]; [by apply argument_reports|intros [= <- <-]; by left|intros [= <- <-]; right; by eexists].
Qed.

Lemma long_reports p : reports p (Getopt._getoptLong p).
Proof.
  intros p' x. unfold Getopt._getoptLong. intros (arg & _ & Hx)%bind_Ret. revert Hx. cbv zeta.
  destruct (Obj.read _ _) as [chr| |]; [destruct (default false _)|..].
  - by case_decide; apply argument_reports.
  - case_decide; intros [= <- <-]; [right; by eexists|by left].
  - case_decide; intros [= <- <-]; [right; by eexists|by left].
  - intros [= <- <-]. right. by eexists.
Qed.

Lemma getopt_reports p p' opt : Getopt.getopt p = Ret (p', opt) → Getopt.stderr p' = Getopt.stderr p ∨ ∃ chr, opt = Some (Getopt.failed chr).
Proof.
  assert (∀ m, reports p m → ('(p, o) ← m; Ret (p, Some o)) = Ret (p', opt) →
    Getopt.stderr p' = Getopt.stderr p ∨ ∃ chr, opt = Some (Getopt.failed chr)) as Hbind.
  { intros m Hm ([q x] & Hx & [= <- <-])%bind_Ret. destruct (Hm q x Hx) as [?|[chr ->]]; [by left|right; by eexists]. }
  unfold Getopt.getopt. case_decide; [intros [= <- <-]; by left|]. intros (arg & _ & Hx)%bind_Ret. revert Hx.
  repeat (case_match; [try (intros [= <- <-]; by left)|try (intros [= <- <-]; by left)]); apply Hbind; by (apply long_reports || apply short_reports).
Qed.

(** A run goes on only if there is nothing to report. *)
Definition clean (o : options) : Prop := notrun o = false → errors o = [].

Lemma option_step_clean o opt o' : option_step o opt = Ret o' → clean o → clean o' ∧ (notrun o = true → notrun o' = true).
Proof.
  intros Hs Hc. revert Hs. unfold option_step. repeat case_match; intros [= <-]; unfold clean in *; cbn; try done; by split.
Qed.

Lemma read_options_clean fuel p o p' o' :
  read_options fuel p o = Ret (p', o') → clean o → (notrun o = false → Getopt.stderr p = []) →
  clean o' ∧ (notrun o' = false → Getopt.stderr p' = []).
Proof.
  revert p o. induction fuel as [|fuel IH]; intros p o; [done|]. cbn [read_options].
  intros ([q opt] & Hg & Hrest)%bind_Ret Hc Hp. destruct opt as [opt|].
  - apply bind_Ret in Hrest as (o1 & Ho1 & Hrest). destruct (option_step_clean _ _ _ Ho1 Hc) as [Hc1 Hmono]. apply (IH q o1 Hrest Hc1).
    intros Hn. destruct (getopt_reports _ _ _ Hg) as [->|[chr [= ->]]].
    + apply Hp. destruct (notrun o); [|done]. by rewrite Hmono in Hn.
    + cbn in Ho1. injection Ho1 as <-. by cbn in Hn.
  - injection Hrest as <- <-. split; [done|]. intros Hn. destruct (getopt_reports _ _ _ Hg) as [->|[chr [=]]]. by apply Hp.
Qed.

Lemma check_inputs_clean fuel f ins o l o' l' :
  ofold (check_input fuel f) (o, l) ins = Ret (o', l') → clean o →
  clean o' ∧ mode o' = mode o ∧ unit o' = unit o ∧ type o' = type o ∧ (notrun o = true → notrun o' = true).
Proof.
  revert o l. induction ins as [|i ins IH]; intros o l; [by intros [= -> ->]|]. cbn [ofold]. intros ([o1 l1] & Hi & Hrest)%bind_Ret Hc.
  assert (clean o1 ∧ mode o1 = mode o ∧ unit o1 = unit o ∧ type o1 = type o ∧ (notrun o = true → notrun o1 = true)) as (Hc1 & Hm & Hu & Ht & Hn).
  { revert Hi. unfold check_input. destruct i as [path|]; [destruct (stat f path) as [[]|]|];
      try (intros [= <- <-]; by split_and!). intros (l2 & _ & [= <- _])%bind_Ret. by split_and!. }
  destruct (IH o1 l1 Hrest Hc1) as (? & ? & ? & ? & ?). split_and!; try congruence; auto.
Qed.

(** The options of a command line. *)
Definition options_of (fuel : nat) (args : list jsstr) : outcome (Getopt.t * options) :=
  p ← Getopt.new declarations args; read_options fuel p defaults.

(** C25: the generator writes a file only if it had nothing to report, about the
    command line or about the inputs; then the mode is [html] and the unit and the
    type are among those that it knows.  For CSV and text files nothing is ever
    written. *)
Theorem mkindex_strict fuel f args :
  match options_of fuel args, main fuel f args with
  | Ret (p, o), Ret r =>
    wrote r = None ∨
    (reported r = [] ∧ usage r = false ∧ mode o = jstr "html" ∧ unit o ∈ validUnitsForHTML ∧
     type o ∈ [jstr "index"; jstr "base64"; jstr "js"; jstr "commonjs"])
  | _, _ => True
  end.
Proof.
  unfold options_of, main. rewrite <- declared_print, Getopt.new_print by apply declared_ok. cbn [mbind outcome_bind]. set (p0 := Getopt.declared _ _ _).
  destruct (read_options fuel p0 defaults) as [[p o]| | |] eqn:Hro; cbn [mbind outcome_bind]; try exact I. cbv zeta. fold (with_filter o).
  destruct (read_options_clean fuel p0 defaults p o Hro) as [Hc Hp]; [by intros _..|]. clear Hro.
  destruct (with_filter_same o) as (_ & _ & Eunit & Emode & Etype & _ & Einp & _ & Erun & Eerr & _).
  assert (clean (with_filter o)) as Hc1 by (unfold clean; by rewrite Erun, Eerr).
  destruct (ofold _ _ _) as [[o1 l]| | |] eqn:Hin; cbn [mbind outcome_bind]; try exact I.
  destruct (check_inputs_clean _ _ _ _ _ _ _ Hin Hc1) as (Hc2 & Hm & Hu & Ht & Hn). rewrite Emode in Hm. rewrite Eunit in Hu. rewrite Etype in Ht.
  rewrite Erun in Hn. clear Hin. destruct (_ || _ || _); [by left|]. destruct (notrun o1) eqn:Hn1; [by left|].
  assert (notrun o = false) as Hn0 by (destruct (notrun o); [specialize (Hn eq_refl); congruence|done]).
  unfold generate. destruct (decide (mode o1 = jstr "html")) as [Hh|_]; [|by repeat case_decide; left].
  destruct (decide (indexOf validUnitsForHTML (unit o1) = -1)) as [_|Hunit]; [by left|].
  destruct (index_html _ _ _ _ _) as [[|c dump]| | |]; cbn [mbind outcome_bind]; [by left| |exact I..].
  unfold write_index. destruct (index_file o1 (c :: dump)) as [[[path data] encoding]|] eqn:Hfile; [|by left].
  destruct (_mkdirP _ _ _); cbn [mbind outcome_bind]; [|exact I..]. right. cbn [reported usage]. rewrite (Hp Hn0), (Hc2 Hn1).
  rewrite <- Hm, <- Hu, <- Ht. split_and!; [done|done|done|by apply dec_stable; rewrite <- indexOf_none|].
  unfold index_file in Hfile. rewrite !elem_of_cons. repeat case_decide; [tauto..|done].
Qed.

End site.

(** ** A site of one page *)

#[local] Instance sample_path : NodePath := {|
  cwd := jstr "/www";
  resolve l := Lang.join (jstr "/") l;
  relative from to := js_slice to (zlen from + 1) (zlen to);
  dirname path := if decide (path = jstr "/www/search/searchindex.js") then jstr "/www/search" else jstr "/www";
|}.

Definition sample_page : page := mkPage (jstr "Guide") (jstr "Hello world") [Heading 0 (jstr "use") (jstr "Usage"); Para (jstr "hello again")].

Definition sample_fs : fs :=
  mkFs (λ path, if decide (path = jstr "/www/index.html") then Some IsFile else if decide (path = jstr "/www") then Some IsDirectory else None)
    (λ _, [jstr "index.html"]) (λ _, print (page_node sample_page)).

Definition sample_line : list Getopt.item :=
  [Getopt.Separate [] (takes_value "m" "mode") (jstr "html"); Getopt.LongValue (takes_value "u" "unit") (jstr "unit") (jstr "h1");
   Getopt.Value [is_flag "q" "quiet"] (takes_value "i" "input") (jstr "/www/index.html")].

Definition sample_options : options :=
  mkOptions [Some (jstr "/www/index.html")] (jstr "/www") (jstr "/") (jstr "search") false false (jstr "h1") (jstr "js") (jstr "html") false []
    None (Text.percent 5) None [].

Definition hello : list Query.t := [Query.mk (jstr "hello") false false false].

Lemma sample_asks : @asks ascii_case sample_path 200 sample_fs sample_options [(jstr "/www/index.html", sample_page)].
Proof.
  split; try reflexivity.
  - decided.
  - done.
  - repeat split; vm_compute; reflexivity.
  - eexists. split; vm_compute; reflexivity.
Qed.

Lemma sample_site : @holds_site ascii_case 200 sample_fs [(jstr "/www/index.html", sample_page)].
Proof.
  apply Forall_singleton. split; [reflexivity|]. split; [|vm_compute; lia]. split; [discriminate|].
  repeat (apply Forall_cons; split); try apply Forall_nil; try exact I; split; try exact I; unfold text_ok; try decided; vm_compute; lia.
Qed.

Lemma sample_site_ok : site_ok (@site_docs sample_path sample_options [(jstr "/www/index.html", sample_page)]).
Proof. split; [vm_compute; discriminate|]. split; [vm_compute; reflexivity|]. unfold OktFile.names_ok, Bin.strings_ok. decided. Qed.

Lemma hello_askable : askable (@site_docs sample_path sample_options [(jstr "/www/index.html", sample_page)]) hello.
Proof.
  split; [discriminate|]. split; [apply Forall_singleton; unfold printable; decided|].
  split; [apply Forall_singleton; unfold searchable; decided|]. eexists. vm_compute. reflexivity.
Qed.

