(* ===== verification/SearchTool.v ===== *)
(** * The search command

    Model of [src/misc/oktavia/tool/oktavia-search.jsx]: the command that loads an
    index from a file, searches it for the words of its command line and prints what
    they find.  The file system is an argument; the lines that are printed are the
    result, the timings of [console.time] left out. *)

From S2P Require Import Prelude JsObject Binary Lang Query QueryParser SearchResult Text Metadata Oktavia Sax SaxNesting Style WebSearch Stemmers Getopt MkIndex.

Local Open Scope Z_scope.
Local Open Scope js_scope.

(** ** Numbers in strings *)

Module JsNumber.

(** The value of a string as a number: [m * 10 ^ e] for [Finite m e]. *)
Inductive number := Finite (m e : Z) | NotFinite.

Definition digit_of (c : Z) : option Z :=
  if decide (48 ≤ c ≤ 57) then Some (c - 48)
  else if decide (97 ≤ c ≤ 122) then Some (c - 87)
  else if decide (65 ≤ c ≤ 90) then Some (c - 55)
  else None.

(** All of [s] as digits to the base [b]. *)
Fixpoint in_base (b n : Z) (s : jsstr) : number :=
  match s with
  | [] => Finite n 0
  | c :: s => match digit_of c with Some d => if decide (d < b) then in_base b (b * n + d) s else NotFinite | None => NotFinite end
  end.

(** The exponent at the end of a decimal number. *)
Definition exponent (s : jsstr) : option Z :=
  let unsigned s := match MkIndex.digits s with ((_ :: _) as ds, []) => Some (MkIndex.numeral ds) | _ => None end in
  match s with
  | [] => Some 0
  | c :: s =>
    if decide (c = 101 ∨ c = 69) then
      match s with
      | 43 :: s => unsigned s
      | 45 :: s => Z.opp <$> unsigned s
      | _ => unsigned s
      end
    else None
  end.

Definition unsigned_decimal (s : jsstr) : number :=
  let '(whole, rest) := MkIndex.digits s in
  let '(fraction, rest) := match rest with 46 :: rest => MkIndex.digits rest | _ => ([], rest) end in
  match whole ++ fraction, exponent rest with
  | [], _ | _, None => NotFinite
  | ds, Some e => Finite (MkIndex.numeral ds) (e - zlen fraction)
  end.

(** The conversion of a string to a number, with spaces around it; [Infinity] is
    like what is no number. *)
Definition toNumber (s : jsstr) : number :=
  match Sax.trim s with
  | [] => Finite 0 0
  | 48 :: c :: ((_ :: _) as ds) =>
    if decide (c = 120 ∨ c = 88) then in_base 16 0 ds
    else if decide (c = 111 ∨ c = 79) then in_base 8 0 ds
    else if decide (c = 98 ∨ c = 66) then in_base 2 0 ds
    else unsigned_decimal (48 :: c :: ds)
  | 43 :: s => unsigned_decimal s
  | 45 :: s => match unsigned_decimal s with Finite m e => Finite (- m) e | NotFinite => NotFinite end
  | s => unsigned_decimal s
  end.

(** The quotient rounded to the nearest integer, to the even one in the middle. *)
Definition round_even (p q : Z) : Z :=
  let n := p / q in let r := 2 * (p - n * q) in
  if decide (r < q) then n else if decide (q < r) then n + 1 else if Z.even n then n else n + 1.

(** The integer part of the double nearest to [p / q]: its mantissa has 53 bits. *)
Definition truncated (p q : Z) : Z :=
  if decide (p < q) then if decide (round_even (p * 2 ^ 53) q = 2 ^ 53) then 1 else 0
  else
    let k := Z.log2 (p / q) - 52 in
    if decide (0 ≤ k) then round_even p (q * 2 ^ k) * 2 ^ k else round_even (p * 2 ^ (- k)) q / 2 ^ (- k).

(** [s as int], the conversion of [s | 0]. *)
Definition as_int (s : jsstr) : Z :=
  match toNumber s with
  | Finite m e => to_int32 (Z.sgn m * truncated (Z.abs m * 10 ^ Z.max 0 e) (10 ^ Z.max 0 (- e)))
  | NotFinite => 0
  end.

End JsNumber.

(** ** The command *)

Module SearchTool.
Import Getopt.

(** [console.log] and [console.error]. *)
Inductive line := Log (w : jsstr) | Err (w : jsstr).

Record files := mkFiles { existsSync : jsstr → bool; readFileSync : jsstr → string → jsstr }.

Section tool.
Context `{CaseMap, Runtime} (extname : jsstr → jsstr).

Definition createStemmer (algorithm : jsstr) : Stemmers.stemmer := Stemmers._createStemmer algorithm.

(** [s.lastIndexOf(c)] for a character. *)
Definition lastIndexOf (s : jsstr) (c : Z) : Z :=
  let i := indexOf (reverse s) c in if decide (i = -1) then -1 else zlen s - 1 - i.

(** The engine with its index, unless the kind of the file is not known, and what
    is printed. *)
Definition loadIndex (f : files) (oktavia : Okt.t) (filepath : jsstr) : outcome (option Okt.t * list line) :=
  let ext := extname filepath in
  if decide (ext = jstr ".okt") then
    o ← Okt.load oktavia (readFileSync f filepath "utf16le"); Ret (Some o, [])
  else if decide (ext = jstr ".b64") then
    data ← Bin.base64decode (readFileSync f filepath "utf8");
    o ← Okt.load oktavia data; Ret (Some o, [])
  else if decide (ext = jstr ".js") then
    let content := readFileSync f filepath "utf8" in
    let index := indexOf content 34 in
    let lastIndex := lastIndexOf content 34 in
    data ← Bin.base64decode (js_slice content index lastIndex);
    o ← Okt.load oktavia data; Ret (Some o, [])
  else Ret (None, [Log (jstr "unknown file extension: " ++ ext)]).

(** The same loops as on the search page. *)
Definition sortResult (o : Okt.t) (h : SR.store) (summary : SR.SearchSummary) : outcome (SR.store * list nat) :=
  Web._sortResult o h summary.

(** [text.replace(/\n\n+/, '\n\n')]. *)
Fixpoint skip_newlines (s : jsstr) : jsstr :=
  match s with c :: s' => if decide (c = 10) then skip_newlines s' else s | [] => [] end.

Definition join_newlines (s : jsstr) : jsstr :=
  let i := str_indexOf s [10; 10] in
  if decide (i < 0) then s else js_slice s 0 i ++ [10; 10] ++ skip_newlines (js_slice s i (zlen s)).

(** The excerpt of a document of at most [num] characters, or of two halves. *)
Definition excerpt (fuel : nat) (style : Style.Style) (num : Z) (name content : jsstr) (positions : list SR.Position) : outcome jsstr :=
  let '(content, start) :=
    if decide (str_indexOf content name = 1) then (js_slice content (zlen name + 2) (zlen content), zlen name + 2) else (content, 0) in
  first ← Web.object (head positions);
  let split := bool_decide (SR.position first > start + num - zlen (SR.word first)) in
  let end_ := if split then SR.position first + num / 2 else start + num in
  content ← ofold (Web.mark_hit fuel style start end_) content (reverse positions);
  let text :=
    if split then Lang.join [10] [js_slice content 0 (num / 2) ++ jstr " ..."; js_slice content (- (num / 2)) (end_ - start)]
    else js_slice content 0 (end_ - start) ++ jstr " ..." ++ [10] in
  Ret (join_newlines (replace_first text Text.eob [32])).

Definition tagged (tag : string) (w : jsstr) : jsstr := jstr "<" ++ jstr tag ++ jstr ">" ++ w ++ jstr "</" ++ jstr tag ++ jstr ">".

(** A value that is [undefined] is printed as such. *)
Definition printed (w : option jsstr) : jsstr := default (jstr "undefined") w.

Definition show_unit (fuel : nat) (o : Okt.t) (style : Style.Style) (num : Z) (h : SR.store) (lines : list line) (ref : nat)
    : outcome (list line) :=
  unit ← of_option (h !! ref);
  metadata ← Okt.getPrimaryMetadata o;
  name ← Meta.getInformation metadata (SR.id unit);
  let info := split_char 1 [] name in
  title ← Style.convert fuel style (tagged "title" (printed (info !! 0%nat)));
  url ← Style.convert fuel style (tagged "url" (printed (info !! 1%nat)));
  content ← Meta.getContent (Okt.text o) (Meta._bitVector metadata) (SR.id unit);
  text ← excerpt fuel style num (printed (info !! 0%nat)) content (SR.getPositions unit);
  Ret (lines ++ [Log (title ++ [32] ++ url); Log text]).

Definition showResult (fuel : nat) (o : Okt.t) (style : Style.Style) (h : SR.store) (summary : SR.SearchSummary) (num : Z)
    : outcome (list line) :=
  '(h, results) ← sortResult o h summary;
  lines ← ofold (show_unit fuel o style num h) [] results;
  n ← SR.summary_size summary;
  last ← Style.convert fuel style (jstr "<summary>" ++ decimal n ++ jstr " results.</summary>" ++ [10]);
  Ret (lines ++ [Log last]).

(** The words that are left if one of them is omitted. *)
Definition remaining (fuel : nat) (style : Style.Style) (query : list jsstr) (omit : Z) : outcome (list jsstr) :=
  ofold (λ querywords j,
    word ← of_option (aget query j);
    if decide (j ≠ omit) then w ← Style.convert fuel style (tagged "hit" word); Ret (querywords ++ [w]) else Ret querywords)
  [] (seqZ 0 (zlen query)).

Definition suggest (fuel : nat) (style : Style.Style) (query : list jsstr) (lines : list line) (proposal : SR.Proposal)
    : outcome (list line) :=
  querywords ← remaining fuel style query (SR.omit proposal);
  Ret (lines ++ [Log (jstr "* Expected result: " ++ Lang.join [32] querywords ++ jstr " - " ++ decimal (SR.expect proposal) ++ jstr " hit")]).

Definition notFound (fuel : nat) (style : Style.Style) (h : SR.store) (summary : SR.SearchSummary) (query : list jsstr)
    : outcome (list line) :=
  if decide (zlen query > 1) then
    '(_, proposals) ← SR.getProposal h summary;
    ofold (suggest fuel style query) [Log (jstr "Suggestions:")] proposals
  else
    word ← Web.object (head query);
    text ← Style.convert fuel style (jstr "Your search - " ++ tagged "hit" word ++ jstr " - didn't match any documents.");
    Ret [Log text].

(** A word of a query that is a method of objects has no [slice]. *)
Definition word_of (v : value) : outcome jsstr := match v with Str w => Ret w | Method _ => Throw "TypeError" end.

Definition search (fuel : nat) (f : files) (indexFile : option jsstr) (queryStrings : list value) (num : Z) (style : Style.Style)
    (algorithm : option jsstr) : outcome (list line) :=
  let oktavia := match algorithm with Some a => Okt.setStemmer Okt.new (Stemmers.stem_of (createStemmer a)) | None => Okt.new end in
  path ← Web.object indexFile;
  '(oktavia, lines) ← loadIndex f oktavia path;
  match oktavia with
  | None => Ret lines
  | Some oktavia =>
    query ← omap_list word_of queryStrings;
    let '(_, queries) := QueryParser.parse QueryParser.new query in
    '(h, summary) ← Okt.search toLowerCase [] oktavia queries;
    n ← SR.summary_size summary;
    if decide (n = 0) then notFound fuel style h summary query
    else showResult fuel oktavia style h summary num
  end.

(** *** The command line *)

Record options := mkOptions {
  showhelp : bool;
  notrun : bool;
  styleType : jsstr;
  num : Z;
  queryStrings : list value;
  algorithm : option jsstr;
  errors : list line;
}.

Definition quoted (w : string) : jsstr := [34] ++ jstr w ++ [34].

Definition usage : line := Log (Lang.join [10] [
  jstr "usage: oktavia_search index_file [options] query...";
  [];
  jstr "Options:";
  jstr "   -m, --mono                    : Don't use color.";
  jstr "   -s, --stemmer [algorithm]     : Select stemming algorithm.";
  jstr "   -n, --number [char number]    : Result display number. Default value = 250";
  jstr "   -h, --help                    : Display this message.";
  [];
  jstr "Search Query Syntax:";
  jstr "   word1 word2                   : All words.";
  jstr "   " ++ quoted "word1 word2" ++ jstr "                 : Exact words or phrase.";
  jstr "   word1 OR word2                : Any of these words.";
  jstr "   word1 -word2                  : None of these words."]).

Definition declarations : jsstr := jstr "m(mono)s:(stemmer)n:(number)h(help)".

Definition option_step (o : options) (opt : CommandOption) : options :=
  match option_ opt with
  | Str [115] =>
    if MkIndex.invalid MkIndex.validStemmers (optarg opt) then
      mkOptions (showhelp o) true (styleType o) (num o) (queryStrings o) (algorithm o) (errors o ++ [Err (jstr "Option s/stemmer is invalid.")])
    else mkOptions (showhelp o) (notrun o) (styleType o) (num o) (queryStrings o) (optarg opt) (errors o)
  | Str [109] => mkOptions (showhelp o) (notrun o) (jstr "ignore") (num o) (queryStrings o) (algorithm o) (errors o)
  | Str [110] =>
    mkOptions (showhelp o) (notrun o) (styleType o) (match optarg opt with Some w => JsNumber.as_int w | None => 0 end) (queryStrings o)
      (algorithm o) (errors o)
  | Str [104] => mkOptions true (notrun o) (styleType o) (num o) (queryStrings o) (algorithm o) (errors o)
  | v => mkOptions (showhelp o) (notrun o) (styleType o) (num o) (queryStrings o ++ [v]) (algorithm o) (errors o)
  end.

(** What the option parser reports. *)
Definition told (messages : list jsstr) (o : options) : options :=
  mkOptions (showhelp o) (notrun o) (styleType o) (num o) (queryStrings o) (algorithm o) (errors o ++ (Err <$> messages)).

Fixpoint read_options (fuel : nat) (p : Getopt.t) (o : options) : outcome (Getopt.t * options) :=
  match fuel with
  | O => NoFuel
  | S fuel =>
    '(p', opt) ← getopt p;
    let o := told (drop (length (stderr p)) (stderr p')) o in
    match opt with
    | None => Ret (p', o)
    | Some opt => read_options fuel p' (option_step o opt)
    end
  end.

Definition banner : line := Log (jstr "Search Engine Oktavia - Command-line Search Client" ++ [10]).

(** The file of the index, and the options before the command line is read. *)
Definition open_index (f : files) (args : list jsstr) : option jsstr * options :=
  let start showhelp notrun errors := mkOptions showhelp notrun (jstr "console") 250 [] None errors in
  match args with
  | [] => (None, start true false [])
  | path :: _ =>
    if existsSync f path then (Some path, start false false [])
    else (None, start false true [Err (jstr "Index file '" ++ path ++ jstr "' doesn't exist.")])
  end.

Definition main (fuel : nat) (f : files) (args : list jsstr) : outcome (list line) :=
  let '(indexFile, o) := open_index f args in
  p ← Getopt.new declarations (js_slice args 1 (zlen args));
  '(_, o) ← read_options fuel p o;
  if showhelp o || bool_decide (queryStrings o = []) then Ret (banner :: errors o ++ [usage])
  else if notrun o then Ret (banner :: errors o)
  else
    let style := Style.new (styleType o) in
    lines ← search fuel f indexFile (queryStrings o) (num o) style (algorithm o);
    Ret (banner :: errors o ++ lines).

End tool.
End SearchTool.
