(* ===== verification/SearchRuns.v ===== *)
(** * What the search command prints

    Documents are indexed and saved by the generator of [MkIndex.v] as one of its kinds
    of files, and the command of [SearchTool.v] is run on that file: it prints the
    documents that the words of its command line ask for. *)

From stdpp Require Import pretty.
From S2P Require Import Prelude JsObject Binary Lang Query QueryParser Text SearchResult Metadata Sections Oktavia OktaviaSearch OktaviaFile CodeUnits.
From S2P Require Import Sax SaxNesting SaxRoundtrip Style WebSearch WebResults Getopt MkIndex MkSite SearchTool.

Local Open Scope Z_scope.
Local Open Scope js_scope.

Import OktSearch SearchTool.

(** ** Files of an index *)

Lemma decode_more n m s out r : (n ≤ m)%nat → Bin.decode_loop n s out = Ret r → Bin.decode_loop m s out = Ret r.
Proof.
  revert m s out. induction n as [|n IH]; intros m s out Hm; [done|]. destruct m as [|m]; [lia|]. cbn [Bin.decode_loop].
  case_decide; [done|]. destruct (Bin.next_code s) as [c1 s1]. case_decide; [done|]. destruct (Bin.next_code s1) as [c2 s2].
  case_decide; [done|]. destruct (Bin.next_code_or_end s2) as [[c3 s3]|]; [|done]. case_decide; [done|].
  destruct (Bin.next_code_or_end s3) as [[c4 s4]|]; [|done]. case_decide; [done|]. apply IH. lia.
Qed.

(** The decoder passes over a quote at the start. *)
Lemma decode_quoted s r : Bin.base64decode s = Ret r → Bin.base64decode ([34] ++ s) = Ret r.
Proof.
  unfold Bin.base64decode. intros (out & Hout & Hr)%bind_Ret.
  assert (Bin.decode_loop (S (length ([34] ++ s))) ([34] ++ s) [] = Ret out) as ->; [|exact Hr].
  destruct s as [|c s]; [by injection Hout as <-|]. rewrite <- (decode_more (S (length (c :: s))) (S (length ([34] ++ c :: s))) (c :: s) [] out); [reflexivity| |exact Hout].
  cbn [length app]. lia.
Qed.

Lemma charAt_elem (s : jsstr) i : Forall (.∈ s) (charAt s i).
Proof. unfold charAt. destruct (aget s i) as [c|] eqn:Hc; [|constructor]. apply Forall_singleton. by eapply aget_elem_of. Qed.

Lemma encode_unquoted bytes : 34 ∉ Bin.encode_loop bytes.
Proof.
  assert (∀ i, 34 ∉ charAt Bin._base64EncodeChars i) as Henc.
  { intros i Hin. pose proof (charAt_elem Bin._base64EncodeChars i) as Hall. rewrite Forall_forall in Hall. apply Hall in Hin.
    revert Hin. decided. }
  revert bytes. fix IH 1. intros [|a [|b [|c bytes]]]; cbn [Bin.encode_loop]; rewrite ?not_elem_of_app; [set_solver|..];
    split_and?; try apply Henc; try apply IH; decided.
Qed.

Lemma lastIndexOf_end (a b : jsstr) c : c ∉ b → lastIndexOf (a ++ c :: b) c = zlen a.
Proof.
  intros Hb. unfold lastIndexOf. rewrite reverse_app, reverse_cons, <- app_assoc. cbn [app].
  rewrite indexOf_new by (by rewrite elem_of_reverse). unfold zlen. rewrite length_app, length_reverse. cbn [length].
  rewrite decide_False by lia. lia.
Qed.

(** The string in the text of a program. *)
Lemma string_cut (a w b : jsstr) : 34 ∉ a → 34 ∉ b →
  js_slice (a ++ [34] ++ w ++ [34] ++ b) (indexOf (a ++ [34] ++ w ++ [34] ++ b) 34) (lastIndexOf (a ++ [34] ++ w ++ [34] ++ b) 34) =
  [34] ++ w.
Proof.
  intros Ha Hb. assert (lastIndexOf (a ++ [34] ++ w ++ [34] ++ b) 34 = zlen a + zlen ([34] ++ w)) as ->.
  { rewrite <- zlen_app. rewrite <- (lastIndexOf_end (a ++ [34] ++ w) b 34 Hb). f_equal. by rewrite <- !app_assoc. }
  change ([34] ++ w ++ [34] ++ b) with (34 :: w ++ [34] ++ b) at 2. rewrite indexOf_new by done.
  replace (a ++ [34] ++ w ++ [34] ++ b) with (a ++ ([34] ++ w) ++ [34] ++ b) by (by rewrite <- !app_assoc). apply slice_middle.
Qed.

(** The extension of a file by the type of the index. *)
Definition extension (o : MkIndex.options) : jsstr :=
  if decide (MkIndex.type o = jstr "index") then jstr ".okt" else if decide (MkIndex.type o = jstr "base64") then jstr ".b64" else jstr ".js".

Section files.
Context `{CaseMap, Runtime, NodePath} (extname : jsstr → jsstr).

(** The command loads what the generator writes, whatever the type. *)
Lemma written_loaded op engine file path data encoding f o :
  MkIndex.index_file op file = Some (path, data, encoding) → 34 ∉ default (jstr "searchIndex") (MkIndex.name op) →
  extname path = extension op → readFileSync f path encoding = data → Forall (λ c, 0 ≤ c < 65536) file →
  Okt.load engine file = Ret o → loadIndex extname f engine path = Ret (Some o, []).
Proof.
  intros Hfile Hname Hext Hread Hu Hload. pose proof (Bin.base64_roundtrip file Hu) as Hrt. unfold loadIndex, extension in *.
  assert (∀ declare : string, 34 ∉ jstr declare → data = MkIndex.source declare op file →
    Bin.base64decode (js_slice data (indexOf data 34) (lastIndexOf data 34)) = Ret file) as Hjs.
  { intros declare Hd ->. unfold MkIndex.source. cbn [Lang.join]. rewrite app_nil_r.
    set (a := (jstr "// Oktavia Search Index" ++ [10]) ++ jstr declare ++ default (jstr "searchIndex") (MkIndex.name op) ++ jstr " = ").
    set (text := _ ++ [10] ++ _).
    assert (text = a ++ [34] ++ Bin.base64encode file ++ [34] ++ [59; 10]) as -> by (unfold text, a; by rewrite <- !app_assoc).
    rewrite string_cut; [by apply decode_quoted| |decided]. unfold a. rewrite !not_elem_of_app. split_and!; try done; decided. }
  rewrite Hext. clear Hext. unfold MkIndex.index_file in Hfile. destruct (decide (MkIndex.type op = jstr "index")).
  { injection Hfile as <- <- <-. rewrite Hread, decide_True by done. by rewrite Hload. }
  destruct (decide (MkIndex.type op = jstr "base64")).
  { injection Hfile as <- <- <-. rewrite Hread, decide_False, decide_True by done. rewrite Hrt. cbn [mbind outcome_bind]. by rewrite Hload. }
  rewrite !decide_False, decide_True by done. repeat case_decide; [..|done]; injection Hfile as <- <- <-; rewrite Hread; cbv zeta;
    [rewrite (Hjs "var "%string ltac:(decided) eq_refl)|rewrite (Hjs "exports."%string ltac:(decided) eq_refl)]; cbn [mbind outcome_bind]; by rewrite Hload.
Qed.
End files.

(** ** Texts on a terminal *)

(** A text between the marks of a tag. *)
Definition marked (tag : string) (w : jsstr) : jsstr :=
  match Obj.get Style.console (jstr tag) with Some m => m.1 ++ Sax.textopts w ++ m.2 | None => [] end.

(** Texts that markup can hold as they are. *)
Definition plain_text (w : jsstr) : Prop := Forall (λ c, c ≠ 38 ∧ c ≠ 60) w.

Definition on_terminal : Style.Style := Style.new (jstr "console").

Definition tag_node (tag : string) (w : jsstr) : SaxRoundtrip.node := Elem (jstr tag) [] (if decide (w = []) then [] else [SaxRoundtrip.Text w]).

Lemma print_plain tag w : plain_text w → print (tag_node tag w) = tagged tag w.
Proof.
  intros Hw. assert (escaped false w = w) as Hesc.
  { rewrite <- (app_nil_r w) at 1. rewrite escaped_plain; [apply app_nil_r|]. eapply Forall_impl; [exact Hw|].
    intros c [H1 H2]. by intros [?|[?|[? _]]]. }
  unfold tag_node, tagged. cbn [print]. rewrite <- (app_nil_l ([62] ++ _)). case_decide as Hnil; [subst w; reflexivity|].
  cbn [fmap list_fmap concat print]. rewrite Hesc, app_nil_r. reflexivity.
Qed.

Definition known_tags : list string := ["title"; "url"; "hit"; "summary"]%string.

Lemma tag_node_ok tag w : tag ∈ known_tags → doc_ok (tag_node tag w) ∧ Style.known (Style.styles on_terminal) (tag_node tag w).
Proof.
  intros Htag. assert (Forall (λ tag, (name_ok (jstr tag) ∧ jstr tag ≠ jstr "script") ∧ jstr tag ∈ Obj.keys Style.console) known_tags) as Hall
    by (repeat constructor; decided).
  rewrite Forall_forall in Hall. destruct (Hall tag Htag) as [[Hn Hs] Hk]. unfold tag_node. cbn [doc_ok Style.known].
  destruct (decide (w = [])) as [->|Hw]; (split; [|split; [exact Hk|repeat constructor]]).
  - split_and!; try done; by repeat constructor.
  - refine (conj Hn (conj Hs (conj (NoDup_nil_2) (conj (Forall_nil_2 _) (conj _ _))))); [by apply Forall_singleton|by intros [|[|i]] ? ?].
Qed.

Section terminal.
Context `{CaseMap, Runtime}.

Lemma adds_text w : Style.adds on_terminal (text_call w) (Sax.textopts w).
Proof.
  unfold text_call. case_decide as Hw; [subst w; intros text; exists []; by rewrite app_nil_r|].
  intros text. exists [Some (Sax.textopts w)]. split; [done|]. unfold Style.result. cbn. by rewrite app_nil_r.
Qed.

Lemma render_tag tag w : tag ∈ known_tags → Style.render on_terminal (tag_node tag w) = marked tag w.
Proof.
  intros Htag. unfold tag_node, marked. cbn [Style.render]. change (Style.styles on_terminal) with Style.console.
  destruct (Obj.get Style.console (jstr tag)) as [m|]; [|done]. do 2 f_equal.
  case_decide as Hw; [by subst w|]. cbn [fmap list_fmap concat Style.render]. by rewrite app_nil_r.
Qed.

(** A tag with text around it, which is not marked. *)
Lemma convert_around fuel before tag w after :
  tag ∈ known_tags → plain_text w → before = [] ∨ (∃ c, head before = Some c ∧ Sax.whitespace c = false) →
  outside_ok before → outside_ok after → (length (before ++ tagged tag w ++ after) < fuel)%nat →
  Style.convert fuel on_terminal (before ++ tagged tag w ++ after) = Ret (Sax.textopts before ++ marked tag w ++ Sax.textopts after).
Proof.
  intros Htag Hw Hhd Hb Ha Hfuel. rewrite <- (print_plain tag w Hw), <- (render_tag tag w Htag) in *.
  destruct (tag_node_ok tag w Htag) as [Hdoc Hknown]. unfold Style.convert. unfold tag_node in *. set (kids := if decide _ then _ else _) in *.
  destruct (read_around _ _ _ kids before after Hdoc Hhd Hb Ha eq_refl) as (s & Hs & He).
  rewrite (Sax.parse_more _ fuel _ _ _ Hs) by lia. cbn [mbind outcome_bind]. rewrite He.
  assert (Style.adds on_terminal (Sax.onready :: text_call before ++ calls 0 (Elem (jstr tag) [] kids) ++ text_call after ++ [Sax.onend])
    (Sax.textopts before ++ Style.render on_terminal (Elem (jstr tag) [] kids) ++ Sax.textopts after)) as Hadds.
  { rewrite <- (app_nil_r (Sax.textopts after)). apply (Style.adds_app _ [Sax.onready] _ []); [intros text; exists []; by rewrite app_nil_r|].
    apply Style.adds_app; [apply adds_text|]. apply Style.adds_app; [apply Style.adds_calls; [done|apply Style.pre_unstyled]|].
    apply Style.adds_app; [apply adds_text|]. intros text. exists []. by rewrite app_nil_r. }
  destruct (Hadds []) as (text & -> & Ht). cbn [mbind outcome_bind app]. by rewrite Ht.
Qed.

Lemma convert_tagged fuel tag w :
  tag ∈ known_tags → plain_text w → (length (tagged tag w) < fuel)%nat →
  Style.convert fuel on_terminal (tagged tag w) = Ret (marked tag w).
Proof.
  intros Htag Hw Hfuel. pose proof (convert_around fuel [] tag w [] Htag Hw) as Hc. rewrite !app_nil_l, !app_nil_r in Hc.
  apply Hc; [by left|constructor..|done].
Qed.

Lemma tagged_length tag w : tag ∈ known_tags → (length (tagged tag w) ≤ 19 + length w)%nat.
Proof.
  intros Htag. assert (Forall (λ tag, (length (jstr tag) ≤ 7)%nat) known_tags) as Hall by (repeat constructor; cbn; lia).
  rewrite Forall_forall in Hall. specialize (Hall tag Htag). unfold tagged. rewrite !length_app.
  change (length (jstr "<")) with 1%nat. change (length (jstr ">")) with 1%nat. change (length (jstr "</")) with 2%nat. cbv beta in Hall. lia.
Qed.
End terminal.

(** ** What is found *)

(** The line that names a document. *)
Definition name_line (docs : list (jsstr * jsstr)) (u : SR.SearchUnit) : line :=
  Log (marked "title" (heading docs u).1 ++ [32] ++ marked "url" (printed (heading docs u).2)).

Definition count_line (n : Z) : line := Log (marked "summary" (decimal n ++ jstr " results.") ++ [32]).

(** Names of documents that can be shown. *)
Definition names_plain (fuel : nat) (docs : list (jsstr * jsstr)) : Prop :=
  (45 < fuel)%nat ∧ Forall (λ d, plain_text d.1 ∧ (length d.1 + 19 < fuel)%nat) docs.

Lemma split_pieces (P : Z → Prop) c cur s : Forall P cur → Forall P s →
  Forall (λ w, Forall P w ∧ (length w ≤ length cur + length s)%nat) (split_char c cur s).
Proof.
  revert cur. induction s as [|x s IH]; intros cur Hcur Hs; cbn [split_char].
  { apply Forall_singleton. split; [done|cbn; lia]. }
  apply Forall_cons in Hs as [Hx Hs]. case_decide.
  - constructor; [split; [done|lia]|]. eapply Forall_impl; [apply IH; [constructor|done]|]. cbn. intros w [Hw Hl]. split; [done|lia].
  - eapply Forall_impl; [apply IH; [by apply Forall_app; split; [|apply Forall_singleton]|done]|]. cbn. intros w [Hw Hl].
    rewrite length_app in Hl. cbn in Hl. split; [done|lia].
Qed.

Lemma split_first c cur s : ∃ w l, split_char c cur s = w :: l.
Proof. revert cur. induction s as [|x s IH]; intros cur; cbn [split_char]; [by eexists _, _|]. case_decide; [by eexists _, _|apply IH]. Qed.

Lemma decimal_go x s : plain_text (jstr s) →
  plain_text (jstr (pretty_N_go x s)) ∧ (length (jstr (pretty_N_go x s)) ≤ N.to_nat x + length (jstr s))%nat.
Proof.
  revert s. induction (N.lt_wf_0 x) as [x _ IH]. intros s Hs. destruct (decide (x = 0)%N) as [->|Hx]; [rewrite pretty_N_go_0; split; [done|lia]|].
  rewrite pretty_N_go_step by lia.
  assert (x `div` 10 < x)%N as Hlt by (apply N.div_lt; lia).
  assert (plain_text (jstr (String (pretty_N_char (x `mod` 10)) s))) as Hc.
  { constructor; [|exact Hs].
    unfold pretty_N_char. repeat case_match; vm_compute; repeat split; discriminate. }
  destruct (IH _ Hlt _ Hc) as [Hp Hl]. split; [exact Hp|]. etrans; [exact Hl|]. unfold jstr. cbn [String.list_ascii_of_string fmap list_fmap length]. lia.
Qed.

Lemma decimal_plain n : 0 ≤ n → plain_text (decimal n) ∧ (length (decimal n) ≤ S (Z.to_nat n))%nat.
Proof.
  intros Hn. unfold decimal. assert (pretty n = pretty (Z.to_N n)) as ->.
  { destruct n as [|p|p]; [done..|lia]. }
  unfold pretty, pretty_N. case_decide as H0; [split; [decided|cbn; lia]|].
  destruct (decimal_go (Z.to_N n) "") as [Hp Hl]; [constructor|]. split; [exact Hp|]. change (length (jstr "")) with 0%nat in Hl. lia.
Qed.

Section shown.
Context `{CaseMap, Runtime} (key : jsstr) (docs : list (jsstr * jsstr)) (chars : list Z) (M ddic : Z) (fuel : nat).
Context (Hnames : names_plain fuel docs).

Lemma excerpt_returns num name content u : fits docs u → ∃ text, excerpt fuel on_terminal num name content (SR.getPositions u) = Ret text.
Proof.
  intros Hne%positions_nonempty. unfold excerpt. destruct (if decide _ then _ else _) as [c start].
  destruct (SR.getPositions u) as [|first rest]; [done|]. cbn [head Web.object mbind outcome_bind].
  set (e := if bool_decide _ then _ else _). generalize (reverse (first :: rest)). intros l.
  loop (λ (_ : nat) (_ : jsstr), True) as (c' & -> & _); [done| |by eexists].
  intros j pos c1 _ _. unfold Web.mark_hit. case_decide; [|by eexists].
  change (jstr "<hit>*</hit>") with (tagged "hit" (jstr "*")). rewrite convert_tagged; [by eexists|decided|decided|].
  destruct Hnames as [Hf _]. cbn. lia.
Qed.

Lemma heading_plain u : fits docs u →
  (plain_text (heading docs u).1 ∧ (length (heading docs u).1 + 19 < fuel)%nat) ∧
  (plain_text (printed (heading docs u).2) ∧ (length (printed (heading docs u).2) + 19 < fuel)%nat).
Proof.
  intros (_ & (d & Hd) & _). unfold heading. rewrite Hd. change (default [] (fst <$> Some d)) with d.1. cbn [fst snd].
  destruct Hnames as [Hf Hall]. rewrite Forall_forall in Hall. destruct (Hall d) as [Hp Hl]; [by eapply aget_elem_of|].
  pose proof (split_pieces _ 1 [] d.1 (Forall_nil_2 _) Hp) as Hs. rewrite Forall_forall in Hs. cbn [length] in Hs.
  split; [destruct (split_char 1 [] d.1 !! 0%nat) as [w|] eqn:Hw|destruct (split_char 1 [] d.1 !! 1%nat) as [w|] eqn:Hw]; cbv [printed default from_option id];
    try (apply list_elem_of_lookup_2, Hs in Hw as [Hw Hlw]; split; [exact Hw|lia]).
  - split; [constructor|cbn; lia].
  - split; [decided|cbn; lia].
Qed.

Lemma show_unit_returns o h lines ref u num :
  ready o key docs chars M ddic → h !! ref = Some u → fits docs u →
  ∃ text, show_unit fuel o on_terminal num h lines ref = Ret (lines ++ [name_line docs u; Log text]).
Proof.
  intros R Hu Hf. pose proof Hf as (_ & (d & Hd) & _). destruct (document_read key docs chars M ddic o _ d R Hd) as (m & Hm & Hi & content & Hc).
  destruct (heading_plain u Hf) as [[Ht Htl] [Ha Hal]]. unfold name_line, heading in *. rewrite Hd in *.
  change (default [] (fst <$> Some d)) with d.1 in *. cbn [fst snd] in *.
  unfold show_unit. rewrite Hu. cbn [of_option mbind outcome_bind]. rewrite Hm. cbn [mbind outcome_bind]. rewrite Hi. cbn [mbind outcome_bind].
  destruct (split_first 1 [] d.1) as (w0 & l & Hw).
  rewrite Hw in *. change (default [] ((w0 :: l) !! 0%nat)) with w0 in *. change ((w0 :: l) !! 1%nat) with (l !! 0%nat) in *. change (printed ((w0 :: l) !! 0%nat)) with w0.
  rewrite (convert_tagged fuel "title" w0); [|decided|exact Ht|pose proof (tagged_length "title" w0 ltac:(decided)); lia]. cbn [mbind outcome_bind].
  rewrite (convert_tagged fuel "url"); [|decided|exact Ha|pose proof (tagged_length "url" (printed (l !! 0%nat)) ltac:(decided)); lia]. cbn [mbind outcome_bind].
  rewrite Hc. cbn [mbind outcome_bind]. destruct (excerpt_returns num w0 content u Hf) as [text ->]. by exists text.
Qed.
End shown.

(** ** What is printed *)

Definition no_match (w : jsstr) : line :=
  Log (Sax.textopts (jstr "Your search - ") ++ marked "hit" w ++ Sax.textopts (jstr " - didn't match any documents.")).

(** The words without the one that a proposal leaves out.  Proposals count queries;
    the word [OR] is counted as well here. *)
Definition suggestion (ws : list jsstr) (p : SR.Proposal) : line :=
  Log (jstr "* Expected result: " ++ Lang.join [32] (marked "hit" <$> delete (Z.to_nat (SR.omit p)) ws) ++
       jstr " - " ++ decimal (SR.expect p) ++ jstr " hit").

(** The lines for some queries, given as words, of an engine: the names of the
    documents that they ask for, each with an excerpt, and their number.  They are
    the documents of the units that the engine returns for the queries, ordered by
    the scores of these units, the best score first.  If there are none, what is
    expected without each of several words. *)
Definition prints `{CaseMap} (docs : list (jsstr * jsstr)) (engine : Okt.t) (qs : list Query.t) (ws : list jsstr) (lines : list line) : Prop :=
  ∃ h rs r us, Okt.search toLowerCase [] engine qs = Ret (h, SR.mkSummary rs (Some r)) ∧
    Forall2 (answers docs) qs rs ∧ SR.id <$> us ≡ₚ SR.merged_ids rs ∧ ranked engine h r us ∧
    match us, ws with
    | [], [w] => lines = [no_match w]
    | [], _ => ∃ ps, ps ≡ₚ SR.proposal_of rs <$> seqZ 0 (zlen qs) ∧ StronglySorted (λ a b, SR.expect b ≤ SR.expect a) ps ∧
        lines = Log (jstr "Suggestions:") :: (suggestion ws <$> ps)
    | _, _ => ∃ texts, length texts = length us ∧
        lines = concat (zip_with (λ u text, [name_line docs u; Log text]) us texts) ++ [count_line (zlen us)]
    end.

(** Words that can be shown. *)
Definition words_plain (fuel : nat) (ws : list jsstr) : Prop := Forall (λ w, plain_text w ∧ (length w + 70 < fuel)%nat) ws.

Section printed.
Context `{CaseMap, Runtime} (key : jsstr) (docs : list (jsstr * jsstr)) (chars : list Z) (M ddic : Z) (fuel : nat).
Context (Hnames : names_plain fuel docs).

Lemma units_shown o h num refs us :
  ready o key docs chars M ddic → Forall (fits docs) h → Forall2 (λ ref u, h !! ref = Some u) refs us → ∀ lines,
  ∃ texts, length texts = length us ∧ ofold (show_unit fuel o on_terminal num h) lines refs =
    Ret (lines ++ concat (zip_with (λ u text, [name_line docs u; Log text]) us texts)).
Proof.
  intros R Hh Hall. induction Hall as [|ref u refs us Hu _ IH]; intros lines; [exists []; by rewrite app_nil_r|]. cbn [ofold].
  assert (fits docs u) as Hf by (rewrite Forall_lookup in Hh; by eapply Hh).
  destruct (show_unit_returns key docs chars M ddic fuel Hnames o h lines ref u num R Hu Hf) as [text ->]. cbn [mbind outcome_bind].
  destruct (IH (lines ++ [name_line docs u; Log text])) as (texts & Hl & ->). exists (text :: texts). split; [cbn; lia|].
  cbn [zip_with concat]. by rewrite <- app_assoc.
Qed.

Lemma count_shown n : 0 ≤ n → (Z.to_nat n + 45 < fuel)%nat →
  Style.convert fuel on_terminal (jstr "<summary>" ++ decimal n ++ jstr " results.</summary>" ++ [10]) =
  Ret (marked "summary" (decimal n ++ jstr " results.") ++ [32]).
Proof.
  intros Hn Hfuel. destruct (decimal_plain n Hn) as [Hp Hl].
  pose proof (convert_around fuel [] "summary" (decimal n ++ jstr " results.") [10]) as Hc. rewrite !app_nil_l in Hc.
  change (Sax.textopts [10]) with [32] in Hc. change (Sax.textopts []) with (@nil Z) in Hc. cbn [app] in Hc. rewrite <- Hc.
  - f_equal. unfold tagged. by rewrite <- !app_assoc.
  - decided.
  - apply Forall_app. split; [exact Hp|decided].
  - by left.
  - constructor.
  - decided.
  - unfold tagged. rewrite !length_app. cbn. lia.
Qed.

Lemma delete_snoc {A} (l : list A) x k :
  delete k (l ++ [x]) = if decide (k = length l) then delete k l else delete k l ++ [x].
Proof.
  revert k. induction l as [|y l IH]; intros [|k]; cbn [app length]; [done|done|done|].
  change (delete (S k) (y :: l ++ [x])) with (y :: delete k (l ++ [x])). change (delete (S k) (y :: l)) with (y :: delete k l).
  rewrite IH. repeat case_decide; first [lia|done].
Qed.

Lemma hit_shown w : plain_text w → (length w + 70 < fuel)%nat → Style.convert fuel on_terminal (tagged "hit" w) = Ret (marked "hit" w).
Proof. intros Hw Hl. apply convert_tagged; [decided|exact Hw|]. pose proof (tagged_length "hit" w ltac:(decided)). lia. Qed.

Lemma words_remain ws omit : words_plain fuel ws → 0 ≤ omit →
  remaining fuel on_terminal ws omit = Ret (marked "hit" <$> delete (Z.to_nat omit) ws).
Proof.
  intros Hws Ho. unfold remaining.
  loop (λ (j : nat) (acc : list jsstr), acc = marked "hit" <$> delete (Z.to_nat omit) (take j ws)) as (acc & -> & ->).
  - by destruct (Z.to_nat omit).
  - intros j x acc Hx ->. apply lookup_seqZ in Hx as [-> Hj]. rewrite Z.add_0_l.
    destruct (lookup_lt_is_Some_2 ws j) as [w Hw]; [unfold zlen in *; lia|]. unfold words_plain in Hws. rewrite Forall_lookup in Hws.
    destruct (Hws j w Hw) as [Hp Hl]. rewrite aget_nonneg, Nat2Z.id, Hw by lia. cbn [of_option mbind outcome_bind].
    rewrite (take_S_r _ _ w Hw), delete_snoc, length_take. case_decide; eexists.
    + rewrite hit_shown by done. cbn [mbind outcome_bind]. split; [reflexivity|]. rewrite decide_False by (unfold zlen in *; lia). by rewrite fmap_app.
    + split; [reflexivity|]. by rewrite decide_True by (unfold zlen in *; lia).
  - rewrite length_seqZ, take_ge by (unfold zlen; lia). reflexivity.
Qed.

Lemma suggestions_shown ws ps lines : words_plain fuel ws → Forall (λ p, 0 ≤ SR.omit p) ps →
  ofold (suggest fuel on_terminal ws) lines ps = Ret (lines ++ (suggestion ws <$> ps)).
Proof.
  intros Hws Hps. revert lines. induction Hps as [|p ps Hp _ IH]; intros lines; [by rewrite app_nil_r|]. cbn [ofold].
  assert (suggest fuel on_terminal ws lines p = Ret (lines ++ [suggestion ws p])) as -> by (unfold suggest; by rewrite words_remain).
  cbn [mbind outcome_bind]. rewrite IH, <- app_assoc. reflexivity.
Qed.

Lemma no_match_shown w : plain_text w → (length w + 70 < fuel)%nat →
  Style.convert fuel on_terminal (jstr "Your search - " ++ tagged "hit" w ++ jstr " - didn't match any documents.") =
  Ret (Sax.textopts (jstr "Your search - ") ++ marked "hit" w ++ Sax.textopts (jstr " - didn't match any documents.")).
Proof.
  intros Hw Hl. apply convert_around; [decided|exact Hw| |decided|decided|].
  - right. eexists. split; [reflexivity|]. decided.
  - unfold tagged. rewrite !length_app. cbn. lia.
Qed.

Lemma found_bound h r : SR.result_wf h r → Forall (fits docs) h → (length (SR.unitIds r) ≤ length docs)%nat.
Proof.
  intros [Hnd Hu] Hh. assert (length docs = length (seqZ 0 (zlen docs))) as -> by (rewrite length_seqZ; unfold zlen; lia).
  apply submseteq_length, NoDup_submseteq; [done|]. intros k (i & Hk)%list_elem_of_lookup.
  destruct (Forall2_lookup_r _ _ _ _ _ Hu Hk) as (ref & _ & u & Hu' & <- & _). rewrite Forall_lookup in Hh.
  destruct (Hh ref u Hu') as (_ & (d & Hd) & _). apply elem_of_seqZ. apply aget_Some_range in Hd. lia.
Qed.

(** The lines of a search of an engine that is ready. *)
Lemma search_printed o num qs ws h rs r :
  Okt.search toLowerCase [] o qs = Ret (h, SR.mkSummary rs (Some r)) → ready o key docs chars M ddic → words_plain fuel ws → (length docs + 45 < fuel)%nat → (length ws = 1 ↔ length qs = 1)%nat → ws ≠ [] → qs ≠ [] →
  Forall (fits docs) h → SR.result_wf h r → Forall (SR.result_wf h) rs → SR.unitIds r = SR.merged_ids rs → Forall2 (answers docs) qs rs →
  ∃ lines, (if decide (SR.size r = 0) then notFound fuel on_terminal h (SR.mkSummary rs (Some r)) ws
            else showResult fuel o on_terminal h (SR.mkSummary rs (Some r)) num) = Ret lines ∧ prints docs o qs ws lines.
Proof.
  intros Hrun0 R Hws Hfuel Hone Hne Hqs Hh Hr Hrs Hids Hall. pose proof (SR.wf_size h r Hr) as Hsize. rewrite Hids in Hsize.
  pose proof (Forall2_length _ _ _ Hall) as Hlen. case_decide as Hz.
  - assert (SR.merged_ids rs = []) as Hnil by (destruct (SR.merged_ids rs) as [|x l]; [done|rewrite zlen_cons in Hsize; pose proof (zlen_nonneg l); lia]).
    assert (ranked o h r []) as Hrk.
    { split; [|constructor]. pose proof (listed_ids h r Hr) as Hl. rewrite Hids, Hnil, <- omap_ids in Hl. fold (units_of h r) in Hl.
      by destruct (units_of h r). }
    unfold notFound. destruct ws as [|w [|w2 ws]]; [done|..].
    + rewrite decide_False by (unfold zlen; cbn [length]; lia). cbn [head Web.object mbind outcome_bind]. apply Forall_singleton in Hws as [Hw Hl].
      rewrite no_match_shown by done. cbn [mbind outcome_bind]. eexists. split; [reflexivity|]. exists h, rs, r, [].
      rewrite Hnil. by split_and!.
    + rewrite decide_True by (unfold zlen; cbn [length]; lia).
      assert (2 ≤ zlen rs) as H2.
      { destruct qs as [|q [|q2 qs]]; cbn [length] in *; unfold zlen; [done|lia..]. }
      destruct (SR.getProposal_spec h (SR.mkSummary rs (Some r)) H2 Hrs) as (h1 & ps & Hrun & _ & Hps & Hsrt). rewrite Hrun. cbn [mbind outcome_bind].
      cbn [SR.sourceResults] in Hps. rewrite suggestions_shown; [|done|]. 2:{ rewrite Hps. apply Forall_fmap, Forall_forall. intros k Hk%elem_of_seqZ. cbn. lia. }
      eexists. split; [reflexivity|]. exists h, rs, r, []. rewrite Hnil. split_and!; try done. exists ps.
      split_and!; try done. unfold zlen in *. by rewrite Hlen.
  - destruct (sort_found key docs chars M ddic o h rs r R Hh Hr) as (h1 & refs & Hs & Hh1 & Hrk & Hl).
    pose proof (ranked_ids o h r _ Hr Hrk) as Hp. rewrite Hids in Hp. set (us := omap (λ ref, h1 !! ref) refs) in *. unfold showResult, sortResult. rewrite Hs. cbn [mbind outcome_bind].
    destruct (units_shown o h1 num refs us R Hh1 (omap_full _ refs Hl) []) as (texts & Ht & ->). cbn [mbind outcome_bind app].
    assert (zlen us = SR.size r) as Hn by (unfold zlen in *; rewrite <- (length_fmap SR.id us), Hp; lia).
    unfold SR.summary_size. cbn [SR.result SR.size_of_result mbind outcome_bind].
    pose proof (found_bound h r Hr Hh) as Hb. rewrite Hids in Hb. rewrite count_shown by (unfold zlen in *; lia). cbn [mbind outcome_bind].
    eexists. split; [reflexivity|]. exists h, rs, r, us. split_and!; try done. destruct us as [|u us]; [unfold zlen in *; cbn [length] in *; lia|].
    exists texts. split; [done|]. unfold count_line. by rewrite Hn.
Qed.
End printed.

(** ** The command line *)

(** The option parser only adds messages. *)
Definition adds_messages {A} (p : Getopt.t) (m : outcome (Getopt.t * A)) : Prop :=
  ∀ p' x, m = Ret (p', x) → Getopt.stderr p `prefix_of` Getopt.stderr p'.

Lemma error_adds {A} p p1 (x : A) msg : Getopt.stderr p1 = Getopt.stderr p → adds_messages p (Ret (Getopt.console_error p1 msg, x)).
Proof. intros Hp p' y [= <- _]. cbn. rewrite Hp. by eexists. Qed.

Lemma same_adds {A} p p1 (x : A) : Getopt.stderr p1 = Getopt.stderr p → adds_messages p (Ret (p1, x)).
Proof. intros Hp p' y [= <- _]. by rewrite Hp. Qed.

Lemma some_adds {A} p (m : outcome (Getopt.t * A)) : adds_messages p m → adds_messages p ('(p, o) ← m; Ret (p, Some o)).
Proof. intros Hm p' x ([p1 o1] & H1 & [= <- _])%bind_Ret. by eapply Hm. Qed.

Create HintDb messages.
#[local] Hint Resolve error_adds same_adds some_adds : messages.

Lemma argument_adds p p1 chr : Getopt.stderr p1 = Getopt.stderr p → adds_messages p (Getopt._getoptArgument p1 chr).
Proof.
  intros Hp. unfold Getopt._getoptArgument, Getopt._errMissingArg. case_decide; [case_match; auto with messages|].
  destruct (aget _ _); [|done]. cbn [of_option mbind outcome_bind]. by apply same_adds.
Qed.
#[local] Hint Resolve argument_adds : messages.

Lemma short_adds p p1 : Getopt.stderr p1 = Getopt.stderr p → adds_messages p (Getopt._getoptShort p1).
Proof.
  intros Hp. unfold Getopt._getoptShort. destruct (aget _ _) as [arg|]; [|done]. cbn [of_option mbind outcome_bind].
  set (q := if decide _ then _ else _). assert (Getopt.stderr q = Getopt.stderr p) as Hq by (unfold q; by case_decide).
  destruct (Obj.get _ _) as [[]|]; auto with messages. unfold Getopt._errInvalidOption. case_match; auto with messages.
Qed.

Lemma long_adds p : adds_messages p (Getopt._getoptLong p).
Proof.
  unfold Getopt._getoptLong. destruct (aget _ _) as [arg|]; [|done]. cbn [of_option mbind outcome_bind]. cbv zeta.
  unfold Getopt._errExtraArg, Getopt._errInvalidOption. destruct (Obj.read _ _) as [chr| |]; repeat case_match; auto with messages.
Qed.
#[local] Hint Resolve short_adds long_adds : messages.

Lemma getopt_adds p : adds_messages p (Getopt.getopt p).
Proof.
  unfold Getopt.getopt. case_decide; [auto with messages|]. destruct (aget _ _) as [arg|]; [|done]. cbn [of_option mbind outcome_bind]. cbv zeta.
  repeat case_match; auto with messages.
Qed.

(** Options that are read without a message. *)
Lemma options_read p os q p' o fuel :
  Getopt.reads p os q → Getopt.getopt q = Ret (p', None) → Getopt.stderr p' = [] → (length os < fuel)%nat →
  read_options fuel p o = Ret (p', foldl option_step o os).
Proof.
  intros Hr Hq He. assert (∀ p x p1, Getopt.getopt p = Ret (p1, x) → Getopt.stderr p1 = [] → Getopt.stderr p = []) as Hsilent.
  { intros r x r1 Hg H1. destruct (getopt_adds r _ _ Hg) as [l Hl]. rewrite H1 in Hl. symmetry in Hl. by apply app_eq_nil in Hl as [-> _]. }
  assert (∀ o, told [] o = o) as Htold by (intros []; unfold told; cbn; by rewrite app_nil_r).
  assert (Getopt.stderr p = []) as Hp by (induction Hr; eauto).
  revert o fuel. induction Hr as [p|p x p1 os q Hx Hr IH]; intros o fuel Hf; (destruct fuel as [|fuel]; [cbn in Hf; lia|]); cbn [read_options].
  - rewrite Hq. cbn [mbind outcome_bind]. by rewrite Hp, He, Htold.
  - assert (Getopt.stderr p1 = []) as Hp1 by (clear -Hr Hq He Hsilent; induction Hr; eauto).
    rewrite Hx. cbn [mbind outcome_bind foldl length] in *. rewrite Hp, Hp1, Htold. apply IH; [done..|lia].
Qed.

Definition option_letters : list jsstr := [jstr "s"; jstr "m"; jstr "n"; jstr "h"].

Lemma option_step_word o w : w ∉ option_letters →
  option_step o (Getopt.plain (Getopt.Str w)) =
  mkOptions (showhelp o) (notrun o) (styleType o) (num o) (queryStrings o ++ [Getopt.Str w]) (algorithm o) (errors o).
Proof.
  intros Hw. assert (w ≠ jstr "s" ∧ w ≠ jstr "m" ∧ w ≠ jstr "n" ∧ w ≠ jstr "h") as (Hs & Hm & Hn & Hh) by (unfold option_letters in Hw; set_solver).
  unfold option_step. cbn [Getopt.plain Getopt.option_ Getopt.optarg]. repeat (case_match; try done).
Qed.

Definition tool_options : list Getopt.decl := [is_flag "m" "mono"; takes_value "s" "stemmer"; takes_value "n" "number"; is_flag "h" "help"].

Definition start : options := mkOptions false false (jstr "console") 250 [] None [].

(** Queries for words of the documents, which the command line can express: the first
    is no option and not joined by [OR], and none is the letter of an option. *)
Record commanded (fuel : nat) (docs : list (jsstr * jsstr)) (qs : list Query.t) : Prop := {
  commanded_expressible : Forall expressible qs;
  commanded_first : ∃ q qs' c s, qs = q :: qs' ∧ Query.or q = false ∧ words q = [c :: s] ∧ c ≠ 45;
  commanded_letters : Forall (.∉ option_letters) (concat (words <$> qs));
  commanded_plain : words_plain fuel (concat (words <$> qs));
  commanded_words : Forall (λ q, searchable (alphabet (concat docs.*2)) (3 + zlen (alphabet (concat docs.*2))) (Query.word q)) qs;
}.

Lemma operands_pushed o ws : Forall (.∉ option_letters) ws →
  foldl option_step o ((λ w, Getopt.plain (Getopt.Str w)) <$> ws) =
  mkOptions (showhelp o) (notrun o) (styleType o) (num o) (queryStrings o ++ (Getopt.Str <$> ws)) (algorithm o) (errors o).
Proof.
  intros Hws. revert o. induction Hws as [|w ws Hw _ IH]; intros o; [destruct o; cbn; by rewrite app_nil_r|].
  cbn [fmap list_fmap foldl]. rewrite option_step_word, IH by done. cbn [showhelp notrun styleType num queryStrings algorithm errors].
  by rewrite <- app_assoc.
Qed.

Lemma slice_tail {A} (x : A) l : js_slice (x :: l) 1 (zlen (x :: l)) = l.
Proof.
  rewrite slice_range by (rewrite ?zlen_cons; pose proof (zlen_nonneg l); lia). change (drop _ (x :: l)) with l. apply take_ge. unfold zlen. cbn. lia.
Qed.

Lemma words_of ws : omap_list word_of (Getopt.Str <$> ws) = Ret ws.
Proof. induction ws as [|w ws IH]; [done|]. cbn [fmap list_fmap omap_list word_of mbind outcome_bind]. by rewrite IH. Qed.

Lemma one_word fuel docs qs : commanded fuel docs qs → (length (concat (words <$> qs)) = 1 ↔ length qs = 1)%nat.
Proof.
  intros [_ (q & qs' & c & s & -> & _ & Hq & _) _ _ _]. rewrite fmap_cons. cbn [concat]. rewrite Hq. cbn [length app].
  destruct qs' as [|q2 qs']; [done|]. rewrite fmap_cons. cbn [concat length]. rewrite length_app. unfold words at 1.
  destruct (Query.or q2); cbn [app length]; lia.
Qed.

Section command.
Context `{CaseMap, Runtime, NodePath} (extname : jsstr → jsstr).

(** The options and words that a command line gives to the search. *)
Lemma main_reads fuel f path xs mode n qs docs :
  existsSync f path = true → Forall (Getopt.item_ok tool_options) xs →
  foldl option_step start (concat (Getopt.meaning <$> xs)) = mkOptions false false mode n [] None [] →
  commanded fuel docs qs → (length (concat (Getopt.meaning <$> xs)) + length (concat (words <$> qs)) < fuel)%nat →
  main extname fuel f (path :: concat (Getopt.words <$> xs) ++ concat (words <$> qs)) =
  lines ← search extname fuel f (Some path) (Getopt.Str <$> concat (words <$> qs)) n (Style.new mode) None; Ret (banner :: lines).
Proof.
  intros Hex Hxs Hset Hqs Hf. destruct (commanded_first _ _ _ Hqs) as (q & qs' & c & s & -> & _ & Hq & Hc).
  pose proof (commanded_letters _ _ _ Hqs) as Hws. rewrite fmap_cons in *. cbn [concat] in *. rewrite Hq in *. cbn [app] in *.
  set (ws := concat (words <$> qs')) in *.
  destruct (Getopt.line_reads false tool_options xs (Getopt.Operands c s ws)) as (p & p' & r & Hp & Hr & Hend & _ & He); [decided..|done|done|].
  cbn [Getopt.tail_words Getopt.tail_meaning] in *. unfold main, open_index. rewrite Hex. cbv beta iota zeta. rewrite slice_tail.
  change (Getopt.optstring false tool_options) with declarations in Hp.
  match goal with |- ?m ≫= _ = _ => assert (m = Ret p) as -> by exact Hp end. cbn [mbind outcome_bind].
  rewrite (options_read p _ r p' _ fuel Hr Hend He) by (rewrite length_app, length_fmap; exact Hf). cbn [mbind outcome_bind].
  fold start. rewrite foldl_app, Hset, (operands_pushed _ ((c :: s) :: ws) Hws). cbn [showhelp notrun styleType num queryStrings algorithm errors app orb].
  by rewrite bool_decide_false by done.
Qed.

(** The search of an engine that is loaded. *)
Lemma engine_runs key docs ddic fuel f path engine qs M :
  ready engine key docs (alphabet (concat docs.*2)) M ddic → 3 + zlen (alphabet (concat docs.*2)) ≤ M →
  loadIndex extname f Okt.new path = Ret (Some engine, []) → commanded fuel docs qs →
  ∃ h rs r, Okt.search toLowerCase [] engine qs = Ret (h, SR.mkSummary rs (Some r)) ∧ Forall (fits docs) h ∧ SR.result_wf h r ∧ Forall (SR.result_wf h) rs ∧ SR.unitIds r = SR.merged_ids rs ∧ Forall2 (answers docs) qs rs ∧
    ∀ n style, let ws := concat (words <$> qs) in let summary := SR.mkSummary rs (Some r) in
      search extname fuel f (Some path) (Getopt.Str <$> ws) n style None =
      if decide (SR.size r = 0) then notFound fuel style h summary ws else showResult fuel engine style h summary n.
Proof.
  intros R HM Hload [Hexp (q & qs' & c & s & Hcons & _) _ _ Hsearch]. assert (qs ≠ []) as Hne by (by rewrite Hcons).
  pose proof (OktFile.searchable_loaded _ M _ HM Hsearch) as Hs.
  destruct (search_ready toLowerCase engine key docs _ M ddic R [] qs Hne Hs) as (h & rs & r & Hrun & Hr & Hids & Hall & Hrs).
  exists h, rs, r. split_and!; try done; [exact (search_fits toLowerCase engine key docs _ M ddic R qs _ _ _ Hs Hrun (Forall_nil_2 _))|].
  intros n style ws summary. unfold search. cbn [Web.object mbind outcome_bind]. rewrite Hload. cbn [mbind outcome_bind].
  unfold ws. rewrite words_of. cbn [mbind outcome_bind]. rewrite query_words_roundtrip by done. by rewrite Hrun.
Qed.

Lemma engine_prints key docs ddic fuel f path engine n qs M :
  ready engine key docs (alphabet (concat docs.*2)) M ddic → 3 + zlen (alphabet (concat docs.*2)) ≤ M →
  loadIndex extname f Okt.new path = Ret (Some engine, []) → names_plain fuel docs → (length docs + 45 < fuel)%nat → commanded fuel docs qs →
  ∃ lines, search extname fuel f (Some path) (Getopt.Str <$> concat (words <$> qs)) n on_terminal None = Ret lines ∧
    prints docs engine qs (concat (words <$> qs)) lines.
Proof.
  intros R HM Hload Hnames Hfuel Hqs. pose proof Hqs as [_ (q & qs' & c & s & Hcons & _ & Hq & _) _ Hplain _].
  destruct (engine_runs key docs ddic fuel f path engine qs M R HM Hload Hqs) as (h & rs & r & Hsearch & Hh & Hr & Hrs & Hids & Hall & Hrun).
  rewrite Hrun. eapply search_printed; try done; [by eapply one_word| |]; rewrite Hcons; [|done]. rewrite fmap_cons. cbn [concat]. by rewrite Hq.
Qed.

(** Without colours, a title cannot be shown. *)
Lemma title_throws fuel w : plain_text w → (length w + 19 < fuel)%nat →
  Style.convert fuel (Style.new (jstr "ignore")) (tagged "title" w) = Throw "TypeError".
Proof.
  intros Hw Hfuel. pose proof (tagged_length "title" w ltac:(decided)) as Hl. rewrite <- (print_plain "title" w Hw) in *.
  destruct (tag_node_ok "title" w ltac:(decided)) as [Hdoc _]. unfold Style.convert, tag_node in *. set (kids := if decide _ then _ else _) in *.
  destruct (read_document _ _ _ kids Hdoc eq_refl) as (s & Hs & He). rewrite (Sax.parse_more _ fuel _ _ _ Hs) by lia.
  cbn [mbind outcome_bind]. by rewrite He.
Qed.

Lemma mono_unit_throws key docs chars M ddic fuel o h lines ref u n :
  names_plain fuel docs → ready o key docs chars M ddic → h !! ref = Some u → fits docs u →
  show_unit fuel o (Style.new (jstr "ignore")) n h lines ref = Throw "TypeError".
Proof.
  intros Hnames R Hu Hf. pose proof Hf as (_ & (d & Hd) & _). destruct (document_read key docs chars M ddic o _ d R Hd) as (m & Hm & Hi & _).
  destruct (heading_plain docs fuel Hnames u Hf) as [[Ht Htl] _]. unfold heading in *. rewrite Hd in *.
  change (default [] (fst <$> Some d)) with d.1 in *. cbn [fst] in *.
  unfold show_unit. rewrite Hu. cbn [of_option mbind outcome_bind]. rewrite Hm. cbn [mbind outcome_bind]. rewrite Hi. cbn [mbind outcome_bind].
  destruct (split_first 1 [] d.1) as (w0 & l & Hw). rewrite Hw in *. change (printed ((w0 :: l) !! 0%nat)) with w0. by rewrite title_throws.
Qed.

(** The documents are indexed and saved, and the file is loaded. *)
Lemma saved_loaded key docs density op :
  indexable docs → OktFile.names_ok key docs → 34 ∉ default (jstr "searchIndex") (MkIndex.name op) →
  ∃ file engine M, (o ← index_documents key docs density; Okt.dump o) = Ret file ∧ Okt.load Okt.new file = Ret engine ∧
    ready engine key docs (alphabet (concat docs.*2)) M (Text.cacheRange density) ∧ 3 + zlen (alphabet (concat docs.*2)) ≤ M ∧
    ∀ f path data encoding, MkIndex.index_file op file = Some (path, data, encoding) → extname path = extension op →
      readFileSync f path encoding = data → loadIndex extname f Okt.new path = Ret (Some engine, []).
Proof.
  intros Hx (Hkey & Hnms & Hcs) Hname. destruct (index_engine key docs density Hx) as (o & Ho & R & Hlab & Hse).
  assert (OktFile.storable o (alphabet (concat docs.*2)) (concat docs.*2)) as Hst by (by eapply OktFile.ready_storable).
  destruct (OktFile.load_ready _ _ _ _ _ _ R Hst) as (file & o' & M & Hd & Hl & HM & R').
  exists file, o', M. split_and!; [by rewrite Ho; cbn [mbind outcome_bind]|done|done|done|]. intros f path data encoding Hfile Hext Hread.
  by eapply written_loaded; [..|exact (dump_units o _ _ file Hst Hd)|].
Qed.

(** What the text of a command promises about its documents and words. *)
Record runs_on (fuel : nat) (key : jsstr) (docs : list (jsstr * jsstr)) (op : MkIndex.options) (xs : list Getopt.item) (mode : jsstr) (n : Z)
    (qs : list Query.t) : Prop := {
  runs_docs : indexable docs ∧ OktFile.names_ok key docs;
  runs_names : names_plain fuel docs ∧ (length docs + 45 < fuel)%nat;
  runs_variable : 34 ∉ default (jstr "searchIndex") (MkIndex.name op);
  runs_items : Forall (Getopt.item_ok tool_options) xs;
  runs_options : foldl option_step start (concat (Getopt.meaning <$> xs)) = mkOptions false false mode n [] None [];
  runs_words : commanded fuel docs qs;
  runs_line : (length (concat (Getopt.meaning <$> xs)) + length (concat (words <$> qs)) < fuel)%nat;
}.

(** A file that the generator wrote is there. *)
Definition holds_index (op : MkIndex.options) (file : jsstr) (f : files) (path : jsstr) : Prop :=
  ∃ data encoding, MkIndex.index_file op file = Some (path, data, encoding) ∧ extname path = extension op ∧
    existsSync f path = true ∧ readFileSync f path encoding = data.

(** C3: documents that were indexed and saved, as any type of file the generator
    writes, are searched by the command.  For words that can be searched and are no
    options, it reads its options and words, loads the file and prints the names of
    exactly the documents that the words ask for, each followed by an excerpt, and
    their number.  The names are in the order of the scores that the engine in the
    file gives to the hits, the best score first.  If there are none it says so, or
    what is expected without each of several words. *)
Theorem command_search fuel key docs density op xs n qs (Hrun : runs_on fuel key docs op xs (jstr "console") n qs) :
  ∃ file engine, (o ← index_documents key docs density; Okt.dump o) = Ret file ∧ Okt.load Okt.new file = Ret engine ∧
    ∀ f path, holds_index op file f path →
    ∃ lines, main extname fuel f (path :: concat (Getopt.words <$> xs) ++ concat (words <$> qs)) = Ret (banner :: lines) ∧
      prints docs engine qs (concat (words <$> qs)) lines.
Proof.
  destruct Hrun as [[Hx Hok] [Hnames Hfuel] Hname Hxs Hset Hqs Hline].
  destruct (saved_loaded key docs density op Hx Hok Hname) as (file & engine & M & Hfile & Hengine & R & HM & Hload).
  exists file, engine. split; [exact Hfile|]. split; [exact Hengine|]. intros f path (data & encoding & Hd & Hext & Hex & Hread).
  destruct (engine_prints key docs _ fuel f path engine n qs M R HM (Hload _ _ _ _ Hd Hext Hread) Hnames Hfuel Hqs) as (lines & Hrun & Hp).
  exists lines. split; [|exact Hp]. rewrite (main_reads fuel f path xs _ n qs docs Hex Hxs Hset Hqs Hline). fold on_terminal. by rewrite Hrun.
Qed.

(** C40: asked to print without colours, the command throws a TypeError as soon as a
    document is found: the style without marks has no entry for titles. *)
Theorem mono_throws fuel key docs density op xs n q k off
  (Hrun : runs_on fuel key docs op xs (jstr "ignore") n [q]) (Hocc : matches docs (Query.word q) k off) :
  ∃ file, (o ← index_documents key docs density; Okt.dump o) = Ret file ∧ ∀ f path, holds_index op file f path →
    main extname fuel f (path :: concat (Getopt.words <$> xs) ++ concat (words <$> [q])) = Throw "TypeError".
Proof.
  destruct Hrun as [[Hx Hok] [Hnames Hfuel] Hname Hxs Hset Hqs Hline].
  destruct (saved_loaded key docs density op Hx Hok Hname) as (file & engine & M & Hfile & Hengine & R & HM & Hload).
  exists file. split; [exact Hfile|]. intros f path (data & encoding & Hd & Hext & Hex & Hread).
  destruct (engine_runs key docs _ fuel f path engine [q] M R HM (Hload _ _ _ _ Hd Hext Hread) Hqs) as (h & rs & r & Hsearch & Hh & Hr & Hrs & Hids & Hall & Hrun).
  rewrite (main_reads fuel f path xs _ n [q] docs Hex Hxs Hset Hqs Hline), Hrun. clear Hrun.
  destruct rs as [|r1 [|? ?]]; [by inversion Hall| |by apply Forall2_length in Hall]. apply Forall2_cons_1 in Hall as [(_ & _ & Ha & _) _].
  assert (k ∈ SR.merged_ids [r1]) as Hk by (apply Ha; by eexists). pose proof (SR.wf_size h r Hr) as Hsize.
  destruct (sort_found key docs _ M _ engine h [r1] r R Hh Hr) as (h1 & refs & Hs & Hh1 & Hrk & Hl).
  pose proof (ranked_ids engine h r _ Hr Hrk) as Hp. rewrite Hids in Hp.
  rewrite decide_False by (rewrite Hsize, Hids; destruct (SR.merged_ids [r1]); [set_solver|unfold zlen; cbn; lia]).
  unfold showResult, sortResult. rewrite Hs. cbn [mbind outcome_bind].
  pose proof (omap_full _ refs Hl) as Hfull. rewrite <- Hp in Hk. destruct Hfull as [|ref u refs us Hu _]; [set_solver|]. cbn [ofold].
  assert (fits docs u) as Hf by (rewrite Forall_lookup in Hh1; by eapply Hh1). by erewrite mono_unit_throws.
Qed.
End command.

(** ** Instances *)

#[local] Instance flat_path : NodePath := {|
  cwd := jstr "/www";
  resolve l := Lang.join (jstr "/") l;
  relative from to := js_slice to (zlen from + 1) (zlen to);
  dirname path := jstr "/www";
|}.

Definition saved_as (type : string) : MkIndex.options :=
  MkIndex.mkOptions [] (jstr "/www") (jstr "/") (jstr "search") false false (jstr "h1") (jstr type) (jstr "html") false [] None (Text.percent 5) None [].

Definition sample_ext (path : jsstr) : jsstr := js_slice path (lastIndexOf path 46) (zlen path).

(** The only file. *)
Definition disk (op : MkIndex.options) (file : jsstr) : files :=
  mkFiles (λ _, true) (λ _ _, match MkIndex.index_file op file with Some (_, data, _) => data | None => [] end).

Definition numbered : list Getopt.item := [Getopt.Separate [] (takes_value "n" "number") (jstr "40")].
Definition monochrome : list Getopt.item := [Getopt.Long (is_flag "m" "mono") (jstr "mono")].
Definition world_or_hello : list Query.t := [Query.mk (jstr "world") false false false; Query.mk (jstr "hello") true false true].
Definition only_world : list Query.t := [Query.mk (jstr "world") false false false].

Lemma sample_commanded qs : qs = world_or_hello ∨ qs = only_world → commanded 200 sample_docs qs.
Proof.
  intros [-> | ->]; (split; [unfold expressible; decided| |unfold option_letters; decided|unfold words_plain, plain_text; decided|unfold searchable; decided]).
  all: eexists _, _, _, _; split_and!; [reflexivity|reflexivity|reflexivity|decided].
Qed.

Lemma command_search_witness : ∃ file engine,
  (o ← index_documents (jstr "document") sample_docs (Text.percent 5); Okt.dump o) = Ret file ∧
  ∃ lines, @main ascii_case plain_runtime sample_ext 200 (disk (saved_as "commonjs") file)
      [jstr "/www/search/searchindex.js"; jstr "-n"; jstr "40"; jstr "world"; jstr "OR"; [34] ++ jstr "hello" ++ [34]] = Ret (banner :: lines) ∧
    @prints ascii_case sample_docs engine world_or_hello [jstr "world"; jstr "OR"; [34] ++ jstr "hello" ++ [34]] lines.
Proof.
  destruct (@command_search ascii_case plain_runtime flat_path sample_ext 200 (jstr "document") sample_docs (Text.percent 5) (saved_as "commonjs")
    numbered 40 world_or_hello) as (file & engine & Hfile & _ & Hmain).
  - split.
    + split; [exact sample_docs_ok|exact OktFile.sample_names_ok].
    + unfold names_plain, plain_text. decided.
    + decided.
    + apply Forall_singleton. unfold Getopt.item_ok. decided.
    + vm_compute. reflexivity.
    + apply sample_commanded. by left.
    + vm_compute. lia.
  - exists file, engine. split; [exact Hfile|]. apply (Hmain (disk (saved_as "commonjs") file) (jstr "/www/search/searchindex.js")).
    eexists _, _. split; [reflexivity|]. split; [vm_compute; reflexivity|]. split; reflexivity.
Defined.

Lemma mono_throws_witness : ∃ file,
  (o ← index_documents (jstr "document") sample_docs (Text.percent 5); Okt.dump o) = Ret file ∧
  @main ascii_case plain_runtime sample_ext 200 (disk (saved_as "base64") file) [jstr "/www/search/searchindex.okt.b64"; jstr "--mono"; jstr "world"] =
  Throw "TypeError".
Proof.
  destruct (@mono_throws ascii_case plain_runtime flat_path sample_ext 200 (jstr "document") sample_docs (Text.percent 5) (saved_as "base64")
    monochrome 250 (Query.mk (jstr "world") false false false) 0 6) as (file & Hfile & Hmain).
  - split.
    + split; [exact sample_docs_ok|exact OktFile.sample_names_ok].
    + unfold names_plain, plain_text. decided.
    + decided.
    + apply Forall_singleton. unfold Getopt.item_ok. decided.
    + vm_compute. reflexivity.
    + apply sample_commanded. by right.
    + vm_compute. lia.
  - apply (sample_matches 0 6 (jstr "one", jstr "hello world")); [reflexivity|lia|vm_compute; discriminate|reflexivity].
  - exists file. split; [exact Hfile|]. apply (Hmain (disk (saved_as "base64") file) (jstr "/www/search/searchindex.okt.b64")).
    eexists _, _. split; [reflexivity|]. split; [vm_compute; reflexivity|]. split; reflexivity.
Defined.
